(* ===== verification/_CoqProject ===== *)
-Q . S2P
Prelude.v
State.v
ReplicaSet.v
Defs.v
Wire.v
Transport.v
Paxos.v
PaxosInv.v
PaxosStep.v
PaxosElect.v
PaxosSafety.v
PaxosSystem.v
PaxosLocal.v
PaxosReplica.v
FastPaxos.v
FastSelect.v
FastLocal.v
CurpConflicts.v
Curp.v
CurpWitness.v
SwiftQuorum.v
SwiftHashLog.v
SwiftSets.v
SwiftConflicts.v
Swift.v
SwiftCore.v
SwiftRecovery.v
SwiftInv.v
SwiftNormal.v
SwiftReach.v
SwiftBatch.v
SwiftReplica.v
SwiftScenarios.v
SwiftElect.v
CurpClient.v
Epaxos.v
EpaxosCore.v
EpaxosRecovery.v
EpaxosExecute.v
EpaxosOrder.v
EpaxosReplica.v
EpaxosEnds.v
EpaxosSteps.v
EpaxosShape.v
EpaxosTotal.v
EpaxosScenarios.v
Pql.v
PqlLease.v
PqlLeasePair.v
PqlLeaseSafety.v
PqlLeaseLive.v
PqlCore.v
PqlTick.v
PqlScenarios.v
PqlInv.v
PqlReach.v
Bodega.v
BodegaCore.v
BodegaMoves.v
BodegaLocal.v
BodegaLease.v
BodegaCompact.v
KcensusSeq.v
KcensusReq.v
KcensusPlan.v
