(* ===== verification/Prelude.v ===== *)
(** * ConsensusArena: a verification library

    ConsensusArena ([src/]) is a framework in which consensus protocols share
    one runtime.  A replica is an event loop ([replica/]) around a protocol
    core: the loop hands the core proposals, messages and timer ticks one at a
    time, the core changes its own state and emits messages and replies, and the
    decided commands run against one key-value store ([state/]).  A client sends
    proposals and decides from the replies when a command is complete
    ([client/]).  The protocols are packages of the same shape: [core.go] (state
    and normal case), [recovery.go] (elections and repair), [execute.go],
    [client.go], [replica.go] (the adapter between loop and core).

    The library models the shared packages and the protocols one by one.  A Go
    method is one Rocq function from the state record to an [outcome]: a result,
    a panic with its reason, or (for the fuelled functions only) exhausted fuel.

    ** The files

    Shared packages
    - [Prelude]: this file; record update, machine integers ([wrapU], [wrapS]),
      the [outcome] monad and its rules ([returns]: no panic and no exhausted
      fuel; [ensures]: partial; [ends]: no exhausted fuel), loops ([forEach]), the
      iteration order of maps ([range_order]), hint databases.
    - [State] ([state/state.go], [state/validation.go]): commands, [Conflict],
      [Execute] over an ordered map (the class [TreeMap], a package outside the
      repository, with [TreeMapLaws]), preloading, wire encoding, validation;
      the class [StateMachine] is what the cores assume of the store, and the
      store is an instance.
    - [ReplicaSet] ([replicaset/set.go]): sets of identities in one word, refined
      to finite sets, and the intersection of quorums.
    - [Defs] ([replica/defs/], [protocol/machine.go]): identities, proposals,
      ticks, clocks.
    - [Transport] ([replica/transport.go]): the fan-out of a message to a plan of
      recipients, equal to a reference definition ([SendToAll_tried]).
    - [Wire] ([wireproto/frame.go], [wireproto/validate.go]): frames and the
      bounds check of their payloads, over [protowire] and generated message
      methods as parameters.

    Classic Paxos ([paxos/])
    - [Paxos]: the core.  [PaxosInv], [PaxosStep], [PaxosElect], [PaxosSafety]:
      the invariant of a cluster and its preservation by every method.
      [PaxosSystem]: the cluster as a transition system; agreement of decisions,
      executions and replies, no panic.  [PaxosLocal]: functional contracts of
      single methods.  [PaxosReplica] ([paxos/replica.go]): the adapter refines
      the core.

    Fast Paxos ([fastpaxos/])
    - [FastPaxos]: the core.  [FastSelect]: the value selection rule.
      [FastLocal]: what a replica never takes back, and execution.

    CURP ([curp/])
    - [CurpConflicts]: the conflict index.  [Curp]: the core.  [CurpWitness]: the
      witness table and its recovery.  [CurpClient]: the client's completion
      rule ([curp/client.go], [client/completion.go]).

    EPaxos ([epaxos/])
    - [Epaxos]: state, messages, conflict index and attributes.  [EpaxosCore]:
      pre-accept, accept, commit ([epaxos/core.go]).  [EpaxosRecovery]
      ([epaxos/recovery.go]).  [EpaxosExecute] ([epaxos/execute.go]): the
      execution scheduler.
    - [EpaxosReplica]: dispatch, the adapter, the wire, runs of a cluster.
      [EpaxosOrder]: correctness of one call of the scheduler.  [EpaxosSteps]: the
      handlers keep what it assumes, so every step of a run executes dependencies
      first.  [EpaxosEnds]: the scheduler ends, from any state.  [EpaxosShape],
      [EpaxosTotal]: the invariant of a replica and that no handler panics.
      [EpaxosScenarios]: runs in which recovery goes wrong.

    Swift ([swift/])
    - [SwiftQuorum]: quorum families and ballots.  [SwiftHashLog]: the hash log of
      a key.  [SwiftSets]: message sets, dependency lists.  [SwiftConflicts]:
      the conflict information of a key.
    - [Swift], [SwiftCore] ([core.go], [execute.go], [events.go],
      [hash_boundary.go]), [SwiftRecovery] ([recovery.go]): messages, state, the
      normal case over a heap of descriptors and the queue of local work, and
      recovery.  [SwiftBatch] ([batch.go]): batching of acknowledgements.
      [SwiftReplica] ([replica.go]): the steps of the adapter.
    - [SwiftInv], [SwiftNormal], [SwiftReach]: the invariant of a replica and that
      every handler keeps it.  [SwiftElect]: the search for a live quorum, the
      selection and the [Sync] of a new leader.  [SwiftScenarios]: runs of a
      cluster in which replicas diverge.

    PQL, Paxos with quorum leases ([pql/])
    - [Pql]: packets, their validation and lease policies ([wire.go],
      [policy.go]).  [PqlLease]: the lease state ([lease.go]).  [PqlLeasePair],
      [PqlLeaseSafety], [PqlLeaseLive]: a grantor and a holder, the system of all
      lease states in real time, and an exchange that grants a lease.
    - [PqlCore] ([core.go], [recovery.go], [execute.go]): a replica with its
      command log and its configuration log.  [PqlTick] ([core.go],
      [configuration.go]): timers, elections, lease configurations.  [PqlInv]:
      the invariant every handler keeps.  [PqlReach]: reachable states.
      [PqlScenarios]: a run with a stale read.

    Bodega, Paxos with roster leases ([bodega/])
    - [Bodega]: messages, their validation, rosters, the queue of waiting reads
      ([wire.go], [batch.go], [local_read.go]).  [BodegaCore]: a replica
      ([core.go], [recovery.go], [lease.go], [execute.go]).
    - [BodegaMoves]: what the events of a replica do to its leases.
      [BodegaLease]: a cluster in real time.  [BodegaCompact]: which log entries a
      replica still has.  [BodegaLocal]: responders of a key, the prefix a majority
      has accepted.

    KCensus ([kcensus/]), the parts that do not take part in agreement
    - [KcensusSeq] ([lifecycle.go]): sets of completed requests.  [KcensusReq]
      ([requirements.go]): what voters have to know.  [KcensusPlan]
      ([graph_plan.go]): the planned propagation of that knowledge.

    ** What the theorems show

    - Safety of classic Paxos over an asynchronous network that loses, repeats
      and reorders packets: [decisions_agree], [executions_agree],
      [replies_agree], [decisions_backed], and [events_succeed] (no event of a
      reachable cluster panics).  The proof goes through every method of the
      core, its timers and its election included.
    - In any run of a cluster each step of an EPaxos replica executes dependencies
      first ([execution_order]), and its search ends from any state
      ([tick_ends]).  In any run of a cluster no proposal, message, recovery or
      repair panics or loops ([cluster_steps_return]).  Agreement does not hold: a
      recovery that misses a fast commit makes two replicas execute conflicting
      writes in opposite orders ([recovery_diverges]).  A late reply can reopen an
      executed instance ([executed_reopened]); [execution_order] is about each
      step for that reason, and does not exclude that a later step executes the
      instance again.
    - CURP's fast path: what a replica records commutes ([witness_commutes]), what
      a client completed is recovered ([completion_justified],
      [recovered_complete]), in any order ([recovered_commute]); the index
      behind it is exact ([index_refines_requests]).
    - Fast Paxos selects the only value a fast quorum may have decided
      ([selectValue_fast], [selectValue_classic]) and forgets nothing
      ([nothing_forgotten], [fast_apply_complete]).
    - PQL's leases: while a replica may read under its leases, half of the others
      are bound to it and accept no write of another epoch, whatever the clock
      skews and the network ([lease_exclusion]), and a grant is reached in one
      exchange ([lease_established]).  Every read served from the leases, on
      whatever event, is answered under valid leases and sees every write its own
      replica has accepted ([local_read_guard] over the history [served], on
      [updating_exact]), and every event ends ([events_end]).  Reads are not linearizable: a holder looks at
      its grantors' frontiers only when it activates ([stale_read]).
    - Bodega's rosters: two replicas are not stable in rosters of different
      ballots at one time ([stable_rosters_agree]), and a stable replica has
      executed all that a majority had accepted when it entered the roster
      ([stable_quorum]), whatever the clock skews and the network; a slot in
      a replica's log stays there until every replica has executed it
      ([compaction_safe]); the responders of a key are found
      ([responders_of_key]); every event ends ([bodega_events_end]).
    - A Swift replica executes a command once and after its dependencies
      ([executions_ordered]), and commits on complete message sets only
      ([commit_justified]).  A new leader selects what the newest reports accept
      ([recovery_keeps_accepted]), finds a live quorum ([alive_ballot_found]) and
      is understood ([sync_roundtrip]); the batcher loses nothing
      ([flush_complete], [batches_complete]).  Agreement does not hold: the slow
      path may complete before the leader's dependencies are installed
      ([early_slow_ack_diverges]), and recovery orders again what its reporters
      have executed ([recovery_forgets]).
    - KCensus validates requirements so that any majority has a witness of two
      ([requirements_compatible]); planned propagation is causal and covers them,
      in 64-bit times and without a panic, for latencies of at most a day
      ([propagation_sound]); the sets of completed requests are exact
      ([sequences_exact]).
    - Data structures refine their specifications: replica sets, the hash log,
      message sets, dependency lists, quorum ballots, the store's conflict
      relation ([nonconflicting_commute]) and encoding ([Command_roundtrip]).
    - Frames round-trip and bad ones are refused ([frame_roundtrip],
      [frame_accepted]); the bounds check decides exactly the payloads that the
      narrowing decoders read without loss ([Validate_spec]).
    - Functional contracts of single operations:
      [promise_pages_reassemble], [apply_complete], [adapter_refines_core],
      [answers_bounded], [validated_commands_run].

    ** Conventions, bounds and fuel

    - Integers are [Z] with the wrap-around of their Go type written where the
      source computes at that width; bounds that exclude it are theorems
      ([events_succeed] keeps the ballots in range).
    - The order in which Go ranges over a map is an argument of the model,
      [range_order ord m]; the theorems hold for every order.  Clock readings and
      views of who is alive are arguments too.
    - Output callbacks append to a trace ([out]); the network of a cluster is the
      set of packets in the traces.
    - Fuel: [apply] loops take the size of the log plus one (each round executes
      a slot of the log); the reentrant dispatchers of [Paxos] and [Curp] take a
      small constant ([PaxosSystem.dispatchFuel] suffices by [events_succeed]);
      the search of [EpaxosExecute] takes the number of instances plus one, each
      visit marking one ([tick_ends]); [Range] takes 64 rounds; [Validate]
      takes its depth and the length of the payload plus one ([Validate_spec]);
      the search of [SwiftRecovery] for a live quorum takes one round more than
      the replica leads quorums ([alive_ballot_found]); the calls a Bodega or PQL
      replica makes to itself end within a constant ([bodega_events_end],
      [events_end]).
    - Memory is what the code shares: the hash log is a heap of nodes, EPaxos
      instances and the records of a log are updated in place by identity.

    ** Not modelled

    - The runtime ([replica/], [rpc/], the sockets of [client/]), the master,
      configuration, logging: I/O, goroutines and process glue.  A core sees
      them as the order of its events, over which the theorems quantify.
    - Generated protobuf code; message types are records.
    - [placement/] computes in floating point.
    - Of the modelled protocols: the cluster safety of Fast Paxos and of CURP's
      log, the agreement of EPaxos in runs without recovery and the agreement of
      PQL's and Bodega's replicas on their logs are not proved.
    - Clients other than CURP's, placement plans and registration of message
      types.
    - The rest of [kcensus/]: its values, slots, reads, recovery and shards. *)
From stdpp Require Import gmap strings list fin_maps sorting.
From Stdlib Require Import Lia.

(** ** Record update

    [c <| f := v |>] is a copy of [c] whose field [f] is [v].  A record type
    gives its eta expansion once ([Eta]); every setter is then derived from it
    by [mk_setter]. *)
Class Eta (R : Type) := eta : R → R.
Class Setter {R E : Type} (getter : R → E) := set : (E → E) → R → R.
Arguments set {R E} getter {_} _ _.

Ltac mk_setter :=
  lazymatch goal with
  | |- @Setter ?R ?E ?g =>
      let e := eval hnf in (@eta R _) in
      lazymatch eval pattern g in e with
      | ?F _ =>
          let b := eval cbv beta in (λ f : E → E, F (λ r : R, f (g r))) in
          exact b
      end
  end.

(** The development's hints and rewrite rules. *)
Create HintDb arena.
Create Rewrite HintDb arena_rw.

Declare Scope arena_scope.
Delimit Scope arena_scope with arena.
Notation "c <| f := v |>" := (set f (λ _, v) c)
  (at level 12, left associativity, f at level 0, v at level 200,
   format "c  <|  f  :=  v  |>") : arena_scope.
Notation "c <| f ::= g |>" := (set f g c)
  (at level 12, left associativity, f at level 0, g at level 200,
   format "c  <|  f  ::=  g  |>") : arena_scope.
Open Scope arena_scope.
Open Scope Z_scope.

(** ** Machine integers

    A Go integer is a [Z] together with the wrap-around of its type, applied
    where the source does arithmetic at that width. *)
Definition wrapU (w z : Z) : Z := z `mod` 2 ^ w.
Definition wrapS (w z : Z) : Z := (z + 2 ^ (w - 1)) `mod` 2 ^ w - 2 ^ (w - 1).
Abbreviation u8 := (wrapU 8).
Abbreviation u16 := (wrapU 16).
Abbreviation u32 := (wrapU 32).
Abbreviation u64 := (wrapU 64).
Abbreviation i32 := (wrapS 32).
Abbreviation i64 := (wrapS 64).

Lemma wrapU_bound w z : 0 ≤ w → 0 ≤ wrapU w z < 2 ^ w.
Proof. intros. unfold wrapU. apply Z.mod_pos_bound. lia. Qed.

Lemma wrapU_id w z : 0 ≤ z < 2 ^ w → wrapU w z = z.
Proof. intros. unfold wrapU. by apply Z.mod_small. Qed.

Lemma wrapU_idemp w z : 0 ≤ w → wrapU w (wrapU w z) = wrapU w z.
Proof. intros. apply wrapU_id. by apply wrapU_bound. Qed.

Lemma pow_half w : 0 < w → 2 ^ w = 2 * 2 ^ (w - 1).
Proof. intros. rewrite <- Z.pow_succ_r by lia. f_equal. lia. Qed.

Lemma wrapS_bound w z : 0 < w → - 2 ^ (w - 1) ≤ wrapS w z < 2 ^ (w - 1).
Proof.
  intros Hw. unfold wrapS. pose proof (pow_half w Hw).
  assert (0 < 2 ^ (w - 1)) by lia.
  pose proof (Z.mod_pos_bound (z + 2 ^ (w - 1)) (2 ^ w)). lia.
Qed.

Lemma wrapS_id w z : 0 < w → - 2 ^ (w - 1) ≤ z < 2 ^ (w - 1) → wrapS w z = z.
Proof.
  intros Hw Hz. unfold wrapS. pose proof (pow_half w Hw).
  rewrite Z.mod_small; lia.
Qed.

Lemma wrapS_wrapU w z : 0 < w → wrapS w (wrapU w z) = wrapS w z.
Proof.
  intros Hw. unfold wrapS, wrapU. f_equal.
  by rewrite Zplus_mod_idemp_l.
Qed.

Lemma wrapU_wrapS w z : 0 < w → wrapU w (wrapS w z) = wrapU w z.
Proof.
  intros Hw. unfold wrapS, wrapU.
  rewrite Zminus_mod_idemp_l. f_equal. lia.
Qed.

(** ** Outcomes

    A handler returns, panics (with the reason the code gives) or, for the
    fuelled reentrant dispatchers only, runs out of fuel. *)
Inductive outcome (A : Type) : Type :=
  | Done (a : A)
  | Panicked (why : string)
  | OutOfFuel.
Arguments Done {A} a.
Arguments Panicked {A} why.
Arguments OutOfFuel {A}.

#[export] Instance outcome_ret : MRet outcome := @Done.
#[export] Instance outcome_bind : MBind outcome := λ A B k o,
  match o with
  | Done a => k a
  | Panicked why => Panicked why
  | OutOfFuel => OutOfFuel
  end.

(** [for _, x := range l { f x }] with an early exit on a panic. *)
Fixpoint forEach {A S : Type} (f : A → S → outcome S) (l : list A) (s : S) : outcome S :=
  match l with
  | [] => Done s
  | x :: l => s ← f x s; forEach f l s
  end.

(** [returns o Q]: the computation returns, and its result satisfies [Q]. *)
Definition returns {A : Type} (o : outcome A) (Q : A → Prop) : Prop :=
  match o with Done a => Q a | _ => False end.

#[export] Instance returns_proper {A} (o : outcome A) :
  Proper (pointwise_relation A impl ==> impl) (returns o).
Proof. intros P Q HPQ. destruct o; simpl; [apply HPQ | done | done]. Qed.

Lemma returns_mono {A} (o : outcome A) (P Q : A → Prop) :
  returns o P → (∀ a, P a → Q a) → returns o Q.
Proof. destruct o; simpl; naive_solver. Qed.

Lemma returns_bind {A B} (o : outcome A) (k : A → outcome B) (P : A → Prop) (Q : B → Prop) :
  returns o P → (∀ a, P a → returns (k a) Q) → returns (o ≫= k) Q.
Proof. destruct o; simpl; naive_solver. Qed.

Lemma returns_Done {A} (o : outcome A) (Q : A → Prop) a : o = Done a → returns o Q → Q a.
Proof. by intros ->. Qed.

Lemma returns_inv {A} (o : outcome A) (Q : A → Prop) :
  returns o Q → ∃ a, o = Done a ∧ Q a.
Proof. destruct o; simpl; naive_solver. Qed.

(** The result of a computation that returns, for concrete runs. *)
Definition is_done {A} (o : outcome A) : bool := match o with Done _ => true | _ => false end.
Definition result_or {A} (d : A) (o : outcome A) : A := match o with Done a => a | _ => d end.
Lemma result_or_done {A} (d : A) o : is_done o = true → o = Done (result_or d o).
Proof. by destruct o. Qed.

(** The loop rule: [I] is indexed by the elements still to be visited. *)
Lemma returns_forEach {A S} (f : A → S → outcome S) (I : list A → S → Prop) l s :
  I l s →
  (∀ x l s, I (x :: l) s → returns (f x s) (I l)) →
  returns (forEach f l s) (I []).
Proof.
  intros HI Hf. revert s HI. induction l as [|x l IH]; intros s HI; [done|].
  simpl. eapply returns_bind; [by apply Hf|]. apply IH.
Qed.

(** The loop rule when every visited element satisfies [P]. *)
Lemma returns_forEach_all {A S} (f : A → S → outcome S) (P : A → Prop) (I : S → Prop) l s :
  I s → Forall P l → (∀ x s, P x → I s → returns (f x s) I) →
  returns (forEach f l s) I.
Proof.
  intros HI HP Hf. revert s HI. induction HP as [|x l Hx _ IH]; intros s HI; [done|].
  simpl. eapply returns_bind; [by apply Hf|]. apply IH.
Qed.

(** [ensures o Q]: if the computation returns, its result satisfies [Q]. *)
Definition ensures {A : Type} (o : outcome A) (Q : A → Prop) : Prop :=
  match o with Done a => Q a | _ => True end.

Lemma ensures_mono {A} (o : outcome A) (P Q : A → Prop) :
  ensures o P → (∀ a, P a → Q a) → ensures o Q.
Proof. destruct o; simpl; auto. Qed.

Lemma ensures_bind {A B} (o : outcome A) (k : A → outcome B) (P : A → Prop) (Q : B → Prop) :
  ensures o P → (∀ a, P a → ensures (k a) Q) → ensures (o ≫= k) Q.
Proof. destruct o; simpl; auto. Qed.

Lemma ensures_Done {A} (o : outcome A) (Q : A → Prop) a : o = Done a → ensures o Q → Q a.
Proof. by intros ->. Qed.

Lemma ensures_forEach {A S} (f : A → S → outcome S) (I : S → Prop) l s :
  I s → (∀ x s, I s → ensures (f x s) I) → ensures (forEach f l s) I.
Proof.
  intros HI Hf. revert s HI. induction l as [|x l IH]; intros s HI; [done|].
  simpl. eapply ensures_bind; [by apply Hf|]. apply IH.
Qed.

Lemma ensures_forEach_in {A S} (f : A → S → outcome S) (I : S → Prop) l s :
  I s → (∀ x s, x ∈ l → I s → ensures (f x s) I) → ensures (forEach f l s) I.
Proof.
  revert s. induction l as [|x l IH]; intros s HI Hf; [done|]. cbn.
  eapply ensures_bind; [by apply Hf; [left|]|]. intros s' Hs'. apply IH; [done|]. intros y t Hy. apply Hf. by right.
Qed.

(** [ends o Q]: the computation does not run out of fuel, and if it returns, its
    result satisfies [Q]. *)
Definition ends {A : Type} (o : outcome A) (Q : A → Prop) : Prop :=
  match o with Done a => Q a | Panicked _ => True | OutOfFuel => False end.

Lemma ends_mono {A} (o : outcome A) (P Q : A → Prop) : ends o P → (∀ a, P a → Q a) → ends o Q.
Proof. destruct o; cbn; auto. Qed.
Lemma ends_bind {A B} (o : outcome A) (k : A → outcome B) (P : A → Prop) (Q : B → Prop) :
  ends o P → (∀ a, P a → ends (k a) Q) → ends (o ≫= k) Q.
Proof. destruct o; cbn; auto. Qed.
Lemma ends_Done {A} (o : outcome A) (Q : A → Prop) a : o = Done a → ends o Q → Q a.
Proof. by intros ->. Qed.
Lemma ends_forEach {A S} (f : A → S → outcome S) (P : A → Prop) (I : S → Prop) l s :
  I s → (∀ x, x ∈ l → P x) → (∀ x s, P x → I s → ends (f x s) I) → ends (forEach f l s) I.
Proof.
  intros HI HP Hf. revert s HI. induction l as [|x l IH]; intros s HI; [done|]. cbn.
  eapply ends_bind; [apply Hf; [apply HP; left|done]|]. apply IH. intros y Hy. apply HP. by right.
Qed.

Lemma foldl_ind {A S} (f : S → A → S) (I : S → Prop) l s :
  I s → (∀ s x, I s → I (f s x)) → I (foldl f s l).
Proof. intros HI Hf. revert s HI. induction l as [|x l IH]; intros s HI; [done|]. apply IH; auto. Qed.

Lemma foldl_ind_in {A S} (f : S → A → S) (I : S → Prop) l s :
  I s → (∀ s x, x ∈ l → I s → I (f s x)) → I (foldl f s l).
Proof.
  revert s. induction l as [|x l IH]; intros s HI Hf; [done|]. cbn. apply IH; [by apply Hf; [left|]|].
  intros s' y Hy. apply Hf. by right.
Qed.

Lemma forEach_app {A S} (f : A → S → outcome S) l1 l2 s :
  forEach f (l1 ++ l2) s = (s' ← forEach f l1 s; forEach f l2 s').
Proof.
  revert s. induction l1 as [|x l1 IH]; intros s; [done|]; simpl.
  destruct (f x s) as [s'| |]; simpl; [apply IH|done|done].
Qed.

(** A loop whose body never fails is the fold of the body. *)
Lemma forEach_Done {A S} (f : A → S → S) l s :
  forEach (λ x s, Done (f x s)) l s = Done (foldl (λ s x, f x s) s l).
Proof. revert s. induction l as [|x l IH]; intros s; [done|]. apply IH. Qed.

(** ** Inclusive integer ranges: [for i := lo; i <= hi; i++] *)
Definition rangeZ (lo hi : Z) : list Z := seqZ lo (hi - lo + 1).

Lemma elem_of_rangeZ lo hi i : i ∈ rangeZ lo hi ↔ lo ≤ i ≤ hi.
Proof. unfold rangeZ. rewrite elem_of_seqZ. lia. Qed.

Lemma NoDup_rangeZ lo hi : NoDup (rangeZ lo hi).
Proof. apply NoDup_seqZ. Qed.

Lemma rangeZ_empty lo hi : hi < lo → rangeZ lo hi = [].
Proof. intros. unfold rangeZ. by rewrite seqZ_nil by lia. Qed.

Lemma rangeZ_cons lo hi : lo ≤ hi → rangeZ lo hi = lo :: rangeZ (lo + 1) hi.
Proof.
  intros. unfold rangeZ. rewrite seqZ_cons by lia.
  f_equal. f_equal; lia.
Qed.

Lemma seqZ_snoc m i : 0 ≤ i → seqZ m (Z.succ i) = seqZ m i ++ [m + i].
Proof.
  intros. unfold Z.succ. by rewrite seqZ_app by lia.
Qed.

Lemma rangeZ_snoc lo hi : lo ≤ hi + 1 → rangeZ lo (hi + 1) = rangeZ lo hi ++ [hi + 1].
Proof.
  intros. unfold rangeZ.
  replace (hi + 1 - lo + 1) with ((hi - lo + 1) + 1) by lia.
  rewrite seqZ_app by lia. f_equal.
  rewrite (seqZ_cons _ 1) by lia. simpl. f_equal. lia.
Qed.

#[export] Hint Rewrite elem_of_rangeZ : arena_rw.

(** ** Lists *)
Lemma filter_all {A} (P : A → Prop) `{∀ x, Decision (P x)} (l : list A) :
  (∀ x, x ∈ l → P x) → filter P l = l.
Proof.
  induction l as [|x l IH]; intros HP; [done|].
  rewrite filter_cons_True by (apply HP; constructor).
  f_equal. apply IH. intros y Hy. apply HP. by constructor.
Qed.

Lemma filter_none {A} (P : A → Prop) `{∀ x, Decision (P x)} (l : list A) :
  (∀ x, x ∈ l → ¬ P x) → filter P l = [].
Proof.
  induction l as [|x l IH]; intros HP; [done|].
  rewrite filter_cons_False by (apply HP; constructor).
  apply IH. intros y Hy. apply HP. by constructor.
Qed.

Lemma StronglySorted_NoDup {A} (R : A → A → Prop) (l : list A) :
  (∀ x, ¬ R x x) → StronglySorted R l → NoDup l.
Proof.
  intros Hirr. induction 1 as [|x l _ IH Hx]; [constructor|].
  constructor; [|done]. intros Hin. rewrite Forall_forall in Hx. by apply (Hirr x), Hx.
Qed.

(** Slice indexing by a signed integer; [None] is Go's range panic. *)
Definition index {A} (l : list A) (i : Z) : option A :=
  if i <? 0 then None else l !! Z.to_nat i.

Lemma index_nonneg {A} (l : list A) i : 0 ≤ i → index l i = l !! Z.to_nat i.
Proof. intros. unfold index. by rewrite (proj2 (Z.ltb_ge i 0)). Qed.

Lemma index_nat {A} (l : list A) (k : nat) : index l (Z.of_nat k) = l !! k.
Proof. rewrite index_nonneg by lia. by rewrite Nat2Z.id. Qed.

(** ** Binary search *)

(** [sort.Search]: the smallest index in [lo, hi) from which [f] holds, by
    halving; the fuel is the length of the interval. *)
Fixpoint search (fuel : nat) (f : Z → bool) (lo hi : Z) : Z :=
  match fuel with
  | O => lo
  | S fuel =>
      if lo <? hi then
        let h := (lo + hi) / 2 in
        if f h then search fuel f lo h else search fuel f (h + 1) hi
      else lo
  end.
Definition Search (n : nat) (f : Z → bool) : Z := search n f 0 (Z.of_nat n).

Lemma search_spec (f : Z → bool) fuel : ∀ lo hi,
  lo ≤ hi → (Z.to_nat (hi - lo) ≤ fuel)%nat → (∀ i j, lo ≤ i ≤ j → j < hi → f i = true → f j = true) →
  lo ≤ search fuel f lo hi ≤ hi ∧ (∀ j, lo ≤ j < search fuel f lo hi → f j = false) ∧
  (search fuel f lo hi < hi → f (search fuel f lo hi) = true).
Proof.
  induction fuel as [|fuel IH]; intros lo hi Hle Hf Hmono; cbn [search].
  - split; [lia|]. split; [intros; lia|lia].
  - destruct (Z.ltb_spec lo hi) as [Hlt|]; [|split; [lia|]; split; [intros; lia|lia]]. cbv zeta.
    set (m := (lo + hi) / 2). assert (lo ≤ m < hi) as Hm by (unfold m; pose proof (Z.div_mod (lo + hi) 2); pose proof (Z.mod_pos_bound (lo + hi) 2); lia).
    clearbody m. destruct (f m) eqn:E.
    + destruct (IH lo m) as (I1 & I2 & I3); [lia|lia|intros i j Hij Hj; apply Hmono; lia|]. split; [lia|]. split; [done|].
      intros _. destruct (Z.lt_ge_cases (search fuel f lo m) m); [auto|]. replace (search fuel f lo m) with m by lia. done.
    + destruct (IH (m + 1) hi) as (I1 & I2 & I3); [lia|lia|intros i j Hij Hj; apply Hmono; lia|]. split; [lia|]. split; [|done].
      intros j Hj. destruct (Z.lt_ge_cases m j); [apply I2; lia|]. destruct (f j) eqn:Ej; [|done].
      rewrite (Hmono j m) in E; [done|lia|lia|done].
Qed.

(** ** Map iteration

    Go iterates over a map in an unspecified order.  A loop over a map takes
    the order from an oracle: [range_order ord m] lists the entries of [m] in
    the order in which [ord] mentions their keys, the keys [ord] forgets last.
    Whatever [ord] is, this is a permutation of the entries
    ([range_order_perm]), and every permutation is the result of some [ord]
    ([range_order_complete]), so quantifying over [ord] is quantifying over
    the orders Go may choose. *)
Section range_order.
Context {K A : Type} `{Countable K}.

Definition range_keys (ord : list K) (m : gmap K A) : list K :=
  let known := filter (λ k, is_Some (m !! k)) (remove_dups ord) in
  known ++ filter (λ k, k ∉ known) (map_to_list m).*1.

Definition range_order (ord : list K) (m : gmap K A) : list (K * A) :=
  omap (λ k, (λ v, (k, v)) <$> m !! k) (range_keys ord m).

Lemma range_keys_perm ord m : range_keys ord m ≡ₚ (map_to_list m).*1.
Proof.
  apply NoDup_Permutation.
  - unfold range_keys. apply NoDup_app. split_and!.
    + apply NoDup_filter, NoDup_remove_dups.
    + intros k Hk. rewrite list_elem_of_filter. tauto.
    + apply NoDup_filter, NoDup_fst_map_to_list.
  - apply NoDup_fst_map_to_list.
  - intros k. unfold range_keys. set (known := filter _ (remove_dups ord)).
    assert (∀ k, k ∈ known → k ∈ (map_to_list m).*1) as Hknown.
    { intros k'. unfold known. rewrite list_elem_of_filter, list_elem_of_fmap.
      intros [[v Hv] _]. exists (k', v). split; [done|]. by apply elem_of_map_to_list. }
    rewrite elem_of_app, list_elem_of_filter.
    destruct (decide (k ∈ known)); naive_solver.
Qed.

Lemma omap_lookup_keys (m : gmap K A) (l : list (K * A)) :
  (∀ kv, kv ∈ l → m !! kv.1 = Some kv.2) →
  omap (λ k, (λ v, (k, v)) <$> m !! k) l.*1 = l.
Proof.
  induction l as [|[k v] l IH]; intros Hl; [done|]; simpl.
  pose proof (Hl (k, v) ltac:(constructor)) as E. simpl in E. rewrite E. simpl. f_equal.
  apply IH. intros kv Hkv. apply Hl. by constructor.
Qed.

Lemma range_order_perm ord m : range_order ord m ≡ₚ map_to_list m.
Proof.
  unfold range_order. rewrite (range_keys_perm ord m).
  by rewrite omap_lookup_keys; [|intros [k v] ?%elem_of_map_to_list].
Qed.

Lemma elem_of_range_order ord m k v : (k, v) ∈ range_order ord m ↔ m !! k = Some v.
Proof. by rewrite range_order_perm, elem_of_map_to_list. Qed.

Lemma range_order_complete (m : gmap K A) l :
  l ≡ₚ map_to_list m → range_order l.*1 m = l.
Proof.
  intros Hl.
  assert (∀ kv, kv ∈ l → m !! kv.1 = Some kv.2) as Hlk.
  { intros [k v]. rewrite Hl. apply elem_of_map_to_list. }
  assert (NoDup l.*1) as Hnd.
  { rewrite Hl. apply NoDup_fst_map_to_list. }
  assert (filter (λ k, is_Some (m !! k)) (remove_dups l.*1) = l.*1) as Hkn.
  { assert (remove_dups l.*1 = l.*1) as ->.
    { clear Hl Hlk. induction Hnd as [|k ks ? ? IH]; [done|]. simpl.
      destruct (decide_rel _ _ _); [done|]. by f_equal. }
    apply filter_all. intros k Hk. apply list_elem_of_fmap in Hk as (kv & -> & Hkv).
    rewrite (Hlk kv Hkv). by eexists. }
  unfold range_order, range_keys. rewrite Hkn.
  assert (filter (λ k, k ∉ l.*1) (map_to_list m).*1 = []) as ->.
  { apply filter_none. intros k Hk. rewrite <- Hl in Hk. tauto. }
  rewrite app_nil_r. by apply omap_lookup_keys.
Qed.
End range_order.

(** Iteration over a set ([map[K]bool] whose values are all true). *)
Definition range_set `{Countable K} (ord : list K) (X : gset K) : list K :=
  (range_order ord (gset_to_gmap () X)).*1.

Lemma range_set_perm `{Countable K} (ord : list K) (X : gset K) : range_set ord X ≡ₚ elements X.
Proof.
  unfold range_set. rewrite range_order_perm. apply NoDup_Permutation.
  - apply NoDup_fst_map_to_list.
  - apply NoDup_elements.
  - intros k. rewrite elem_of_elements, list_elem_of_fmap. split.
    + intros ([k' []] & -> & Hk%elem_of_map_to_list). by apply lookup_gset_to_gmap_Some in Hk as [? _].
    + intros Hk. exists (k, ()). split; [done|]. apply elem_of_map_to_list, lookup_gset_to_gmap_Some. done.
Qed.

Lemma elem_of_range_set `{Countable K} (ord : list K) (X : gset K) k : k ∈ range_set ord X ↔ k ∈ X.
Proof. by rewrite range_set_perm, elem_of_elements. Qed.

(** The entries of a log beyond [lo], the measure of the execution loops. *)
Definition beyond {A} (lo : Z) (m : gmap Z A) : gmap Z A := filter (λ '(s, _), lo < s) m.

Lemma beyond_le {A} lo (m : gmap Z A) : (size (beyond lo m) ≤ size m)%nat.
Proof. apply map_subseteq_size, map_filter_subseteq. Qed.

Lemma beyond_step {A} lo (m : gmap Z A) x :
  m !! (lo + 1) = Some x → (size (beyond (lo + 1) m) < size (beyond lo m))%nat.
Proof.
  intros Hx. apply map_subset_size. split.
  - apply map_subseteq_spec. intros s y. unfold beyond. rewrite !map_lookup_filter_Some.
    intros [? ?]. split; [done|lia].
  - intros Hsub. rewrite map_subseteq_spec in Hsub.
    assert (beyond lo m !! (lo + 1) = Some x) as E by (apply map_lookup_filter_Some; split; [done|lia]).
    apply Hsub, map_lookup_filter_Some in E. lia.
Qed.
