(* ===== verification/State.v ===== *)
(** * State: the replicated key-value store (package [state])

    Commands, the conflict relation, execution against the ordered map,
    preloading, the ordinary wire encoding of a command and the validation
    policy ([state/state.go], [state/validation.go]).

    The ordered map is [treemap.Map] of the package [gods], which is not part
    of the repository: it is the parameter [TreeMap], whose documented
    behaviour is [TreeMapLaws]; [gmap_TreeMap] is a concrete instance.  The
    end of the file defines [StateMachine], the interface the protocol cores
    are verified against, and discharges it for this store. *)
From stdpp Require Import gmap strings list fin_maps sorting.
From Stdlib Require Import Lia.
From S2P Require Import Prelude.

(** A byte string is a list of integers in 0..255 ([bytes_ok]). *)
Abbreviation bytes := (list Z).
Definition byte_ok (b : Z) : Prop := 0 ≤ b < 256.
Abbreviation bytes_ok := (Forall byte_ok).

(** ** [encoding/binary]: little-endian integers *)
Fixpoint le_decode (bs : bytes) : Z :=
  match bs with
  | [] => 0
  | b :: bs => b + 256 * le_decode bs
  end.

Fixpoint le_encode (n : nat) (v : Z) : bytes :=
  match n with
  | O => []
  | S n => v `mod` 256 :: le_encode n (v `div` 256)
  end.

(** [binary.LittleEndian.Uint64], which indexes byte 7 first. *)
Definition Uint64 (bs : bytes) : outcome Z :=
  if decide (8 ≤ length bs)%nat then Done (le_decode (take 8 bs))
  else Panicked "index out of range [7]".

(** ** Data *)
Definition NONE : Z := 0.
Definition PUT : Z := 1.
Definition GET : Z := 2.
Definition SCAN : Z := 3.

Abbreviation Value := bytes.
Definition NIL : Value := [].

Record Command := mkCommand { Op : Z; K : Z; V : Value }.

#[export] Instance Command_eq_dec : EqDecision Command.
Proof. solve_decision. Defined.

Definition NOOP : list Command := [mkCommand NONE 0 NIL].

(** [KeyComparator] *)
Definition KeyComparator (a b : Z) : Z :=
  if b <? a then 1 else if a <? b then -1 else 0.

(** [concat]: the destination is allocated at the total length and filled. *)
Definition concat (slices : list Value) : Value := List.concat slices.

(** The upper end of a scan, [K + Key(binary.LittleEndian.Uint64(V))], in
    the wrap-around arithmetic of [int64]. *)
Definition scan_end (c : Command) : outcome Z :=
  count ← Uint64 (V c); Done (i64 (K c + i64 count)).

Definition in_range (lo hi k : Z) : bool := (lo <=? k) && (k <=? hi).

(** [Conflict] *)
Definition Conflict (gamma delta : Command) : outcome bool :=
  if (Op gamma =? SCAN) && (Op delta =? SCAN) then Done false else
  let writes := (Op gamma =? PUT) || (Op delta =? PUT) in
  if Op gamma =? SCAN then
    ub ← scan_end gamma; Done (in_range (K gamma) ub (K delta) && writes)
  else if Op delta =? SCAN then
    ub ← scan_end delta; Done (in_range (K delta) ub (K gamma) && writes)
  else Done (in_range (K delta) (K delta) (K gamma) && writes).

(** [ConflictBatch]: the first conflicting pair, in row order. *)
Fixpoint ConflictRow (c : Command) (batch2 : list Command) : outcome bool :=
  match batch2 with
  | [] => Done false
  | d :: batch2 => b ← Conflict c d; if b : bool then Done true else ConflictRow c batch2
  end.

Fixpoint ConflictBatch (batch1 batch2 : list Command) : outcome bool :=
  match batch1 with
  | [] => Done false
  | c :: batch1 => b ← ConflictRow c batch2; if b : bool then Done true else ConflictBatch batch1 batch2
  end.

Definition IsRead (c : Command) : bool := Op c =? GET.

(** ** [treemap.Map], a parameter *)
Class TreeMap := {
  Store : Type;
  tm_empty : (Z → Z → Z) → Store;          (* treemap.NewWith(comparator) *)
  tm_put : Z → Value → Store → Store;      (* Put *)
  tm_get : Z → Store → option Value;       (* Get *)
  tm_entries : Store → list (Z * Value);   (* Iterator, in key order *)
  tm_select : (Z → Value → bool) → Store → Store; (* Select *)
}.

Definition InitState `{TreeMap} : Store := tm_empty KeyComparator.
Definition tm_size `{TreeMap} (st : Store) : Z := Z.of_nat (length (tm_entries st)).

(** [gods] documents: a map ordered by its comparator; iteration is in key
    order; [Select] keeps the entries the predicate accepts.  [tm_ok] are the
    maps built by these operations from a map ordered by [KeyComparator]. *)
Class TreeMapLaws `{TreeMap} := {
  tm_get_empty k : tm_get k InitState = None;
  tm_get_put k k' v st :
    tm_get k (tm_put k' v st) = if decide (k = k') then Some v else tm_get k st;
  tm_entries_get k v st : (k, v) ∈ tm_entries st ↔ tm_get k st = Some v;
  tm_entries_sorted st :
    StronglySorted (λ a b : Z * Value, KeyComparator a.1 b.1 = -1) (tm_entries st);
  tm_get_select p k st :
    tm_get k (tm_select p st) = (v ← tm_get k st; if p k v then Some v else None);
}.

(** ** Execution *)
Section execute.
Context `{TreeMap}.

(** [Command.Execute] *)
Definition Execute (c : Command) (st : Store) : outcome (Value * Store) :=
  if Op c =? PUT then Done (NIL, tm_put (K c) (V c) st)
  else if Op c =? GET then
    Done (match tm_get (K c) st with Some v => v | None => NIL end, st)
  else if Op c =? SCAN then
    ub ← scan_end c;
    let found := tm_select (λ k _, in_range (K c) ub k) st in
    Done (concat (tm_entries found).*2, st)
  else Done (NIL, st).
End execute.

(** ** Preloading *)

(** One byte of the splitmix64 word. *)
Fixpoint word_bytes (n : nat) (word : Z) : bytes :=
  match n with
  | O => []
  | S n => u8 word :: word_bytes n (word ≫ 8)
  end.

(** The finaliser applied to [generatorState]. *)
Definition mix64 (generatorState : Z) : Z :=
  let word := u64 (Z.lxor generatorState (generatorState ≫ 30) * 0xbf58476d1ce4e5b9) in
  let word := u64 (Z.lxor word (word ≫ 27) * 0x94d049bb133111eb) in
  Z.lxor word (word ≫ 31).

(** The loop of [fillPreloadedValue]: each word fills up to eight bytes. *)
Fixpoint fill_words (words : nat) (remaining : nat) (generatorState : Z) : bytes :=
  match words with
  | O => []
  | S words =>
      let generatorState := u64 (generatorState + 0x9e3779b97f4a7c15) in
      word_bytes (Nat.min 8 remaining) (mix64 generatorState)
        ++ fill_words words (remaining - 8) generatorState
  end.

(** [fillPreloadedValue], as the value it writes over [make(Value, size)]. *)
Definition fillPreloadedValue (size : nat) (key seed : Z) : Value :=
  fill_words ((size + 7) / 8) size (Z.lxor seed (u64 (key * 0x9e3779b97f4a7c15))).

Section preload.
Context `{TreeMap}.
(** [sha256.Sum256] followed by [hex.EncodeToString] *)
Variable hex_sha256 : bytes → string.

Definition preload_one (valueSize : nat) (seed : Z) (acc : Store * bytes) (key : Z) : Store * bytes :=
  let value := fillPreloadedValue valueSize (u64 key) seed in
  (tm_put key value acc.1, acc.2 ++ le_encode 8 (u64 key) ++ value).

(** [State.Preload]: the digest or the error, and the state left behind. *)
Definition Preload (recordCount valueSize : Z) (seed : Z) (st : Store) : (string + string) * Store :=
  if recordCount <? 0 then (inr "record count must be non-negative", st)
  else if valueSize <? 0 then (inr "value size must be non-negative", st)
  else if negb (tm_size st =? 0) then (inr "state must be empty before preload", st)
  else
    let '(st', digest) :=
      foldl (preload_one (Z.to_nat valueSize) seed) (st, []) (seqZ 0 recordCount) in
    (inl (hex_sha256 digest), st').
End preload.

(** ** Wire encoding ([Marshal]/[Unmarshal]): the bytes written; the value read
    and the rest of the stream, or [None] for a short read. *)
Definition ReadFull (n : nat) (r : bytes) : option (bytes * bytes) :=
  if decide (n ≤ length r)%nat then Some (take n r, drop n r) else None.

Definition Op_Marshal (op : Z) : bytes := [u8 op].
Definition Op_Unmarshal (r : bytes) : option (Z * bytes) :=
  '(bs, r) ← ReadFull 1 r; Some (le_decode bs, r).

Definition Key_Marshal (k : Z) : bytes := le_encode 8 (u64 k).
Definition Key_Unmarshal (r : bytes) : option (Z * bytes) :=
  '(bs, r) ← ReadFull 8 r; Some (i64 (le_decode bs), r).

(** Four header bytes, of which [PutUint16] fills two. *)
Definition Value_Marshal (v : Value) : bytes :=
  le_encode 2 (u16 (Z.of_nat (length v))) ++ [0; 0] ++ v.
Definition Value_Unmarshal (r : bytes) : option (Value * bytes) :=
  '(bs, r) ← ReadFull 4 r;
  ReadFull (Z.to_nat (le_decode (take 2 bs))) r.

Definition Command_Marshal (c : Command) : bytes :=
  Op_Marshal (Op c) ++ Key_Marshal (K c) ++ Value_Marshal (V c).
Definition Command_Unmarshal (r : bytes) : option (Command * bytes) :=
  '(op, r) ← Op_Unmarshal r;
  '(k, r) ← Key_Unmarshal r;
  '(v, r) ← Value_Unmarshal r;
  Some (mkCommand op k v, r).

(** ** Validation ([state/validation.go]) *)
Definition MaxValueBytes : Z := 65535.

Record CommandPolicy := mkCommandPolicy { Operations : list Z; PolicyMaxValueBytes : Z }.

(** [CommandPolicy.Validate]: the error, if any. *)
Definition Validate (p : CommandPolicy) (c : Command) : option string :=
  let allowed :=
    if negb (Nat.eqb (length (Operations p)) 0)
    then existsb (Z.eqb (Op c)) (Operations p)
    else Op c <=? SCAN in
  if negb allowed then Some "unsupported command operation" else
  let limit := if PolicyMaxValueBytes p =? 0 then MaxValueBytes else PolicyMaxValueBytes p in
  if limit <? Z.of_nat (length (V c)) then Some "command value exceeds limit" else
  if (Op c =? SCAN) && (Z.of_nat (length (V c)) <? 8) then Some "SCAN requires an eight-byte count" else
  None.

(** ** Encoding lemmas *)
Lemma le_encode_length n v : length (le_encode n v) = n.
Proof. revert v. induction n as [|n IH]; intros v; [done|]. simpl. by rewrite IH. Qed.

Lemma le_decode_encode n v : 0 ≤ v < 256 ^ Z.of_nat n → le_decode (le_encode n v) = v.
Proof.
  revert v. induction n as [|n IH]; intros v Hv; [simpl in *; lia|].
  simpl. rewrite IH; [pose proof (Z.div_mod v 256); lia|].
  rewrite Nat2Z.inj_succ, Z.pow_succ_r in Hv by lia.
  split; [apply Z.div_pos; lia|]. apply Z.div_lt_upper_bound; lia.
Qed.

Lemma le_decode_nonneg bs : Forall (λ b, 0 ≤ b) bs → 0 ≤ le_decode bs.
Proof. induction 1; cbn; lia. Qed.

Lemma ReadFull_app n (bs r : bytes) : length bs = n → ReadFull n (bs ++ r) = Some (bs, r).
Proof.
  intros <-. unfold ReadFull. rewrite decide_True by (rewrite length_app; lia).
  by rewrite take_app_length, drop_app_length.
Qed.

Lemma Op_roundtrip op r : 0 ≤ op < 2 ^ 8 → Op_Unmarshal (Op_Marshal op ++ r) = Some (op, r).
Proof.
  intros. unfold Op_Unmarshal, Op_Marshal. rewrite ReadFull_app by done. simpl.
  rewrite wrapU_id by done. do 2 f_equal. lia.
Qed.

Lemma Key_roundtrip k r :
  - 2 ^ 63 ≤ k < 2 ^ 63 → Key_Unmarshal (Key_Marshal k ++ r) = Some (k, r).
Proof.
  intros. unfold Key_Unmarshal, Key_Marshal.
  rewrite ReadFull_app by apply le_encode_length. cbn -[le_encode le_decode Z.pow].
  rewrite le_decode_encode by (apply (wrapU_bound 64); lia).
  by rewrite wrapS_wrapU, wrapS_id by lia.
Qed.

Lemma Value_roundtrip v r :
  Z.of_nat (length v) ≤ MaxValueBytes → Value_Unmarshal (Value_Marshal v ++ r) = Some (v, r).
Proof.
  unfold MaxValueBytes. intros. unfold Value_Unmarshal, Value_Marshal.
  replace ((le_encode 2 (u16 (Z.of_nat (length v))) ++ [0; 0] ++ v) ++ r)
    with ((le_encode 2 (u16 (Z.of_nat (length v))) ++ [0; 0]) ++ v ++ r) by by rewrite <- !app_assoc.
  rewrite ReadFull_app by done. cbn -[le_encode le_decode take].
  replace (take 2 (le_encode 2 (u16 (Z.of_nat (length v))) ++ [0; 0]))
    with (le_encode 2 (u16 (Z.of_nat (length v)))) by done.
  rewrite wrapU_id, le_decode_encode by (simpl Z.of_nat; lia).
  apply ReadFull_app. lia.
Qed.

(** ** Conflicts *)
Lemma Conflict_comm c d : Conflict c d = Conflict d c.
Proof.
  unfold Conflict, in_range.
  destruct (Op c =? SCAN) eqn:Hc, (Op d =? SCAN) eqn:Hd; simpl; try done.
  - by rewrite (orb_comm (Op c =? PUT)).
  - by rewrite (orb_comm (Op c =? PUT)).
  - f_equal. rewrite (orb_comm (Op c =? PUT)). f_equal.
    destruct (K d <=? K c) eqn:?, (K c <=? K d) eqn:?; done.
Qed.

Lemma ConflictRow_spec c l :
  (∀ d, d ∈ l → returns (Conflict c d) (λ _, True)) →
  returns (ConflictRow c l) (λ b, b = true ↔ ∃ d, d ∈ l ∧ Conflict c d = Done true).
Proof.
  induction l as [|d l IH]; intros Hl; simpl.
  { split; [done|]. intros (d & ?%elem_of_nil & _). done. }
  destruct (returns_inv _ _ (Hl d ltac:(constructor))) as (b & Eb & _).
  rewrite Eb. simpl. destruct b; simpl.
  { split; [|done]. intros _. exists d. split; [constructor|done]. }
  eapply returns_mono; [apply IH; intros; apply Hl; by constructor|].
  intros b Hb. simpl in Hb. rewrite Hb. split.
  - intros (d' & Hd' & ?). exists d'. split; [by constructor|done].
  - intros (d' & [->|?]%elem_of_cons & ?); [congruence|eauto].
Qed.

(** ** Observational equality of stores *)
Section store_equiv.
Context `{TreeMapLaws}.

#[export] Instance Store_equiv : Equiv Store := λ st1 st2, ∀ k, tm_get k st1 = tm_get k st2.

#[export] Instance Store_equivalence : Equivalence (≡@{Store}).
Proof.
  split; [by intros st k | by intros st1 st2 E k | intros st1 st2 st3 E1 E2 k].
  by rewrite E1, E2.
Qed.

#[export] Instance tm_get_proper k : Proper ((≡) ==> (=)) (tm_get k).
Proof. intros st1 st2 E. apply E. Qed.

#[export] Instance tm_put_proper k v : Proper ((≡) ==> (≡)) (tm_put k v).
Proof. intros st1 st2 E k'. rewrite !tm_get_put, (E k'). done. Qed.

#[export] Instance tm_select_proper p : Proper ((≡) ==> (≡)) (tm_select p).
Proof. intros st1 st2 E k. rewrite !tm_get_select, (E k). done. Qed.

Lemma KeyComparator_lt a b : KeyComparator a b = -1 ↔ a < b.
Proof. unfold KeyComparator. repeat case_match; lia. Qed.

Lemma tm_entries_NoDup st : NoDup (tm_entries st).
Proof.
  eapply (StronglySorted_NoDup (λ a b, KeyComparator a.1 b.1 = -1)).
  - intros x. rewrite KeyComparator_lt. lia.
  - apply tm_entries_sorted.
Qed.

(** Equal contents are listed in the same order. *)
#[export] Instance tm_entries_proper : Proper ((≡) ==> (=)) tm_entries.
Proof.
  intros st1 st2 E.
  eapply StronglySorted_unique_strong; [|apply tm_entries_sorted..|].
  - intros x y _ _. rewrite !KeyComparator_lt. lia.
  - apply NoDup_Permutation; [apply tm_entries_NoDup..|].
    intros [k v]. by rewrite !tm_entries_get, (E k).
Qed.
End store_equiv.

(** ** Execution and conflicts *)
Section execute_theorems.
Context `{TreeMapLaws}.

(** The commands that execute without a panic: a scan carries its count. *)
Definition executable (c : Command) : Prop := Op c = SCAN → (8 ≤ length (V c))%nat.

Lemma scan_end_returns c : executable c → Op c = SCAN → ∃ ub, scan_end c = Done ub.
Proof.
  intros Hc Hs. specialize (Hc Hs). unfold scan_end, Uint64.
  rewrite decide_True by done. simpl. eauto.
Qed.

(** Execution, as the reads it performs. *)
Definition result_of (c : Command) (st : Store) : Value :=
  if Op c =? GET then default NIL (tm_get (K c) st)
  else if Op c =? SCAN then
    match scan_end c with
    | Done ub => concat (tm_entries (tm_select (λ k _, in_range (K c) ub k) st)).*2
    | _ => NIL
    end
  else NIL.

Definition effect_of (c : Command) (st : Store) : Store :=
  if Op c =? PUT then tm_put (K c) (V c) st else st.

Lemma Execute_eq c st :
  executable c → Execute c st = Done (result_of c st, effect_of c st).
Proof.
  intros Hc. unfold Execute, result_of, effect_of.
  destruct (Op c =? PUT) eqn:E1; [apply Z.eqb_eq in E1; by rewrite E1|].
  destruct (Op c =? GET) eqn:E2; [by destruct (tm_get (K c) st)|].
  destruct (Op c =? SCAN) eqn:E3; [|done]. apply Z.eqb_eq in E3.
  by destruct (scan_end_returns c Hc E3) as [ub ->].
Qed.

#[export] Instance result_of_proper c : Proper ((≡) ==> (=)) (result_of c).
Proof.
  intros st1 st2 E. unfold result_of.
  destruct (Op c =? GET); [by rewrite (E (K c))|].
  destruct (Op c =? SCAN); [|done]. destruct (scan_end c) as [ub| |]; [|done..].
  by rewrite E.
Qed.

#[export] Instance effect_of_proper c : Proper ((≡) ==> (≡)) (effect_of c).
Proof. intros st1 st2 E. unfold effect_of. by destruct (Op c =? PUT); [rewrite E|]. Qed.

(** What "no conflict with a write" means for each kind of reader. *)
Lemma Conflict_false_put c d :
  executable c → Conflict c d = Done false → Op d = PUT →
  if Op c =? SCAN then ∃ ub, scan_end c = Done ub ∧ in_range (K c) ub (K d) = false
  else K c ≠ K d.
Proof.
  intros Hc Hcf Hd. unfold Conflict in Hcf. rewrite Hd in Hcf.
  change (PUT =? SCAN) with false in Hcf. change (PUT =? PUT) with true in Hcf.
  rewrite andb_false_r, orb_true_r in Hcf.
  destruct (Op c =? SCAN) eqn:E.
  - apply Z.eqb_eq in E. destruct (scan_end_returns c Hc E) as [ub Eub].
    rewrite Eub in Hcf. simpl in Hcf. injection Hcf as Hcf.
    exists ub. by rewrite andb_true_r in Hcf.
  - unfold in_range in Hcf. injection Hcf as Hcf. lia.
Qed.

(** A write that does not conflict with a command does not change its result. *)
Lemma result_of_put c d st :
  executable c → Conflict c d = Done false → Op d = PUT →
  result_of c (tm_put (K d) (V d) st) = result_of c st.
Proof.
  intros Hc Hcf Hd. pose proof (Conflict_false_put c d Hc Hcf Hd) as Hne.
  unfold result_of. destruct (Op c =? SCAN) eqn:E.
  - destruct Hne as (ub & -> & Hr). apply Z.eqb_eq in E. rewrite E.
    change (SCAN =? GET) with false.
    assert (tm_select (λ k _, in_range (K c) ub k) (tm_put (K d) (V d) st)
            ≡ tm_select (λ k _, in_range (K c) ub k) st) as ->; [|done].
    intros k. rewrite !tm_get_select, tm_get_put.
    case_decide as Hk; [subst k; simpl; rewrite Hr|done].
    by destruct (tm_get (K d) st).
  - destruct (Op c =? GET); [|done]. by rewrite tm_get_put, decide_False.
Qed.

Lemma result_of_effect c d st :
  executable c → Conflict c d = Done false → result_of c (effect_of d st) = result_of c st.
Proof.
  intros Hc Hcf. unfold effect_of. destruct (Op d =? PUT) eqn:E; [|done].
  apply Z.eqb_eq in E. by apply result_of_put.
Qed.

Lemma effect_of_commute c d st :
  executable c → Conflict c d = Done false →
  effect_of c (effect_of d st) ≡ effect_of d (effect_of c st).
Proof.
  intros Hc Hcf. unfold effect_of.
  destruct (Op c =? PUT) eqn:Ec, (Op d =? PUT) eqn:Ed; try done.
  apply Z.eqb_eq in Ec, Ed. pose proof (Conflict_false_put c d Hc Hcf Ed) as Hne.
  rewrite Ec in Hne. change (PUT =? SCAN) with false in Hne.
  intros k. rewrite !tm_get_put. repeat case_decide; congruence.
Qed.
End execute_theorems.

(** ** Preloading *)
Lemma word_bytes_length n w : length (word_bytes n w) = n.
Proof. revert w. induction n as [|n IH]; intros w; [done|]. simpl. by rewrite IH. Qed.

Lemma word_bytes_ok n w : bytes_ok (word_bytes n w).
Proof.
  revert w. induction n as [|n IH]; intros w; constructor; [|apply IH].
  apply (wrapU_bound 8). lia.
Qed.

Lemma fill_words_length words size g :
  (size ≤ 8 * words)%nat → length (fill_words words size g) = size.
Proof.
  revert size g. induction words as [|words IH]; intros size g Hs;
    cbn [fill_words length]; [lia|].
  rewrite length_app, word_bytes_length, IH; lia.
Qed.

Lemma fillPreloadedValue_length size key seed : length (fillPreloadedValue size key seed) = size.
Proof.
  apply fill_words_length.
  pose proof (Nat.div_mod_eq (size + 7) 8). pose proof (Nat.mod_upper_bound (size + 7) 8). lia.
Qed.

Section preload_theorems.
Context `{TreeMapLaws}.
Variable hex_sha256 : bytes → string.

Lemma preload_fold_get valueSize seed n st d k :
  0 ≤ n →
  tm_get k (foldl (preload_one valueSize seed) (st, d) (seqZ 0 n)).1 =
    if decide (0 ≤ k < n) then Some (fillPreloadedValue valueSize (u64 k) seed)
    else tm_get k st.
Proof.
  intros Hn. pattern n. apply natlike_ind; [by rewrite decide_False by lia| |done].
  clear n Hn. intros n Hn IH. rewrite seqZ_snoc by lia. rewrite foldl_app. simpl.
  rewrite Z.add_0_l, tm_get_put, IH.
  repeat case_decide; subst; try lia; done.
Qed.

Lemma tm_size_0 st k : tm_size st = 0 → tm_get k st = None.
Proof.
  unfold tm_size. intros Hs. destruct (tm_get k st) as [v|] eqn:E; [|done].
  apply tm_entries_get in E. destruct (tm_entries st); [by apply elem_of_nil in E|done].
Qed.
End preload_theorems.

(** ** A concrete ordered map *)
Definition key_le (a b : Z * Value) : Prop := a.1 ≤ b.1.
#[export] Instance key_le_dec : RelDecision key_le.
Proof. intros a b. unfold key_le. apply _. Defined.
#[export] Instance key_le_total : Total key_le.
Proof. intros a b. unfold key_le. lia. Qed.
#[export] Instance key_le_trans : Transitive key_le.
Proof. intros a b c. unfold key_le. lia. Qed.

Definition gmap_TreeMap : TreeMap := {|
  Store := gmap Z Value;
  tm_empty _ := ∅;
  tm_put := insert;
  tm_get k st := st !! k;
  tm_entries st := merge_sort key_le (map_to_list st);
  tm_select p := filter (λ kv, p kv.1 kv.2 = true);
|}.

Lemma gmap_TreeMapLaws : @TreeMapLaws gmap_TreeMap.
Proof.
  split; simpl.
  - intros k. apply lookup_empty.
  - intros k k' v st. rewrite lookup_insert. repeat case_decide; congruence.
  - intros k v st. by rewrite merge_sort_Permutation, elem_of_map_to_list.
  - intros st.
    assert (NoDup (merge_sort key_le (map_to_list st)).*1) as Hnd.
    { rewrite merge_sort_Permutation. apply NoDup_fst_map_to_list. }
    pose proof (StronglySorted_merge_sort key_le (map_to_list st)) as Hs.
    induction Hs as [|x l Hs IH Hx]; [constructor|].
    apply NoDup_cons in Hnd as [Hx' Hnd]. constructor; [by apply IH|].
    rewrite Forall_forall in Hx |- *. intros y Hy. apply KeyComparator_lt.
    specialize (Hx y Hy). unfold key_le in Hx.
    assert (x.1 ≠ y.1); [|lia].
    intros E. apply Hx'. rewrite E. apply list_elem_of_fmap. eauto.
  - intros p k st. rewrite map_lookup_filter. destruct (st !! k) as [v|]; [|done]. simpl.
    destruct (p k v) eqn:E; [by rewrite option_guard_True|by rewrite option_guard_False by congruence].
Qed.

(** ** The interface of the protocol cores

    A core receives the replicated state machine as a callback
    ([execute func(state.Command) state.Value]).  It relies on one fact: the
    commands that pass admission execute without a panic. *)
Class StateMachine := {
  sm_state : Type;
  sm_init : sm_state;
  sm_execute : Command → sm_state → outcome (Value * sm_state);
  sm_admits : Command → Prop;
}.

Class StateMachineLaws `{StateMachine} := {
  sm_execute_returns c s : sm_admits c → returns (sm_execute c s) (λ _, True);
}.

(** The store behind [replica.ProposalPolicy]. *)
Definition store_machine `{TreeMap} (p : CommandPolicy) : StateMachine := {|
  sm_state := Store;
  sm_init := InitState;
  sm_execute := Execute;
  sm_admits c := Validate p c = None;
|}.

Lemma Validate_executable p c : Validate p c = None → executable c.
Proof.
  unfold Validate, executable. intros Hv Hs. rewrite Hs in Hv.
  destruct (negb _); [done|]. destruct (_ <? _); [done|].
  change (SCAN =? SCAN) with true in Hv. simpl in Hv. case_match; [done|lia].
Qed.

Lemma store_machine_laws `{TreeMapLaws} p : @StateMachineLaws (store_machine p).
Proof.
  split. intros c st Hc. simpl in *.
  by rewrite (Execute_eq c st (Validate_executable p c Hc)).
Qed.

(** The store with the permissive policy, the machine of the concrete runs. *)
Definition demo_machine : StateMachine := @store_machine gmap_TreeMap (mkCommandPolicy [] 0).
Definition demo_laws : @StateMachineLaws demo_machine :=
  @store_machine_laws gmap_TreeMap gmap_TreeMapLaws (mkCommandPolicy [] 0).

Lemma demo_terminates : ∀ c s, @sm_execute demo_machine c s ≠ OutOfFuel.
Proof.
  intros c s. cbn. unfold Execute. destruct (_ =? PUT); [done|]. destruct (_ =? GET); [done|]. destruct (_ =? SCAN); [|done].
  unfold scan_end, Uint64. by case_match.
Qed.

(** ** Properties *)

(** The conflict relation is sound for reordering: when [Conflict] reports
    no conflict between two executable commands, executing them in either
    order gives each the same result and leaves observationally equal
    stores. *)
Theorem nonconflicting_commute `{TreeMapLaws} c d st :
  executable c → executable d → Conflict c d = Done false →
  ∃ vc vd st1 st2,
    ('(v1, s) ← Execute c st; '(v2, s) ← Execute d s; Done (v1, v2, s)) = Done (vc, vd, st1) ∧
    ('(v2, s) ← Execute d st; '(v1, s) ← Execute c s; Done (v1, v2, s)) = Done (vc, vd, st2) ∧
    st1 ≡ st2.
Proof.
  intros Hc Hd Hcf. assert (Conflict d c = Done false) as Hdf by by rewrite Conflict_comm.
  exists (result_of c st), (result_of d st), (effect_of d (effect_of c st)), (effect_of c (effect_of d st)).
  rewrite !Execute_eq by done. simpl. rewrite !Execute_eq by done. simpl.
  rewrite (result_of_effect d c), (result_of_effect c d) by done.
  split_and!; [done..|]. by symmetry; apply effect_of_commute.
Qed.

Definition scan_0_2 : Command := mkCommand SCAN 0 [2; 0; 0; 0; 0; 0; 0; 0].

Lemma nonconflicting_commute_witness :
  Conflict scan_0_2 (mkCommand PUT 3 [7]) = Done false ∧
  ∃ vc vd st1 st2,
    ('(v1, s) ← @Execute gmap_TreeMap scan_0_2 {[1 := [5]]};
     '(v2, s) ← @Execute gmap_TreeMap (mkCommand PUT 3 [7]) s; Done (v1, v2, s)) = Done (vc, vd, st1) ∧
    ('(v2, s) ← @Execute gmap_TreeMap (mkCommand PUT 3 [7]) {[1 := [5]]};
     '(v1, s) ← @Execute gmap_TreeMap scan_0_2 s; Done (v1, v2, s)) = Done (vc, vd, st2) ∧
    @equiv _ (@Store_equiv gmap_TreeMap) st1 st2.
Proof.
  split; [vm_compute; reflexivity|].
  apply (@nonconflicting_commute gmap_TreeMap gmap_TreeMapLaws scan_0_2 (mkCommand PUT 3 [7]));
    [intros _; simpl; lia|intros E; discriminate E|vm_compute; reflexivity].
Defined.

(** Admission protects the state machine: a command accepted by
    [CommandPolicy.Validate], whatever the policy, executes on every store
    without a panic, and comparing it with any other accepted command does
    not panic either. *)
Theorem validated_commands_run `{TreeMapLaws} p q c d st :
  Validate p c = None → Validate q d = None →
  returns (Execute c st) (λ '(v, st'), v = result_of c st ∧ st' = effect_of c st) ∧
  returns (Conflict c d) (λ _, True).
Proof.
  intros Hc%Validate_executable Hd%Validate_executable. rewrite Execute_eq by done.
  split; [done|]. unfold Conflict.
  destruct ((Op c =? SCAN) && _); [done|].
  destruct (Op c =? SCAN) eqn:E1;
    [apply Z.eqb_eq in E1; by destruct (scan_end_returns c Hc E1) as [ub ->]|].
  destruct (Op d =? SCAN) eqn:E2; [|done].
  apply Z.eqb_eq in E2; by destruct (scan_end_returns d Hd E2) as [ub ->].
Qed.

Lemma validated_commands_run_witness :
  returns (@Execute gmap_TreeMap scan_0_2 {[1 := [5]]})
    (λ '(v, st'), v = @result_of gmap_TreeMap scan_0_2 {[1 := [5]]} ∧
                  st' = @effect_of gmap_TreeMap scan_0_2 {[1 := [5]]}) ∧
  returns (Conflict scan_0_2 scan_0_2) (λ _, True).
Proof.
  apply (@validated_commands_run gmap_TreeMap gmap_TreeMapLaws
           (mkCommandPolicy [] 0) (mkCommandPolicy [] 0)); vm_compute; reflexivity.
Defined.

(** The ordinary wire format round-trips: every command with an 8-bit
    operation, an [int64] key and a value of at most [MaxValueBytes] bytes is
    read back exactly, and the bytes after it stay in the stream. *)
Theorem Command_roundtrip c r :
  0 ≤ Op c < 2 ^ 8 → - 2 ^ 63 ≤ K c < 2 ^ 63 → Z.of_nat (length (V c)) ≤ MaxValueBytes →
  Command_Unmarshal (Command_Marshal c ++ r) = Some (c, r).
Proof.
  intros Hop HK HV. unfold Command_Unmarshal, Command_Marshal. rewrite <- !app_assoc.
  rewrite Op_roundtrip by done. cbn [mbind option_bind].
  rewrite Key_roundtrip by done. cbn [mbind option_bind].
  rewrite Value_roundtrip by done. by destruct c.
Qed.

Lemma Command_roundtrip_witness :
  Command_Unmarshal (Command_Marshal (mkCommand PUT (-3) [1; 255]) ++ [9]) =
    Some (mkCommand PUT (-3) [1; 255], [9]).
Proof. apply Command_roundtrip; vm_compute; intuition congruence. Defined.

(** Preloading an empty store installs exactly the keys 0..n-1, each with
    its generated value of the requested size; a non-empty store or a
    negative count or size is rejected and left untouched. *)
Theorem Preload_spec `{TreeMapLaws} hex_sha256 n size seed st :
  let '(res, st') := Preload hex_sha256 n size seed st in
  if decide (0 ≤ n ∧ 0 ≤ size ∧ tm_size st = 0) then
    (∃ digest, res = inl digest) ∧
    (∀ k, tm_get k st' =
       if decide (0 ≤ k < n) then Some (fillPreloadedValue (Z.to_nat size) (u64 k) seed) else None) ∧
    (∀ k v, tm_get k st' = Some v → Z.of_nat (length v) = size)
  else (∃ err, res = inr err) ∧ st' = st.
Proof.
  unfold Preload.
  destruct (n <? 0) eqn:E1; [rewrite decide_False by lia; eauto|].
  destruct (size <? 0) eqn:E2; [rewrite decide_False by lia; eauto|].
  destruct (tm_size st =? 0) eqn:E3; simpl; [|rewrite decide_False by lia; eauto].
  pose proof (λ k, preload_fold_get (Z.to_nat size) seed n st [] k ltac:(lia)) as Hget.
  destruct (foldl _ _ _) as [st' digest]. simpl in *. rewrite decide_True by lia.
  assert (∀ k, tm_get k st' = if decide (0 ≤ k < n)
            then Some (fillPreloadedValue (Z.to_nat size) (u64 k) seed) else None) as Hget'.
  { intros k. rewrite Hget. case_decide; [done|]. apply tm_size_0. lia. }
  split_and!; [eauto|done|]. intros k v. rewrite Hget'. case_decide; [|done].
  intros [= <-]. rewrite fillPreloadedValue_length. lia.
Qed.

Lemma Preload_spec_witness :
  match @Preload gmap_TreeMap (λ _, "digest"%string) 2 9 1 (@InitState gmap_TreeMap) with
  | (inl _, st') => is_Some (@tm_get gmap_TreeMap 1 st')
  | _ => False
  end.
Proof.
  pose proof (@Preload_spec gmap_TreeMap gmap_TreeMapLaws (λ _, "digest"%string) 2 9 1
                (@InitState gmap_TreeMap)) as Hs.
  destruct (Preload _ 2 9 1 _) as [res st'].
  rewrite decide_True in Hs by (vm_compute; intuition congruence).
  destruct Hs as ((digest & ->) & Hget & _). rewrite Hget. eexists. reflexivity.
Defined.

(** [ConflictBatch] decides whether some pair of the two batches
    conflicts, whenever no comparison panics. *)
Theorem ConflictBatch_spec l1 l2 :
  (∀ c d, c ∈ l1 → d ∈ l2 → returns (Conflict c d) (λ _, True)) →
  returns (ConflictBatch l1 l2)
    (λ b, b = true ↔ ∃ c d, c ∈ l1 ∧ d ∈ l2 ∧ Conflict c d = Done true).
Proof.
  induction l1 as [|c l1 IH]; intros Hl; simpl.
  { split; [done|]. intros (c & d & ?%elem_of_nil & _). done. }
  eapply returns_bind; [apply ConflictRow_spec; intros; apply Hl; [constructor|done]|].
  intros b Hb. destruct b.
  - split; [|done]. intros _. destruct Hb as [(d & ? & ?) _]; [done|].
    exists c, d. split_and!; [constructor|done|done].
  - eapply returns_mono; [apply IH; intros; apply Hl; [by constructor|done]|].
    intros b Hb'. rewrite Hb'. split.
    + intros (c' & d & ? & ?). exists c', d. split; [by constructor|done].
    + intros (c' & d & [->|?]%elem_of_cons & ? & ?); [|eauto 10].
      destruct Hb as [_ Hb]. discriminate Hb. eauto.
Qed.

Lemma ConflictBatch_spec_witness :
  returns (ConflictBatch [mkCommand GET 1 []; scan_0_2] [mkCommand PUT 2 []])
    (λ b, b = true ↔ ∃ c d, c ∈ [mkCommand GET 1 []; scan_0_2] ∧ d ∈ [mkCommand PUT 2 []] ∧
                            Conflict c d = Done true).
Proof.
  apply ConflictBatch_spec. intros c d Hc Hd.
  apply list_elem_of_singleton in Hd as ->.
  apply elem_of_cons in Hc as [->|Hc]; [exact I|].
  apply list_elem_of_singleton in Hc as ->. exact I.
Defined.
