(* ===== verification/ReplicaSet.v ===== *)
(** * ReplicaSet: identity sets in one machine word (package [replicaset])

    [Set] is a [uint64]; every operation is the bit operation of
    [replicaset/set.go].  [to_gset] is the abstraction to finite sets, and the
    lemmas state that each operation refines the set operation.  The quorum
    lemmas at the end are what the protocol files use. *)
From stdpp Require Import gmap strings list fin_maps fin_sets sorting.
From Stdlib Require Import Lia.
From S2P Require Import Prelude.

Module ReplicaSet.

Definition MaxSize : Z := 64.

(** [s | Set(1)<<uint(id)] and its tests are applied only to ids in 0..63. *)
Definition valid_id (id : Z) : bool := (0 <=? id) && (id <? MaxSize).

Definition With (s : Z) (id : Z) : Z :=
  if valid_id id then Z.lor s (Z.shiftl 1 id) else s.

Definition Add (s : Z) (id : Z) : bool * Z :=
  let s' := With s id in (negb (s' =? s), s').

Definition Remove (s : Z) (id : Z) : Z :=
  if valid_id id then Z.ldiff s (Z.shiftl 1 id) else s.

Definition Contains (s : Z) (id : Z) : bool :=
  valid_id id && negb (Z.land s (Z.shiftl 1 id) =? 0).

Fixpoint New_from (s : Z) (ids : list Z) : outcome Z :=
  match ids with
  | [] => Done s
  | id :: ids =>
      if valid_id id then New_from (Add s id).2 ids
      else Panicked "replicaset: ID outside 0..63"
  end.
Definition New (ids : list Z) : outcome Z := New_from 0 ids.

Definition All (size : Z) : outcome Z :=
  if (size <? 0) || (MaxSize <? size) then Panicked "replicaset: membership exceeds 64 IDs"
  else Done (Z.shiftr (2 ^ 64 - 1) (MaxSize - size)).

(** [bits.OnesCount64] *)
Definition members (s : Z) : list Z := filter (λ i, Z.testbit s i = true) (seqZ 0 64).
Definition Size (s : Z) : Z := Z.of_nat (length (members s)).

Definition Union (s other : Z) : Z := Z.lor s other.
Definition Intersection (s other : Z) : Z := Z.land s other.
Definition Covers (s other : Z) : bool := Z.land s other =? other.
Definition Equal (s other : Z) : bool := s =? other.

(** [bits.TrailingZeros64] *)
Definition TrailingZeros64 (s : Z) : Z :=
  match members s with [] => 64 | i :: _ => i end.

(** [Range]: [s &= s - 1] drops the member just visited.  64 rounds suffice
    for a word ([Range_spec]). *)
Fixpoint Range_loop {St : Type} (fuel : nat) (visit : Z → St → bool * St) (s : Z) (st : St) : St :=
  match fuel with
  | O => st
  | S fuel =>
      if s =? 0 then st else
      let '(go, st) := visit (TrailingZeros64 s) st in
      if go : bool then Range_loop fuel visit (Z.land s (s - 1)) st else st
  end.
Definition Range {St : Type} (visit : Z → St → bool * St) (s : Z) (st : St) : St :=
  Range_loop 64 visit s st.

(** ** The abstraction *)
Definition to_gset (s : Z) : gset Z := list_to_set (members s).
Definition valid (s : Z) : Prop := 0 ≤ s < 2 ^ 64.

Lemma valid_id_spec id : valid_id id = true ↔ 0 ≤ id < 64.
Proof. unfold valid_id, MaxSize. lia. Qed.

Lemma elem_of_members s i : i ∈ members s ↔ 0 ≤ i < 64 ∧ Z.testbit s i = true.
Proof. unfold members. rewrite list_elem_of_filter, elem_of_seqZ. intuition lia. Qed.

Lemma NoDup_members s : NoDup (members s).
Proof. apply NoDup_filter, NoDup_seqZ. Qed.

Lemma elem_of_to_gset s i : i ∈ to_gset s ↔ 0 ≤ i < 64 ∧ Z.testbit s i = true.
Proof. unfold to_gset. by rewrite elem_of_list_to_set, elem_of_members. Qed.

Lemma Size_size s : Size s = Z.of_nat (size (to_gset s)).
Proof. unfold Size, to_gset. by rewrite size_list_to_set by apply NoDup_members. Qed.

Lemma valid_testbit s i : valid s → 64 ≤ i → Z.testbit s i = false.
Proof.
  intros [H0 H1] Hi. destruct (decide (s = 0)) as [->|]; [by rewrite Z.testbit_0_l|].
  apply Z.bits_above_log2; [done|]. apply Z.log2_lt_pow2; [lia|].
  eapply Z.lt_le_trans; [exact H1|]. apply Z.pow_le_mono_r; lia.
Qed.

Lemma testbit_valid s : 0 ≤ s → (∀ i, 64 ≤ i → Z.testbit s i = false) → valid s.
Proof.
  intros Hs Hb. split; [done|].
  destruct (decide (s < 2 ^ 64)); [done|].
  assert (64 ≤ Z.log2 s) by (apply Z.log2_le_pow2; lia).
  specialize (Hb (Z.log2 s) ltac:(done)). by rewrite Z.bit_log2 in Hb by lia.
Qed.

(** Two words with the same members are the same word. *)
Lemma to_gset_inj s t : valid s → valid t → to_gset s = to_gset t → s = t.
Proof.
  intros Hs Ht E. apply Z.bits_inj'. intros i Hi.
  destruct (decide (i < 64)); [|by rewrite !valid_testbit by (done || lia)].
  assert (i ∈ to_gset s ↔ i ∈ to_gset t) as E' by by rewrite E.
  rewrite !elem_of_to_gset in E'.
  destruct (Z.testbit s i), (Z.testbit t i); naive_solver lia.
Qed.

Lemma testbit_bit id i : 0 ≤ id → Z.testbit (Z.shiftl 1 id) i = bool_decide (i = id).
Proof.
  intros. rewrite Z.shiftl_1_l. case_bool_decide; subst.
  - by apply Z.pow2_bits_true.
  - by apply Z.pow2_bits_false.
Qed.

Lemma to_gset_With s id :
  to_gset (With s id) = if decide (0 ≤ id < 64) then {[id]} ∪ to_gset s else to_gset s.
Proof.
  unfold With. destruct (valid_id id) eqn:E.
  - apply valid_id_spec in E. rewrite decide_True by lia. apply set_eq. intros i.
    rewrite elem_of_union, elem_of_singleton, !elem_of_to_gset, Z.lor_spec, orb_true_iff.
    rewrite testbit_bit, bool_decide_eq_true by lia. naive_solver lia.
  - rewrite decide_False; [done|]. rewrite <- valid_id_spec. congruence.
Qed.

Lemma valid_With s id : valid s → valid (With s id).
Proof.
  intros Hs. unfold With. destruct (valid_id id) eqn:E; [|done]. apply valid_id_spec in E.
  apply testbit_valid.
  - apply Z.lor_nonneg. split; [apply Hs|]. apply Z.shiftl_nonneg. lia.
  - intros i Hi. rewrite Z.lor_spec, testbit_bit, valid_testbit by (done || lia).
    rewrite bool_decide_eq_false_2 by lia. done.
Qed.

Lemma to_gset_Remove s id :
  to_gset (Remove s id) = if decide (0 ≤ id < 64) then to_gset s ∖ {[id]} else to_gset s.
Proof.
  unfold Remove. destruct (valid_id id) eqn:E.
  - apply valid_id_spec in E. rewrite decide_True by lia. apply set_eq. intros i.
    rewrite elem_of_difference, elem_of_singleton, !elem_of_to_gset, Z.ldiff_spec, andb_true_iff.
    rewrite testbit_bit, negb_true_iff, bool_decide_eq_false by lia. naive_solver.
  - rewrite decide_False; [done|]. rewrite <- valid_id_spec. congruence.
Qed.

Lemma valid_Remove s id : valid s → valid (Remove s id).
Proof.
  intros Hs. unfold Remove. destruct (valid_id id) eqn:E; [|done].
  apply testbit_valid; [apply Z.ldiff_nonneg; left; apply Hs|].
  intros i Hi. by rewrite Z.ldiff_spec, valid_testbit.
Qed.

Lemma Contains_spec s id : Contains s id = true ↔ id ∈ to_gset s.
Proof.
  unfold Contains. rewrite elem_of_to_gset, andb_true_iff, valid_id_spec, negb_true_iff.
  split; intros [Hid H]; (split; [done|]).
  - apply Z.eqb_neq in H. destruct (Z.testbit s id) eqn:E; [done|]. destruct H.
    apply Z.bits_inj_0. intros i. rewrite Z.land_spec, testbit_bit by lia.
    case_bool_decide; [subst; by rewrite E|apply andb_false_r].
  - apply Z.eqb_neq. intros H0. apply (f_equal (λ z, Z.testbit z id)) in H0.
    rewrite Z.land_spec, testbit_bit, H, Z.testbit_0_l, bool_decide_eq_true_2 in H0 by lia. done.
Qed.

Lemma to_gset_Union s t : to_gset (Union s t) = to_gset s ∪ to_gset t.
Proof.
  apply set_eq. intros i. unfold Union.
  rewrite elem_of_union, !elem_of_to_gset, Z.lor_spec, orb_true_iff. naive_solver.
Qed.

Lemma to_gset_Intersection s t : to_gset (Intersection s t) = to_gset s ∩ to_gset t.
Proof.
  apply set_eq. intros i. unfold Intersection.
  rewrite elem_of_intersection, !elem_of_to_gset, Z.land_spec, andb_true_iff. naive_solver.
Qed.

Lemma valid_Intersection s t : valid s → valid (Intersection s t).
Proof.
  intros Hs. apply testbit_valid; [apply Z.land_nonneg; left; apply Hs|].
  intros i Hi. unfold Intersection. by rewrite Z.land_spec, (valid_testbit s).
Qed.

Lemma Covers_spec s t : valid s → valid t → Covers s t = true ↔ to_gset t ⊆ to_gset s.
Proof.
  intros Hs Ht. unfold Covers. rewrite Z.eqb_eq. split.
  - intros E. rewrite <- E. change (Z.land s t) with (Intersection s t).
    rewrite to_gset_Intersection. set_solver.
  - intros Hsub. change (Z.land s t) with (Intersection s t).
    apply to_gset_inj; [by apply valid_Intersection|done|].
    rewrite to_gset_Intersection. set_solver.
Qed.

Lemma All_spec n :
  0 ≤ n ≤ 64 → ∃ s, All n = Done s ∧ valid s ∧ to_gset s = list_to_set (seqZ 0 n).
Proof.
  intros Hn. unfold All, MaxSize. replace ((n <? 0) || (64 <? n)) with false by lia.
  eexists. split; [done|].
  assert (∀ i, 0 ≤ i → Z.testbit (Z.shiftr (2 ^ 64 - 1) (64 - n)) i = (i <? n)) as Hb.
  { intros i Hi. rewrite Z.shiftr_spec by done.
    change (2 ^ 64 - 1) with (Z.ones 64). rewrite Z.testbit_ones_nonneg by lia. lia. }
  split.
  - apply testbit_valid; [apply Z.shiftr_nonneg; lia|]. intros i Hi. rewrite Hb; lia.
  - apply set_eq. intros i. rewrite elem_of_to_gset, elem_of_list_to_set, elem_of_seqZ.
    destruct (decide (0 ≤ i)); [rewrite Hb by done|]; lia.
Qed.
(** ** Visiting the members *)
Fixpoint visit_all {St : Type} (visit : Z → St → bool * St) (l : list Z) (st : St) : St :=
  match l with
  | [] => st
  | i :: l => let '(go, st) := visit i st in if go : bool then visit_all visit l st else st
  end.

(** [s &= s - 1] clears the lowest set bit. *)
Lemma clear_lowest s i j :
  0 ≤ i → 0 ≤ j → Z.testbit s i = true → (∀ k, 0 ≤ k < i → Z.testbit s k = false) →
  Z.testbit (Z.land s (s - 1)) j = Z.testbit s j && negb (j =? i).
Proof.
  intros Hi Hj Hsi Hlow. rewrite Z.land_spec.
  assert (s `mod` 2 ^ i = 0) as Hmod.
  { apply Z.bits_inj_0. intros k. destruct (decide (k < 0)); [by apply Z.testbit_neg_r|].
    destruct (decide (k < i)).
    - rewrite Z.mod_pow2_bits_low by lia. apply Hlow. lia.
    - by rewrite Z.mod_pow2_bits_high by lia. }
  assert (Z.odd (s `div` 2 ^ i) = true) as Hodd.
  { rewrite <- Z.shiftr_div_pow2, <- Z.bit0_odd, Z.shiftr_spec by lia. done. }
  apply Zodd_bool_iff, Zodd_ex in Hodd as [q Hq].
  assert (0 < 2 ^ i) by (apply Z.pow_pos_nonneg; lia).
  pose proof (Z.div_mod s (2 ^ i)) as Hdm. rewrite Hmod, Hq in Hdm.
  assert (s `div` 2 ^ (i + 1) = q ∧ (s - 1) `div` 2 ^ (i + 1) = q) as [Es Es1].
  { rewrite Z.pow_add_r by lia. change (2 ^ 1) with 2.
    split; symmetry; [apply Z.div_unique with (2 ^ i)|apply Z.div_unique with (2 ^ i - 1)]; lia. }
  assert ((s - 1) `div` 2 ^ i = 2 * q) as E1.
  { symmetry. apply Z.div_unique with (2 ^ i - 1); lia. }
  destruct (decide (j < i)); [rewrite Hlow by lia; done|].
  destruct (decide (j = i)) as [->|].
  - rewrite Z.eqb_refl, Hsi. simpl.
    replace (Z.testbit (s - 1) i) with (Z.testbit ((s - 1) `div` 2 ^ i) 0).
    + rewrite E1, Z.bit0_odd, Z.odd_mul. done.
    + rewrite <- Z.shiftr_div_pow2, Z.shiftr_spec by lia. done.
  - replace (j =? i) with false by lia. rewrite andb_true_r.
    assert (∀ x, Z.testbit x j = Z.testbit (x `div` 2 ^ (i + 1)) (j - (i + 1))) as Hx.
    { intros x. rewrite <- Z.shiftr_div_pow2, Z.shiftr_spec by lia. f_equal. lia. }
    rewrite (Hx (s - 1)), (Hx s), Es, Es1. apply andb_diag.
Qed.

Lemma members_sorted s : StronglySorted Z.lt (members s).
Proof.
  unfold members. assert (StronglySorted Z.lt (seqZ 0 64)) as Hs.
  { apply Sorted_StronglySorted; [intros ???; lia|]. vm_compute. repeat constructor. }
  induction Hs as [|x l Hs IH Hx]; [constructor|].
  rewrite filter_cons. case_decide; [|done]. constructor; [done|].
  rewrite Forall_forall in Hx |- *. intros y [_ Hy]%list_elem_of_filter. by apply Hx.
Qed.

Lemma members_step s i l :
  valid s → members s = i :: l → TrailingZeros64 s = i ∧ members (Z.land s (s - 1)) = l.
Proof.
  intros Hs E. unfold TrailingZeros64. rewrite E. split; [done|].
  pose proof (members_sorted s) as Hsort. rewrite E in Hsort.
  apply StronglySorted_inv in Hsort as [Hl Hi]. rewrite Forall_forall in Hi.
  assert (i ∈ members s) as [Hib Hit]%elem_of_members by (rewrite E; constructor).
  eapply (StronglySorted_unique_strong Z.lt); [lia|apply members_sorted|done|].
  apply NoDup_Permutation; [apply NoDup_members| |].
  { pose proof (NoDup_members s) as Hnd. rewrite E in Hnd. by apply NoDup_cons in Hnd as [_ ?]. }
  assert (∀ k, k ∈ members s → i ≤ k) as Hle.
  { intros k. rewrite E. intros [->|Hk]%elem_of_cons; [done|]. by apply Z.lt_le_incl, Hi. }
  intros k. rewrite elem_of_members. split.
  - intros [Hk Ht]. rewrite (clear_lowest s i k) in Ht by
      (done || lia || (intros k' Hk'; destruct (Z.testbit s k') eqn:E'; [|done];
        assert (i ≤ k') by (apply Hle, elem_of_members; split; [lia|done]); lia)).
    apply andb_true_iff in Ht as [Ht Hne]. assert (k ∈ members s) as Hin by by apply elem_of_members.
    rewrite E in Hin. apply elem_of_cons in Hin as [->|]; [|done]. by rewrite Z.eqb_refl in Hne.
  - intros Hk. assert (k ∈ members s) as [Hkb Hkt]%elem_of_members by (rewrite E; by constructor).
    split; [done|]. specialize (Hi k Hk). rewrite (clear_lowest s i k), Hkt by
      (done || lia || (intros k' Hk'; destruct (Z.testbit s k') eqn:E'; [|done];
        assert (i ≤ k') by (apply Hle, elem_of_members; split; [lia|done]); lia)).
    replace (k =? i) with false by lia. done.
Qed.

Lemma members_nil s : valid s → (s =? 0) = true ↔ members s = [].
Proof.
  intros Hs. rewrite Z.eqb_eq. split; [by intros ->|]. intros E.
  apply to_gset_inj; [done|done|]. unfold to_gset. by rewrite E.
Qed.

Lemma Range_loop_spec {St} (visit : Z → St → bool * St) fuel s st :
  valid s → (length (members s) ≤ fuel)%nat →
  Range_loop fuel visit s st = visit_all visit (members s) st.
Proof.
  revert s st. induction fuel as [|fuel IH]; intros s st Hs Hf; cbn [Range_loop].
  { destruct (members s); [done|simpl in Hf; lia]. }
  pose proof (members_nil s Hs) as Hnil. destruct (s =? 0) eqn:E0.
  { by rewrite (proj1 Hnil). }
  destruct (members s) as [|i l] eqn:E; [naive_solver|].
  destruct (members_step s i l Hs E) as [-> El]. simpl.
  destruct (visit i st) as [[] st']; [|done].
  rewrite IH, El; [done| |rewrite El; simpl in Hf; lia].
  by apply valid_Intersection.
Qed.

Lemma members_length s : (length (members s) ≤ 64)%nat.
Proof. unfold members. etrans; [apply length_filter|]. by rewrite length_seqZ. Qed.

(** ** Quorums *)
Definition ids (n : Z) : gset Z := list_to_set (seqZ 0 n).

Lemma elem_of_ids n i : i ∈ ids n ↔ 0 ≤ i < n.
Proof. unfold ids. rewrite elem_of_list_to_set, elem_of_seqZ. lia. Qed.

Lemma size_ids n : 0 ≤ n → Z.of_nat (size (ids n)) = n.
Proof.
  intros. unfold ids. rewrite size_list_to_set by apply NoDup_seqZ. rewrite length_seqZ. lia.
Qed.

(** Two sets of ids below [n] with more than [n] members together intersect. *)
Lemma quorum_intersect n (Q1 Q2 : gset Z) :
  0 ≤ n → Q1 ⊆ ids n → Q2 ⊆ ids n → n < Z.of_nat (size Q1) + Z.of_nat (size Q2) →
  ∃ a, a ∈ Q1 ∧ a ∈ Q2.
Proof.
  intros Hn H1 H2 Hs. destruct (decide (Q1 ∩ Q2 = ∅)) as [E|E].
  - assert (size (Q1 ∪ Q2) = size Q1 + size Q2)%nat by (apply size_union; set_solver).
    assert (size (Q1 ∪ Q2) ≤ size (ids n))%nat by (apply subseteq_size; set_solver).
    pose proof (size_ids n Hn). lia.
  - apply set_choose_L in E as [a Ha]. exists a. set_solver.
Qed.

(** A majority: [c.n/2+1] distinct ids. *)
Definition majority (n : Z) (Q : gset Z) : Prop := Q ⊆ ids n ∧ n / 2 + 1 ≤ Z.of_nat (size Q).

Lemma majority_intersect n Q1 Q2 :
  0 ≤ n → majority n Q1 → majority n Q2 → ∃ a, a ∈ Q1 ∧ a ∈ Q2.
Proof.
  intros Hn [H1 S1] [H2 S2]. apply (quorum_intersect n); [done..|].
  pose proof (Z.div_mod n 2). pose proof (Z.mod_pos_bound n 2). lia.
Qed.

Lemma majority_nonempty n Q : 0 ≤ n → majority n Q → ∃ a, a ∈ Q ∧ 0 ≤ a < n.
Proof.
  intros Hn HQ. destruct (majority_intersect n Q Q Hn HQ HQ) as (a & Ha & _).
  exists a. split; [done|]. apply elem_of_ids. by apply HQ.
Qed.

(** ** Unions with one replica, and intersections of quorums *)
Lemma to_gset_lor_bit s i j :
  0 ≤ i < 64 → j ∈ to_gset (Z.lor s (Z.shiftl 1 i)) ↔ j ∈ to_gset s ∨ j = i.
Proof.
  intros Hi. rewrite !elem_of_to_gset, Z.lor_spec, orb_true_iff.
  rewrite testbit_bit, bool_decide_eq_true by lia. naive_solver lia.
Qed.

Lemma size_inter_lower (n : Z) (F Q : gset Z) :
  0 ≤ n → F ⊆ ids n → Q ⊆ ids n →
  Z.of_nat (size F) + Z.of_nat (size Q) - n ≤ Z.of_nat (size (F ∩ Q)).
Proof.
  intros Hn HF HQ. pose proof (size_ids n Hn).
  assert (size (F ∪ Q) ≤ size (ids n))%nat by (apply subseteq_size; set_solver).
  pose proof (size_union_alt F Q). pose proof (size_difference_alt Q F) as Hd.
  assert (F ∩ Q = Q ∩ F) as -> by set_solver.
  assert (size (Q ∩ F) ≤ size Q)%nat by (apply subseteq_size; set_solver). lia.
Qed.

(** ** Properties *)

(** Every operation of the one-word set is the set operation on the
    identities it stores, out-of-range ids are ignored (or rejected, by
    [New] and [All]), and every result is again a 64-bit word. *)
Theorem operations_refine_sets s t id :
  valid s → valid t →
  (valid (With s id) ∧
   to_gset (With s id) = if decide (0 ≤ id < 64) then {[id]} ∪ to_gset s else to_gset s) ∧
  (valid (Remove s id) ∧
   to_gset (Remove s id) = if decide (0 ≤ id < 64) then to_gset s ∖ {[id]} else to_gset s) ∧
  (Add s id = (bool_decide (0 ≤ id < 64 ∧ id ∉ to_gset s), With s id)) ∧
  (Contains s id = true ↔ id ∈ to_gset s) ∧
  Size s = Z.of_nat (size (to_gset s)) ∧
  to_gset (Union s t) = to_gset s ∪ to_gset t ∧
  to_gset (Intersection s t) = to_gset s ∩ to_gset t ∧
  (Covers s t = true ↔ to_gset t ⊆ to_gset s) ∧
  (Equal s t = true ↔ to_gset s = to_gset t).
Proof.
  intros Hs Ht.
  split_and!; [by apply valid_With|by apply to_gset_With|by apply valid_Remove|by apply to_gset_Remove
    | |apply Contains_spec|apply Size_size|apply to_gset_Union|apply to_gset_Intersection
    |by apply Covers_spec|].
  - unfold Add. f_equal. pose proof (to_gset_With s id) as E. case_decide as Hid.
    + destruct (decide (id ∈ to_gset s)) as [Hin|Hin].
      * rewrite bool_decide_eq_false_2 by tauto. apply negb_false_iff, Z.eqb_eq.
        apply to_gset_inj; [by apply valid_With|done|]. set_solver.
      * rewrite bool_decide_eq_true_2 by done. apply negb_true_iff, Z.eqb_neq.
        intros E'. rewrite E' in E. set_solver.
    + rewrite bool_decide_eq_false_2 by tauto. apply negb_false_iff, Z.eqb_eq.
      apply to_gset_inj; [by apply valid_With|done..].
  - unfold Equal. rewrite Z.eqb_eq. split; [by intros ->|by apply to_gset_inj].
Qed.

Lemma operations_refine_sets_witness :
  valid 5 ∧ (Contains 5 2 = true ↔ 2 ∈ to_gset 5).
Proof.
  assert (valid 5) as H5 by (unfold valid; lia). split; [exact H5|].
  apply (operations_refine_sets 5 5 2 H5 H5).
Defined.

(** [Range] visits exactly the members, each once, in ascending order,
    and stops at the first visit that returns false; 64 rounds always
    suffice. *)
Theorem Range_ascending {St : Type} (visit : Z → St → bool * St) s st :
  valid s →
  Range visit s st = visit_all visit (members s) st ∧
  StronglySorted Z.lt (members s) ∧ ∀ i, i ∈ members s ↔ i ∈ to_gset s.
Proof.
  intros Hs. split_and!; [apply Range_loop_spec; [done|apply members_length]|apply members_sorted|].
  intros i. by rewrite elem_of_members, elem_of_to_gset.
Qed.

Lemma Range_ascending_witness :
  Range (λ i l, (i <? 3, l ++ [i])) 0x2D [] = [0; 2; 3] ∧
  Range (λ i l, (i <? 3, l ++ [i])) 0x2D [] =
    visit_all (λ i l, (i <? 3, l ++ [i])) (members 0x2D) [].
Proof.
  split; [vm_compute; reflexivity|].
  apply (Range_ascending (λ i l, (i <? 3, l ++ [i])) 0x2D []). unfold valid. lia.
Defined.

End ReplicaSet.
