(* ===== verification/Defs.v ===== *)
(** * Defs: identities and clocks shared by the protocols (package [replica/defs])

    Request identities with decidable equality and a [Countable] instance (so
    that they key the cores' maps), their lexicographic order (the [sort.Slice]
    comparison the recovery code uses) and Go's [time.Time] differences. *)
From stdpp Require Import gmap strings list fin_maps sorting.
From Stdlib Require Import Lia.
From S2P Require Import Prelude State.

(** [defs.RequestID] *)
Record RequestID := mkRequestID { Client : Z; Sequence : Z }.

#[export] Instance RequestID_eq_dec : EqDecision RequestID.
Proof. solve_decision. Defined.

#[export] Instance RequestID_countable : Countable RequestID.
Proof.
  refine (inj_countable' (λ i, (Client i, Sequence i)) (λ p, mkRequestID p.1 p.2) _).
  by intros [].
Defined.

(** [a.Client < b.Client], then [a.Sequence < b.Sequence] *)
Definition id_less (a b : RequestID) : bool :=
  if negb (Client a =? Client b) then Client a <? Client b else Sequence a <? Sequence b.

Definition id_le (a b : RequestID) : Prop := id_less b a = false.
#[export] Instance id_le_dec : RelDecision id_le.
Proof. intros a b. unfold id_le. apply _. Defined.

(** Sorting by [id_less]; the keys sorted are pairwise distinct. *)
Definition sort_ids (l : list RequestID) : list RequestID := merge_sort id_le l.

Lemma sort_ids_perm l : sort_ids l ≡ₚ l.
Proof. apply merge_sort_Permutation. Qed.

(** [defs.Propose] and [Propose.RequestID] *)
Record Propose := mkPropose {
  CommandId : Z; ClientId : Z; PCommand : Command; Timestamp : Z }.

Definition ProposeRequestID (m : Propose) : RequestID := mkRequestID (ClientId m) (CommandId m).

(** [defs.ProposeReplyTS] *)
Record ProposeReplyTS := mkProposeReplyTS { OK : Z; ReplyCommandId : Z; ReplyValue : Value; ReplyTimestamp : Z }.
Definition TRUE : Z := 1.

(** [time.Time] is nanoseconds, [None] the zero [Time]; [time.Duration] is
    nanoseconds.  [Sub] from the zero time saturates. *)
Abbreviation Time := (option Z).
Definition maxDuration : Z := 2 ^ 63 - 1.
Definition Sub (now : Z) (t : Time) : Z :=
  match t with Some t => now - t | None => maxDuration end.
Definition Millisecond : Z := 1000000.
Definition Second : Z := 1000 * Millisecond.

(** [defs.GPropose]: a proposal with the writer that takes its reply, if the
    connection that brought it still has one. *)
Record GPropose := mkGPropose { GProposal : Propose; ReplyWriter : option Z }.

(** A reply handed to a client's sender ([EventLoop.Reply]). *)
Record ClientReply := mkClientReply { ReplyClient : Z; ReplyTo : Z; ReplyMessage : ProposeReplyTS }.

(** [protocol.Tick], its kind and the connectivity snapshot. *)
Inductive Timer := Maintenance | Batch | Slow.
Record Tick := mkTick { TickKind : Timer; TickNow : Z; TickAlive : list bool }.
#[export] Instance Timer_eq_dec : EqDecision Timer.
Proof. solve_decision. Defined.
