(* ===== verification/Wire.v ===== *)
(** * Wire: protobuf frames and the bounds check of their payloads ([wireproto/])

    [frame.go]: a frame is an optional type byte, the magic, a little-endian
    length and the payload ([frame_roundtrip], [frame_rejects]).  [validate.go]:
    before a payload is decoded every value is checked against the width its
    field is narrowed to ([Validate_spec]).

    The message methods are generated code and [protowire] is a package outside
    the repository: both are parameters, a message as the record of its methods,
    [protowire] as the class [ProtoWire] with its documented behaviour in
    [ProtoWireLaws] (a call consumes a positive number of the bytes it is given,
    or returns a negative number). *)
From stdpp Require Import gmap strings list fin_maps.
From Stdlib Require Import Lia.
From S2P Require Import Prelude State.

Module Wire.

Inductive error :=
  | Short                      (* [io.EOF], [io.ErrUnexpectedEOF] *)
  | Mismatch
  | ExceedsLimit (limit : Z)
  | SizeMismatch (predicted wrote : Z)
  | Recursion
  | ParseError (code : Z)
  | ExpectedHash (width : Z)
  | OutOfRangeUint (bits : Z)
  | OutOfRangeInt (bits : Z)
  | Failed (why : string).     (* of a generated method *)

(** ** Frames *)
Definition MaxFrame : Z := Z.shiftl 64 20.
Definition headerSize : nat := 8.
(** ['C', 'A', 'P', 1] *)
Definition magic : bytes := [67; 65; 80; 1].

(** The methods of a generated message: its size; the count and the content
    [MarshalToSizedBuffer] leaves in a buffer of a given length; the rest. *)
Record Message (M : Type) := mkMessage {
  Size : M → Z;
  MarshalToSizedBuffer : M → Z → error + Z * bytes;
  UnmarshalProto : bytes → error + M;
  ValidateProtoPayload : bytes → Z → option error;
  NormalizeProto : M → error + M }.
Arguments Size {M}.
Arguments MarshalToSizedBuffer {M}.
Arguments UnmarshalProto {M}.
Arguments ValidateProtoPayload {M}.
Arguments NormalizeProto {M}.

Section Frames.
Context {M : Type} (ops : Message M).

(** A negative size makes the allocation of the frame panic. *)
Definition Encode (code : Z) (tagged : bool) (message : M) (limit : Z) : outcome (error + bytes) :=
  let size := Size ops message in
  if (limit <? size) || (MaxFrame <? size) then Done (inl (ExceedsLimit limit)) else
  if (if tagged then 1 else 0) + Z.of_nat headerSize + size <? 0 then Panicked "makeslice: len out of range" else
  if size <? 0 then Panicked "slice bounds out of range" else
  match MarshalToSizedBuffer ops message size with
  | inl err => Done (inl err)
  | inr (n, body) =>
      if negb (n =? size) then Done (inl (SizeMismatch size n))
      else Done (inr ((if tagged then [code] else []) ++ magic ++ le_encode 4 (u32 n) ++ body))
  end.

(** [Write]: the bytes written; a construction failure panics. *)
Definition Write (message : M) (limit : Z) : outcome bytes :=
  r ← Encode 0 false message limit;
  match r with inl _ => Panicked "wireproto: encode" | inr frame => Done frame end.

(** [Read]: the message, or the error, and the rest of the stream. *)
Definition Read (r : bytes) (limit : Z) : (error + M) * bytes :=
  match ReadFull headerSize r with
  | None => (inl Short, [])
  | Some (header, r) =>
      if negb (bool_decide (take 4 header = magic)) then (inl Mismatch, r) else
      let size := le_decode (drop 4 header) in
      if (u64 limit <? size) || (MaxFrame <? size) then (inl (ExceedsLimit limit), r) else
      match ReadFull (Z.to_nat size) r with
      | None => (inl Short, [])
      | Some (body, r) =>
          (match ValidateProtoPayload ops body 64 with
           | Some err => inl err
           | None => match UnmarshalProto ops body with inl err => inl err | inr m => NormalizeProto ops m end
           end, r)
      end
  end.

(** What the generated methods of a message promise about one of its values. *)
Record encodes (m : M) (body : bytes) : Prop := mkEncodes {
  enc_size : Size ops m = Z.of_nat (length body);
  enc_marshal : MarshalToSizedBuffer ops m (Size ops m) = inr (Size ops m, body);
  enc_valid : ValidateProtoPayload ops body 64 = None;
  enc_unmarshal : UnmarshalProto ops body = inr m;
  enc_normal : NormalizeProto ops m = inr m;
}.

Lemma header_length n : length (magic ++ le_encode 4 n) = headerSize.
Proof. by rewrite length_app, le_encode_length. Qed.

(** A message whose size is within the limit is framed, and [Read] takes
    exactly its frame from the stream and returns the message, leaving the frames
    behind it; the type byte, if any, precedes the frame. *)
Theorem frame_roundtrip m body code tagged limit rest :
  encodes m body → Size ops m ≤ limit → limit ≤ MaxFrame →
  ∃ frame, Encode code tagged m limit = Done (inr ((if tagged then [code] else []) ++ frame)) ∧
    Z.of_nat (length frame) = Z.of_nat headerSize + Size ops m ∧ Read (frame ++ rest) limit = (inr m, rest).
Proof.
  intros [Hs Hm Hv Hu Hn] Hl Hmax. exists (magic ++ le_encode 4 (u32 (Size ops m)) ++ body).
  assert (MaxFrame = 2 ^ 26) as EM by done. assert (u32 (Size ops m) = Size ops m) as Eu by (apply wrapU_id; lia).
  split_and!.
  - unfold Encode. rewrite (proj2 (orb_false_iff _ _)) by lia.
    rewrite (proj2 (Z.ltb_ge _ _)) by (unfold headerSize; destruct tagged; lia).
    rewrite (proj2 (Z.ltb_ge _ _)) by lia. by rewrite Hm, Z.eqb_refl.
  - rewrite app_assoc, length_app, header_length. lia.
  - unfold Read. rewrite (app_assoc magic), <- app_assoc. rewrite ReadFull_app by apply header_length.
    rewrite take_app_length' by done. rewrite bool_decide_eq_true_2 by done. cbn [negb].
    rewrite drop_app_length' by done. rewrite Eu, le_decode_encode by lia.
    rewrite (proj2 (orb_false_iff _ _)) by (rewrite (wrapU_id 64) by lia; lia).
    rewrite Hs, Nat2Z.id, ReadFull_app by done. by rewrite Hv, Hu, Hn.
Qed.

(** What is not a frame is refused: if [Read] returns a message, the stream
    began with the magic and a length that is within the limit and [MaxFrame],
    the payload of exactly that length was there and passed the bounds check,
    and the rest of the stream is what follows it. *)
Theorem frame_accepted r limit m rest :
  Forall (λ b, 0 ≤ b < 256) r → Read r limit = (inr m, rest) →
  ∃ len body, r = magic ++ len ++ body ++ rest ∧ length len = 4%nat ∧ Z.of_nat (length body) = le_decode len ∧
    le_decode len ≤ MaxFrame ∧ le_decode len ≤ u64 limit ∧ ValidateProtoPayload ops body 64 = None.
Proof.
  intros Hr. unfold Read. unfold ReadFull at 1. case_decide as Hlen; [|done].
  case_bool_decide as Hmag; [|done]. cbn [negb].
  set (header := take headerSize r) in *. set (len := drop 4 header). set (r1 := drop headerSize r).
  assert (r = magic ++ len ++ r1) as Er.
  { rewrite app_assoc, <- Hmag. unfold len, r1. rewrite take_drop. unfold header. by rewrite take_drop. }
  assert (length len = 4%nat) as Hl by (unfold len, header, headerSize in *; rewrite length_drop, length_take; lia).
  assert (0 ≤ le_decode len) as H0.
  { apply le_decode_nonneg. rewrite Er in Hr. apply Forall_app in Hr as [_ Hr]. apply Forall_app in Hr as [Hr _].
    eapply Forall_impl; [exact Hr|]. cbn. intros b Hb. lia. }
  destruct (_ || _) eqn:Eb; [done|]. apply orb_false_iff in Eb as [E1 E2].
  unfold ReadFull. case_decide as Hb; [|done]. destruct (ValidateProtoPayload _ _ _) eqn:Ev; [done|].
  destruct (UnmarshalProto _ _); [done|]. intros [= _ <-]. exists len, (take (Z.to_nat (le_decode len)) r1).
  rewrite take_drop. split_and!; [done|done| |lia|lia|done]. rewrite length_take. lia.
Qed.
End Frames.

(** ** The bounds check *)
(** A field's [Message] points to a shape; shapes may point to each other. *)
Record Field := mkField {
  FMessage : option nat;
  UnsignedBits : Z; SignedBits : Z;
  Width : Z;
  Packed : bool }.
Abbreviation Shape := (gmap Z Field).

Definition BytesType : Z := 2.
Definition VarintType : Z := 0.

Class ProtoWire := {
  ConsumeTag : bytes → Z * Z * Z;            (* number, kind, bytes consumed *)
  ConsumeBytes : bytes → bytes * Z;
  ConsumeVarint : bytes → Z * Z;
  ConsumeFieldValue : Z → Z → bytes → Z;
  DecodeZigZag : Z → Z;
}.

(** Negative, or a positive number of the bytes given. *)
Definition consumes (n : Z) (data : bytes) : Prop := n < 0 ∨ 0 < n ≤ Z.of_nat (length data).

Class ProtoWireLaws `{ProtoWire} := {
  tag_consumes data : data ≠ [] → consumes (ConsumeTag data).2 data;
  bytes_consumes data : consumes (ConsumeBytes data).2 data;
  varint_consumes data : consumes (ConsumeVarint data).2 data;
  value_consumes num kind data : consumes (ConsumeFieldValue num kind data) data;
}.

Section Validate.
Context `{PWL : ProtoWireLaws}.
(** The shapes by their addresses, and the order of the last loop at a depth. *)
Variable shapes : nat → Shape.
Variable ord : nat → list Z.

(** [data[n:]] *)
Definition slice_from (n : Z) (data : bytes) : outcome bytes :=
  if (0 <=? n) && (n <=? Z.of_nat (length data)) then Done (drop (Z.to_nat n) data)
  else Panicked "slice bounds out of range".

Definition check (field : Field) (value : Z) : option error :=
  if negb (UnsignedBits field =? 0) && negb (Z.shiftr value (UnsignedBits field) =? 0)
  then Some (OutOfRangeUint (UnsignedBits field))
  else if negb (SignedBits field =? 0) then
    let signed := DecodeZigZag value in
    let bound := i64 (Z.shiftl 1 (SignedBits field - 1)) in
    if (signed <? i64 (- bound)) || (bound <=? signed) then Some (OutOfRangeInt (SignedBits field)) else None
  else None.

(** The varints of a packed field. *)
Fixpoint check_packed (fuel : nat) (field : Field) (body : bytes) : outcome (option error) :=
  match fuel with
  | O => OutOfFuel
  | S fuel =>
      if Nat.eqb (length body) 0 then Done None else
      let '(value, size) := ConsumeVarint body in
      if size <? 0 then Done (Some (ParseError size)) else
      match check field value with
      | Some err => Done (Some err)
      | None => body ← slice_from size body; check_packed fuel field body
      end
  end.

Definition mark (num seen : Z) : Z :=
  if (0 <? num) && (num <=? 64) then Z.lor seen (u64 (Z.shiftl 1 (num - 1))) else seen.

(** The loop over the fields; [sub] validates the message a field points to. *)
Fixpoint scan (fuel : nat) (sub : nat → bytes → outcome (option error)) (shape : Shape) (data : bytes) (seen : Z) :
    outcome (error + Z) :=
  match fuel with
  | O => OutOfFuel
  | S fuel =>
      if Nat.eqb (length data) 0 then Done (inr seen) else
      let '(num, kind, n) := ConsumeTag data in
      if n <? 0 then Done (inl (ParseError n)) else
      data ← slice_from n data;
      let seen := mark num seen in
      let skip := let used := ConsumeFieldValue num kind data in
        if used <? 0 then Done (inl (ParseError used))
        else data ← slice_from used data; scan fuel sub shape data seen in
      match shape !! num with
      | None => skip
      | Some field =>
          if kind =? BytesType then
            let '(body, used) := ConsumeBytes data in
            if used <? 0 then Done (inl (ParseError used))
            else if negb (Width field =? 0) && negb (Z.of_nat (length body) =? Width field)
            then Done (inl (ExpectedHash (Width field)))
            else
              err ← match FMessage field with
                    | Some m => sub m body
                    | None => if Packed field then check_packed (S (length body)) field body else Done None
                    end;
              match err : option error with
              | Some err => Done (inl err)
              | None => data ← slice_from used data; scan fuel sub shape data seen
              end
          else if kind =? VarintType then
            let '(value, used) := ConsumeVarint data in
            if used <? 0 then Done (inl (ParseError used))
            else match check field value with
                 | Some err => Done (inl err)
                 | None => data ← slice_from used data; scan fuel sub shape data seen
                 end
          else skip
      end
  end.

(** The last loop: a field of fixed width must occur. *)
Definition missing (seen : Z) (kv : Z * Field) : bool :=
  negb (Width kv.2 =? 0) && (kv.1 <=? 64) && (Z.land seen (u64 (Z.shiftl 1 (kv.1 - 1))) =? 0).

Fixpoint Validate (depth : nat) (shape : nat) (data : bytes) : outcome (option error) :=
  match depth with
  | O => Done (Some Recursion)
  | S depth =>
      r ← scan (S (length data)) (Validate depth) (shapes shape) data 0;
      match r with
      | inl err => Done (Some err)
      | inr seen =>
          Done (match filter (λ kv, missing seen kv = true) (range_order (ord depth) (shapes shape)) with
                | kv :: _ => Some (ExpectedHash (Width kv.2))
                | [] => None
                end)
      end
  end.
(** *** What is accepted

    A payload is accepted at a depth when it is a sequence of fields that
    [protowire] reads, in which every varint of a known field fits the field,
    every known message is accepted one level down, every hash has its width, and
    no hash is missing. *)
Definition fits (f : Field) (v : Z) : Prop :=
  (UnsignedBits f ≠ 0 → Z.shiftr v (UnsignedBits f) = 0) ∧
  (SignedBits f ≠ 0 → let bound := i64 (Z.shiftl 1 (SignedBits f - 1)) in i64 (- bound) ≤ DecodeZigZag v < bound).

Inductive packed_ok (f : Field) : bytes → Prop :=
  | packed_nil : packed_ok f []
  | packed_cons body v n :
      body ≠ [] → ConsumeVarint body = (v, n) → 0 < n → fits f v → packed_ok f (drop (Z.to_nat n) body) → packed_ok f body.

Inductive accepts : nat → nat → bytes → Prop :=
  | accepts_fields depth s data nums :
      fields depth s data nums →
      (∀ k f, shapes s !! k = Some f → Width f ≠ 0 → k ≤ 64 → k ∈ nums) →
      accepts (S depth) s data
with fields : nat → nat → bytes → list Z → Prop :=
  | fields_nil depth s : fields depth s [] []
  | fields_cons depth s data num kind n used nums :
      data ≠ [] → ConsumeTag data = (num, kind, n) → 0 < n →
      field_ok depth s num kind (drop (Z.to_nat n) data) used → 0 < used →
      fields depth s (drop (Z.to_nat used) (drop (Z.to_nat n) data)) nums →
      fields depth s data (num :: nums)
with field_ok : nat → nat → Z → Z → bytes → Z → Prop :=
  | field_varint depth s num data f v used :
      shapes s !! num = Some f → ConsumeVarint data = (v, used) → fits f v → field_ok depth s num VarintType data used
  | field_bytes depth s num data f body used :
      shapes s !! num = Some f → ConsumeBytes data = (body, used) →
      (Width f ≠ 0 → Z.of_nat (length body) = Width f) →
      (∀ m, FMessage f = Some m → accepts depth m body) →
      (FMessage f = None → Packed f = true → packed_ok f body) →
      field_ok depth s num BytesType data used
  | field_skip depth s num kind data used :
      (shapes s !! num = None ∨ kind ≠ BytesType ∧ kind ≠ VarintType) → ConsumeFieldValue num kind data = used →
      field_ok depth s num kind data used.

Lemma slice_consumed n data : consumes n data → (n <? 0) = false →
  0 < n ∧ slice_from n data = Done (drop (Z.to_nat n) data) ∧ (length (drop (Z.to_nat n) data) < length data)%nat.
Proof.
  intros [Hn|Hn] E; [lia|]. split; [lia|]. unfold slice_from.
  replace (_ && _) with true by lia. split; [done|]. rewrite length_drop. lia.
Qed.

Lemma check_fits f v : check f v = None ↔ fits f v.
Proof.
  unfold check, fits. cbv zeta. set (x := Z.shiftr v (UnsignedBits f)). set (b := i64 (Z.shiftl 1 (SignedBits f - 1))).
  set (y := DecodeZigZag v). destruct (negb (UnsignedBits f =? 0) && _) eqn:Eu.
  { split; [done|]. intros [H1 _]. assert (x = 0) by (apply H1; lia). lia. }
  destruct (negb (SignedBits f =? 0)) eqn:Es.
  - destruct ((y <? i64 (- b)) || (b <=? y)) eqn:Ey.
    + split; [done|]. intros [_ H2]. assert (i64 (- b) ≤ y < b) by (apply H2; lia). lia.
    + split; [|done]. intros _. split; [intros ?; lia|intros _; lia].
  - split; [|done]. intros _. split; intros ?; lia.
Qed.

Lemma packed_inv f body : packed_ok f body → body ≠ [] →
  let '(v, n) := ConsumeVarint body in 0 < n ∧ fits f v ∧ packed_ok f (drop (Z.to_nat n) body).
Proof. intros Hp Hne. destruct Hp as [|body v n _ -> ? ? ?]; [done|by split_and!]. Qed.

Lemma check_packed_spec fuel f body : (length body < fuel)%nat →
  ∃ r, check_packed fuel f body = Done r ∧ (r = None ↔ packed_ok f body).
Proof.
  revert body. induction fuel as [|fuel IH]; intros body Hf; [lia|]. cbn [check_packed].
  destruct (Nat.eqb_spec (length body) 0) as [E|E].
  { apply length_zero_iff_nil in E as ->. exists None. split; [done|]. split; [intros _; constructor|done]. }
  assert (body ≠ []) as Hne by by intros ->.
  pose proof (λ Hp, packed_inv f body Hp Hne) as Hinv. pose proof (varint_consumes body) as Hc.
  destruct (ConsumeVarint body) as [v n] eqn:Ev. cbn in Hc.
  destruct (n <? 0) eqn:En.
  { eexists; split; [done|]. split; [done|]. intros (? & _)%Hinv. lia. }
  destruct (slice_consumed n body Hc En) as (Hn & Hs & Hlen). rewrite <- (check_fits f v) in Hinv.
  destruct (check f v) as [err|] eqn:Ec.
  { eexists; split; [done|]. split; [done|]. by intros (_ & ? & _)%Hinv. }
  rewrite Hs. cbn [mbind outcome_bind]. destruct (IH (drop (Z.to_nat n) body)) as (r & -> & Hr); [lia|].
  exists r. split; [done|]. rewrite Hr. split; [|by intros (_ & _ & ?)%Hinv].
  intros. econstructor; [done|done|done|by apply check_fits|done].
Qed.

Lemma mark_spec num seen k : 1 ≤ k ≤ 64 → Z.testbit (mark num seen) (k - 1) = Z.testbit seen (k - 1) || (num =? k).
Proof.
  intros Hk. unfold mark. destruct (_ && _) eqn:E; [|replace (num =? k) with false by lia; by rewrite orb_false_r].
  rewrite Z.lor_spec. f_equal. rewrite Z.shiftl_1_l, wrapU_id.
  - rewrite Z.pow2_bits_eqb by lia. lia.
  - split; [lia|]. apply Z.pow_lt_mono_r; lia.
Qed.

Lemma missing_bit seen k f : 1 ≤ k ≤ 64 → missing seen (k, f) = negb (Width f =? 0) && negb (Z.testbit seen (k - 1)).
Proof.
  intros Hk. unfold missing. cbn. replace (k <=? 64) with true by lia. rewrite andb_true_r. f_equal.
  rewrite Z.shiftl_1_l, wrapU_id by (split; [lia|apply Z.pow_lt_mono_r; lia]).
  destruct (Z.testbit seen (k - 1)) eqn:E; cbn [negb].
  - apply Z.eqb_neq. intros Hp. apply (f_equal (λ z, Z.testbit z (k - 1))) in Hp.
    rewrite Z.land_spec, Z.pow2_bits_true, E, Z.bits_0 in Hp by lia. done.
  - apply Z.eqb_eq. apply Z.bits_inj'. intros j Hj. rewrite Z.land_spec, Z.bits_0, Z.pow2_bits_eqb by lia.
    destruct (k - 1 =? j) eqn:Ej; [|by rewrite andb_false_r]. apply Z.eqb_eq in Ej as <-. by rewrite E.
Qed.

(** The bits of [seen'] are those of [seen] and the numbers [nums]. *)
Definition adds (seen : Z) (nums : list Z) (seen' : Z) : Prop :=
  ∀ k, 1 ≤ k ≤ 64 → Z.testbit seen' (k - 1) = Z.testbit seen (k - 1) || bool_decide (k ∈ nums).
Lemma fields_inv depth s data nums : fields depth s data nums → data ≠ [] →
  let '(num, kind, n) := ConsumeTag data in
  0 < n ∧ ∃ used nums', nums = num :: nums' ∧ field_ok depth s num kind (drop (Z.to_nat n) data) used ∧ 0 < used ∧
    fields depth s (drop (Z.to_nat used) (drop (Z.to_nat n) data)) nums'.
Proof.
  intros Hf Hne. destruct Hf as [|depth s data num kind n used nums _ -> ? ? ? ?]; [done|]. split; [done|]. by exists used, nums.
Qed.

Lemma field_bytes_inv depth s num f data used : field_ok depth s num BytesType data used → shapes s !! num = Some f →
  let '(body, u) := ConsumeBytes data in
  used = u ∧ (Width f ≠ 0 → Z.of_nat (length body) = Width f) ∧
  (∀ m, FMessage f = Some m → accepts depth m body) ∧ (FMessage f = None → Packed f = true → packed_ok f body).
Proof.
  intros Hok Hf. remember BytesType as kind eqn:Ek.
  destruct Hok as [depth s num data g v used _ _ _|depth s num data g body used Hg Hb ? ? ?|depth s num kind data used Hk _].
  - done.
  - rewrite Hb. rewrite Hf in Hg. injection Hg as <-. by split_and!.
  - destruct Hk as [?|[? _]]; congruence.
Qed.

Lemma field_varint_inv depth s num f data used : field_ok depth s num VarintType data used → shapes s !! num = Some f →
  let '(v, u) := ConsumeVarint data in used = u ∧ fits f v.
Proof.
  intros Hok Hf. remember VarintType as kind eqn:Ek.
  destruct Hok as [depth s num data g v used Hg Hv ?|depth s num data g body used _ _ _ _ _|depth s num kind data used Hk _].
  - rewrite Hv. rewrite Hf in Hg. injection Hg as <-. by split_and!.
  - done.
  - destruct Hk as [?|[_ ?]]; congruence.
Qed.

Lemma field_ok_unique depth s num kind data used used' :
  field_ok depth s num kind data used → field_ok depth s num kind data used' → used = used'.
Proof.
  intros Hok Hok'.
  destruct (decide ((shapes s !! num = None ∨ kind ≠ BytesType ∧ kind ≠ VarintType))) as [Hk|Hk].
  - assert (∀ u, field_ok depth s num kind data u → u = ConsumeFieldValue num kind data) as Hu; [|by rewrite (Hu _ Hok), (Hu _ Hok')].
    intros u Hu. destruct Hu; [destruct Hk as [?|[_ ?]]; congruence|destruct Hk as [?|[? _]]; congruence|done].
  - destruct (shapes s !! num) as [f|] eqn:Ef; [|by destruct Hk; left].
    destruct (decide (kind = BytesType)) as [->|Hb].
    + pose proof (field_bytes_inv _ _ _ _ _ _ Hok Ef) as H1. pose proof (field_bytes_inv _ _ _ _ _ _ Hok' Ef) as H2.
      destruct (ConsumeBytes data). destruct H1 as [-> _], H2 as [-> _]. done.
    + destruct (decide (kind = VarintType)) as [->|Hv]; [|by destruct Hk; right].
      pose proof (field_varint_inv _ _ _ _ _ _ Hok Ef) as H1. pose proof (field_varint_inv _ _ _ _ _ _ Hok' Ef) as H2.
      destruct (ConsumeVarint data). destruct H1 as [-> _], H2 as [-> _]. done.
Qed.

Lemma fields_unique depth s data nums nums' : fields depth s data nums → fields depth s data nums' → nums' = nums.
Proof.
  remember (length data) as k eqn:Ek. revert data nums nums' Ek. induction k as [k IH] using lt_wf_ind.
  intros data nums nums' Ek Hf Hf'. destruct (decide (data = [])) as [->|Hne].
  { inversion Hf; subst; [|done]. inversion Hf'; subst; done. }
  pose proof (fields_inv _ _ _ _ Hf Hne) as H1. pose proof (fields_inv _ _ _ _ Hf' Hne) as H2.
  destruct (ConsumeTag data) as [[num kind] n]. destruct H1 as (Hn & u & l & -> & Hok & Hu & Hr), H2 as (_ & u' & l' & -> & Hok' & _ & Hr').
  rewrite (field_ok_unique _ _ _ _ _ _ _ Hok' Hok) in Hr'. f_equal.
  assert (0 < length data)%nat by (destruct data; [done|cbn; lia]).
  eapply (IH _ _ _ _ _ eq_refl Hr Hr'). Unshelve. rewrite !length_drop. lia.
Qed.

Lemma adds_cons num seen nums seen' : adds (mark num seen) nums seen' → adds seen (num :: nums) seen'.
Proof.
  intros Ha k Hk. rewrite Ha, mark_spec by done. rewrite <- orb_assoc. f_equal.
  destruct (num =? k) eqn:E; cbn [orb].
  - apply Z.eqb_eq in E as ->. by rewrite bool_decide_eq_true_2 by by left.
  - apply bool_decide_ext. rewrite elem_of_cons. split; [by right|]. intros [?|?]; [lia|done].
Qed.

Section Scan.
Variables (depth : nat) (sub : nat → bytes → outcome (option error)).
Hypothesis Hsub : ∀ m body, ∃ r, sub m body = Done r ∧ (r = None ↔ accepts depth m body).

(** Either the fields are read and their numbers marked, or there is no way to
    read them. *)
Definition scanned (s : nat) (data : bytes) (seen : Z) (r : error + Z) : Prop :=
  match r with
  | inr seen' => ∃ nums, fields depth s data nums ∧ adds seen nums seen'
  | inl _ => ∀ nums, ¬ fields depth s data nums
  end.

(** A field that is read is followed by the rest of the loop. *)
Lemma scanned_cons fuel s data seen num kind n used :
  (∀ data seen, (length data < fuel)%nat → ∃ r, scan fuel sub (shapes s) data seen = Done r ∧ scanned s data seen r) →
  data ≠ [] → ConsumeTag data = (num, kind, n) → 0 < n → (length (drop (Z.to_nat n) data) < length data ≤ fuel)%nat →
  consumes used (drop (Z.to_nat n) data) → (used <? 0) = false →
  field_ok depth s num kind (drop (Z.to_nat n) data) used →
  (∀ used', field_ok depth s num kind (drop (Z.to_nat n) data) used' → used' = used) →
  ∃ r, (data ← slice_from used (drop (Z.to_nat n) data); scan fuel sub (shapes s) data (mark num seen)) = Done r ∧ scanned s data seen r.
Proof.
  intros IH Hne Et Hn Hlen Hc Eu Hok Huniq. destruct (slice_consumed _ _ Hc Eu) as (Hu & -> & Hl). cbn [mbind outcome_bind].
  destruct (IH (drop (Z.to_nat used) (drop (Z.to_nat n) data)) (mark num seen)) as (r & -> & Hr); [lia|].
  exists r. split; [done|]. destruct r as [err|seen']; cbn in *.
  - intros nums Hf. pose proof (fields_inv _ _ _ _ Hf Hne) as Hi. rewrite Et in Hi.
    destruct Hi as (_ & used' & nums' & -> & Hok' & _ & Hf'). apply Huniq in Hok' as ->. by eapply Hr.
  - destruct Hr as (nums & Hf & Ha). exists (num :: nums). split; [by econstructor|by apply adds_cons].
Qed.

Lemma scanned_fail s data seen num kind n err :
  data ≠ [] → ConsumeTag data = (num, kind, n) →
  (∀ used, 0 < n → field_ok depth s num kind (drop (Z.to_nat n) data) used → used ≤ 0) →
  ∃ r, Done (inl err : error + Z) = Done r ∧ scanned s data seen r.
Proof.
  intros Hne Et Hno. eexists; split; [done|]. intros nums Hf. pose proof (fields_inv _ _ _ _ Hf Hne) as Hi. rewrite Et in Hi.
  destruct Hi as (Hn & used & nums' & -> & Hok & Hu & _). specialize (Hno used Hn Hok). lia.
Qed.

Lemma scan_spec fuel s data seen :
  (length data < fuel)%nat → ∃ r, scan fuel sub (shapes s) data seen = Done r ∧ scanned s data seen r.
Proof.
  revert data seen. induction fuel as [|fuel IH]; intros data seen Hf; [lia|]. cbn [scan].
  destruct (Nat.eqb_spec (length data) 0) as [E|E].
  { apply length_zero_iff_nil in E as ->. eexists; split; [done|]. exists []. split; [constructor|].
    intros k _. by rewrite orb_false_r. }
  assert (data ≠ []) as Hne by by intros ->.
  pose proof (tag_consumes data Hne) as Hc. destruct (ConsumeTag data) as [[num kind] n] eqn:Et. cbn in Hc.
  destruct (n <? 0) eqn:En; [eapply scanned_fail; [done..|]; intros; lia|].
  destruct (slice_consumed n data Hc En) as (Hn & -> & Hlen). cbn [mbind outcome_bind]. clear Hc.
  set (rest := drop (Z.to_nat n) data) in *.
  assert ((shapes s !! num = None ∨ kind ≠ BytesType ∧ kind ≠ VarintType) →
    ∃ r, (let used := ConsumeFieldValue num kind rest in
          if used <? 0 then Done (inl (ParseError used))
          else data ← slice_from used rest; scan fuel sub (shapes s) data (mark num seen)) = Done r ∧ scanned s data seen r) as Hskip.
  { intros Hk. assert (∀ used, field_ok depth s num kind rest used → used = ConsumeFieldValue num kind rest) as Huniq.
    { intros used Hok. destruct Hok; [destruct Hk as [?|[_ ?]]; congruence|destruct Hk as [?|[? _]]; congruence|done]. }
    cbv zeta. destruct (ConsumeFieldValue num kind rest <? 0) eqn:Eu; [eapply scanned_fail; [done..|]; intros u _ ->%Huniq; lia|].
    eapply scanned_cons; [done|done|exact Et|done|fold rest; lia|apply value_consumes|done|by apply field_skip|done]. }
  destruct (shapes s !! num) as [f|] eqn:Ef; [|by apply Hskip; left].
  destruct (kind =? BytesType) eqn:Ekb; [apply Z.eqb_eq in Ekb|apply Z.eqb_neq in Ekb].
  - pose proof (bytes_consumes rest) as Hc. destruct (ConsumeBytes rest) as [body used] eqn:Eb. cbn in Hc.
    assert (∀ used', field_ok depth s num kind rest used' → used' = used ∧ (Width f ≠ 0 → Z.of_nat (length body) = Width f) ∧
      (∀ m, FMessage f = Some m → accepts depth m body) ∧ (FMessage f = None → Packed f = true → packed_ok f body)) as Hinv.
    { intros used' Hok. rewrite Ekb in Hok. pose proof (field_bytes_inv _ _ _ _ _ _ Hok Ef) as Hi. by rewrite Eb in Hi. }
    destruct (used <? 0) eqn:Eu; [eapply scanned_fail; [done..|]; intros u _ (-> & _)%Hinv; lia|].
    destruct (negb (Width f =? 0) && _) eqn:Ew.
    { eapply scanned_fail; [done..|]. intros u _ (_ & Hw & _)%Hinv. assert (Z.of_nat (length body) = Width f) by (apply Hw; lia). lia. }
    assert (∃ r, match FMessage f with Some m => sub m body | None => if Packed f then check_packed (S (length body)) f body else Done None end = Done r ∧
      (r = None ↔ (∀ m, FMessage f = Some m → accepts depth m body) ∧ (FMessage f = None → Packed f = true → packed_ok f body))) as (r & -> & Hr).
    { destruct (FMessage f) as [m|] eqn:Em.
      - destruct (Hsub m body) as (r & -> & Hr). exists r. split; [done|]. rewrite Hr. split; [by intros ?; split; [intros ? [= <-]|]|].
        intros [H1 _]. by apply H1.
      - destruct (Packed f) eqn:Ep; [|by exists None].
        destruct (check_packed_spec (S (length body)) f body) as (r & -> & Hr); [lia|]. exists r. split; [done|]. rewrite Hr.
        split; [by intros ?; split|]. intros [_ H2]. by apply H2. }
    cbn [mbind outcome_bind]. destruct r as [err|].
    { eapply scanned_fail; [done..|]. intros u _ (_ & _ & Hsm)%Hinv. by apply Hr in Hsm. }
    destruct (proj1 Hr eq_refl) as [Hm Hp].
    eapply scanned_cons; [done|done|exact Et|done|fold rest; lia|exact Hc|done| |by intros u (-> & _)%Hinv].
    subst kind. eapply field_bytes; [done|exact Eb| |done|done]. intros Hw. lia.
  - destruct (kind =? VarintType) eqn:Ekv; [apply Z.eqb_eq in Ekv|apply Z.eqb_neq in Ekv; by apply Hskip; right].
    pose proof (varint_consumes rest) as Hc. destruct (ConsumeVarint rest) as [v used] eqn:Ev. cbn in Hc.
    assert (∀ used', field_ok depth s num kind rest used' → used' = used ∧ fits f v) as Hinv.
    { intros used' Hok. rewrite Ekv in Hok. pose proof (field_varint_inv _ _ _ _ _ _ Hok Ef) as Hi. by rewrite Ev in Hi. }
    destruct (used <? 0) eqn:Eu; [eapply scanned_fail; [done..|]; intros u _ (-> & _)%Hinv; lia|].
    destruct (check f v) as [err|] eqn:Ec.
    { eapply scanned_fail; [done..|]. intros u _ (_ & Hfit%check_fits)%Hinv. congruence. }
    eapply scanned_cons; [done|done|exact Et|done|fold rest; lia|exact Hc|done| |by intros u (-> & _)%Hinv].
    subst kind. eapply field_varint; [done|exact Ev|by apply check_fits].
Qed.
End Scan.
Hypothesis positive_numbers : ∀ s k f, shapes s !! k = Some f → 0 < k.

(** C40.  The bounds check ends without a panic on every byte string, and accepts
    it exactly when it is well formed: every field is readable, every varint of
    a narrowed field fits its width, packed ones and those of nested messages
    included, every hash has its width and none is missing, and messages nest
    no deeper than allowed. *)
Theorem Validate_spec depth s data :
  ∃ r, Validate depth s data = Done r ∧ (r = None ↔ accepts depth s data).
Proof.
  revert s data. induction depth as [|depth IH]; intros s data.
  { eexists; split; [done|]. split; [done|]. intros Ha. inversion Ha. }
  cbn [Validate]. destruct (scan_spec depth _ IH (S (length data)) s data 0) as (r & -> & Hr); [lia|]. cbn [mbind outcome_bind].
  destruct r as [err|seen]; cbn [scanned] in Hr.
  { eexists; split; [done|]. split; [done|]. intros Ha. inversion Ha; subst. exfalso. by eapply Hr. }
  destruct Hr as (nums & Hf & Ha).
  assert (∀ k f, shapes s !! k = Some f → k ≤ 64 → missing seen (k, f) = negb (Width f =? 0) && negb (bool_decide (k ∈ nums))) as Hmiss.
  { intros k f Hk H64. pose proof (positive_numbers s k f Hk). rewrite missing_bit by lia. f_equal. by rewrite Ha, Z.bits_0 by lia. }
  eexists; split; [done|]. destruct (filter _ _) as [|[k f] l] eqn:El.
  - split; [|done]. intros _. apply (accepts_fields depth s data nums Hf). intros k f Hk Hw H64.
    destruct (decide (k ∈ nums)) as [|Hn]; [done|].
    assert ((k, f) ∈ filter (λ kv, missing seen kv = true) (range_order (ord depth) (shapes s))) as Hin.
    { apply list_elem_of_filter. split; [|by apply elem_of_range_order].
      rewrite Hmiss by done. rewrite bool_decide_eq_false_2 by done. lia. }
    rewrite El in Hin. by apply not_elem_of_nil in Hin.
  - split; [done|]. intros Hacc. exfalso.
    assert ((k, f) ∈ (k, f) :: l) as Hin by left. rewrite <- El in Hin.
    apply list_elem_of_filter in Hin as [Hm Hk%elem_of_range_order].
    assert (k ≤ 64) as H64 by (unfold missing in Hm; cbn in Hm; lia). rewrite Hmiss in Hm by done.
    inversion Hacc as [? ? ? nums' Hf' Hall]; subst.
    destruct (decide (k ∈ nums)) as [Hin|Hni]; [rewrite bool_decide_eq_true_2 in Hm by done; lia|].
    apply Hni. assert (nums' = nums) as <- by by eapply fields_unique. apply (Hall k f); [done|lia|done].
Qed.
End Validate.
(** ** A concrete [protowire], and runs *)

(** Base-128 varints of at most ten bytes. *)
Fixpoint varint (fuel : nat) (shift acc count : Z) (data : bytes) : Z * Z :=
  match fuel, data with
  | O, _ => (0, -2)
  | _, [] => (0, -1)
  | S fuel, b :: data =>
      let acc := acc + Z.shiftl (Z.land b 127) shift in
      if b <? 128 then (acc, count + 1) else varint fuel (shift + 7) acc (count + 1) data
  end.

Lemma varint_bounds fuel shift acc count data : 0 ≤ count →
  (varint fuel shift acc count data).2 < 0 ∨ count < (varint fuel shift acc count data).2 ≤ count + Z.of_nat (length data).
Proof.
  revert shift acc count data. induction fuel as [|fuel IH]; intros shift acc count data Hc; [by left|].
  destruct data as [|b data]; [by left|]. cbn [varint]. destruct (b <? 128); [right; cbn [snd length]; lia|].
  destruct (IH (shift + 7) (acc + Z.shiftl (Z.land b 127) shift) (count + 1) data); [lia|by left|right; cbn [length]; lia].
Qed.

Definition read_varint (data : bytes) : Z * Z := varint 10 0 0 0 data.
Definition read_bytes (data : bytes) : bytes * Z :=
  let '(len, n) := read_varint data in
  if n <? 0 then ([], n)
  else if (len <? 0) || (Z.of_nat (length data) <? n + len) then ([], -1)
  else (take (Z.to_nat len) (drop (Z.to_nat n) data), n + len).
Definition exactly (n : Z) (data : bytes) : Z := if Z.of_nat (length data) <? n then -1 else n.

#[local] Instance demo_wire : ProtoWire := {|
  ConsumeTag data := let '(v, n) := read_varint data in (Z.shiftr v 3, Z.land v 7, n);
  ConsumeBytes := read_bytes;
  ConsumeVarint := read_varint;
  ConsumeFieldValue num kind data :=
    if kind =? 0 then (read_varint data).2 else if kind =? 1 then exactly 8 data
    else if kind =? 2 then (read_bytes data).2 else if kind =? 5 then exactly 4 data else -3;
  DecodeZigZag v := Z.lxor (Z.shiftr v 1) (- Z.land v 1);
|}.

#[local] Instance demo_wire_laws : ProtoWireLaws.
Proof.
  assert (∀ data, consumes (read_varint data).2 data) as Hv.
  { intros data. destruct (varint_bounds 10 0 0 0 data); [lia|by left|right; unfold read_varint; lia]. }
  assert (∀ data, consumes (read_bytes data).2 data) as Hb.
  { intros data. specialize (Hv data). unfold read_bytes. destruct (read_varint data) as [len n]. cbn in Hv.
    destruct (n <? 0) eqn:En; [left; cbn; lia|]. destruct (_ || _) eqn:E; [left; cbn; lia|]. right. cbn.
    destruct Hv as [?|?]; lia. }
  assert (∀ n data, 0 < n → consumes (exactly n data) data) as He.
  { intros n data Hn. unfold exactly, consumes. destruct (_ <? n) eqn:E; lia. }
  split; [|done|done|].
  - intros data _. specialize (Hv data). revert Hv. unfold ConsumeTag, demo_wire.
    destruct (read_varint data). exact id.
  - intros num kind data. unfold ConsumeFieldValue, demo_wire. repeat case_match; [apply Hv|by apply He|apply Hb|by apply He|left; lia].
Qed.

(** Shape 0: field 1 an [int32], field 2 a nested shape 1; shape 1: field 1 a
    [uint8], field 2 a four-byte hash. *)
Definition shapes_demo (s : nat) : Shape :=
  match s with
  | O => {[ 1 := mkField None 0 32 0 false; 2 := mkField (Some 1%nat) 0 0 0 false ]}
  | _ => {[ 1 := mkField None 8 0 0 false; 2 := mkField None 0 0 4 false ]}
  end.
Definition payload_demo : bytes := [8; 9; 18; 9; 8; 200; 1; 18; 4; 1; 2; 3; 4].

Lemma Validate_spec_witness :
  Validate shapes_demo (λ _, []) 64 0 payload_demo = Done None ∧
  Validate shapes_demo (λ _, []) 64 0 [18; 3; 8; 200; 2] = Done (Some (OutOfRangeUint 8)) ∧
  Validate shapes_demo (λ _, []) 1 0 payload_demo = Done (Some Recursion) ∧
  accepts shapes_demo 64 0 payload_demo.
Proof.
  assert (Validate shapes_demo (λ _, []) 64 0 payload_demo = Done None) as E by (vm_compute; reflexivity).
  split; [exact E|]. split; [vm_compute; reflexivity|]. split; [vm_compute; reflexivity|].
  destruct (Validate_spec shapes_demo (λ _, [])) with (depth := 64%nat) (s := 0%nat) (data := payload_demo) as (r & Hr & Hok).
  - intros s k f Hk. assert (k = 1 ∨ k = 2); [|lia].
    destruct s as [|s]; cbn in Hk; rewrite lookup_insert_Some, lookup_singleton_Some in Hk; naive_solver.
  - apply Hok. congruence.
Defined.

(** A message that is one byte. *)
Definition byte_message : Message Z := {|
  Size _ := 1;
  MarshalToSizedBuffer m n := inr (1, [m]);
  UnmarshalProto bs := match bs with [b] => inr b | _ => inl Short end;
  ValidateProtoPayload bs _ := if Nat.eqb (length bs) 1 then None else Some Recursion;
  NormalizeProto m := inr m |}.

Lemma frame_roundtrip_witness :
  Encode byte_message 9 true 77 100 = Done (inr [9; 67; 65; 80; 1; 1; 0; 0; 0; 77]) ∧
  ∃ frame, Encode byte_message 9 true 77 100 = Done (inr ([9] ++ frame)) ∧
    Z.of_nat (length frame) = Z.of_nat headerSize + 1 ∧ Read byte_message (frame ++ [5; 6]) 100 = (inr 77, [5; 6]).
Proof.
  split; [vm_compute; reflexivity|].
  apply (frame_roundtrip byte_message 77 [77] 9 true 100 [5; 6]); [by split|vm_compute; discriminate|vm_compute; discriminate].
Defined.

Lemma frame_accepted_witness :
  Read byte_message [67; 65; 80; 1; 1; 0; 0; 0; 77; 5] 100 = (inr 77, [5]) ∧
  ∃ len body, [67; 65; 80; 1; 1; 0; 0; 0; 77; 5] = magic ++ len ++ body ++ [5] ∧ length len = 4%nat ∧
    Z.of_nat (length body) = le_decode len ∧ le_decode len ≤ MaxFrame ∧ le_decode len ≤ u64 100 ∧
    ValidateProtoPayload byte_message body 64 = None.
Proof.
  assert (Read byte_message [67; 65; 80; 1; 1; 0; 0; 0; 77; 5] 100 = (inr 77, [5])) as E by (vm_compute; reflexivity).
  split; [exact E|]. apply (frame_accepted byte_message [67; 65; 80; 1; 1; 0; 0; 0; 77; 5] 100 77 [5]); [|exact E].
  repeat constructor; lia.
Defined.
End Wire.
