(* ===== verification/Transport.v ===== *)
(** * Transport: fan-out of messages (package [replica], [transport.go])

    [MessageSender] sends one image to a plan of recipients.  Queue admission,
    eligibility and local delivery are the caller's callbacks over a state of
    its own.  [SendToAll_tried] is the reference definition: the recipients are
    the first [Limit] reachable ones of the plan's order, one attempt each. *)
From stdpp Require Import gmap strings list.
From Stdlib Require Import Lia.
From S2P Require Import Prelude.

Module Transport.
Section Fanout.
Context {Msg Frame St : Type}.

Record MessageSender := mkMessageSender {
  ID : Z; N : Z;
  Eligible : option (Z → bool);
  Enqueue : Z → Frame → St → option string * St;
  Local : option (Msg → St → St) }.

Record SendPlan := mkSendPlan {
  Order : option (list Z);       (* nil uses ascending process ids *)
  Limit : Z;                     (* <= 0 attempts every eligible recipient *)
  IncludeSelf : bool;
  PlanEncode : option Frame }.   (* optional immutable image *)

Definition ErrPeerID : string := "invalid peer ID".

(** Whether an attempt was made, and its error. *)
Definition deliver (s : MessageSender) (id : Z) (msg : Msg) (image : Frame) (st : St) : bool * option string * St :=
  if (id <? 0) || (N s <=? id) then (true, Some ErrPeerID, st)
  else if id =? ID s then
    match Local s with None => (false, None, st) | Some f => (true, None, f msg st) end
  else if negb (from_option (λ f, f id) true (Eligible s)) then (false, None, st)
  else let '(err, st) := Enqueue s id image st in (true, err, st).

Definition Send (s : MessageSender) (id : Z) (msg : Msg) (image : Frame) (st : St) : option string * St :=
  let '(_, err, st) := deliver s id msg image st in (err, st).

(** The loop over the order: the attempts and drops so far. *)
Fixpoint attempt_all (s : MessageSender) (plan : SendPlan) (msg : Msg) (image : Frame) (order : list Z)
    (attempts drops : Z) (st : St) : Z * St :=
  match order with
  | [] => (drops, st)
  | id :: order =>
      if (id =? ID s) && negb (IncludeSelf plan) then attempt_all s plan msg image order attempts drops st else
      let '(attempted, err, st) := deliver s id msg image st in
      if negb attempted then attempt_all s plan msg image order attempts drops st else
      let attempts := attempts + 1 in
      let drops := if err then drops + 1 else drops in
      if (0 <? Limit plan) && (Limit plan <=? attempts) then (drops, st)
      else attempt_all s plan msg image order attempts drops st
  end.

(** [frame] is [Encode(code, msg, true)]. *)
Definition SendToAll (s : MessageSender) (msg : Msg) (frame : Frame) (plan : SendPlan) (st : St) : Z * St :=
  attempt_all s plan msg (default frame (PlanEncode plan)) (default (rangeZ 0 (N s - 1)) (Order plan)) 0 0 st.

(** ** The reference: whom a plan reaches *)

(** An attempt is made: a bad id, this process if it delivers locally, an
    eligible peer. *)
Definition attempts_to (s : MessageSender) (plan : SendPlan) (id : Z) : bool :=
  negb ((id =? ID s) && negb (IncludeSelf plan)) &&
  ((id <? 0) || (N s <=? id) ||
   (if id =? ID s then bool_decide (is_Some (Local s)) else from_option (λ f, f id) true (Eligible s))).

Definition tried (s : MessageSender) (plan : SendPlan) : list Z :=
  let l := filter (λ id, attempts_to s plan id = true) (default (rangeZ 0 (N s - 1)) (Order plan)) in
  if 0 <? Limit plan then take (Z.to_nat (Limit plan)) l else l.

(** One attempt, counting a refused admission. *)
Definition attempt (s : MessageSender) (msg : Msg) (image : Frame) (a : Z * St) (id : Z) : Z * St :=
  let '(_, err, st) := deliver s id msg image a.2 in (if err then a.1 + 1 else a.1, st).

Lemma deliver_attempts s plan id msg image st :
  (id =? ID s) && negb (IncludeSelf plan) = false →
  (deliver s id msg image st).1.1 = attempts_to s plan id ∧
  (attempts_to s plan id = false → deliver s id msg image st = (false, None, st)).
Proof.
  intros Hself. unfold deliver, attempts_to. rewrite Hself. cbn.
  destruct ((id <? 0) || (N s <=? id)); [done|]. cbn. destruct (id =? ID s).
  - by destruct (Local s).
  - destruct (from_option _ _ _); cbn; [|done]. by destruct (Enqueue s id image st).
Qed.

Lemma attempt_all_spec s plan msg image order k drops st :
  0 ≤ k → (0 < Limit plan → k < Limit plan) →
  let l := filter (λ id, attempts_to s plan id = true) order in
  attempt_all s plan msg image order k drops st =
  foldl (attempt s msg image) (drops, st) (if 0 <? Limit plan then take (Z.to_nat (Limit plan - k)) l else l).
Proof.
  revert k drops st. induction order as [|id order IH]; intros k drops st Hk Hl; cbn [attempt_all].
  { cbn. destruct (0 <? Limit plan); [by rewrite take_nil|done]. }
  destruct ((id =? ID s) && negb (IncludeSelf plan)) eqn:Eself.
  { cbv zeta. rewrite filter_cons_False; [by apply IH|]. unfold attempts_to. by rewrite Eself. }
  destruct (deliver_attempts s plan id msg image st Eself) as [Ha Hskip].
  destruct (deliver s id msg image st) as [[attempted err] st'] eqn:Ed. cbn in Ha. subst attempted.
  destruct (attempts_to s plan id) eqn:Ea; cbn [negb].
  2: { specialize (Hskip eq_refl). injection Hskip as -> ->. cbv zeta. rewrite filter_cons_False by congruence. by apply IH. }
  cbv zeta. rewrite filter_cons_True by done.
  assert (attempt s msg image (drops, st) id = (if err then drops + 1 else drops, st')) as Hone by (unfold attempt; cbn; by rewrite Ed).
  destruct (0 <? Limit plan) eqn:E0; cbn [andb].
  - replace (Z.to_nat (Limit plan - k)) with (S (Z.to_nat (Limit plan - (k + 1)))) by lia. cbn [take foldl]. rewrite Hone.
    destruct (Limit plan <=? k + 1) eqn:El.
    + replace (Z.to_nat (Limit plan - (k + 1))) with 0%nat by lia. by rewrite take_0.
    + by rewrite IH by lia.
  - cbn [foldl]. by rewrite Hone, IH by lia.
Qed.

(** The fan-out makes one attempt for each id of [tried], in order, and returns
    the number of refused admissions. *)
Lemma SendToAll_tried s msg frame plan st :
  SendToAll s msg frame plan st = foldl (attempt s msg (default frame (PlanEncode plan))) (0, st) (tried s plan).
Proof.
  unfold SendToAll, tried. rewrite attempt_all_spec by lia. by rewrite Z.sub_0_r.
Qed.

Lemma tried_limit s plan : 0 < Limit plan → Z.of_nat (length (tried s plan)) ≤ Limit plan.
Proof. intros Hl. unfold tried. rewrite (proj2 (Z.ltb_lt _ _) Hl). rewrite length_take. lia. Qed.
End Fanout.
End Transport.
