(* ===== verification/Paxos.v ===== *)
(** * Paxos: the classic Paxos core (package [paxos])

    [paxos/core.go], [paxos/recovery.go] and [paxos/execute.go], one definition
    per method, over the record [core] of the fields of [type core].

    - The output callbacks ([send], [broadcast], [reply]) append to the trace
      [out].  [EventLoop.Send] delivers a packet addressed to the replica itself
      synchronously: [send] reenters the dispatcher through [rcv], and [receive]
      ties the knot with fuel.  Three levels suffice
      ([PaxosSafety.receive_ok], [PaxosSystem.events_succeed]).
    - [execute] is the interface [StateMachine], its state the field [sm].
    - [time.Now()] and the iteration order of maps come from the environment
      [env] of the event being handled.
    - Slots and ballots are [int64]: the ballot computation wraps; slots only
      ever grow by one from -1.  Counters wrap at [uint64]. *)
From stdpp Require Import gmap strings list fin_maps.
From Stdlib Require Import Lia.
From S2P Require Import Prelude State ReplicaSet Defs.

Module Paxos.

(** ** Messages ([paxos/defs.go], [paxos/messages.pb.go]) *)
Definition PageSize : Z := 128.
Definition AdmissionWindow : Z := 8192.

Definition packetPrepare : Z := 0.
Definition packetPromise : Z := 1.
Definition packetAccept : Z := 2.
Definition packetAck : Z := 3.
Definition packetCommit : Z := 4.
Definition packetReady : Z := 5.
Definition packetFetch : Z := 6.
Definition packetForward : Z := 7.

Record Request := mkRequest { ID : RequestID; Cmd : Command }.
Record Record_ := mkRecord { Slot : Z; RBallot : Z; Req : Request; Committed : bool }.
Record Packet := mkPacket {
  Kind : Z; From : Z; Ballot : Z; Floor : Z; High : Z; Page : Z; Pages : Z;
  Records : list Record_; Requests : list Request }.

#[export] Instance Request_eq_dec : EqDecision Request.
Proof. solve_decision. Defined.
#[export] Instance Record_eq_dec : EqDecision Record_.
Proof. solve_decision. Defined.
#[export] Instance Packet_eq_dec : EqDecision Packet.
Proof. solve_decision. Defined.

#[export] Instance eta_Record : Eta Record_ :=
  λ r, mkRecord (Slot r) (RBallot r) (Req r) (Committed r).
#[export] Instance set_RBallot : Setter RBallot := ltac:(mk_setter).
#[export] Instance set_Committed : Setter Committed := ltac:(mk_setter).

#[export] Instance eta_Packet : Eta Packet :=
  λ p, mkPacket (Kind p) (From p) (Ballot p) (Floor p) (High p) (Page p) (Pages p)
         (Records p) (Requests p).
#[export] Instance set_Floor : Setter Floor := ltac:(mk_setter).
#[export] Instance set_High : Setter High := ltac:(mk_setter).
#[export] Instance set_Page : Setter Page := ltac:(mk_setter).
#[export] Instance set_Pages : Setter Pages := ltac:(mk_setter).
#[export] Instance set_Records : Setter Records := ltac:(mk_setter).
#[export] Instance set_Requests : Setter Requests := ltac:(mk_setter).

(** A packet literal: the fields not given are zero. *)
Definition packet (kind from ballot : Z) : Packet := mkPacket kind from ballot 0 0 0 0 [] [].

Definition zeroCommand : Command := mkCommand 0 0 [].
Definition zeroRequest : Request := mkRequest (mkRequestID 0 0) zeroCommand.

(** ** State *)

(** The calls of the output callbacks, in order. *)
Inductive event :=
  | Sent (to : Z) (p : Packet)
  | Broadcast (p : Packet)
  | Replied (r : Request) (v : Value).

#[export] Instance event_eq_dec : EqDecision event.
Proof. solve_decision. Defined.

(** What an event handler observes besides its message. *)
Record env := mkEnv {
  now : Z;                          (* time.Now() during the event *)
  ord_pending : list RequestID;     (* range c.pending *)
  ord_peers : list Z;               (* range c.promises *)
  ord_pages : Z → list Z;           (* range c.pages[peer] *)
  ord_log : list Z;                 (* range c.log *)
}.

Section Core.
Context `{SM : StateMachine}.

Record core := mkCore {
  cn : Z; cid : Z; leader : Z;
  frozen : list Packet; frozenBallot : Z; frozenFloor : Z;
  ballot : Z;
  active : bool; preparing : bool;
  high : Z; executed : Z;
  log : gmap Z Record_;
  values : gmap RequestID Value;
  assigned : gmap RequestID Z;
  pending : gmap RequestID Request;
  votes : gmap Z Z;                 (* map[int64]replicaset.Set *)
  pages : gmap Z (gmap Z Packet);
  promises : gset Z;
  queue : list RequestID;
  queued : gset RequestID;
  recoveryEnd : Z;
  lastSend : Time; lastFetch : Time;
  sm : sm_state;
  recoveries : Z; replayReplies : Z; gapAccepts : Z; fetchRequests : Z; fetchSuppressed : Z;
  resume : list Request;
  out : list event;
}.

#[export] Instance eta_core : Eta core := λ c,
  mkCore (cn c) (cid c) (leader c) (frozen c) (frozenBallot c) (frozenFloor c) (ballot c)
    (active c) (preparing c) (high c) (executed c) (log c) (values c) (assigned c) (pending c)
    (votes c) (pages c) (promises c) (queue c) (queued c) (recoveryEnd c) (lastSend c) (lastFetch c)
    (sm c) (recoveries c) (replayReplies c) (gapAccepts c) (fetchRequests c) (fetchSuppressed c)
    (resume c) (out c).
#[export] Instance set_leader : Setter leader := ltac:(mk_setter).
#[export] Instance set_frozen : Setter frozen := ltac:(mk_setter).
#[export] Instance set_frozenBallot : Setter frozenBallot := ltac:(mk_setter).
#[export] Instance set_frozenFloor : Setter frozenFloor := ltac:(mk_setter).
#[export] Instance set_ballot : Setter ballot := ltac:(mk_setter).
#[export] Instance set_active : Setter active := ltac:(mk_setter).
#[export] Instance set_preparing : Setter preparing := ltac:(mk_setter).
#[export] Instance set_high : Setter high := ltac:(mk_setter).
#[export] Instance set_executed : Setter executed := ltac:(mk_setter).
#[export] Instance set_log : Setter log := ltac:(mk_setter).
#[export] Instance set_values : Setter values := ltac:(mk_setter).
#[export] Instance set_assigned : Setter assigned := ltac:(mk_setter).
#[export] Instance set_pending : Setter pending := ltac:(mk_setter).
#[export] Instance set_votes : Setter votes := ltac:(mk_setter).
#[export] Instance set_pages : Setter pages := ltac:(mk_setter).
#[export] Instance set_promises : Setter promises := ltac:(mk_setter).
#[export] Instance set_queue : Setter queue := ltac:(mk_setter).
#[export] Instance set_queued : Setter queued := ltac:(mk_setter).
#[export] Instance set_recoveryEnd : Setter recoveryEnd := ltac:(mk_setter).
#[export] Instance set_lastSend : Setter lastSend := ltac:(mk_setter).
#[export] Instance set_lastFetch : Setter lastFetch := ltac:(mk_setter).
#[export] Instance set_sm : Setter sm := ltac:(mk_setter).
#[export] Instance set_recoveries : Setter recoveries := ltac:(mk_setter).
#[export] Instance set_replayReplies : Setter replayReplies := ltac:(mk_setter).
#[export] Instance set_gapAccepts : Setter gapAccepts := ltac:(mk_setter).
#[export] Instance set_fetchRequests : Setter fetchRequests := ltac:(mk_setter).
#[export] Instance set_fetchSuppressed : Setter fetchSuppressed := ltac:(mk_setter).
#[export] Instance set_resume : Setter resume := ltac:(mk_setter).
#[export] Instance set_out : Setter out := ltac:(mk_setter).

(** [newCore] *)
Definition newCore (n id leader : Z) : outcome core :=
  if (n <? 3) || (63 <? n) || (Z.rem n 2 =? 0)
  then Panicked "recovery log requires odd membership of 3..63"
  else Done (mkCore n id leader [] 0 0 leader true false (-1) (-1) ∅ ∅ ∅ ∅ ∅ ∅ ∅ [] ∅ (-1)
               None None sm_init 0 0 0 0 0 [] []).

(** [c.n/2+1] *)
Definition quorum (c : core) : Z := Z.quot (cn c) 2 + 1.

Definition emit (ev : event) (c : core) : core := c <| out ::= (λ o, o ++ [ev]) |>.
Definition broadcast (p : Packet) (c : core) : core := emit (Broadcast p) c.
Definition reply (r : Request) (v : Value) (c : core) : core := emit (Replied r v) c.

Definition boolInt (v : bool) : Z := if v then 1 else 0.

Definition enqueue (r : Request) (c : core) : core :=
  if decide (is_Some (values c !! ID r)) then c
  else if decide (is_Some (assigned c !! ID r)) then c
  else if decide (ID r ∈ queued c) then c
  else c <| queue ::= (λ q, q ++ [ID r]) |> <| queued ::= union {[ID r]} |>.

(** [install]: the new record enters the log, [assigned] and [high]. *)
Definition put_record (r : Record_) (c : core) : core :=
  let c := c <| log ::= <[Slot r := r]> |> <| assigned ::= <[ID (Req r) := Slot r]> |> in
  if high c <? Slot r then c <| high := Slot r |> else c.

Definition install (r : Record_) (c : core) : outcome core :=
  match log c !! Slot r with
  | Some old =>
      if Committed old then
        if decide (ID (Req old) = ID (Req r)) then Done c
        else Panicked "conflicting decision"
      else Done (put_record r c)
  | None => Done (put_record r c)
  end.

(** [apply]: one round of the loop for a committed next slot. *)
Definition apply_one (r : Record_) (c : core) : outcome core :=
  c ← (if decide (values c !! ID (Req r) = None ∧ Op (Cmd (Req r)) ≠ NONE) then
         '(v, s) ← sm_execute (Cmd (Req r)) (sm c);
         Done (reply (Req r) v (c <| sm := s |> <| values ::= <[ID (Req r) := v]> |>))
       else Done c);
  Done (c <| pending ::= delete (ID (Req r)) |> <| votes ::= delete (Slot r) |>
          <| executed ::= (λ e, e + 1) |>).

Fixpoint apply_loop (fuel : nat) (c : core) : outcome core :=
  match fuel with
  | O => OutOfFuel
  | S fuel =>
      match log c !! (executed c + 1) with
      | Some r => if Committed r then c ← apply_one r c; apply_loop fuel c else Done c
      | None => Done c
      end
  end.

(** Each round executes one more slot of the log, so its size bounds them. *)
Definition apply (c : core) : outcome core := apply_loop (S (size (log c))) c.

(** [ack]: count one acknowledged slot. *)
Definition ack_one (from : Z) (a : Record_) (st : list Record_ * core) : outcome (list Record_ * core) :=
  let '(committed, c) := st in
  if Slot a <=? executed c then Done (committed, c) else
  let voters := ReplicaSet.With (default 0 (votes c !! Slot a)) from in
  let c := c <| votes ::= <[Slot a := voters]> |> in
  match log c !! Slot a with
  | None => Done (committed, c)
  | Some r =>
      if negb (RBallot r =? ballot c) || Committed r || (ReplicaSet.Size voters <? quorum c)
      then Done (committed, c)
      else
        let r := r <| Committed := true |> in
        Done (committed ++ [r], c <| log ::= <[Slot a := r]> |>)
  end.

Definition ack (p : Packet) (c : core) : outcome core :=
  if preparing c || negb (cid c =? leader c) then Done c else
  '(committed, c) ← forEach (ack_one (From p)) (Records p) ([], c);
  let c :=
    if (cid c =? leader c) && negb (Nat.eqb (length committed) 0)
    then broadcast (packet packetCommit (cid c) (ballot c) <| Records := committed |>) c
    else c in
  apply c.

(** ** The methods that may reenter the dispatcher *)
Section Handlers.
Variable e : env.
Variable rcv : Packet → core → outcome core.

(** [EventLoop.Send]: synchronous local delivery. *)
Definition send (to : Z) (p : Packet) (c : core) : outcome core :=
  let c := emit (Sent to p) c in
  if to =? cid c then rcv p c else Done c.

Definition submit (r : Request) (c : core) : outcome core :=
  match values c !! ID r with
  | Some v => Done (reply r v (c <| replayReplies ::= (λ x, u64 (x + 1)) |>))
  | None =>
      let c := c <| pending ::= <[ID r := r]> |> in
      if negb (active c) then Done c
      else if leader c =? cid c then Done (enqueue r c)
      else send (leader c) (packet packetForward (cid c) (ballot c) <| Requests := [r] |>) c
  end.

Definition requestFetch (c : core) : outcome core :=
  if cid c =? leader c then Done c
  else if Sub (now e) (lastFetch c) <? 100 * Millisecond
  then Done (c <| fetchSuppressed ::= (λ x, u64 (x + 1)) |>)
  else
    let c := c <| lastFetch := Some (now e) |> <| fetchRequests ::= (λ x, u64 (x + 1)) |> in
    send (leader c) (packet packetFetch (cid c) (ballot c) <| Floor := executed c + 1 |>) c.

(** The body of [accept]'s loop: [r.Ballot = p.Ballot], install, acknowledge. *)
Definition accept_one (b : Z) (r : Record_) (st : list Record_ * bool * core) :
    outcome (list Record_ * bool * core) :=
  let '(accepted, gap, c) := st in
  let '(gap, c) :=
    if (0 <? Slot r) && bool_decide (log c !! (Slot r - 1) = None)
    then (true, c <| gapAccepts ::= (λ x, u64 (x + 1)) |>) else (gap, c) in
  c ← install (r <| RBallot := b |>) c;
  Done (accepted ++ [mkRecord (Slot r) 0 zeroRequest false], gap, c).

Definition accept (p : Packet) (c : core) : outcome core :=
  '(accepted, gap, c) ← forEach (accept_one (Ballot p)) (Records p) ([], false, c);
  c ← (if gap : bool then requestFetch c else Done c);
  if Nat.eqb (length accepted) 0 then Done c else
  send (leader c) (packet packetAck (cid c) (ballot c) <| Records := accepted |>) c.

(** [sendSuffix]: one page of at most [PageSize] slots. *)
Definition suffix_records (lo hi : Z) (c : core) : list Record_ :=
  omap (λ s, (λ r, r <| RBallot := ballot c |>) <$> log c !! s)
    (rangeZ lo (Z.min (lo + PageSize - 1) hi)).

Definition suffix_page (to hi : Z) (fetch : bool) (lo : Z) (c : core) : outcome core :=
  let recs := suffix_records lo hi c in
  if Nat.eqb (length recs) 0 then Done c else
  if fetch && negb (to =? cid c) then
    c ← send to (packet packetAccept (cid c) (ballot c) <| Records := recs |>) c;
    let decided := filter (λ r, Committed r = true) recs in
    if Nat.eqb (length decided) 0 then Done c
    else send to (packet packetCommit (cid c) (ballot c) <| Records := decided |>) c
  else
    let p := packet packetAccept (cid c) (ballot c)
               <| Records := (λ r, r <| Committed := false |>) <$> recs |> in
    accept p (broadcast p c).

(** [for lo := start; lo <= end; lo += PageSize] *)
Definition page_starts (start hi : Z) : list Z :=
  (λ i, start + i * PageSize) <$> rangeZ 0 ((hi - start) / PageSize).

Definition sendSuffix (to start : Z) (fetch : bool) (c : core) : outcome core :=
  let limit := start + 2048 - 1 in
  let hi := if limit <? high c then limit else high c in
  forEach (suffix_page to hi fetch) (page_starts start hi) c.

Definition schedulePending (c : core) : core :=
  c <| resume := (range_order (ord_pending e) (pending c)).*2 |>.

Definition activate (c : core) : core :=
  let c := c <| active := true |> in
  let c := broadcast (packet packetReady (cid c) (ballot c)
                        <| High := executed c |> <| Floor := 1 |>) c in
  schedulePending c.

(** [promise] *)
Definition page_count (n : nat) : Z :=
  let count := (Z.of_nat n + PageSize - 1) / PageSize in
  if count =? 0 then 1 else count.

Definition promise_values (floor : Z) (c : core) : list Record_ :=
  omap (λ s, log c !! s) (rangeZ floor (high c)).

Definition promise_page (floor : Z) (vals : list Record_) (c : core) (page : Z) : Packet :=
  packet packetPromise (cid c) (ballot c)
    <| Floor := floor |> <| High := high c |> <| Page := page |> <| Pages := page_count (length vals) |>
    <| Records := take (Z.to_nat PageSize) (drop (Z.to_nat (page * PageSize)) vals) |>.

Definition promise (p : Packet) (c : core) : outcome core :=
  if negb (Nat.eqb (length (frozen c)) 0) && (frozenBallot c =? Ballot p) && (frozenFloor c =? Floor p)
  then forEach (send (From p)) (frozen c) c
  else
    let vals := promise_values (Floor p) c in
    let snapshot := promise_page (Floor p) vals c <$> seqZ 0 (page_count (length vals)) in
    let c := c <| frozen := snapshot |> <| frozenBallot := Ballot p |> <| frozenFloor := Floor p |> in
    forEach (send (From p)) snapshot c.

(** [promiseReply]: merging the promised records, highest ballot first. *)
Definition select_record (selected : gmap Z Record_) (r : Record_) : gmap Z Record_ :=
  match selected !! Slot r with
  | Some old => if RBallot old <? RBallot r then <[Slot r := r]> selected else selected
  | None => <[Slot r := r]> selected
  end.

Definition select_page (acc : gmap Z Record_ * Z) (page : Packet) : gmap Z Record_ * Z :=
  let '(selected, high) := acc in
  (foldl select_record selected (Records page), if high <? High page then High page else high).

Definition promised_pages (c : core) : list Packet :=
  p ← range_set (ord_peers e) (promises c);
  (range_order (ord_pages e p) (default ∅ (pages c !! p))).*2.

Definition noop_request (slot : Z) : Request :=
  mkRequest (mkRequestID (-1) (i32 slot)) (mkCommand NONE 0 []).

(** The body of the loop that refills the log from [selected]. *)
Definition adopt_slot (selected : gmap Z Record_) (c : core) (slot : Z) : core :=
  let r := default (mkRecord slot 0 (noop_request slot) false) (selected !! slot) in
  let r := r <| RBallot := ballot c |> <| Committed := false |> in
  c <| log ::= <[slot := r]> |> <| assigned ::= <[ID (Req r) := slot]> |>.

Definition executed_assigned (c : core) : gmap RequestID Z :=
  foldl (λ m '(slot, r), if slot <=? executed c then <[ID (Req r) := slot]> m else m) ∅
    (range_order (ord_log e) (log c)).

(** The election: the part of [promiseReply] after the majority test. *)
Definition elect (c : core) : outcome core :=
  let '(selected, hi) := foldl select_page (∅, executed c) (promised_pages c) in
  let c := c <| preparing := false |> <| high := hi |> <| assigned := executed_assigned c |> in
  let c := foldl (adopt_slot selected) c (rangeZ (executed c + 1) hi) in
  let c := c <| recoveryEnd := high c |> <| votes := ∅ |> in
  c ← sendSuffix (cid c) (executed c + 1) false c;
  Done (if recoveryEnd c <=? executed c then activate c else c).

Definition complete_pages (p : Packet) (c : core) (ps : gmap Z Packet) : bool :=
  (Z.of_nat (size ps) =? Pages p) &&
  forallb (λ i, match ps !! i with
                | Some v => (Pages v =? Pages p) && (Floor v =? executed c + 1) && (High v =? High p)
                | None => false
                end) (seqZ 0 (Pages p)).

Definition promiseReply (p : Packet) (c : core) : outcome core :=
  if negb (preparing c) || negb (leader c =? cid c) || (Pages p <=? 0) || (Page p <? 0)
     || (Pages p <=? Page p)
  then Done c else
  let ps := <[Page p := p]> (default ∅ (pages c !! From p)) in
  let c := c <| pages ::= <[From p := ps]> |> in
  if negb (complete_pages p c ps) then Done c else
  let c := c <| promises ::= union {[From p]} |> in
  if Z.of_nat (size (promises c)) <? quorum c then Done c else elect c.

(** [receive], with the reentrant calls through [rcv]. *)
Definition follow (p : Packet) (c : core) : core :=
  c <| ballot := Ballot p |> <| leader := From p |> <| preparing := false |> <| votes := ∅ |>.

Definition commit_one (r : Record_) (c : core) : outcome core :=
  c ← install r c;
  match log c !! Slot r with
  | Some l => Done (c <| log ::= <[Slot r := l <| Committed := true |>]> |>)
  | None => Panicked "nil pointer dereference"
  end.

Definition receive_body (p : Packet) (c : core) : outcome core :=
  if (From p <? 0) || (cn c <=? From p) then Done c else
  if Kind p =? packetPrepare then
    if Ballot p <? ballot c then Done c else
    let c := if ballot c <? Ballot p then follow p c else c in
    promise p (c <| active := false |>)
  else
  let c := if (Kind p =? packetReady) && (ballot c <? Ballot p)
           then (follow p c) <| active := false |> else c in
  if negb (Ballot p =? ballot c) then Done c else
  if Kind p =? packetPromise then promiseReply p c
  else if Kind p =? packetAccept then if From p =? leader c then accept p c else Done c
  else if Kind p =? packetAck then ack p c
  else if Kind p =? packetCommit then
    if negb (From p =? leader c) then Done c else
    c ← forEach commit_one (Records p) c; apply c
  else if Kind p =? packetReady then
    if negb (From p =? leader c) then Done c else
    let c := if (Floor p =? 1) && negb (active c)
             then schedulePending (c <| active := true |>) else c in
    if executed c <? High p then requestFetch c else Done c
  else if Kind p =? packetFetch then
    if leader c =? cid c then sendSuffix (From p) (Floor p) true c else Done c
  else if Kind p =? packetForward then
    if (cid c =? leader c) && active c then forEach submit (Requests p) c else Done c
  else Done c.
End Handlers.

(** The dispatcher; each reentrant call uses one unit of fuel. *)
Fixpoint receive (fuel : nat) (e : env) (p : Packet) (c : core) : outcome core :=
  match fuel with
  | O => OutOfFuel
  | S fuel => receive_body e (receive fuel e) p c
  end.

(** ** Timer ([tick]) *)
Section Tick.
Variable e : env.
Variable fuel : nat.

(** [(c.ballot/int64(c.n)+1)*int64(c.n) + int64(c.id)] in [int64] *)
Definition next_ballot (n id b : Z) : Z := i64 (i64 (i64 (Z.quot b n + 1) * n) + id).

Definition prepare_packet (c : core) : Packet :=
  packet packetPrepare (cid c) (ballot c) <| Floor := executed c + 1 |>.

Definition Begin (now : Z) (c : core) : outcome core :=
  let c := c <| ballot := next_ballot (cn c) (cid c) (ballot c) |> <| leader := cid c |>
             <| active := false |> <| preparing := true |>
             <| recoveries ::= (λ x, u64 (x + 1)) |> <| pages := ∅ |> <| promises := ∅ |>
             <| votes := ∅ |> <| lastSend := Some now |> in
  let p := prepare_packet c in
  receive fuel e p (broadcast p c).

(** The loop of [flush], over the queue. *)
Fixpoint flush_loop (q : list RequestID) (records : list Record_) (c : core) : list Record_ * core :=
  match q with
  | [] => (records, c)
  | id :: q =>
      if (Z.of_nat (length records) <? PageSize) && (high c - executed c <? AdmissionWindow) then
        let c := c <| queue := q |> <| queued ::= (λ s, s ∖ {[id]}) |> in
        if decide (is_Some (assigned c !! id)) then flush_loop q records c
        else if decide (is_Some (values c !! id)) then flush_loop q records c
        else match pending c !! id with
             | None => flush_loop q records c
             | Some r =>
                 let slot := high c + 1 in
                 let rec := mkRecord slot (ballot c) r false in
                 let c := c <| high := slot |> <| log ::= <[slot := rec]> |>
                            <| assigned ::= <[id := slot]> |> in
                 flush_loop q (records ++ [rec]) c
             end
      else (records, c)
  end.

Definition flush (c : core) : outcome core :=
  if AdmissionWindow <=? high c - executed c then Done c else
  let '(records, c) := flush_loop (queue c) [] c in
  if Nat.eqb (length records) 0 then Done c else
  let p := packet packetAccept (cid c) (ballot c) <| Records := records |> in
  accept e (receive fuel e) p (broadcast p c).

(** [for i := 0; i < PageSize && len(c.resume) > 0; i++] *)
Fixpoint resume_loop (i : nat) (c : core) : outcome core :=
  match i, resume c with
  | O, _ | _, [] => Done c
  | S i, r :: rest =>
      let c := c <| resume := rest |> in
      c ← (if decide (is_Some (pending c !! ID r)) then submit (receive fuel e) r c else Done c);
      resume_loop i c
  end.

(** The first live replica, or -1. *)
Fixpoint first_alive (i : Z) (alive : list bool) : Z :=
  match alive with
  | [] => -1
  | v :: alive => if v : bool then i else first_alive (i + 1) alive
  end.

Definition tick_prepare (now : Z) (c : core) : outcome core :=
  if Sub now (lastSend c) <? Second then Done c else
  let c := c <| lastSend := Some now |> in
  let p := prepare_packet c in
  receive fuel e p (broadcast p c).

Definition tick_lead (now : Z) (c : core) : outcome core :=
  let c := if negb (active c) && (recoveryEnd c <=? executed c) then activate e c else c in
  c ← (if active c then flush c else Done c);
  if Sub now (lastSend c) <? 200 * Millisecond then Done c else
  let c := c <| lastSend := Some now |> in
  let c := broadcast (packet packetReady (cid c) (ballot c)
                        <| High := executed c |> <| Floor := boolInt (active c) |>) c in
  sendSuffix e (receive fuel e) (cid c) (executed c + 1) false c.

Definition tick (now : Z) (alive : list bool) (c : core) : outcome core :=
  match index alive (leader c) with
  | None => Panicked "index out of range"
  | Some up =>
      c ← (if negb up && (first_alive 0 alive =? cid c) && negb (preparing c)
           then Begin now c else Done c);
      c ← (if active c then resume_loop (Z.to_nat PageSize) c else Done c);
      if preparing c then tick_prepare now c
      else if leader c =? cid c then tick_lead now c
      else Done c
  end.
End Tick.
End Core.
End Paxos.
