(* ===== verification/PaxosInv.v ===== *)
(** * PaxosInv: the network of Paxos cores and its invariant

    A system is the map of its cores.  The output trace of a core only grows,
    so the network is the set of packets in the traces: a packet may be
    delivered any number of times, in any order, or never.

    The invariant [Inv] is stated over a world: the cores together with two
    ghost histories, [prop] (the request a ballot's leader proposes for a slot)
    and [snap] (the log suffix a replica promised to a ballot).  Every clause
    is stable under growth of the world ([extends]). *)
From stdpp Require Import gmap strings list fin_maps fin_sets.
From Stdlib Require Import Lia.
From S2P Require Import Prelude State ReplicaSet Defs Paxos.
Import Paxos.

Module PaxosInv.
Section Inv.
Context {SM : StateMachine} {SML : @StateMachineLaws SM}.
Context (N : Z).

Abbreviation system := (gmap Z core).

Definition emitted (c : core) (p : Packet) : Prop :=
  Broadcast p ∈ out c ∨ ∃ to, Sent to p ∈ out c.

(** An acceptor voted for slot [s] at ballot [b]: it acknowledged it. *)
Definition voted (c : core) (b s : Z) : Prop :=
  ∃ p, emitted c p ∧ Kind p = packetAck ∧ Ballot p = b ∧ ∃ r, r ∈ Records p ∧ Slot r = s.

(** ** Ghost histories *)
Record snapshot := mkSnapshot { sfloor : Z; shigh : Z; svals : list Record_ }.

Definition snap_pages (S : snapshot) : Z := page_count (length (svals S)).

Definition snap_page (a b : Z) (S : snapshot) (i : Z) : Packet :=
  packet packetPromise a b
    <| Floor := sfloor S |> <| High := shigh S |> <| Page := i |> <| Pages := snap_pages S |>
    <| Records := take (Z.to_nat PageSize) (drop (Z.to_nat (i * PageSize)) (svals S)) |>.

Record world := mkWorld {
  w_cs : system;
  w_prop : Z → Z → option Request;
  w_snap : Z → Z → option snapshot;
  w_max : Z;                       (* no ballot exceeds it *)
}.

Definition voted_at (w : world) (a b s : Z) : Prop :=
  ∃ c, w_cs w !! a = Some c ∧ voted c b s.

(** A majority voted for, or may still vote for, slot [s] at ballot [b]. *)
Definition choosable (w : world) (b s : Z) : Prop :=
  ∃ Q, ReplicaSet.majority N Q ∧
    ∀ a, a ∈ Q → ∃ c, w_cs w !! a = Some c ∧ (voted c b s ∨ ballot c ≤ b).

Definition chosen_at (w : world) (b s : Z) : Prop :=
  ∃ Q, ReplicaSet.majority N Q ∧ ∀ a, a ∈ Q → voted_at w a b s.

(** Slot [s] was decided with request [v] at some ballot up to [b]. *)
Definition chosen (w : world) (b s : Z) (v : Request) : Prop :=
  ∃ b0, 0 ≤ b0 ≤ b ∧ chosen_at w b0 s ∧ w_prop w b0 s = Some v.

(** The owner of ballot [b] has finished the prepare phase of [b]. *)
Definition started (w : world) (b : Z) : Prop :=
  ∃ c, w_cs w !! (b `mod` N) = Some c ∧ b ≤ ballot c ∧ (b = ballot c → preparing c = false).

Definition prepared (w : world) (b floor : Z) : Prop :=
  ∃ c p, w_cs w !! (b `mod` N) = Some c ∧ emitted c p ∧ Kind p = packetPrepare ∧
    Ballot p = b ∧ Floor p = floor.

(** Commands that execute: no-ops are skipped, the others were admitted. *)
Definition req_ok (r : Request) : Prop := Op (Cmd r) = NONE ∨ sm_admits (Cmd r).

(** ** The state machine, as a fold over the executed prefix *)
Definition replay_one (r : Request) (st : sm_state * gmap RequestID Value) :
    outcome (sm_state * gmap RequestID Value) :=
  if decide (st.2 !! ID r = None ∧ Op (Cmd r) ≠ NONE) then
    '(v, s) ← sm_execute (Cmd r) st.1; Done (s, <[ID r := v]> st.2)
  else Done st.

Definition replay (l : list Request) := forEach replay_one l (sm_init, ∅).

Definition prefix_upto (e : Z) (m : gmap Z Record_) : list Request :=
  omap (λ s, Req <$> m !! s) (rangeZ 0 e).

(** ** Node invariants *)
Definition record_ok (w : world) (bound : Z) (r : Record_) : Prop :=
  0 ≤ Slot r ∧ 0 ≤ RBallot r ≤ bound ∧ w_prop w (RBallot r) (Slot r) = Some (Req r) ∧
  (Committed r = true → chosen w (RBallot r) (Slot r) (Req r)).

Definition proposal_ok (w : world) (b : Z) (r : Record_) : Prop :=
  0 ≤ Slot r ∧ RBallot r = b ∧ w_prop w b (Slot r) = Some (Req r) ∧
  (Committed r = true → chosen w b (Slot r) (Req r)).

Definition packet_ok (w : world) (a : Z) (c : core) (p : Packet) : Prop :=
  From p = a ∧ 0 ≤ Ballot p ≤ ballot c ∧
  (Kind p = packetPrepare → Ballot p `mod` N = a ∧
     (Ballot p = ballot c → preparing c = true → Floor p = executed c + 1)) ∧
  (Kind p = packetPromise → ∃ S, w_snap w a (Ballot p) = Some S ∧ 0 ≤ Page p < snap_pages S ∧
     p = snap_page a (Ballot p) S (Page p)) ∧
  (Kind p = packetAccept ∨ Kind p = packetCommit →
     Ballot p `mod` N = a ∧ started w (Ballot p) ∧
     ∀ r, r ∈ Records p → proposal_ok w (Ballot p) r ∧ (Kind p = packetCommit → Committed r = true)) ∧
  (Kind p = packetReady → Ballot p `mod` N = a ∧ started w (Ballot p)) ∧
  (Kind p = packetFetch ∨ Kind p = packetAck → started w (Ballot p)) ∧
  (Kind p = packetForward → ∀ r, r ∈ Requests p → req_ok r).

Definition basic_ok (w : world) (a : Z) (c : core) : Prop :=
  cn c = N ∧ cid c = a ∧ 0 ≤ leader c < N ∧ 0 ≤ ballot c ≤ w_max w ∧
  ballot c `mod` N = leader c ∧ -1 ≤ executed c ≤ high c ∧ (preparing c = true → leader c = a).

Definition log_ok (w : world) (c : core) : Prop :=
  ∀ s r, log c !! s = Some r → Slot r = s ∧ s ≤ high c ∧ record_ok w (ballot c) r.

Definition exec_ok (c : core) : Prop :=
  (∀ s, 0 ≤ s ≤ executed c → ∃ r, log c !! s = Some r ∧ Committed r = true) ∧
  replay (prefix_upto (executed c) (log c)) = Done (sm c, values c) ∧
  (∀ r v, Replied r v ∈ out c → values c !! ID r = Some v).

Definition requests_ok (c : core) : Prop :=
  (∀ i r, pending c !! i = Some r → req_ok r) ∧ (∀ r, r ∈ resume c → req_ok r).

(** The leader of the current ballot, once elected. *)
Definition lead_ok (w : world) (c : core) : Prop :=
  leader c = cid c → preparing c = false →
  (∀ s r, log c !! s = Some r →
     (RBallot r = ballot c ∨ Committed r = true) ∧ w_prop w (ballot c) s = Some (Req r)) ∧
  (∀ s b, high c < s → 0 ≤ b < ballot c → ¬ choosable w b s) ∧
  (∀ s vs i, votes c !! s = Some vs → i ∈ ReplicaSet.to_gset vs → voted_at w i (ballot c) s).

(** The proposals at the ballots a node owns. *)
Definition owner_ok (w : world) (a : Z) (c : core) : Prop :=
  ∀ b s v, b `mod` N = a → w_prop w b s = Some v →
    0 ≤ b ≤ ballot c ∧ 0 ≤ s ∧ req_ok v ∧
    (b = ballot c → preparing c = false ∧ ∃ r, log c !! s = Some r ∧ Req r = v).

Definition vote_ok (w : world) (c : core) : Prop :=
  ∀ b s, voted c b s → 0 ≤ b ≤ ballot c ∧ is_Some (w_prop w b s) ∧
    ∃ r, log c !! s = Some r ∧ (b ≤ RBallot r ∨ Committed r = true).

Definition packets_ok (w : world) (a : Z) (c : core) : Prop :=
  (∀ p, emitted c p → packet_ok w a c p) ∧
  (∀ p q, emitted c p → emitted c q → Kind p = packetPrepare → Kind q = packetPrepare →
     Ballot p = Ballot q → Floor p = Floor q).

Definition snaps_ok (w : world) (a : Z) (c : core) : Prop :=
  ∀ b S, w_snap w a b = Some S →
    b ≤ ballot c ∧ prepared w b (sfloor S) ∧
    (∀ r, r ∈ svals S → Slot r ≤ shigh S ∧ record_ok w b r) ∧
    (∀ b' s, b' < b → sfloor S ≤ s → voted c b' s →
       ∃ r, r ∈ svals S ∧ Slot r = s ∧ (b' ≤ RBallot r ∨ Committed r = true)) ∧
    (b = ballot c →
       frozen c = snap_page a b S <$> seqZ 0 (snap_pages S) ∧ frozenBallot c = b ∧
       frozenFloor c = sfloor S ∧ (preparing c = true → shigh S = high c)).

(** The frozen pages are those of a snapshot. *)
Definition frozen_ok (w : world) (a : Z) (c : core) : Prop :=
  frozen c ≠ [] → ∃ S, w_snap w a (frozenBallot c) = Some S ∧
    frozen c = snap_page a (frozenBallot c) S <$> seqZ 0 (snap_pages S).

(** The promises a candidate gathers. *)
Definition gather_ok (w : world) (c : core) : Prop :=
  preparing c = true →
  (∀ i ps k p, pages c !! i = Some ps → ps !! k = Some p →
     ∃ S, w_snap w i (ballot c) = Some S ∧ 0 ≤ k < snap_pages S ∧ p = snap_page i (ballot c) S k) ∧
  (∀ i, i ∈ promises c → 0 ≤ i < N ∧
     ∃ S ps, w_snap w i (ballot c) = Some S ∧ sfloor S = executed c + 1 ∧ pages c !! i = Some ps ∧
       ∀ k, 0 ≤ k < snap_pages S → ps !! k = Some (snap_page i (ballot c) S k)).

Record node_ok (w : world) (a : Z) (c : core) : Prop := mkNodeOk {
  ok_basic : basic_ok w a c;
  ok_log : log_ok w c;
  ok_exec : exec_ok c;
  ok_requests : requests_ok c;
  ok_lead : lead_ok w c;
  ok_owner : owner_ok w a c;
  ok_vote : vote_ok w c;
  ok_packets : packets_ok w a c;
  ok_snaps : snaps_ok w a c;
  ok_gather : gather_ok w c;
  ok_frozen : frozen_ok w a c;
}.

(** A proposal agrees with whatever a lower ballot could still decide. *)
Definition safe (w : world) : Prop :=
  ∀ b s v, w_prop w b s = Some v →
    ∀ b', 0 ≤ b' < b → choosable w b' s → w_prop w b' s = Some v.

Record Inv (w : world) : Prop := mkInv {
  inv_dom : ∀ a, is_Some (w_cs w !! a) ↔ 0 ≤ a < N;
  inv_node : ∀ a c, w_cs w !! a = Some c → node_ok w a c;
  inv_safe : safe w;
}.

(** ** Growth *)
Record node_extends (c c' : core) : Prop := mkNodeExtends {
  ext_ballot : ballot c ≤ ballot c';
  ext_out : ∀ p, emitted c p → emitted c' p;
  ext_voted : ∀ b s, voted c' b s → voted c b s ∨ ballot c ≤ b;
  ext_preparing : ballot c' = ballot c → preparing c = false → preparing c' = false;
}.

Record extends (w w' : world) : Prop := mkExtends {
  ext_nodes : ∀ a c, w_cs w !! a = Some c → ∃ c', w_cs w' !! a = Some c' ∧ node_extends c c';
  ext_nodes' : ∀ a c', w_cs w' !! a = Some c' → ∃ c, w_cs w !! a = Some c ∧ node_extends c c';
  ext_prop : ∀ b s v, w_prop w b s = Some v → w_prop w' b s = Some v;
  ext_snap : ∀ a b S, w_snap w a b = Some S → w_snap w' a b = Some S;
  ext_max : w_max w ≤ w_max w';
}.

Lemma node_extends_refl c : node_extends c c.
Proof. split; auto with lia. Qed.

Lemma extends_refl w : extends w w.
Proof.
  split; [| |done..|lia].
  all: intros i d Hd; exists d; split; [done|apply node_extends_refl].
Qed.

Lemma voted_mono c c' b s : (∀ p, emitted c p → emitted c' p) → voted c b s → voted c' b s.
Proof. intros H (p & ? & ?). exists p. auto. Qed.

Section mono.
Context (w w' : world) (Hext : extends w w').

Lemma voted_at_mono a b s : voted_at w a b s → voted_at w' a b s.
Proof.
  intros (c & Hc & Hv). destruct (ext_nodes _ _ Hext _ _ Hc) as (c' & Hc' & He).
  exists c'. split; [done|]. eapply voted_mono; [|done]. apply He.
Qed.

Lemma chosen_at_mono b s : chosen_at w b s → chosen_at w' b s.
Proof. intros (Q & HQ & Hv). exists Q. split; [done|]. auto using voted_at_mono. Qed.

Lemma chosen_mono b s v : chosen w b s v → chosen w' b s v.
Proof.
  intros (b0 & Hb & Hc & Hp). exists b0.
  split_and!; [lia..|by apply chosen_at_mono|by apply (ext_prop _ _ Hext)].
Qed.

Lemma choosable_anti b s : choosable w' b s → choosable w b s.
Proof.
  intros (Q & HQ & Hv). exists Q. split; [done|]. intros a Ha.
  destruct (Hv a Ha) as (c' & Hc' & Hcase).
  destruct (ext_nodes' _ _ Hext _ _ Hc') as (c & Hc & He). exists c. split; [done|].
  pose proof (ext_ballot _ _ He). destruct Hcase as [Hcase|]; [|right; lia].
  by apply (ext_voted _ _ He).
Qed.

Lemma started_mono b : started w b → started w' b.
Proof.
  intros (c & Hc & Hb & Hp). destruct (ext_nodes _ _ Hext _ _ Hc) as (c' & Hc' & He).
  pose proof (ext_ballot _ _ He). exists c'. split_and!; [done|lia|]. intros ->.
  apply (ext_preparing _ _ He); [lia|]. apply Hp. lia.
Qed.

Lemma prepared_mono b f : prepared w b f → prepared w' b f.
Proof.
  intros (c & p & Hc & Hp & ?). destruct (ext_nodes _ _ Hext _ _ Hc) as (c' & Hc' & He).
  exists c', p. split_and!; try tauto. by apply (ext_out _ _ He).
Qed.

Lemma record_ok_mono bnd bnd' r : bnd ≤ bnd' → record_ok w bnd r → record_ok w' bnd' r.
Proof.
  intros Hb (? & ? & ? & ?). split_and!; [done|lia..|by apply (ext_prop _ _ Hext)|].
  auto using chosen_mono.
Qed.

Lemma proposal_ok_mono b r : proposal_ok w b r → proposal_ok w' b r.
Proof.
  intros (? & ? & ? & ?). split_and!; [done..|by apply (ext_prop _ _ Hext)|]. auto using chosen_mono.
Qed.

Lemma packet_ok_mono a c p : packet_ok w a c p → packet_ok w' a c p.
Proof.
  intros (HF & HB & HPrep & HProm & HAcc & HReady & HFetch & HFwd).
  split_and!; [done|lia|lia|done| | | | |done].
  - intros (S & HS & ?)%HProm. exists S. split; [by apply (ext_snap _ _ Hext)|done].
  - intros (? & ? & Hr)%HAcc. split_and!; [done|by apply started_mono|].
    intros r Hin. destruct (Hr r Hin). auto using proposal_ok_mono.
  - intros [? ?]%HReady. auto using started_mono.
  - auto using started_mono.
Qed.

(** The clauses that survive any growth of the world. *)
Lemma node_ok_grow a c :
  node_ok w a c →
  basic_ok w' a c ∧ log_ok w' c ∧ lead_ok w' c ∧ vote_ok w' c ∧ packets_ok w' a c ∧
  gather_ok w' c ∧ frozen_ok w' a c.
Proof.
  intros [Hbasic Hlog Hexec Hreq Hlead Hown Hvote Hpk Hsn Hg Hf]. split_and!.
  - destruct Hbasic as (?&?&?&?&?&?&?). pose proof (ext_max _ _ Hext).
    unfold basic_ok. split_and!; auto with lia.
  - intros s r Hr. destruct (Hlog s r Hr) as (?&?&?). split_and!; [done..|].
    by eapply record_ok_mono.
  - intros H1 H2. destruct (Hlead H1 H2) as (HL1 & HL2 & HL3). split_and!.
    + intros s r Hr. destruct (HL1 s r Hr). split; [done|by apply (ext_prop _ _ Hext)].
    + intros s b Hs Hb Hch. by apply (HL2 s b Hs Hb), choosable_anti.
    + intros s vs i Hvs Hi. eapply voted_at_mono, HL3; done.
  - intros b s Hv. destruct (Hvote b s Hv) as (?&[v ?]&?). split; [done|]. split; [|done].
    exists v. by apply (ext_prop _ _ Hext).
  - destruct Hpk as [Hpk Hu]. split; [|done]. auto using packet_ok_mono.
  - intros Hp. destruct (Hg Hp) as [Hg1 Hg2]. split.
    + intros i ps k p Hps Hk. destruct (Hg1 i ps k p Hps Hk) as (S & HS & ?).
      exists S. split; [by apply (ext_snap _ _ Hext)|done].
    + intros i Hi. destruct (Hg2 i Hi) as (? & S & ps & HS & ?). split; [done|].
      exists S, ps. split; [by apply (ext_snap _ _ Hext)|done].
  - intros Hne. destruct (Hf Hne) as (S & HS & ?). exists S.
    split; [by apply (ext_snap _ _ Hext)|done].
Qed.

Lemma snaps_ok_mono a c :
  (∀ b S, w_snap w' a b = Some S → w_snap w a b = Some S) → snaps_ok w a c → snaps_ok w' a c.
Proof.
  intros Hsnap Hsn b S HS%Hsnap. destruct (Hsn b S HS) as (?&?&Hr&?&?).
  split_and!; [done|by apply prepared_mono| |done..].
  intros r Hin. destruct (Hr r Hin). split; [done|]. by eapply record_ok_mono.
Qed.

(** A node's invariant survives growth that adds no proposal at its own
    ballots and no snapshot of its own. *)
Lemma node_ok_mono a c :
  (∀ b s v, b `mod` N = a → w_prop w' b s = Some v → w_prop w b s = Some v) →
  (∀ b S, w_snap w' a b = Some S → w_snap w a b = Some S) →
  node_ok w a c → node_ok w' a c.
Proof.
  intros Hprop Hsnap Hc. destruct (node_ok_grow a c Hc) as (?&?&?&?&?&?&?).
  split; try done; try apply Hc.
  - intros b s v Hb Hv. eapply (ok_owner _ _ _ Hc); eauto.
  - apply snaps_ok_mono; [done|apply Hc].
Qed.
End mono.

Lemma choosable_of_chosen w b s : chosen_at w b s → choosable w b s.
Proof.
  intros (Q & HQ & Hv). exists Q. split; [done|]. intros a Ha.
  destruct (Hv a Ha) as (c & ? & ?). eauto.
Qed.

(** Two decisions of a slot agree. *)
Lemma chosen_agree w b1 b2 s v1 v2 :
  safe w → chosen w b1 s v1 → chosen w b2 s v2 → v1 = v2.
Proof.
  intros Hsafe (c1 & ? & Hc1 & Hp1) (c2 & ? & Hc2 & Hp2).
  destruct (Z.lt_trichotomy c1 c2) as [Hlt|[->|Hlt]]; [|congruence|].
  - pose proof (Hsafe c2 s v2 Hp2 c1 ltac:(lia) (choosable_of_chosen _ _ _ Hc1)). congruence.
  - pose proof (Hsafe c1 s v1 Hp1 c2 ltac:(lia) (choosable_of_chosen _ _ _ Hc2)). congruence.
Qed.

(** A decision agrees with every proposal at its ballot or above. *)
Lemma chosen_proposal w b s v b' v' :
  safe w → chosen w b s v → w_prop w b' s = Some v' → b ≤ b' → v = v'.
Proof.
  intros Hsafe (b0 & ? & Hc & Hp) Hp' Hle. destruct (decide (b0 = b')) as [->|]; [congruence|].
  pose proof (Hsafe b' s v' Hp' b0 ltac:(lia) (choosable_of_chosen _ _ _ Hc)). congruence.
Qed.
End Inv.
End PaxosInv.
