(* ===== verification/PaxosStep.v ===== *)
(** * PaxosStep: the primitive transitions of a Paxos core preserve the invariant

    Every handler of [Paxos] is a composition of a dozen primitive state
    changes.  [good M cs a c] says that the system [cs] with the core of
    replica [a] replaced by [c] satisfies [PaxosInv.Inv]; each section below
    proves that one primitive change of [c] preserves it. *)
From stdpp Require Import gmap strings list fin_maps fin_sets.
From Stdlib Require Import Lia.
From S2P Require Import Prelude State ReplicaSet Defs Paxos PaxosInv.
Import Paxos PaxosInv.

Module PaxosStep.
Section Step.
Context {SM : StateMachine} {SML : @StateMachineLaws SM} (N : Z) (HN : 3 ≤ N ≤ 63).
Context (M : Z) (cs : gmap Z core) (a : Z).

Abbreviation world_of c prop snap := (mkWorld (<[a := c]> cs) prop snap M).

Definition good (c : core) : Prop := ∃ prop snap, Inv N (world_of c prop snap).

Lemma good_node c : good c → ∃ prop snap,
  Inv N (world_of c prop snap) ∧ node_ok N (world_of c prop snap) a c.
Proof.
  intros (prop & snap & HI). exists prop, snap. split; [done|].
  apply (inv_node _ _ HI). apply lookup_insert_eq.
Qed.

Lemma extends_intro c c' prop snap prop' snap' :
  node_extends c c' →
  (∀ b s v, prop b s = Some v → prop' b s = Some v) →
  (∀ i b S, snap i b = Some S → snap' i b = Some S) →
  extends (world_of c prop snap) (world_of c' prop' snap').
Proof.
  intros He Hp Hs. split; simpl; [| |done..|lia].
  all: intros i d; rewrite !lookup_insert; case_decide; [intros [= <-]; eauto|].
  all: intros Hd; exists d; split; [done|apply node_extends_refl].
Qed.

(** The general rule: the node changes and the ghost histories grow, at the
    ballots the node owns and at its own snapshots. *)
Lemma good_step c c' prop snap prop' snap' :
  Inv N (world_of c prop snap) →
  node_extends c c' →
  (∀ b s v, prop b s = Some v → prop' b s = Some v) →
  (∀ b s v, b `mod` N ≠ a → prop' b s = Some v → prop b s = Some v) →
  (∀ i b S, snap i b = Some S → snap' i b = Some S) →
  (∀ i b S, i ≠ a → snap' i b = Some S → snap i b = Some S) →
  (extends (world_of c prop snap) (world_of c' prop' snap') →
    node_ok N (world_of c' prop' snap') a c') →
  (extends (world_of c prop snap) (world_of c' prop' snap') →
    ∀ b s v, prop b s = None → prop' b s = Some v →
    ∀ b', 0 ≤ b' < b → choosable N (world_of c' prop' snap') b' s → prop' b' s = Some v) →
  good c'.
Proof.
  intros HI He Hp Hp' Hs Hs' Hnode Hsafe.
  pose proof (extends_intro c c' prop snap prop' snap' He Hp Hs) as Hext.
  exists prop', snap'. split.
  - intros i. rewrite <- (inv_dom _ _ HI i). simpl. rewrite !lookup_insert.
    case_decide; [split; eauto|done].
  - intros i d. simpl. rewrite lookup_insert. case_decide as Hi; [intros [= <-]; subst; auto|].
    intros Hd. apply (node_ok_mono N (world_of c prop snap)); [done|simpl|simpl|].
    + intros b s v <-. by apply Hp'.
    + intros b S. by apply Hs'.
    + apply (inv_node _ _ HI). simpl. by rewrite lookup_insert_ne.
  - intros b s v Hv b' Hb' Hch. simpl in *. destruct (prop b s) as [v0|] eqn:E.
    + apply Hp in E as E'. assert (v0 = v) as -> by congruence.
      apply Hp. apply (inv_safe _ _ HI b s v E b' Hb'). by eapply choosable_anti.
    + by eapply Hsafe.
Qed.

(** The rule for a change that leaves the ghost histories alone: it is enough
    to reestablish the node's own invariant in the new world. *)
Lemma good_local c c' :
  good c → node_extends c c' →
  (∀ prop snap, node_ok N (world_of c' prop snap) a c → Inv N (world_of c prop snap) →
     extends (world_of c prop snap) (world_of c' prop snap) →
     node_ok N (world_of c' prop snap) a c') →
  good c'.
Proof.
  intros (prop & snap & HI & Hc)%good_node He Hok.
  apply (good_step c c' prop snap prop snap); auto; [|congruence].
  intros Hext. apply Hok; [|done..].
  by apply (node_ok_mono N (world_of c prop snap)).
Qed.

(** ** Changes outside the invariant's footprint *)
Record same (c c' : core) : Prop := mkSame {
  same_cn : cn c' = cn c; same_cid : cid c' = cid c; same_leader : leader c' = leader c;
  same_ballot : ballot c' = ballot c; same_preparing : preparing c' = preparing c;
  same_high : high c' = high c; same_executed : executed c' = executed c; same_log : log c' = log c;
  same_votes : votes c' = votes c; same_pages : pages c' = pages c;
  same_promises : promises c' = promises c; same_frozen : frozen c' = frozen c;
  same_frozenBallot : frozenBallot c' = frozenBallot c;
  same_frozenFloor : frozenFloor c' = frozenFloor c; same_sm : sm c' = sm c;
  same_values : values c' = values c; same_out : out c' = out c }.

Lemma voted_out c c' b s : out c' = out c → voted c' b s → voted c b s.
Proof. intros E. unfold voted, emitted. by rewrite E. Qed.

Lemma node_ok_same w c c' : same c c' → requests_ok c' → node_ok N w a c → node_ok N w a c'.
Proof.
  intros Hsame Hr [? ? ? ? ? ? ? ? ? ?]. destruct c, c', Hsame; simpl in *; subst.
  by split.
Qed.

Lemma node_extends_same c c' :
  ballot c' = ballot c → out c' = out c → (preparing c = false → preparing c' = false) →
  node_extends c c'.
Proof.
  intros Hb Ho Hp. split; [by rewrite Hb| |intros b s Hv; left; by apply (voted_out c c')|by intros _].
  intros p. unfold emitted. by rewrite Ho.
Qed.

Lemma good_same c c' : same c c' → (requests_ok c → requests_ok c') → good c → good c'.
Proof.
  intros Hsame Hr Hg. apply (good_local c); [done| |].
  - apply node_extends_same; [apply Hsame..|by rewrite (same_preparing _ _ Hsame)].
  - intros prop snap Hc _ _. apply (node_ok_same _ c); [done| |done]. apply Hr, Hc.
Qed.

(** ** Emitting a reply *)
Lemma emitted_reply r v c p : emitted (reply r v c) p ↔ emitted c p.
Proof.
  unfold emitted, reply, emit. simpl. setoid_rewrite elem_of_app.
  setoid_rewrite list_elem_of_singleton. naive_solver.
Qed.

Lemma node_ok_emitted w c c' :
  (∀ p, emitted c' p ↔ emitted c p) → same c (c' <| out := out c |>) → exec_ok c' →
  requests_ok c' → node_ok N w a c → node_ok N w a c'.
Proof.
  intros Hem Hsame Hex Hr [? ? ? ? ? ? Hv Hp Hs ?].
  assert (∀ b s, voted c' b s ↔ voted c b s) as Hvoted.
  { intros b s. unfold voted. by setoid_rewrite Hem. }
  destruct c, c', Hsame; simpl in *; subst. split; try done.
  - intros b s Hb. apply Hv. by apply Hvoted.
  - destruct Hp as [Hp Hu]. split.
    + intros p Hin%Hem. by apply Hp.
    + intros p q Hin%Hem Hin'%Hem. by apply Hu.
  - intros b S HS. destruct (Hs b S HS) as (?&?&?&Hc&?). split_and!; [done..| |done].
    intros b' s ??. rewrite Hvoted. by apply Hc.
Qed.

Lemma good_reply r v c : values c !! ID r = Some v → good c → good (reply r v c).
Proof.
  intros Hv Hg. apply (good_local c); [done| |].
  - split; [done|by intros p ?%(emitted_reply r v)| |done].
    intros b s (p & Hp%emitted_reply & ?). left. by exists p.
  - intros prop snap Hc _ _. apply (node_ok_emitted _ c); [apply emitted_reply|by destruct c| |apply Hc|done].
    destruct Hc as [_ _ (?&?&Hr) _ _ _ _ _ _ _]. split_and!; [done..|]. unfold reply, emit; simpl.
    intros r' v' [?|[= -> ->]%list_elem_of_singleton]%elem_of_app; [by apply Hr|done].
Qed.

(** ** Emitting a packet *)
Definition carries (ev : event) (p : Packet) : Prop := ev = Broadcast p ∨ ∃ to, ev = Sent to p.

Lemma emitted_emit ev p c q : carries ev p → emitted (emit ev c) q ↔ emitted c q ∨ q = p.
Proof.
  unfold emitted, emit. simpl. setoid_rewrite elem_of_app.
  setoid_rewrite list_elem_of_singleton. intros [->|[to ->]]; naive_solver.
Qed.

Lemma voted_emit ev p c b s :
  carries ev p → voted (emit ev c) b s ↔
    voted c b s ∨ (Kind p = packetAck ∧ Ballot p = b ∧ ∃ r, r ∈ Records p ∧ Slot r = s).
Proof.
  intros Hev. unfold voted. setoid_rewrite (emitted_emit ev p c _ Hev). split.
  - intros (q & [Hq | ->] & Hrest); [left; by exists q|by right].
  - intros [(q & Hq & Hrest)|Hrest]; [exists q; auto|exists p; auto].
Qed.

(** What a packet of kind [Ack] claims about its sender. *)
Definition ack_backed (w : world) (c : core) (p : Packet) : Prop :=
  Kind p = packetAck → ∀ r, r ∈ Records p →
    is_Some (w_prop w (ballot c) (Slot r)) ∧
    ∃ l, log c !! Slot r = Some l ∧ (ballot c ≤ RBallot l ∨ Committed l = true).

Definition prepare_unique (c : core) (p : Packet) : Prop :=
  Kind p = packetPrepare → ∀ q, emitted c q → Kind q = packetPrepare → Ballot q = Ballot p →
    Floor q = Floor p.

Lemma good_emit ev p c :
  carries ev p → good c → Ballot p = ballot c →
  (∀ prop snap, Inv N (world_of c prop snap) →
     packet_ok N (world_of c prop snap) a c p ∧ ack_backed (world_of c prop snap) c p) →
  prepare_unique c p →
  good (emit ev c).
Proof.
  intros Hev Hg Hb Hp Hu. pose proof (λ q, emitted_emit ev p c q Hev) as Hem.
  pose proof (λ b s, voted_emit ev p c b s Hev) as Hvt.
  apply (good_local c); [done| |].
  { split; [done| | |done]; [by intros q; rewrite Hem; left|].
    intros b s. rewrite Hvt, Hb. intros [?|(_ & <- & _)]; [by left|by right]. }
  intros prop snap [? ? Hex ? ? ? Hv Hpk Hs ?] HI Hext. destruct (Hp prop snap HI) as [Hpok Hack].
  apply (packet_ok_mono N _ _ Hext) in Hpok. split; try done.
  - destruct Hex as (?&?&Hr). split_and!; [done..|]. intros r v. unfold emit; simpl.
    intros [?|E%list_elem_of_singleton]%elem_of_app; [by apply Hr|].
    destruct Hev as [->|[to ->]]; discriminate.
  - intros b s. rewrite Hvt. intros [?|(Hk & <- & r & Hr & <-)]; [by apply Hv|].
    split; [by destruct Hpok as (_ & ? & _)|]. rewrite Hb. by apply Hack.
  - destruct Hpk as [Hpk Hu']. split.
    + intros q. rewrite Hem. intros [?| ->]; [by apply Hpk|done].
    + intros q1 q2. rewrite !Hem. intros [?| ->] [?| ->] Hk1 Hk2 Hbq; [by apply Hu'| | |done].
      * by apply (Hu Hk2).
      * symmetry. by apply (Hu Hk1).
  - intros b S HS. destruct (Hs b S HS) as (?&?&?&Hc&?). split_and!; [done..| |done].
    intros b' s Hlt Hfl. rewrite Hvt. intros [?|(_ & <- & _)]; [by apply Hc|]. lia.
Qed.

(** ** Writing a log entry *)
Lemma prefix_upto_ext e m m' :
  (∀ s, 0 ≤ s ≤ e → Req <$> m !! s = Req <$> m' !! s) → prefix_upto e m = prefix_upto e m'.
Proof.
  intros Hm. unfold prefix_upto. apply list_omap_ext. apply Forall2_same_length_lookup_2; [done|].
  intros i x y Hx Hy. assert (x = y) as -> by congruence.
  apply Hm, elem_of_rangeZ. by eapply list_elem_of_lookup_2.
Qed.

Definition put (r : Record_) (c : core) : core :=
  c <| log ::= <[Slot r := r]> |> <| high := Z.max (high c) (Slot r) |>.

(** The new entry may replace an uncommitted one, or confirm a decision. *)
Definition replaces (old r : Record_) : Prop :=
  (Committed old = true → Committed r = true ∧ Req r = Req old) ∧
  (RBallot old ≤ RBallot r ∨ Committed r = true).

Lemma good_put r c :
  good c → preparing c = false →
  (∀ old, log c !! Slot r = Some old → replaces old r) →
  (∀ prop snap, Inv N (world_of c prop snap) → record_ok N (world_of c prop snap) (ballot c) r ∧
     (leader c = cid c → (RBallot r = ballot c ∨ Committed r = true) ∧
        prop (ballot c) (Slot r) = Some (Req r))) →
  good (put r c).
Proof.
  intros Hg Hprep Hold Hr.
  apply (good_local c); [done|by apply node_extends_same|].
  intros prop snap [Hb Hl Hex ? Hlead Hown Hv Hpk Hs ?] HI Hext.
  destruct (Hr prop snap HI) as [Hrec Hlr].
  apply (record_ok_mono N _ _ Hext (ballot c) (ballot c)) in Hrec; [|lia].
  split; try done; unfold put, basic_ok, log_ok, exec_ok, lead_ok, owner_ok, vote_ok, snaps_ok in *; simpl in *.
  - split_and!; try tauto; lia.
  - intros s r'. rewrite lookup_insert. case_decide as Es.
    + intros [= <-]. split_and!; [done|lia|done].
    + intros Hs'. destruct (Hl s r' Hs') as (?&?&?). split_and!; [done|lia|done].
  - destruct Hex as (Hc&Hrep&?). split_and!; [| |done].
    + intros s Hs'. destruct (Hc s Hs') as (l & Hls & Hlc). rewrite lookup_insert.
      case_decide as Es; [|eauto]. subst s. exists r. split; [done|]. by apply (Hold l).
    + rewrite <- Hrep. f_equal. apply prefix_upto_ext. intros s Hs'.
      rewrite lookup_insert. case_decide as Es; [|done]. subst s.
      destruct (Hc _ Hs') as (l & Hls & Hlc). rewrite Hls. simpl.
      by destruct (Hold l Hls) as [[_ ->] _].
  - intros H1 H2. destruct (Hlead H1 H2) as (HL1&HL2&HL3). split_and!.
    + intros s r'. rewrite lookup_insert. case_decide as Es; [|apply HL1].
      intros [= <-]. subst s. auto.
    + intros s b' Hsb. apply HL2. lia.
    + apply HL3.
  - intros b s v Hba Hpv. destruct (Hown b s v Hba Hpv) as (?&?&?&Hcur). split_and!; try done; try lia.
    intros ->. destruct (Hcur eq_refl) as (_ & l & Hls & Hlv). split; [done|].
    rewrite lookup_insert. case_decide as Es; [|eauto]. subst s. exists r. split; [done|].
    destruct Hb as (?&?&?&?&?&?). destruct Hlr as [_ Hpr]; [lia|congruence].
  - intros b s Hvt. destruct (Hv b s Hvt) as (?&?&l&Hls&Hlb). split_and!; try done; try lia.
    rewrite lookup_insert. case_decide as Es; [|eauto]. subst s. exists r. split; [done|].
    destruct (Hold l Hls) as [Hc Hrb]. destruct Hlb as [Hlb|Hlb]; [|right; by apply Hc].
    destruct Hrb; [left; lia|by right].
  - intros b S HS. destruct (Hs b S HS) as (?&?&?&?&Hcur). split_and!; try done.
    intros Hbb. destruct (Hcur Hbb) as (?&?&?&?). split_and!; try done. congruence.
Qed.

(** ** Counting votes *)
Lemma good_votes vs' c :
  good c →
  (∀ prop snap, Inv N (world_of c prop snap) → leader c = cid c → preparing c = false →
     ∀ s vs i, vs' !! s = Some vs → i ∈ ReplicaSet.to_gset vs →
       voted_at (world_of c prop snap) i (ballot c) s) →
  good (c <| votes := vs' |>).
Proof.
  intros Hg Hvs. apply (good_local c); [done|by apply node_extends_same|].
  intros prop snap [? ? ? ? Hlead ? ? ? ? ?] HI Hext. split; try done.
  intros H1 H2. destruct (Hlead H1 H2) as (?&?&_). split_and!; [done..|].
  intros s vs i Hs Hi. eapply voted_at_mono; [done|]. by eapply Hvs.
Qed.

(** ** Executing the next slot *)
Lemma prefix_upto_snoc e m r :
  -1 ≤ e → m !! (e + 1) = Some r → prefix_upto (e + 1) m = prefix_upto e m ++ [Req r].
Proof.
  intros He Hr. unfold prefix_upto. rewrite rangeZ_snoc by lia. rewrite omap_app.
  f_equal. simpl. by rewrite Hr.
Qed.

Lemma replay_one_keeps r st vals st' vals' i v :
  replay_one r (st, vals) = Done (st', vals') → vals !! i = Some v → vals' !! i = Some v.
Proof.
  unfold replay_one. simpl. case_decide as Hd; [|by intros [= <- <-]].
  destruct (sm_execute _ _) as [[v' s']| |]; simpl; [|done..]. intros [= <- <-] Hi.
  rewrite lookup_insert_ne; [done|]. intros E. rewrite E in Hd. by destruct Hd as [? _]; congruence.
Qed.

Lemma good_exec r st vals c :
  good c → preparing c = false → log c !! (executed c + 1) = Some r → Committed r = true →
  replay_one (Req r) (sm c, values c) = Done (st, vals) →
  good (c <| sm := st |> <| values := vals |> <| executed := executed c + 1 |>).
Proof.
  intros Hg Hprep Hr Hc Hst. apply (good_local c); [done|by apply node_extends_same|].
  intros prop snap [Hb Hl Hex ? ? ? ? Hpk ? ?] HI Hext. split; try done.
  - destruct (Hl _ _ Hr) as (?&?&?). unfold basic_ok in *; simpl in *. split_and!; try tauto; lia.
  - destruct Hex as (Hcm & Hrep & Hrp). unfold exec_ok; simpl. split_and!.
    + intros s Hs. destruct (decide (s = executed c + 1)) as [->|]; [eauto|]. apply Hcm. lia.
    + rewrite (prefix_upto_snoc _ _ r); [|apply Hb|done].
      unfold replay in *. rewrite forEach_app, Hrep. simpl. by rewrite Hst.
    + intros r' v' Hin. by eapply replay_one_keeps, Hrp.
  - destruct Hpk as [Hpk Hu]. split; [|done]. intros p Hp.
    destruct (Hpk p Hp) as (?&?&HPrep&?). split_and!; try tauto; try (simpl; lia).
    intros Hk. split; [by apply HPrep|]. simpl. congruence.
  - intros Hp. simpl in Hp. congruence.
Qed.

(** ** Following a higher ballot of another replica *)
Lemma good_follow p c :
  good c → ballot c < Ballot p ≤ M → Ballot p `mod` N = From p → From p ≠ a →
  0 ≤ From p < N → good (follow p c).
Proof.
  intros Hg Hb Hmod Hne Hfrom. apply (good_local c); [done| |].
  { split; [simpl; lia|done|by left|by intros _]. }
  intros prop snap [Hbas Hl ? ? ? Hown Hv Hpk Hsn ?] HI Hext. pose proof Hbas as (_&Hcid&_).
  split; try done.
  - unfold basic_ok in *; simpl in *. split_and!; try tauto; lia.
  - intros s r Hs. destruct (Hl s r Hs) as (?&?&?). split_and!; [done..|].
    eapply (record_ok_mono N _ _ (extends_refl _)); [|done]. simpl; lia.
  - intros H1. simpl in *. congruence.
  - intros b s v Hba Hpv. destruct (Hown b s v Hba Hpv) as (?&?&?&?). simpl.
    split_and!; try done; try lia.
  - intros b s Hvt. destruct (Hv b s Hvt) as (?&?&?). simpl. split_and!; try done; lia.
  - destruct Hpk as [Hpk Hu]. split; [|done]. intros q Hq.
    destruct (Hpk q Hq) as (?&?&HPrep&?). split_and!; try tauto; simpl; lia.
  - intros b S HS. destruct (Hsn b S HS) as (?&?&?&?&?). simpl. split_and!; try done; lia.
Qed.
End Step.
End PaxosStep.
