(* ===== verification/PaxosElect.v ===== *)
(** * PaxosElect: promising, gathering promises, elections and proposals

    The primitive steps of [PaxosStep] that extend the ghost histories: a
    promise records a snapshot, an election chooses the proposals of a ballot
    for every slot up to the highest promised one, a flush proposes at a fresh
    slot.  [elect_safe] is the heart of the protocol: the value the election
    selects for a slot is the only one a lower ballot can still decide. *)
From stdpp Require Import gmap strings list fin_maps fin_sets.
From Stdlib Require Import Lia.
From S2P Require Import Prelude State ReplicaSet Defs Paxos PaxosInv PaxosStep.
Import Paxos PaxosInv PaxosStep.

Module PaxosElect.

(** ** Paging *)
Lemma page_count_pos n : 1 ≤ page_count n.
Proof.
  unfold page_count, PageSize. case_match; [lia|].
  assert (0 ≤ (Z.of_nat n + 128 - 1) / 128) by (apply Z.div_pos; lia). lia.
Qed.

Lemma page_count_covers n : Z.of_nat n ≤ page_count n * PageSize.
Proof.
  unfold page_count, PageSize.
  pose proof (Z.div_mod (Z.of_nat n + 128 - 1) 128). pose proof (Z.mod_pos_bound (Z.of_nat n + 128 - 1) 128).
  case_match; lia.
Qed.

(** Every element of a list is on one of its pages. *)
Lemma page_covers {A} (l : list A) x :
  x ∈ l → ∃ k, 0 ≤ k < page_count (length l) ∧
    x ∈ take (Z.to_nat PageSize) (drop (Z.to_nat (k * PageSize)) l).
Proof.
  intros (i & Hi)%list_elem_of_lookup. pose proof (lookup_lt_Some _ _ _ Hi) as Hlt.
  pose proof (page_count_covers (length l)) as Hcov. unfold PageSize in *.
  pose proof (Z.div_mod (Z.of_nat i) 128). pose proof (Z.mod_pos_bound (Z.of_nat i) 128).
  exists (Z.of_nat i / 128). split; [split; [apply Z.div_pos; lia|apply Z.div_lt_upper_bound; lia]|].
  assert (0 ≤ Z.of_nat i / 128) by (apply Z.div_pos; lia).
  apply list_elem_of_lookup. exists (i - Z.to_nat (Z.of_nat i / 128 * 128))%nat.
  rewrite lookup_take_lt by lia. rewrite lookup_drop. rewrite <- Hi. f_equal. lia.
Qed.

(** ** Selecting the highest promised records *)
Lemma select_pages_flat pages sel h :
  foldl select_page (sel, h) pages =
    (foldl select_record sel (pages ≫= Records), foldl Z.max h (High <$> pages)).
Proof.
  revert sel h. induction pages as [|p pages IH]; intros sel h; [done|].
  cbn [foldl]. unfold select_page at 2. rewrite IH. f_equal.
  - cbn. by rewrite foldl_app.
  - cbn. f_equal. destruct (h <? High p) eqn:E; lia.
Qed.

Lemma foldl_max_ge l h : h ≤ foldl Z.max h l ∧ ∀ x, x ∈ l → x ≤ foldl Z.max h l.
Proof.
  revert h. induction l as [|y l IH]; intros h; simpl.
  { split; [lia|]. by intros x ?%elem_of_nil. }
  destruct (IH (Z.max h y)) as [H1 H2]. split; [lia|].
  intros x [->|Hx]%elem_of_cons; [lia|auto].
Qed.

Lemma select_record_mono sel r s r0 :
  sel !! s = Some r0 → ∃ r1, select_record sel r !! s = Some r1 ∧ RBallot r0 ≤ RBallot r1.
Proof.
  intros Hs. unfold select_record. destruct (sel !! Slot r) as [old|] eqn:E.
  - destruct (RBallot old <? RBallot r) eqn:Eb; [|eauto with lia].
    rewrite lookup_insert. case_decide as Ed; [|eauto with lia].
    subst s. exists r. split; [done|]. rewrite E in Hs. injection Hs as ->. lia.
  - rewrite lookup_insert. case_decide as Ed; [|eauto with lia]. subst s. congruence.
Qed.

Lemma select_records_mono l sel s r0 :
  sel !! s = Some r0 → ∃ r1, foldl select_record sel l !! s = Some r1 ∧ RBallot r0 ≤ RBallot r1.
Proof.
  revert sel r0. induction l as [|r l IH]; intros sel r0 Hs; [exists r0; auto with lia|].
  destruct (select_record_mono sel r s r0 Hs) as (r1 & Hr1 & ?).
  destruct (IH _ _ Hr1) as (r2 & ? & ?). exists r2. split; [done|lia].
Qed.

Lemma select_records_max l sel r :
  r ∈ l → ∃ r', foldl select_record sel l !! Slot r = Some r' ∧ RBallot r ≤ RBallot r'.
Proof.
  revert sel. induction l as [|r0 l IH]; intros sel; [by intros ?%elem_of_nil|].
  intros [->|Hr]%elem_of_cons; [|by apply IH]. simpl.
  assert (∃ r1, select_record sel r0 !! Slot r0 = Some r1 ∧ RBallot r0 ≤ RBallot r1)
    as (r1 & Hr1 & ?).
  { unfold select_record. destruct (sel !! Slot r0) as [old|] eqn:E;
      [destruct (RBallot old <? RBallot r0) eqn:Eb|].
    - exists r0. rewrite lookup_insert_eq. split; [done|lia].
    - exists old. split; [done|lia].
    - exists r0. rewrite lookup_insert_eq. split; [done|lia]. }
  destruct (select_records_mono l _ _ _ Hr1) as (r2 & ? & ?). exists r2. split; [done|lia].
Qed.

Lemma select_records_from l sel s r :
  foldl select_record sel l !! s = Some r → sel !! s = Some r ∨ (r ∈ l ∧ Slot r = s).
Proof.
  revert sel. induction l as [|r0 l IH]; intros sel; [by left|]. intros Hs.
  destruct (IH _ Hs) as [Hs'|[? ?]]; [|right; split; [by constructor|done]].
  unfold select_record in Hs'.
  assert (<[Slot r0 := r0]> sel !! s = Some r → sel !! s = Some r ∨ (r ∈ r0 :: l ∧ Slot r = s)) as Hi.
  { rewrite lookup_insert. case_decide; [|by left]. intros [= <-]. right. split; [constructor|done]. }
  repeat case_match; auto.
Qed.

(** The log after the loop of [adopt_slot]. *)
Definition adopted (selected : gmap Z Record_) (b slot : Z) : Record_ :=
  (default (mkRecord slot 0 (noop_request slot) false) (selected !! slot))
    <| RBallot := b |> <| Committed := false |>.

Section Elect.
Context {SM : StateMachine} {SML : @StateMachineLaws SM} (N : Z) (HN : 3 ≤ N ≤ 63).

Lemma adopt_slots_log selected (c : core) l s :
  log (foldl (adopt_slot selected) c l) !! s =
    if decide (s ∈ l) then Some (adopted selected (ballot c) s) else log c !! s.
Proof.
  revert c. induction l as [|x l IH]; intros c; [done|]. simpl. rewrite IH. unfold adopt_slot; simpl.
  destruct (decide (s ∈ l)) as [|Hs]; [rewrite decide_True by (by constructor); done|].
  rewrite lookup_insert. case_decide as Ex.
  - subst. by rewrite decide_True by constructor.
  - rewrite decide_False; [done|]. rewrite elem_of_cons. intuition congruence.
Qed.

Lemma adopt_slots_same selected (c : core) l :
  PaxosStep.same (foldl (adopt_slot selected) c l)
    (c <| log := log (foldl (adopt_slot selected) c l) |>) ∧
  pending (foldl (adopt_slot selected) c l) = pending c ∧
  resume (foldl (adopt_slot selected) c l) = resume c.
Proof.
  revert c. induction l as [|x l IH]; intros c; [by destruct c|]. simpl.
  destruct (IH (adopt_slot selected c x)) as ([] & Hp & Hr). simpl in *.
  split; [by split|done].
Qed.

Context (M : Z) (cs : gmap Z core) (a : Z).
Abbreviation good := (PaxosStep.good N M cs a).
Abbreviation world_of c prop snap := (mkWorld (<[a := c]> cs) prop snap M).

Lemma owner_unique w b f f' :
  Inv N w → prepared N w b f → prepared N w b f' → f = f'.
Proof.
  intros HI (c & p & Hc & Hp & Hk & <- & <-) (c' & p' & Hc' & Hp' & Hk' & Hb & <-).
  assert (c' = c) as -> by congruence.
  destruct (ok_packets _ _ _ _ (inv_node _ _ HI _ _ Hc)) as [_ Hu]. by apply Hu.
Qed.

(** ** Promising *)
Definition snapshot_of (floor : Z) (c : core) : snapshot :=
  mkSnapshot floor (high c) (promise_values floor c).

Lemma elem_of_promise_values floor c r :
  r ∈ promise_values floor c ↔ ∃ s, floor ≤ s ≤ high c ∧ log c !! s = Some r.
Proof.
  unfold promise_values. rewrite list_elem_of_omap. setoid_rewrite elem_of_rangeZ. done.
Qed.

Lemma good_snapshot floor c :
  good c →
  (∀ prop snap, Inv N (world_of c prop snap) → prepared N (world_of c prop snap) (ballot c) floor) →
  ¬ (frozen c ≠ [] ∧ frozenBallot c = ballot c ∧ frozenFloor c = floor) →
  good (c <| frozen := snap_page a (ballot c) (snapshot_of floor c) <$>
                         seqZ 0 (snap_pages (snapshot_of floor c)) |>
          <| frozenBallot := ballot c |> <| frozenFloor := floor |>).
Proof.
  intros (prop & snap & HI & Hc)%good_node Hprep Hnew. specialize (Hprep _ _ HI).
  set (S0 := snapshot_of floor c). set (c' := c <| frozen := _ |> <| frozenBallot := _ |> <| frozenFloor := _ |>).
  assert (snap a (ballot c) = None) as Hnone.
  { destruct (snap a (ballot c)) as [S|] eqn:E; [|done]. destruct Hnew.
    destruct (ok_snaps _ _ _ _ Hc _ _ E) as (_&Hpr&_&_&Hcur).
    destruct (Hcur eq_refl) as (->&->&->&_). split_and!; [|done|by eapply owner_unique].
    rewrite seqZ_cons by (pose proof (page_count_pos (length (svals S))); unfold snap_pages; lia). done. }
  set (snap' := λ i b, if decide (i = a ∧ b = ballot c) then Some S0 else snap i b).
  assert (∀ i b S, snap i b = Some S → snap' i b = Some S) as Hsub.
  { intros i b S HS. unfold snap'. case_decide as Hd; [|done]. destruct Hd; subst; congruence. }
  assert (snap' a (ballot c) = Some S0) as Hcur by (unfold snap'; by rewrite decide_True).
  apply (PaxosStep.good_step N M cs a c c' prop snap prop snap'); try done.
  - by apply node_extends_same.
  - intros i b S Hi. unfold snap'. by rewrite decide_False by tauto.
  - intros Hext. destruct (node_ok_grow N _ _ Hext a c Hc) as (?&?&?&?&?&?&?).
    destruct Hc as [Hb Hl ? ? ? ? Hv ? Hs ? ?]. split; try done.
    + intros b S. simpl. unfold snap'. case_decide as Hd.
      * destruct Hd as [_ ->]. intros [= <-]. split_and!; [done|by eapply prepared_mono| | |done].
        -- intros r (s & Hs' & Hr)%elem_of_promise_values. destruct (Hl s r Hr) as (->&?&?).
           split; [simpl; lia|]. by eapply (record_ok_mono N _ _ Hext); [|done].
        -- intros b' s ? Hfl Hvt. destruct (Hv b' s Hvt) as (?&?&r&Hr&?).
           destruct (Hl s r Hr) as (?&?&?). exists r. split; [|done].
           apply elem_of_promise_values. exists s. done.
      * intros HS. destruct (Hs b S HS) as (?&?&Hr&?&Hcb). split_and!; [done|by eapply prepared_mono| |done|].
        -- intros r Hin. destruct (Hr r Hin). split; [done|].
           by eapply (record_ok_mono N _ _ Hext); [|done].
        -- intros ->. simpl in HS. congruence.
    + intros _. exists S0. done.
  - intros _ b s v. simpl. congruence.
Qed.

(** ** Gathering promises *)

(** A packet the core [c] may receive: some core of the system sent it. *)
Definition delivered (c : core) (p : Packet) : Prop :=
  ∃ d, <[a := c]> cs !! From p = Some d ∧ emitted d p.

Lemma delivered_packet_ok c p prop snap :
  Inv N (world_of c prop snap) → delivered c p →
  0 ≤ From p < N ∧ ∃ d, <[a := c]> cs !! From p = Some d ∧
    packet_ok N (world_of c prop snap) (From p) d p ∧ ballot d ≤ M.
Proof.
  intros HI (d & Hd & Hp). split; [apply (inv_dom _ _ HI); eauto|].
  pose proof (inv_node _ _ HI _ _ Hd) as Hn. exists d.
  split_and!; [done|by apply (ok_packets _ _ _ _ Hn)|]. apply (ok_basic _ _ _ _ Hn).
Qed.

Lemma promise_packet c p prop snap :
  Inv N (world_of c prop snap) → delivered c p → Kind p = packetPromise → Ballot p = ballot c →
  ∃ S, snap (From p) (ballot c) = Some S ∧ 0 ≤ Page p < snap_pages S ∧
    p = snap_page (From p) (ballot c) S (Page p).
Proof.
  intros HI Hd Hk Hb. destruct (delivered_packet_ok c p prop snap HI Hd) as (_&d&_&Hp&_).
  destruct Hp as (_&_&_&HS&_). rewrite Hb in HS. by apply HS.
Qed.

Definition add_page (p : Packet) (c : core) : core :=
  c <| pages ::= <[From p := <[Page p := p]> (default ∅ (pages c !! From p))]> |>.

Lemma good_pages p c :
  good c → delivered c p → Kind p = packetPromise → Ballot p = ballot c → good (add_page p c).
Proof.
  intros Hg Hd Hk Hb. apply (PaxosStep.good_local N M cs a c); [done|by apply node_extends_same|].
  intros prop snap [? ? ? ? ? ? ? ? ? Hga ?] HI Hext. split; try done.
  destruct (promise_packet c p prop snap HI Hd Hk Hb) as (S & HS & HPg & Hp).
  intros Hprep. destruct (Hga Hprep) as [Hg1 Hg2]. unfold add_page; simpl. split.
  - intros i ps k q. rewrite lookup_insert. case_decide as Ei; [|by apply Hg1].
    intros [= <-]. rewrite lookup_insert. case_decide as Ek.
    + intros [= <-]. subst. by exists S.
    + subst i. destruct (pages c !! From p) as [ps|] eqn:E; [by apply (Hg1 _ ps)|].
      simpl. by rewrite lookup_empty.
  - intros i Hi. destruct (Hg2 i Hi) as (? & S' & ps & HS' & Hfl & Hps & Hall). split; [done|].
    exists S'. rewrite lookup_insert. case_decide as Ei; [|by exists ps].
    eexists. split_and!; [done|done|done|]. intros k Hk'. subst i. simpl in *.
    rewrite lookup_insert. case_decide as Ek; [|rewrite Hps; by apply Hall].
    subst k. f_equal. assert (S' = S) as -> by congruence. done.
Qed.

Lemma complete_pages_spec p c ps :
  complete_pages p c ps = true →
  Z.of_nat (size ps) = Pages p ∧
  ∀ i, 0 ≤ i < Pages p → ∃ v, ps !! i = Some v ∧ Pages v = Pages p ∧ Floor v = executed c + 1 ∧ High v = High p.
Proof.
  unfold complete_pages. rewrite andb_true_iff, forallb_forall. intros [Hs Hall]. split; [lia|].
  intros i Hi. specialize (Hall i). destruct (ps !! i) as [v|].
  - exists v. rewrite !andb_true_iff in Hall. destruct Hall as [[? ?] ?];
      [apply list_elem_of_In, elem_of_seqZ; lia|]. split_and!; try done; lia.
  - discriminate Hall. apply list_elem_of_In, elem_of_seqZ. lia.
Qed.

Lemma good_promises p c ps :
  good c → delivered c p → Kind p = packetPromise → Ballot p = ballot c →
  pages c !! From p = Some ps → complete_pages p c ps = true →
  good (c <| promises ::= union {[From p]} |>).
Proof.
  intros Hg Hd Hk Hb Hps Hcomp.
  apply (PaxosStep.good_local N M cs a c); [done|by apply node_extends_same|].
  intros prop snap [? ? ? ? ? ? ? ? ? Hga ?] HI Hext. split; try done.
  destruct (promise_packet c p prop snap HI Hd Hk Hb) as (S & HS & HPg & Hp).
  intros Hprep. destruct (Hga Hprep) as [Hg1 Hg2]. split; [done|]. simpl.
  intros i [->%elem_of_singleton|Hi]%elem_of_union; [|by apply Hg2].
  split; [by apply (delivered_packet_ok c p prop snap HI Hd)|].
  destruct (complete_pages_spec p c ps Hcomp) as [_ Hall].
  assert (Pages p = snap_pages S) as EP by by rewrite Hp.
  assert (∀ k, 0 ≤ k < snap_pages S → ps !! k = Some (snap_page (From p) (ballot c) S k) ∧
            sfloor S = executed c + 1) as Hk'.
  { intros k Hk'. destruct (Hall k ltac:(lia)) as (v & Hv & ? & Hfl & ?).
    destruct (Hg1 _ _ _ _ Hps Hv) as (S' & HS' & _ & Ev).
    simpl in HS'. assert (S' = S) as -> by congruence. split; [by rewrite Hv, Ev|].
    rewrite Ev in Hfl. done. }
  exists S, ps. split_and!; [done| |done|].
  - apply (Hk' 0). pose proof (page_count_pos (length (svals S))). unfold snap_pages. lia.
  - intros k Hk2. by apply Hk'.
Qed.

(** ** Starting an election *)
Lemma good_begin c b :
  good c → ballot c < b ≤ M → b `mod` N = a → ∀ c', 
  PaxosStep.same (c <| ballot := b |> <| leader := a |> <| preparing := true |> <| pages := ∅ |>
        <| promises := ∅ |> <| votes := ∅ |>) c' → pending c' = pending c → resume c' = resume c →
  good c'.
Proof.
  intros Hg Hb Hmod c' Hsame Hpend Hres.
  apply (PaxosStep.good_same N M cs a) with (c := c <| ballot := b |> <| leader := a |> <| preparing := true |>
     <| pages := ∅ |> <| promises := ∅ |> <| votes := ∅ |>); [done| |].
  { unfold requests_ok. rewrite Hpend, Hres. done. }
  apply (PaxosStep.good_local N M cs a c); [done| |].
  { split; simpl; [lia|done|by left|intros; exfalso; lia]. }
  intros prop snap [Hbas Hl ? ? ? Hown Hv Hpk Hsn ? ?] HI Hext. split; try done.
  - pose proof (Z.mod_pos_bound b N ltac:(lia)).
    unfold basic_ok in *; simpl in *. split_and!; try tauto; lia.
  - intros s r Hs. destruct (Hl s r Hs) as (?&?&?). split_and!; [done..|].
    eapply (record_ok_mono N _ _ (extends_refl _)); [|done]. simpl; lia.
  - intros b' s v Hba Hpv. destruct (Hown b' s v Hba Hpv) as (?&?&?&?). simpl.
    split_and!; try done; lia.
  - intros b' s Hvt. destruct (Hv b' s Hvt) as (?&?&?). simpl. split_and!; try done; lia.
  - destruct Hpk as [Hpk Hu]. split; [|done]. intros q Hq.
    destruct (Hpk q Hq) as (?&?&HPrep&?). split_and!; try tauto; simpl; lia.
  - intros b' S HS. destruct (Hsn b' S HS) as (?&?&?&?&?). simpl. split_and!; try done; lia.
Qed.

(** ** Proposing *)
Lemma inv_prop w b s v :
  Inv N w → w_prop w b s = Some v → 0 ≤ b ∧ 0 ≤ s ∧ req_ok v.
Proof.
  intros HI Hv. pose proof (Z.mod_pos_bound b N ltac:(lia)) as Hb.
  apply (inv_dom _ _ HI) in Hb as [d Hd].
  pose proof (ok_owner _ _ _ _ (inv_node _ _ HI _ _ Hd) b s v eq_refl Hv) as (?&?&?&_).
  split_and!; [lia|done..].
Qed.

(** A leader's log and the proposals of its ballot coincide. *)
Lemma leader_prop c prop snap s v :
  Inv N (world_of c prop snap) → node_ok N (world_of c prop snap) a c → leader c = a →
  prop (ballot c) s = Some v → preparing c = false ∧ ∃ r, log c !! s = Some r ∧ Req r = v.
Proof.
  intros HI Hc Hl Hv. destruct (ok_basic _ _ _ _ Hc) as (_&_&_&_&Hmod&_).
  destruct (ok_owner _ _ _ _ Hc (ballot c) s v) as (_&_&_&H); [congruence|done|]. by apply H.
Qed.

Definition push (r : Request) (c : core) : core :=
  c <| high := high c + 1 |>
    <| log ::= <[high c + 1 := mkRecord (high c + 1) (ballot c) r false]> |>.

Lemma good_push r c :
  good c → leader c = a → preparing c = false → req_ok r → good (push r c).
Proof.
  intros (prop & snap & HI & Hc)%good_node Hlead Hprep Hreq.
  pose proof Hc as [Hb Hl Hex ? Hle Ho Hv Hp Hs Hg Hf].
  destruct Hb as (?&Hcid&?&?&Hmod&?&?).
  assert (log c !! (high c + 1) = None) as Hfresh.
  { destruct (log c !! (high c + 1)) as [l|] eqn:E; [|done]. destruct (Hl _ _ E) as (?&?&?). lia. }
  assert (prop (ballot c) (high c + 1) = None) as Hnone.
  { destruct (prop (ballot c) (high c + 1)) as [v|] eqn:E; [|done].
    destruct (leader_prop c prop snap _ _ HI Hc Hlead E) as (_&l&?&_). congruence. }
  set (prop' := λ b s, if decide (b = ballot c ∧ s = high c + 1) then Some r else prop b s).
  assert (∀ b s v, prop b s = Some v → prop' b s = Some v) as Hsub.
  { intros b s v Hv'. unfold prop'. case_decide as Hd; [|done]. destruct Hd; subst; congruence. }
  destruct (Hle ltac:(congruence) Hprep) as (HL1&HL2&HL3).
  apply (PaxosStep.good_step N M cs a c (push r c) prop snap prop' snap); try done.
  - by apply node_extends_same.
  - intros b s v Hne. unfold prop'. rewrite decide_False; [done|]. intros [-> ->]. congruence.
  - intros Hext. destruct (node_ok_grow N _ _ Hext a c Hc) as (Gb&Gl&Gle&Gv&?&?&?).
    split; try done; unfold push, basic_ok, log_ok, exec_ok, lead_ok, owner_ok, vote_ok in *; simpl in *.
    + split_and!; try tauto; lia.
    + intros s l. rewrite lookup_insert. case_decide as Es.
      * intros [= <-]. simpl. split; [done|]. split; [lia|]. unfold record_ok; simpl.
        split_and!; [lia..| |done]. unfold prop'. by rewrite decide_True.
      * intros Hls. destruct (Gl s l Hls) as (?&?&?). split_and!; [done|lia|done].
    + destruct Hex as (Hcm&Hrep&?). split_and!; [| |done].
      * intros s Hs'. rewrite lookup_insert_ne by lia. by apply Hcm.
      * rewrite <- Hrep. f_equal. apply prefix_upto_ext. intros s Hs'. by rewrite lookup_insert_ne by lia.
    + intros _ _. split_and!.
      * intros s l. rewrite lookup_insert. case_decide as Es; [intros [= <-]; subst s|].
        -- split; [by left|]. unfold prop'. by rewrite decide_True.
        -- intros Hls. destruct (HL1 s l Hls). split; [done|by apply Hsub].
      * intros s b' ??. apply Gle; [congruence|done|lia|done].
      * by apply Gle; [congruence|].
    + intros b s v Hba. unfold prop'. case_decide as Hd.
      * destruct Hd as [-> ->]. intros [= <-]. split_and!; try done; try lia.
        intros _. split; [done|]. eexists. by rewrite lookup_insert_eq.
      * intros Hpv. destruct (Ho b s v Hba Hpv) as (?&?&?&Hcur). split_and!; try done; try lia.
        intros Hbb. split; [done|]. destruct (Hcur Hbb) as (_&l&Hls&?). exists l.
        rewrite lookup_insert_ne; [done|]. intros <-. congruence.
    + intros b s Hvt. destruct (Gv b s Hvt) as (?&?&l&Hls&?). split_and!; try done; try lia.
      exists l. rewrite lookup_insert_ne; [done|]. intros <-. congruence.
    + apply (snaps_ok_mono N _ _ Hext a c) in Hs; [|done]. intros b S HS.
      destruct (Hs b S HS) as (?&?&?&?&Hcur). split_and!; try done.
      intros Hbb. destruct (Hcur Hbb) as (?&?&?&?). split_and!; try done. simpl. congruence.
  - intros Hext b s v Hnp. simpl. unfold prop' at 1. case_decide as Hd; [|congruence].
    destruct Hd as [-> ->]. intros _ b' Hb' Hch. destruct (HL2 (high c + 1) b' ltac:(lia) Hb').
    by eapply choosable_anti.
Qed.
(** ** Electing *)

(** The core once the selected records refill the log. *)
Definition selection (e : env) (c : core) : gmap Z Record_ * Z :=
  foldl select_page (∅, executed c) (promised_pages e c).

Definition elected (e : env) (c : core) : core :=
  let c1 := c <| preparing := false |> <| high := (selection e c).2 |>
              <| assigned := executed_assigned e
                   (c <| preparing := false |> <| high := (selection e c).2 |>) |> in
  let c2 := foldl (adopt_slot (selection e c).1) c1 (rangeZ (executed c + 1) (selection e c).2) in
  c2 <| recoveryEnd := high c2 |> <| votes := ∅ |>.

Lemma elect_elected e rcv c :
  elect e rcv c =
    (c ← sendSuffix e rcv (cid (elected e c)) (executed (elected e c) + 1) false (elected e c);
     Done (if recoveryEnd c <=? executed c then activate e c else c)).
Proof. unfold elect, elected, selection. by destruct (foldl select_page _ _). Qed.

Section Elected.
Context (e : env) (c : core) (prop : Z → Z → option Request) (snap : Z → Z → option snapshot).
Abbreviation w := (world_of c prop snap).
Context (HI : Inv N w) (Hc : node_ok N w a c).
Context (Hprep : preparing c = true) (Hself : a ∈ promises c)
  (Hquorum : quorum c ≤ Z.of_nat (size (promises c))).
Abbreviation sel := ((selection e c).1).
Abbreviation hi := ((selection e c).2).

Lemma promises_majority : ReplicaSet.majority N (promises c).
Proof.
  destruct (ok_gather _ _ _ _ Hc Hprep) as [_ Hg]. split.
  - intros i Hi. apply ReplicaSet.elem_of_ids. by apply Hg.
  - unfold quorum in Hquorum. destruct (ok_basic _ _ _ _ Hc) as (E&_). rewrite E in Hquorum.
    rewrite Z.quot_div_nonneg in Hquorum by lia. done.
Qed.

Lemma promised_page p :
  p ∈ promised_pages e c → ∃ i S k, i ∈ promises c ∧ snap i (ballot c) = Some S ∧
    p = snap_page i (ballot c) S k.
Proof.
  destruct (ok_gather _ _ _ _ Hc Hprep) as [Hg1 Hg2].
  unfold promised_pages. intros (i & Hp & Hi%elem_of_range_set)%list_elem_of_bind.
  apply list_elem_of_fmap in Hp as ([k p'] & -> & Hk%elem_of_range_order).
  destruct (Hg2 i Hi) as (_ & S & ps & HS & _ & Hps & _). rewrite Hps in Hk.
  destruct (Hg1 _ _ _ _ Hps Hk) as (S' & HS' & _ & Ep). exists i, S', k. done.
Qed.

Lemma promised_snapshot i S k :
  i ∈ promises c → snap i (ballot c) = Some S → 0 ≤ k < snap_pages S →
  snap_page i (ballot c) S k ∈ promised_pages e c.
Proof.
  destruct (ok_gather _ _ _ _ Hc Hprep) as [_ Hg2]. intros Hi HS Hk.
  destruct (Hg2 i Hi) as (_ & S' & ps & HS' & _ & Hps & Hall). simpl in HS'.
  assert (S' = S) as -> by congruence.
  apply list_elem_of_bind. exists i. split; [|by apply elem_of_range_set].
  apply list_elem_of_fmap. exists (k, snap_page i (ballot c) S k). split; [done|].
  apply elem_of_range_order. rewrite Hps. by apply Hall.
Qed.

Lemma selected_record s r : sel !! s = Some r → Slot r = s ∧ record_ok N w (ballot c) r.
Proof.
  unfold selection. rewrite select_pages_flat. simpl. intros Hs.
  destruct (select_records_from _ _ _ _ Hs) as [E|[Hr <-]]; [by rewrite lookup_empty in E|].
  split; [done|]. apply list_elem_of_bind in Hr as (p & Hr & Hp).
  destruct (promised_page p Hp) as (i & S & k & Hi & HS & ->). simpl in Hr.
  apply elem_of_take in Hr as (? & Hr%list_elem_of_lookup_2 & _). apply subseteq_drop in Hr.
  assert (is_Some (w_cs w !! i)) as [d Hd].
  { apply (inv_dom _ _ HI). by apply (ok_gather _ _ _ _ Hc Hprep). }
  destruct (ok_snaps _ _ _ _ (inv_node _ _ HI _ _ Hd) _ _ HS) as (_&_&Hrs&_).
  by apply Hrs.
Qed.

(** A lower ballot that may still decide [s] shows in the selection. *)
Lemma choosable_selected b s :
  0 ≤ b < ballot c → choosable N w b s →
  is_Some (prop b s) ∧ (executed c < s → s ≤ hi ∧ ∃ r r', Slot r = s ∧ record_ok N w (ballot c) r ∧
     (b ≤ RBallot r ∨ Committed r = true) ∧ sel !! s = Some r' ∧ RBallot r ≤ RBallot r').
Proof.
  intros Hb (Q & HQ & Hv).
  destruct (ReplicaSet.majority_intersect N Q _ ltac:(lia) HQ promises_majority) as (i & HiQ & Hi).
  destruct (Hv i HiQ) as (d & Hd & Hvd). pose proof (inv_node _ _ HI _ _ Hd) as Hdok.
  destruct (ok_gather _ _ _ _ Hc Hprep) as [_ Hg2].
  destruct (Hg2 i Hi) as (_ & S & ps & HS & Hfl & Hps & Hall).
  destruct (ok_snaps _ _ _ _ Hdok _ _ HS) as (Hbd & _ & Hrs & Hcov & _).
  destruct Hvd as [Hvd|]; [|lia].
  destruct (ok_vote _ _ _ _ Hdok _ _ Hvd) as (_ & Hp & _). split; [done|]. intros Hs.
  destruct (Hcov b s ltac:(lia) ltac:(lia) Hvd) as (r & Hr & <- & Hrb).
  destruct (Hrs r Hr) as [Hrh Hrok].
  destruct (page_covers (svals S) r Hr) as (k & Hk & Hrk).
  pose proof (promised_snapshot i S k Hi HS Hk) as Hpg.
  unfold selection. rewrite select_pages_flat. simpl. split.
  - etrans; [exact Hrh|]. apply foldl_max_ge, list_elem_of_fmap. eexists. split; [|exact Hpg]. done.
  - destruct (select_records_max (promised_pages e c ≫= Records) ∅ r) as (r' & Hr' & ?).
    { apply list_elem_of_bind. eexists. split; [|exact Hpg]. done. }
    exists r, r'. done.
Qed.

Lemma hi_bounds : executed c ≤ hi ∧ high c ≤ hi.
Proof.
  destruct (ok_gather _ _ _ _ Hc Hprep) as [_ Hg2].
  destruct (Hg2 a Hself) as (_ & S & ps & HS & _).
  destruct (ok_snaps _ _ _ _ Hc _ _ HS) as (_&_&_&_&Hcur).
  destruct (Hcur eq_refl) as (_&_&_&Hh). specialize (Hh Hprep).
  pose proof (page_count_pos (length (svals S))).
  pose proof (promised_snapshot a S 0 Hself HS ltac:(unfold snap_pages; lia)) as Hpg.
  unfold selection. rewrite select_pages_flat. simpl. split; [exact (proj1 (foldl_max_ge _ _))|].
  rewrite <- Hh. apply foldl_max_ge, list_elem_of_fmap. eexists. split; [|exact Hpg]. done.
Qed.

Lemma own_fresh s : prop (ballot c) s = None.
Proof.
  destruct (prop (ballot c) s) as [v|] eqn:E; [|done].
  destruct (ok_basic _ _ _ _ Hc) as (_&_&_&_&_&_&Hl).
  destruct (leader_prop c prop snap s v HI Hc (Hl Hprep) E). congruence.
Qed.

Lemma record_below r : record_ok N w (ballot c) r → RBallot r < ballot c.
Proof.
  intros (?&?&Hp&_). destruct (decide (RBallot r = ballot c)) as [E|]; [|lia].
  rewrite E in Hp. simpl in Hp. rewrite own_fresh in Hp. done.
Qed.

(** A decision up to [r] agrees with [r] at every ballot that may decide. *)
Lemma decided_safe r b v :
  record_ok N w (ballot c) r → Committed r = true → choosable N w b (Slot r) →
  0 ≤ b < ballot c → prop b (Slot r) = Some v → v = Req r.
Proof.
  intros (?&?&Hp&Hch) Hcm Hcb Hb Hv. specialize (Hch Hcm).
  destruct (Z.le_gt_cases (RBallot r) b) as [Hle|Hgt].
  - symmetry. by eapply (chosen_proposal N w); [apply HI| | |].
  - pose proof (inv_safe _ _ HI _ _ _ Hp b ltac:(lia) Hcb) as E. simpl in E. congruence.
Qed.

Lemma elect_safe b s :
  0 ≤ b < ballot c → choosable N w b s → executed c < s →
  prop b s = Some (Req (adopted sel (ballot c) s)).
Proof.
  intros Hb Hcb Hs. destruct (choosable_selected b s Hb Hcb) as [[v Hv] H].
  destruct (H Hs) as (_ & r & r' & <- & Hrok & Hrb & Hsel & Hle).
  destruct (selected_record _ _ Hsel) as [Es Hrok'].
  unfold adopted. rewrite Hsel. simpl. rewrite Hv. f_equal.
  destruct Hrok' as (?&?&Hp'&?). rewrite Es in Hp'.
  destruct (Z.lt_trichotomy b (RBallot r')) as [Hlt|[->|Hgt]].
  - pose proof (inv_safe _ _ HI _ _ _ Hp' b ltac:(lia) Hcb) as E. simpl in E. congruence.
  - simpl in Hp'. congruence.
  - destruct Hrb as [?|Hcm]; [lia|].
    transitivity (Req r); [by eapply decided_safe|]. destruct Hrok as (?&?&?&Hch).
    by eapply (chosen_proposal N w); [apply HI|by apply Hch|exact Hp'|].
Qed.
End Elected.

Lemma elected_same e c :
  PaxosStep.same
    (c <| preparing := false |> <| high := (selection e c).2 |> <| votes := ∅ |>
       <| log := log (elected e c) |>) (elected e c) ∧
  pending (elected e c) = pending c ∧ resume (elected e c) = resume c.
Proof.
  unfold elected. set (c1 := _ <| assigned := _ |>).
  destruct (adopt_slots_same (selection e c).1 c1 (rangeZ (executed c + 1) (selection e c).2))
    as ([] & Hp & Hr). simpl in *. split; [by split|done].
Qed.

Lemma elected_log e c s :
  log (elected e c) !! s =
    if decide (executed c < s ≤ (selection e c).2) then Some (adopted (selection e c).1 (ballot c) s)
    else log c !! s.
Proof.
  unfold elected. cbn -[adopt_slot]. rewrite adopt_slots_log. cbn.
  destruct (decide (_ ∈ _)) as [H|H]; rewrite elem_of_rangeZ in H.
  - by rewrite decide_True by lia.
  - by rewrite decide_False by lia.
Qed.

Lemma good_elect e c :
  good c → preparing c = true → a ∈ promises c → quorum c ≤ Z.of_nat (size (promises c)) →
  good (elected e c).
Proof.
  intros (prop & snap & HI & Hc)%good_node Hprep Hself Hq.
  pose proof (hi_bounds e c prop snap Hc Hprep Hself) as [Hhi1 Hhi2].
  pose proof (own_fresh c prop snap HI Hc Hprep) as Hfresh.
  pose proof (selected_record e c prop snap HI Hc Hprep) as Hsel.
  pose proof (elect_safe e c prop snap HI Hc Hprep Hq) as Hsafe.
  pose proof (choosable_selected e c prop snap HI Hc Hprep Hq) as Hchs.
  pose proof (record_below c prop snap HI Hc Hprep) as Hbelow.
  pose proof (decided_safe c prop snap HI) as Hdec.
  pose proof (elected_log e c) as Hlog. destruct (elected_same e c) as (Hsame & Hpend & Hres).
  remember (elected e c) as c' eqn:Ec'. clear Ec'.
  remember (selection e c) as sh eqn:Esh. destruct sh as [sel hi]. clear Esh. simpl in *.
  pose proof Hc as [Hb Hl Hex Hrq Hle Ho Hv Hp Hs Hg Hf]. destruct Hb as (?&Hcid&?&?&Hmod&?&Hld).
  specialize (Hld Hprep).
  assert (Hlog' : ∀ s r, log c' !! s = Some r →
    (executed c < s ≤ hi ∧ r = adopted sel (ballot c) s) ∨
    (0 ≤ s ≤ executed c ∧ log c !! s = Some r ∧ Committed r = true)).
  { intros s r. rewrite Hlog. case_decide as Hd; [intros [= <-]; by left|]. intros Hls.
    destruct (Hl s r Hls) as (E&?&Hrok). destruct Hrok as (Hs0&_). right.
    destruct Hex as [Hcm _]. destruct (Hcm s ltac:(lia)) as (r' & Hr' & ?).
    split_and!; [lia..|done|congruence]. }
  assert (Hreq : ∀ s r, log c' !! s = Some r → req_ok (Req r)).
  { intros s r [[_ ->]|(_&Hr&_)]%Hlog'.
    - unfold adopted. destruct (sel !! s) as [r|] eqn:E; simpl; [|by left].
      destruct (Hsel s r E) as (<-&_&_&Hpr&_). by apply (inv_prop _ _ _ _ HI Hpr).
    - destruct (Hl s r Hr) as (<-&_&_&_&Hpr&_). by apply (inv_prop _ _ _ _ HI Hpr). }
  set (prop' := λ b s, if decide (b = ballot c) then Req <$> log c' !! s else prop b s).
  assert (Hcur : ∀ s r, log c' !! s = Some r → prop' (ballot c) s = Some (Req r)).
  { intros s r Hr. unfold prop'. by rewrite decide_True, Hr. }
  assert (∀ b s v, prop b s = Some v → prop' b s = Some v) as Hsub.
  { intros b s v Hv'. unfold prop'. case_decide as Hd; [|done]. subst. by rewrite Hfresh in Hv'. }
  destruct Hsame as [Ecn Ecid Elead Ebal Eprep Ehigh Eexec _ Evotes _ _ Efr EfrB EfrF Esm Evals Eout].
  simpl in *.
  assert (Hem : ∀ p, emitted c' p ↔ emitted c p) by (intros p; unfold emitted; by rewrite Eout).
  assert (Hvt : ∀ b s, voted c' b s ↔ voted c b s) by (intros b s; unfold voted; by setoid_rewrite Hem).
  apply (PaxosStep.good_step N M cs a c c' prop snap prop' snap); try done.
  - split; [lia|intros p; by rewrite Hem|intros b s; rewrite Hvt; by left|intros; congruence].
  - intros b s v Hne. unfold prop'. case_decide; [|done]. subst. congruence.
  - intros Hext. destruct (node_ok_grow N _ _ Hext a c Hc) as (Gb&Gl&_&Gv&Gp&_&Gf).
    apply (snaps_ok_mono N _ _ Hext a c) in Hs; [|done]. split.
    + unfold basic_ok in *. rewrite Ecn, Ecid, Elead, Ebal, Eexec,
        Ehigh, Eprep. split_and!; try tauto; lia.
    + intros s r Hr. rewrite Ebal, Ehigh. destruct (Hlog' s r Hr) as [[Hs' Er]|(?&Hr'&_)].
      * assert (Slot r = s ∧ RBallot r = ballot c ∧ Committed r = false) as (<-&Eb&Ec).
        { subst r. unfold adopted. destruct (sel !! s) as [r|] eqn:E; simpl; [|done].
          by destruct (Hsel s r E). }
        split_and!; [done|lia|]. unfold record_ok. rewrite Eb, Ec. simpl. split_and!; try lia; try done.
        by apply Hcur.
      * destruct (Gl s r Hr') as (?&?&?). split_and!; [done|lia|done].
    + destruct Hex as (Hcm&Hrep&Hrp). unfold exec_ok.
      rewrite Eexec, Esm, Evals, Eout. split_and!; [| |done].
      * intros s Hs'. rewrite Hlog, decide_False by lia. by apply Hcm.
      * rewrite <- Hrep. f_equal. apply prefix_upto_ext. intros s Hs'.
        by rewrite Hlog, decide_False by lia.
    + unfold requests_ok. rewrite Hpend, Hres. done.
    + intros _ _. rewrite Ehigh, Ebal, Evotes. split_and!.
      * intros s r Hr. split; [|by apply Hcur].
        destruct (Hlog' s r Hr) as [[_ ->]|(_&_&?)]; [by left|by right].
      * intros s b ?? Hch. apply (choosable_anti N _ _ Hext) in Hch.
        destruct (Hchs b s ltac:(lia) Hch) as [_ H']. destruct H'; lia.
      * intros s vs i Hvs. by rewrite lookup_empty in Hvs.
    + intros b s v Hba. rewrite Ebal. simpl. unfold prop'. case_decide as Hd.
      * subst b. intros (r & Hr & ->)%fmap_Some. split_and!; try lia; [|by eapply Hreq|by eauto].
        destruct (Hlog' s r Hr) as [[? _]|(?&_)]; lia.
      * intros Hv'. destruct (Ho b s v Hba Hv') as (?&?&?&_). split_and!; try done; lia.
    + intros b s. rewrite Hvt, Ebal. intros Hb'. destruct (Gv b s Hb') as (?&?&r&Hr&?).
      split_and!; [lia..|done|]. rewrite Hlog. destruct (Hl s r Hr) as (?&?&_).
      case_decide; [|by eauto]. eexists. split; [done|]. left. unfold adopted. simpl. lia.
    + destruct Gp as [Gp Hu]. split.
      * intros p. rewrite Hem. intros Hp'. destruct (Gp p Hp') as (?&?&HP&?).
        unfold packet_ok. rewrite Ebal, Eexec, Eprep.
        split_and!; try tauto; lia.
      * intros p q. rewrite !Hem. apply Hu.
    + intros b S HS. destruct (Hs b S HS) as (?&?&?&Hcv&Hcb). rewrite Ebal, Eprep,
        Efr, EfrB, EfrF. split_and!; try done.
      * intros b' s ??. rewrite Hvt. by apply Hcv.
      * intros Eb. destruct (Hcb Eb) as (?&?&?&_). done.
    + intros Hpr. congruence.
    + intros Hfr. rewrite Efr, EfrB in *. by apply Gf.
  - intros Hext b s v Hnp. simpl. intros Hpv b' Hb' Hch. apply (choosable_anti N _ _ Hext) in Hch.
    unfold prop' in Hpv. case_decide as Hd; [subst b|congruence].
    apply fmap_Some in Hpv as (r & Hr & ->). unfold prop'. rewrite decide_False by lia.
    destruct (Hlog' s r Hr) as [[Hs' ->]|(Hs'&Hr'&Hcm)]; [apply Hsafe; [lia|done|lia]|].
    destruct (Hchs b' s ltac:(lia) Hch) as [[v Hv'] _]. rewrite Hv'. f_equal.
    destruct (Hl s r Hr') as (<-&_&Hrok). by eapply Hdec.
Qed.
End Elect.
End PaxosElect.
