(* ===== verification/PaxosSafety.v ===== *)
(** * PaxosSafety: every handler of a Paxos core preserves the invariant

    One specification per method of [Paxos], in the style of a Hoare triple:
    under the invariant the method returns (it neither panics nor exhausts the
    fuel of the reentrant dispatcher) and its result satisfies the invariant
    again ([ok]).  The reentrant calls go through the specification of the
    level below: acknowledgements never reenter, an accept reenters with an
    acknowledgement, an election with an accept, a promise with an election. *)
From stdpp Require Import gmap strings list fin_maps fin_sets.
From Stdlib Require Import Lia.
From S2P Require Import Prelude State ReplicaSet Defs Paxos PaxosInv PaxosStep PaxosElect.
Import Paxos PaxosInv PaxosStep PaxosElect.

Module PaxosSafety.
Section Safety.
Context {SM : StateMachine} {SML : @StateMachineLaws SM} (N : Z) (HN : 3 ≤ N ≤ 63).
Context (M : Z) (cs : gmap Z core) (a : Z).
Abbreviation good := (PaxosStep.good N M cs a).
Abbreviation delivered := (PaxosElect.delivered cs a).
Abbreviation world_of c prop snap := (mkWorld (<[a := c]> cs) prop snap M).

(** What the handlers of a ballot leave alone. *)
Record keeps (c c' : core) : Prop := mkKeeps {
  keeps_leader : leader c' = leader c;
  keeps_ballot : ballot c' = ballot c;
  keeps_frozen : frozen c' = frozen c;
  keeps_frozenBallot : frozenBallot c' = frozenBallot c;
  keeps_executed : executed c ≤ executed c' ∧ (preparing c = true → preparing c' = true → executed c' = executed c);
  keeps_preparing : preparing c' = true → preparing c = true;
  keeps_promises : preparing c' = true → promises c ⊆ promises c';
  keeps_emitted : ∀ p, emitted c p → emitted c' p;
}.

#[export] Instance keeps_preorder : PreOrder keeps.
Proof.
  split; [split; auto with lia|].
  intros c1 c2 c3 [? ? ? ? ? HP HQ ?] [? ? ? ? ? HP' HQ' ?]. split; try congruence; auto; [|set_solver].
  split; [lia|]. intros ? H3. specialize (HP' H3). intuition congruence.
Qed.

Definition ok (c c' : core) : Prop := good c' ∧ keeps c c'.

Lemma ok_refl c : good c → ok c c.
Proof. by split. Qed.

Lemma ok_trans c1 c2 c3 : ok c1 c2 → ok c2 c3 → ok c1 c3.
Proof. intros [_ ?] [? ?]. split; [done|]. by etrans. Qed.

Lemma returns_ok_bind (o : outcome core) (k : core → outcome core) c :
  returns o (ok c) → (∀ c', ok c c' → returns (k c') (ok c')) → returns (o ≫= k) (ok c).
Proof.
  intros Ho Hk. eapply returns_bind; [exact Ho|]. intros c' Hc'.
  eapply returns_mono; [by apply Hk|]. intros c'' ?. by eapply ok_trans.
Qed.

Lemma returns_ok_trans (o : outcome core) c c' :
  ok c c' → returns o (ok c') → returns o (ok c).
Proof. intros ? Ho. eapply returns_mono; [exact Ho|]. intros ??. by eapply ok_trans. Qed.

(** ** Facts about a good core *)
Lemma good_basic c :
  good c → cn c = N ∧ cid c = a ∧ 0 ≤ leader c < N ∧ 0 ≤ ballot c ≤ M ∧
    ballot c `mod` N = leader c ∧ -1 ≤ executed c ≤ high c ∧ (preparing c = true → leader c = a).
Proof. intros (prop & snap & _ & Hc)%good_node. apply (ok_basic _ _ _ _ Hc). Qed.

Lemma emitted_delivered c p : good c → emitted c p → delivered c p.
Proof.
  intros (prop & snap & _ & Hc)%good_node Hp. exists c. split; [|done].
  destruct (ok_packets _ _ _ _ Hc) as [Hpk _]. destruct (Hpk p Hp) as [-> _]. by rewrite lookup_insert_eq.
Qed.

Lemma keeps_delivered c c' p :
  good c → (∀ p, emitted c p → emitted c' p) → delivered c p → delivered c' p.
Proof.
  intros Hg Hk (d & Hd & Hp). rewrite lookup_insert in Hd. unfold PaxosElect.delivered.
  rewrite lookup_insert. case_decide as E; [|by exists d].
  injection Hd as <-. exists c'. auto.
Qed.

Definition starts (p : Packet) : Prop :=
  Kind p = packetAccept ∨ Kind p = packetCommit ∨ Kind p = packetReady ∨ Kind p = packetFetch ∨
  Kind p = packetAck.

Lemma delivered_started c p prop snap :
  Inv N (world_of c prop snap) → delivered c p → starts p →
  started N (world_of c prop snap) (Ballot p).
Proof.
  intros HI Hd Hk. destruct (delivered_packet_ok N M cs a c p prop snap HI Hd) as (_&d&_&Hp&_).
  destruct Hp as (_&_&_&_&HA&HR&HF&_). unfold starts in Hk.
  destruct Hk as [?|[?|[?|[?|?]]]]; tauto.
Qed.

(** The leader of a started ballot has finished preparing; a follower never prepares. *)
Lemma started_prepared c p :
  good c → delivered c p → starts p → Ballot p = ballot c → preparing c = false.
Proof.
  intros Hg Hd Hk Hb. pose proof Hg as (prop & snap & HI & Hc)%good_node.
  destruct (ok_basic _ _ _ _ Hc) as (_&_&_&_&Hm&_&Hl).
  destruct (preparing c) eqn:E; [|done]. specialize (Hl eq_refl).
  destruct (delivered_started c p prop snap HI Hd Hk) as (d & Hd' & _ & Hp).
  rewrite Hb, Hm, Hl in Hd'. simpl in Hd'. rewrite lookup_insert_eq in Hd'. injection Hd' as <-.
  rewrite <- E. by apply Hp.
Qed.

Definition is_started (c : core) : Prop :=
  ∀ prop snap, Inv N (world_of c prop snap) → started N (world_of c prop snap) (ballot c).

Lemma started_delivered c p : delivered c p → starts p → Ballot p = ballot c → is_started c.
Proof. intros Hd Hk Hb prop snap HI. rewrite <- Hb. by apply delivered_started. Qed.

Lemma started_leader c : good c → leader c = a → preparing c = false → is_started c.
Proof.
  intros (_&_&_&_&Hm&_)%good_basic Hl Hp prop snap HI. exists c. rewrite Hm, Hl. simpl.
  by rewrite lookup_insert_eq.
Qed.

Lemma log_record c s r prop snap :
  Inv N (world_of c prop snap) → log c !! s = Some r →
  Slot r = s ∧ s ≤ high c ∧ record_ok N (world_of c prop snap) (ballot c) r.
Proof.
  intros HI Hr. assert (w_cs (world_of c prop snap) !! a = Some c) as Ha by apply lookup_insert_eq.
  by apply (ok_log _ _ _ _ (inv_node _ _ HI _ _ Ha)).
Qed.

Lemma good_log c s r : good c → log c !! s = Some r → Slot r = s ∧ s ≤ high c ∧ 0 ≤ s ∧
  RBallot r ≤ ballot c ∧ req_ok (Req r).
Proof.
  intros (prop & snap & HI & Hc)%good_node Hr.
  destruct (log_record c s r prop snap HI Hr) as (<-&?&?&?&Hp&_).
  split_and!; [done..|lia|]. by apply (inv_prop _ HN _ _ _ _ HI Hp).
Qed.

Lemma leader_record c s r prop snap :
  Inv N (world_of c prop snap) → leader c = a → preparing c = false → log c !! s = Some r →
  (RBallot r = ballot c ∨ Committed r = true) ∧ prop (ballot c) s = Some (Req r).
Proof.
  intros HI Hl Hp Hr. assert (w_cs (world_of c prop snap) !! a = Some c) as Ha by apply lookup_insert_eq.
  pose proof (inv_node _ _ HI _ _ Ha) as Hc. destruct (ok_basic _ _ _ _ Hc) as (_&Hid&_).
  by apply (ok_lead _ _ _ _ Hc); [congruence|..].
Qed.

(** ** Bookkeeping outside the invariant *)
Lemma keeps_same c c' : same c c' → keeps c c'.
Proof.
  intros [_ _ ? ? ? _ Ex _ _ _ Epr ? ? _ _ _ Eo]. split; try (intros; congruence).
  - rewrite Ex. auto with lia.
  - intros p. unfold emitted. by rewrite Eo.
Qed.

Lemma ok_same c c' : same c c' → (requests_ok c → requests_ok c') → good c → ok c c'.
Proof. intros Hs Hr Hg. split; [by eapply good_same|by apply keeps_same]. Qed.

Lemma keeps_emit ev c : keeps c (emit ev c).
Proof.
  split; try done. intros p. unfold emitted, emit. simpl. setoid_rewrite elem_of_app. naive_solver.
Qed.

Lemma ok_reply r v c : values c !! ID r = Some v → good c → ok c (reply r v c).
Proof. intros Hv Hg. split; [by apply good_reply|apply keeps_emit]. Qed.

Lemma good_requests c : good c → requests_ok c.
Proof. intros (prop & snap & _ & Hc)%good_node. apply Hc. Qed.
(** ** Applying decided slots ([apply]) *)
Lemma sm_runs c r : good c → log c !! (executed c + 1) = Some r → Op (Cmd (Req r)) ≠ NONE →
  returns (sm_execute (Cmd (Req r)) (sm c)) (λ _, True).
Proof.
  intros Hg Hr Hop. destruct (good_log _ _ _ Hg Hr) as (_&_&_&_&[?|?]); [done|].
  by apply sm_execute_returns.
Qed.

Definition log_fixed (c c' : core) : Prop :=
  log c' = log c ∧ preparing c' = preparing c ∧ ballot c' = ballot c.

Lemma keeps_exec c c' :
  preparing c' = false → leader c' = leader c → ballot c' = ballot c →
  frozen c' = frozen c → frozenBallot c' = frozenBallot c → executed c ≤ executed c' →
  (∀ p, emitted c p → emitted c' p) → keeps c c'.
Proof. intros. split; try done; try congruence. split; [done|congruence]. Qed.

(** Dropping pending requests and vote counts. *)
Lemma good_forget c c' :
  same (c <| votes := votes c' |>) c' → resume c' = resume c →
  (∀ i r, pending c' !! i = Some r → pending c !! i = Some r) →
  (∀ i v, votes c' !! i = Some v → votes c !! i = Some v) → good c → good c'.
Proof.
  intros Hs Hr Hp Hv Hg.
  apply (good_same N M cs a) with (c := c <| votes := votes c' |>); [done| |].
  - intros [H1 H2]. split; [|by rewrite Hr]. intros i r' Hi. by eapply H1, Hp.
  - apply good_votes; [done|]. intros prop snap HI Hl Hpr s v i Hs' Hi.
    pose proof (inv_node _ _ HI a c (lookup_insert_eq _ _ _)) as Hc.
    destruct (ok_lead _ _ _ _ Hc Hl Hpr) as (_&_&H3). by eapply H3; [apply Hv|].
Qed.

Lemma delete_sub `{Countable T} {A} (m : gmap T A) k i v : delete k m !! i = Some v → m !! i = Some v.
Proof. rewrite lookup_delete_Some. tauto. Qed.

Lemma apply_one_ok c r :
  good c → preparing c = false → log c !! (executed c + 1) = Some r → Committed r = true →
  returns (apply_one r c) (λ c', ok c c' ∧ executed c' = executed c + 1 ∧ log c' = log c).
Proof.
  intros Hg Hp Hr Hc. pose proof (λ st vals, good_exec N HN M cs a r st vals c Hg Hp Hr Hc) as Hexec.
  unfold apply_one. unfold replay_one in Hexec. cbn [fst snd] in Hexec. case_decide as Hcase.
  - destruct (returns_inv _ _ (sm_runs c r Hg Hr (proj2 Hcase))) as ([v s'] & Ev & _).
    rewrite Ev in *. specialize (Hexec _ _ eq_refl).
    apply (good_reply N HN M cs a (Req r) v) in Hexec; [|simpl; by rewrite lookup_insert_eq].
    split; [|done]. split.
    + eapply good_forget; [| | | |exact Hexec]; [by split|done|apply delete_sub|apply delete_sub].
    + apply keeps_exec; try done; [simpl; lia|]. intros p. unfold emitted. cbn [out set].
      setoid_rewrite elem_of_app. naive_solver.
  - split; [|done]. split; [|apply keeps_exec; try done; simpl; lia].
    specialize (Hexec _ _ eq_refl).
    eapply good_forget; [| | | |exact Hexec]; [by split|done|apply delete_sub|apply delete_sub].
Qed.

(** The slots still to be executed: the measure of the loop. *)
Definition unexecuted (c : core) : nat := size (beyond (executed c) (log c)).

Lemma unexecuted_step c c' r :
  log c' = log c → executed c' = executed c + 1 → log c !! (executed c + 1) = Some r →
  (unexecuted c' < unexecuted c)%nat.
Proof. intros El Ee Hr. unfold unexecuted. rewrite El, Ee. by eapply beyond_step. Qed.

Lemma unexecuted_le c : (unexecuted c ≤ size (log c))%nat.
Proof. apply beyond_le. Qed.

Lemma apply_loop_ok fuel c :
  good c → preparing c = false → (unexecuted c < fuel)%nat →
  returns (apply_loop fuel c) (λ c', ok c c' ∧ log c' = log c ∧
    ∀ r, log c' !! (executed c' + 1) = Some r → Committed r = false).
Proof.
  revert c. induction fuel as [|fuel IH]; intros c Hg Hp Hf; [lia|]. simpl.
  destruct (log c !! (executed c + 1)) as [r|] eqn:Hr.
  2: { split_and!; [by apply ok_refl|done|]. congruence. }
  destruct (Committed r) eqn:Hc.
  2: { split_and!; [by apply ok_refl|done|]. congruence. }
  eapply returns_bind; [by apply apply_one_ok|]. intros c' ((Hg' & Hk) & He & Hl).
  pose proof (unexecuted_step c c' r Hl He Hr).
  eapply returns_mono; [apply IH; [done| |lia]|].
  - destruct (preparing c') eqn:E; [|done]. by apply (keeps_preparing _ _ Hk) in E; congruence.
  - intros c'' (Hok & El & Hmax). split_and!; [|congruence|done]. by eapply ok_trans.
Qed.

Lemma apply_ok c :
  good c → preparing c = false →
  returns (apply c) (λ c', ok c c' ∧ log c' = log c ∧
    ∀ r, log c' !! (executed c' + 1) = Some r → Committed r = false).
Proof. intros Hg Hp. apply apply_loop_ok; [done..|]. pose proof (unexecuted_le c). lia. Qed.
(** ** Writing the log *)
Lemma keeps_prepared c c' : keeps c c' → preparing c = false → preparing c' = false.
Proof. intros Hk Hp. destruct (preparing c') eqn:E; [|done]. apply (keeps_preparing _ _ Hk) in E. congruence. Qed.

Lemma keeps_put r c : preparing c = false → keeps c (put r c).
Proof. intros Hp. by apply keeps_exec. Qed.

Lemma ok_put r c c' :
  good c → preparing c = false →
  (∀ old, log c !! Slot r = Some old → replaces old r) →
  (∀ prop snap, Inv N (world_of c prop snap) → record_ok N (world_of c prop snap) (ballot c) r ∧
     (leader c = cid c → (RBallot r = ballot c ∨ Committed r = true) ∧
        prop (ballot c) (Slot r) = Some (Req r))) →
  same (put r c) c' → (requests_ok c → requests_ok c') → ok c c'.
Proof.
  intros Hg Hp Hold Hr Hs Hreq. pose proof (good_put N HN M cs a r c Hg Hp Hold Hr) as Hput.
  split; [by eapply good_same; [done|exact Hreq|]|].
  etrans; [by apply (keeps_put r)|by apply keeps_same].
Qed.

(** The clauses of [packet_ok] that concern a packet's kind; the other kinds'
    clauses are vacuous. *)
Ltac packet_kind := split_and!; try done; try (by intros [?|?]); cbn.

(** ** Acknowledgements ([ack]) *)
Definition ack_inv (p : Packet) (c0 : core) (st : list Record_ * core) : Prop :=
  ok c0 st.2 ∧ leader st.2 = a ∧ preparing st.2 = false ∧
  ∀ r, r ∈ st.1 → log st.2 !! Slot r = Some r ∧ RBallot r = ballot st.2 ∧ Committed r = true.

Lemma acker_voted c p s prop snap :
  Inv N (world_of c prop snap) → delivered c p → Kind p = packetAck → Ballot p = ballot c →
  (∃ r, r ∈ Records p ∧ Slot r = s) → voted_at (world_of c prop snap) (From p) (ballot c) s.
Proof. intros HI (d & Hd & Hp) Hk Hb Hr. exists d. split; [done|]. by exists p. Qed.

Lemma good_add_voter c p r :
  good c → delivered c p → Kind p = packetAck → Ballot p = ballot c → r ∈ Records p →
  good (c <| votes ::= <[Slot r := ReplicaSet.With (default 0 (votes c !! Slot r)) (From p)]> |>).
Proof.
  intros Hg Hd Hk Hb Hr. apply good_votes; [done|].
  intros prop snap HI Hl Hp s vs i. rewrite lookup_insert. case_decide as Es.
  - intros [= <-] Hi. subst s. rewrite ReplicaSet.to_gset_With in Hi.
    assert (i = From p ∨ i ∈ ReplicaSet.to_gset (default 0 (votes c !! Slot r))) as [->|Hi'].
    { case_decide; [|by right]. apply elem_of_union in Hi as [?%elem_of_singleton|?]; auto. }
    + by eapply acker_voted; eauto.
    + destruct (votes c !! Slot r) as [vs|] eqn:E; simpl in Hi'.
      * pose proof (inv_node _ _ HI a c (lookup_insert_eq _ _ _)) as Hc.
        destruct (ok_lead _ _ _ _ Hc Hl Hp) as (_&_&H3). by eapply H3.
      * apply ReplicaSet.elem_of_to_gset in Hi' as [_ Hi']. by rewrite Z.testbit_0_l in Hi'.
  - intros Hs Hi. pose proof (inv_node _ _ HI a c (lookup_insert_eq _ _ _)) as Hc.
    destruct (ok_lead _ _ _ _ Hc Hl Hp) as (_&_&H3). by eapply H3.
Qed.

(** A quorum of recorded votes decides the slot. *)
Lemma votes_chosen c s vs prop snap :
  Inv N (world_of c prop snap) → leader c = a → preparing c = false →
  votes c !! s = Some vs → quorum c ≤ ReplicaSet.Size vs →
  chosen_at N (world_of c prop snap) (ballot c) s.
Proof.
  intros HI Hl Hp Hvs Hq. pose proof (inv_node _ _ HI a c (lookup_insert_eq _ _ _)) as Hc.
  destruct (ok_basic _ _ _ _ Hc) as (Hn&Hid&_).
  destruct (ok_lead _ _ _ _ Hc ltac:(congruence) Hp) as (_&_&H3).
  exists (ReplicaSet.to_gset vs). split; [|intros i Hi; by eapply H3].
  split.
  - intros i Hi. destruct (H3 s vs i Hvs Hi) as (d & Hd & _).
    apply ReplicaSet.elem_of_ids, (inv_dom _ _ HI). by exists d.
  - rewrite <- ReplicaSet.Size_size. unfold quorum in Hq. rewrite Hn in Hq.
    by rewrite Z.quot_div_nonneg in Hq by lia.
Qed.

Lemma ack_one_ok p c0 r committed c :
  delivered c0 p → Kind p = packetAck → Ballot p = ballot c0 → r ∈ Records p → good c0 →
  ack_inv p c0 (committed, c) → returns (ack_one (From p) r (committed, c)) (ack_inv p c0).
Proof.
  intros Hd Hk Hb Hr Hg0 ([Hg Hke] & Hl & Hp & Hcm). simpl in *. unfold ack_one.
  case_match; [by split|].
  pose proof (keeps_ballot _ _ Hke) as Eb.
  apply (keeps_delivered c0 c) in Hd; [|done|apply Hke].
  pose proof (good_add_voter c p r Hg Hd Hk ltac:(congruence) Hr) as Hg1.
  set (voters := ReplicaSet.With _ _) in *. set (c1 := c <| votes ::= _ |>) in *.
  assert (keeps c c1) as Hk1 by (by apply keeps_exec).
  assert (ack_inv p c0 (committed, c1)) as Hskip.
  { split_and!; [split; [done|by etrans]|done..]. }
  change (log (c <| votes := _ |>)) with (log c).
  destruct (log c !! Slot r) as [l|] eqn:El; [|exact Hskip].
  destruct (_ || _) eqn:Econd; [exact Hskip|].
  rewrite !orb_false_iff, negb_false_iff in Econd. destruct Econd as [[Erb Ecm] Evs].
  assert (votes c1 !! Slot r = Some voters) as Hvs by apply lookup_insert_eq.
  change (log c) with (log c1) in El.
  destruct (good_log _ _ _ Hg1 El) as (Esl&Hsl&_).
  set (l' := l <| Committed := true |>). set (c2 := c1 <| log ::= _ |>).
  assert (ok c1 c2) as [Hg2 Hk2].
  { apply (ok_put l'); [done|done| | | |done].
    - intros old Hold. change (Slot l') with (Slot l) in Hold. rewrite Esl, El in Hold.
      injection Hold as <-. split; [congruence|by right].
    - intros prop snap HI.
      destruct (log_record c1 _ _ prop snap HI El) as (_&_&H1&H2&Hpr&_). simpl in Hpr.
      apply Z.eqb_eq in Erb. assert (RBallot l = ballot c1) as Erb' by exact Erb. pose proof Hpr as Hpr'. rewrite Erb' in Hpr'. split.
      + split_and!; [exact H1|apply H2|apply H2|exact Hpr|]. intros _.
        exists (ballot c1). change (RBallot l') with (RBallot l). rewrite Erb'. rewrite Erb' in H2. split; [exact H2|].
        split; [|exact Hpr'].
        change (Slot l') with (Slot l). rewrite Esl. eapply votes_chosen; try done. by apply Z.ltb_ge.
      + intros _. split; [by left|exact Hpr'].
    - split; try done.
      + change (high c1 = Z.max (high c1) (Slot l)). lia.
      + change (<[Slot r := l']> (log c1) = <[Slot l := l']> (log c1)). by rewrite Esl. }
  split_and!; [|done|done|]; cbn [fst snd].
  { split; [done|]. by do 2 (etrans; [done|]). }
  intros r' [Hin| ->%list_elem_of_singleton]%elem_of_app; unfold c2; cbn.
  - destruct (Hcm r' Hin) as (Hr'&?&?). rewrite lookup_insert_ne; [done|].
    intros E. rewrite E in El. change (log c1) with (log c) in El. congruence.
  - rewrite Esl, lookup_insert_eq. split_and!; [done| |done]. lia.
Qed.

Lemma ack_ok p c :
  good c → delivered c p → Kind p = packetAck → Ballot p = ballot c → returns (ack p c) (ok c).
Proof.
  intros Hg Hd Hk Hb. unfold ack.
  destruct (good_basic c Hg) as (_&Hid&_&_&Hmod&_).
  destruct (_ || _) eqn:E; [by apply ok_refl|].
  apply orb_false_iff in E as [Hp Hl%negb_false_iff%Z.eqb_eq].
  assert (ack_inv p c ([], c)) as Hinit.
  { split_and!; [by apply ok_refl|by rewrite <- Hid, Hl|done|]. cbn. by intros r ?%elem_of_nil. }
  eapply returns_bind.
  { apply (returns_forEach_all _ (λ r, r ∈ Records p) (ack_inv p c)); [done|by apply Forall_forall|].
    intros r [committed c1] Hr Hinv. by apply ack_one_ok. }
  intros [committed c1] ([Hg1 Hk1] & Hl1 & Hp1 & Hcm). cbn in *.
  assert (ok c (if (cid c1 =? leader c1) && negb (Nat.eqb (length committed) 0)
                then broadcast (packet packetCommit (cid c1) (ballot c1) <| Records := committed |>) c1
                else c1)) as [Hg2 Hk2].
  { case_match; [|by split]. split; [|etrans; [done|apply keeps_emit]].
    pose proof (good_basic c1 Hg1) as (_&Hid1&_&Hb1&Hmod1&_).
    set (q := packet _ _ _ <| Records := _ |>).
    apply (good_emit N HN M cs a (Broadcast q) q); [by left|done|done| |done].
    intros prop snap HI. split; [|done].
    packet_kind; [lia|].
    intros _. rewrite Hmod1, Hl1. split; [done|]. split; [by apply started_leader|].
    intros r Hr. destruct (Hcm r Hr) as (Hr1 & Erb & Ec). split; [|done].
    destruct (log_record c1 _ _ prop snap HI Hr1) as (_&_&H1&H2&Hpr&Hch).
    rewrite Erb in Hpr, Hch. split_and!; [done..|]. intros Hc'. by apply Hch. }
  eapply (returns_ok_trans _ c); [by split|].
  eapply returns_mono; [apply apply_ok; [done|]|tauto].
  by apply (keeps_prepared c).
Qed.
(** ** Installing a proposal ([install]) *)
Definition proposed (c : core) (r : Record_) : Prop :=
  ∀ prop snap, Inv N (world_of c prop snap) → proposal_ok N (world_of c prop snap) (ballot c) r.

Lemma delivered_proposal p r c :
  good c → delivered c p → Kind p = packetAccept ∨ Kind p = packetCommit → Ballot p = ballot c →
  r ∈ Records p → RBallot r = ballot c ∧ proposed c r ∧ (Kind p = packetCommit → Committed r = true).
Proof.
  intros Hg Hd Hk Hb Hr.
  assert (∀ prop snap, Inv N (world_of c prop snap) →
    proposal_ok N (world_of c prop snap) (ballot c) r ∧ (Kind p = packetCommit → Committed r = true)) as H.
  { intros prop snap HI. destruct (delivered_packet_ok N M cs a c p prop snap HI Hd) as (_&d&_&Hp&_).
    destruct Hp as (_&_&_&_&HA&_). rewrite Hb in HA. by apply HA. }
  pose proof Hg as (prop & snap & HI & _)%good_node. destruct (H _ _ HI) as [(_&?&_) ?].
  split_and!; [done| |done]. intros prop' snap' HI'. by apply H.
Qed.

(** What [install] leaves in the slot of the record it is given. *)
Definition installed (c : core) (r : Record_) (c' : core) : Prop :=
  ∃ l, log c' !! Slot r = Some l ∧ Req l = Req r ∧ (l = r ∨ Committed l = true) ∧
    ∀ s, s ≠ Slot r → log c' !! s = log c !! s.

Lemma install_ok r c :
  good c → preparing c = false → RBallot r = ballot c → proposed c r →
  returns (install r c) (λ c', ok c c' ∧ installed c r c').
Proof.
  intros Hg Hp Hb Hprop. unfold install.
  assert ((∀ old, log c !! Slot r = Some old → Committed old = false) →
    returns (Done (put_record r c)) (λ c', ok c c' ∧ installed c r c')) as Hput.
  { intros Hold. split.
    - apply (ok_put r); [done|done| | | |].
      + intros old Ho. destruct (good_log _ _ _ Hg Ho) as (_&_&_&?&_).
        split; [rewrite (Hold _ Ho); discriminate|left; lia].
      + intros prop snap HI. destruct (Hprop prop snap HI) as (?&_&?&?). split; [|by auto].
        unfold record_ok. rewrite Hb. destruct (good_basic c Hg) as (_&_&_&?&_). split_and!; auto; lia.
      + unfold put_record. case_match eqn:E; split; try done; cbn in *; lia.
      + unfold put_record. by case_match.
    - exists r. unfold put_record. case_match; cbn; rewrite lookup_insert_eq;
        (split_and!; [done..|by left|]); intros s Hs; by rewrite lookup_insert_ne. }
  destruct (log c !! Slot r) as [old|] eqn:Ho; [|by apply Hput].
  destruct (Committed old) eqn:Hc; [|apply Hput; congruence].
  assert (Req old = Req r) as Ereq.
  { pose proof Hg as (prop & snap & HI & _)%good_node.
    destruct (log_record c _ _ prop snap HI Ho) as (E&_&_&?&_&Hch).
    destruct (Hprop prop snap HI) as (_&_&Hpr&_). rewrite <- E in Hpr.
    by eapply (chosen_proposal N _ _ _ _ _ _ (inv_safe _ _ HI) (Hch Hc) Hpr); lia. }
  rewrite Ereq, decide_True by done. split; [by apply ok_refl|].
  exists old. split_and!; [done..|by right|done].
Qed.

Lemma emit_ok ev p c :
  carries ev p → good c → Ballot p = ballot c →
  (∀ prop snap, Inv N (world_of c prop snap) →
     packet_ok N (world_of c prop snap) a c p ∧ ack_backed (world_of c prop snap) c p) →
  prepare_unique c p → ok c (emit ev c).
Proof. intros. split; [by eapply good_emit|apply keeps_emit]. Qed.

(** ** The reentrant methods, given the specification of acknowledgements *)
Section Handlers.
Context (e : env) (rcv : Packet → core → outcome core).

Lemma send_out_ok to p c :
  good c → to ≠ a → ok c (emit (Sent to p) c) → returns (send rcv to p c) (ok c).
Proof.
  intros Hg Hto Hok. unfold send. destruct (good_basic _ (proj1 Hok)) as (_&Hid&_).
  rewrite Hid. by rewrite (proj2 (Z.eqb_neq to a) Hto).
Qed.

Lemma requestFetch_ok p c :
  good c → delivered c p → starts p → Ballot p = ballot c →
  returns (requestFetch e rcv c) (λ c', ok c c' ∧ log c' = log c).
Proof.
  intros Hg Hd Hst Hbp. unfold requestFetch. destruct (good_basic c Hg) as (_&Hid&_&Hb&_).
  case_match eqn:El; [split; [by apply ok_refl|done]|].
  case_match; [split; [by apply ok_same|done]|].
  set (c1 := c <| lastFetch := _ |> <| fetchRequests ::= _ |>).
  assert (ok c c1) as Hok1 by by apply ok_same.
  assert (delivered c1 p) as Hd1 by (eapply keeps_delivered; [done| |done]; apply Hok1).
  assert (ok c1 (emit (Sent (leader c1) (packet packetFetch (cid c1) (ballot c1)
    <| Floor := executed c1 + 1 |>)) c1)) as Hok2.
  { eapply emit_ok; [by right; eexists|apply Hok1|done| |done].
    intros prop snap HI. split; [|done]. packet_kind; [lia|]. intros _.
    change (started N (world_of c1 prop snap) (ballot c)). rewrite <- Hbp. by apply delivered_started. }
  unfold send. change (cid (emit _ c1)) with (cid c). rewrite Hid. change (leader c1) with (leader c).
  rewrite (proj2 (Z.eqb_neq (leader c) a)) by lia. split; [by eapply ok_trans|done].
Qed.

(** ** Clients' requests ([submit]) *)
Lemma enqueue_same r c : same c (enqueue r c) ∧ pending (enqueue r c) = pending c ∧ resume (enqueue r c) = resume c.
Proof. unfold enqueue. repeat case_decide; split; done. Qed.

Lemma submit_ok r c : good c → req_ok r → returns (submit rcv r c) (ok c).
Proof.
  intros Hg Hr. unfold submit. destruct (values c !! ID r) as [v|] eqn:Ev.
  { eapply (ok_trans _ (c <| replayReplies ::= λ x, u64 (x + 1) |>)); [by apply ok_same|].
    apply ok_reply; [done|]. by eapply good_same; [| |exact Hg]. }
  set (c1 := c <| pending ::= _ |>).
  assert (ok c c1) as Hok1.
  { apply ok_same; [done| |done]. intros [H1 H2]. split; [|done]. intros i r'. cbn.
    rewrite lookup_insert. case_decide; [by intros [= <-]|apply H1]. }
  assert (ok c1 (enqueue r c1)) as Hok2.
  { destruct (enqueue_same r c1) as (Hs&Hp&Hq). apply ok_same; [done| |apply Hok1].
    unfold requests_ok. by rewrite Hp, Hq. }
  case_match; [exact Hok1|]. case_match eqn:El; [by eapply ok_trans|].
  destruct (good_basic c1 (proj1 Hok1)) as (_&Hid&_&Hb&_).
  eapply returns_ok_trans; [exact Hok1|]. apply send_out_ok; [apply Hok1|lia|].
  eapply emit_ok; [by right; eexists|apply Hok1|done| |done].
  intros prop snap HI. split; [|done]. packet_kind; [apply Hb|].
  intros _ r' ->%list_elem_of_singleton. done.
Qed.

(** ** Accepting proposals ([accept]) *)
Definition acked (c : core) (s : Z) : Prop :=
  ∃ l, log c !! s = Some l ∧ (ballot c ≤ RBallot l ∨ Committed l = true).

Lemma acked_installed c r c' s :
  ballot c' = ballot c → ballot c ≤ RBallot r → installed c r c' → acked c s → acked c' s.
Proof.
  intros Eb Hr (l & Hl & _ & Hlr & Hne) (l' & Hl' & ?). unfold acked. rewrite Eb.
  destruct (decide (s = Slot r)) as [->|Hs].
  - exists l. split; [done|]. destruct Hlr as [->|?]; auto.
  - exists l'. by rewrite Hne.
Qed.

Definition accept_inv (p : Packet) (c0 : core) (st : list Record_ * bool * core) : Prop :=
  ok c0 st.2 ∧ preparing st.2 = false ∧
  ∀ x, x ∈ st.1.1 → acked st.2 (Slot x) ∧ ∃ r, r ∈ Records p ∧ Slot r = Slot x.

Lemma accept_one_ok p c0 r st :
  good c0 → delivered c0 p → Kind p = packetAccept → Ballot p = ballot c0 → r ∈ Records p →
  accept_inv p c0 st → returns (accept_one (Ballot p) r st) (accept_inv p c0).
Proof.
  intros Hg0 Hd Hk Hb Hr. destruct st as [[accepted gap] c]. intros (Hok & Hp & Hacc). cbn in *.
  destruct (delivered_proposal p r c0 Hg0 Hd (or_introl Hk) Hb Hr) as (Erb&_&_).
  assert (∃ (gap' : bool) c1, (if (0 <? Slot r) && bool_decide (log c !! (Slot r - 1) = None)
     then (true, c <| gapAccepts ::= λ x, u64 (x + 1) |>) else (gap, c)) = (gap', c1) ∧
     ok c c1 ∧ log c1 = log c ∧ preparing c1 = false) as (gap' & c1 & -> & Hok1 & El & Hp1).
  { case_match; eexists _, _; (split; [done|]); (split; [|done]);
      [by apply ok_same, Hok|by apply ok_refl, Hok]. }
  assert (ok c0 c1) as Hok01 by by eapply ok_trans.
  assert (Ballot p = ballot c1) as Hb1 by (rewrite Hb; symmetry; apply Hok01).
  assert (r <| RBallot := Ballot p |> = r) as Er by (rewrite Hb, <- Erb; by destruct r).
  rewrite Er. assert (delivered c1 p) as Hd1 by (eapply keeps_delivered; [done| |done]; apply Hok01).
  destruct (delivered_proposal p r c1 (proj1 Hok1) Hd1 (or_introl Hk) Hb1 Hr) as (Erb1&Hprop&_).
  eapply returns_bind; [apply install_ok; [apply Hok1|done..]|].
  intros c2 [Hok2 Hin]. split_and!; cbn.
  - by eapply ok_trans.
  - by apply (keeps_prepared c1), Hp1; apply Hok2.
  - assert (ballot c2 = ballot c1) as Eb by apply Hok2.
    intros x [Hx| ->%list_elem_of_singleton]%elem_of_app.
    + destruct (Hacc x Hx) as [Ha ?]. split; [|done].
      eapply (acked_installed c1); [done| |done|]; [lia|].
      unfold acked in *. rewrite El. assert (ballot c1 = ballot c) as -> by apply Hok1. done.
    + cbn. split; [|by exists r]. destruct Hin as (l & Hl & _ & Hlr & _). exists l. split; [done|].
      destruct Hlr as [->|?]; [left; lia|by right].
Qed.
Context (rcv_ack : ∀ p c, good c → delivered c p → Kind p = packetAck → Ballot p = ballot c →
  returns (rcv p c) (ok c)).

Lemma emitted_sent to p c : emitted (emit (Sent to p) c) p.
Proof. apply (emitted_emit N HN _ p); [by right; eexists|by right]. Qed.

Lemma send_ack_ok to p c :
  ok c (emit (Sent to p) c) → Kind p = packetAck → Ballot p = ballot c → returns (send rcv to p c) (ok c).
Proof.
  intros Hok Hk Hb. unfold send. case_match; [|done].
  eapply returns_ok_trans; [exact Hok|]. apply rcv_ack; [apply Hok| |done..].
  apply emitted_delivered; [apply Hok|apply emitted_sent].
Qed.

Lemma accept_ok p c :
  good c → delivered c p → Kind p = packetAccept → Ballot p = ballot c →
  returns (accept e rcv p c) (ok c).
Proof.
  intros Hg Hd Hk Hb. unfold accept.
  assert (starts p) as Hst by (left; done).
  eapply returns_bind.
  { apply (returns_forEach_all _ (λ r, r ∈ Records p) (accept_inv p c)); [|by apply Forall_forall|].
    - split_and!; [by apply ok_refl|by apply (started_prepared c p)|]. by intros x ?%elem_of_nil.
    - intros r st ??. by apply accept_one_ok. }
  intros [[accepted gap] c1] (Hok1 & Hp1 & Hacc). cbn in *.
  assert (delivered c1 p) as Hd1 by (eapply keeps_delivered; [done| |done]; apply Hok1).
  assert (ballot c1 = ballot c) as Eb1 by apply Hok1.
  eapply returns_ok_trans; [exact Hok1|].
  eapply returns_bind.
  { assert (returns (if gap then requestFetch e rcv c1 else Done c1) (λ c', ok c1 c' ∧ log c' = log c1)) as H.
    { case_match; [apply (requestFetch_ok p); [apply Hok1|done|done|congruence]|].
      split; [apply ok_refl, Hok1|done]. }
    exact H. }
  intros c2 [Hok2 El2]. case_match; [done|]. eapply returns_ok_trans; [exact Hok2|].
  assert (ballot c2 = ballot c1) as Eb2 by apply Hok2.
  assert (delivered c2 p) as Hd2 by (eapply keeps_delivered; [apply Hok1| |done]; apply Hok2).
  destruct (good_basic c2 (proj1 Hok2)) as (_&Hid&_&Hb2&_).
  apply send_ack_ok; [|done..].
  eapply emit_ok; [by right; eexists|apply Hok2|done| |done].
  intros prop snap HI. split.
  - packet_kind; [lia|]. intros _. rewrite Eb2, Eb1, <- Hb. by apply delivered_started.
  - intros _ x Hx. cbn in Hx. destruct (Hacc x Hx) as [(l & Hl & Hlb) (r & Hr & Er)].
    rewrite <- Er in *. split.
    + destruct (delivered_proposal p r c2 (proj1 Hok2) Hd2 (or_introl Hk) ltac:(congruence) Hr) as (_&Hpr&_).
      destruct (Hpr prop snap HI) as (_&_&H'&_). by exists (Req r).
    + exists l. rewrite El2. split; [done|]. rewrite Eb2. done.
Qed.

(** ** Re-sending a suffix ([sendSuffix]) *)
Definition leading (c : core) : Prop := leader c = a ∧ preparing c = false.

Lemma leading_ok c c' : ok c c' → leading c → leading c'.
Proof.
  intros [_ Hk] [Hl Hp]. split; [by rewrite (keeps_leader _ _ Hk)|by apply (keeps_prepared c)].
Qed.

(** A leader may send any entry of its log, restamped with its ballot. *)
Lemma leader_proposal c s r cm prop snap :
  good c → leading c → log c !! s = Some r → (cm = true → Committed r = true) →
  Inv N (world_of c prop snap) →
  proposal_ok N (world_of c prop snap) (ballot c) (mkRecord (Slot r) (ballot c) (Req r) cm).
Proof.
  intros Hg [Hl Hp] Hr Hcm HI. destruct (log_record c s r prop snap HI Hr) as (<-&_&?&?&_&Hch).
  destruct (leader_record c _ r prop snap HI Hl Hp Hr) as [_ Hpr].
  split_and!; [done..|]. cbn. intros Hc. destruct (Hch (Hcm Hc)) as (b0&?&?). exists b0. split; [lia|done].
Qed.

Lemma elem_of_suffix lo hi c r :
  r ∈ suffix_records lo hi c → ∃ s r0, log c !! s = Some r0 ∧
    r = mkRecord (Slot r0) (ballot c) (Req r0) (Committed r0).
Proof.
  unfold suffix_records. rewrite list_elem_of_omap. intros (s & _ & Hs).
  apply fmap_Some in Hs as (r0 & ? & ->). by exists s, r0.
Qed.

Lemma leader_emit_ok ev p c :
  carries ev p → good c → leading c → From p = cid c → Ballot p = ballot c →
  (Kind p = packetAccept ∨ Kind p = packetCommit ∨ Kind p = packetReady) →
  (∀ r, r ∈ Records p → (Kind p = packetCommit → Committed r = true) ∧
    ∃ s r0, log c !! s = Some r0 ∧ r = mkRecord (Slot r0) (ballot c) (Req r0) (Committed r) ∧
      (Committed r = true → Committed r0 = true)) →
  ok c (emit ev c).
Proof.
  intros Hev Hg Hld Hf Hb Hk Hr. destruct (good_basic c Hg) as (_&Hid&_&?&Hmod&_).
  pose proof Hld as [Hl Hp].
  eapply emit_ok; [done..| |intros E; rewrite E in Hk; by destruct_or? Hk].
  intros prop snap HI. split; [|intros E; rewrite E in Hk; by destruct_or? Hk].
  assert (started N (world_of c prop snap) (ballot c)) as Hst by by apply started_leader.
  split_and!; try lia; try (intros E; rewrite E in Hk; by destruct_or? Hk);
    try (intros [E|E]; rewrite E in Hk; by destruct_or? Hk).
  - intros _. rewrite Hb, Hmod. split_and!; [done..|]. intros r Hin.
    destruct (Hr r Hin) as [Hc (s & r0 & Hs & -> & Hcm)]. split; [|done].
    by eapply leader_proposal.
  - intros _. rewrite Hb, Hmod. done.
Qed.
Lemma send_out_eq to p c : cid c = a → to ≠ a → send rcv to p c = Done (emit (Sent to p) c).
Proof. intros Hid Hto. unfold send. change (cid (emit _ c)) with (cid c). rewrite Hid.
  by rewrite (proj2 (Z.eqb_neq to a) Hto). Qed.

Lemma suffix_page_ok to hi fetch lo c :
  good c → leading c → returns (suffix_page e rcv to hi fetch lo c) (ok c).
Proof.
  intros Hg Hld. destruct (good_basic c Hg) as (_&Hid&_). unfold suffix_page.
  pose proof (elem_of_suffix lo hi c) as Hsuf. set (recs := suffix_records lo hi c) in *.
  case_match; [by apply ok_refl|]. destruct (fetch && _) eqn:Ef.
  - apply andb_true_iff in Ef as [_ Hto%negb_true_iff%Z.eqb_neq].
    rewrite send_out_eq by lia. cbn [mbind outcome_bind].
    set (c1 := emit _ c). assert (ok c c1) as Hok1.
    { eapply leader_emit_ok; [by right; eexists|done..|by left|]. cbn. intros r Hr. split; [done|].
      destruct (Hsuf r Hr) as (s & r0 & ? & ->). by exists s, r0. }
    case_match; [exact Hok1|]. rewrite send_out_eq by (try done; lia).
    eapply ok_trans; [exact Hok1|].
    eapply leader_emit_ok; [by right; eexists|apply Hok1|by eapply leading_ok|done|done|by right; left|].
    intros r [Hc Hr]%list_elem_of_filter. split; [done|].
    destruct (Hsuf r Hr) as (s & r0 & ? & ->). by exists s, r0.
  - set (p := packet _ _ _ <| Records := _ |>). set (c1 := broadcast p c).
    assert (ok c c1) as Hok1.
    { eapply leader_emit_ok; [by left|done..|by left|]. cbn. intros r (r1 & -> & Hr)%list_elem_of_fmap.
      split; [done|]. destruct (Hsuf r1 Hr) as (s & r0 & ? & ->). by exists s, r0. }
    eapply returns_ok_trans; [exact Hok1|]. apply accept_ok; [apply Hok1| |done..].
    apply emitted_delivered; [apply Hok1|]. apply (emitted_emit N HN _ p); [by left|by right].
Qed.

Lemma sendSuffix_ok to start fetch c :
  good c → leading c → returns (sendSuffix e rcv to start fetch c) (ok c).
Proof.
  intros Hg Hld. unfold sendSuffix.
  eapply (returns_forEach_all _ (λ _, True) (ok c)); [by apply ok_refl|by apply Forall_true|].
  intros lo c1 _ Hok1. eapply returns_ok_trans; [exact Hok1|].
  apply suffix_page_ok; [apply Hok1|by eapply leading_ok].
Qed.

(** ** Activation and election *)
Lemma resumable c : good c → requests_ok (schedulePending e c).
Proof.
  intros [H1 H2]%good_requests. split; [done|]. intros r ([k r'] & -> & Hr)%list_elem_of_fmap.
  apply elem_of_range_order in Hr. by eapply H1.
Qed.

Lemma schedulePending_ok c : good c → ok c (schedulePending e c).
Proof. intros Hg. apply ok_same; [done| |done]. intros _. by apply resumable. Qed.

Lemma activate_ok c : good c → leading c → ok c (activate e c).
Proof.
  intros Hg Hld. unfold activate. set (c1 := c <| active := true |>).
  assert (ok c c1) as Hok1 by by apply ok_same. set (p := packet _ _ _ <| High := _ |> <| Floor := _ |>).
  assert (ok c1 (broadcast p c1)) as Hok2.
  { eapply leader_emit_ok; [by left|apply Hok1|done|done|done|by right; right|]. by intros r ?%elem_of_nil. }
  eapply ok_trans; [exact Hok1|]. eapply ok_trans; [exact Hok2|]. apply schedulePending_ok, Hok2.
Qed.

Lemma keeps_elected c : keeps c (elected e c).
Proof.
  destruct (elected_same e c) as ([_ _ ? ? Hp _ He _ _ _ _ ? ? _ _ _ Ho] & _).
  generalize dependent (elected e c). intros c1 **. cbn in *. apply keeps_exec; try done; [lia|]. intros p. unfold emitted. by rewrite Ho.
Qed.

Lemma elect_ok c :
  good c → preparing c = true → a ∈ promises c → quorum c ≤ Z.of_nat (size (promises c)) →
  returns (elect e rcv c) (λ c', ok c c' ∧ preparing c' = false).
Proof.
  intros Hg Hp Ha Hq. rewrite elect_elected.
  destruct (good_basic c Hg) as (_&_&_&_&_&_&Hl).
  assert (ok c (elected e c)) as Hok1 by (split; [by apply good_elect|apply keeps_elected]).
  assert (leading (elected e c)) as Hld1.
  { destruct (elected_same e c) as ([_ _ Hl' _ Hp' _ _ _ _ _ _ _ _ _ _ _ _] & _).
    split; [|exact Hp']. rewrite <- Hl by done. exact Hl'. }
  set (c1 := elected e c) in *. clearbody c1.
  eapply returns_bind; [apply sendSuffix_ok; [apply Hok1|done]|]. intros c2 Hok2.
  assert (leading c2) as Hld2 by by eapply leading_ok.
  assert (ok c c2) as Hok by by eapply ok_trans. case_match; [|by split; [|apply Hld2]].
  assert (ok c2 (activate e c2)) as Hok3 by (apply activate_ok; [apply Hok2|done]).
  split; [by eapply ok_trans|]. by apply (leading_ok _ _ Hok3).
Qed.

(** ** Promises ([promiseReply]) *)
Definition promise_counted (p : Packet) (c c' : core) : Prop :=
  preparing c' = true →
  pages c' = pages (add_page p c) ∧
  (complete_pages p c (default ∅ (pages (add_page p c) !! From p)) = true → From p ∈ promises c').

Lemma keeps_gather c c' :
  same (c <| pages := pages c' |> <| promises := promises c' |>) c' → promises c ⊆ promises c' → keeps c c'.
Proof.
  intros [_ _ ? ? Hp _ He _ _ _ _ ? ? _ _ _ Ho] Hsub.
  change (executed c' = executed c) in He. change (preparing c' = preparing c) in Hp.
  change (out c' = out c) in Ho. split; try done; [split; lia|congruence|].
  intros q. unfold emitted. by rewrite Ho.
Qed.

Lemma promiseReply_ok p c :
  good c → delivered c p → Kind p = packetPromise → Ballot p = ballot c →
  (preparing c = true → a ∈ promises c ∨ From p = a) →
  returns (promiseReply e rcv p c) (λ c', ok c c' ∧ promise_counted p c c').
Proof.
  intros Hg Hd Hk Hb Ha. unfold promiseReply.
  destruct (good_basic c Hg) as (_&Hid&_&_&_&_&Hl).
  pose proof Hg as (prop & snap & HI & _)%good_node.
  destruct (promise_packet N M cs a c p prop snap HI Hd Hk Hb) as (S & _ & HPg & Hp).
  assert (Pages p = snap_pages S) as EP by by rewrite Hp.
  destruct (_ || _) eqn:Eg.
  { split; [by apply ok_refl|]. intros Hpr. rewrite !orb_true_iff, !negb_true_iff in Eg.
    rewrite (Hl Hpr), Hid, Hpr in Eg. lia. }
  rewrite !orb_false_iff, !negb_false_iff in Eg. destruct Eg as [[[[Hpr _] _] _] _].
  set (ps := <[Page p := p]> _). change (c <| pages ::= _ |>) with (add_page p c).
  set (c1 := add_page p c).
  assert (ok c c1) as Hok1 by (split; [by apply good_pages|by apply keeps_gather]).
  assert (pages c1 !! From p = Some ps) as Hps by apply lookup_insert_eq.
  assert (delivered c1 p) as Hd1 by (eapply keeps_delivered; [done| |done]; apply Hok1).
  unfold promise_counted. fold c1. rewrite Hps. cbn [default from_option].
  change (complete_pages p c (id ps)) with (complete_pages p c1 ps).
  change (complete_pages p c ps) with (complete_pages p c1 ps).
  destruct (complete_pages p c1 ps) eqn:Ec; cbn [negb]; [|split; [done|]; intros _; by split].
  set (c2 := c1 <| promises ::= union {[From p]} |>).
  assert (ok c1 c2) as Hok2.
  { split; [by eapply good_promises; [apply Hok1|..]|].
    apply keeps_gather; [done|]. cbn. set_solver. }
  assert (From p ∈ promises c2) as Hin by (cbn; set_solver).
  assert (ok c c2) as Hok by by eapply ok_trans.
  case_match eqn:Eq; [split; [done|]; intros _; by split|].
  eapply returns_mono; [apply (elect_ok c2); [apply Hok2|done| |lia]|].
  - destruct (Ha Hpr) as [?| <-]; [cbn; set_solver|done].
  - intros c3 [Hok3 Hp3]. split; [by eapply ok_trans|]. rewrite Hp3. discriminate.
Qed.
(** ** Sending a snapshot ([promise]) *)
Context (rcv_promise : ∀ p c, good c → delivered c p → Kind p = packetPromise → Ballot p = ballot c →
  (preparing c = true → a ∈ promises c ∨ From p = a) →
  returns (rcv p c) (λ c', ok c c' ∧ promise_counted p c c')).

Lemma complete_pages_intro i b S j (c : core) ps :
  (∀ k, 0 ≤ k < snap_pages S → ps !! k = Some (snap_page i b S k)) →
  (∀ k v, ps !! k = Some v → 0 ≤ k < snap_pages S) → sfloor S = executed c + 1 →
  complete_pages (snap_page i b S j) c ps = true.
Proof.
  intros Hall Hdom Hfl. unfold complete_pages. rewrite andb_true_iff, forallb_forall. cbn. split.
  - assert (dom ps = ReplicaSet.ids (snap_pages S)) as Hd.
    { apply set_eq. intros k. rewrite ReplicaSet.elem_of_ids, elem_of_dom. split.
      - intros [v Hv]. by eapply Hdom.
      - intros Hk. rewrite Hall by done. by eexists. }
    pose proof (page_count_pos (length (svals S))).
    rewrite <- (size_dom (D := gset Z)), Hd, ReplicaSet.size_ids by (unfold snap_pages; lia).
    apply Z.eqb_refl.
  - intros k Hk%list_elem_of_In%elem_of_seqZ. rewrite Hall by lia. cbn.
    rewrite Hfl, !Z.eqb_refl. done.
Qed.

Lemma page_ok c q :
  good c → frozenBallot c = ballot c → q ∈ frozen c →
  Kind q = packetPromise ∧ From q = a ∧ Ballot q = ballot c ∧
  ∀ prop snap, Inv N (world_of c prop snap) → packet_ok N (world_of c prop snap) a c q.
Proof.
  intros Hg Hfb Hq. assert (frozen c ≠ []) as Hne by (intros E; rewrite E in Hq; by apply elem_of_nil in Hq).
  assert (∀ prop snap, Inv N (world_of c prop snap) → ∃ S k, snap a (ballot c) = Some S ∧
    0 ≤ k < snap_pages S ∧ q = snap_page a (ballot c) S k) as H.
  { intros prop snap HI. pose proof (inv_node _ _ HI a c (lookup_insert_eq _ _ _)) as Hc.
    destruct (ok_frozen _ _ _ _ Hc Hne) as (S & HS & Hf). rewrite Hfb in HS, Hf. exists S.
    rewrite Hf in Hq. apply list_elem_of_fmap in Hq as (k & -> & Hk%elem_of_seqZ).
    exists k. split_and!; [done|lia..|done]. }
  destruct (good_basic c Hg) as (_&_&_&Hb&_).
  pose proof Hg as (prop & snap & HI & _)%good_node. destruct (H _ _ HI) as (S & k & _ & _ & ->).
  split_and!; [done..|]. intros prop' snap' HI'. destruct (H _ _ HI') as (S' & k' & HS & Hk & ->).
  packet_kind; [lia|]. intros _. by exists S'.
Qed.

Lemma send_page_ok to q c :
  good c → frozenBallot c = ballot c → q ∈ frozen c →
  (preparing c = true → a ∈ promises c ∨ to = a) →
  returns (send rcv to q c) (λ c', ok c c' ∧ (to = a → promise_counted q c c')).
Proof.
  intros Hg Hfb Hq Ha. destruct (page_ok c q Hg Hfb Hq) as (Hk&Hf&Hb&Hok).
  destruct (good_basic c Hg) as (_&Hid&_).
  assert (ok c (emit (Sent to q) c)) as Hok1.
  { eapply emit_ok; [by right; eexists|done|done| |intros E; by rewrite Hk in E].
    intros prop snap HI. split; [by apply Hok|]. intros E. by rewrite Hk in E. }
  unfold send. change (cid (emit _ c)) with (cid c). rewrite Hid. case_match eqn:E.
  - eapply returns_mono; [apply rcv_promise; [apply Hok1| |done|done|]|].
    + apply emitted_delivered; [apply Hok1|apply emitted_sent].
    + intros _. by right.
    + intros c' [Hok2 Hcnt]. split; [by eapply ok_trans|done].
  - split; [done|]. intros ->. by rewrite Z.eqb_refl in E.
Qed.
Definition self_pages (l : list Packet) (c : core) : Prop :=
  ∀ q, q ∈ l → default ∅ (pages c !! a) !! Page q = Some q.

(** Once every page of its own snapshot is in, a candidate counts itself. *)
Lemma self_complete S c x :
  good c → preparing c = true → sfloor S = executed c + 1 →
  self_pages (snap_page a (ballot c) S <$> seqZ 0 (snap_pages S)) c →
  complete_pages (snap_page a (ballot c) S x) c (default ∅ (pages c !! a)) = true.
Proof.
  intros Hg Hp Hfl Hall.
  assert (∀ k, 0 ≤ k < snap_pages S →
    default ∅ (pages c !! a) !! k = Some (snap_page a (ballot c) S k)) as Hk.
  { intros k Hk. apply (Hall (snap_page a (ballot c) S k)), list_elem_of_fmap. exists k.
    split; [done|]. apply elem_of_seqZ. lia. }
  apply complete_pages_intro; [done| |done]. intros k v Hv.
  pose proof (page_count_pos (length (svals S))) as Hpos.
  destruct (pages c !! a) as [ps|] eqn:Eps; [|cbn in Hv; by rewrite lookup_empty in Hv]. cbn in *.
  pose proof Hg as (prop & snap & HI & Hc)%good_node.
  destruct (ok_gather _ _ _ _ Hc Hp) as [Hg1 _].
  destruct (Hg1 _ _ _ _ Eps Hv) as (S1 & HS1 & ? & _).
  specialize (Hk 0 ltac:(unfold snap_pages; lia)).
  destruct (Hg1 _ _ _ _ Eps Hk) as (S0 & HS0 & _ & E). assert (S1 = S0) as -> by congruence.
  assert (snap_pages S = snap_pages S0) as -> by (apply (f_equal Pages) in E; exact E). done.
Qed.

Lemma page_of_list i b S q x (l : list Z) :
  q ∈ snap_page i b S <$> l → x ∈ snap_page i b S <$> l → Page q = Page x → q = x.
Proof. intros (k & -> & _)%list_elem_of_fmap (k' & -> & _)%list_elem_of_fmap. cbn. by intros ->. Qed.

Lemma send_pages_ok to S c :
  good c → frozenBallot c = ballot c →
  frozen c = snap_page a (ballot c) S <$> seqZ 0 (snap_pages S) →
  (to = a → preparing c = true → sfloor S = executed c + 1) →
  (preparing c = true → a ∈ promises c ∨ to = a) →
  returns (forEach (send rcv to) (frozen c) c)
    (λ c', ok c c' ∧ (preparing c' = true → a ∈ promises c')).
Proof.
  intros Hg Hfb Hfr Hfl Ha.
  set (I := λ (rest : list Packet) (c' : core), ok c c' ∧ ∃ dn, frozen c = dn ++ rest ∧
    (to = a → preparing c' = true → self_pages dn c' ∧ (rest = [] → dn ≠ [] → a ∈ promises c'))).
  eapply returns_mono.
  { apply (returns_forEach _ I).
    - split; [by apply ok_refl|]. exists []. split; [done|]. intros _ _. split; [|done].
      by intros q ?%elem_of_nil.
    - intros x rest c1 (Hok1 & dn & Hdn & Hself).
      assert (ballot c1 = ballot c ∧ frozen c1 = frozen c ∧ frozenBallot c1 = frozenBallot c)
        as (Eb & Ef & Efb) by (split_and!; apply Hok1).
      assert (x ∈ frozen c) as Hx by (rewrite Hdn; set_solver).
      eapply returns_mono.
      { apply (send_page_ok to x c1); [apply Hok1|congruence|by rewrite Ef|].
        intros Hp. destruct (Ha (keeps_preparing _ _ (proj2 Hok1) Hp)) as [Hin|?]; [left|by right].
        by apply (keeps_promises _ _ (proj2 Hok1)). }
      intros c2 [Hok2 Hcnt]. split; [by eapply ok_trans|]. exists (dn ++ [x]).
      split; [by rewrite Hdn, <- app_assoc|]. intros Hto Hp2.
      pose proof (keeps_preparing _ _ (proj2 Hok2) Hp2) as Hp1.
      destruct (Hself Hto Hp1) as [Hdone _]. destruct (Hcnt Hto Hp2) as [Hpg Hcomp].
      assert (From x = a) as Hxa.
      { rewrite Hfr in Hx. by apply list_elem_of_fmap in Hx as (k & -> & _). }
      assert (default ∅ (pages c2 !! a) = <[Page x := x]> (default ∅ (pages c1 !! a))) as Eps.
      { rewrite Hpg. unfold add_page; cbn. by rewrite Hxa, lookup_insert_eq. }
      assert (self_pages (dn ++ [x]) c2) as Hself2.
      { intros q Hq. rewrite Eps, lookup_insert. case_decide as Eq.
        - f_equal. symmetry. rewrite Hfr in Hdn, Hx. eapply page_of_list; [|exact Hx|done].
          rewrite Hdn. set_solver.
        - apply Hdone. apply elem_of_app in Hq as [?| ->%list_elem_of_singleton]; done. }
      split; [done|]. intros -> _. rewrite Hxa in Hcomp. apply Hcomp.
      rewrite <- Hpg. assert (executed c2 = executed c1 ∧ executed c1 = executed c) as [Ee2 Ee1].
      { pose proof (keeps_preparing _ _ (proj2 Hok1) Hp1) as Hp0.
        split; [by apply (keeps_executed _ _ (proj2 Hok2))|by apply (keeps_executed _ _ (proj2 Hok1))]. }
      replace (complete_pages x c1) with (complete_pages x c2) by (unfold complete_pages; by rewrite Ee2).
      rewrite Hfr in Hx. apply list_elem_of_fmap in Hx as (k & -> & _).
      assert (ballot c2 = ballot c) as Eb2 by (rewrite <- Eb; apply Hok2).
      rewrite <- Eb2. apply self_complete; [apply Hok2|done| |].
      + rewrite Ee2, Ee1. apply Hfl; [done|]. by apply (keeps_preparing _ _ (proj2 Hok1)).
      + rewrite Eb2, <- Hfr, Hdn. done. }
  intros c' (Hok & dn & Hdn & Hself). split; [done|]. intros Hp. rewrite app_nil_r in Hdn.
  pose proof (keeps_preparing _ _ (proj2 Hok) Hp) as Hp0.
  destruct (Ha Hp0) as [Hin|Hto]; [by apply (keeps_promises _ _ (proj2 Hok))|].
  destruct (Hself Hto Hp) as [_ H]. apply H; [done|].
  rewrite <- Hdn, Hfr. pose proof (page_count_pos (length (svals S))).
  rewrite seqZ_cons by (unfold snap_pages; lia). done.
Qed.
(** Between events a candidate has promised to itself. *)
Definition self_promised (c : core) : Prop := preparing c = true → a ∈ promises c.
Definition settled (c : core) : Prop := good c ∧ self_promised c.

Lemma ok_settled c c' : ok c c' → self_promised c → settled c'.
Proof.
  intros [Hg Hk] Hs. split; [done|]. intros Hp. apply (keeps_promises _ _ Hk Hp), Hs.
  by apply (keeps_preparing _ _ Hk).
Qed.

Lemma delivered_prepared p c prop snap :
  Inv N (world_of c prop snap) → delivered c p → Kind p = packetPrepare →
  prepared N (world_of c prop snap) (Ballot p) (Floor p) ∧
  (From p = a → Ballot p = ballot c → preparing c = true → Floor p = executed c + 1).
Proof.
  intros HI Hd Hk. destruct (delivered_packet_ok N M cs a c p prop snap HI Hd) as (_&d'&Hd'&Hp&_).
  destruct Hp as (_&_&Hpr&_). specialize (Hpr Hk). destruct Hpr as [Hmod Hfl].
  destruct Hd as (d & Hd & Hem). assert (d' = d) as -> by congruence. split.
  - exists d, p. rewrite Hmod. done.
  - intros E. rewrite E, lookup_insert_eq in Hd. by injection Hd as <-.
Qed.

Lemma promise_ok p c :
  good c → delivered c p → Kind p = packetPrepare → Ballot p = ballot c →
  (preparing c = true → a ∈ promises c ∨ From p = a) →
  returns (promise rcv p c) settled.
Proof.
  intros Hg Hd Hk Hb Ha. unfold promise. destruct (good_basic c Hg) as (_&Hid&_).
  case_match eqn:E.
  - rewrite !andb_true_iff, negb_true_iff in E. destruct E as [[Hne Hfb] Hff].
    assert (frozenBallot c = ballot c) as Hfb' by lia.
    pose proof Hg as (prop & snap & HI & Hc)%good_node.
    assert (frozen c ≠ []) as Hne' by (intros E; by rewrite E in Hne).
    destruct (ok_frozen _ _ _ _ Hc Hne') as (S & HS & Hfr). rewrite Hfb' in HS, Hfr.
    eapply returns_mono; [apply (send_pages_ok (From p) S)|]; try done.
    + intros Hfp Hp. destruct (delivered_prepared p c prop snap HI Hd Hk) as [_ Hfl].
      destruct (ok_snaps _ _ _ _ Hc _ _ HS) as (_&_&_&_&Hcur).
      destruct (Hcur eq_refl) as (_&_&<-&_). rewrite <- Hfl by done. lia.
    + intros c' [[Hg' _] Hs]. by split.
  - set (S := snapshot_of (Floor p) c).
    assert (promise_page (Floor p) (promise_values (Floor p) c) c <$>
      seqZ 0 (page_count (length (promise_values (Floor p) c))) =
      snap_page a (ballot c) S <$> seqZ 0 (snap_pages S)) as Epg
      by (unfold promise_page; by rewrite Hid).
    cbv zeta. rewrite Epg, Hb. set (c1 := _ <| frozenFloor := _ |>).
    assert (good c1) as Hg1.
    { apply (good_snapshot N HN M cs a (Floor p) c); [done| |].
      - intros prop snap HI. rewrite <- Hb. by apply delivered_prepared.
      - intros (Hne & Hfb & Hff). rewrite !andb_false_iff, negb_false_iff in E.
        destruct E as [[E|E]|E]; [|lia..]. destruct (frozen c); done. }
    change (snap_page a (ballot c) S <$> seqZ 0 (snap_pages S)) with (frozen c1).
    eapply returns_mono; [apply (send_pages_ok (From p) S c1)|]; try done.
    + intros Hfp Hp. pose proof Hg as (prop & snap & HI & _)%good_node.
      change (Floor p = executed c + 1). by eapply delivered_prepared.
    + intros c' [[Hg' _] Hs]. by split.
Qed.
(** ** The dispatcher ([receive]) *)
Lemma delivered_forward p r c :
  good c → delivered c p → Kind p = packetForward → r ∈ Requests p → req_ok r.
Proof.
  intros (prop & snap & HI & _)%good_node Hd Hk Hr.
  destruct (delivered_packet_ok N M cs a c p prop snap HI Hd) as (_&d&_&Hp&_).
  destruct Hp as (_&_&_&_&_&_&_&HF). by apply HF.
Qed.

Lemma follow_settled p c :
  good c → delivered c p → Kind p = packetPrepare ∨ Kind p = packetReady → ballot c < Ballot p →
  settled (follow p c).
Proof.
  intros Hg Hd Hk Hb. pose proof Hg as (prop & snap & HI & Hc)%good_node.
  destruct (delivered_packet_ok N M cs a c p prop snap HI Hd) as (Hfrom&d&Hd'&Hp&HM).
  destruct Hp as (_&Hbp&HP&_&_&HR&_). split; [|discriminate].
  apply (good_follow N HN M cs a); [done|lia| | |done].
  - destruct Hk as [Hk|Hk]; [by apply HP|by apply HR].
  - intros E. rewrite E, lookup_insert_eq in Hd'. injection Hd' as <-. lia.
Qed.

Lemma settled_same c c' : same c c' → (requests_ok c → requests_ok c') → settled c → settled c'.
Proof. intros Hs Hr [Hg Hself]. by eapply ok_settled; [apply (ok_same c)|]. Qed.

Lemma commit_one_ok p c0 r c :
  good c0 → delivered c0 p → Kind p = packetCommit → Ballot p = ballot c0 → r ∈ Records p →
  ok c0 c → returns (commit_one r c) (ok c0).
Proof.
  intros Hg0 Hd Hk Hb Hr Hok. unfold commit_one.
  assert (delivered c p) as Hd1 by (eapply keeps_delivered; [done| |done]; apply Hok).
  assert (Ballot p = ballot c) as Hb1 by (rewrite Hb; symmetry; apply Hok).
  destruct (delivered_proposal p r c (proj1 Hok) Hd1 (or_intror Hk) Hb1 Hr) as (Erb&Hprop&Hcm).
  assert (preparing c = false) as Hp by (apply (started_prepared c p); [apply Hok|done|by right; left|done]).
  eapply returns_bind; [apply install_ok; [apply Hok|done..]|].
  intros c1 [Hok1 (l & Hl & _ & Hlr & _)]. rewrite Hl. eapply ok_trans; [exact Hok|].
  eapply ok_trans; [exact Hok1|].
  assert (l <| Committed := true |> = l) as ->.
  { destruct Hlr as [->|Hc]; [specialize (Hcm Hk)|]; [destruct r|destruct l]; cbn in *; by subst. }
  apply ok_same; [|done|apply Hok1]. split; try done. cbn. by apply insert_id.
Qed.

Lemma receive_commit_ok p c :
  good c → delivered c p → Kind p = packetCommit → Ballot p = ballot c →
  returns (c ← forEach commit_one (Records p) c; apply c) (ok c).
Proof.
  intros Hg Hd Hk Hb. eapply returns_bind.
  { apply (returns_forEach_all _ (λ r, r ∈ Records p) (ok c)); [by apply ok_refl|by apply Forall_forall|].
    intros r c1 ??. by apply (commit_one_ok p). }
  intros c1 Hok. eapply returns_ok_trans; [exact Hok|].
  eapply returns_mono; [apply apply_ok; [apply Hok|]|tauto].
  apply (keeps_prepared c); [apply Hok|]. apply (started_prepared c p); [done..|by right; left|done].
Qed.

Lemma receive_ready_ok p c :
  good c → delivered c p → Kind p = packetReady → Ballot p = ballot c →
  returns (let c := if (Floor p =? 1) && negb (active c)
                    then schedulePending e (c <| active := true |>) else c in
           if executed c <? High p then requestFetch e rcv c else Done c) (ok c).
Proof.
  intros Hg Hd Hk Hb.
  assert (ok c (if (Floor p =? 1) && negb (active c)
                then schedulePending e (c <| active := true |>) else c)) as Hok.
  { case_match; [|by apply ok_refl]. apply ok_same; [done| |done]. intros _.
    apply resumable. by eapply good_same; [| |exact Hg]. }
  cbv zeta. generalize dependent (if (Floor p =? 1) && negb (active c)
    then schedulePending e (c <| active := true |>) else c). intros c1 Hok.
  case_match; [|exact Hok].
  eapply returns_ok_trans; [exact Hok|]. eapply returns_mono; [apply (requestFetch_ok p)|tauto].
  - apply Hok.
  - eapply keeps_delivered; [done| |done]. apply Hok.
  - by right; right; left.
  - rewrite Hb. symmetry. apply Hok.
Qed.

(** The part of [receive] after the ballot test. *)
Lemma receive_current_ok p c :
  settled c → delivered c p → Kind p ≠ packetPrepare → Ballot p = ballot c → 
  returns (
    if Kind p =? packetPromise then promiseReply e rcv p c
    else if Kind p =? packetAccept then if From p =? leader c then accept e rcv p c else Done c
    else if Kind p =? packetAck then ack p c
    else if Kind p =? packetCommit then
      if negb (From p =? leader c) then Done c else
      c ← forEach commit_one (Records p) c; apply c
    else if Kind p =? packetReady then
      if negb (From p =? leader c) then Done c else
      let c := if (Floor p =? 1) && negb (active c)
               then schedulePending e (c <| active := true |>) else c in
      if executed c <? High p then requestFetch e rcv c else Done c
    else if Kind p =? packetFetch then
      if leader c =? cid c then sendSuffix e rcv (From p) (Floor p) true c else Done c
    else if Kind p =? packetForward then
      if (cid c =? leader c) && active c then forEach (submit rcv) (Requests p) c else Done c
    else Done c) (ok c).
Proof.
  intros [Hg Hs] Hd Hnp Hb. destruct (good_basic c Hg) as (_&Hid&_).
  case_match eqn:E1. { eapply returns_mono; [apply promiseReply_ok; [done..|lia|done|]|tauto]. auto. }
  case_match eqn:E2. { case_match; [|by apply ok_refl]. apply accept_ok; try done; lia. }
  case_match eqn:E3. { apply ack_ok; try done; lia. }
  case_match eqn:E4. { case_match; [by apply ok_refl|]. apply receive_commit_ok; try done; lia. }
  case_match eqn:E5. { case_match; [by apply ok_refl|]. apply receive_ready_ok; try done; lia. }
  case_match eqn:E6.
  { case_match; [|by apply ok_refl]. apply sendSuffix_ok; [done|]. split; [lia|].
    apply (started_prepared c p); [done..| |done]. right; right; right; left. lia. }
  case_match eqn:E7; [|by apply ok_refl]. case_match; [|by apply ok_refl].
  apply (returns_forEach_all _ (λ r, r ∈ Requests p) (ok c)); [by apply ok_refl|by apply Forall_forall|].
  intros r c1 Hr Hok. eapply returns_ok_trans; [exact Hok|]. apply submit_ok; [apply Hok|].
  eapply delivered_forward; [done..|lia|done].
Qed.

Lemma settled_inactive c : settled c → settled (c <| active := false |>).
Proof. intros H. by eapply settled_same; [| |exact H]. Qed.

Lemma receive_body_ok p c :
  settled c → delivered c p → returns (receive_body e rcv p c) settled.
Proof.
  intros Hs Hd. unfold receive_body. case_match; [exact Hs|].
  case_match eqn:Ek.
  - case_match eqn:Eb; [exact Hs|]. cbv zeta.
    assert (∃ c1, (if ballot c <? Ballot p then follow p c else c) = c1 ∧ settled c1 ∧
      ballot c1 = Ballot p ∧ ∀ q, emitted c q → emitted c1 q) as (c1 & -> & Hs1 & Eb1 & Hem).
    { eexists. split; [done|]. case_match; [|split_and!; [done|lia|done]].
      split_and!; [|done..]. apply follow_settled; [apply Hs|done|left; lia|lia]. }
    apply settled_inactive in Hs1. apply promise_ok; [apply Hs1| |lia|done|].
    + eapply keeps_delivered; [apply Hs| |done]. exact Hem.
    + intros Hp. left. by apply Hs1.
  - cbv zeta.
    assert (∃ c1, (if (Kind p =? packetReady) && (ballot c <? Ballot p)
       then (follow p c) <| active := false |> else c) = c1 ∧ settled c1 ∧
      ∀ q, emitted c q → emitted c1 q) as (c1 & -> & Hs1 & Hem).
    { eexists. split; [done|]. case_match eqn:E; [|done]. apply andb_true_iff in E as [??].
      split; [|done]. apply settled_inactive, follow_settled; [apply Hs|done|right; lia|lia]. }
    case_match eqn:Eb; [exact Hs1|].
    eapply returns_mono; [apply receive_current_ok; [done| |lia|lia]|].
    + eapply keeps_delivered; [apply Hs| |done]. exact Hem.
    + intros c2 Hok. eapply ok_settled; [exact Hok|apply Hs1].
Qed.
End Handlers.

(** ** Tying the knot: one level for acknowledgements, two for promises and
    three for everything *)
Lemma receive_ack_ok f e p c :
  good c → delivered c p → Kind p = packetAck → Ballot p = ballot c →
  returns (receive (S f) e p c) (ok c).
Proof.
  intros Hg Hd Hk Hb. cbn [receive]. unfold receive_body. rewrite Hk, Hb, Z.eqb_refl.
  case_match; [by apply ok_refl|]. by apply ack_ok.
Qed.

Lemma receive_promise_ok f e p c :
  good c → delivered c p → Kind p = packetPromise → Ballot p = ballot c →
  (preparing c = true → a ∈ promises c ∨ From p = a) →
  returns (receive (S (S f)) e p c) (λ c', ok c c' ∧ promise_counted p c c').
Proof.
  intros Hg Hd Hk Hb Ha. pose proof Hg as (prop & snap & HI & _)%good_node.
  destruct (delivered_packet_ok N M cs a c p prop snap HI Hd) as ([H1 H2]&_).
  destruct (good_basic c Hg) as (Hn&_).
  change (receive (S (S f)) e p c) with (receive_body e (receive (S f) e) p c).
  unfold receive_body. rewrite Hk, Hb, Z.eqb_refl, Hn.
  rewrite (proj2 (Z.ltb_ge _ _) H1), (proj2 (Z.leb_gt _ _) H2).
  apply promiseReply_ok; try done. intros. by apply receive_ack_ok.
Qed.

(** Three levels of reentrancy suffice for any packet. *)
Lemma receive_ok f e p c :
  settled c → delivered c p → returns (receive (S (S (S f))) e p c) settled.
Proof.
  intros Hs Hd. change (receive (S (S (S f))) e p c) with (receive_body e (receive (S (S f)) e) p c).
  apply receive_body_ok; [| |done..]; intros.
  - by apply receive_ack_ok.
  - by apply receive_promise_ok.
Qed.

(** ** Timer events ([tick]) *)
Section Tick.
Context (e : env) (f : nat).
Abbreviation fuel := (S (S (S f))).

Lemma next_ballot_spec n id b :
  0 < n → 0 ≤ id < n → 0 ≤ b → b + 2 * n < 2 ^ 63 →
  b < next_ballot n id b ≤ b + 2 * n ∧ next_ballot n id b `mod` n = id.
Proof.
  intros Hn Hid Hb Hmax. unfold next_ballot. rewrite Z.quot_div_nonneg by lia.
  pose proof (Z.div_mod b n ltac:(lia)). pose proof (Z.mod_pos_bound b n ltac:(lia)).
  assert (0 ≤ b / n) by (apply Z.div_pos; lia).
  assert (b / n ≤ b) by (apply Z.div_le_upper_bound; nia).
  rewrite (wrapS_id 64 (b / n + 1)) by lia. rewrite (wrapS_id 64 ((b / n + 1) * n)) by nia.
  rewrite wrapS_id by nia. split; [nia|].
  rewrite Z.add_comm, Z.mod_add by lia. apply Z.mod_small. lia.
Qed.

(** A candidate (re)sends its prepare, itself included. *)
Lemma prepare_ok c :
  good c → preparing c = true →
  returns (receive fuel e (prepare_packet c) (broadcast (prepare_packet c) c)) settled.
Proof.
  intros Hg Hp. destruct (good_basic c Hg) as (Hn&Hid&_&Hb&Hmod&_&Hl). specialize (Hl Hp).
  set (p := prepare_packet c). set (c1 := broadcast p c).
  assert (ok c c1) as Hok.
  { apply (emit_ok (Broadcast p) p); [by left|done|done| |].
    - intros prop snap HI. split; [|done]. packet_kind; [lia|]. intros _. split; [congruence|done].
    - intros _ q Hq Hkq Hbq. pose proof Hg as (prop & snap & HI & Hc)%good_node.
      destruct (ok_packets _ _ _ _ Hc) as [Hpk _]. destruct (Hpk q Hq) as (_&_&HP&_).
      by apply HP. }
  assert (delivered c1 p) as Hd.
  { apply emitted_delivered; [apply Hok|]. apply (emitted_emit N HN _ p); [by left|by right]. }
  change (receive fuel e p c1) with (receive_body e (receive (S (S f)) e) p c1). unfold receive_body.
  change (cn c1) with (cn c). change (From p) with (cid c). change (Kind p =? packetPrepare) with true.
  change (Ballot p) with (ballot c). change (ballot c1) with (ballot c).
  assert (0 ≤ cid c < N) as [H1 H2].
  { rewrite Hid, <- Hl. rewrite <- Hmod. apply Z.mod_pos_bound. lia. }
  rewrite Hn, (proj2 (Z.ltb_ge _ _) H1), (proj2 (Z.leb_gt _ _) H2), Z.ltb_irrefl. cbv zeta.
  apply promise_ok; [| | | |done|done|].
  - intros. by apply receive_ack_ok.
  - intros. by apply receive_promise_ok.
  - eapply good_same; [| |apply Hok]; done.
  - eapply keeps_delivered; [apply Hok| |done]. done.
  - intros _. by right.
Qed.

Lemma Begin_ok t c : settled c → ballot c + 2 * N ≤ M → M < 2 ^ 63 → 0 ≤ a < N →
  returns (Begin e fuel t c) settled.
Proof.
  intros [Hg _] HB HM Ha. destruct (good_basic c Hg) as (Hn&Hid&_&Hb&_). unfold Begin.
  destruct (next_ballot_spec N a (ballot c)) as [Hnb Hmod]; [lia..|].
  set (c1 := _ <| lastSend := _ |>). cbv zeta. apply prepare_ok; [|done].
  apply (good_begin N HN M cs a c (next_ballot N a (ballot c))); [done|lia|done| |done|done].
  unfold c1. rewrite Hn, Hid. by split.
Qed.

Lemma resume_loop_ok i c : settled c → returns (resume_loop e fuel i c) settled.
Proof.
  revert c. induction i as [|i IH]; intros c Hs; [exact Hs|]. simpl.
  destruct (resume c) as [|r rest] eqn:Er; [exact Hs|].
  assert (req_ok r) as Hr.
  { pose proof (proj1 Hs) as [_ H]%good_requests. apply H. rewrite Er. by constructor. }
  assert (settled (c <| resume := rest |>)) as Hs1.
  { eapply settled_same; [| |exact Hs]; [done|]. intros [H1 H2]. split; [done|].
    intros r' Hr'. apply H2. rewrite Er. by constructor. }
  eapply returns_bind; [|exact IH]. case_decide; [|exact Hs1].
  eapply returns_mono; [apply submit_ok; [apply Hs1|done]|].
  intros c' Hok. eapply ok_settled; [exact Hok|apply Hs1].
Qed.

Lemma tick_prepare_ok t c :
  settled c → preparing c = true → returns (tick_prepare e fuel t c) settled.
Proof.
  intros Hs Hp. unfold tick_prepare. case_match; [exact Hs|]. cbv zeta.
  apply prepare_ok; [|done]. eapply good_same; [| |apply Hs]; done.
Qed.
(** The records a flush has put into the log. *)
Definition flushed (c : core) (records : list Record_) : Prop :=
  ∀ r, r ∈ records → Committed r = false ∧ log c !! Slot r = Some r ∧ RBallot r = ballot c.

Lemma flush_loop_ok q records c :
  good c → leading c → flushed c records →
  ok c (flush_loop q records c).2 ∧
  flushed (flush_loop q records c).2 (flush_loop q records c).1.
Proof.
  revert records c. induction q as [|id q IH]; intros records c Hg Hld Hrec.
  { split; [by apply ok_refl|done]. }
  cbn [flush_loop]. case_match; [|split; [by apply ok_refl|done]]. cbv zeta.
  set (c1 := c <| queue := q |> <| queued ::= _ |>).
  assert (ok c c1) as Hok1 by by apply ok_same.
  assert (leading c1) as Hld1 by done. assert (flushed c1 records) as Hrec1 by exact Hrec.
  assert (ok c (flush_loop q records c1).2 ∧
    flushed (flush_loop q records c1).2 (flush_loop q records c1).1) as Hskip.
  { destruct (IH records c1) as [? ?]; [apply Hok1|done..|]. split; [by eapply ok_trans|done]. }
  case_decide; [exact Hskip|]. case_decide; [exact Hskip|].
  destruct (pending c1 !! id) as [r|] eqn:Er; [|exact Hskip].
  set (rec := mkRecord _ _ _ _). set (c2 := c1 <| high := _ |> <| log ::= _ |> <| assigned ::= _ |>).
  assert (req_ok r) as Hr by (pose proof (proj1 Hok1) as [H' _]%good_requests; by eapply H').
  assert (ok c1 c2) as Hok2.
  { split; [|apply keeps_exec; try done; apply Hld1].
    pose proof (good_push N HN M cs a r c1 (proj1 Hok1) (proj1 Hld1) (proj2 Hld1) Hr) as Hpush.
    eapply good_same; [| |exact Hpush]; done. }
  assert (flushed c2 (records ++ [rec])) as Hrec2.
  { intros r' [Hr'| ->%list_elem_of_singleton]%elem_of_app.
    - destruct (Hrec1 r' Hr') as (?&Hl&?). destruct (good_log _ _ _ (proj1 Hok1) Hl) as (_&?&_).
      split_and!; [done| |done]. change (log c2) with (<[high c1 + 1 := rec]> (log c1)).
      by rewrite lookup_insert_ne by lia.
    - split_and!; [done| |done]. apply lookup_insert_eq. }
  destruct (IH (records ++ [rec]) c2) as [Hok3 ?]; [apply Hok2|done|done|].
  split; [|done]. by do 2 (eapply ok_trans; [done|]).
Qed.

Lemma flush_ok c : good c → leading c → returns (flush e fuel c) (ok c).
Proof.
  intros Hg Hld. unfold flush. case_match; [by apply ok_refl|].
  destruct (flush_loop_ok (queue c) [] c Hg Hld) as [Hok1 Hrec]; [by intros r ?%elem_of_nil|].
  destruct (flush_loop (queue c) [] c) as [records c1]. cbn [fst snd] in *.
  case_match; [exact Hok1|]. set (p := packet _ _ _ <| Records := _ |>).
  assert (leading c1) as Hld1 by by eapply leading_ok.
  assert (ok c1 (broadcast p c1)) as Hok2.
  { eapply leader_emit_ok; [by left|apply Hok1|done..|by left|]. intros r Hr.
    destruct (Hrec r Hr) as (Hc & Hl & Hb). split; [done|]. exists (Slot r), r.
    split_and!; [done| |done]. rewrite <- Hb. by destruct r. }
  eapply returns_ok_trans; [exact Hok1|]. eapply returns_ok_trans; [exact Hok2|].
  apply accept_ok; [|apply Hok2| |done..].
  - intros. by apply receive_ack_ok.
  - apply emitted_delivered; [apply Hok2|]. apply (emitted_emit N HN _ p); [by left|by right].
Qed.

Lemma tick_lead_ok t c : good c → leading c → returns (tick_lead e fuel t c) (ok c).
Proof.
  intros Hg Hld. unfold tick_lead.
  assert (ok c (if negb (active c) && (recoveryEnd c <=? executed c) then activate e c else c)) as Hok1.
  { case_match; [by apply activate_ok|by apply ok_refl]. }
  cbv zeta. generalize dependent (if negb (active c) && (recoveryEnd c <=? executed c)
    then activate e c else c). intros c1 Hok1.
  assert (leading c1) as Hld1 by by eapply leading_ok.
  eapply returns_ok_trans; [exact Hok1|]. apply returns_ok_bind.
  { case_match; [|apply ok_refl, Hok1]. apply flush_ok; [apply Hok1|done]. }
  intros c2 Hok2. case_match; [apply ok_refl, Hok2|].
  assert (leading c2) as Hld2 by by eapply leading_ok.
  set (c3 := c2 <| lastSend := _ |>). assert (ok c2 c3) as Hok3 by (apply ok_same; [done..|apply Hok2]).
  set (p := packet _ _ _ <| High := _ |> <| Floor := _ |>).
  assert (ok c3 (broadcast p c3)) as Hok4.
  { eapply leader_emit_ok; [by left|apply Hok3|done|done|done|by right; right|]. by intros r ?%elem_of_nil. }
  eapply returns_ok_trans; [exact Hok3|]. eapply returns_ok_trans; [exact Hok4|].
  apply sendSuffix_ok; [|apply Hok4|by eapply leading_ok]. intros. by apply receive_ack_ok.
Qed.

(** The whole timer event, for any view [alive] of the cluster. *)
Lemma tick_ok t alive c :
  settled c → Z.of_nat (length alive) = N → ballot c + 2 * N ≤ M → M < 2 ^ 63 → 0 ≤ a < N →
  returns (tick e fuel t alive c) settled.
Proof.
  intros Hs Hal HB HM Ha. destruct (good_basic c (proj1 Hs)) as (Hn&Hid&Hlr&_). unfold tick.
  destruct (index alive (leader c)) as [up|] eqn:Eup.
  2: { unfold index in Eup. rewrite (proj2 (Z.ltb_ge _ _)) in Eup by lia.
       apply lookup_ge_None in Eup. lia. }
  eapply (returns_bind _ _ settled).
  { case_match; [by apply Begin_ok|exact Hs]. }
  intros c1 Hs1. eapply (returns_bind _ _ settled).
  { case_match; [by apply resume_loop_ok|exact Hs1]. }
  intros c2 Hs2. case_match eqn:Ep; [by apply tick_prepare_ok|].
  case_match eqn:El; [|exact Hs2].
  assert (leading c2) as Hld2 by (destruct (good_basic c2 (proj1 Hs2)) as (_&?&_); split; [lia|done]).
  eapply returns_mono; [apply tick_lead_ok; [apply Hs2|done]|].
  intros c3 Hok. eapply ok_settled; [exact Hok|apply Hs2].
Qed.
End Tick.
End Safety.
End PaxosSafety.
