(* ===== verification/PaxosSystem.v ===== *)
(** * PaxosSystem: a cluster of Paxos cores over an asynchronous network

    The transition system of [N] cores: a client proposes an admitted command,
    the network delivers a packet some other replica sent (again, late, out of
    order, or never), a maintenance tick fires with any clock and any view of
    who is alive.  The system adds no assumption: crashes are replicas that
    take no more steps.

    - [reachable_Inv]: the invariant of [PaxosInv] holds in every reachable
      system, with [w_max] the bound on the ballots after [k] steps.
    - [events_succeed]: no event panics, and the dispatcher's fuel suffices.
    - [decisions_agree], [executions_agree], [replies_agree],
      [decisions_backed]: safety. *)
From stdpp Require Import gmap strings list fin_maps fin_sets.
From Stdlib Require Import Lia.
From S2P Require Import Prelude State ReplicaSet Defs Paxos PaxosInv PaxosStep PaxosElect PaxosSafety.
Import Paxos PaxosInv PaxosStep PaxosElect PaxosSafety.

Module PaxosSystem.

(** The fuel of the dispatcher: a prepare reenters with a promise, a promise
    (through an accept) with an acknowledgement. *)
Definition dispatchFuel : nat := 3.

Section System.
Context {SM : StateMachine}.
Context (N L : Z).

Inductive input :=
  | IPropose (a : Z) (r : Request) (e : env)
  | IDeliver (a : Z) (p : Packet) (e : env)
  | ITick (a : Z) (t : Z) (alive : list bool) (e : env).

(** The core that handles an input, and the handler. *)
Definition target (i : input) : Z :=
  match i with IPropose a _ _ | IDeliver a _ _ | ITick a _ _ _ => a end.

Definition handle (i : input) (c : core) : outcome core :=
  match i with
  | IPropose _ r e => submit (receive dispatchFuel e) r c
  | IDeliver _ p e => receive dispatchFuel e p c
  | ITick _ t alive e => tick e dispatchFuel t alive c
  end.

(** [d] has handed [p] to the transport for replica [a]. *)
Definition addressed (d : core) (a : Z) (p : Packet) : Prop :=
  Broadcast p ∈ out d ∨ Sent a p ∈ out d.

Definition allowed (cs : gmap Z core) (i : input) : Prop :=
  match i with
  | IPropose _ r _ => sm_admits (Cmd r)
  | IDeliver a p _ => From p ≠ a ∧ ∃ d, cs !! From p = Some d ∧ addressed d a p
  | ITick _ _ alive _ => Z.of_nat (length alive) = N
  end.

Definition initial (cs : gmap Z core) : Prop :=
  ∀ a c, cs !! a = Some c ↔ 0 ≤ a < N ∧ newCore N a L = Done c.

Inductive reachable : nat → gmap Z core → Prop :=
  | reach_init cs : initial cs → reachable 0 cs
  | reach_step k cs i c c' :
      reachable k cs → cs !! target i = Some c → allowed cs i → handle i c = Done c' →
      reachable (S k) (<[target i := c']> cs).

(** No ballot exceeds it after [k] steps. *)
Definition ballot_bound (k : nat) : Z := 2 * N * (Z.of_nat k + 1).

Context {SML : @StateMachineLaws SM} (HN : 3 ≤ N ≤ 63) (HL : 0 ≤ L < N).

Definition system_ok (M : Z) (cs : gmap Z core) : Prop :=
  (∃ prop snap, Inv N (mkWorld cs prop snap M)) ∧
  ∀ a c, cs !! a = Some c → self_promised a c.

Lemma newCore_fields a c : newCore N a L = Done c →
  c = mkCore N a L [] 0 0 L true false (-1) (-1) ∅ ∅ ∅ ∅ ∅ ∅ ∅ [] ∅ (-1)
        None None sm_init 0 0 0 0 0 [] [].
Proof. unfold newCore. case_match; [discriminate|]. by intros [= <-]. Qed.

Lemma initial_node cs a c M :
  initial cs → L ≤ M → cs !! a = Some c →
  node_ok N (mkWorld cs (λ _ _, None) (λ _ _, None) M) a c.
Proof.
  intros Hi HM Ha. pose proof (proj1 (Hi a c) Ha) as [Hr ->%newCore_fields].
  assert (∀ p, ¬ emitted (mkCore N a L [] 0 0 L true false (-1) (-1) ∅ ∅ ∅ ∅ ∅ ∅ ∅ [] ∅ (-1)
    None None sm_init 0 0 0 0 0 [] []) p) as Hem.
  { intros p [H|[? H]]; by apply elem_of_nil in H. }
  split; cbn.
  - unfold basic_ok; cbn. split_and!; try lia; try done. apply Z.mod_small. lia.
  - intros s r. cbn. by rewrite lookup_empty.
  - split_and!; cbn; [lia|done|by intros r v ?%elem_of_nil].
  - split; cbn; [intros i r; by rewrite lookup_empty|by intros r ?%elem_of_nil].
  - intros _ _. cbn. split_and!; [intros s r; by rewrite lookup_empty| |intros s vs i; by rewrite lookup_empty].
    intros s b _ Hb (Q & HQ & Hv).
    destruct (ReplicaSet.majority_nonempty N Q ltac:(lia) HQ) as (i & HiQ & _).
    destruct (Hv i HiQ) as (d & Hd & Hcase). cbn in Hd.
    apply Hi in Hd as [_ ->%newCore_fields]. cbn in Hcase.
    destruct Hcase as [(p & [H|[? H]] & _)|]; [by apply elem_of_nil in H..|lia].
  - by intros b s v _ ?.
  - intros b s (p & Hp & _). by apply Hem in Hp.
  - split; [intros p Hp; by apply Hem in Hp|intros p q Hp; by apply Hem in Hp].
  - by intros b S ?.
  - discriminate.
  - by intros H.
Qed.

Lemma initial_ok cs : Z.rem N 2 ≠ 0 → initial cs → system_ok (ballot_bound 0) cs.
Proof.
  intros Hodd Hi. split.
  - exists (λ _ _, None), (λ _ _, None). split; cbn.
    + intros a. split; [intros [c Hc]; by destruct (proj1 (Hi a c) Hc)|]. intros Ha.
      assert (∃ c, newCore N a L = Done c) as [c Hc].
      { unfold newCore. eexists. rewrite (proj2 (Z.ltb_ge N 3)), (proj2 (Z.ltb_ge 63 N)) by lia.
        by rewrite (proj2 (Z.eqb_neq _ _) Hodd). }
      exists c. by apply Hi.
    + intros a c Hc. apply initial_node; [done| |done]. unfold ballot_bound. lia.
    + by intros b s v ?.
  - intros a c [_ ->%newCore_fields]%Hi. discriminate.
Qed.

Lemma system_ok_raise M M' cs : M ≤ M' → system_ok M cs → system_ok M' cs.
Proof.
  intros HM [(prop & snap & HI) Hs]. split; [|done]. exists prop, snap.
  assert (extends (mkWorld cs prop snap M) (mkWorld cs prop snap M')) as Hext.
  { split; cbn; try done; intros a c Hc; exists c; (split; [done|apply node_extends_refl]). }
  split; [apply (inv_dom _ _ HI)| |].
  - intros a c Hc. eapply (node_ok_mono N _ _ Hext); [done..|]. by apply (inv_node _ _ HI).
  - intros b s v Hv b' Hb' Hch. apply (inv_safe _ _ HI b s v Hv b' Hb').
    by eapply (choosable_anti N _ _ Hext).
Qed.

Lemma system_node M cs a c :
  system_ok M cs → cs !! a = Some c → 0 ≤ a < N ∧ settled N M cs a c ∧ ballot c ≤ M.
Proof.
  intros [(prop & snap & HI) Hs] Hc. split; [apply (inv_dom _ _ HI); by eexists|].
  split; [|by apply (ok_basic _ _ _ _ (inv_node _ _ HI _ _ Hc))].
  split; [|by apply Hs]. exists prop, snap. by rewrite insert_id.
Qed.

Lemma system_update M cs a c :
  system_ok M cs → settled N M cs a c → system_ok M (<[a := c]> cs).
Proof.
  intros [_ Hs] [(prop & snap & HI) Hself]. split; [by exists prop, snap|].
  intros i d. rewrite lookup_insert. case_decide; [intros [= <-]; by subst|apply Hs].
Qed.

(** Every event a good system allows is handled, and leads to a good system. *)
Lemma handle_ok M cs i c :
  system_ok M cs → cs !! target i = Some c → allowed cs i → M + 2 * N < 2 ^ 63 →
  returns (handle i c) (λ c', system_ok (M + 2 * N) (<[target i := c']> cs)).
Proof.
  intros Hsys Hc Hal HM. destruct (system_node M cs _ c Hsys Hc) as (Ha&_&Hb).
  apply (system_ok_raise M (M + 2 * N)) in Hsys; [|lia].
  destruct (system_node _ cs _ c Hsys Hc) as (_&Hset&_).
  apply (returns_mono _ (settled N (M + 2 * N) cs (target i))); [|by intros; apply system_update].
  unfold dispatchFuel. destruct i as [a r e|a p e|a t alive e]; cbn [target handle allowed] in *; unfold dispatchFuel.
  - eapply returns_mono; [apply (submit_ok N HN (M + 2 * N) cs a); [apply Hset|by right]|].
    intros c' Hok. by eapply ok_settled; [|apply Hset].
  - destruct Hal as (Hne & d & Hd & Hp). apply receive_ok; [done..|].
    exists d. rewrite lookup_insert_ne by done. split; [done|].
    destruct Hp as [?|?]; [by left|right; by eexists].
  - by apply tick_ok; try done; lia.
Qed.

Lemma reachable_ok k cs :
  Z.rem N 2 ≠ 0 → ballot_bound k < 2 ^ 63 → reachable k cs → system_ok (ballot_bound k) cs.
Proof.
  intros Hodd Hk Hr. revert Hk. induction Hr as [cs Hi|k cs i c c' Hr IH Hc Hal Hh]; intros Hk.
  - by apply initial_ok.
  - assert (ballot_bound (S k) = ballot_bound k + 2 * N) as E by (unfold ballot_bound; lia).
    rewrite E in *. pose proof (handle_ok _ cs i c (IH ltac:(lia)) Hc Hal Hk) as H.
    by rewrite Hh in H.
Qed.
(** ** Decisions *)

(** [c] holds a decided record, or has ever announced it. *)
Definition decides (c : core) (r : Record_) : Prop :=
  (log c !! Slot r = Some r ∧ Committed r = true) ∨
  (∃ p, emitted c p ∧ Kind p = packetCommit ∧ r ∈ Records p).

Lemma decides_chosen w a c r :
  Inv N w → w_cs w !! a = Some c → decides c r → ∃ b, chosen N w b (Slot r) (Req r).
Proof.
  intros HI Hc Hd. pose proof (inv_node _ _ HI _ _ Hc) as Hn. destruct Hd as [[Hl Hcm]|(p&Hp&Hk&Hr)].
  - destruct (ok_log _ _ _ _ Hn _ _ Hl) as (_&_&_&_&_&H). exists (RBallot r). by apply H.
  - destruct (ok_packets _ _ _ _ Hn) as [Hpk _]. destruct (Hpk p Hp) as (_&_&_&_&HA&_).
    destruct (HA (or_intror Hk)) as (_&_&H). destruct (H r Hr) as [(_&_&_&Hch) Hcm].
    exists (Ballot p). apply Hch. by apply Hcm.
Qed.

Lemma chosen_unique w b1 b2 s v1 v2 :
  Inv N w → chosen N w b1 s v1 → chosen N w b2 s v2 → v1 = v2.
Proof. intros HI. apply (chosen_agree N), (inv_safe _ _ HI). Qed.

(** The executed prefixes of two replicas agree on every slot both executed. *)
Lemma prefix_agree w a b c d s :
  Inv N w → w_cs w !! a = Some c → w_cs w !! b = Some d →
  0 ≤ s ≤ executed c → s ≤ executed d → Req <$> log c !! s = Req <$> log d !! s.
Proof.
  intros HI Hc Hd Hs1 Hs2.
  destruct (ok_exec _ _ _ _ (inv_node _ _ HI _ _ Hc)) as (Hec&_).
  destruct (ok_exec _ _ _ _ (inv_node _ _ HI _ _ Hd)) as (Hed&_).
  destruct (Hec s Hs1) as (r1&Hr1&Hc1). destruct (Hed s ltac:(lia)) as (r2&Hr2&Hc2).
  destruct (ok_log _ _ _ _ (inv_node _ _ HI _ _ Hc) _ _ Hr1) as (Es1&_).
  destruct (ok_log _ _ _ _ (inv_node _ _ HI _ _ Hd) _ _ Hr2) as (Es2&_).
  destruct (decides_chosen w a c r1 HI Hc) as [b1 H1]; [left; by rewrite Es1|].
  destruct (decides_chosen w b d r2 HI Hd) as [b2 H2]; [left; by rewrite Es2|].
  rewrite Hr1, Hr2. cbn. f_equal. rewrite Es1 in H1. rewrite Es2 in H2. by eapply chosen_unique.
Qed.

Lemma prefix_upto_app e e' m :
  -1 ≤ e ≤ e' → prefix_upto e' m = prefix_upto e m ++ omap (λ s, Req <$> m !! s) (rangeZ (e + 1) e').
Proof.
  intros He. unfold prefix_upto. rewrite <- omap_app. f_equal. unfold rangeZ.
  replace (e' - 0 + 1) with ((e - 0 + 1) + (e' - (e + 1) + 1)) by lia.
  rewrite seqZ_app by lia. f_equal. f_equal; lia.
Qed.

Lemma replay_keeps l st vals st' vals' i v :
  forEach replay_one l (st, vals) = Done (st', vals') → vals !! i = Some v → vals' !! i = Some v.
Proof.
  revert st vals. induction l as [|r l IH]; intros st vals; [by intros [= <- <-]|]. simpl.
  destruct (replay_one r (st, vals)) as [[st1 vals1]| |] eqn:E; simpl; [|done..].
  intros H Hi. eapply IH; [exact H|]. by eapply replay_one_keeps.
Qed.

(** One replica's execution extends the other's. *)
Definition execution_prefix (c d : core) : Prop :=
  ∃ suffix, prefix_upto (executed d) (log d) = prefix_upto (executed c) (log c) ++ suffix ∧
    forEach replay_one suffix (sm c, values c) = Done (sm d, values d).

Lemma execution_extends w a b c d :
  Inv N w → w_cs w !! a = Some c → w_cs w !! b = Some d → executed c ≤ executed d →
  execution_prefix c d.
Proof.
  intros HI Hc Hd Hle. pose proof (inv_node _ _ HI _ _ Hc) as Hnc.
  pose proof (inv_node _ _ HI _ _ Hd) as Hnd.
  destruct (ok_exec _ _ _ _ Hnc) as (_&Hrc&_). destruct (ok_exec _ _ _ _ Hnd) as (_&Hrd&_).
  destruct (ok_basic _ _ _ _ Hnc) as (_&_&_&_&_&?&_).
  assert (prefix_upto (executed c) (log d) = prefix_upto (executed c) (log c)) as Epre.
  { apply prefix_upto_ext. intros s Hs. symmetry. by eapply prefix_agree; [done..|lia]. }
  exists (omap (λ s, Req <$> log d !! s) (rangeZ (executed c + 1) (executed d))).
  rewrite (prefix_upto_app (executed c) (executed d)) in * by lia. rewrite Epre in *. split; [done|].
  unfold replay in *. rewrite forEach_app, Hrc in Hrd. exact Hrd.
Qed.
(** ** Properties *)

(** C1.  Agreement.  In every reachable system, any two decided records of a
    slot carry the same request, whichever replicas hold or ever announced
    them and whatever ballots decided them. *)
Theorem decisions_agree k cs a b c d r1 r2 :
  Z.rem N 2 ≠ 0 → ballot_bound k < 2 ^ 63 → reachable k cs →
  cs !! a = Some c → cs !! b = Some d → decides c r1 → decides d r2 → Slot r1 = Slot r2 →
  Req r1 = Req r2.
Proof.
  intros Hodd Hk Hr Hc Hd H1 H2 Es.
  destruct (reachable_ok k cs Hodd Hk Hr) as [(prop & snap & HI) _].
  destruct (decides_chosen _ a c r1 HI Hc H1) as [b1 Hb1].
  destruct (decides_chosen _ b d r2 HI Hd H2) as [b2 Hb2]. rewrite Es in Hb1.
  by eapply chosen_unique.
Qed.

(** C2.  State machine safety.  In every reachable system the executed prefixes
    of two replicas are prefixes of one another, and the one that is behind
    reaches the other's store and result table by executing the rest of the
    prefix: equally advanced replicas have equal stores and results. *)
Theorem executions_agree k cs a b c d :
  Z.rem N 2 ≠ 0 → ballot_bound k < 2 ^ 63 → reachable k cs →
  cs !! a = Some c → cs !! b = Some d → executed c ≤ executed d →
  replay (prefix_upto (executed c) (log c)) = Done (sm c, values c) ∧ execution_prefix c d ∧
  (executed c = executed d → sm c = sm d ∧ values c = values d).
Proof.
  intros Hodd Hk Hr Hc Hd Hle.
  destruct (reachable_ok k cs Hodd Hk Hr) as [(prop & snap & HI) _].
  destruct (ok_exec _ _ _ _ (inv_node _ _ HI _ _ Hc)) as (_&Hrc&_).
  destruct (execution_extends _ a b c d HI Hc Hd Hle) as (suf & Es & Hf).
  split_and!; [done|by exists suf|]. intros Ee.
  destruct (execution_extends _ b a d c HI Hd Hc ltac:(lia)) as (suf' & Es' & _).
  assert (suf = []) as ->.
  { apply (f_equal length) in Es, Es'. rewrite length_app in Es, Es'. destruct suf; [done|]. simpl in *. lia. }
  by injection Hf as <- <-.
Qed.

(** C4.  Clients see one result per request: any two replies ever sent for a
    request identity, by the same or by different replicas, before or after
    any recovery, carry the same value. *)
Theorem replies_agree k cs a b c d r1 r2 v1 v2 :
  Z.rem N 2 ≠ 0 → ballot_bound k < 2 ^ 63 → reachable k cs →
  cs !! a = Some c → cs !! b = Some d → Replied r1 v1 ∈ out c → Replied r2 v2 ∈ out d →
  ID r1 = ID r2 → v1 = v2.
Proof.
  intros Hodd Hk Hr Hc Hd H1 H2 Ei.
  destruct (reachable_ok k cs Hodd Hk Hr) as [(prop & snap & HI) _].
  destruct (ok_exec _ _ _ _ (inv_node _ _ HI _ _ Hc)) as (_&_&Hrc).
  destruct (ok_exec _ _ _ _ (inv_node _ _ HI _ _ Hd)) as (_&_&Hrd).
  apply Hrc in H1. apply Hrd in H2. rewrite Ei in H1.
  destruct (Z.le_gt_cases (executed c) (executed d)).
  - destruct (execution_extends _ a b c d HI Hc Hd ltac:(lia)) as (suf & _ & Hf).
    apply (replay_keeps _ _ _ _ _ _ _ Hf) in H1. congruence.
  - destruct (execution_extends _ b a d c HI Hd Hc ltac:(lia)) as (suf & _ & Hf).
    apply (replay_keeps _ _ _ _ _ _ _ Hf) in H2. congruence.
Qed.

(** C3.  No event breaks a replica.  In every reachable system each admitted
    proposal, each delivery of a packet another replica sent and each tick is
    handled to completion: no conflicting decision, no index out of range, no
    nil dereference, no overflow of the ballot computation, and the reentrant
    dispatcher nests at most three calls deep. *)
Theorem events_succeed k cs i c :
  Z.rem N 2 ≠ 0 → ballot_bound (S k) < 2 ^ 63 → reachable k cs →
  cs !! target i = Some c → allowed cs i →
  ∃ c', handle i c = Done c' ∧ reachable (S k) (<[target i := c']> cs) ∧
    0 ≤ ballot c' ≤ ballot_bound (S k) ∧ executed c' ≤ high c'.
Proof.
  intros Hodd Hk Hr Hc Hal.
  assert (ballot_bound (S k) = ballot_bound k + 2 * N) as E by (unfold ballot_bound; lia).
  pose proof (reachable_ok k cs Hodd ltac:(lia) Hr) as Hsys.
  destruct (returns_inv _ _ (handle_ok _ cs i c Hsys Hc Hal ltac:(lia))) as (c' & Hh & Hsys').
  exists c'. split; [done|]. split; [by eapply reach_step|]. rewrite E.
  destruct Hsys' as [(prop & snap & HI) _].
  destruct (ok_basic _ _ _ _ (inv_node _ _ HI _ c' (lookup_insert_eq _ _ _))) as (_&_&_&?&_&?&_).
  split; [done|lia].
Qed.

(** C5.  A decision is backed by a majority: some majority of the replicas
    acknowledged the slot at one ballot, and the decided request is a no-op or
    a command that passed admission. *)
Theorem decisions_backed k cs a c r :
  Z.rem N 2 ≠ 0 → ballot_bound k < 2 ^ 63 → reachable k cs →
  cs !! a = Some c → decides c r →
  (Op (Cmd (Req r)) = NONE ∨ sm_admits (Cmd (Req r))) ∧
  ∃ b Q, ReplicaSet.majority N Q ∧
    ∀ i, i ∈ Q → ∃ d p x, cs !! i = Some d ∧ emitted d p ∧ Kind p = packetAck ∧ Ballot p = b ∧
      x ∈ Records p ∧ Slot x = Slot r.
Proof.
  intros Hodd Hk Hr Hc Hd.
  destruct (reachable_ok k cs Hodd Hk Hr) as [(prop & snap & HI) _].
  destruct (decides_chosen _ a c r HI Hc Hd) as (b & b0 & _ & (Q & HQ & Hv) & Hp).
  split; [by destruct (inv_prop N HN _ _ _ _ HI Hp) as (_&_&?)|].
  exists b0, Q. split; [done|]. intros i Hi.
  destruct (Hv i Hi) as (d & Hd' & p & Hp' & Hk' & Hb & x & Hx & Hs).
  by exists d, p, x.
Qed.
End System.
(** ** A run: three replicas decide and execute one write *)
Definition boot `{SM : StateMachine} (n l : Z) : gmap Z core :=
  list_to_map (omap (λ a, match newCore n a l with Done c => Some (a, c) | _ => None end) (seqZ 0 n)).

Lemma boot_initial `{SM : StateMachine} n l : initial n l (boot n l).
Proof.
  intros a c. unfold boot. rewrite <- elem_of_list_to_map.
  - rewrite list_elem_of_omap. setoid_rewrite elem_of_seqZ. split.
    + intros (i & Hi & H). destruct (newCore n i l) as [d| |] eqn:E; [|done..].
      injection H as <- <-. split; [lia|done].
    + intros [Hi Hc]. exists a. split; [lia|]. by rewrite Hc.
  - assert (NoDup (seqZ 0 n)) as Hnd by apply NoDup_seqZ. revert Hnd. generalize (seqZ 0 n).
    induction l0 as [|i l0 IH]; intros Hnd; [constructor|]. apply NoDup_cons in Hnd as [Hi Hnd].
    simpl. destruct (newCore n i l) as [d| |]; simpl; [|by apply IH..].
    constructor; [|by apply IH]. intros (x & E & Hx)%list_elem_of_fmap.
    apply list_elem_of_omap in Hx as (j & Hj & Hjx). destruct (newCore n j l); [|done..].
    injection Hjx as <-. simpl in E. by subst.
Qed.

(** Running a list of inputs, as long as they are allowed and handled. *)
Section Run.
Context {SM : StateMachine} `{∀ c, Decision (sm_admits c)} (N L : Z).

Definition allowedb (cs : gmap Z core) (i : input) : bool :=
  match i with
  | IPropose _ r _ => bool_decide (sm_admits (Cmd r))
  | IDeliver a p _ =>
      negb (From p =? a) &&
      match cs !! From p with
      | Some d => bool_decide (Broadcast p ∈ out d) || bool_decide (Sent a p ∈ out d)
      | None => false
      end
  | ITick _ _ alive _ => Z.of_nat (length alive) =? N
  end.

Lemma allowedb_allowed cs i : allowedb cs i = true → allowed N cs i.
Proof.
  destruct i as [a r e|a p e|a t alive e]; simpl.
  - apply bool_decide_eq_true_1.
  - rewrite andb_true_iff. intros [Hne Hd]. split; [lia|].
    destruct (cs !! From p) as [d|]; [|done]. exists d. split; [done|].
    rewrite orb_true_iff in Hd. destruct Hd as [?%bool_decide_eq_true_1|?%bool_decide_eq_true_1]; [by left|by right].
  - lia.
Qed.

Fixpoint run (ins : list input) (cs : gmap Z core) : option (gmap Z core) :=
  match ins with
  | [] => Some cs
  | i :: ins =>
      c ← cs !! target i;
      if allowedb cs i then
        match handle i c with Done c' => run ins (<[target i := c']> cs) | _ => None end
      else None
  end.

Lemma run_reachable ins k cs cs' :
  reachable N L k cs → run ins cs = Some cs' → reachable N L (length ins + k) cs'.
Proof.
  revert k cs. induction ins as [|i ins IH]; intros k cs Hr; simpl; [by intros [= <-]|].
  destruct (cs !! target i) as [c|] eqn:Hc; [|done]. simpl.
  destruct (allowedb cs i) eqn:Hal; [|done]. destruct (handle i c) as [c'| |] eqn:Hh; [|done..].
  intros Hrun. rewrite <- Nat.add_succ_r. eapply IH; [|exact Hrun].
  eapply reach_step; [done..| |done]. by apply allowedb_allowed.
Qed.

Definition some_b {A} (o : option A) : bool := if o then true else false.

Lemma run_default ins cs :
  initial N L cs → some_b (run ins cs) = true →
  reachable N L (length ins + 0) (default ∅ (run ins cs)).
Proof.
  intros Hi E. destruct (run ins cs) as [cs'|] eqn:Er; [|discriminate E].
  eapply run_reachable; [by apply reach_init|exact Er].
Qed.
End Run.

Section Demo.

#[local] Existing Instance demo_machine.
#[local] Existing Instance demo_laws.
#[local] Instance demo_admits_dec c : Decision (sm_admits c).
Proof. unfold sm_admits; simpl. apply _. Defined.

Definition demo_env : env := mkEnv 1000000000 [] [] (λ _, []) [].
Definition demo_put : Request := mkRequest (mkRequestID 7 1) (mkCommand PUT 3 [9]).
Definition demo_accept : Packet :=
  packet packetAccept 0 0 <| Records := [mkRecord 0 0 demo_put false] |>.
Definition demo_ack : Packet :=
  packet packetAck 1 0 <| Records := [mkRecord 0 0 zeroRequest false] |>.
Definition demo_commit : Packet :=
  packet packetCommit 0 0 <| Records := [mkRecord 0 0 demo_put true] |>.

(** The client sends the write to replica 0, which proposes it on its tick;
    replica 1 accepts it and replica 0 commits and executes it; replica 1
    learns the decision.  The client retries at replica 1, which answers from
    its table of results. *)
Definition demo_inputs : list input :=
  [ IPropose 0 demo_put demo_env; ITick 0 1000000000 [true; true; true] demo_env;
    IDeliver 1 demo_accept demo_env; IDeliver 0 demo_ack demo_env; IDeliver 1 demo_commit demo_env;
    IPropose 1 demo_put demo_env ].

Definition demo : gmap Z core := default ∅ (run 3 demo_inputs (boot 3 0)).
Definition demo_core (a : Z) : core :=
  default (mkCore 3 a 0 [] 0 0 0 true false (-1) (-1) ∅ ∅ ∅ ∅ ∅ ∅ ∅ [] ∅ (-1)
             None None sm_init 0 0 0 0 0 [] []) (demo !! a).

Lemma demo_reachable : reachable 3 0 6 demo.
Proof. apply (run_default 3 0 demo_inputs); [apply boot_initial|vm_compute; reflexivity]. Qed.

Lemma demo_lookup a : some_b (demo !! a) = true → demo !! a = Some (demo_core a).
Proof. unfold demo_core. by destruct (demo !! a). Qed.

Definition demo_decided : Record_ := mkRecord 0 0 demo_put true.

Lemma demo_decides a : bool_decide (log (demo_core a) !! Slot demo_decided = Some demo_decided) = true →
  decides (demo_core a) demo_decided.
Proof. intros H. left. split; [exact (bool_decide_eq_true_1 _ H)|reflexivity]. Qed.

Lemma decisions_agree_witness :
  decides (demo_core 0) demo_decided ∧ decides (demo_core 1) demo_decided ∧
  Req demo_decided = Req demo_decided.
Proof.
  assert (decides (demo_core 0) demo_decided) as H0 by (apply demo_decides; vm_compute; reflexivity).
  assert (decides (demo_core 1) demo_decided) as H1 by (apply demo_decides; vm_compute; reflexivity).
  split; [exact H0|split; [exact H1|]].
  apply (decisions_agree 3 0 ltac:(lia) ltac:(lia) 6 demo 0 1 (demo_core 0) (demo_core 1));
    [discriminate|reflexivity|exact demo_reachable|apply demo_lookup; vm_compute; reflexivity..
    |exact H0|exact H1|reflexivity].
Defined.

Lemma executions_agree_witness :
  executed (demo_core 0) = 0 ∧ executed (demo_core 1) = 0 ∧
  (executed (demo_core 0) = executed (demo_core 1) →
   sm (demo_core 0) = sm (demo_core 1) ∧ values (demo_core 0) = values (demo_core 1)).
Proof.
  split; [vm_compute; reflexivity|split; [vm_compute; reflexivity|]].
  apply (executions_agree 3 0 ltac:(lia) ltac:(lia) 6 demo 0 1 (demo_core 0) (demo_core 1));
    [discriminate|reflexivity|exact demo_reachable|apply demo_lookup; vm_compute; reflexivity..
    |vm_compute; discriminate].
Defined.

Lemma replies_agree_witness :
  bool_decide (Replied demo_put [] ∈ out (demo_core 0)) = true ∧
  bool_decide (Replied demo_put [] ∈ out (demo_core 1)) = true ∧ ([] : Value) = [].
Proof.
  assert (bool_decide (Replied demo_put [] ∈ out (demo_core 0)) = true) as H0 by (vm_compute; reflexivity).
  assert (bool_decide (Replied demo_put [] ∈ out (demo_core 1)) = true) as H1 by (vm_compute; reflexivity).
  split; [exact H0|split; [exact H1|]].
  apply (replies_agree 3 0 ltac:(lia) ltac:(lia) 6 demo 0 1 (demo_core 0) (demo_core 1) demo_put demo_put);
    [discriminate|reflexivity|exact demo_reachable|apply demo_lookup; vm_compute; reflexivity..
    |exact (bool_decide_eq_true_1 _ H0)|exact (bool_decide_eq_true_1 _ H1)|reflexivity].
Defined.

Lemma events_succeed_witness :
  ∃ c', handle (ITick 2 2000000000 [false; false; true] demo_env) (demo_core 2) = Done c' ∧
    reachable 3 0 7 (<[2 := c']> demo) ∧ 0 ≤ ballot c' ≤ ballot_bound 3 7 ∧ executed c' ≤ high c'.
Proof.
  apply (events_succeed 3 0 ltac:(lia) ltac:(lia) 6 demo (ITick 2 2000000000 [false; false; true] demo_env) (demo_core 2));
    [discriminate|reflexivity|exact demo_reachable|apply demo_lookup; vm_compute; reflexivity|reflexivity].
Defined.

Lemma decisions_backed_witness :
  decides (demo_core 1) demo_decided ∧
  (Op (Cmd demo_put) = NONE ∨ sm_admits (Cmd demo_put)) ∧
  ∃ b Q, ReplicaSet.majority 3 Q ∧
    ∀ i, i ∈ Q → ∃ d p x, demo !! i = Some d ∧ emitted d p ∧ Kind p = packetAck ∧ Ballot p = b ∧
      x ∈ Records p ∧ Slot x = 0.
Proof.
  assert (decides (demo_core 1) demo_decided) as H1 by (apply demo_decides; vm_compute; reflexivity).
  split; [exact H1|].
  apply (decisions_backed 3 0 ltac:(lia) ltac:(lia) 6 demo 1 (demo_core 1) demo_decided);
    [discriminate|reflexivity|exact demo_reachable|apply demo_lookup; vm_compute; reflexivity|exact H1].
Defined.
End Demo.
End PaxosSystem.
