(* ===== verification/PaxosLocal.v ===== *)
(** * PaxosLocal: what the methods of one Paxos core compute

    Functional contracts that hold for any core, reachable or not: the
    execution loop ([apply]), the proposal batches ([flush]), the ballots
    ([Begin]) and the paging of promises ([promise]). *)
From stdpp Require Import gmap strings list fin_maps fin_sets.
From Stdlib Require Import Lia.
From S2P Require Import Prelude State ReplicaSet Defs Paxos PaxosInv PaxosStep PaxosElect PaxosSafety PaxosSystem.
Import Paxos PaxosInv PaxosStep PaxosElect PaxosSystem.

Module PaxosLocal.
Section Local.
Context {SM : StateMachine} {SML : @StateMachineLaws SM}.

(** ** Execution *)
Definition runnable (c : core) : Prop := ∀ s r, log c !! s = Some r → req_ok (Req r).

(** The slots from [lo] up to [hi] are decided. *)
Definition decided_range (c : core) (lo hi : Z) : Prop :=
  ∀ s, lo ≤ s ≤ hi → ∃ r, log c !! s = Some r ∧ Committed r = true.

(** The requests of the slots from [lo] up to [hi], in order. *)
Definition requests_between (lo hi : Z) (m : gmap Z Record_) : list Request :=
  omap (λ s, Req <$> m !! s) (rangeZ lo hi).

(** One round executes its request unless the table of results has it. *)
Lemma apply_one_replay c r :
  req_ok (Req r) →
  returns (apply_one r c) (λ c', executed c' = executed c + 1 ∧ log c' = log c ∧
    replay_one (Req r) (sm c, values c) = Done (sm c', values c')).
Proof.
  intros Hr. unfold apply_one, replay_one. cbn [fst snd]. case_decide as Hcase; [|done].
  destruct Hr as [Hn|Ha]; [by destruct Hcase|].
  destruct (returns_inv _ _ (sm_execute_returns (Cmd (Req r)) (sm c) Ha)) as ([v s'] & -> & _). done.
Qed.

Lemma apply_loop_spec fuel c :
  runnable c → (PaxosSafety.unexecuted c < fuel)%nat →
  returns (apply_loop fuel c) (λ c', log c' = log c ∧ executed c ≤ executed c' ∧
    decided_range c (executed c + 1) (executed c') ∧
    (∀ r, log c !! (executed c' + 1) = Some r → Committed r = false) ∧
    forEach replay_one (requests_between (executed c + 1) (executed c') (log c)) (sm c, values c)
      = Done (sm c', values c')).
Proof.
  revert c. induction fuel as [|fuel IH]; intros c Hrun Hf; [lia|]. simpl.
  assert ((∀ r, log c !! (executed c + 1) = Some r → Committed r = false) →
    returns (Done c) (λ c', log c' = log c ∧ executed c ≤ executed c' ∧
      decided_range c (executed c + 1) (executed c') ∧
      (∀ r, log c !! (executed c' + 1) = Some r → Committed r = false) ∧
      forEach replay_one (requests_between (executed c + 1) (executed c') (log c)) (sm c, values c)
        = Done (sm c', values c'))) as Hstop.
  { intros Hno. split_and!; [done|lia|intros s ?; lia|done|].
    unfold requests_between. by rewrite rangeZ_empty by lia. }
  destruct (log c !! (executed c + 1)) as [r|] eqn:Hr; [|apply Hstop; congruence].
  destruct (Committed r) eqn:Hc; [|apply Hstop; congruence].
  eapply returns_bind; [apply apply_one_replay; by eapply Hrun|]. intros c1 (He & Hl & Hrep).
  eapply returns_mono; [apply IH|].
  - intros s x. rewrite Hl. apply Hrun.
  - pose proof (PaxosSafety.unexecuted_step c c1 r Hl He Hr). lia.
  - intros c2 (El & Hle & Hdec & Hmax & Hall). rewrite Hl, He in *. split_and!; [congruence|lia| |done|].
    + intros s Hs. destruct (decide (s = executed c + 1)) as [->|]; [by exists r|].
      destruct (Hdec s ltac:(lia)) as (x & Hx & ?). rewrite Hl in Hx. by exists x.
    + unfold requests_between in *. rewrite rangeZ_cons by lia. simpl. rewrite Hr. simpl.
      rewrite Hrep. exact Hall.
Qed.

(** [apply] terminates and is complete: it executes exactly the decided
    slots that follow the executed prefix, in slot order, each at most once
    (an executed identity and a no-op are skipped), stops at the first slot
    that is missing or undecided, and leaves the log alone. *)
Theorem apply_complete c :
  runnable c →
  ∃ c', apply c = Done c' ∧ log c' = log c ∧ executed c ≤ executed c' ∧
    decided_range c (executed c + 1) (executed c') ∧
    (∀ r, log c !! (executed c' + 1) = Some r → Committed r = false) ∧
    forEach replay_one (requests_between (executed c + 1) (executed c') (log c)) (sm c, values c)
      = Done (sm c', values c').
Proof.
  intros Hrun. destruct (returns_inv _ _ (apply_loop_spec (S (size (log c))) c Hrun
    ltac:(pose proof (PaxosSafety.unexecuted_le c); lia))) as (c' & Hc' & H).
  by exists c'.
Qed.

(** ** Proposal batches *)

(** The request waiting under [id] enters the batch as [r]. *)
Definition batched (c : core) (id : RequestID) (r : Record_) : Prop :=
  RBallot r = ballot c ∧ Committed r = false ∧ pending c !! id = Some (Req r) ∧
  assigned c !! id = None ∧ values c !! id = None.

Record batch_spec (q : list RequestID) (c : core) (ids : list RequestID) (batch : list Record_)
    (c' : core) : Prop := mkBatchSpec {
  batch_order : ids `sublist_of` q;
  batch_unique : NoDup ids;
  batch_requests : Forall2 (batched c) ids batch;
  batch_slots : Slot <$> batch = rangeZ (high c + 1) (high c');
  batch_high : high c ≤ high c' ∧ executed c' = executed c;
  batch_window : high c' - executed c' ≤ Z.max (high c - executed c) AdmissionWindow;
  batch_log : log c' = foldl (λ m r, <[Slot r := r]> m) (log c) batch;
  batch_rest : queue c = q → ∃ visited, q = visited ++ queue c';
}.

Lemma batch_stop q c : batch_spec q c [] [] c.
Proof.
  split.
  - apply sublist_nil_l.
  - apply NoDup_nil_2.
  - constructor.
  - by rewrite rangeZ_empty by lia.
  - lia.
  - lia.
  - done.
  - intros <-. by exists [].
Qed.

Lemma batch_skip id q c ids batch c' :
  batch_spec q (c <| queue := q |> <| queued ::= (λ s, s ∖ {[id]}) |>) ids batch c' →
  batch_spec (id :: q) c ids batch c'.
Proof.
  intros [H1 H2 H3 H4 H5 H6 H7 H8]. split; try done; [by apply sublist_cons|].
  intros _. destruct (H8 eq_refl) as [v Hv]. exists (id :: v). simpl. by rewrite <- Hv.
Qed.

Lemma batch_push id r q c c1 ids batch c' :
  high c - executed c < AdmissionWindow →
  assigned c !! id = None → values c !! id = None → pending c !! id = Some r →
  let rec := mkRecord (high c + 1) (ballot c) r false in
  high c1 = high c + 1 → executed c1 = executed c → ballot c1 = ballot c → pending c1 = pending c →
  values c1 = values c → queue c1 = q → assigned c1 = <[id := high c + 1]> (assigned c) →
  log c1 = <[high c + 1 := rec]> (log c) →
  batch_spec q c1 ids batch c' → batch_spec (id :: q) c (id :: ids) (rec :: batch) c'.
Proof.
  intros Hw Ha Hv Hp rec Eh Ee Eb Ep Ev Eq Ea El [H1 H2 H3 H4 H5 H6 H7 H8]. rewrite Eh, Ee in *.
  assert (∀ i x, batched c1 i x → i ≠ id ∧ batched c i x) as Hb.
  { unfold batched. rewrite Eb, Ep, Ev, Ea. intros i x (?&?&?&Ha1&?).
    rewrite lookup_insert in Ha1. case_decide; [done|]. split; [congruence|done]. }
  split.
  - by apply sublist_skip.
  - constructor; [|done]. intros (n & Hn)%list_elem_of_lookup.
    destruct (Forall2_lookup_l _ _ _ _ _ H3 Hn) as (x & _ & Hx). by apply Hb in Hx as [? _].
  - constructor; [done|]. eapply Forall2_impl; [exact H3|]. intros i x Hx. by apply Hb.
  - cbn [fmap list_fmap]. rewrite H4. symmetry. apply rangeZ_cons. lia.
  - lia.
  - lia.
  - rewrite H7, El. done.
  - intros _. destruct (H8 Eq) as [v Hv']. exists (id :: v). simpl. by rewrite <- Hv'.
Qed.

Lemma flush_loop_spec q records c :
  (length records ≤ Z.to_nat PageSize)%nat →
  ∃ ids batch c', flush_loop q records c = (records ++ batch, c') ∧
    (length (records ++ batch) ≤ Z.to_nat PageSize)%nat ∧ batch_spec q c ids batch c'.
Proof.
  revert records c. induction q as [|id q IH]; intros records c Hlen.
  { exists [], [], c. rewrite app_nil_r. split_and!; [done..|apply batch_stop]. }
  simpl. case_match eqn:Ec.
  2: { exists [], [], c. rewrite app_nil_r. split_and!; [done..|apply batch_stop]. }
  apply andb_true_iff in Ec as [Hps Hw].
  set (c1 := c <| queue := q |> <| queued ::= _ |>).
  assert (∃ ids batch c', flush_loop q records c1 = (records ++ batch, c') ∧
    (length (records ++ batch) ≤ Z.to_nat PageSize)%nat ∧ batch_spec (id :: q) c ids batch c') as Hskip.
  { destruct (IH records c1 Hlen) as (ids & batch & c' & ? & ? & ?). exists ids, batch, c'.
    split_and!; [done..|by apply batch_skip]. }
  case_decide as Ha; [exact Hskip|]. case_decide as Hv; [exact Hskip|].
  destruct (pending c !! id) as [r|] eqn:Hp; [|exact Hskip].
  apply eq_None_not_Some in Ha, Hv.
  set (rec := mkRecord _ _ _ _). set (c2 := c1 <| high := _ |> <| log ::= _ |> <| assigned ::= _ |>).
  destruct (IH (records ++ [rec]) c2) as (ids & batch & c' & E & Hlen' & Hspec).
  { rewrite length_app. simpl. unfold PageSize in *. lia. }
  exists (id :: ids), (rec :: batch), c'. rewrite <- app_assoc in *. split_and!; [done..|].
  apply (batch_push id r q c c2); try done. lia.
Qed.
(** The accept packet of a batch. *)
Definition batch_packet (c : core) (batch : list Record_) : Packet :=
  packet packetAccept (cid c) (ballot c) <| Records := batch |>.

(** A flush proposes one batch: at most [PageSize] requests, the first
    queued ones that wait for a slot, in queue order and each once, at the
    consecutive slots after [high], never past the admission window; it
    broadcasts exactly that batch and accepts it locally.  A full window
    blocks it. *)
Theorem flush_batches e rcvFuel c :
  (AdmissionWindow ≤ high c - executed c → flush e rcvFuel c = Done c) ∧
  (high c - executed c < AdmissionWindow →
   ∃ ids batch c1, batch_spec (queue c) c ids batch c1 ∧
     Z.of_nat (length batch) ≤ PageSize ∧ high c1 - executed c1 ≤ AdmissionWindow ∧
     flush e rcvFuel c =
       if decide (batch = []) then Done c1
       else let p := batch_packet c1 batch in accept e (receive rcvFuel e) p (broadcast p c1)).
Proof.
  unfold flush. split; intros Hw.
  - by rewrite (proj2 (Z.leb_le _ _) Hw).
  - rewrite (proj2 (Z.leb_gt _ _)) by lia.
    destruct (flush_loop_spec (queue c) [] c) as (ids & batch & c1 & -> & Hlen & Hspec); [simpl; lia|].
    exists ids, batch, c1. simpl in Hlen. pose proof (batch_window _ _ _ _ _ Hspec).
    split_and!; [done|unfold PageSize in *; lia|lia|]. cbn [app]. by destruct batch.
Qed.

(** ** Promises *)
Lemma take_drop_concat {A} (l : list A) (m : nat) k :
  (0 < m)%nat →
  mjoin ((λ i, take m (drop (Z.to_nat (i * Z.of_nat m)) l)) <$> seqZ 0 (Z.of_nat k)) = take (k * m) l.
Proof.
  intros Hm. induction k as [|k IH]; [done|].
  rewrite Nat2Z.inj_succ, seqZ_snoc by lia. rewrite fmap_app. simpl.
  rewrite join_app, IH. simpl. rewrite app_nil_r.
  replace (Z.to_nat ((0 + Z.of_nat k) * Z.of_nat m)) with (k * m)%nat by lia.
  rewrite take_take_drop. f_equal. lia.
Qed.

Definition promise_pages (floor : Z) (c : core) : list Packet :=
  promise_page floor (promise_values floor c) c <$>
    seqZ 0 (page_count (length (promise_values floor c))).

(** Paging loses nothing: the pages of a promise carry, in order, exactly
    the acceptor's log from the floor to its highest slot, at most [PageSize]
    records each; and a candidate at that floor that holds all of them, by
    index, finds the promise complete. *)
Theorem promise_pages_reassemble floor c :
  mjoin (Records <$> promise_pages floor c) = promise_values floor c ∧
  Forall (λ p, Z.of_nat (length (Records p)) ≤ PageSize) (promise_pages floor c) ∧
  (∀ s r, floor ≤ s ≤ high c → log c !! s = Some r → r ∈ promise_values floor c) ∧
  ∀ (d : core) p, floor = executed d + 1 → p ∈ promise_pages floor c →
    complete_pages p d (list_to_map ((λ q, (Page q, q)) <$> promise_pages floor c)) = true.
Proof.
  unfold promise_pages. set (vals := promise_values floor c).
  pose proof (page_count_pos (length vals)) as Hpos. pose proof (page_count_covers (length vals)) as Hcov.
  split_and!.
  - rewrite <- list_fmap_compose. unfold compose; simpl.
    pose proof (take_drop_concat vals (Z.to_nat PageSize) (Z.to_nat (page_count (length vals)))
      ltac:(unfold PageSize; lia)) as E. rewrite !Z2Nat.id in E by (unfold PageSize; lia).
    rewrite E. apply take_ge. unfold PageSize in *. lia.
  - apply Forall_fmap, Forall_true. intros i. unfold compose; simpl. rewrite length_take. unfold PageSize. lia.
  - intros s r Hs Hr. apply elem_of_promise_values. by exists s.
  - intros d p Hfl Hp. apply list_elem_of_fmap in Hp as (k & -> & _).
    set (pg := promise_page floor vals c).
    assert (∀ i, 0 ≤ i < page_count (length vals) →
      (list_to_map ((λ q, (Page q, q)) <$> (pg <$> seqZ 0 (page_count (length vals)))) : gmap Z Packet) !! i
        = Some (pg i)) as Hlk.
    { intros i Hi. apply elem_of_list_to_map_1.
      - rewrite <- !list_fmap_compose. unfold compose; simpl.
        rewrite list_fmap_id. apply NoDup_seqZ.
      - apply list_elem_of_fmap. exists (pg i). split; [done|]. apply list_elem_of_fmap.
        exists i. split; [done|]. apply elem_of_seqZ. lia. }
    unfold complete_pages. rewrite andb_true_iff, forallb_forall.
    change (Pages (pg k)) with (page_count (length vals)). split.
    + rewrite map_size_list_to_map by (rewrite <- !list_fmap_compose; unfold compose; simpl;
        rewrite list_fmap_id; apply NoDup_seqZ).
      rewrite !length_fmap, length_seqZ, Z2Nat.id by (etrans; [|exact Hpos]; done). apply Z.eqb_refl.
    + intros i Hi%list_elem_of_In%elem_of_seqZ. rewrite Hlk by lia.
      unfold pg, promise_page. cbn [Pages Floor High set]. rewrite Hfl, !Z.eqb_refl. done.
Qed.

(** ** Ballots *)

(** A candidate's ballot is new, its own, and in range: below the [int64]
    limit the wrapping computation of [Begin] yields a ballot larger than the
    old one by at most [2n], congruent to the candidate's id, so no two
    replicas ever start the same ballot. *)
Theorem next_ballot_owned n id id' b b' :
  3 ≤ n ≤ 63 → 0 ≤ id < n → 0 ≤ id' < n → 0 ≤ b → b + 2 * n < 2 ^ 63 → 0 ≤ b' → b' + 2 * n < 2 ^ 63 →
  b < next_ballot n id b ≤ b + 2 * n ∧ next_ballot n id b `mod` n = id ∧
  (id ≠ id' → next_ballot n id b ≠ next_ballot n id' b').
Proof.
  intros Hn Hid Hid' Hb Hm Hb' Hm'.
  destruct (PaxosSafety.next_ballot_spec n id b) as [H1 H2]; [lia..|].
  destruct (PaxosSafety.next_ballot_spec n id' b') as [_ H3]; [lia..|].
  split_and!; [lia..|done|]. intros Hne E. rewrite E in H2. congruence.
Qed.
End Local.

(** ** A concrete core: slot 0 decided, one request waiting *)
Section Demo.
#[local] Existing Instance demo_machine.
#[local] Existing Instance demo_laws.

Definition local_wait : Request := mkRequest (mkRequestID 8 1) (mkCommand GET 3 []).
Definition local_core : core :=
  mkCore 3 0 0 [] 0 0 0 true false 0 (-1) {[0 := demo_decided]} ∅ {[ID demo_put := 0]}
    {[ID local_wait := local_wait]} ∅ ∅ ∅ [ID demo_put; ID local_wait] {[ID demo_put; ID local_wait]}
    (-1) None None sm_init 0 0 0 0 0 [] [].

Lemma apply_complete_witness :
  runnable local_core ∧
  ∃ c', apply local_core = Done c' ∧ log c' = log local_core ∧ executed local_core ≤ executed c' ∧
    decided_range local_core (executed local_core + 1) (executed c') ∧
    (∀ r, log local_core !! (executed c' + 1) = Some r → Committed r = false) ∧
    forEach replay_one (requests_between (executed local_core + 1) (executed c') (log local_core))
      (sm local_core, values local_core) = Done (sm c', values c').
Proof.
  assert (runnable local_core) as H.
  { intros s r. change (log local_core) with ({[0 := demo_decided]} : gmap Z Record_).
    intros [<- <-]%lookup_singleton_Some. right. reflexivity. }
  split; [exact H|]. exact (apply_complete local_core H).
Defined.

Lemma flush_batches_witness :
  high local_core - executed local_core < AdmissionWindow ∧
  ∃ ids batch c1, batch_spec (queue local_core) local_core ids batch c1 ∧
    Z.of_nat (length batch) ≤ PageSize ∧ high c1 - executed c1 ≤ AdmissionWindow ∧
    flush demo_env 3 local_core =
      if decide (batch = []) then Done c1
      else let p := batch_packet c1 batch in accept demo_env (receive 3 demo_env) p (broadcast p c1).
Proof.
  assert (high local_core - executed local_core < AdmissionWindow) as H by reflexivity.
  split; [exact H|]. exact (proj2 (flush_batches demo_env 3 local_core) H).
Defined.

Lemma promise_pages_reassemble_witness :
  promise_page 0 (promise_values 0 local_core) local_core 0 ∈ promise_pages 0 local_core ∧
  complete_pages (promise_page 0 (promise_values 0 local_core) local_core 0) local_core
    (list_to_map ((λ q, (Page q, q)) <$> promise_pages 0 local_core)) = true.
Proof.
  assert (promise_page 0 (promise_values 0 local_core) local_core 0 ∈ promise_pages 0 local_core) as H
    by constructor.
  split; [exact H|].
  destruct (promise_pages_reassemble 0 local_core) as (_ & _ & _ & Hc). by apply Hc.
Defined.

Lemma next_ballot_owned_witness :
  4 < next_ballot 3 2 4 ≤ 4 + 2 * 3 ∧ next_ballot 3 2 4 `mod` 3 = 2 ∧
  (2 ≠ 0 → next_ballot 3 2 4 ≠ next_ballot 3 0 7).
Proof. apply (next_ballot_owned 3 2 0 4 7); lia. Defined.
End Demo.
End PaxosLocal.
