(* ===== verification/PaxosReplica.v ===== *)
(** * PaxosReplica: the runtime adapter around the Paxos core ([paxos/replica.go])

    The adapter registers a proposal before it submits it, answers a client
    when the core's [reply] callback names a registered proposal, and forgets
    the proposal then.  The callback touches only [proposals], so a handler is
    the core's handler followed by the callbacks for the replies it emitted, in
    order.

    [adapter_refines_core]: valid events are exactly the core's events, invalid
    ones are rejected without a trace.  [answers_bounded]: a client never gets
    more answers for a request than proposals it sent. *)
From stdpp Require Import gmap strings list fin_maps.
From Stdlib Require Import Lia.
From S2P Require Import Prelude State ReplicaSet Defs Paxos PaxosSystem.
Import Paxos.

Module PaxosReplica.
Section Replica.
Context {SM : StateMachine}.

Record replica := mkReplica {
  core_ : core;
  proposals : gmap RequestID GPropose;
  answers : list ClientReply;
}.
#[export] Instance eta_replica : Eta replica := λ r, mkReplica (core_ r) (proposals r) (answers r).
#[export] Instance set_core : Setter core_ := ltac:(mk_setter).
#[export] Instance set_proposals : Setter proposals := ltac:(mk_setter).
#[export] Instance set_answers : Setter answers := ltac:(mk_setter).

Definition newReplica (n id leader : Z) : outcome replica :=
  c ← newCore n id leader; Done (mkReplica c ∅ []).

(** [Replica.client], for a registered proposal: without a writer the message
    is dropped. *)
Definition client (id : RequestID) (g : GPropose) (msg : ProposeReplyTS) (r : replica) : replica :=
  match ReplyWriter g with
  | Some w => r <| answers ::= (λ l, l ++ [mkClientReply (Client id) w msg]) |>
  | None => r
  end.

(** The [reply] callback installed by [newReplica]. *)
Definition reply_callback (req : Request) (v : Value) (r : replica) : replica :=
  let r := match proposals r !! ID req with
           | Some g => client (ID req) g
               (mkProposeReplyTS TRUE (Sequence (ID req)) v (Timestamp (GProposal g))) r
           | None => r
           end in
  r <| proposals ::= delete (ID req) |>.

Definition on_event (ev : event) (r : replica) : replica :=
  match ev with Replied req v => reply_callback req v r | _ => r end.

(** Run a core handler and the callbacks of the events it emits. *)
Definition with_core (h : core → outcome core) (r : replica) : outcome replica :=
  c ← h (core_ r);
  Done (foldl (λ r ev, on_event ev r) (r <| core_ := c |>) (drop (length (out (core_ r))) (out c))).

(** The machine's operations return an error, or nil. *)
Definition result : Type := option string * replica.

Definition Propose (e : env) (g : option GPropose) (r : replica) : outcome result :=
  match g with
  | None => Done (Some "protocol: nil proposal"%string, r)
  | Some g =>
      let id := ProposeRequestID (GProposal g) in
      let r := r <| proposals ::= <[id := g]> |> in
      r ← with_core (submit (receive PaxosSystem.dispatchFuel e) (mkRequest id (PCommand (GProposal g)))) r;
      Done (None, r)
  end.

(** The event is a packet ([Some]), or anything else. *)
Definition Step (e : env) (p : option Packet) (r : replica) : outcome result :=
  match p with
  | None => Done (Some "paxos: unsupported event"%string, r)
  | Some p => r ← with_core (receive PaxosSystem.dispatchFuel e p) r; Done (None, r)
  end.

Definition Tick (e : env) (t : Defs.Tick) (r : replica) : outcome result :=
  if decide (TickKind t ≠ Maintenance) then Done (Some "paxos: unsupported timer"%string, r)
  else if negb (Z.of_nat (length (TickAlive t)) =? cn (core_ r))
  then Done (Some "paxos: connectivity snapshot size mismatch"%string, r)
  else r ← with_core (tick e PaxosSystem.dispatchFuel (TickNow t) (TickAlive t)) r; Done (None, r).

Definition Leader (r : replica) : Z := leader (core_ r).

(** ** The events of a replica *)
Inductive call :=
  | CPropose (e : env) (g : option GPropose)
  | CStep (e : env) (p : option Packet)
  | CTick (e : env) (t : Defs.Tick).

Definition perform (k : call) (r : replica) : outcome result :=
  match k with
  | CPropose e g => Propose e g r
  | CStep e p => Step e p r
  | CTick e t => Tick e t r
  end.

(** The input of [PaxosSystem] a call amounts to, if it is valid. *)
Definition core_input (a n : Z) (k : call) : option PaxosSystem.input :=
  match k with
  | CPropose e (Some g) =>
      Some (PaxosSystem.IPropose a (mkRequest (ProposeRequestID (GProposal g)) (PCommand (GProposal g))) e)
  | CStep e (Some p) => Some (PaxosSystem.IDeliver a p e)
  | CTick e t =>
      if decide (TickKind t = Maintenance ∧ Z.of_nat (length (TickAlive t)) = n)
      then Some (PaxosSystem.ITick a (TickNow t) (TickAlive t) e) else None
  | _ => None
  end.

Lemma on_events_core evs r : core_ (foldl (λ r ev, on_event ev r) r evs) = core_ r.
Proof.
  revert r. induction evs as [|ev evs IH]; intros r; [done|]. simpl. rewrite IH.
  destruct ev; try done. unfold on_event, reply_callback, client. repeat case_match; done.
Qed.

(** How often a client was answered, and how often it asked. *)
Definition answered (id : RequestID) (r : replica) : nat :=
  length (filter (λ a, ReplyClient a = Client id ∧ ReplyCommandId (ReplyMessage a) = Sequence id) (answers r)).
Definition asks (id : RequestID) (k : call) : nat :=
  match k with
  | CPropose _ (Some g) => if decide (ProposeRequestID (GProposal g) = id) then 1 else 0
  | _ => 0
  end.
Definition asked (id : RequestID) (ks : list call) : nat := sum_list_with (asks id) ks.

Fixpoint perform_all (ks : list call) (r : replica) : outcome replica :=
  match ks with
  | [] => Done r
  | k :: ks => '(_, r) ← perform k r; perform_all ks r
  end.

(** Answers given plus answers still owed. *)
Definition credit (id : RequestID) (r : replica) : nat :=
  answered id r + if decide (is_Some (proposals r !! id)) then 1 else 0.

Lemma reply_callback_credit id req v r : (credit id (reply_callback req v r) ≤ credit id r)%nat.
Proof.
  unfold credit, reply_callback, client, answered.
  destruct (decide (ID req = id)) as [<-|Hne].
  - rewrite (decide_False (P := is_Some (proposals (_ <| proposals ::= _ |>) !! _))).
    2: { simpl. rewrite lookup_delete_eq. by intros [? [=]]. }
    destruct (proposals r !! ID req) as [g|]; [|simpl; lia].
    rewrite decide_True by eauto. destruct (ReplyWriter g); simpl; [|lia].
    rewrite filter_app, length_app, filter_cons_True by done. simpl. lia.
  - simpl. rewrite lookup_delete_ne by done.
    assert (∀ r', proposals (match proposals r !! ID req with
      | Some g => client (ID req) g r' r | None => r end) = proposals r) as Hp
      by (intros r'; unfold client; by repeat case_match).
    destruct (proposals r !! ID req) as [g|]; [|done].
    destruct (ReplyWriter g); simpl; [|done].
    rewrite filter_app, length_app, filter_cons_False; [simpl; lia|]. simpl.
    intros [E1 E2]. destruct Hne. destruct (ID req), id; simpl in *; congruence.
Qed.

Lemma on_events_credit id evs r :
  (credit id (foldl (λ r ev, on_event ev r) r evs) ≤ credit id r)%nat.
Proof.
  revert r. induction evs as [|ev evs IH]; intros r; [done|]. simpl. etrans; [apply IH|].
  destruct ev; try done. apply reply_callback_credit.
Qed.

Lemma with_core_credit id h r r' : with_core h r = Done r' → (credit id r' ≤ credit id r)%nat.
Proof.
  unfold with_core. destruct (h (core_ r)) as [c| |]; simpl; [|done..]. intros [= <-].
  etrans; [apply on_events_credit|]. done.
Qed.

Lemma perform_credit id k r err r' :
  perform k r = Done (err, r') → (credit id r' ≤ credit id r + asks id k)%nat.
Proof.
  destruct k as [e [g|]|e [p|]|e t]; simpl; unfold Propose, Step, Tick.
  - destruct (with_core _ _) as [r1| |] eqn:E; simpl; [|done..]. intros [= <- <-].
    apply (with_core_credit id) in E. etrans; [exact E|]. unfold credit, answered. simpl.
    rewrite lookup_insert. case_decide as Hd; case_decide as Hi; repeat case_decide; try lia; congruence.
  - intros [= <- <-]. lia.
  - destruct (with_core _ _) as [r1| |] eqn:E; simpl; [|done..]. intros [= <- <-].
    apply (with_core_credit id) in E. lia.
  - intros [= <- <-]. lia.
  - repeat case_match; try (intros [= <- <-]; lia). 
    destruct (with_core _ _) as [r1| |] eqn:E; simpl; [|done..]. intros [= <- <-].
    apply (with_core_credit id) in E. lia.
Qed.

(** ** Properties *)

(** The adapter refines the core.  A valid event runs the core's handler
    for it and nothing else changes the core; an invalid event (nil proposal,
    foreign message, wrong timer, snapshot of the wrong size) reports an error
    and leaves the replica as it was. *)
Theorem adapter_refines_core a k r :
  match core_input a (cn (core_ r)) k with
  | Some i =>
      match PaxosSystem.handle i (core_ r) with
      | Done c => ∃ r', perform k r = Done (None, r') ∧ core_ r' = c
      | Panicked why => perform k r = Panicked why
      | OutOfFuel => perform k r = OutOfFuel
      end
  | None => ∃ err, perform k r = Done (Some err, r)
  end.
Proof.
  assert (∀ h r, match h (core_ r) with
    | Done c => ∃ r', (r ← with_core h r; Done (None : option string, r)) = Done (None, r') ∧ core_ r' = c
    | Panicked why => (r ← with_core h r; Done (None : option string, r)) = Panicked why
    | OutOfFuel => (r ← with_core h r; Done (None : option string, r)) = OutOfFuel end) as H.
  { intros h r0. unfold with_core. destruct (h (core_ r0)) as [c| |]; simpl; [|done..].
    eexists. split; [done|]. by rewrite on_events_core. }
  destruct k as [e [g|]|e [p|]|e t]; cbn [core_input perform PaxosSystem.handle].
  - pose proof (H (submit (receive PaxosSystem.dispatchFuel e) (mkRequest (ProposeRequestID (GProposal g))
      (PCommand (GProposal g)))) (r <| proposals ::= <[ProposeRequestID (GProposal g) := g]> |>)) as Hs.
    exact Hs.
  - by eexists.
  - exact (H (receive PaxosSystem.dispatchFuel e p) r).
  - by eexists.
  - unfold Tick. case_decide as Hd.
    + destruct Hd as [Hk Hn]. rewrite decide_False by tauto.
      rewrite (proj2 (Z.eqb_eq _ _) Hn). cbn [negb].
      exact (H (tick e PaxosSystem.dispatchFuel (TickNow t) (TickAlive t)) r).
    + case_decide as Hk; [by eexists|].
      destruct (_ =? _) eqn:En; [|by eexists]. destruct Hd. split; [done|]. by apply Z.eqb_eq.
Qed.

(** C27.  A client is never answered more often than it asked: over any run of a
    fresh replica the answers sent for a request identity are at most the
    proposals registered under it, whatever the core replies. *)
Theorem answers_bounded n id leader r0 ks r i :
  newReplica n id leader = Done r0 → perform_all ks r0 = Done r → (answered i r ≤ asked i ks)%nat.
Proof.
  intros H0. assert (credit i r0 = 0)%nat as Hc.
  { unfold newReplica in H0. destruct (newCore n id leader); simpl in H0; [|done..].
    by injection H0 as <-. }
  assert (∀ ks r0 r, perform_all ks r0 = Done r → (credit i r ≤ credit i r0 + asked i ks)%nat) as H.
  { clear. induction ks as [|k ks IH]; intros r0 r; simpl; [intros [= <-]; lia|].
    destruct (perform k r0) as [[err r1]| |] eqn:E; simpl; [|done..]. intros H.
    apply IH in H. apply (perform_credit i) in E. unfold asked in *. simpl. lia. }
  intros Hr. apply H in Hr. unfold credit in Hr at 1. lia.
Qed.
End Replica.

(** A leader answers one proposal, once its two acknowledgements are in. *)
Section Demo.
#[local] Existing Instance demo_machine.
#[local] Existing Instance demo_laws.
Import PaxosSystem.

Definition demo_proposal : GPropose := mkGPropose (mkPropose 1 7 (Cmd demo_put) 55) (Some 4).
Definition demo_calls : list call :=
  [ CPropose demo_env (Some demo_proposal); CTick demo_env (mkTick Maintenance 1000000000 [true; true; true]);
    CStep demo_env (Some demo_ack); CStep demo_env None; CPropose demo_env (Some demo_proposal) ].
Definition demo_fresh : replica :=
  mkReplica (mkCore 3 0 0 [] 0 0 0 true false (-1) (-1) ∅ ∅ ∅ ∅ ∅ ∅ ∅ [] ∅ (-1)
               None None sm_init 0 0 0 0 0 [] []) ∅ [].
Definition demo_replica : replica := result_or demo_fresh (perform_all demo_calls demo_fresh).

Lemma answers_bounded_witness :
  answered (ID demo_put) demo_replica = 2%nat ∧
  (answered (ID demo_put) demo_replica ≤ asked (ID demo_put) demo_calls)%nat.
Proof.
  split; [vm_compute; reflexivity|].
  apply (answers_bounded 3 0 0 demo_fresh demo_calls demo_replica (ID demo_put)); [reflexivity|].
  apply result_or_done. vm_compute. reflexivity.
Defined.
End Demo.
End PaxosReplica.
