(* ===== verification/FastPaxos.v ===== *)
(** * FastPaxos: the Fast Paxos core (package [fastpaxos])

    [fastpaxos/core.go], [recovery.go], [execute.go] and [defs.go], one
    definition per method, over the record [core] of the fields of [type core].

    - Messages leave through [out], a queue the runtime drains after each event
      ([c.out], here a trace that only grows); [reply] is a second trace.
      Nothing reenters the core.
    - [pending] is a map from identities to elements of [forwardOrder]; an
      identity occurs once in that list, so the model keeps the set of keys and
      removes the element by its identity.
    - The loops over maps take their order from [env].
    - [promise] is a [uint64] and wraps; slots are [int] and grow one by one. *)
From stdpp Require Import gmap strings list fin_maps.
From Stdlib Require Import Lia.
From S2P Require Import Prelude State ReplicaSet Defs.

Module FastPaxos.

(** ** Messages ([fastpaxos/defs.go], [fastpaxos/messages.pb.go]) *)
Definition msgVote : Z := 0.
Definition msgPrepare : Z := 1.
Definition msgPromise : Z := 2.
Definition msgAccept : Z := 3.
Definition msgAccepted : Z := 4.
Definition msgCommit : Z := 5.
Definition msgHeartbeat : Z := 6.
Definition msgFetch : Z := 7.
Definition msgData : Z := 8.
Definition msgForward : Z := 9.
Definition msgNack : Z := 10.
Definition msgRecover : Z := 11.

Definition pageSize : Z := 128.
Definition repairBudget : Z := 32 * pageSize.
Definition inflightWindow : Z := 16384.
Definition fastWindow : Z := 8192.
Definition failureTimeout : Z := 3 * Second.

(** [fastQuorumSize]: strictly more than three quarters. *)
Definition fastQuorumSize (n : Z) : Z := Z.quot (3 * n) 4 + 1.

Record record := mkRecord { ID : RequestID; Cmd : Command; Noop : bool }.
Record entry := mkEntry {
  Slot : Z; Epoch : Z; Round : Z; EValue : record; Payload : bool; Decided : bool }.
Record message := mkMessage {
  Kind : Z; From : Z; MEpoch : Z; Start : Z; High : Z; Page : Z; Pages : Z; Entries : list entry }.
Record envelope := mkEnvelope { To : Z; Message : message }.

#[export] Instance record_eq_dec : EqDecision record.
Proof. solve_decision. Defined.
#[export] Instance entry_eq_dec : EqDecision entry.
Proof. solve_decision. Defined.
#[export] Instance message_eq_dec : EqDecision message.
Proof. solve_decision. Defined.
#[export] Instance envelope_eq_dec : EqDecision envelope.
Proof. solve_decision. Defined.

#[export] Instance eta_record : Eta record := λ r, mkRecord (ID r) (Cmd r) (Noop r).
#[export] Instance set_Cmd : Setter Cmd := ltac:(mk_setter).
#[export] Instance eta_entry : Eta entry :=
  λ e, mkEntry (Slot e) (Epoch e) (Round e) (EValue e) (Payload e) (Decided e).
#[export] Instance set_EValue : Setter EValue := ltac:(mk_setter).
#[export] Instance set_Payload : Setter Payload := ltac:(mk_setter).
#[export] Instance set_Decided : Setter Decided := ltac:(mk_setter).
#[export] Instance eta_message : Eta message :=
  λ m, mkMessage (Kind m) (From m) (MEpoch m) (Start m) (High m) (Page m) (Pages m) (Entries m).
#[export] Instance set_From : Setter From := ltac:(mk_setter).
#[export] Instance set_MEpoch : Setter MEpoch := ltac:(mk_setter).
#[export] Instance set_Start : Setter Start := ltac:(mk_setter).
#[export] Instance set_High : Setter High := ltac:(mk_setter).
#[export] Instance set_Page : Setter Page := ltac:(mk_setter).
#[export] Instance set_Pages : Setter Pages := ltac:(mk_setter).
#[export] Instance set_Entries : Setter Entries := ltac:(mk_setter).

Definition zeroCommand : Command := mkCommand 0 0 [].
Definition zeroRecord : record := mkRecord (mkRequestID 0 0) zeroCommand false.
Definition noopRecord : record := mkRecord (mkRequestID 0 0) zeroCommand true.
Definition zeroEntry : entry := mkEntry 0 0 0 zeroRecord false false.

(** A message literal of a kind; the fields not given are zero. *)
Definition msg (kind : Z) : message := mkMessage kind 0 0 0 0 0 0 [].

Definition sameValue (a b : record) : bool :=
  Bool.eqb (Noop a) (Noop b) && (Noop a || bool_decide (ID a = ID b)).

Definition newer (a b : entry) : bool :=
  (Epoch b <? Epoch a) || ((Epoch a =? Epoch b) && (Round b <? Round a)).

(** ** Selecting the value of a slot ([selectValue]) *)
Section Select.
Variable ord : list Z * list Z * list RequestID.   (* the three map iterations *)

(** The first loop: a decided report, or the newest one. *)
Fixpoint scan_reports (l : list (Z * entry)) (top : option entry) : entry + option entry :=
  match l with
  | [] => inr top
  | (_, e) :: l =>
      if Decided e then inl e
      else scan_reports l (match top with
                           | None => Some e
                           | Some t => if newer e t then Some e else Some t
                           end)
  end.

(** The second loop: the values reported in the newest round and who reports
    each, unless one is a no-op. *)
Fixpoint scan_round (l : list (Z * entry)) (top : entry)
    (values : gmap RequestID record) (supports : gmap RequestID Z) :
    record + gmap RequestID record * gmap RequestID Z :=
  match l with
  | [] => inr (values, supports)
  | (id, e) :: l =>
      if (Epoch e =? Epoch top) && (Round e =? Round top) then
        if Noop (EValue e) then inl (EValue e)
        else scan_round l top (<[ID (EValue e) := EValue e]> values)
               (<[ID (EValue e) := Z.lor (default 0 (supports !! ID (EValue e))) (Z.shiftl 1 id)]> supports)
      else scan_round l top values supports
  end.

Definition selectValue (reports : gmap Z entry) (voters fastSize n : Z) : outcome (record * bool) :=
  match scan_reports (range_order ord.1.1 reports) None with
  | inl e => Done (EValue e, true)
  | inr None => Done (noopRecord, false)
  | inr (Some top) =>
      match scan_round (range_order ord.1.2 reports) top ∅ ∅ with
      | inl v => Done (v, true)
      | inr (values, supports) =>
          if Nat.eqb (size values) 1 then Done (EValue top, true)
          else if 0 <? Epoch top then Panicked "multiple classic values in one epoch"
          else
            let minimum := fastSize + ReplicaSet.Size voters - n in
            match list_find (λ kv, minimum ≤ ReplicaSet.Size (default 0 (supports !! kv.1)))
                    (range_order ord.2 values) with
            | Some (_, (_, v)) => Done (v, true)
            | None => Done (noopRecord, false)
            end
      end
  end.
End Select.

(** ** State *)
Record slotState := mkSlotState {
  accepted : option entry; proposed : option entry; chosen : option entry;
  votes : gmap Z entry; maxVotes : Z; acks : Z;
  slocal : option RequestID; deferred : option entry }.
#[export] Instance eta_slotState : Eta slotState := λ s,
  mkSlotState (accepted s) (proposed s) (chosen s) (votes s) (maxVotes s) (acks s) (slocal s) (deferred s).
#[export] Instance set_accepted : Setter accepted := ltac:(mk_setter).
#[export] Instance set_proposed : Setter proposed := ltac:(mk_setter).
#[export] Instance set_chosen : Setter chosen := ltac:(mk_setter).
#[export] Instance set_votes : Setter votes := ltac:(mk_setter).
#[export] Instance set_maxVotes : Setter maxVotes := ltac:(mk_setter).
#[export] Instance set_acks : Setter acks := ltac:(mk_setter).
#[export] Instance set_slocal : Setter slocal := ltac:(mk_setter).
#[export] Instance set_deferred : Setter deferred := ltac:(mk_setter).

Definition emptySlot : slotState := mkSlotState None None None ∅ 0 0 None None.

Record snapshot := mkSnapshot { spages : Z; shigh : Z; parts : gmap Z (list entry) }.
Record pendingCommand := mkPending { pid : RequestID; retryAt : Z }.

(** The iteration orders an event may use. *)
Record env := mkEnv {
  ord_select : Z → list Z * list Z * list RequestID;   (* per slot: [selectValue] *)
  ord_snapshots : list Z;                              (* range c.snapshots *)
  ord_parts : Z → list Z;                              (* range s.parts *)
  ord_slots : list Z;                                  (* range c.slots *)
}.
Section Core.
Context `{SM : StateMachine}.

Record core := mkCore {
  cid : Z;
  cn : Z;
  fastSize : Z;
  promise : Z;
  active : bool;
  preparing : bool;
  start : Z;
  high : Z;
  next : Z;
  executed : Z;
  slots : gmap Z slotState;
  known : gmap RequestID record;
  pending : gset RequestID;
  forwardOrder : list pendingCommand;
  results : gmap RequestID Value;
  assigned : gset RequestID;
  queue : list RequestID;
  snapshots : gmap Z snapshot;
  frozen : list message;
  frozenStart : Z;
  out : list envelope;
  replies : list (RequestID * Value);
  heard : list Z;
  cnow : Z;
  lastProgress : Z;
  lastBeat : Z;
  lastRetry : Z;
  lastRepair : Z;
  retryCursor : Z;
  stalled : bool;
  windowFallbacks : Z;
  ageFallbacks : Z;
  elections : Z;
  fastCommits : Z;
  classicCommits : Z;
  repaired : Z;
  sm : sm_state;
}.

#[export] Instance eta_core : Eta core := λ c,   mkCore (cid c) (cn c) (fastSize c) (promise c)
    (active c) (preparing c) (start c) (high c) (next c) (executed c) (slots c) (known c) (pending
    c) (forwardOrder c) (results c) (assigned c) (queue c) (snapshots c) (frozen c) (frozenStart
    c) (out c) (replies c) (heard c) (cnow c) (lastProgress c) (lastBeat c) (lastRetry c)
    (lastRepair c) (retryCursor c) (stalled c) (windowFallbacks c) (ageFallbacks c) (elections c)
    (fastCommits c) (classicCommits c) (repaired c) (sm c).
#[export] Instance set_promise : Setter promise := ltac:(mk_setter).
#[export] Instance set_active : Setter active := ltac:(mk_setter).
#[export] Instance set_preparing : Setter preparing := ltac:(mk_setter).
#[export] Instance set_start : Setter start := ltac:(mk_setter).
#[export] Instance set_high : Setter high := ltac:(mk_setter).
#[export] Instance set_next : Setter next := ltac:(mk_setter).
#[export] Instance set_executed : Setter executed := ltac:(mk_setter).
#[export] Instance set_slots : Setter slots := ltac:(mk_setter).
#[export] Instance set_known : Setter known := ltac:(mk_setter).
#[export] Instance set_pending : Setter pending := ltac:(mk_setter).
#[export] Instance set_forwardOrder : Setter forwardOrder := ltac:(mk_setter).
#[export] Instance set_results : Setter results := ltac:(mk_setter).
#[export] Instance set_assigned : Setter assigned := ltac:(mk_setter).
#[export] Instance set_queue : Setter queue := ltac:(mk_setter).
#[export] Instance set_snapshots : Setter snapshots := ltac:(mk_setter).
#[export] Instance set_frozen : Setter frozen := ltac:(mk_setter).
#[export] Instance set_frozenStart : Setter frozenStart := ltac:(mk_setter).
#[export] Instance set_out : Setter out := ltac:(mk_setter).
#[export] Instance set_replies : Setter replies := ltac:(mk_setter).
#[export] Instance set_heard : Setter heard := ltac:(mk_setter).
#[export] Instance set_cnow : Setter cnow := ltac:(mk_setter).
#[export] Instance set_lastProgress : Setter lastProgress := ltac:(mk_setter).
#[export] Instance set_lastBeat : Setter lastBeat := ltac:(mk_setter).
#[export] Instance set_lastRetry : Setter lastRetry := ltac:(mk_setter).
#[export] Instance set_lastRepair : Setter lastRepair := ltac:(mk_setter).
#[export] Instance set_retryCursor : Setter retryCursor := ltac:(mk_setter).
#[export] Instance set_stalled : Setter stalled := ltac:(mk_setter).
#[export] Instance set_windowFallbacks : Setter windowFallbacks := ltac:(mk_setter).
#[export] Instance set_ageFallbacks : Setter ageFallbacks := ltac:(mk_setter).
#[export] Instance set_elections : Setter elections := ltac:(mk_setter).
#[export] Instance set_fastCommits : Setter fastCommits := ltac:(mk_setter).
#[export] Instance set_classicCommits : Setter classicCommits := ltac:(mk_setter).
#[export] Instance set_repaired : Setter repaired := ltac:(mk_setter).
#[export] Instance set_sm : Setter sm := ltac:(mk_setter).

(** [newCore] *)
Definition newCore (id n : Z) : outcome core :=
  if (n <? 3) || (63 <? n) || (Z.rem n 2 =? 0) || (id <? 0) || (n <=? id)
  then Panicked "invalid FastPaxos membership/quorum"
  else Done (mkCore id n (fastQuorumSize n) 0 false false 0 (-1) 0 (-1) ∅ ∅ ∅ [] ∅ ∅ [] ∅ [] 0 [] []
               (replicate (Z.to_nat n) 0) 0 0 0 0 0 0 false 0 0 0 0 0 0 sm_init).

(** [slot]: the slot's state, created on first use. *)
Definition slot (s : Z) (c : core) : outcome (slotState * core) :=
  if s <? 0 then Panicked "negative slot" else
  let c := if high c <? s then c <| high := s |> else c in
  match slots c !! s with
  | Some st => Done (st, c)
  | None => Done (emptySlot, c <| slots ::= <[s := emptySlot]> |>)
  end.

(** A write through the pointer [slot] returned. *)
Definition set_slot (s : Z) (f : slotState → slotState) (c : core) : core :=
  c <| slots ::= alter f s |>.

Definition send (to : Z) (m : message) (c : core) : core :=
  c <| out ::= (λ o, o ++ [mkEnvelope to (m <| From := cid c |>)]) |>.
Definition broadcast (m : message) (c : core) : core := send (-1) m c.
Definition reply (id : RequestID) (v : Value) (c : core) : core :=
  c <| replies ::= (λ l, l ++ [(id, v)]) |>.

Definition owner (c : core) : Z := promise c `mod` cn c.

Definition remember (v : record) (c : core) : outcome core :=
  if Noop v then Done c else
  match known c !! ID v with
  | Some old =>
      if negb (Op (Cmd old) =? Op (Cmd v)) || negb (K (Cmd old) =? K (Cmd v))
         || bool_decide (V (Cmd old) ≠ V (Cmd v))
      then Panicked "command ID reused with different data"
      else Done c
  | None => Done (c <| known ::= <[ID v := v]> |>)
  end.

(** [c.known[id]]: a missing identity reads as the zero record. *)
Definition known_or_zero (c : core) (id : RequestID) : record := default zeroRecord (known c !! id).

Definition forgetPending (id : RequestID) (c : core) : core :=
  if decide (id ∈ pending c)
  then c <| forwardOrder ::= filter (λ p, pid p ≠ id) |> <| pending ::= (λ s, s ∖ {[id]}) |>
  else c.

Definition enqueue (id : RequestID) (c : core) : core :=
  if decide (id ∈ assigned c) then c
  else c <| assigned ::= union {[id]} |> <| queue ::= (λ q, q ++ [id]) |>.

(** [apply]: one slot; [None] when the loop stops. *)
Definition apply_one (c : core) : outcome (option core) :=
  match slots c !! (executed c + 1) with
  | None => Done None
  | Some s =>
      match chosen s with
      | None => Done None
      | Some e =>
          let v := EValue e in
          let advance (c : core) := Done (Some (c <| executed ::= (λ x, x + 1) |> <| lastProgress := cnow c |>)) in
          if Noop v then advance c else
          match known c !! ID v with
          | None => Done None
          | Some full =>
              c ← match results c !! ID v with
                  | Some _ => Done c
                  | None =>
                      '(result, st) ← sm_execute (Cmd full) (sm c);
                      Done (reply (ID v) result (c <| sm := st |> <| results ::= <[ID v := result]> |>))
                  end;
              advance (forgetPending (ID v) c)
          end
      end
  end.

Fixpoint apply_loop (fuel : nat) (c : core) : outcome core :=
  match fuel with
  | O => OutOfFuel
  | S fuel => r ← apply_one c; match r with None => Done c | Some c => apply_loop fuel c end
  end.

(** Each round executes one more slot of the map, so its size bounds them. *)
Definition apply (c : core) : outcome core := apply_loop (S (size (slots c))) c.

Definition vote (e : entry) (c : core) : outcome core :=
  if negb (promise c =? 0) then Done c else
  '(s, c) ← slot (Slot e) c;
  if decide (is_Some (accepted s)) then Done c else
  let cast (e : entry) (c : core) :=
    let e := e <| Payload := true |> in
    let c := set_slot (Slot e) (λ s, s <| accepted := Some e |> <| deferred := None |>) c in
    let wire := e <| Payload := false |> <| EValue ::= (λ v, v <| Cmd := zeroCommand |>) |> in
    Done (broadcast (msg msgVote <| Entries := [wire] |>) c) in
  if Noop (EValue e) then cast e c else
  match known c !! ID (EValue e) with
  | None =>
      let c := set_slot (Slot e) (λ s, s <| deferred := Some e |>) c in
      Done (broadcast (msg msgFetch <| Entries := [e] |>) c)
  | Some v => cast (e <| EValue := v |>) c
  end.

Definition proposeFast (v : record) (c : core) : outcome core :=
  if fastWindow <=? next c - executed c - 1 then
    let c := if stalled c then c else c <| windowFallbacks ::= (λ x, u64 (x + 1)) |> in
    Done (c <| stalled := true |>)
  else
    let s := next c in
    let c := c <| next ::= (λ x, x + 1) |> in
    '(_, c) ← slot s c;
    let c := set_slot s (λ st, st <| slocal := Some (ID v) |>) c in
    vote (mkEntry s 0 1 v true false) c.

Definition submit (v : record) (c : core) : outcome core :=
  c ← remember v c;
  c ← apply c;
  match results c !! ID v with
  | Some result => Done (reply (ID v) result c)
  | None =>
      if decide (ID v ∈ pending c) then Done c else
      let c := if decide (pending c = ∅) then c <| lastProgress := cnow c |> else c in
      let c := c <| forwardOrder ::= (λ l, l ++ [mkPending (ID v) (cnow c + failureTimeout)]) |>
                 <| pending ::= union {[ID v]} |> in
      if promise c =? 0 then proposeFast v c
      else Done (if active c && (owner c =? cid c) then enqueue (ID v) c else c)
  end.

Definition learn (e : entry) (c : core) : outcome core :=
  '(s, c) ← slot (Slot e) c;
  if match chosen s with Some old => negb (sameValue (EValue old) (EValue e)) | None => false end
  then Panicked "conflicting decision"
  else
    c ← (if Payload e then remember (EValue e) c else Done c);
    let c := set_slot (Slot e) (λ s, s <| chosen := Some (e <| Decided := true |>) |>) c in
    let c := if Noop (EValue e) then c else forgetPending (ID (EValue e)) c in
    c ← apply c;
    match slocal s with
    | Some l =>
        if (promise c =? 0) && negb (sameValue (mkRecord l zeroCommand false) (EValue e))
           && bool_decide (l ∈ pending c)
        then
          let v := known_or_zero c l in
          proposeFast v (set_slot (Slot e) (λ s, s <| slocal := None |>) c)
        else Done c
    | None => Done c
    end.

(** [flush] *)
Fixpoint flush_loop (q : list RequestID) (batch : list entry) (c : core) : outcome (list entry * core) :=
  match q with
  | [] => Done (batch, c)
  | id :: q =>
      if (Z.of_nat (length batch) <? pageSize) && (next c - executed c <? inflightWindow) then
        let c := c <| queue := q |> in
        if decide (is_Some (results c !! id)) then flush_loop q batch c
        else
          let e := mkEntry (next c) (promise c) 0 (known_or_zero c id) true false in
          let c := c <| next ::= (λ x, x + 1) |> in
          '(_, c) ← slot (Slot e) c;
          let c := set_slot (Slot e) (λ st, st <| proposed := Some e |> <| acks := 0 |>) c in
          flush_loop q (batch ++ [e]) c
      else Done (batch, c)
  end.

Definition flush (c : core) : outcome core :=
  if negb (active c) || negb (owner c =? cid c) then Done c else
  '(batch, c) ← flush_loop (queue c) [] c;
  if Nat.eqb (length batch) 0 then Done c
  else Done (broadcast (msg msgAccept <| MEpoch := promise c |> <| Entries := batch |>) c).

(** ** Recovery ([recovery.go]) *)
Definition adopt (epoch : Z) (c : core) : core :=
  if epoch <=? promise c then c
  else c <| promise := epoch |> <| active := false |> <| preparing := false |> <| frozen := [] |>
         <| queue := [] |> <| assigned := ∅ |>.

(** [(c.promise/uint64(c.n)+1)*uint64(c.n) + uint64(c.id)] in [uint64] *)
Definition next_epoch (c : core) : Z :=
  u64 (u64 (u64 (promise c / cn c + 1) * cn c) + cid c).

Definition begin (c : core) : core :=
  let e := next_epoch c in
  let c := adopt e c in
  let c := c <| preparing := true |> <| start := executed c + 1 |> <| snapshots := ∅ |>
             <| elections ::= (λ x, u64 (x + 1)) |> <| lastRetry := cnow c |> in
  broadcast (msg msgPrepare <| MEpoch := e |> <| Start := start c |>) c.

(** The reported entry of a slot: its decision, or its vote; with the payload
    when it is known. *)
Definition report_entry (c : core) (s : Z) : option entry :=
  st ← slots c !! s;
  e ← (match chosen st with Some e => Some e | None => accepted st end);
  Some (if Noop (EValue e) then e else
        match known c !! ID (EValue e) with
        | Some full => e <| EValue := full |> <| Payload := true |>
        | None => e
        end).

Definition page_count (len : nat) : Z :=
  let pages := (Z.of_nat len + pageSize - 1) / pageSize in if pages =? 0 then 1 else pages.

Definition promise_page (lo : Z) (entries : list entry) (c : core) (p : Z) : message :=
  msg msgPromise <| MEpoch := promise c |> <| Start := lo |> <| High := high c |> <| Page := p |>
    <| Pages := page_count (length entries) |>
    <| Entries := take (Z.to_nat pageSize) (drop (Z.to_nat (p * pageSize)) entries) |>.

Definition prepare (m : message) (c : core) : core :=
  if (MEpoch m =? 0) || negb (MEpoch m `mod` cn c =? From m) then c else
  if MEpoch m <? promise c then send (From m) (msg msgNack <| MEpoch := promise c |>) c else
  let c := adopt (MEpoch m) c in
  if negb (Nat.eqb (length (frozen c)) 0) && negb (frozenStart c =? Start m) then c else
  let c :=
    if Nat.eqb (length (frozen c)) 0 then
      let entries := omap (report_entry c) (rangeZ (Start m) (high c)) in
      c <| frozen := promise_page (Start m) entries c <$> seqZ 0 (page_count (length entries)) |>
        <| frozenStart := Start m |>
    else c in
  foldl (λ c page, send (From m) page c) c (frozen c).

(** [resend]: one scanned slot. *)
Definition resend_batches (acc com : list entry) (c : core) : list entry * list entry * core :=
  let '(acc, c) := if Z.of_nat (length acc) =? pageSize
    then ([], broadcast (msg msgAccept <| MEpoch := promise c |> <| Entries := acc |>) c) else (acc, c) in
  let '(com, c) := if Z.of_nat (length com) =? pageSize
    then ([], broadcast (msg msgCommit <| Entries := com |>) c) else (com, c) in
  (acc, com, c).

Definition resend_slot (st : slotState) (acc com : list entry) (c : core) : list entry * list entry * core :=
  match chosen st with
  | Some e =>
      let e := if Noop (EValue e) then e else
               match known c !! ID (EValue e) with
               | Some v => e <| EValue := v |> <| Payload := true |>
               | None => e
               end in
      resend_batches acc (com ++ [e]) c
  | None =>
      match proposed st with
      | Some e =>
          if negb (Epoch e =? promise c) then resend_batches acc com c
          else if Noop (EValue e) then resend_batches (acc ++ [e <| Payload := true |>]) com c
          else match known c !! ID (EValue e) with
               | None => (acc, com, broadcast (msg msgFetch <| Entries := [e] |>) c)
               | Some v => resend_batches (acc ++ [e <| EValue := v |> <| Payload := true |>]) com c
               end
      | None => resend_batches acc com c
      end
  end.

Fixpoint resend_loop (scans : nat) (ceiling : Z) (acc com : list entry) (c : core) :
    list entry * list entry * core :=
  match scans with
  | O => (acc, com, c)
  | S scans =>
      if ceiling <? retryCursor c then (acc, com, c) else
      let s := retryCursor c in
      let c := c <| retryCursor ::= (λ x, x + 1) |> in
      let '(acc, com, c) := match slots c !! s with
                            | None => (acc, com, c)
                            | Some st => resend_slot st acc com c
                            end in
      resend_loop scans ceiling acc com c
  end.

Definition resend (c : core) : core :=
  if negb (active c) || negb (owner c =? cid c) then c else
  let floor := if start c <? executed c + 1 then executed c + 1 else start c in
  let ceiling := if floor + inflightWindow <=? high c then floor + inflightWindow - 1 else high c in
  let c := if (retryCursor c <? floor) || (ceiling <? retryCursor c)
           then c <| retryCursor := floor |> else c in
  let '(acc, com, c) := resend_loop (Z.to_nat repairBudget) ceiling [] [] c in
  let c := if Nat.eqb (length acc) 0 then c
           else broadcast (msg msgAccept <| MEpoch := promise c |> <| Entries := acc |>) c in
  if Nat.eqb (length com) 0 then c else broadcast (msg msgCommit <| Entries := com |>) c.
(** [promisePage]: the snapshot pages gathered so far. *)
Definition add_page (m : message) (c : core) : option core :=
  let s := default (mkSnapshot (Pages m) (High m) ∅) (snapshots c !! From m) in
  if negb (spages s =? Pages m) || negb (shigh s =? High m) then None else
  let s := match parts s !! Page m with
           | Some _ => s
           | None => mkSnapshot (spages s) (shigh s) (<[Page m := Entries m]> (parts s))
           end in
  Some (c <| snapshots ::= <[From m := s]> |>).

Definition complete (s : snapshot) : bool := Z.of_nat (size (parts s)) =? spages s.

(** The replicas whose snapshot is complete, and the highest slot they know. *)
Definition promise_voters (e : env) (c : core) : Z * Z :=
  foldl (λ '(voters, maxSlot) '(id, s),
    if complete s then (Z.lor voters (Z.shiftl 1 id), if maxSlot <? shigh s then shigh s else maxSlot)
    else (voters, maxSlot))
    (0, start c - 1) (range_order (ord_snapshots e) (snapshots c)).

(** Every reported entry, by slot and reporter; payloads are remembered. *)
Definition gather_entry (id : Z) (x : entry) (st : gmap Z (gmap Z entry) * core) :
    outcome (gmap Z (gmap Z entry) * core) :=
  let '(bySlot, c) := st in
  c ← (if Payload x then remember (EValue x) c else Done c);
  Done (<[Slot x := <[id := x]> (default ∅ (bySlot !! Slot x))]> bySlot, c).

Definition gather_snapshot (e : env) (voters : Z) (ids : Z * snapshot)
    (st : gmap Z (gmap Z entry) * core) : outcome (gmap Z (gmap Z entry) * core) :=
  let '(id, s) := ids in
  if Z.land voters (Z.shiftl 1 id) =? 0 then Done st else
  forEach (λ '(_, page), forEach (gather_entry id) page) (range_order (ord_parts e id) (parts s)) st.

(** The proposal of one slot of the recovered range. *)
Definition recover_slot (e : env) (bySlot : gmap Z (gmap Z entry)) (voters s : Z) (c : core) : outcome core :=
  '(v, _) ← selectValue (ord_select e s) (default ∅ (bySlot !! s)) voters (fastSize c) (cn c);
  '(_, c) ← slot s c;
  let c := set_slot s (λ st, st <| proposed := Some (mkEntry s (promise c) 0 v false false) |> <| acks := 0 |>) c in
  let c := if Noop v then c else c <| assigned ::= union {[ID v]} |> in
  Done (c <| repaired ::= (λ x, u64 (x + 1)) |>).

Definition promisePage (e : env) (m : message) (c : core) : outcome core :=
  if negb (preparing c) || negb (MEpoch m =? promise c) || negb (Start m =? start c)
     || (Pages m <? 1) || (Page m <? 0) || (Pages m <=? Page m)
  then Done c else
  match add_page m c with
  | None => Done c
  | Some c =>
      let '(voters, maxSlot) := promise_voters e c in
      if ReplicaSet.Size voters <? Z.quot (cn c) 2 + 1 then Done c else
      '(bySlot, c) ← forEach (gather_snapshot e voters) (range_order (ord_snapshots e) (snapshots c)) (∅, c);
      let c := c <| preparing := false |> <| active := true |> <| high := maxSlot |>
                 <| next := maxSlot + 1 |> <| retryCursor := start c |> in
      c ← forEach (recover_slot e bySlot voters) (rangeZ (start c) maxSlot) c;
      let c := foldl (λ c id, enqueue id c) c (sort_ids (elements (pending c))) in
      Done (resend c)
  end.

(** ** Receiving ([receive]), one definition per kind *)
Definition support_of (vs : gmap Z entry) (v : record) : Z :=
  Z.of_nat (size (filter (λ '(_, x), sameValue (EValue x) v = true) vs)).

Definition receive_vote (from : Z) (e : entry) (c : core) : outcome core :=
  if negb (Epoch e =? 0) || negb (Round e =? 1) || Noop (EValue e) then Done c else
  '(s, c) ← slot (Slot e) c;
  if decide (is_Some (chosen s)) then Done c
  else if decide (is_Some (votes s !! from)) then Done c
  else
    let vs := <[from := e]> (votes s) in
    let support := support_of vs (EValue e) in
    let most := if maxVotes s <? support then support else maxVotes s in
    let c := set_slot (Slot e) (λ s, s <| votes := vs |> <| maxVotes := most |>) c in
    if fastSize c <=? support then learn e (c <| fastCommits ::= (λ x, u64 (x + 1)) |>)
    else if most + cn c - Z.of_nat (size vs) <? fastSize c then Done (c <| stalled := true |>)
    else Done c.

Definition accept_entry (epoch : Z) (e : entry) (st : list entry * core) : outcome (list entry * core) :=
  let '(acked, c) := st in
  if negb (Epoch e =? epoch) || negb (Payload e) then Done (acked, c) else
  c ← remember (EValue e) c;
  '(s, c) ← slot (Slot e) c;
  if match chosen s with Some x => negb (sameValue (EValue x) (EValue e)) | None => false end
  then Panicked "accept contradicts chosen"
  else if match accepted s with
          | Some x => (Epoch x =? Epoch e) && negb (sameValue (EValue x) (EValue e))
          | None => false end
  then Panicked "coordinator equivocation"
  else
    let c := set_slot (Slot e)
      (λ s, s <| accepted := Some (mkEntry (Slot e) (Epoch e) 0 (EValue e) true false) |>) c in
    Done (acked ++ [mkEntry (Slot e) (Epoch e) 0 zeroRecord false false], c).

Definition receive_accept (m : message) (c : core) : outcome core :=
  if (MEpoch m =? 0) || negb (MEpoch m `mod` cn c =? From m) then Done c
  else if MEpoch m <? promise c
  then Done (send (From m) (msg msgNack <| MEpoch := promise c |>) c)
  else
    let c := adopt (MEpoch m) c <| active := true |> in
    '(acked, c) ← forEach (accept_entry (MEpoch m)) (Entries m) ([], c);
    Done (send (From m) (msg msgAccepted <| MEpoch := MEpoch m |> <| Entries := acked |>) c).

Definition accepted_entry (from epoch : Z) (e : entry) (st : list entry * core) :
    outcome (list entry * core) :=
  let '(done, c) := st in
  match slots c !! Slot e with
  | Some s =>
      match proposed s with
      | Some v =>
          if negb (Epoch v =? epoch) || bool_decide (is_Some (chosen s)) then Done (done, c) else
          let voters := ReplicaSet.With (acks s) from in
          let c := set_slot (Slot e) (λ s, s <| acks := voters |>) c in
          if ReplicaSet.Size voters <? Z.quot (cn c) 2 + 1 then Done (done, c) else
          let v := if Noop (EValue v) then v else v <| EValue := known_or_zero c (ID (EValue v)) |> in
          let v := v <| Payload := true |> <| Decided := true |> in
          c ← learn v (c <| classicCommits ::= (λ x, u64 (x + 1)) |>);
          Done (done ++ [v], c)
      | None => Done (done, c)
      end
  | None => Done (done, c)
  end.

Definition receive_accepted (m : message) (c : core) : outcome core :=
  if negb (active c) || negb (owner c =? cid c) || negb (MEpoch m =? promise c) then Done c else
  '(done, c) ← forEach (accepted_entry (From m) (MEpoch m)) (Entries m) ([], c);
  Done (if Nat.eqb (length done) 0 then c else broadcast (msg msgCommit <| Entries := done |>) c).

(** [msgFetch]: payloads by identity, or decisions by range. *)
Definition fetch_data (c : core) (es : list entry) : list entry :=
  omap (λ e, (λ v, mkEntry 0 0 0 v true false) <$> known c !! ID (EValue e)) es.

Definition fetch_decision (c : core) (i : Z) : option entry :=
  s ← slots c !! i; e ← chosen s;
  if Noop (EValue e) then Some (e <| Payload := true |>)
  else (λ v, e <| EValue := v |> <| Payload := true |>) <$> known c !! ID (EValue e).

Definition fetch_slot (to : Z) (st : list entry * core) (i : Z) : list entry * core :=
  let '(ds, c) := st in
  match fetch_decision c i with
  | None => (ds, c)
  | Some e =>
      let ds := ds ++ [e] in
      if Z.of_nat (length ds) =? pageSize
      then ([], send to (msg msgCommit <| Entries := ds |>) c) else (ds, c)
  end.

Definition receive_fetch (m : message) (c : core) : core :=
  let es := fetch_data c (Entries m) in
  let c := if Nat.eqb (length es) 0 then c else send (From m) (msg msgData <| Entries := es |>) c in
  if negb (Nat.eqb (length (Entries m)) 0) then c else
  let '(ds, c) := foldl (fetch_slot (From m)) ([], c)
    (rangeZ (Start m) (Z.min (High m) (Start m + repairBudget - 1))) in
  if Nat.eqb (length ds) 0 then c else send (From m) (msg msgCommit <| Entries := ds |>) c.

Definition retry_deferred (s : Z) (c : core) : outcome core :=
  match slots c !! s with
  | Some st => match deferred st with Some e => vote e c | None => Done c end
  | None => Done c
  end.

Definition receive_data (e : env) (m : message) (c : core) : outcome core :=
  c ← forEach (λ x c, if Payload x then remember (EValue x) c else Done c) (Entries m) c;
  c ← forEach retry_deferred (range_order (ord_slots e) (slots c)).*1 c;
  apply c.

Definition receive_heartbeat (m : message) (c : core) : core :=
  let c := if promise c <? MEpoch m then adopt (MEpoch m) c else c in
  if (0 <? promise c) && (From m =? owner c) && (executed c <? High m)
  then send (From m) (msg msgFetch <| Start := executed c + 1 |> <| High := High m |>) c else c.

Definition receive (e : env) (m : message) (c : core) : outcome core :=
  if (From m <? 0) || (cn c <=? From m) then Done c else
  let c := c <| heard ::= <[Z.to_nat (From m) := cnow c]> |> in
  if Kind m =? msgVote then
    if negb (promise c =? 0) then Done c else forEach (receive_vote (From m)) (Entries m) c
  else if Kind m =? msgPrepare then Done (prepare m c)
  else if Kind m =? msgPromise then promisePage e m c
  else if Kind m =? msgAccept then receive_accept m c
  else if Kind m =? msgAccepted then receive_accepted m c
  else if Kind m =? msgCommit then forEach learn (Entries m) c
  else if Kind m =? msgHeartbeat then Done (receive_heartbeat m c)
  else if Kind m =? msgFetch then Done (receive_fetch m c)
  else if Kind m =? msgData then receive_data e m c
  else if Kind m =? msgForward then
    if (promise c =? 0) || negb (owner c =? cid c) || negb (active c) then Done c
    else forEach (λ x c, if Payload x then submit (EValue x) c else Done c) (Entries m) c
  else if Kind m =? msgNack then
    Done (if promise c <? MEpoch m then adopt (MEpoch m) c else c)
  else if Kind m =? msgRecover then
    Done (if promise c =? 0 then c <| stalled := true |> else c)
  else Done c.
(** ** Timer ([tick]) *)

(** The replicas heard within the failure timeout, and the lowest of them. *)
Fixpoint alive_set (i : Z) (heard : list Z) (now alive candidate : Z) : Z * Z :=
  match heard with
  | [] => (alive, candidate)
  | last :: heard =>
      if now - last <? failureTimeout
      then alive_set (i + 1) heard now (Z.lor alive (Z.shiftl 1 i)) (if candidate <? 0 then i else candidate)
      else alive_set (i + 1) heard now alive candidate
  end.

(** Retries of old requests, oldest first, each moved to the back. *)
Fixpoint forward_loop (budget : nat) (now : Z) (batch : list entry) (c : core) : list entry * core :=
  match budget with
  | O => (batch, c)
  | S budget =>
      match forwardOrder c with
      | [] => (batch, c)
      | p :: rest =>
          if now <? retryAt p then (batch, c) else
          let c := c <| forwardOrder := rest ++ [mkPending (pid p) (now + failureTimeout)] |> in
          let batch := batch ++ [mkEntry 0 0 0 (known_or_zero c (pid p)) true false] in
          if Z.of_nat (length batch) =? pageSize
          then forward_loop budget now [] (send (owner c) (msg msgForward <| Entries := batch |>) c)
          else forward_loop budget now batch c
      end
  end.

Definition tick_forward (now : Z) (c : core) : core :=
  if (0 <? promise c) && negb (owner c =? cid c) && bool_decide (pending c ≠ ∅) then
    let '(batch, c) := forward_loop (Z.to_nat repairBudget) now [] c in
    if Nat.eqb (length batch) 0 then c
    else send (owner c) (msg msgForward <| Entries := batch |>) c
  else c.

Definition tick_retry (now : Z) (c : core) : core :=
  if now - lastRetry c <? Second then c else
  let c := c <| lastRetry := now |> in
  let c := match slots c !! (executed c + 1) with
           | Some s =>
               match chosen s with
               | Some e =>
                   if Noop (EValue e) || bool_decide (is_Some (known c !! ID (EValue e))) then c
                   else broadcast (msg msgFetch <| Entries := [e] |>) c
               | None => c
               end
           | None => c
           end in
  tick_forward now c.

(** Whether the replica wants a new coordinator. *)
Definition need_recovery (now alive : Z) (c : core) : bool :=
  if (0 <? promise c) && (Z.land alive (Z.shiftl 1 (owner c)) =? 0) then true
  else (promise c =? 0) &&
       (negb (fastSize c <=? ReplicaSet.Size alive) || stalled c
        || ((bool_decide (pending c ≠ ∅) || (executed c <? high c))
            && (failureTimeout <? now - lastProgress c))).

Definition tick_age (now : Z) (c : core) : core :=
  if (promise c =? 0) && negb (stalled c) then
    match forwardOrder c with
    | p :: _ => if retryAt p <=? now
                then c <| stalled := true |> <| ageFallbacks ::= (λ x, u64 (x + 1)) |> else c
    | [] => c
    end
  else c.

Definition tick_elect (now alive candidate : Z) (c : core) : core :=
  let need := need_recovery now alive c in
  let c := if need && (candidate =? cid c) && (Z.quot (cn c) 2 + 1 <=? ReplicaSet.Size alive)
           then begin c else c in
  let c := if need && (0 <=? candidate) && negb (candidate =? cid c)
           then send candidate (msg msgRecover <| MEpoch := promise c |>) c else c in
  if preparing c && (Second <=? now - lastRetry c) then
    broadcast (msg msgPrepare <| MEpoch := promise c |> <| Start := start c |>) c
      <| lastRetry := now |>
  else c.

Definition tick_lead (now : Z) (c : core) : outcome core :=
  if active c && (owner c =? cid c) then
    c ← flush c;
    Done (if now - lastRepair c <? 100 * Millisecond then c
          else resend c <| lastRepair := now |>)
  else Done c.

Definition tick (now : Z) (c : core) : outcome core :=
  let c := c <| cnow := now |> <| heard ::= <[Z.to_nat (cid c) := now]> |> in
  let c := if now - lastBeat c <? 250 * Millisecond then c
           else broadcast (msg msgHeartbeat <| MEpoch := promise c |> <| High := executed c |>) c
                  <| lastBeat := now |> in
  let '(alive, candidate) := alive_set 0 (heard c) now 0 (-1) in
  let c := tick_elect now alive candidate (tick_age now c) in
  c ← tick_lead now c;
  Done (tick_retry now c).
End Core.
End FastPaxos.
