(* ===== verification/FastSelect.v ===== *)
(** * FastSelect: the value selection of Fast Paxos

    [selectValue] decides what a new coordinator may propose for a slot from
    the reports of a classic quorum.  The theorems of this file hold for every
    iteration order of the three maps it ranges over:

    - [selectValue_classic]: a decided report wins; without one, the value of
      the newest classic epoch;
    - [selectValue_fast]: among fast votes, the only value a fast quorum may
      have decided (or may still decide) is selected. *)
From stdpp Require Import gmap strings list fin_maps fin_sets.
From Stdlib Require Import Lia.
From S2P Require Import Prelude State ReplicaSet Defs FastPaxos.
Import FastPaxos.

Module FastSelect.

(** ** The first loop *)
Lemma scan_reports_decided l top i e :
  (i, e) ∈ l → Decided e = true →
  ∃ i' e', (i', e') ∈ l ∧ Decided e' = true ∧ scan_reports l top = inl e'.
Proof.
  revert top. induction l as [|[j x] l IH]; intros top Hin Hd; [by apply elem_of_nil in Hin|]. simpl.
  destruct (Decided x) eqn:Hx; [exists j, x; split; [constructor|done]|].
  apply elem_of_cons in Hin as [[= -> ->]|Hin]; [congruence|].
  edestruct IH as (i' & e' & ? & ? & ?); [done..|]. exists i', e'. split; [by constructor|done].
Qed.

(** [t] is at least as new as every entry of [l]. *)
Definition newest (t : entry) (l : list (Z * entry)) : Prop := ∀ i e, (i, e) ∈ l → newer e t = false.

Lemma newer_irrefl e : newer e e = false.
Proof. unfold newer. rewrite !Z.ltb_irrefl, andb_false_r. done. Qed.

Lemma newer_false_trans a b c : newer a b = false → newer b c = false → newer a c = false.
Proof. unfold newer. lia. Qed.

Lemma newer_true_false a b : newer a b = true → newer b a = false.
Proof. unfold newer. lia. Qed.

Lemma scan_reports_top l top :
  (∀ i e, (i, e) ∈ l → Decided e = false) →
  match scan_reports l top with
  | inl _ => False
  | inr None => l = [] ∧ top = None
  | inr (Some t) => newest t l ∧ (∀ t0, top = Some t0 → newer t0 t = false) ∧
      (Some t = top ∨ ∃ i, (i, t) ∈ l)
  end.
Proof.
  revert top. induction l as [|[j x] l IH]; intros top Hd; simpl.
  { destruct top as [t|]; [|done]. split_and!; [by intros i e ?%elem_of_nil| |by left].
    intros t0 [= <-]. apply newer_irrefl. }
  rewrite (Hd j x) by constructor.
  set (top' := match top with None => Some x | Some t => if newer x t then Some x else Some t end).
  specialize (IH top' ltac:(intros i e Hin; apply (Hd i); by constructor)).
  destruct (scan_reports l top') as [|[t|]]; [done| |].
  - destruct IH as (Hnew & Htop & Hfrom). split_and!.
    + intros i e [[= -> ->]|Hin]%elem_of_cons; [|by apply (Hnew i)].
      unfold top' in Htop. destruct top as [t0|]; [|by apply Htop].
      destruct (newer x t0) eqn:E; [by apply Htop|].
      eapply newer_false_trans; [exact E|by apply Htop].
    + intros t0 ->. unfold top' in Htop. destruct (newer x t0) eqn:E; [|by apply Htop].
      eapply newer_false_trans; [by apply newer_true_false|by apply Htop].
    + destruct Hfrom as [Hf|[i Hi]]; [|right; exists i; by constructor].
      unfold top' in Hf. destruct top as [t0|].
      * destruct (newer x t0); [injection Hf as ->; right; exists j; constructor|by left].
      * injection Hf as ->. right. exists j. constructor.
  - destruct IH as [_ IH]. unfold top' in IH. destruct top as [t0|]; [|done]. by destruct (newer x t0).
Qed.

(** ** The second loop *)
Definition in_round (top : entry) (e : entry) : Prop := Epoch e = Epoch top ∧ Round e = Round top.
#[export] Instance in_round_dec top e : Decision (in_round top e).
Proof. unfold in_round. apply _. Defined.

Record scanned (l : list (Z * entry)) (top : entry)
    (values : gmap RequestID record) (supports : gmap RequestID Z)
    (values' : gmap RequestID record) (supports' : gmap RequestID Z) : Prop := mkScanned {
  scanned_values : ∀ k v, values' !! k = Some v → values !! k = Some v ∨
    (ID v = k ∧ Noop v = false ∧ ∃ i e, (i, e) ∈ l ∧ in_round top e ∧ EValue e = v);
  scanned_reported : ∀ i e, (i, e) ∈ l → in_round top e → is_Some (values' !! ID (EValue e));
  scanned_kept : ∀ k, is_Some (values !! k) → is_Some (values' !! k);
  scanned_supports : ∀ k i, i ∈ ReplicaSet.to_gset (default 0 (supports' !! k)) ↔
    i ∈ ReplicaSet.to_gset (default 0 (supports !! k)) ∨
    ∃ e, (i, e) ∈ l ∧ in_round top e ∧ ID (EValue e) = k;
}.

Lemma scan_round_spec l top values supports :
  (∀ i e, (i, e) ∈ l → 0 ≤ i < 64) →
  (∀ i e, (i, e) ∈ l → in_round top e → Noop (EValue e) = false) →
  ∃ values' supports', scan_round l top values supports = inr (values', supports') ∧
    scanned l top values supports values' supports'.
Proof.
  revert values supports. induction l as [|[j x] l IH]; intros values supports Hid Hn.
  { exists values, supports. split; [done|]. split; auto.
    - by intros i e ?%elem_of_nil.
    - intros k i. split; [by left|]. intros [?|(e & ?%elem_of_nil & _)]; done. }
  assert (∀ i e, (i, e) ∈ l → 0 ≤ i < 64) as Hid' by (intros i e ?; apply (Hid i e); by constructor).
  assert (∀ i e, (i, e) ∈ l → in_round top e → Noop (EValue e) = false) as Hn'
    by (intros i e ?; apply (Hn i); by constructor).
  simpl. destruct ((Epoch x =? Epoch top) && (Round x =? Round top)) eqn:E.
  - assert (in_round top x) as Hx by (unfold in_round; lia).
    rewrite (Hn j x ltac:(constructor) Hx).
    destruct (IH (<[ID (EValue x) := EValue x]> values)
      (<[ID (EValue x) := Z.lor (default 0 (supports !! ID (EValue x))) (Z.shiftl 1 j)]> supports) Hid' Hn')
      as (values' & supports' & Heq & [H1 H2 H3 H4]).
    exists values', supports'. split; [exact Heq|]. split.
    + intros k v Hv. destruct (H1 k v Hv) as [Hl|(?&?&i&e&?&?&?)].
      * rewrite lookup_insert in Hl. case_decide as Ek; [|by left]. injection Hl as <-. right.
        split_and!; [done|by apply (Hn j); [constructor|]|]. exists j, x. split; [constructor|done].
      * right. split_and!; [done..|]. exists i, e. split; [by constructor|done].
    + intros i e [[= -> ->]|Hin]%elem_of_cons He; [|by eapply H2].
      apply H3. rewrite lookup_insert_eq. by eexists.
    + intros k Hk. apply H3. rewrite lookup_insert. case_decide; [by eexists|done].
    + intros k i. rewrite H4, lookup_insert. case_decide as Ek.
      * simpl. rewrite ReplicaSet.to_gset_lor_bit by (apply (Hid j x); constructor). subst k. split.
        -- intros [[?| ->]|(e&?&?&?)]; [by left|right; exists x; split; [constructor|done]|].
           right. exists e. split; [by constructor|done].
        -- intros [?|(e&[[= -> ->]|Hin]%elem_of_cons&?&?)]; [by left; left|by left; right|].
           right. by exists e.
      * split.
        -- intros [?|(e&?&?&?)]; [by left|]. right. exists e. split; [by constructor|done].
        -- intros [?|(e&[[= -> ->]|Hin]%elem_of_cons&?&?)]; [by left|done|]. right. by exists e.
  - assert (¬ in_round top x) as Hx by (unfold in_round; lia).
    destruct (IH values supports Hid' Hn') as (values' & supports' & Heq & [H1 H2 H3 H4]).
    exists values', supports'. split; [exact Heq|]. split; [| |done|].
    + intros k v Hv. destruct (H1 k v Hv) as [?|(?&?&i&e&?&?&?)]; [by left|].
      right. split_and!; [done..|]. exists i, e. split; [by constructor|done].
    + intros i e [[= -> ->]|Hin]%elem_of_cons He; [done|by eapply H2].
    + intros k i. rewrite H4. split.
      * intros [?|(e&?&?&?)]; [by left|]. right. exists e. split; [by constructor|done].
      * intros [?|(e&[[= -> ->]|Hin]%elem_of_cons&?&?)]; [by left|done|]. right. by exists e.
Qed.
(** ** Quorum arithmetic *)

(** The reports of a classic quorum of voters. *)
Record quorum_reports (n voters : Z) (reports : gmap Z entry) : Prop := mkQuorumReports {
  qr_size : 3 ≤ n ≤ 63;
  qr_voters : ReplicaSet.to_gset voters ⊆ ReplicaSet.ids n;
  qr_majority : n / 2 + 1 ≤ ReplicaSet.Size voters;
  qr_reports : ∀ i e, reports !! i = Some e → i ∈ ReplicaSet.to_gset voters;
}.

(** Every member of a fast quorum reported the identity [k] or did not answer:
    [k] may have been decided by the fast round. *)
Definition fast_choosable (n voters : Z) (reports : gmap Z entry) (k : RequestID) : Prop :=
  ∃ F, F ⊆ ReplicaSet.ids n ∧ fastQuorumSize n ≤ Z.of_nat (size F) ∧
    ∀ i, i ∈ F → i ∈ ReplicaSet.to_gset voters → ∃ e, reports !! i = Some e ∧ ID (EValue e) = k.

Lemma fastQuorumSize_bounds n : 3 ≤ n → 3 * n < 4 * fastQuorumSize n.
Proof.
  intros Hn. unfold fastQuorumSize. rewrite Z.quot_div_nonneg by lia.
  pose proof (Z.div_mod (3 * n) 4). pose proof (Z.mod_pos_bound (3 * n) 4). lia.
Qed.

(** Two identities cannot both have the support a fast quorum would leave in a
    classic quorum. *)
Lemma supports_unique n voters (A B : gset Z) :
  3 ≤ n → n / 2 + 1 ≤ ReplicaSet.Size voters →
  A ⊆ ReplicaSet.to_gset voters → B ⊆ ReplicaSet.to_gset voters → A ∩ B = ∅ →
  fastQuorumSize n + ReplicaSet.Size voters - n ≤ Z.of_nat (size A) →
  fastQuorumSize n + ReplicaSet.Size voters - n ≤ Z.of_nat (size B) → False.
Proof.
  intros Hn Hq HA HB Hd HsA HsB. pose proof (fastQuorumSize_bounds n Hn).
  rewrite ReplicaSet.Size_size in *.
  assert (size (A ∪ B) ≤ size (ReplicaSet.to_gset voters))%nat by (apply subseteq_size; set_solver).
  assert (size (A ∪ B) = size A + size B)%nat by (apply size_union; set_solver).
  pose proof (Z.div_mod n 2). pose proof (Z.mod_pos_bound n 2). lia.
Qed.

(** ** Properties *)

(** A decided report wins: if some report is decided, [selectValue]
    returns the value of a decided report.  Otherwise, if the newest reports
    come from a classic epoch, where they all carry one value, it returns that
    value. *)
Theorem selectValue_classic ord reports voters fastSize n :
  (∀ i e, reports !! i = Some e → Decided e = true →
     ∃ j x, reports !! j = Some x ∧ Decided x = true ∧
       selectValue ord reports voters fastSize n = Done (EValue x, true)) ∧
  (∀ i b v, (∀ j x, reports !! j = Some x → 0 ≤ j < 64 ∧ Decided x = false ∧ Epoch x ≤ b ∧
       (Epoch x = b → Round x = 0 ∧ sameValue (EValue x) v = true)) →
     Epoch <$> reports !! i = Some b → 0 < b →
     ∃ v', selectValue ord reports voters fastSize n = Done (v', true) ∧ sameValue v' v = true).
Proof.
  destruct ord as [[o1 o2] o3]. unfold selectValue. cbn [fst snd]. split.
  - intros i e He Hd. apply (elem_of_range_order o1) in He.
    destruct (scan_reports_decided _ None i e He Hd) as (j & x & Hx & Hdx & ->).
    exists j, x. apply elem_of_range_order in Hx. done.
  - intros i b v Hall Hi Hb. apply fmap_Some in Hi as (x & Hx & Hxb). subst b.
    assert (∀ j y, (j, y) ∈ range_order o1 reports → Decided y = false) as Hnd.
    { intros j y Hy%elem_of_range_order. by apply (Hall j). }
    pose proof (scan_reports_top (range_order o1 reports) None Hnd) as Htop.
    assert ((i, x) ∈ range_order o1 reports) as Hin by by apply elem_of_range_order.
    destruct (scan_reports _ None) as [|[t|]]; [done| |].
    2: { destruct Htop as [E _]. rewrite E in Hin. by apply elem_of_nil in Hin. }
    destruct Htop as (Hnew & _ & [[=]|[jt Ht%elem_of_range_order]]).
    destruct (Hall _ _ Ht) as (_&_&Hle&Hround).
    assert (Epoch t = Epoch x) as Et.
    { specialize (Hnew i x Hin). unfold newer in Hnew. lia. }
    destruct (Hround Et) as [Hr0 Hsame].
    assert (∀ j y, (j, y) ∈ range_order o2 reports → in_round t y → sameValue (EValue y) v = true) as Hv.
    { intros j y Hy%elem_of_range_order [Hye _]. destruct (Hall _ _ Hy) as (_&_&_&H). apply H. congruence. }
    destruct (Noop (EValue t)) eqn:Hnt.
    + (* a no-op: the scan of the round returns one *)
      assert (∃ y, scan_round (range_order o2 reports) t ∅ ∅ = inl y ∧ sameValue y v = true) as (y & -> & Hy).
      { assert ((jt, t) ∈ range_order o2 reports) as Hin2 by by apply elem_of_range_order.
        revert Hin2 Hv. generalize (range_order o2 reports) as l. clear -Hnt.
        generalize (∅ : gmap RequestID record) (∅ : gmap RequestID Z).
        intros vs ss l. revert vs ss. induction l as [|[k z] l IH]; intros vs ss Hin Hv; [by apply elem_of_nil in Hin|].
        simpl. destruct ((Epoch z =? Epoch t) && (Round z =? Round t)) eqn:E.
        - assert (sameValue (EValue z) v = true) as Hz by (apply (Hv k); [constructor|unfold in_round; lia]).
          destruct (Noop (EValue z)) eqn:Hnz; [by exists (EValue z)|].
          apply elem_of_cons in Hin as [[= -> ->]|Hin]; [congruence|].
          apply IH; [done|]. intros j y Hy. apply (Hv j). by constructor.
        - apply elem_of_cons in Hin as [[= -> ->]|Hin]; [lia|].
          apply IH; [done|]. intros j y Hy. apply (Hv j). by constructor. }
      by exists y.
    + assert (Noop v = false) as Hnv.
      { unfold sameValue in Hsame. rewrite Hnt in Hsame. by destruct (Noop v). }
      destruct (scan_round_spec (range_order o2 reports) t ∅ ∅) as (values & supports & -> & [H1 H2 _ _]).
      { intros j y Hy%elem_of_range_order. exact (proj1 (Hall j y Hy)). }
      { intros j y Hy Hr. specialize (Hv j y Hy Hr). unfold sameValue in Hv. rewrite Hnv in Hv.
        by destruct (Noop (EValue y)). }
      assert (size values = 1)%nat as ->.
      { assert (values = {[ID v := default v (values !! ID v)]}) as ->; [|by rewrite map_size_singleton].
        apply map_eq. intros k. rewrite lookup_singleton. case_decide as Ek.
        - subst k. assert (is_Some (values !! ID v)) as [y Hy]; [|by rewrite Hy].
          unfold sameValue in Hsame. rewrite Hnt, Hnv in Hsame. simpl in Hsame.
          apply bool_decide_eq_true in Hsame. rewrite <- Hsame.
          eapply (H2 jt t); [by apply elem_of_range_order|done].
        - apply eq_None_not_Some. intros [y Hy].
          destruct (H1 k y Hy) as [E|(Eid&Hny&j&z&Hz&Hr&<-)]; [by rewrite lookup_empty in E|].
          specialize (Hv j z Hz Hr). unfold sameValue in Hv. rewrite Hny, Hnv in Hv. simpl in Hv.
          apply bool_decide_eq_true in Hv. congruence. }
      by exists (EValue t).
Qed.
(** C25.  The fast rule is safe.  When every report is a fast vote, the identity
    a fast quorum may have decided, if there is one, is unique and is the one
    [selectValue] returns, whatever the order of its loops: no other identity
    has enough support left. *)
Theorem selectValue_fast ord reports voters n k :
  quorum_reports n voters reports →
  (∀ i e, reports !! i = Some e →
     Decided e = false ∧ Epoch e = 0 ∧ Round e = 1 ∧ Noop (EValue e) = false) →
  fast_choosable n voters reports k →
  ∃ v, selectValue ord reports voters (fastQuorumSize n) n = Done (v, true) ∧
    Noop v = false ∧ ID v = k.
Proof.
  intros [Hn Hvot Hmaj Hrep] Hall (F & HF & HsF & HFr). destruct ord as [[o1 o2] o3].
  pose proof (fastQuorumSize_bounds n ltac:(lia)) as Hfq.
  set (Q := ReplicaSet.to_gset voters) in *.
  pose proof (ReplicaSet.size_inter_lower n F Q ltac:(lia) HF Hvot) as HsFQ.
  unfold Q in HsFQ at 1. rewrite <- ReplicaSet.Size_size in HsFQ.
  assert (∃ i0, i0 ∈ F ∩ Q) as [i0 Hi0].
  { apply set_choose_L. intros E. rewrite E, size_empty in HsFQ.
    pose proof (Z.div_mod n 2). pose proof (Z.mod_pos_bound n 2). lia. }
  apply elem_of_intersection in Hi0 as [Hi0F Hi0Q].
  destruct (HFr i0 Hi0F Hi0Q) as (e0 & He0 & Hk0).
  unfold selectValue. cbn [fst snd].
  assert (∀ i e, (i, e) ∈ range_order o1 reports → Decided e = false) as Hnd.
  { intros i e He%elem_of_range_order. by apply (Hall i). }
  pose proof (scan_reports_top (range_order o1 reports) None Hnd) as Htop.
  assert ((i0, e0) ∈ range_order o1 reports) as Hin0 by by apply elem_of_range_order.
  destruct (scan_reports _ None) as [|[t|]]; [done| |].
  2: { destruct Htop as [E _]. rewrite E in Hin0. by apply elem_of_nil in Hin0. }
  destruct Htop as (_ & _ & [[=]|[jt Ht%elem_of_range_order]]).
  destruct (Hall _ _ Ht) as (_ & Et & Ert & _).
  assert (∀ i e, reports !! i = Some e → in_round t e) as Hround.
  { intros i e He. destruct (Hall _ _ He) as (_&?&?&_). unfold in_round. lia. }
  destruct (scan_round_spec (range_order o2 reports) t ∅ ∅) as (values & supports & -> & [H1 H2 _ H4]).
  { intros i e He%elem_of_range_order. apply Hrep in He.
    apply Hvot, ReplicaSet.elem_of_ids in He. lia. }
  { intros i e He%elem_of_range_order _. by apply (Hall i). }
  assert (∀ k v, values !! k = Some v → ID v = k ∧ Noop v = false) as Hval.
  { intros k' v Hv. destruct (H1 k' v Hv) as [E|(?&?&_)]; [by rewrite lookup_empty in E|done]. }
  assert (is_Some (values !! k)) as [v0 Hv0].
  { rewrite <- Hk0. apply (H2 i0 e0); [by apply elem_of_range_order|by eapply Hround]. }
  assert (∀ k' i, i ∈ ReplicaSet.to_gset (default 0 (supports !! k')) ↔
    ∃ e, reports !! i = Some e ∧ ID (EValue e) = k') as Hsup.
  { intros k' i. rewrite H4. split.
    - intros [Hi|(e & He%elem_of_range_order & _ & ?)]; [|by exists e].
      rewrite lookup_empty in Hi. apply ReplicaSet.elem_of_to_gset in Hi as [_ Hi].
      by rewrite Z.testbit_0_l in Hi.
    - intros (e & He & ?). right. exists e. split; [by apply elem_of_range_order|].
      split; [by eapply Hround|done]. }
  case_match eqn:Hone.
  { apply Nat.eqb_eq in Hone. exists (EValue t). split; [done|].
    destruct (Hall _ _ Ht) as (_&_&_&Hnt). split; [done|].
    rewrite <- (size_dom (D := gset RequestID)) in Hone.
    apply (size_singleton_inv (C := gset RequestID) _ _ _ Hone); apply elem_of_dom; [|by eexists].
    apply (H2 jt t); [by apply elem_of_range_order|done]. }
  rewrite Et. change (0 <? 0) with false. cbn [negb].
  set (minimum := fastQuorumSize n + ReplicaSet.Size voters - n).
  assert (minimum ≤ ReplicaSet.Size (default 0 (supports !! k))) as Hk.
  { rewrite ReplicaSet.Size_size. transitivity (Z.of_nat (size (F ∩ Q))); [unfold minimum; lia|]. apply inj_le, subseteq_size.
    intros i [HiF HiQ]%elem_of_intersection. apply Hsup. by apply HFr. }
  destruct (list_find _ (range_order o3 values)) as [[j [k' v']]|] eqn:Hf.
  - apply list_find_Some in Hf as (Hj & Hmin & _). simpl in Hmin.
    assert (values !! k' = Some v') as Hv' by by eapply elem_of_range_order, list_elem_of_lookup_2.
    destruct (Hval _ _ Hv') as [Hid Hnoop]. exists v'. split_and!; [done..|].
    rewrite Hid. destruct (decide (k' = k)) as [|Hne]; [done|]. exfalso.
    rewrite ReplicaSet.Size_size in Hk, Hmin.
    apply (supports_unique n voters (ReplicaSet.to_gset (default 0 (supports !! k)))
      (ReplicaSet.to_gset (default 0 (supports !! k'))) ltac:(lia) Hmaj); [| | |exact Hk|exact Hmin].
    + intros i Hi. apply Hsup in Hi as (e & He & _). by eapply Hrep.
    + intros i Hi. apply Hsup in Hi as (e & He & _). by eapply Hrep.
    + apply set_eq. intros i. rewrite elem_of_intersection, !Hsup. split; [|set_solver].
      intros [(e&He&?) (e'&He'&?)]. congruence.
  - exfalso. apply list_find_None in Hf. rewrite Forall_forall in Hf.
    apply (Hf (k, v0)); [by apply elem_of_range_order|done].
Qed.

(** Three of five replicas answer; two of them voted for the first request. *)
Definition select_vote (c s : Z) : entry :=
  mkEntry 4 0 1 (mkRecord (mkRequestID c s) zeroCommand false) false false.
Definition select_reports : gmap Z entry := {[0 := select_vote 1 1; 1 := select_vote 2 1; 4 := select_vote 1 1]}.

Lemma selectValue_fast_witness :
  fast_choosable 5 19 select_reports (mkRequestID 1 1) ∧
  ∃ v, selectValue ([4], [1; 0], []) select_reports 19 (fastQuorumSize 5) 5 = Done (v, true) ∧
    Noop v = false ∧ ID v = mkRequestID 1 1.
Proof.
  assert (fast_choosable 5 19 select_reports (mkRequestID 1 1)) as H.
  { exists {[0; 2; 3; 4]}.
    split; [apply (bool_decide_eq_true_1 _); vm_compute; reflexivity|].
    split; [vm_compute; discriminate|].
    intros i Hi. rewrite !elem_of_union, !elem_of_singleton in Hi.
    destruct Hi as [[[->| ->]| ->]| ->]; intros Hq.
    - by exists (select_vote 1 1).
    - exfalso. apply ReplicaSet.elem_of_to_gset in Hq as [_ Hq]. discriminate Hq.
    - exfalso. apply ReplicaSet.elem_of_to_gset in Hq as [_ Hq]. discriminate Hq.
    - by exists (select_vote 1 1). }
  split; [exact H|]. apply (selectValue_fast ([4], [1; 0], []) select_reports 19 5);
    [|apply (map_Forall_lookup (λ i e, Decided e = false ∧ Epoch e = 0 ∧ Round e = 1 ∧ Noop (EValue e) = false));
      apply (bool_decide_eq_true_1 _); vm_compute; reflexivity|exact H].
  split; [lia|apply (bool_decide_eq_true_1 _); vm_compute; reflexivity|vm_compute; discriminate|].
  apply (map_Forall_lookup (λ i _, i ∈ ReplicaSet.to_gset 19)).
  apply (bool_decide_eq_true_1 _); vm_compute; reflexivity.
Defined.

Lemma selectValue_classic_witness :
  ∃ v', selectValue ([], [], []) {[0 := mkEntry 4 7 0 (mkRecord (mkRequestID 1 1) zeroCommand false) true false;
      2 := select_vote 2 1]} 5 (fastQuorumSize 3) 3 = Done (v', true) ∧
    sameValue v' (mkRecord (mkRequestID 1 1) zeroCommand false) = true.
Proof.
  apply (proj2 (selectValue_classic ([], [], []) {[0 := mkEntry 4 7 0 (mkRecord (mkRequestID 1 1) zeroCommand false) true false;
      2 := select_vote 2 1]} 5 (fastQuorumSize 3) 3) 0 7); [|reflexivity|lia].
  apply (map_Forall_lookup (λ j x, 0 ≤ j < 64 ∧ Decided x = false ∧ Epoch x ≤ 7 ∧
     (Epoch x = 7 → Round x = 0 ∧ sameValue (EValue x) (mkRecord (mkRequestID 1 1) zeroCommand false) = true))).
  apply map_Forall_insert_2; [simpl; split_and!; try lia; done|].
  apply map_Forall_singleton. simpl. split_and!; try lia; done.
Defined.
End FastSelect.
