(* ===== verification/FastLocal.v ===== *)
(** * FastLocal: what a Fast Paxos replica never takes back

    [grows c c'] says that [c'] remembers everything [c] promised, voted,
    decided and answered.  Every operation of the core only grows it, whatever
    the messages it is given ([nothing_forgotten]); and [apply] executes exactly
    the decided prefix whose payloads are known ([fast_apply_complete]). *)
From stdpp Require Import gmap strings list fin_maps.
From Stdlib Require Import Lia.
From S2P Require Import Prelude State ReplicaSet Defs FastPaxos.
Import FastPaxos.

Module FastLocal.
Section Local.
Context {SM : StateMachine}.

Lemma sameValue_refl v : sameValue v v = true.
Proof. unfold sameValue. rewrite eqb_reflx. destruct (Noop v); [done|]. simpl. by apply bool_decide_eq_true. Qed.

Lemma sameValue_trans u v w : sameValue u v = true → sameValue v w = true → sameValue u w = true.
Proof.
  unfold sameValue. destruct (Noop u), (Noop v), (Noop w); simpl; try done.
  rewrite !bool_decide_eq_true. congruence.
Qed.

(** ** What a slot keeps *)
Record slot_grows (p : Z) (st st' : slotState) : Prop := mkSlotGrows {
  grow_chosen : ∀ e, chosen st = Some e →
    ∃ e', chosen st' = Some e' ∧ sameValue (EValue e) (EValue e') = true;
  grow_accepted : ∀ e, accepted st = Some e → ∃ e', accepted st' = Some e' ∧
    ((Epoch e' = Epoch e ∧ sameValue (EValue e) (EValue e') = true) ∨ (Epoch e < Epoch e' ∧ p ≤ Epoch e'));
}.

(** A vote never outruns the promise; only fast votes are deferred. *)
Definition wf (c : core) : Prop :=
  ∀ s st, slots c !! s = Some st →
    (∀ e, accepted st = Some e → Epoch e ≤ promise c) ∧ (∀ e, deferred st = Some e → Epoch e = 0).

(** New answers come from the table of results. *)
Definition answered (c c' : core) : Prop := ∃ l, replies c' = replies c ++ l ∧
  ∀ i v, (i, v) ∈ l → results c' !! i = Some v.

Record grown (c c' : core) : Prop := mkGrown {
  grow_wf : wf c';
  grow_ids : cid c' = cid c ∧ cn c' = cn c ∧ fastSize c' = fastSize c;
  grow_promise : promise c ≤ promise c';
  grow_executed : executed c ≤ executed c';
  grow_slots : ∀ s st, slots c !! s = Some st →
    ∃ st', slots c' !! s = Some st' ∧ slot_grows (promise c) st st';
  grow_results : ∀ i v, results c !! i = Some v → results c' !! i = Some v;
  grow_known : ∀ i v, known c !! i = Some v → known c' !! i = Some v;
  grow_replies : answered c c';
  grow_out : out c `prefix_of` out c';
}.
Definition grows (c c' : core) : Prop := wf c → grown c c'.

Lemma slot_grows_refl p st : slot_grows p st st.
Proof.
  split; intros e He; exists e; split; try done; [apply sameValue_refl|left; split; [done|apply sameValue_refl]].
Qed.

Lemma slot_grows_trans p p' st1 st2 st3 :
  p ≤ p' → slot_grows p st1 st2 → slot_grows p' st2 st3 → slot_grows p st1 st3.
Proof.
  intros Hp [H1 H2] [H3 H4]. split.
  - intros e (e1 & He1 & S1)%H1. destruct (H3 e1 He1) as (e2 & He2 & S2). exists e2.
    split; [done|]. by eapply sameValue_trans.
  - intros e (e1 & He1 & Hc1)%H2. destruct (H4 e1 He1) as (e2 & He2 & Hc2). exists e2. split; [done|].
    destruct Hc1 as [[E1 S1]|[E1 P1]], Hc2 as [[E2 S2]|[E2 P2]].
    + left. split; [congruence|by eapply sameValue_trans].
    + right. lia.
    + right. lia.
    + right. lia.
Qed.

Lemma answered_same c c' : replies c' = replies c → answered c c'.
Proof. intros E. exists []. rewrite app_nil_r. split; [done|]. by intros i v ?%elem_of_nil. Qed.

#[local] Hint Extern 0 (answered _ _) => (apply answered_same; reflexivity) : core.

Lemma answered_trans c1 c2 c3 : answered c1 c2 → answered c2 c3 →
  (∀ i v, results c2 !! i = Some v → results c3 !! i = Some v) → answered c1 c3.
Proof.
  intros (l1 & E1 & H1) (l2 & E2 & H2) Hr. exists (l1 ++ l2). rewrite E2, E1, app_assoc. split; [done|].
  intros i v [?|?]%elem_of_app; auto.
Qed.

#[export] Instance grows_preorder : PreOrder grows.
Proof.
  split.
  - intros c Hwf. split; auto using answered_same with lia. intros s st Hst. exists st. split; [done|apply slot_grows_refl].
  - intros c1 c2 c3 H1 H2 Hwf. destruct (H1 Hwf) as [W1 I1 P1 E1 S1 R1 K1 L1 O1].
    destruct (H2 W1) as [W2 I2 P2 E2 S2 R2 K2 L2 O2].
    split; auto; [intuition congruence|lia|lia| |by eapply answered_trans|by etrans].
    intros s st (st1 & Hst1 & G1)%S1. destruct (S2 s st1 Hst1) as (st2 & Hst2 & G2).
    exists st2. split; [done|]. by eapply slot_grows_trans.
Qed.

(** A change that leaves the slots and the promise alone. *)
Lemma grows_fields c c' :
  cid c' = cid c ∧ cn c' = cn c ∧ fastSize c' = fastSize c → promise c' = promise c → slots c' = slots c →
  executed c ≤ executed c' →
  (∀ i v, results c !! i = Some v → results c' !! i = Some v) →
  (∀ i v, known c !! i = Some v → known c' !! i = Some v) →
  answered c c' → out c `prefix_of` out c' → grows c c'.
Proof.
  intros Hid Hp Hs He Hr Hk Hl Ho Hwf. split; auto; [|rewrite Hp; lia|].
  - unfold wf. by rewrite Hs, Hp.
  - intros s st Hst. exists st. rewrite Hs. split; [done|apply slot_grows_refl].
Qed.

Lemma grows_same c c' :
  cid c' = cid c → cn c' = cn c → fastSize c' = fastSize c → promise c' = promise c →
  executed c' = executed c → slots c' = slots c → results c' = results c → known c' = known c →
  replies c' = replies c → out c' = out c → grows c c'.
Proof.
  intros ? ? ? Hp He Hs Hr Hk Hl Ho. apply grows_fields; rewrite ?He, ?Hr, ?Hk, ?Ho; try done; by apply answered_same.
Qed.

Lemma grows_send to m c : grows c (send to m c).
Proof. apply grows_fields; try done; by apply prefix_app_r. Qed.

Lemma grows_reply i v c : results c !! i = Some v → grows c (reply i v c).
Proof.
  intros Hv. apply grows_fields; try done. exists [(i, v)]. split; [done|].
  by intros j w [= -> ->]%list_elem_of_singleton.
Qed.

(** A write to one slot that keeps what the slot kept. *)
Lemma grows_set_slot s f c :
  (∀ st, wf c → slots c !! s = Some st → slot_grows (promise c) st (f st) ∧
     (∀ e, accepted (f st) = Some e → accepted st = Some e ∨ Epoch e ≤ promise c) ∧
     (∀ e, deferred (f st) = Some e → deferred st = Some e ∨ Epoch e = 0)) →
  grows c (set_slot s f c).
Proof.
  intros Hf Hwf. split; try done.
  - intros s' st. simpl. rewrite lookup_alter. case_decide as Es; [|by apply Hwf].
    subst s'. destruct (slots c !! s) as [st0|] eqn:E; [|done]. intros [= <-].
    destruct (Hf st0 Hwf eq_refl) as (_&Ha&Hd). destruct (Hwf s st0 E) as [Ha0 Hd0]. split.
    + intros e He. destruct (Ha e He); auto.
    + intros e He. destruct (Hd e He); auto.
  - intros s' st Hst. simpl. rewrite lookup_alter. case_decide as Es.
    + subst s'. rewrite Hst. exists (f st). split; [done|]. by apply Hf.
    + exists st. split; [done|apply slot_grows_refl].
Qed.

(** A write that leaves the vote and the decision alone. *)
Lemma grows_set_slot_same s f c :
  (∀ st, chosen (f st) = chosen st ∧ accepted (f st) = accepted st ∧
     (∀ e, deferred (f st) = Some e → deferred st = Some e ∨ Epoch e = 0)) → grows c (set_slot s f c).
Proof.
  intros Hf. apply grows_set_slot. intros st _ _. destruct (Hf st) as (Hc&Ha&Hd). rewrite Ha.
  split; [|by auto]. destruct (slot_grows_refl (promise c) st). split; by rewrite ?Hc, ?Ha.
Qed.

(** The condition of [grows_set_slot_same] for a write that touches neither. *)
Lemma slot_same (f : slotState → slotState) :
  (∀ st, chosen (f st) = chosen st) → (∀ st, accepted (f st) = accepted st) →
  (∀ st, deferred (f st) = deferred st) →
  ∀ st, chosen (f st) = chosen st ∧ accepted (f st) = accepted st ∧
     (∀ e, deferred (f st) = Some e → deferred st = Some e ∨ Epoch e = 0).
Proof. intros Hc Ha Hd st. rewrite Hc, Ha, Hd. auto. Qed.

(** ** The operations *)
Lemma ensures_refl c : ensures (Done c) (grows c).
Proof. change (grows c c). reflexivity. Qed.

Ltac unchanged := first [apply ensures_refl | reflexivity | cbn [ensures fst snd]; reflexivity].
Ltac branch := match goal with |- ensures (if ?b then _ else _) _ => destruct b eqn:? end.

Lemma slot_grows_state s c : ensures (slot s c) (λ '(st, c'), grows c c' ∧ slots c' !! s = Some st ∧ promise c' = promise c).
Proof.
  unfold slot. case_match; [done|].
  set (c1 := if high c <? s then _ else c).
  assert (grows c c1 ∧ promise c1 = promise c) as [Hg Hp].
  { unfold c1. case_match; (split; [|done]); [by apply grows_same|reflexivity]. }
  clearbody c1.
  destruct (slots c1 !! s) as [st|] eqn:E; simpl; [done|]. split; [|by rewrite lookup_insert_eq].
  etrans; [exact Hg|]. intros Hwf. split; try done.
  - intros s' st. simpl. rewrite lookup_insert. case_decide; [intros [= <-]; split; discriminate|apply Hwf].
  - intros s' st Hst. simpl. exists st. rewrite lookup_insert_ne by congruence.
    split; [done|apply slot_grows_refl].
Qed.

Lemma remember_grows' v c : ensures (remember v c) (λ c', grows c c' ∧ slots c' = slots c ∧ promise c' = promise c).
Proof.
  unfold remember. case_match; [split; [reflexivity|done]|]. destruct (known c !! ID v) as [old|] eqn:E.
  - case_match; [done|split; [reflexivity|done]].
  - split; [|done]. apply grows_fields; try done.
    intros i w Hi. simpl. by rewrite lookup_insert_ne by congruence.
Qed.

Lemma remember_grows v c : ensures (remember v c) (grows c).
Proof. eapply ensures_mono; [apply remember_grows'|]. by intros ? [? _]. Qed.

Lemma forgetPending_grows i c : grows c (forgetPending i c).
Proof. unfold forgetPending. case_decide; [by apply grows_same|unchanged]. Qed.

Lemma enqueue_grows i c : grows c (enqueue i c).
Proof. unfold enqueue. case_decide; [unchanged|by apply grows_same]. Qed.

Lemma adopt_grows b c : grows c (adopt b c).
Proof.
  unfold adopt. case_match eqn:E; [unchanged|]. intros Hwf. split; try done; simpl; [|lia|].
  - intros s st Hs. destruct (Hwf s st Hs) as [Ha Hd]. split; [|done].
    intros e He. simpl. specialize (Ha e He). lia.
  - intros s st Hst. exists st. split; [done|apply slot_grows_refl].
Qed.

Lemma apply_one_grows c : ensures (apply_one c) (λ r, match r with Some c' => grows c c' | None => True end).
Proof.
  unfold apply_one. destruct (slots c !! _) as [s|]; [|done]. destruct (chosen s) as [e|]; [|done].
  assert (∀ c1, grows c c1 → executed c1 = executed c →
    grows c (c1 <| executed ::= (λ x, x + 1) |> <| lastProgress := cnow c1 |>)) as Hadv.
  { intros c1 Hg He. etrans; [exact Hg|]. apply grows_fields; try done. simpl. lia. }
  cbv zeta. case_match; [by apply Hadv|]. destruct (known c !! _) as [full|]; [|done].
  eapply (ensures_bind _ _ (λ c1, grows c c1 ∧ executed c1 = executed c)).
  - destruct (results c !! ID (EValue e)) eqn:Er; [by split|].
    destruct (sm_execute _ _) as [[v s']| |]; [|done..]. split; [|done].
    etrans; [|apply grows_reply; simpl; by rewrite lookup_insert_eq]. apply grows_fields; try done.
    intros i w Hi. simpl. by rewrite lookup_insert_ne by congruence.
  - intros c1 [Hg He]. apply Hadv; [by etrans; [|apply forgetPending_grows]|].
    unfold forgetPending. by case_decide.
Qed.

Lemma apply_grows c : ensures (apply c) (grows c).
Proof.
  unfold apply. generalize (S (size (slots c))) as fuel. intros fuel. revert c.
  induction fuel as [|fuel IH]; intros c; [done|]. simpl.
  eapply ensures_bind; [apply apply_one_grows|]. intros [c'|] Hg; [|unchanged].
  eapply ensures_mono; [apply IH|]. intros c'' ?. by etrans.
Qed.

(** Chains of operations. *)
Lemma ensures_grows_bind (o : outcome core) (k : core → outcome core) c :
  ensures o (grows c) → (∀ c', grows c c' → ensures (k c') (grows c')) → ensures (o ≫= k) (grows c).
Proof.
  intros Ho Hk. eapply ensures_bind; [exact Ho|]. intros c' Hg.
  eapply ensures_mono; [by apply Hk|]. intros c'' ?. by etrans.
Qed.

Lemma ensures_grows_trans (o : outcome core) c c' : grows c c' → ensures o (grows c') → ensures o (grows c).
Proof. intros Hg Ho. eapply ensures_mono; [exact Ho|]. intros c'' ?. by etrans. Qed.

Lemma slot_bind s c (k : slotState * core → outcome core) :
  (∀ st c', grows c c' → slots c' !! s = Some st → ensures (k (st, c')) (grows c')) →
  ensures (slot s c ≫= k) (grows c).
Proof.
  intros Hk. eapply ensures_bind; [apply slot_grows_state|]. intros [st c'] (Hg & Hs & _).
  eapply ensures_grows_trans; [exact Hg|]. by apply Hk.
Qed.

Lemma vote_grows e c : (wf c → Epoch e = 0) → ensures (vote e c) (grows c).
Proof.
  intros He. unfold vote. destruct (promise c =? 0) eqn:Ep; [|unchanged]. cbn [negb].
  eapply ensures_bind; [apply slot_grows_state|]. intros [st c1] (Hg & Hs & _).
  case_decide as Hac; [exact Hg|]. apply eq_None_not_Some in Hac.
  assert (∀ e' m, Epoch e' = Epoch e → Slot e' = Slot e →
    grows c (send (-1) m (set_slot (Slot e')
      (λ s, s <| accepted := Some e' |> <| deferred := None |>) c1))) as Hcast.
  { intros e' m He' Hs'. apply Z.eqb_eq in Ep. etrans; [|apply grows_send].
    intros Hwf. specialize (He Hwf). pose proof (grow_promise _ _ (Hg Hwf)). revert Hwf.
    change (grows c (set_slot (Slot e')
      (λ s, s <| accepted := Some e' |> <| deferred := None |>) c1)).
    etrans; [exact Hg|]. apply grows_set_slot. intros st' _ Hst'.
    assert (st' = st) as -> by (rewrite Hs' in Hst'; congruence). split_and!.
    - split; [|intros x Hx; congruence]. intros x Hx. exists x. split; [done|apply sameValue_refl].
    - intros x [= <-]. right. simpl. lia.
    - intros x [=]. }
  case_match; [by apply (Hcast (e <| Payload := true |>))|].
  destruct (known c1 !! _) as [v|]; [by apply (Hcast (e <| EValue := v |> <| Payload := true |>))|].
  cbn [ensures]. intros Hwf. specialize (He Hwf). revert Hwf.
  change (grows c (broadcast (msg msgFetch <| Entries := [e] |>)
    (set_slot (Slot e) (λ s, s <| deferred := Some e |>) c1))).
  etrans; [exact Hg|]. etrans; [|apply grows_send]. apply grows_set_slot_same.
  intros st'. split_and!; [done..|]. intros x [= <-]. by right.
Qed.

Lemma proposeFast_grows v c : ensures (proposeFast v c) (grows c).
Proof.
  unfold proposeFast. case_match; [by case_match; apply grows_same|]. cbv zeta.
  eapply ensures_grows_trans; [by apply (grows_same c (c <| next ::= (λ x, x + 1) |>))|].
  apply slot_bind. intros st c1 _ Hs. eapply ensures_grows_trans; [|by apply vote_grows].
  by apply grows_set_slot_same, slot_same.
Qed.

Lemma submit_grows v c : ensures (submit v c) (grows c).
Proof.
  unfold submit. apply ensures_grows_bind; [apply remember_grows|]. intros c1 _.
  apply ensures_grows_bind; [apply apply_grows|]. intros c2 _.
  destruct (results c2 !! ID v) eqn:Er; [by apply grows_reply|]. case_decide; [unchanged|]. cbv zeta.
  set (c3 := (if decide (pending c2 = ∅) then _ else c2) <| forwardOrder ::= _ |> <| pending ::= _ |>).
  assert (grows c2 c3) as Hg by (unfold c3; case_decide; by apply grows_same).
  eapply ensures_grows_trans; [exact Hg|]. clearbody c3.
  case_match; [apply proposeFast_grows|]. simpl. case_match; [apply enqueue_grows|unchanged].
Qed.

Lemma learn_grows e c : ensures (learn e c) (grows c).
Proof.
  unfold learn. apply slot_bind. intros st c1 _ Hs. destruct (match chosen st with Some _ => _ | None => _ end) eqn:Ec; [done|].
  apply (ensures_bind _ _ (λ c2, grows c1 c2 ∧ slots c2 = slots c1)).
  { destruct (Payload e); [|change (grows c1 c1 ∧ slots c1 = slots c1); done].
    eapply ensures_mono; [apply remember_grows'|]. by intros ? (?&?&_). }
  intros c2 [Hg2 Hs2]. eapply ensures_grows_trans; [exact Hg2|]. cbv zeta.
  set (c3 := set_slot (Slot e) _ c2).
  assert (grows c2 c3) as Hg3.
  { apply grows_set_slot. rewrite Hs2. intros st' _ Hst'. assert (st' = st) as -> by congruence. simpl.
    split; [|split; intros x Hx; by left]. split; [|exact (grow_accepted _ _ _ (slot_grows_refl _ st))].
    intros x Hx. rewrite Hx in Ec. apply negb_false_iff in Ec. by exists (e <| Decided := true |>). }
  eapply ensures_grows_trans; [exact Hg3|]. clearbody c3.
  set (c4 := if Noop (EValue e) then c3 else _).
  assert (grows c3 c4) as Hg4 by (unfold c4; destruct (Noop (EValue e)); [reflexivity|apply forgetPending_grows]).
  eapply ensures_grows_trans; [exact Hg4|]. clearbody c4.
  apply ensures_grows_bind; [apply apply_grows|]. intros c5 _.
  destruct (slocal st) as [l|]; [|unchanged]. branch; [|unchanged].
  eapply ensures_grows_trans; [|apply proposeFast_grows]. by apply grows_set_slot_same, slot_same.
Qed.

(** Loops. *)
Lemma forEach_grows {A} (f : A → core → outcome core) l c :
  (∀ x c', x ∈ l → ensures (f x c') (grows c')) → ensures (forEach f l c) (grows c).
Proof.
  revert c. induction l as [|x l IH]; intros c Hf; [unchanged|]. simpl.
  apply ensures_grows_bind; [apply Hf; by left|]. intros c' _. apply IH. intros y c'' Hy. apply Hf. by right.
Qed.

Lemma foldl_grows {A} (f : core → A → core) l c : (∀ c' x, grows c' (f c' x)) → grows c (foldl f c l).
Proof. intros Hf. revert c. induction l as [|x l IH]; intros c; [reflexivity|]. simpl.
  etrans; [apply Hf|apply IH].
Qed.

Lemma flush_loop_grows q batch c : ensures (flush_loop q batch c) (λ r, grows c r.2).
Proof.
  revert batch c. induction q as [|id q IH]; intros batch c; cbn [flush_loop]; [unchanged|].
  branch; [|unchanged]. cbv zeta. case_decide.
  - eapply ensures_mono; [apply IH|]. intros r Hr. etrans; [|exact Hr]. by apply grows_same.
  - eapply ensures_bind; [apply slot_grows_state|]. intros [st c1] (Hg & _ & _).
    eapply ensures_mono; [apply IH|]. intros r Hr. etrans; [|exact Hr].
    etrans; [|by apply grows_set_slot_same, slot_same]. etrans; [|exact Hg]. by apply grows_same.
Qed.

Lemma flush_grows c : ensures (flush c) (grows c).
Proof.
  unfold flush. branch; [unchanged|]. eapply ensures_bind; [apply flush_loop_grows|].
  intros [batch c1] Hg. branch; [exact Hg|]. simpl in *. etrans; [exact Hg|apply grows_send].
Qed.

Lemma resend_batches_grows acc com c : grows c (resend_batches acc com c).2.
Proof.
  unfold resend_batches. do 2 case_match; simplify_eq; simpl; try reflexivity;
    repeat (case_match; simplify_eq; simpl; try reflexivity; try apply grows_send);
    etrans; apply grows_send.
Qed.

Lemma resend_slot_grows st acc com c : grows c (resend_slot st acc com c).2.
Proof.
  unfold resend_slot. destruct (chosen st); [apply resend_batches_grows|].
  destruct (proposed st); [|apply resend_batches_grows].
  repeat (case_match; try apply resend_batches_grows). apply grows_send.
Qed.

Lemma resend_loop_grows scans ceiling acc com c : grows c (resend_loop scans ceiling acc com c).2.
Proof.
  revert acc com c. induction scans as [|scans IH]; intros acc com c; cbn [resend_loop]; [reflexivity|].
  case_match; [reflexivity|]. cbv zeta. set (c1 := c <| retryCursor ::= _ |>).
  assert (grows c c1) as Hg by by apply grows_same. clearbody c1.
  set (r := match slots c1 !! _ with Some _ => _ | None => _ end).
  assert (grows c1 r.2) as Hr by (unfold r; case_match; [apply resend_slot_grows|reflexivity]). clearbody r.
  destruct r as [[acc' com'] c2]. simpl in Hr. etrans; [exact Hg|]. etrans; [exact Hr|]. apply IH.
Qed.

Lemma if_grows (b : bool) c1 c2 c : (b = true → grows c c1) → (b = false → grows c c2) →
  grows c (if b then c1 else c2).
Proof. destruct b; auto. Qed.

Lemma resend_grows c : grows c (resend c).
Proof.
  unfold resend. apply if_grows; [intros _; reflexivity|intros _]. cbv zeta.
  set (c1 := if _ || _ then c <| retryCursor := _ |> else c).
  assert (grows c c1) as Hg by (unfold c1; apply if_grows; intros _; [by apply grows_same|reflexivity]).
  clearbody c1. pose proof (resend_loop_grows (Z.to_nat repairBudget)
    (if (if start c <? executed c + 1 then executed c + 1 else start c) + inflightWindow <=? high c
     then (if start c <? executed c + 1 then executed c + 1 else start c) + inflightWindow - 1 else high c)
    [] [] c1) as Hl.
  destruct (resend_loop _ _ _ _ _) as [[acc com] c2]. simpl in Hl. etrans; [exact Hg|].
  etrans; [exact Hl|]. apply if_grows; intros _.
  - apply if_grows; intros _; [reflexivity|apply grows_send].
  - etrans; [|apply grows_send]. apply if_grows; intros _; [reflexivity|apply grows_send].
Qed.

Lemma prepare_grows m c : grows c (prepare m c).
Proof.
  unfold prepare. apply if_grows; intros _; [reflexivity|].
  apply if_grows; intros _; [apply grows_send|]. cbv zeta.
  etrans; [apply (adopt_grows (MEpoch m))|]. apply if_grows; intros _; [reflexivity|].
  etrans; [|apply foldl_grows; intros; apply grows_send].
  apply if_grows; intros _; [by apply grows_same|reflexivity].
Qed.

Lemma begin_grows c : grows c (begin c).
Proof.
  unfold begin. cbv zeta. etrans; [|apply grows_send]. etrans; [apply (adopt_grows (next_epoch c))|].
  by apply grows_same.
Qed.

Lemma gather_entry_grows id x st : ensures (gather_entry id x st) (λ r, grows st.2 r.2).
Proof.
  destruct st as [bySlot c]. unfold gather_entry.
  apply (ensures_bind _ _ (grows c)); [|by intros c']. branch; [apply remember_grows|unchanged].
Qed.

(** A loop whose state carries the core. *)
Lemma forEach_grows_snd {A B} (f : A → B * core → outcome (B * core)) l st :
  (∀ x st, ensures (f x st) (λ r, grows st.2 r.2)) → ensures (forEach f l st) (λ r, grows st.2 r.2).
Proof.
  intros Hf. revert st. induction l as [|x l IH]; intros st; [unchanged|]. simpl.
  eapply ensures_bind; [apply Hf|]. intros st' Hg. eapply ensures_mono; [apply IH|].
  intros r Hr. exact (transitivity Hg Hr).
Qed.

Lemma gather_snapshot_grows e voters ids st :
  ensures (gather_snapshot e voters ids st) (λ r, grows st.2 r.2).
Proof.
  destruct ids as [id s]. unfold gather_snapshot. branch; [unchanged|].
  apply forEach_grows_snd. intros [p page] st'. apply forEach_grows_snd. intros. apply gather_entry_grows.
Qed.

Lemma recover_slot_grows e bySlot voters s c : ensures (recover_slot e bySlot voters s c) (grows c).
Proof.
  unfold recover_slot. destruct (selectValue _ _ _ _ _) as [[v b]| |]; [|done..].
  cbn [mbind outcome_bind]. apply slot_bind. intros st c1 _ _. cbv zeta. cbn [ensures].
  set (c2 := set_slot s _ c1).
  assert (grows c1 c2) as Hg by by apply grows_set_slot_same, slot_same. clearbody c2.
  etrans; [exact Hg|]. 
  set (c3 := if Noop v then c2 else _).
  assert (grows c2 c3) as Hg3 by (unfold c3; apply if_grows; intros _; [reflexivity|by apply grows_same]).
  clearbody c3. etrans; [exact Hg3|]. by apply grows_same.
Qed.

Lemma promisePage_grows e m c : ensures (promisePage e m c) (grows c).
Proof.
  unfold promisePage. branch; [unchanged|]. destruct (add_page m c) as [c1|] eqn:Ea; [|unchanged].
  assert (grows c c1) as Hg by (revert Ea; unfold add_page; case_match; [done|]; intros [= <-]; by apply grows_same).
  eapply ensures_grows_trans; [exact Hg|]. clear Ea. destruct (promise_voters e c1) as [voters maxSlot].
  branch; [unchanged|].
  eapply ensures_bind; [apply (forEach_grows_snd (gather_snapshot e voters)); intros; apply gather_snapshot_grows|].
  intros [bySlot c2] Hg2. cbn [snd] in Hg2. cbv zeta.
  eapply ensures_grows_trans; [exact Hg2|].
  set (c3 := c2 <| preparing := false |> <| active := true |> <| high := maxSlot |> <| next := _ |> <| retryCursor := _ |>).
  eapply (ensures_grows_trans _ _ c3); [by apply grows_same|]. clearbody c3.
  apply ensures_grows_bind; [apply forEach_grows; intros; apply recover_slot_grows|]. intros c4 _.
  cbn [ensures]. etrans; [|apply resend_grows]. apply foldl_grows. intros. apply enqueue_grows.
Qed.

Lemma receive_vote_grows from e c : ensures (receive_vote from e c) (grows c).
Proof.
  unfold receive_vote. branch; [unchanged|]. apply slot_bind. intros st c1 _ _.
  case_decide; [unchanged|]. case_decide; [unchanged|]. cbv zeta.
  set (c2 := set_slot (Slot e) _ c1).
  assert (grows c1 c2) as Hg by by apply grows_set_slot_same, slot_same.
  eapply ensures_grows_trans; [exact Hg|]. clearbody c2. branch.
  - eapply ensures_grows_trans; [|apply learn_grows]. by apply grows_same.
  - branch; [|unchanged]. by apply grows_same.
Qed.

(** An accept of the promised epoch. *)
Lemma accept_entry_grows epoch e st :
  promise st.2 = epoch →
  ensures (accept_entry epoch e st) (λ r, grows st.2 r.2 ∧ promise r.2 = epoch).
Proof.
  destruct st as [acked c]. cbn [snd]. intros Hp. unfold accept_entry.
  destruct (negb (Epoch e =? epoch) || _) eqn:Eg; [by split|].
  apply orb_false_iff in Eg as [Ee _]. apply negb_false_iff, Z.eqb_eq in Ee.
  eapply ensures_bind; [apply remember_grows'|]. intros c1 (Hg1&_&Hp1).
  eapply ensures_bind; [apply slot_grows_state|]. intros [s c2] (Hg2&Hs&Hp2).
  branch; [done|]. destruct (match accepted s with Some _ => _ | None => _ end) eqn:Ea; [done|].
  cbn [ensures snd]. split; [|simpl; congruence].
  etrans; [exact Hg1|]. etrans; [exact Hg2|]. apply grows_set_slot. intros st' Hwf Hst'.
  assert (st' = s) as -> by congruence. destruct (Hwf _ _ Hst') as [Hacc _]. split_and!.
  - split; [exact (grow_chosen _ _ _ (slot_grows_refl 0 s))|]. intros x Hx. eexists. split; [done|].
    rewrite Hx in Ea. simpl. specialize (Hacc x Hx). destruct (decide (Epoch x = Epoch e)) as [E|E]; [left|right; lia].
    rewrite (proj2 (Z.eqb_eq _ _) E) in Ea. by apply negb_false_iff in Ea.
  - intros x [= <-]. right. simpl. lia.
  - intros x Hx. by left.
Qed.

Lemma receive_accept_grows m c : ensures (receive_accept m c) (grows c).
Proof.
  unfold receive_accept. branch; [unchanged|]. destruct (MEpoch m <? promise c) eqn:Ep; [apply grows_send|].
  apply Z.ltb_ge in Ep. cbv zeta. set (c1 := adopt (MEpoch m) c <| active := true |>).
  assert (grows c c1 ∧ promise c1 = MEpoch m) as [Hg Hp].
  { split; [etrans; [apply (adopt_grows (MEpoch m))|by apply grows_same]|].
    unfold c1, adopt. destruct (MEpoch m <=? promise c) eqn:E; [|done]. apply Z.leb_le in E. simpl. lia. }
  clearbody c1. eapply ensures_grows_trans; [exact Hg|].
  apply (ensures_bind _ _ (λ r, grows c1 r.2 ∧ promise r.2 = MEpoch m)).
  - apply (ensures_forEach _ (λ r, grows c1 r.2 ∧ promise r.2 = MEpoch m)); [by split|].
    intros x st [Hg1 Hp1]. eapply ensures_mono; [by apply accept_entry_grows|].
    intros r [Hg2 Hp2]. split; [|done]. exact (transitivity Hg1 Hg2).
  - intros [acked c2] [Hg2 _]. cbn [ensures]. etrans; [exact Hg2|apply grows_send].
Qed.

Lemma accepted_entry_grows from epoch e st : ensures (accepted_entry from epoch e st) (λ r, grows st.2 r.2).
Proof.
  destruct st as [done c]. unfold accepted_entry. destruct (slots c !! Slot e) as [s|]; [|unchanged].
  destruct (proposed s) as [v|]; [|unchanged]. branch; [unchanged|]. cbv zeta.
  set (c1 := set_slot (Slot e) _ c). assert (grows c c1) as Hg by by apply grows_set_slot_same, slot_same.
  clearbody c1. branch; [exact Hg|].
  eapply ensures_bind; [eapply ensures_grows_trans; [|apply learn_grows]|by intros].
  etrans; [exact Hg|]. by apply grows_same.
Qed.

Lemma receive_accepted_grows m c : ensures (receive_accepted m c) (grows c).
Proof.
  unfold receive_accepted. branch; [unchanged|].
  eapply ensures_bind; [apply (forEach_grows_snd (accepted_entry (From m) (MEpoch m))); intros; apply accepted_entry_grows|].
  intros [done c1] Hg. cbn [ensures snd] in *. etrans; [exact Hg|].
  apply if_grows; intros _; [reflexivity|apply grows_send].
Qed.

Lemma fetch_slot_grows to st i : grows st.2 (fetch_slot to st i).2.
Proof.
  destruct st as [ds c]. unfold fetch_slot. destruct (fetch_decision c i); [|reflexivity].
  cbv zeta. case_match; [apply grows_send|reflexivity].
Qed.

Lemma fetch_fold_grows to l st : grows st.2 (foldl (fetch_slot to) st l).2.
Proof.
  revert st. induction l as [|i l IH]; intros st; [reflexivity|]. simpl.
  etrans; [apply (fetch_slot_grows to st i)|apply IH].
Qed.

Lemma receive_fetch_grows m c : grows c (receive_fetch m c).
Proof.
  unfold receive_fetch. cbv zeta. set (c1 := if Nat.eqb (length (fetch_data c (Entries m))) 0 then c else _).
  assert (grows c c1) as Hg by (unfold c1; apply if_grows; intros _; [reflexivity|apply grows_send]).
  clearbody c1. etrans; [exact Hg|]. apply if_grows; intros _; [reflexivity|].
  match goal with |- context [foldl ?f ?st ?l] => pose proof (fetch_fold_grows (From m) l st) as Hf;
    destruct (foldl f st l) as [ds c2] end.
  simpl in Hf. etrans; [exact Hf|]. apply if_grows; intros _; [reflexivity|apply grows_send].
Qed.

Lemma retry_deferred_grows s c : ensures (retry_deferred s c) (grows c).
Proof.
  unfold retry_deferred. destruct (slots c !! s) as [st|] eqn:E; [|unchanged].
  destruct (deferred st) as [e|] eqn:Ed; [|unchanged]. apply vote_grows.
  intros Hwf. by apply (Hwf s st E).
Qed.

Lemma receive_data_grows e m c : ensures (receive_data e m c) (grows c).
Proof.
  unfold receive_data. apply ensures_grows_bind.
  { apply forEach_grows. intros x c' _. branch; [apply remember_grows|unchanged]. }
  intros c1 _. apply ensures_grows_bind; [|intros; apply apply_grows].
  apply forEach_grows. intros. apply retry_deferred_grows.
Qed.

Lemma receive_heartbeat_grows m c : grows c (receive_heartbeat m c).
Proof.
  unfold receive_heartbeat. cbv zeta. set (c1 := if promise c <? MEpoch m then _ else c).
  assert (grows c c1) as Hg by (unfold c1; apply if_grows; intros _; [apply adopt_grows|reflexivity]).
  clearbody c1. etrans; [exact Hg|]. apply if_grows; intros _; [apply grows_send|reflexivity].
Qed.

Lemma receive_grows e m c : ensures (receive e m c) (grows c).
Proof.
  unfold receive. branch; [unchanged|]. cbv zeta. set (c1 := c <| heard ::= _ |>).
  assert (grows c c1) as Hg by by apply grows_same. clearbody c1.
  eapply ensures_grows_trans; [exact Hg|].
  repeat match goal with |- ensures (if Kind m =? _ then _ else _) _ => destruct (Kind m =? _) end.
  - branch; [unchanged|]. apply forEach_grows. intros. apply receive_vote_grows.
  - apply prepare_grows.
  - apply promisePage_grows.
  - apply receive_accept_grows.
  - apply receive_accepted_grows.
  - apply forEach_grows. intros. apply learn_grows.
  - apply receive_heartbeat_grows.
  - apply receive_fetch_grows.
  - apply receive_data_grows.
  - branch; [unchanged|]. apply forEach_grows. intros. branch; [apply submit_grows|unchanged].
  - apply if_grows; intros _; [apply adopt_grows|reflexivity].
  - apply if_grows; intros _; [by apply grows_same|reflexivity].
  - unchanged.
Qed.

(** The timer. *)
Lemma forward_loop_grows budget now batch c : grows c (forward_loop budget now batch c).2.
Proof.
  revert batch c. induction budget as [|budget IH]; intros batch c; [reflexivity|]. cbn [forward_loop].
  destruct (forwardOrder c) as [|p rest]; [reflexivity|].
  destruct (now <? retryAt p); [reflexivity|]. cbv zeta.
  set (c1 := c <| forwardOrder := _ |>). assert (grows c c1) as Hg by by apply grows_same. clearbody c1.
  etrans; [exact Hg|]. case_match; [|apply IH]. etrans; [|apply IH]. apply grows_send.
Qed.

Lemma tick_retry_grows now c : grows c (tick_retry now c).
Proof.
  unfold tick_retry. apply if_grows; intros _; [reflexivity|]. cbv zeta.
  set (c1 := c <| lastRetry := now |>). assert (grows c c1) as Hg by by apply grows_same. clearbody c1.
  etrans; [exact Hg|]. set (c2 := match slots c1 !! _ with Some _ => _ | None => _ end).
  assert (grows c1 c2) as Hg2.
  { unfold c2. destruct (slots c1 !! _) as [s|]; [|reflexivity]. destruct (chosen s); [|reflexivity].
    apply if_grows; intros _; [reflexivity|apply grows_send]. }
  clearbody c2. etrans; [exact Hg2|]. unfold tick_forward. apply if_grows; intros _; [|reflexivity].
  pose proof (forward_loop_grows (Z.to_nat repairBudget) now [] c2) as Hf.
  destruct (forward_loop _ _ _ _) as [batch c3]. simpl in Hf. etrans; [exact Hf|].
  apply if_grows; intros _; [reflexivity|apply grows_send].
Qed.

Lemma tick_age_grows now c : grows c (tick_age now c).
Proof.
  unfold tick_age. apply if_grows; intros _; [|reflexivity]. destruct (forwardOrder c); [reflexivity|].
  apply if_grows; intros _; [by apply grows_same|reflexivity].
Qed.

Lemma tick_elect_grows now alive candidate c : grows c (tick_elect now alive candidate c).
Proof.
  unfold tick_elect. cbv zeta. generalize (need_recovery now alive c) as need. intros need.
  set (c1 := if _ && _ then begin c else c).
  assert (grows c c1) as Hg1 by (unfold c1; apply if_grows; intros _; [apply begin_grows|reflexivity]).
  clearbody c1. set (c2 := if _ && _ then send candidate _ c1 else c1).
  assert (grows c1 c2) as Hg2 by (unfold c2; apply if_grows; intros _; [apply grows_send|reflexivity]).
  clearbody c2. etrans; [exact Hg1|]. etrans; [exact Hg2|]. apply if_grows; intros _; [|reflexivity].
  unfold broadcast. set (c3 := send _ _ c2). assert (grows c2 c3) as Hg3 by apply grows_send. clearbody c3.
  etrans; [exact Hg3|]. by apply grows_same.
Qed.

Lemma tick_lead_grows now c : ensures (tick_lead now c) (grows c).
Proof.
  unfold tick_lead. branch; [|unchanged]. apply ensures_grows_bind; [apply flush_grows|].
  intros c1 _. cbn [ensures]. apply if_grows; intros _; [reflexivity|].
  pose proof (resend_grows c1) as Hr. revert Hr. generalize (resend c1) as c2. intros c2 Hr.
  etrans; [exact Hr|]. by apply grows_same.
Qed.

Lemma tick_grows now c : ensures (tick now c) (grows c).
Proof.
  unfold tick. cbv zeta. set (c1 := c <| cnow := now |> <| heard ::= _ |>).
  assert (grows c c1) as Hg1 by by apply grows_same. clearbody c1.
  set (c2 := (if now - lastBeat c1 <? 250 * Millisecond then c1 else _)).
  assert (grows c1 c2) as Hg2.
  { unfold c2. apply if_grows; intros _; [reflexivity|]. unfold broadcast.
    set (c3 := send _ _ c1). assert (grows c1 c3) as Hg3 by apply grows_send. clearbody c3.
    etrans; [exact Hg3|]. by apply grows_same. }
  clearbody c2. destruct (alive_set _ _ _ _ _) as [alive candidate].
  eapply ensures_grows_trans; [exact (transitivity Hg1 Hg2)|].
  eapply ensures_grows_trans; [etrans; [apply (tick_age_grows now)|apply (tick_elect_grows now alive candidate)]|].
  apply ensures_grows_bind; [apply tick_lead_grows|]. intros c3 _. exact (tick_retry_grows now c3).
Qed.

(** ** Runs *)
Inductive input :=
  | Submit (v : record)
  | Deliver (e : env) (m : message)
  | Advance (now : Z).

Definition handle (i : input) (c : core) : outcome core :=
  match i with
  | Submit v => submit v c
  | Deliver e m => receive e m c
  | Advance now => tick now c
  end.

Lemma handle_grows i c : ensures (handle i c) (grows c).
Proof. destruct i; [apply submit_grows|apply receive_grows|apply tick_grows]. Qed.

Lemma run_grows ins c : ensures (forEach handle ins c) (grows c).
Proof. apply forEach_grows. intros. apply handle_grows. Qed.

Lemma newCore_wf id n c : newCore id n = Done c → wf c ∧ replies c = [].
Proof. unfold newCore. case_match; [done|]. intros [= <-]. split; [|done].
  intros s st Hst. simpl in Hst. by rewrite lookup_empty in Hst.
Qed.

(** C26.  Nothing is forgotten.  Along any run of a replica, whatever messages
    it receives, however they are ordered, and whatever the loops over maps
    choose: the promise never decreases; a decided slot stays decided with the
    same value; a vote is only replaced by a vote for the same value in the
    same epoch or by one of a later epoch not below the promise; executed
    slots, results and sent messages stay; and every answer ever given to a
    request is the recorded result of that request. *)
Theorem nothing_forgotten id n before after c0 c1 c2 :
  newCore id n = Done c0 → forEach handle before c0 = Done c1 → forEach handle after c1 = Done c2 →
  promise c1 ≤ promise c2 ∧ executed c1 ≤ executed c2 ∧ out c1 `prefix_of` out c2 ∧
  (∀ s st, slots c1 !! s = Some st → ∃ st', slots c2 !! s = Some st' ∧ slot_grows (promise c1) st st') ∧
  (∀ i v, results c1 !! i = Some v → results c2 !! i = Some v) ∧
  replies c1 `prefix_of` replies c2 ∧
  (∀ i v, (i, v) ∈ replies c2 → results c2 !! i = Some v).
Proof.
  intros H0 H1 H2. destruct (newCore_wf _ _ _ H0) as [Hwf Hrep].
  destruct (ensures_Done _ _ _ H1 (run_grows before c0) Hwf) as [W1 _ _ _ _ _ _ (l1&E1&L1) _].
  destruct (ensures_Done _ _ _ H2 (run_grows after c1) W1) as [_ _ Hp He Hs Hr _ (l2&E2&L2) Ho].
  split_and!; [done..| |]; [by exists l2|]. rewrite E2, E1, Hrep. intros i v [Hi|Hi]%elem_of_app; auto.
Qed.

(** ** Execution *)
Section Execution.
Context {SML : @StateMachineLaws SM}.

Definition runnable (c : core) : Prop := ∀ i v, known c !! i = Some v → sm_admits (Cmd v).

(** The value decided for a slot. *)
Definition decision (c : core) (s : Z) : option record := st ← slots c !! s; EValue <$> chosen st.

(** A decision the replica can execute: a no-op, or a payload it knows. *)
Definition executable (c : core) (s : Z) : Prop :=
  ∃ v, decision c s = Some v ∧ (Noop v = true ∨ is_Some (known c !! ID v)).

(** The effect of the decision [v] on the store and the table of results. *)
Definition replay_one (payloads : gmap RequestID record) (v : record)
    (st : sm_state * gmap RequestID Value) : outcome (sm_state * gmap RequestID Value) :=
  if Noop v then Done st else
  match st.2 !! ID v with
  | Some _ => Done st
  | None => '(r, s) ← sm_execute (Cmd (default zeroRecord (payloads !! ID v))) st.1;
            Done (s, <[ID v := r]> st.2)
  end.

Definition decisions_between (lo hi : Z) (c : core) : list record :=
  omap (decision c) (rangeZ lo hi).

Lemma forgetPending_same i c :
  slots (forgetPending i c) = slots c ∧ known (forgetPending i c) = known c ∧
  executed (forgetPending i c) = executed c ∧ sm (forgetPending i c) = sm c ∧
  results (forgetPending i c) = results c.
Proof. unfold forgetPending. by case_decide. Qed.

Lemma apply_one_spec c : runnable c →
  returns (apply_one c) (λ r, match r with
    | None => ¬ executable c (executed c + 1)
    | Some c' => slots c' = slots c ∧ known c' = known c ∧ executed c' = executed c + 1 ∧
        ∃ v, decision c (executed c + 1) = Some v ∧ executable c (executed c + 1) ∧
          replay_one (known c) v (sm c, results c) = Done (sm c', results c')
    end).
Proof.
  intros Hrun. unfold apply_one, executable, decision.
  destruct (slots c !! (executed c + 1)) as [st|]; [|by intros (v & [=] & _)]. cbn [mbind option_bind].
  destruct (chosen st) as [e|]; [|by intros (v & [=] & _)]. cbv zeta. cbn [fmap option_fmap option_map].
  unfold replay_one. cbn [fst snd]. destruct (Noop (EValue e)) eqn:Hn.
  { split_and!; try done. exists (EValue e). rewrite Hn. split_and!; [done| |done]. eexists. eauto. }
  destruct (known c !! ID (EValue e)) as [full|] eqn:Hk.
  2: { intros (v & [= <-] & [?|[? ?]]); congruence. }
  assert (∀ c1, slots c1 = slots c → known c1 = known c → executed c1 = executed c →
    let c2 := forgetPending (ID (EValue e)) c1 <| executed ::= (λ x, x + 1) |> in
    slots c2 = slots c ∧ known c2 = known c ∧ executed c2 = executed c + 1) as Hadv.
  { intros c1 <- <- <-. destruct (forgetPending_same (ID (EValue e)) c1) as (?&?&He&_). simpl. by rewrite He. }
  destruct (results c !! ID (EValue e)) as [r|] eqn:Hr.
  - destruct (Hadv c eq_refl eq_refl eq_refl) as (?&?&?). destruct (forgetPending_same (ID (EValue e)) c) as (_&_&_&Es&Er).
    cbn [mbind outcome_bind returns]. split_and!; [done..|]. exists (EValue e). rewrite Hn, Hr, ?Hk. simpl.
    rewrite Es, Er. split_and!; [done| |done]. eexists. split; [done|]. right. rewrite Hk. by eexists.
  - destruct (returns_inv _ _ (sm_execute_returns (Cmd full) (sm c) (Hrun _ _ Hk))) as ([r s'] & E & _).
    rewrite E. cbn [mbind outcome_bind returns].
    set (c1 := reply _ _ _). destruct (Hadv c1 eq_refl eq_refl eq_refl) as (?&?&?).
    destruct (forgetPending_same (ID (EValue e)) c1) as (_&_&_&Es&Er).
    split_and!; [done..|]. exists (EValue e). rewrite Hn, Hr, ?Hk. simpl. rewrite E. simpl.
    rewrite Es, Er. split_and!; [done| |done]. eexists. split; [done|]. right. rewrite Hk. by eexists.
Qed.

(** The slots of the map beyond the executed prefix bound the rounds. *)
Definition unexecuted (c : core) : nat := size (beyond (executed c) (slots c)).

Lemma slots_unexecuted_step c c' : slots c' = slots c → executed c' = executed c + 1 →
  is_Some (slots c !! (executed c + 1)) → (unexecuted c' < unexecuted c)%nat.
Proof. intros Es Ee [st Hst]. unfold unexecuted. rewrite Es, Ee. by eapply beyond_step. Qed.

Definition executed_to (c c' : core) : Prop :=
  slots c' = slots c ∧ known c' = known c ∧ executed c ≤ executed c' ∧
  (∀ s, executed c < s ≤ executed c' → executable c s) ∧ ¬ executable c (executed c' + 1) ∧
  forEach (replay_one (known c)) (decisions_between (executed c + 1) (executed c') c) (sm c, results c)
    = Done (sm c', results c').

Lemma fast_apply_loop_spec fuel c : runnable c → (unexecuted c < fuel)%nat →
  returns (apply_loop fuel c) (executed_to c).
Proof.
  revert c. induction fuel as [|fuel IH]; intros c Hrun Hf; [lia|]. cbn [apply_loop].
  eapply returns_bind; [by apply apply_one_spec|]. intros [c1|].
  - intros (Es & Ek & Ee & v & Hv & Hex & Hrep). eapply returns_mono; [apply IH|].
    + intros i w. rewrite Ek. apply Hrun.
    + assert (is_Some (slots c !! (executed c + 1))) as Hs.
      { unfold decision in Hv. destruct (slots c !! (executed c + 1)); [by eexists|done]. }
      pose proof (slots_unexecuted_step c c1 Es Ee Hs). lia.
    + intros c2 (Es2 & Ek2 & Hle & Hall & Hmax & Hr2).
      assert (∀ s, executable c1 s ↔ executable c s) as Hiff.
      { intros s. unfold executable, decision. by rewrite Es, Ek. }
      assert (∀ lo hi, decisions_between lo hi c1 = decisions_between lo hi c) as Hd.
      { intros lo hi. unfold decisions_between, decision. by rewrite Es. }
      rewrite Ee in *. rewrite Ek, Hd in Hr2. split_and!; [congruence..|lia| | |].
      * intros s Hs. destruct (decide (s = executed c + 1)) as [->|]; [done|]. apply Hiff, Hall. lia.
      * by rewrite <- Hiff.
      * unfold decisions_between in *. rewrite rangeZ_cons by lia. simpl. rewrite Hv. simpl.
        rewrite Hrep. exact Hr2.
  - intros Hno. split_and!; [done..|lia|intros s ?; lia|done|].
    unfold decisions_between. by rewrite rangeZ_empty by lia.
Qed.

(** [apply] terminates and is complete: it executes, in slot order and at
    most once per identity, exactly the decided slots after the executed prefix
    up to the first slot that is undecided or whose payload is missing. *)
Theorem fast_apply_complete c :
  runnable c → ∃ c', apply c = Done c' ∧ executed_to c c'.
Proof.
  intros Hrun. apply returns_inv, fast_apply_loop_spec; [done|]. pose proof (beyond_le (executed c) (slots c)).
  unfold unexecuted. lia.
Qed.
End Execution.
End Local.

(** ** A concrete run: replica 0 of three proposes a write in the fast round,
    gathers the three votes a fast quorum needs and answers; the client then
    asks again, and the replica joins epoch 4 of replica 1. *)
Section Demo.
#[local] Existing Instance demo_machine.
#[local] Existing Instance demo_laws.

Definition fast_put : record := mkRecord (mkRequestID 7 1) (mkCommand PUT 3 [9]) false.
Definition fast_env : env := mkEnv (λ _, ([], [], [])) [] (λ _, []) [].
Definition fast_vote_from (i : Z) : message :=
  msg msgVote <| From := i |> <| Entries := [mkEntry 0 0 1 (fast_put <| Cmd := zeroCommand |>) false false] |>.
Definition fast_before : list input :=
  Submit fast_put :: ((λ i, Deliver fast_env (fast_vote_from i)) <$> [0; 1; 2]).
Definition fast_after : list input :=
  [ Submit fast_put; Deliver fast_env (msg msgPrepare <| From := 1 |> <| MEpoch := 4 |>); Advance Second ].

Definition fast_boot : core := result_or (mkCore 0 3 0 0 false false 0 0 0 0 ∅ ∅ ∅ [] ∅ ∅ [] ∅ [] 0 [] [] [] 0 0 0 0 0 0
  false 0 0 0 0 0 0 ∅) (newCore 0 3).
Definition fast_mid : core := result_or fast_boot (forEach handle fast_before fast_boot).
Definition fast_end : core := result_or fast_boot (forEach handle fast_after fast_mid).

Lemma nothing_forgotten_witness :
  (promise fast_mid =? 0) && (promise fast_end =? 4) && (executed fast_mid =? 0) = true ∧
  bool_decide (replies fast_end = [(mkRequestID 7 1, []); (mkRequestID 7 1, [])]) = true ∧
  results fast_end !! mkRequestID 7 1 = Some [].
Proof.
  assert (bool_decide (replies fast_end = [(mkRequestID 7 1, []); (mkRequestID 7 1, [])]) = true) as Hr
    by (vm_compute; reflexivity).
  split; [vm_compute; reflexivity|]. split; [exact Hr|].
  destruct (nothing_forgotten 0 3 fast_before fast_after fast_boot fast_mid fast_end) as (_&_&_&_&_&_&H).
  - unfold fast_boot. apply result_or_done. vm_compute. reflexivity.
  - unfold fast_mid. apply result_or_done. vm_compute. reflexivity.
  - unfold fast_end. apply result_or_done. vm_compute. reflexivity.
  - apply H. apply bool_decide_eq_true in Hr. rewrite Hr. constructor.
Defined.

Lemma fast_apply_complete_witness :
  runnable fast_mid ∧ ∃ c', apply fast_mid = Done c' ∧ executed_to fast_mid c'.
Proof.
  assert (runnable fast_mid) as H.
  { apply (map_Forall_lookup (λ _ v, Validate (mkCommandPolicy [] 0) (Cmd v) = None)).
    apply (bool_decide_eq_true_1 _). vm_compute. reflexivity. }
  split; [exact H|]. exact (fast_apply_complete fast_mid H).
Defined.
End Demo.
End FastLocal.
