(* ===== verification/CurpConflicts.v ===== *)
(** * CurpConflicts: the conflict index of CURP ([curp/conflicts.go])

    [conflictIndex] counts the point operations and the writes of every key and
    keeps the scans.  [index_refines_requests] relates it to the list of
    requests it stands for: adding and removing requests in any order keeps the
    index of what is left, and [conflicts] decides whether the request
    conflicts, in the sense of [state.Conflict], with one of them, no-ops
    aside. *)
From stdpp Require Import gmap strings list fin_maps.
From Stdlib Require Import Lia.
From S2P Require Import Prelude State Defs.

Module CurpConflicts.

Record Request := mkRequest { ID : RequestID; Cmd : Command }.
#[export] Instance Request_eq_dec : EqDecision Request.
Proof. solve_decision. Defined.

Record conflictIndex := mkIndex {
  all : gmap Z Z; writes : gmap Z Z; scans : gmap RequestID Request }.
#[export] Instance eta_index : Eta conflictIndex := λ x, mkIndex (all x) (writes x) (scans x).
#[export] Instance set_all : Setter all := ltac:(mk_setter).
#[export] Instance set_writes : Setter writes := ltac:(mk_setter).
#[export] Instance set_scans : Setter scans := ltac:(mk_setter).

Definition newConflictIndex : conflictIndex := mkIndex ∅ ∅ ∅.

(** [m[k]++] *)
Definition incr (k : Z) (m : gmap Z Z) : gmap Z Z := <[k := default 0 (m !! k) + 1]> m.
(** [m[k]--; if m[k] == 0 { delete(m, k) }] *)
Definition decr (k : Z) (m : gmap Z Z) : gmap Z Z :=
  let v := default 0 (m !! k) - 1 in if v =? 0 then delete k m else <[k := v]> m.

Definition add (r : Request) (x : conflictIndex) : conflictIndex :=
  if Op (Cmd r) =? NONE then x
  else if Op (Cmd r) =? SCAN then x <| scans ::= <[ID r := r]> |>
  else
    let x := x <| all ::= incr (K (Cmd r)) |> in
    if Op (Cmd r) =? PUT then x <| writes ::= incr (K (Cmd r)) |> else x.

Definition remove (r : Request) (x : conflictIndex) : conflictIndex :=
  if Op (Cmd r) =? NONE then x
  else if Op (Cmd r) =? SCAN then x <| scans ::= delete (ID r) |>
  else
    let x := x <| all ::= decr (K (Cmd r)) |> in
    if Op (Cmd r) =? PUT then x <| writes ::= decr (K (Cmd r)) |> else x.

Lemma existsb_exists' {A} (f : A → bool) (l : list A) : existsb f l = true ↔ ∃ x, x ∈ l ∧ f x = true.
Proof. rewrite existsb_exists. by setoid_rewrite list_elem_of_In. Qed.

(** The loop over the scans, in an order of the runtime's choice. *)
Fixpoint scan_conflicts (l : list Request) (r : Request) : outcome bool :=
  match l with
  | [] => Done false
  | s :: l => b ← Conflict (Cmd s) (Cmd r); if b : bool then Done true else scan_conflicts l r
  end.

Definition conflicts (ord : list RequestID) (r : Request) (x : conflictIndex) : outcome bool :=
  let o := Op (Cmd r) in
  let k := K (Cmd r) in
  if o =? NONE then Done false
  else if o =? GET then Done (0 <? default 0 (writes x !! k))
  else if o =? PUT then
    if 0 <? default 0 (all x !! k) then Done true
    else scan_conflicts (range_order ord (scans x)).*2 r
  else if o =? SCAN then
    ub ← scan_end (Cmd r);
    Done (existsb (λ kv, in_range k ub kv.1) (map_to_list (writes x)))
  else Done false.

(** ** The requests an index stands for *)
Definition index_of (l : list Request) : conflictIndex := foldr add newConflictIndex l.

Definition is_scan (r : Request) : Prop := Op (Cmd r) = SCAN.
#[export] Instance is_scan_dec r : Decision (is_scan r).
Proof. unfold is_scan. apply _. Defined.
Definition scan_ids (l : list Request) : list RequestID := ID <$> filter is_scan l.

(** The point operations of [l] on the key [k]. *)
Definition points (k : Z) (l : list Request) : list Request :=
  filter (λ s, Op (Cmd s) ≠ NONE ∧ Op (Cmd s) ≠ SCAN ∧ K (Cmd s) = k) l.
Definition puts (k : Z) (l : list Request) : list Request :=
  filter (λ s, Op (Cmd s) = PUT ∧ K (Cmd s) = k) l.

(** A counter as the maps keep it: absent when zero. *)
Definition counted (n : nat) : option Z := if Nat.eqb n 0 then None else Some (Z.of_nat n).

Lemma counted_S n : default 0 (counted n) + 1 = Z.of_nat (S n).
Proof. unfold counted. destruct n; simpl; lia. Qed.

Lemma incr_lookup k k' m n :
  m !! k' = counted n → incr k m !! k' = counted (if decide (k = k') then S n else n).
Proof.
  intros Hm. unfold incr. case_decide as E.
  - subst k'. rewrite lookup_insert_eq, Hm, counted_S. done.
  - by rewrite lookup_insert_ne.
Qed.

Lemma decr_incr k m n : m !! k = counted n → decr k (incr k m) = m.
Proof.
  intros Hm. unfold decr, incr. rewrite lookup_insert_eq. simpl. rewrite Hm.
  unfold counted in *. destruct n as [|n]; [by apply delete_insert_id|].
  cbn [Nat.eqb] in *. assert (0 < Z.of_nat (S n)) as Hv by lia. revert Hm Hv.
  generalize (Z.of_nat (S n)) as v. intros v Hm Hv. change (default 0 (Some v)) with v.
  rewrite Z.add_simpl_r. destruct (v =? 0) eqn:E; [lia|]. by rewrite insert_insert_eq, insert_id.
Qed.

Lemma incr_comm k k' m : incr k (incr k' m) = incr k' (incr k m).
Proof.
  destruct (decide (k = k')) as [->|Hne]; [done|]. unfold incr.
  rewrite !lookup_insert_ne by done. by rewrite insert_insert_ne.
Qed.

Lemma index_all l k : all (index_of l) !! k = counted (length (points k l)).
Proof.
  induction l as [|r l IH]; [done|]. simpl. unfold add, points in *. rewrite filter_cons.
  destruct (Op (Cmd r) =? NONE) eqn:E1, (Op (Cmd r) =? SCAN) eqn:E2;
    try (rewrite decide_False by lia; exact IH).
  set (x := index_of l) in *. transitivity (incr (K (Cmd r)) (all x) !! k); [by case_match|].
  rewrite (incr_lookup _ _ _ _ IH). case_decide; [rewrite decide_True by lia|rewrite decide_False by lia]; done.
Qed.

Lemma index_writes l k : writes (index_of l) !! k = counted (length (puts k l)).
Proof.
  induction l as [|r l IH]; [done|]. simpl. unfold add, puts in *. rewrite filter_cons.
  destruct (Op (Cmd r) =? NONE) eqn:E1; [unfold NONE, PUT in *; rewrite decide_False by lia; exact IH|].
  destruct (Op (Cmd r) =? SCAN) eqn:E2; [unfold SCAN, PUT in *; rewrite decide_False by lia; exact IH|].
  destruct (Op (Cmd r) =? PUT) eqn:E3; [|rewrite decide_False by lia; exact IH]. simpl.
  rewrite (incr_lookup _ _ _ _ IH). case_decide; [rewrite decide_True by lia|rewrite decide_False by lia]; done.
Qed.

Lemma index_scans l id s : NoDup (scan_ids l) →
  scans (index_of l) !! id = Some s ↔ s ∈ l ∧ is_scan s ∧ ID s = id.
Proof.
  induction l as [|r l IH]; [intros _; simpl; rewrite lookup_empty; split; [done|by intros (?%elem_of_nil&_)]|].
  unfold scan_ids. rewrite filter_cons. simpl. unfold add, is_scan.
  assert (∀ x y : conflictIndex, scans x = scans y → scans x !! id = Some s ↔ scans y !! id = Some s) as Hx
    by (intros x y ->; done).
  destruct (Op (Cmd r) =? SCAN) eqn:E2.
  - rewrite decide_True by lia. intros [Hni Hnd]%NoDup_cons. specialize (IH Hnd).
    destruct (Op (Cmd r) =? NONE) eqn:E1; [unfold SCAN, NONE in *; lia|]. simpl.
    rewrite lookup_insert_Some, IH, elem_of_cons. unfold is_scan. split.
    + intros [[<- <-]|[? (?&?&?)]]; [split_and!; [by left|lia|done]|by auto].
    + intros ([->|Hin]&Hs&Hid); [by left|]. right. split_and!; [|done..]. intros E. apply Hni.
      apply list_elem_of_fmap. exists s. split; [congruence|]. by apply list_elem_of_filter.
  - rewrite decide_False by lia. intros Hnd. specialize (IH Hnd). unfold is_scan in IH.
    rewrite (Hx _ (index_of l)) by (repeat case_match; done). rewrite IH, elem_of_cons.
    split; [by intuition|]. intros ([->|?]&?&?); [lia|done].
Qed.

Lemma add_comm r s x : (is_scan r → is_scan s → ID r ≠ ID s) → add r (add s x) = add s (add r x).
Proof.
  intros Hne. unfold add. destruct (Op (Cmd r) =? NONE) eqn:?, (Op (Cmd s) =? NONE) eqn:?; try done.
  destruct (Op (Cmd r) =? SCAN) eqn:Er, (Op (Cmd s) =? SCAN) eqn:Es; try by repeat case_match.
  - unfold set, set_scans. simpl. f_equal. apply insert_insert_ne.
    apply Hne; unfold is_scan; lia.
  - destruct (Op (Cmd r) =? PUT), (Op (Cmd s) =? PUT);
      unfold set, set_all, set_writes; simpl; f_equal; apply incr_comm.
Qed.

Lemma scan_ids_perm l l' : l ≡ₚ l' → scan_ids l ≡ₚ scan_ids l'.
Proof. intros E. unfold scan_ids. by rewrite E. Qed.

Lemma index_of_perm l l' : l ≡ₚ l' → NoDup (scan_ids l) → index_of l = index_of l'.
Proof.
  induction 1 as [|r l l' HP IH|r s l|l1 l2 l3 H1 IH1 H2 IH2]; intros Hnd; [done| | |].
  - simpl. rewrite IH; [done|]. unfold scan_ids in *. rewrite filter_cons in Hnd.
    case_decide; [by apply NoDup_cons in Hnd as [_ ?]|done].
  - simpl. apply add_comm. intros Hs Hr Eid. unfold scan_ids in Hnd.
    rewrite !filter_cons, !decide_True in Hnd by done. simpl in Hnd.
    apply NoDup_cons in Hnd as [Hni _]. apply Hni. rewrite <- Eid. by left.
  - rewrite IH1 by done. apply IH2. by rewrite <- (scan_ids_perm _ _ H1).
Qed.

Lemma remove_add r l : NoDup (scan_ids (r :: l)) → remove r (index_of (r :: l)) = index_of l.
Proof.
  intros Hnd. pose proof (index_all l (K (Cmd r))) as Ha. pose proof (index_writes l (K (Cmd r))) as Hw.
  simpl. unfold remove, add. destruct (Op (Cmd r) =? NONE) eqn:?; [done|].
  destruct (Op (Cmd r) =? SCAN) eqn:Es.
  - assert (scans (index_of l) !! ID r = None) as Hn.
    { unfold scan_ids in Hnd. rewrite filter_cons, decide_True in Hnd by (unfold is_scan; lia).
      apply NoDup_cons in Hnd as [Hni Hnd]. apply eq_None_not_Some. intros [s Hs].
      apply (index_scans l _ _ Hnd) in Hs as (Hin&Hsc&Hid). apply Hni, list_elem_of_fmap.
      exists s. split; [done|]. by apply list_elem_of_filter. }
    destruct (index_of l) as [a w sc]. unfold set, set_scans. simpl in *. f_equal. by apply delete_insert_id.
  - destruct (index_of l) as [a w sc]. simpl in *.
    destruct (Op (Cmd r) =? PUT); unfold set, set_all, set_writes; simpl;
      rewrite ?(decr_incr _ _ _ Ha), ?(decr_incr _ _ _ Hw); done.
Qed.

Lemma scan_conflicts_spec l r :
  (∀ s, s ∈ l → executable (Cmd s)) → executable (Cmd r) →
  returns (scan_conflicts l r) (λ b, b = true ↔ ∃ s, s ∈ l ∧ Conflict (Cmd s) (Cmd r) = Done true).
Proof.
  intros Hl Hr. induction l as [|s l IH]; simpl.
  { split; [done|]. by intros (s&?%elem_of_nil&_). }
  assert (∃ b, Conflict (Cmd s) (Cmd r) = Done b) as [b Hb].
  { unfold Conflict. destruct (Op (Cmd s) =? SCAN) eqn:Es, (Op (Cmd r) =? SCAN) eqn:Er; simpl; [eauto| | |eauto].
    - destruct (scan_end_returns (Cmd s)) as [ub ->]; [apply Hl; by left|lia|]. simpl. eauto.
    - destruct (scan_end_returns (Cmd r)) as [ub ->]; [done|lia|]. simpl. eauto. }
  rewrite Hb. simpl. destruct b.
  { split; [|done]. intros _. exists s. split; [by left|done]. }
  eapply returns_mono; [apply IH; intros; apply Hl; by right|]. intros b ->. split.
  - intros (s'&?&?). exists s'. split; [by right|done].
  - intros (s'&[->|?]%elem_of_cons&?); [congruence|eauto].
Qed.

Definition known_op (r : Request) : Prop := Op (Cmd r) ∈ [NONE; PUT; GET; SCAN].

Lemma conflicts_spec l ord r :
  NoDup (scan_ids l) → (∀ s, s ∈ l → executable (Cmd s) ∧ known_op s) → executable (Cmd r) → known_op r →
  returns (conflicts ord r (index_of l)) (λ b, b = true ↔ Op (Cmd r) ≠ NONE ∧
    ∃ s, s ∈ l ∧ Op (Cmd s) ≠ NONE ∧ Conflict (Cmd s) (Cmd r) = Done true).
Proof.
  intros Hnd Hl Hr Hop. unfold conflicts. cbv zeta. rewrite index_all, index_writes.
  assert (∀ n, (0 <? default 0 (counted n)) = true ↔ n ≠ 0%nat) as Hcount.
  { intros n. unfold counted. destruct n; [done|]. cbn [Nat.eqb].
    change (default 0 (Some ?v)) with v. rewrite Z.ltb_lt. lia. }
  assert (∀ (P : Request → Prop) `{∀ x, Decision (P x)} , length (filter P l) ≠ 0%nat ↔ ∃ s, s ∈ l ∧ P s) as Hlen.
  { intros P HP. split.
    - destruct (filter P l) as [|s f] eqn:E; [done|]. intros _. exists s.
      assert (s ∈ filter P l) as [??]%list_elem_of_filter by (rewrite E; by left). done.
    - intros (s&?&?) E%length_zero_iff_nil. apply (not_elem_of_nil s). rewrite <- E. by apply list_elem_of_filter. }
  unfold known_op in Hop. rewrite !elem_of_cons, elem_of_nil in Hop. unfold NONE, PUT, GET, SCAN in *.
  assert (∀ s, s ∈ l → Op (Cmd s) = 0 ∨ Op (Cmd s) = 1 ∨ Op (Cmd s) = 2 ∨ Op (Cmd s) = 3) as Hops.
  { intros s [_ Hs]%Hl. unfold known_op in Hs. rewrite !elem_of_cons, elem_of_nil in Hs.
    unfold NONE, PUT, GET, SCAN in Hs. tauto. }
  destruct Hop as [E|[E|[E|[E|[]]]]]; rewrite E; cbn [Z.eqb].
  - split; [done|]. by intros [? _].
  - (* a write: the point operations of its key, then the scans *)
    destruct (0 <? default 0 (counted (length (points (K (Cmd r)) l)))) eqn:Hc; simpl.
    + apply Hcount, Hlen in Hc as (s&Hs&Hn&Hsc&Hk). split; [|done]. intros _. split; [done|].
      exists s. split_and!; [done..|]. unfold Conflict, in_range, PUT, SCAN. rewrite E, Hk.
      destruct (Hops s Hs) as [->|[->|[->|]]]; try done; simpl; by rewrite Z.leb_refl.
    + assert (∀ s, s ∈ l → Op (Cmd s) ≠ 0 → Op (Cmd s) ≠ 3 → K (Cmd s) ≠ K (Cmd r)) as Hno.
      { intros s Hs Hn Hsc Hk. rewrite <- not_true_iff_false, Hcount in Hc. apply Hc, Hlen. by exists s. }
      assert (∀ s, s ∈ (range_order ord (scans (index_of l))).*2 ↔ s ∈ l ∧ is_scan s) as Hsc.
      { intros s. rewrite list_elem_of_fmap. split.
        - intros ([id s'] & -> & Hin%elem_of_range_order). apply (index_scans _ _ _ Hnd) in Hin. tauto.
        - intros [Hin Hs]. exists (ID s, s). split; [done|]. apply elem_of_range_order, (index_scans _ _ _ Hnd). done. }
      eapply returns_mono; [apply scan_conflicts_spec; [|done]|].
      { intros s [Hs _]%Hsc. by apply Hl. }
      intros b ->. split.
      * intros (s & [Hs Hss]%Hsc & Hcf). split; [done|]. exists s. split_and!; [done| |done].
        unfold is_scan, SCAN in Hss. lia.
      * intros (_ & s & Hs & Hn & Hcf). exists s. split; [|done]. apply Hsc. split; [done|].
        unfold is_scan, SCAN. destruct (decide (Op (Cmd s) = 3)) as [|Hne]; [done|]. exfalso.
        apply (Hno s Hs Hn Hne). revert Hcf. unfold Conflict, in_range, PUT, SCAN. rewrite E.
        destruct (Op (Cmd s) =? 3) eqn:?; [lia|]. simpl. intros [= [??]%andb_true_iff]. lia.
  - (* a read: the writes of its key *)
    simpl. rewrite Hcount. unfold puts. rewrite Hlen. unfold Conflict, in_range, PUT, SCAN. rewrite E. split.
    + intros (s&Hs&Hp&Hk). split; [done|]. exists s. rewrite Hp, Hk. split_and!; try done.
      simpl. by rewrite Z.leb_refl.
    + intros (_&s&Hs&Hn&Hcf). exists s. split; [done|]. destruct (Hops s Hs) as [Es|[Es|[Es|Es]]]; rewrite Es in Hcf; simpl in Hcf.
      * done.
      * split; [done|]. rewrite andb_true_r in Hcf. injection Hcf as Hcf. lia.
      * by rewrite andb_false_r in Hcf.
      * destruct (scan_end (Cmd s)); simpl in Hcf; [|done..]. by rewrite andb_false_r in Hcf.
  - (* a scan: the written keys of its range *)
    destruct (scan_end_returns (Cmd r) Hr E) as [ub Hub]. rewrite Hub. simpl. split.
    + intros ([k v] & Hkv%elem_of_map_to_list & Hin)%existsb_exists'. 
      rewrite index_writes in Hkv. simpl in Hin.
      assert (length (puts k l) ≠ 0%nat) as (s&Hs&Hp&Hk)%Hlen.
      { unfold counted in Hkv. by destruct (length (puts k l)). }
      unfold PUT in Hp. split; [done|]. exists s. split_and!; [done|lia|].
      unfold Conflict, SCAN, PUT. rewrite E, Hp. simpl.
      rewrite Hub. simpl. by rewrite Hk, Hin.
    + intros (_&s&Hs&Hn&Hcf). unfold Conflict, SCAN, PUT in Hcf. rewrite E in Hcf.
      destruct (Op (Cmd s) =? 3) eqn:Es; simpl in Hcf; [done|]. rewrite Hub in Hcf. simpl in Hcf.
      injection Hcf as [Hin Hp]%andb_true_iff. rewrite orb_false_r in Hp.
      apply existsb_exists'. exists (K (Cmd s), Z.of_nat (length (puts (K (Cmd s)) l))). split; [|done].
      apply elem_of_map_to_list. rewrite index_writes. unfold counted.
      assert (length (puts (K (Cmd s)) l) ≠ 0%nat) as Hne.
      { apply Hlen. exists s. unfold PUT. split_and!; [done|lia|done]. }
      by destruct (length (puts (K (Cmd s)) l)).
Qed.

(** C24.  The index refines the list of requests it stands for: [add] and
    [remove] add and remove a request, in any order of the list, and
    [conflicts] answers, whatever the order of its loop, whether the request
    conflicts with one of them by [state.Conflict].  No-ops are left out: the
    index never reports them, although [state.Conflict] orders a no-op with a
    write of its key ([index_ignores_noops]). *)
Theorem index_refines_requests l1 l2 r q ord :
  NoDup (scan_ids (l1 ++ r :: l2)) →
  (∀ s, s ∈ q :: l1 ++ r :: l2 → executable (Cmd s) ∧ known_op s) →
  add r (index_of (l1 ++ l2)) = index_of (l1 ++ r :: l2) ∧
  remove r (index_of (l1 ++ r :: l2)) = index_of (l1 ++ l2) ∧
  returns (conflicts ord q (index_of (l1 ++ r :: l2))) (λ b, b = true ↔ Op (Cmd q) ≠ NONE ∧
    ∃ s, s ∈ l1 ++ r :: l2 ∧ Op (Cmd s) ≠ NONE ∧ Conflict (Cmd s) (Cmd q) = Done true).
Proof.
  intros Hnd Hl. assert (l1 ++ r :: l2 ≡ₚ r :: l1 ++ l2) as HP by by rewrite Permutation_middle.
  assert (NoDup (scan_ids (r :: l1 ++ l2))) as Hnd' by by rewrite <- (scan_ids_perm _ _ HP).
  rewrite (index_of_perm _ _ HP Hnd). split_and!; [done|by apply remove_add|].
  rewrite <- (index_of_perm _ _ HP Hnd).
  apply conflicts_spec; [done| |apply Hl; by left..]. intros s Hs. apply Hl. by right.
Qed.

Definition index_put : Request := mkRequest (mkRequestID 1 1) (mkCommand PUT 5 [1]).
Definition index_scan : Request := mkRequest (mkRequestID 2 1) (mkCommand SCAN 4 [2; 0; 0; 0; 0; 0; 0; 0]).
Definition index_get : Request := mkRequest (mkRequestID 3 1) (mkCommand GET 5 []).

Lemma index_refines_requests_witness :
  add index_put (index_of [index_scan]) = index_of [index_scan; index_put] ∧
  remove index_put (index_of [index_scan; index_put]) = index_of [index_scan] ∧
  returns (conflicts [] index_get (index_of [index_scan; index_put])) (λ b, b = true ↔ Op (Cmd index_get) ≠ NONE ∧
    ∃ s, s ∈ [index_scan; index_put] ∧ Op (Cmd s) ≠ NONE ∧ Conflict (Cmd s) (Cmd index_get) = Done true).
Proof.
  apply (index_refines_requests [index_scan] [] index_put index_get []).
  - apply (bool_decide_eq_true_1 _). vm_compute. reflexivity.
  - intros s Hs. change (s ∈ [index_get; index_scan; index_put]) in Hs.
    rewrite !elem_of_cons, elem_of_nil in Hs. unfold executable, known_op.
    destruct Hs as [->|[->|[->|[]]]]; (split; [vm_compute; lia || (intros E; discriminate E)|apply (bool_decide_eq_true_1 _); reflexivity]).
Defined.

(** A no-op on the key of a write: ordered by [state.Conflict], not by the index. *)
Lemma index_ignores_noops :
  let noop := mkRequest (mkRequestID 9 1) (mkCommand NONE 5 []) in
  conflicts [] noop (index_of [index_put]) = Done false ∧ Conflict (Cmd index_put) (Cmd noop) = Done true.
Proof. vm_compute. split; reflexivity. Qed.
End CurpConflicts.
