(* ===== verification/CurpWitness.v ===== *)
(** * CurpWitness: what the witnesses of CURP guarantee

    [witness_commutes]: whatever a replica receives, the commands it records
    positively commute pairwise, and [witnessIndex] is their conflict index.
    [recovered_complete] and [recovered_commute]: a new leader recovers every
    command that a super quorum recorded, and the commands it recovers commute
    pairwise, so the order it gives them does not matter. *)
From stdpp Require Import gmap strings list fin_maps fin_sets sorting.
From Stdlib Require Import Lia.
From S2P Require Import Prelude State ReplicaSet Defs CurpConflicts Curp.
Import CurpConflicts Curp.

Module CurpWitness.

(** ** Recorded commands commute *)

(** Two commands the index lets through in either order. *)
Definition commute (r s : Request) : Prop :=
  Op (Cmd r) = NONE ∨ Op (Cmd s) = NONE ∨ Conflict (Cmd r) (Cmd s) ≠ Done true.

Lemma commute_sym r s : commute r s → commute s r.
Proof. unfold commute. rewrite (Conflict_comm (Cmd s)). tauto. Qed.

Section Witness.
Context {SM : StateMachine}.
(** A client never reuses an identity for another command. *)
Variable payload : RequestID → Command.

Definition valid (r : Request) : Prop := Cmd r = payload (ID r) ∧ executable (Cmd r) ∧ known_op r.

Definition requests_of (w : gmap RequestID Request) : list Request := (map_to_list w).*2.

Record witnessed (c : core) : Prop := mkWitnessed {
  w_pending : ∀ i r, pending c !! i = Some r → valid r;
  w_resume : ∀ r, r ∈ resume c → valid r;
  w_witness : ∀ i r, witness c !! i = Some r → ID r = i ∧ valid r;
  w_commute : ∀ i j r s, i ≠ j → witness c !! i = Some r → witness c !! j = Some s → commute r s;
  w_index : witnessIndex c = index_of (requests_of (witness c));
}.

Lemma witnessed_same c c' :
  pending c' = pending c → resume c' = resume c → witness c' = witness c →
  witnessIndex c' = witnessIndex c → witnessed c → witnessed c'.
Proof. intros Hp Hr Hw Hx [H1 H2 H3 H4 H5]. split; rewrite ?Hp, ?Hr, ?Hw, ?Hx; auto. Qed.

(** The requests of a witness map have distinct identities. *)
Lemma scan_ids_requests (w : gmap RequestID Request) :
  (∀ i r, w !! i = Some r → ID r = i) → NoDup (scan_ids (requests_of w)).
Proof.
  intros Hid. unfold scan_ids, requests_of.
  assert (ID <$> (map_to_list w).*2 = (map_to_list w).*1) as E.
  { rewrite <- list_fmap_compose. apply Forall_fmap_ext_1, Forall_forall.
    intros [i r] Hin%elem_of_map_to_list. simpl. by apply Hid. }
  eapply sublist_NoDup; [|apply fmap_sublist, sublist_filter]. rewrite E. apply NoDup_fst_map_to_list.
Qed.

Lemma index_insert w r :
  (∀ i s, w !! i = Some s → ID s = i) → w !! ID r = None →
  add r (index_of (requests_of w)) = index_of (requests_of (<[ID r := r]> w)).
Proof.
  intros Hid Hn. symmetry. unfold requests_of. change (add r (index_of ?l)) with (index_of (r :: l)).
  apply index_of_perm.
  - by rewrite map_to_list_insert.
  - apply scan_ids_requests. intros i s. rewrite lookup_insert_Some. intros [[<- <-]|[_ ?]]; [done|by apply Hid].
Qed.

Lemma index_delete w i r :
  (∀ i s, w !! i = Some s → ID s = i) → w !! i = Some r →
  remove r (index_of (requests_of w)) = index_of (requests_of (delete i w)).
Proof.
  intros Hid Hi. assert (requests_of w ≡ₚ r :: requests_of (delete i w)) as HP.
  { unfold requests_of. rewrite <- (map_to_list_delete w i r Hi). done. }
  rewrite (index_of_perm _ _ HP (scan_ids_requests w Hid)). apply remove_add.
  rewrite <- (scan_ids_perm _ _ HP). by apply scan_ids_requests.
Qed.

(** ** Every operation keeps it *)
Lemma emit_witnessed ev c : witnessed c → witnessed (emit ev c).
Proof. by apply witnessed_same. Qed.

Lemma enqueue_witnessed r c : witnessed c → witnessed (enqueue r c).
Proof. unfold enqueue. repeat case_decide; try done. by apply witnessed_same. Qed.

Lemma insert_same (w : gmap RequestID Request) r old :
  w !! ID r = Some old → old = r → <[ID r := r]> w = w.
Proof. intros Hw ->. by apply insert_id. Qed.

Lemma valid_eq r s : ID r = ID s → valid r → valid s → r = s.
Proof. intros E [H1 _] [H2 _]. destruct r, s. simpl in *. congruence. Qed.

(** A positive record commutes with the others. *)
Lemma conflicts_commute ord r w :
  valid r → (∀ i s, w !! i = Some s → ID s = i ∧ valid s) →
  ensures (conflicts ord r (index_of (requests_of w))) (λ b, b = false →
    ∀ i s, w !! i = Some s → commute r s).
Proof.
  intros [_ Hr] Hw. pose proof (conflicts_spec (requests_of w) ord r) as Hc.
  destruct (conflicts ord r _) as [b| |]; simpl in *; [|done..]. intros -> i s Hi.
  assert (s ∈ requests_of w) as Hin.
  { apply list_elem_of_fmap. exists (i, s). split; [done|]. by apply elem_of_map_to_list. }
  destruct Hc as [_ Hc]; [apply scan_ids_requests; intros ? ? H; by apply Hw in H as [? _]| | |by apply Hr|].
  { intros q ([i' q'] & -> & Hq%elem_of_map_to_list)%list_elem_of_fmap. by apply Hw in Hq as (_&_&?). }
  { by apply Hr. }
  unfold commute. destruct (decide (Op (Cmd r) = NONE)); [by left|].
  destruct (decide (Op (Cmd s) = NONE)); [by right; left|]. right; right. rewrite Conflict_comm.
  intros Hcf. discriminate Hc. split; [done|]. by exists s.
Qed.

Lemma witness_record_witnessed e r c :
  valid r → witnessed c → ensures (witness_record e r c) witnessed.
Proof.
  intros Hr [Hp Hres Hwit Hcom Hidx]. unfold witness_record. cbv zeta.
  assert (∀ i s, witness c !! i = Some s → ID s = i) as Hid by (intros i s H; by apply Hwit in H as [? _]).
  set (w0 := delete (ID r) (witness c)).
  assert (∀ i s, w0 !! i = Some s → witness c !! i = Some s ∧ i ≠ ID r) as Hw0.
  { intros i s [? ?]%lookup_delete_Some. by split. }
  assert (match witness c !! ID r with Some o => remove o (witnessIndex c) | None => witnessIndex c end
    = index_of (requests_of w0)) as Ex.
  { rewrite Hidx. destruct (witness c !! ID r) as [o|] eqn:Ho; [by apply index_delete|].
    unfold w0. by rewrite delete_id. }
  rewrite Ex. pose proof (conflicts_commute (ord_scans e) r w0 Hr) as Hcf.
  destruct (conflicts _ r _) as [b| |]; [|done..]. cbn [mbind outcome_bind].
  specialize (Hcf ltac:(intros i s [Hs _]%Hw0; by apply Hwit)). cbn [ensures] in Hcf.
  assert (match witness c !! ID r with Some o => add o (index_of (requests_of w0))
    | None => index_of (requests_of w0) end = witnessIndex c) as ->.
  { rewrite Hidx. destruct (witness c !! ID r) as [o|] eqn:Ho.
    - rewrite index_insert.
      + rewrite (Hid _ _ Ho). unfold w0. rewrite insert_delete_eq. by rewrite insert_id.
      + intros i s [Hs _]%Hw0. by apply Hid.
      + rewrite (Hid _ _ Ho). apply lookup_delete_eq.
    - unfold w0. by rewrite delete_id. }
  set (c1 := c <| witnessIndex := _ |> <| recorded ::= _ |>).
  set (c2 := if negb b then _ else c1).
  enough (witnessed c2) as H2.
  { clearbody c2. cbn [ensures].
    destruct (negb (cid c2 =? leader c2)); [by apply emit_witnessed|done]. }
  destruct b; cbn [negb] in c2; unfold c2; [by apply (witnessed_same c)|].
  specialize (Hcf eq_refl).
  assert (witnessed (c1 <| witnessIndex := index_of (requests_of (<[ID r := r]> (witness c))) |>
    <| witness ::= <[ID r := r]> |>)) as Hgoal.
  { split; simpl; [done..| | |done].
    - intros i s. rewrite lookup_insert_Some. intros [[<- <-]|[_ ?]]; [by split|by apply Hwit].
    - intros i j q s Hne Hi Hj. rewrite lookup_insert_Some in Hi, Hj.
      destruct Hi as [[<- <-]|[Hi Hqi]], Hj as [[<- <-]|[Hj Hsj]]; [done| | |exact (Hcom i j q s Hne Hqi Hsj)].
      + apply (Hcf j). unfold w0. by rewrite lookup_delete_ne.
      + apply commute_sym, (Hcf i). unfold w0. by rewrite lookup_delete_ne. }
  destruct (witness c !! ID r) as [o|] eqn:Ho.
  - assert (o = r) as -> by (destruct (Hwit _ _ Ho) as [Eo Vo]; exact (valid_eq o r Eo Vo Hr)).
    revert Hgoal. rewrite (insert_same (witness c) r r Ho eq_refl), <- Hidx. by apply witnessed_same.
  - revert Hgoal. rewrite <- (index_insert (witness c) r Hid Ho), <- Hidx. by apply witnessed_same.
Qed.

Lemma submit_witnessed e r c : valid r → witnessed c → ensures (submit e r c) witnessed.
Proof.
  intros Hr Hc. unfold submit. destruct (values c !! ID r); [by apply emit_witnessed|]. cbv zeta.
  set (c1 := c <| pending ::= _ |>). assert (witnessed c1) as Hc1.
  { destruct Hc as [H1 H2 H3 H4 H5]. split; try done. intros i s. simpl. rewrite lookup_insert_Some.
    intros [[_ <-]|[_ ?]]; [done|by eapply H1]. }
  clearbody c1. destruct (negb (active c1)); [done|]. apply (ensures_bind _ _ witnessed).
  - case_decide; [done|by apply witness_record_witnessed].
  - intros c2 Hc2. cbn [ensures]. destruct (leader c2 =? cid c2); [by apply enqueue_witnessed|done].
Qed.

Lemma delete_witnessed i c :
  witnessed c →
  witnessed (match witness c !! i with Some w => c <| witnessIndex ::= remove w |> | None => c end
               <| witness ::= delete i |>).
Proof.
  intros [H1 H2 H3 H4 H5]. split.
  - intros j r. by destruct (witness c !! i); apply H1.
  - intros r. by destruct (witness c !! i); apply H2.
  - intros j r Hj. assert (witness c !! j = Some r) as Hj' by
      (destruct (witness c !! i); simpl in Hj; by apply lookup_delete_Some in Hj as [_ ?]). by apply H3.
  - intros j k r s Hne Hj Hk.
    assert (witness c !! j = Some r ∧ witness c !! k = Some s) as [Hj1 Hk1]; [|exact (H4 _ _ _ _ Hne Hj1 Hk1)].
    destruct (witness c !! i); simpl in Hj, Hk; apply lookup_delete_Some in Hj as [_ ?], Hk as [_ ?]; done.
  - destruct (witness c !! i) as [w|] eqn:Hi; simpl; rewrite H5.
    + apply index_delete; [|done]. intros j r Hj. by apply H3 in Hj as [? _].
    + by rewrite delete_id.
Qed.

(** Loops whose body keeps it. *)
Lemma forEach_witnessed {A} (f : A → core → outcome core) l c :
  (∀ x c', x ∈ l → witnessed c' → ensures (f x c') witnessed) → witnessed c → ensures (forEach f l c) witnessed.
Proof.
  intros Hf. revert c. induction l as [|x l IH]; intros c Hc; [done|]. simpl.
  eapply ensures_bind; [apply Hf; [by left|done]|]. intros c' Hc'. apply IH; [|done].
  intros y c'' Hy. apply Hf. by right.
Qed.

Lemma forEach_witnessed_acc {A B} (f : A → B * core → outcome (B * core)) l st :
  (∀ x st, witnessed st.2 → ensures (f x st) (λ r, witnessed r.2)) → witnessed st.2 →
  ensures (forEach f l st) (λ r, witnessed r.2).
Proof.
  intros Hf. revert st. induction l as [|x l IH]; intros st Hc; [done|]. simpl.
  eapply ensures_bind; [by apply Hf|]. intros st' Hc'. by apply IH.
Qed.

Lemma apply_one_witnessed r c : witnessed c → ensures (apply_one r c) witnessed.
Proof.
  intros Hc. unfold apply_one. apply (ensures_bind _ _ witnessed).
  - case_decide; [|done]. destruct (sm_execute _ _) as [[v s]| |]; [|done..].
    cbn [mbind outcome_bind ensures]. apply emit_witnessed. by apply (witnessed_same c).
  - intros c1 Hc1. cbv zeta. cbn [ensures]. set (c2 := c1 <| pending ::= _ |>).
    assert (witnessed c2) as Hc2.
    { destruct Hc1 as [H1 H2 H3 H4 H5]. split; try done. intros i q. simpl. rewrite lookup_delete_Some.
      intros [_ ?]. by eapply H1. }
    clearbody c2. pose proof (delete_witnessed (ID (Req r)) c2 Hc2) as Hc3.
    set (c3 := match witness c2 !! _ with Some _ => _ | None => _ end) in *. clearbody c3.
    revert Hc3. generalize (c3 <| witness ::= delete (ID (Req r)) |>). intros c4. by apply witnessed_same.
Qed.

Lemma apply_witnessed c : witnessed c → ensures (apply c) witnessed.
Proof.
  unfold apply. generalize (S (size (log c))) as fuel. intros fuel. revert c.
  induction fuel as [|fuel IH]; intros c Hc; [done|]. simpl.
  destruct (log c !! _) as [r|]; [|done]. destruct (Committed r); [|done].
  eapply ensures_bind; [by apply apply_one_witnessed|]. intros c' Hc'. by apply IH.
Qed.

Lemma put_record_witnessed r c : witnessed c → witnessed (put_record r c).
Proof.
  intros Hc. unfold put_record. cbv zeta. set (c1 := match log c !! _ with Some _ => _ | None => _ end).
  assert (witnessed c1) as Hc1.
  { unfold c1. destruct (log c !! _); [|done]. destruct (executed c <? Slot r); [by apply (witnessed_same c)|done]. }
  clearbody c1. set (c2 := if executed c1 <? Slot r then _ else c1).
  assert (witnessed c2) as Hc2 by (unfold c2; case_match; [by apply (witnessed_same c1)|done]). clearbody c2.
  set (c3 := c2 <| log ::= _ |> <| assigned ::= _ |>). assert (witnessed c3) as Hc3 by by apply (witnessed_same c2).
  clearbody c3. case_match; [by apply (witnessed_same c3)|done].
Qed.

Lemma install_witnessed r c : witnessed c → ensures (install r c) witnessed.
Proof.
  intros Hc. unfold install. destruct (log c !! Slot r) as [old|]; [|by apply put_record_witnessed].
  destruct (Committed old); [case_decide; done|by apply put_record_witnessed].
Qed.

Lemma ack_witnessed p c : witnessed c → ensures (ack p c) witnessed.
Proof.
  intros Hc. unfold ack. destruct (preparing c); [done|].
  apply (ensures_bind _ _ (λ r, witnessed r.2)).
  - apply forEach_witnessed_acc; [|done]. intros a [com c1] Hc1. unfold ack_one. cbn [snd] in *.
    destruct (_ <=? _); [done|]. cbv zeta. set (c2 := c1 <| votes ::= _ |>).
    assert (witnessed c2) as Hc2 by by apply (witnessed_same c1). clearbody c2.
    destruct (log c2 !! _) as [r|]; [|done]. case_match; [done|]. by apply (witnessed_same c2).
  - intros [com c1] Hc1. cbn [snd] in Hc1. cbv zeta. apply apply_witnessed.
    case_match; [by apply emit_witnessed|done].
Qed.

Section Reentrant.
Variable e : env.
Variable rcv : Packet → core → outcome core.

(** What arrives carries valid requests. *)
Definition packet_ok (p : Packet) : Prop := Kind p = packetForward → ∀ r, r ∈ Requests p → valid r.
Hypothesis rcv_ok : ∀ p c, packet_ok p → witnessed c → ensures (rcv p c) witnessed.

Lemma send_witnessed to p c : packet_ok p → witnessed c → ensures (send rcv to p c) witnessed.
Proof.
  intros Hp Hc. unfold send. cbv zeta. assert (witnessed (emit (Sent to p) c)) as H by by apply emit_witnessed.
  case_match; [by apply rcv_ok|done].
Qed.

Lemma requestFetch_witnessed c : witnessed c → ensures (requestFetch e rcv c) witnessed.
Proof.
  intros Hc. unfold requestFetch. case_match; [done|]. case_match; [by apply (witnessed_same c)|].
  cbv zeta. apply send_witnessed; [done|]. by apply (witnessed_same c).
Qed.

Lemma accept_witnessed p c : witnessed c → ensures (accept e rcv p c) witnessed.
Proof.
  intros Hc. unfold accept. apply (ensures_bind _ _ (λ r, witnessed r.2)).
  - apply forEach_witnessed_acc; [|done]. intros r [[acc gap] c1] Hc1. cbn [snd] in Hc1. unfold accept_one.
    set (g := if _ && _ then (true, _) else (gap, c1)).
    assert (witnessed g.2) as Hg by (unfold g; case_match; [by apply (witnessed_same c1)|done]).
    destruct g as [gap' c2]. eapply ensures_bind; [by apply install_witnessed|]. by intros c3 Hc3.
  - intros [[acc gap] c1] Hc1. cbn [snd] in Hc1. apply (ensures_bind _ _ witnessed).
    + destruct gap; [by apply requestFetch_witnessed|done].
    + intros c2 Hc2. case_match; [done|]. cbv zeta. apply ack_witnessed. by apply emit_witnessed.
Qed.

Lemma suffix_page_witnessed to hi fetch lo c : witnessed c → ensures (suffix_page e rcv to hi fetch lo c) witnessed.
Proof.
  intros Hc. unfold suffix_page. cbv zeta. case_match; [done|]. case_match.
  - eapply ensures_bind; [by apply send_witnessed|]. intros c1 Hc1. case_match; [done|]. by apply send_witnessed.
  - apply accept_witnessed. by apply emit_witnessed.
Qed.

Lemma sendSuffix_witnessed to start fetch c : witnessed c → ensures (sendSuffix e rcv to start fetch c) witnessed.
Proof. intros Hc. unfold sendSuffix. apply forEach_witnessed; [|done]. intros. by apply suffix_page_witnessed. Qed.

Lemma schedulePending_witnessed c : witnessed c → witnessed (schedulePending e c).
Proof.
  intros [H1 H2 H3 H4 H5]. split; try done. intros r. simpl.
  intros ([i q] & -> & Hin%elem_of_range_order)%list_elem_of_fmap. by eapply H1.
Qed.

Lemma activate_witnessed c : witnessed c → witnessed (activate e c).
Proof.
  intros Hc. unfold activate. apply schedulePending_witnessed, emit_witnessed. by apply (witnessed_same c).
Qed.

Lemma elect_witnessed c : witnessed c → ensures (elect e rcv c) witnessed.
Proof.
  intros Hc. unfold elect. destruct (foldl select_page _ _) as [selected hi]. cbv zeta.
  set (c1 := c <| preparing := false |> <| high := hi |> <| assigned := _ |> <| pendingIndex := _ |>).
  assert (witnessed c1) as Hc1 by by apply (witnessed_same c). clearbody c1.
  set (c2 := foldl (adopt_slot selected) c1 _).
  assert (witnessed c2) as Hc2.
  { apply (foldl_ind _ witnessed); [done|]. intros c' s Hc'. by apply (witnessed_same c'). }
  clearbody c2. set (c3 := foldl (adopt_witness _) c2 _).
  assert (witnessed c3) as Hc3.
  { apply (foldl_ind _ witnessed); [done|]. intros c' i Hc'. unfold adopt_witness. repeat case_decide; try done.
    case_match; [by apply (witnessed_same c')|done]. }
  clearbody c3. apply (ensures_bind _ _ witnessed).
  - apply sendSuffix_witnessed. by apply (witnessed_same c3).
  - intros c4 Hc4. cbn [ensures]. destruct (recoveryEnd c4 <=? executed c4); [by apply activate_witnessed|done].
Qed.

Lemma promiseReply_witnessed p c : witnessed c → ensures (promiseReply e rcv p c) witnessed.
Proof.
  intros Hc. unfold promiseReply. destruct (_ || _); [done|]. cbv zeta.
  set (c1 := c <| pages ::= _ |>). assert (witnessed c1) as Hc1 by by apply (witnessed_same c). clearbody c1.
  destruct (negb _); [done|]. set (c2 := c1 <| promises ::= _ |>).
  assert (witnessed c2) as Hc2 by by apply (witnessed_same c1). clearbody c2.
  destruct (_ <? _); [done|by apply elect_witnessed].
Qed.

Lemma promise_witnessed p c : witnessed c → ensures (promise e rcv p c) witnessed.
Proof.
  intros Hc. unfold promise. cbv zeta. apply forEach_witnessed; [|done].
  intros q c' (i & -> & _)%list_elem_of_fmap Hc'. by apply send_witnessed.
Qed.

Lemma commit_one_witnessed r c : witnessed c → ensures (commit_one r c) witnessed.
Proof.
  intros Hc. unfold commit_one. eapply ensures_bind; [by apply install_witnessed|]. intros c1 Hc1.
  destruct (log c1 !! Slot r); [by apply (witnessed_same c1)|done].
Qed.

Lemma receive_body_witnessed p c : packet_ok p → witnessed c → ensures (receive_body e rcv p c) witnessed.
Proof.
  intros Hp Hc. unfold receive_body. destruct (_ || _); [done|].
  assert (∀ c0, witnessed c0 → witnessed (follow p c0)) as Hfollow by (intros c0; by apply witnessed_same).
  assert (∀ c0 b, witnessed c0 → witnessed (c0 <| active := b |>)) as Hact by (intros c0 b; by apply witnessed_same).
  destruct (Kind p =? packetPrepare).
  { destruct (_ <? _); [done|]. cbv zeta. apply promise_witnessed, Hact. case_match; [by apply Hfollow|done]. }
  cbv zeta. set (c1 := if _ && _ then _ else c).
  assert (witnessed c1) as Hc1 by (unfold c1; case_match; [by apply Hact, Hfollow|done]). clearbody c1.
  destruct (negb (Ballot p =? ballot c1)); [done|].
  destruct (Kind p =? packetPromise); [by apply promiseReply_witnessed|].
  destruct (Kind p =? packetAccept); [case_match; [by apply accept_witnessed|done]|].
  destruct (Kind p =? packetAck); [by apply ack_witnessed|].
  destruct (Kind p =? packetCommit).
  { case_match; [done|]. eapply ensures_bind; [apply forEach_witnessed; [|exact Hc1]|].
    - intros. by apply commit_one_witnessed.
    - intros c2 Hc2. by apply apply_witnessed. }
  destruct (Kind p =? packetReady).
  { case_match; [done|]. set (c2 := if _ && _ then _ else c1).
    assert (witnessed c2) as Hc2 by (unfold c2; case_match; [by apply schedulePending_witnessed, Hact|done]).
    clearbody c2. case_match; [by apply requestFetch_witnessed|done]. }
  destruct (Kind p =? packetFetch); [case_match; [by apply sendSuffix_witnessed|done]|].
  destruct (Kind p =? packetForward) eqn:Ek; [|done]. case_match; [|done].
  apply forEach_witnessed; [|done]. intros r c' Hr Hc'. apply submit_witnessed; [|done]. apply Hp; [lia|done].
Qed.
End Reentrant.

Lemma receive_witnessed fuel e p c : packet_ok p → witnessed c → ensures (receive fuel e p c) witnessed.
Proof.
  revert p c. induction fuel as [|fuel IH]; intros p c Hp Hc; [done|]. simpl.
  apply receive_body_witnessed; [|done..]. intros q c'. apply IH.
Qed.

(** The timer. *)
Lemma Begin_witnessed e fuel now c : witnessed c → ensures (Begin e fuel now c) witnessed.
Proof.
  intros Hc. unfold Begin. cbv zeta. apply receive_witnessed; [done|]. apply emit_witnessed.
  by apply (witnessed_same c).
Qed.

Lemma fast_reply_witnessed r c : witnessed c → ensures (fast_reply r c) witnessed.
Proof.
  intros Hc. unfold fast_reply. case_match; [by apply emit_witnessed|]. case_match; [|done].
  destruct (sm_execute _ _) as [[v s]| |]; [|done..]. cbn [mbind outcome_bind ensures].
  apply emit_witnessed. by apply (witnessed_same c).
Qed.

Lemma flush_loop_witnessed e q records c : witnessed c → ensures (flush_loop e q records c) (λ r, witnessed r.2).
Proof.
  revert records c. induction q as [|id q IH]; intros records c Hc; cbn [flush_loop]; [done|].
  case_match; [|done]. cbv zeta. set (c1 := c <| queue := q |> <| queued ::= _ |>).
  assert (witnessed c1) as Hc1 by by apply (witnessed_same c). clearbody c1.
  case_decide; [by apply IH|]. case_decide; [by apply IH|]. destruct (pending c1 !! id) as [r|]; [|by apply IH].
  destruct (fast_path e id r c1) as [fast| |]; [|done..]. cbn [mbind outcome_bind].
  set (c2 := c1 <| high := _ |> <| log ::= _ |> <| pendingIndex ::= _ |> <| assigned ::= _ |>).
  assert (witnessed c2) as Hc2 by by apply (witnessed_same c1). clearbody c2.
  apply (ensures_bind _ _ witnessed).
  - destruct fast; [by apply fast_reply_witnessed|done].
  - intros c3 Hc3. by apply IH.
Qed.

Lemma flush_witnessed e fuel c : witnessed c → ensures (flush e fuel c) witnessed.
Proof.
  intros Hc. unfold flush. case_match; [done|]. eapply ensures_bind; [by apply flush_loop_witnessed|].
  intros [records c1] Hc1. cbn [snd] in Hc1. case_match; [done|]. cbv zeta.
  apply accept_witnessed; [|by apply emit_witnessed]. intros. by apply receive_witnessed.
Qed.

Lemma resume_loop_witnessed e i c : witnessed c → ensures (resume_loop e i c) witnessed.
Proof.
  revert c. induction i as [|i IH]; intros c Hc; cbn [resume_loop]; [done|].
  destruct (resume c) as [|r rest] eqn:Er; [done|]. cbv zeta.
  assert (valid r) as Hr by (apply (w_resume _ Hc); rewrite Er; by left).
  set (c1 := c <| resume := rest |>). assert (witnessed c1) as Hc1.
  { destruct Hc as [H1 H2 H3 H4 H5]. split; try done. intros q Hq. apply H2. rewrite Er. by right. }
  clearbody c1. apply (ensures_bind _ _ witnessed).
  - case_decide; [by apply submit_witnessed|done].
  - intros c2 Hc2. by apply IH.
Qed.

Lemma tick_witnessed e fuel now alive c : witnessed c → ensures (tick e fuel now alive c) witnessed.
Proof.
  intros Hc. unfold tick. destruct (index alive (leader c)) as [up|]; [|done].
  apply (ensures_bind _ _ witnessed); [destruct (_ && _); [by apply Begin_witnessed|done]|]. intros c1 Hc1.
  apply (ensures_bind _ _ witnessed); [destruct (active c1); [by apply resume_loop_witnessed|done]|]. intros c2 Hc2.
  destruct (preparing c2).
  { unfold tick_prepare. destruct (_ <? _); [done|]. cbv zeta. apply receive_witnessed; [done|].
    apply emit_witnessed. by apply (witnessed_same c2). }
  destruct (leader c2 =? cid c2); [|done]. unfold tick_lead. cbv zeta.
  set (c3 := if _ && _ then activate e c2 else c2).
  assert (witnessed c3) as Hc3 by (unfold c3; case_match; [by apply activate_witnessed|done]). clearbody c3.
  apply (ensures_bind _ _ witnessed); [destruct (active c3); [by apply flush_witnessed|done]|]. intros c4 Hc4.
  destruct (_ <? _); [done|]. apply sendSuffix_witnessed; [intros; by apply receive_witnessed|].
  apply emit_witnessed. by apply (witnessed_same c4).
Qed.

(** ** Runs of a replica *)
Inductive input :=
  | Propose (r : Request) (e : env)
  | Deliver (p : Packet) (e : env)
  | Advance (now : Z) (alive : list bool) (e : env).

Definition handle (fuel : nat) (i : input) (c : core) : outcome core :=
  match i with
  | Propose r e => submit e r c
  | Deliver p e => receive fuel e p c
  | Advance now alive e => tick e fuel now alive c
  end.

Definition input_ok (i : input) : Prop :=
  match i with Propose r _ => valid r | Deliver p _ => packet_ok p | Advance _ _ _ => True end.

Lemma handle_witnessed fuel i c : input_ok i → witnessed c → ensures (handle fuel i c) witnessed.
Proof. destruct i; intros Hi Hc; [by apply submit_witnessed|by apply receive_witnessed|by apply tick_witnessed]. Qed.

(** C23.  Witnesses commute.  Along any run of a CURP replica whose clients do
    not reuse an identity for another command, whatever else it receives and
    whatever the loops over maps choose, the commands it keeps recorded
    positively commute pairwise, each is recorded under its identity, and
    [witnessIndex] is exactly their conflict index. *)
Theorem witness_commutes fuel n id leader ins c0 c :
  newCore n id leader = Done c0 → Forall input_ok ins → forEach (handle fuel) ins c0 = Done c →
  (∀ i j r s, i ≠ j → witness c !! i = Some r → witness c !! j = Some s → commute r s) ∧
  (∀ i r, witness c !! i = Some r → ID r = i) ∧
  witnessIndex c = index_of (requests_of (witness c)).
Proof.
  intros H0 Hok H. enough (witnessed c) as [_ _ H3 H4 H5].
  { split_and!; [exact H4| |done]. intros i r Hi. by apply H3 in Hi as [? _]. }
  apply (ensures_Done _ _ _ H). apply forEach_witnessed.
  - intros i c' Hi. apply handle_witnessed. rewrite Forall_forall in Hok. by apply Hok.
  - unfold newCore in H0. case_match; [done|]. injection H0 as <-.
    split; simpl; try done. by intros r ?%elem_of_nil.
Qed.
End Witness.

(** ** What a new leader recovers *)

(** Replica [i] reported a request identified [id]. *)
Definition reports (ps : list (Z * Packet)) (i : Z) (r : Request) : Prop := ∃ p, (i, p) ∈ ps ∧ r ∈ Requests p.
Definition reported (ps : list (Z * Packet)) (i : Z) (id : RequestID) : Prop := ∃ r, reports ps i r ∧ ID r = id.

(** The accumulators of [promised_witness] against the reports seen so far. *)
Record tallied (R : Z → Request → Prop) (acc : gmap RequestID Request * gmap RequestID Z) : Prop := mkTallied {
  t_request : ∀ id r, acc.1 !! id = Some r → ID r = id ∧ ∃ i, R i r;
  t_known : ∀ i r, R i r → is_Some (acc.1 !! ID r);
  t_votes : ∀ id i, i ∈ ReplicaSet.to_gset (default 0 (acc.2 !! id)) ↔ ∃ r, R i r ∧ ID r = id;
}.

Lemma tallied_ext R R' acc : (∀ i r, R i r ↔ R' i r) → tallied R acc → tallied R' acc.
Proof.
  intros E [H1 H2 H3]. split.
  - intros id r Hr. destruct (H1 id r Hr) as [? [i Hi]]. split; [done|]. exists i. by apply E.
  - intros i r Hr. by eapply H2, E.
  - intros id i. rewrite H3. split; intros (r&Hr&?); exists r; (split; [by apply E|done]).
Qed.

Lemma witness_one_tallied R i r acc :
  0 ≤ i < 64 → tallied R acc → tallied (λ j s, R j s ∨ (j = i ∧ s = r)) (witness_one i acc r).
Proof.
  intros Hi [H1 H2 H3]. destruct acc as [wit wv]. unfold witness_one. cbn [fst snd] in *. split; cbn [fst snd].
  - intros id s. rewrite lookup_insert_Some. intros [[<- <-]|[_ Hs]]; [split; [done|]; exists i; by right|].
    destruct (H1 id s Hs) as [? [j ?]]. split; [done|]. exists j. by left.
  - intros j s. rewrite lookup_insert. case_decide; [by eexists|]. intros [Hs|[_ ->]]; [by eapply H2|done].
  - intros id j. rewrite lookup_insert. case_decide as E.
    + subst id. simpl. rewrite ReplicaSet.to_gset_lor_bit by done.
      rewrite H3. split.
      * intros [(s&?&?)| ->]; [exists s; auto|]. exists r. auto.
      * intros (s&[?|[-> ->]]&?); [left; by exists s|by right].
    + rewrite H3. split.
      * intros (s&?&?). exists s. auto.
      * intros (s&[?|[-> ->]]&?); [by exists s|done].
Qed.

Lemma witness_page_tallied R i l acc :
  0 ≤ i < 64 → tallied R acc → tallied (λ j s, R j s ∨ (j = i ∧ s ∈ l)) (foldl (witness_one i) acc l).
Proof.
  intros Hi. revert R acc. induction l as [|r l IH]; intros R acc HR; cbn [foldl].
  - eapply tallied_ext; [|exact HR]. intros j s. rewrite elem_of_nil. tauto.
  - eapply tallied_ext; [|apply IH, witness_one_tallied; [done|exact HR]].
    intros j s. cbn beta. rewrite elem_of_cons. tauto.
Qed.

Lemma promised_witness_tallied ps :
  (∀ i p, (i, p) ∈ ps → 0 ≤ i < 64) → tallied (reports ps) (promised_witness ps).
Proof.
  intros Hps. unfold promised_witness. 
  assert (∀ R acc l, (∀ i p, (i, p) ∈ l → 0 ≤ i < 64) → tallied R acc →
    tallied (λ j s, R j s ∨ reports l j s)
      (foldl (λ acc '(peer, p), foldl (witness_one peer) acc (Requests p)) acc l)) as Hfold.
  { intros R acc l. revert R acc. induction l as [|[i p] l IH]; intros R acc Hl HR; cbn [foldl].
    - eapply tallied_ext; [|exact HR]. intros j s. unfold reports. split; [by left|].
      intros [?|(p&Hp%elem_of_nil&_)]; done.
    - eapply tallied_ext; [|apply IH; [|apply witness_page_tallied; [|exact HR]]].
      + intros j s. cbn beta. unfold reports. setoid_rewrite elem_of_cons. split.
        * intros [[?|[-> ?]]|(q&?&?)]; [by left|right; exists p; auto|right; exists q; auto].
        * intros [?|(q&[[= -> ->]|?]&?)]; [by left; left|by left; right|right; by exists q].
      + intros j q Hq. apply (Hl j q). by right.
      + apply (Hl i p). by left. }
  eapply tallied_ext; [|apply (Hfold (λ _ _, False) (∅, ∅) ps Hps)].
  - intros i r. cbn beta. tauto.
  - split; cbn [fst snd].
    + intros id r. by rewrite lookup_empty.
    + done.
    + intros id i. rewrite lookup_empty. split; [|by intros (?&?&_)].
      intros [_ H]%ReplicaSet.elem_of_to_gset. by rewrite Z.testbit_0_l in H.
Qed.

(** The reports of the replicas [P] of a cluster of [n]. *)
Record promised (n : Z) (P : gset Z) (ps : list (Z * Packet)) : Prop := mkPromised {
  pr_size : 3 ≤ n ≤ 63 ∧ Z.rem n 2 = 1;
  pr_members : P ⊆ ReplicaSet.ids n;
  pr_from : ∀ i p, (i, p) ∈ ps → i ∈ P;
}.

Lemma promised_ids n P ps : promised n P ps → ∀ i p, (i, p) ∈ ps → 0 ≤ i < 64.
Proof.
  intros [[? _] HP Hf] i p Hip. apply Hf, HP, ReplicaSet.elem_of_ids in Hip. lia.
Qed.

Lemma elem_of_recovered n P ps id :
  promised n P ps →
  id ∈ recovered n ps ↔ threshold n ≤ ReplicaSet.Size (default 0 ((promised_witness ps).2 !! id)) ∧
    is_Some ((promised_witness ps).1 !! id).
Proof.
  intros _. unfold recovered. destruct (promised_witness ps) as [wit wv]. cbn [fst snd].
  rewrite list_elem_of_filter, sort_ids_perm, list_elem_of_fmap. split.
  - intros [? ([i r] & -> & Hr%elem_of_map_to_list)]. split; [done|by eexists].
  - intros [? [r Hr]]. split; [done|]. exists (id, r). split; [done|]. by apply elem_of_map_to_list.
Qed.

(** [f+(f+1)/2+1] of [2f+1]: the records a client waits for before it completes
    a command without the log ([Client.tryFast]). *)
Definition superQuorum (n : Z) : Z := Z.quot n 2 + Z.quot (Z.quot n 2 + 1) 2 + 1.

(** [f], the threshold and the super quorum, over [2f+1] replicas. *)
Lemma quorum_sizes n : 3 ≤ n → ∃ f, 1 ≤ f ∧ 2 * f ≤ n ≤ 2 * f + 1 ∧ Z.quot n 2 = f ∧
  f + 1 ≤ 2 * threshold n - 1 ∧ superQuorum n = f + threshold n ∧ 0 < threshold n.
Proof.
  intros Hn. unfold superQuorum, threshold. exists (n / 2).
  assert (Z.quot n 2 = n / 2) as -> by (apply Z.quot_div_nonneg; lia).
  pose proof (Z.div_mod n 2). pose proof (Z.mod_pos_bound n 2).
  rewrite Z.quot_div_nonneg by lia.
  pose proof (Z.div_mod (n / 2 + 1) 2). pose proof (Z.mod_pos_bound (n / 2 + 1) 2). lia.
Qed.

(** C22.  No completed command is lost: whatever majority promised, a command
    that a super quorum of replicas recorded, and still report, is recovered by
    the new leader. *)
Theorem recovered_complete n P F ps id :
  promised n P ps → Z.quot n 2 + 1 ≤ Z.of_nat (size P) →
  F ⊆ ReplicaSet.ids n → superQuorum n ≤ Z.of_nat (size F) →
  (∀ i, i ∈ F → i ∈ P → reported ps i id) → id ∈ recovered n ps.
Proof.
  intros HP Hmaj HF Hsq Hrep. pose proof HP as [[Hn _] HPn _].
  apply (elem_of_recovered n P); [done|].
  destruct (promised_witness_tallied ps (promised_ids n P ps HP)) as [H1 H2 H3].
  pose proof (ReplicaSet.size_inter_lower n F P ltac:(lia) HF HPn) as Hint.
  assert (threshold n ≤ Z.of_nat (size (F ∩ P))) as Ht.
  { destruct (quorum_sizes n) as (f&?&?&Ef&?&?&?); lia. }
  split.
  - rewrite ReplicaSet.Size_size. etrans; [exact Ht|]. apply inj_le, subseteq_size.
    intros i [HiF HiP]%elem_of_intersection. apply H3. by apply Hrep.
  - destruct (quorum_sizes n) as (f&_&_&_&_&_&Hpos); [lia|].
    assert (F ∩ P ≠ ∅) as [i Hi]%set_choose_L by (intros E; rewrite E, size_empty in Ht; lia).
    apply elem_of_intersection in Hi as [HiF HiP]. destruct (Hrep i HiF HiP) as (r & Hr & <-). by eapply H2.
Qed.

(** Recovered commands commute: when the reports come from the majority
    that ends the election, each replica reports commuting commands
    ([witness_commutes]) and no identity is used for two commands, any two
    recovered commands commute. *)
Theorem recovered_commute n P ps id id' r s :
  promised n P ps → Z.of_nat (size P) ≤ Z.quot n 2 + 1 →
  (∀ i q t, reports ps i q → reports ps i t → ID q ≠ ID t → commute q t) →
  (∀ i j q t, reports ps i q → reports ps j t → ID q = ID t → q = t) →
  id ∈ recovered n ps → id' ∈ recovered n ps → id ≠ id' →
  (promised_witness ps).1 !! id = Some r → (promised_witness ps).1 !! id' = Some s → commute r s.
Proof.
  intros HP Hmaj Hcom Hcons Hid Hid' Hne Hr Hs. pose proof HP as [[Hn _] HPn Hfrom].
  apply (elem_of_recovered n P) in Hid as [Hid _]; [|done].
  apply (elem_of_recovered n P) in Hid' as [Hid' _]; [|done].
  destruct (promised_witness_tallied ps (promised_ids n P ps HP)) as [H1 H2 H3].
  destruct (H1 _ _ Hr) as [<- [ir Hir]], (H1 _ _ Hs) as [<- [is_ His]].
  rewrite ReplicaSet.Size_size in Hid, Hid'.
  set (A := ReplicaSet.to_gset (default 0 ((promised_witness ps).2 !! ID r))) in *.
  set (B := ReplicaSet.to_gset (default 0 ((promised_witness ps).2 !! ID s))) in *.
  assert (∀ i, i ∈ A ∪ B → i ∈ P) as Hsub.
  { intros i [Hi|Hi]%elem_of_union; apply H3 in Hi as (q & (p & Hp & _) & _); by eapply Hfrom. }
  assert (A ∩ B ≠ ∅) as [i Hi]%set_choose_L.
  { intros E. assert (size (A ∪ B) = size A + size B)%nat as Hsz by (apply size_union; set_solver).
    assert (size (A ∪ B) ≤ size P)%nat by (by apply subseteq_size).
    destruct (quorum_sizes n) as (f&?&?&Ef&?&?&?); lia. }
  apply elem_of_intersection in Hi as [HiA HiB].
  apply H3 in HiA as (q & Hq & Eq), HiB as (t & Ht & Et).
  rewrite <- (Hcons _ _ _ _ Hq Hir Eq), <- (Hcons _ _ _ _ Ht His Et). apply (Hcom i); [done..|congruence].
Qed.

(** ** Concrete runs *)
Section Demo.
#[local] Existing Instance demo_machine.

Definition demo_payload (id : RequestID) : Command := mkCommand PUT (Client id) [Sequence id].
Definition demo_request (client sequence : Z) : Request :=
  mkRequest (mkRequestID client sequence) (demo_payload (mkRequestID client sequence)).
Definition demo_env : env := mkEnv 0 [] [] (λ _, []) [] [] [].

(** Backup 1 of three records writes of keys 7 and 8 and refuses a second write
    of key 7; the leader then commits the first. *)
Definition demo_inputs : list input :=
  [ Propose (demo_request 7 1) demo_env; Propose (demo_request 8 1) demo_env; Propose (demo_request 7 2) demo_env;
    Deliver (packet packetCommit 0 0 <| Records := [mkRecord 0 0 (demo_request 7 1) false] |>) demo_env;
    Propose (demo_request 9 1) demo_env ].
Definition demo_boot : core := result_or (mkCore 3 1 0 0 true false 0 0 ∅ ∅ ∅ ∅ ∅ ∅ ∅ ∅ ∅ [] ∅ 0 None None ∅ 0 0 0 0
  newConflictIndex newConflictIndex [] []) (newCore 3 1 0).
Definition demo_end : core := result_or demo_boot (forEach (handle 2) demo_inputs demo_boot).

Lemma witness_commutes_witness :
  bool_decide (witness demo_end = {[mkRequestID 8 1 := demo_request 8 1; mkRequestID 9 1 := demo_request 9 1]}) = true ∧
  commute (demo_request 8 1) (demo_request 9 1).
Proof.
  assert (bool_decide (witness demo_end =
    {[mkRequestID 8 1 := demo_request 8 1; mkRequestID 9 1 := demo_request 9 1]}) = true) as Hw
    by (vm_compute; reflexivity).
  split; [exact Hw|]. apply bool_decide_eq_true in Hw.
  destruct (witness_commutes demo_payload 2 3 1 0 demo_inputs demo_boot demo_end) as (Hc&_&_).
  - unfold demo_boot. apply result_or_done. vm_compute. reflexivity.
  - assert (∀ c s, valid demo_payload (demo_request c s)) as Hv.
    { intros c s. split; [done|]. split; [intros E; discriminate E|]. right. left. }
    unfold demo_inputs. rewrite !Forall_cons, Forall_nil.
    split_and!; [apply Hv..|intros E; discriminate E|apply Hv|done].
  - unfold demo_end. apply result_or_done. vm_compute. reflexivity.
  - apply (Hc (mkRequestID 8 1) (mkRequestID 9 1)); [discriminate|rewrite Hw; reflexivity..].
Defined.

(** Replicas 0 and 1 of three promise and report both writes. *)
Definition demo_reports : list (Z * Packet) :=
  (λ i, (i, packet packetPromise i 3 <| Requests := [demo_request 8 1; demo_request 9 1] |>)) <$> [0; 1].

Lemma demo_promised : promised 3 {[0; 1]} demo_reports.
Proof.
  split; [split; [lia|reflexivity]| |].
  - intros i. rewrite ReplicaSet.elem_of_ids. set_unfold. lia.
  - intros i p. unfold demo_reports. cbn [fmap list_fmap]. rewrite !elem_of_cons, elem_of_nil. set_unfold. naive_solver.
Qed.

Lemma recovered_complete_witness : mkRequestID 8 1 ∈ recovered 3 demo_reports.
Proof.
  apply (recovered_complete 3 {[0; 1]} {[0; 1; 2]}); [exact demo_promised|vm_compute; discriminate| |vm_compute; discriminate|].
  - intros i. rewrite ReplicaSet.elem_of_ids. set_unfold. lia.
  - intros i _ Hi. exists (demo_request 8 1). split; [|done].
    exists (packet packetPromise i 3 <| Requests := [demo_request 8 1; demo_request 9 1] |>). split; [|by left].
    unfold demo_reports. cbn [fmap list_fmap]. set_unfold. destruct Hi as [->| ->]; auto.
Defined.

Lemma demo_reports_two i r : reports demo_reports i r → r = demo_request 8 1 ∨ r = demo_request 9 1.
Proof.
  intros (p & Hp & Hr). unfold demo_reports in Hp. cbn [fmap list_fmap] in Hp.
  rewrite !elem_of_cons, elem_of_nil in Hp. destruct Hp as [[= -> ->]|[[= -> ->]|[]]];
    cbn in Hr; rewrite !elem_of_cons, elem_of_nil in Hr; tauto.
Qed.

Lemma recovered_commute_witness : commute (demo_request 8 1) (demo_request 9 1).
Proof.
  assert (∀ i q, reports demo_reports i q → q = demo_request 8 1 ∨ q = demo_request 9 1) as Htwo
    by apply demo_reports_two.
  apply (recovered_commute 3 {[0; 1]} demo_reports (mkRequestID 8 1) (mkRequestID 9 1));
    [exact demo_promised|vm_compute; discriminate| | | | |discriminate|reflexivity..].
  - intros i q t Hq%Htwo Ht%Htwo Hne. destruct Hq as [->| ->], Ht as [->| ->]; try done;
      right; right; vm_compute; discriminate.
  - intros i j q t Hq%Htwo Ht%Htwo E. by destruct Hq as [->| ->], Ht as [->| ->].
  - apply (bool_decide_eq_true_1 _). vm_compute. reflexivity.
  - apply (bool_decide_eq_true_1 _). vm_compute. reflexivity.
Defined.
End Demo.
End CurpWitness.
