(* ===== verification/SwiftQuorum.v ===== *)
(** * SwiftQuorum: the quorum families and ballots of Swift ([swift/quorum.go])

    Every leader has the quorums of the configured size that contain it,
    numbered in the order [subsets] enumerates them; a ballot names a leader
    and one of its quorums.  [ballots_name_quorums]: every such quorum has a
    ballot, and every ballot names such a quorum, led by its leader. *)
From stdpp Require Import gmap strings list fin_maps fin_sets.
From Stdlib Require Import Lia.
From S2P Require Import Prelude ReplicaSet.

Module SwiftQuorum.

(** ** Thresholds *)
Definition NewMajorityOf (n : Z) : Z := Z.quot n 2 + 1.
Definition NewThreeQuartersOf (n : Z) : Z := Z.quot (3 * n) 4 + 1.

(** ** Ballots *)

(** [ballot % int32(repNum)] and [(oldBallot/int32(repNum)+1)*int32(repNum) + rid], in [int32]. *)
Definition Leader (ballot repNum : Z) : Z := Z.rem ballot repNum.
Definition NextBallotOf (rid oldBallot repNum : Z) : Z :=
  i32 (i32 (i32 (Z.quot oldBallot repNum + 1) * repNum) + rid).

(** ** Quorum sets: leader, then quorum number, to quorum *)
Abbreviation QuorumsOfLeader := (gmap Z Z).
Abbreviation QuorumSet := (gmap Z (gmap Z Z)).

(** The quorum [q] enters the family of each of its members. *)
Definition add_quorum (repNum q : Z) (qs : QuorumSet) : QuorumSet :=
  foldl (λ qs repID,
    let length := Z.of_nat (size (default ∅ (qs !! repID))) in
    if ReplicaSet.Contains q repID
    then <[repID := <[length := q]> (default ∅ (qs !! repID))]> qs else qs)
    qs (seqZ 0 repNum).

(** [subsets]; the recursion visits larger identities only, so [repNum] rounds
    of fuel suffice.  Below size zero it adds nothing. *)
Fixpoint subsets (fuel : nat) (repNum quorumSize i q : Z) (qs : QuorumSet) : QuorumSet :=
  match fuel with
  | O => qs
  | S fuel =>
      let qs := if quorumSize =? 0 then add_quorum repNum q qs else qs in
      (foldl (λ '(q, qs) j,
        let q := (ReplicaSet.Add q j).2 in
        let qs := subsets fuel repNum (quorumSize - 1) (j + 1) q qs in
        (ReplicaSet.Remove q j, qs)) (q, qs) (seqZ i (repNum - i))).2
  end.

Definition NewQuorumSet (quorumSize repNum : Z) : QuorumSet :=
  let qs := foldl (λ qs id, <[id := ∅]> qs) ∅ (seqZ 0 repNum) in
  subsets (S (Z.to_nat repNum)) repNum quorumSize 0 0 qs.

(** [QuorumSet.AQ]: the quorum of a ballot. *)
Definition AQ (qs : QuorumSet) (ballot : Z) : outcome Z :=
  let n := Z.of_nat (size qs) in
  if n =? 0 then Panicked "integer divide by zero" else
  let lqs := default ∅ (qs !! Leader ballot n) in
  let len := Z.of_nat (size lqs) in
  if len =? 0 then Panicked "integer divide by zero" else
  Done (default 0 (lqs !! Z.rem (Z.quot ballot n) len)).

(** [QuorumSet.BallotOf], whose loop runs in the order [ord]. *)
Definition BallotOf (ord : list Z) (qs : QuorumSet) (leader q : Z) : Z :=
  match list_find (λ kv, ReplicaSet.Equal kv.2 q = true) (range_order ord (default ∅ (qs !! leader))) with
  | Some (_, (qid, _)) => i32 (i32 (qid * Z.of_nat (size qs)) + leader)
  | None => -1
  end.

Record QuorumSystem := mkQuorumSystem { qs : QuorumSet; ballots : list Z }.

Definition NewQuorumSystem (ord : list Z) (quorumSize repNum initial leader : Z) : outcome (string + QuorumSystem) :=
  if negb (ReplicaSet.Size initial =? quorumSize) || negb (ReplicaSet.Contains initial leader)
  then Done (inl "invalid initial Swift quorum"%string)
  else if (repNum <? 1) || (ReplicaSet.MaxSize <? repNum) then Done (inl "invalid quorum membership"%string)
  else
    all ← ReplicaSet.All repNum;
    if negb (ReplicaSet.Covers all initial) then Done (inl "invalid quorum membership"%string) else
    let s := NewQuorumSet quorumSize repNum in
    let ballot := BallotOf ord s leader initial in
    if ballot <? 0 then Done (inl "initial quorum has no ballot"%string)
    else Done (inr (mkQuorumSystem s [ballot])).

Definition BallotAt (sys : QuorumSystem) (i : Z) : outcome Z :=
  if i <? Z.of_nat (length (ballots sys)) then
    match index (ballots sys) i with Some b => Done b | None => Panicked "index out of range" end
  else Done (-1).

(** [QuorumSystem.SameHigher]: a ballot of the same leader and quorum. *)
Definition SameHigher (sys : QuorumSystem) (sameAs higherThan : Z) : outcome Z :=
  let n := Z.of_nat (size (qs sys)) in
  if n =? 0 then Panicked "integer divide by zero" else
  let len := Z.of_nat (size (default ∅ (qs sys !! Leader sameAs n))) in
  if len =? 0 then Panicked "integer divide by zero" else
  let k := Z.quot higherThan len in
  Done (i32 (sameAs + i32 (i32 (k * len) * n))).

(** ** What [subsets] enumerates *)

(** The quorums in the order they are added. *)
Fixpoint leaves (fuel : nat) (n size i q : Z) : list Z :=
  match fuel with
  | O => []
  | S fuel =>
      (if size =? 0 then [q] else []) ++
      (j ← seqZ i (n - i); leaves fuel n (size - 1) (j + 1) (ReplicaSet.With q j))
  end.

(** The next identity is above the members of [q]. *)
Definition below (q i : Z) : Prop := ReplicaSet.valid q ∧ ∀ j, j ∈ ReplicaSet.to_gset q → j < i.

Lemma below_With q i j : below q i → 0 ≤ i ≤ j → j < 64 → below (ReplicaSet.With q j) (j + 1).
Proof.
  intros [Hv Hb] Hj Hj'. split; [by apply ReplicaSet.valid_With|]. intros k.
  rewrite ReplicaSet.to_gset_With, decide_True by lia. rewrite elem_of_union, elem_of_singleton.
  intros [->|?%Hb]; lia.
Qed.

Lemma Remove_With q i j : below q i → 0 ≤ i ≤ j → j < 64 → ReplicaSet.Remove (ReplicaSet.With q j) j = q.
Proof.
  intros [Hv Hb] Hj Hj'. apply ReplicaSet.to_gset_inj; [|done|].
  - by apply ReplicaSet.valid_Remove, ReplicaSet.valid_With.
  - rewrite ReplicaSet.to_gset_Remove, decide_True by lia.
    rewrite ReplicaSet.to_gset_With, decide_True by lia.
    assert (j ∉ ReplicaSet.to_gset q) by (intros H%Hb; lia). set_solver.
Qed.

Lemma subsets_leaves fuel n size i q qs :
  n ≤ 64 → 0 ≤ i → below q i →
  subsets fuel n size i q qs = foldl (λ qs q, add_quorum n q qs) qs (leaves fuel n size i q).
Proof.
  intros Hn. revert size i q qs. induction fuel as [|fuel IH]; intros size i q qs Hi Hq; [done|].
  cbn [subsets leaves]. rewrite foldl_app.
  assert ((if size =? 0 then add_quorum n q qs else qs) =
    foldl (λ qs q, add_quorum n q qs) qs (if size =? 0 then [q] else [])) as -> by by destruct (size =? 0).
  set (qs0 := foldl _ qs _). clearbody qs0.
  assert (∀ j, j ∈ seqZ i (n - i) → i ≤ j < n) as Hl by (intros j ?%elem_of_seqZ; lia).
  revert Hl qs0. generalize (seqZ i (n - i)) as l. clear qs.
  induction l as [|j l IHl]; intros Hl qs; [done|]. cbn [foldl mbind list_bind].
  assert (i ≤ j < n) as Hj by (apply Hl; by left). rewrite foldl_app.
  change ((ReplicaSet.Add q j).2) with (ReplicaSet.With q j). rewrite (Remove_With q i j) by (done || lia).
  rewrite IHl by (intros; apply Hl; by right). f_equal.
  apply IH; [lia|]. apply (below_With q i); [done|lia..].
Qed.

Lemma elem_of_leaves fuel n k i q s :
  0 ≤ i ≤ n → n ≤ 64 → (Z.to_nat (n - i) < fuel)%nat → below q i → 0 ≤ k →
  s ∈ leaves fuel n k i q ↔ ReplicaSet.valid s ∧
    ∃ X, ReplicaSet.to_gset s = ReplicaSet.to_gset q ∪ X ∧ Z.of_nat (size X) = k ∧ ∀ j, j ∈ X → i ≤ j < n.
Proof.
  intros Hi Hn. revert k i q Hi. induction fuel as [|fuel IH]; intros k i q Hi Hf Hq Hk; [lia|].
  cbn [leaves]. rewrite elem_of_app, list_elem_of_bind. split.
  - intros [Hs|(j & Hs & Hj%elem_of_seqZ)].
    + destruct (k =? 0) eqn:E; [|by apply elem_of_nil in Hs]. apply list_elem_of_singleton in Hs as ->.
      split; [apply Hq|]. exists ∅. rewrite size_empty. split_and!; [set_solver|lia|set_solver].
    + destruct (decide (k = 0)) as [->|Hk0].
      { exfalso. revert Hs. clear -Hj. generalize (ReplicaSet.With q j) as q'. intros q'.
        assert (∀ fuel k i q, k < 0 → leaves fuel n k i q = []) as Hnone.
        { clear. intros fuel. induction fuel as [|fuel IH]; intros k i q Hk; [done|]. cbn [leaves].
          destruct (k =? 0) eqn:E; [lia|]. cbn [app]. induction (seqZ i (n - i)) as [|j l IHl]; [done|].
          cbn [mbind list_bind]. by rewrite IH, IHl by lia. }
        rewrite Hnone by lia. by intros ?%elem_of_nil. }
      apply IH in Hs as (Hv & X & HX & Hsz & Hr); [|lia..|by apply (below_With q i); [done|lia..]|lia].
      rewrite ReplicaSet.to_gset_With, decide_True in HX by lia. split; [done|].
      exists ({[j]} ∪ X). split_and!; [set_solver| |].
      * assert (j ∉ X) by (intros H%Hr; lia). rewrite size_union, size_singleton by set_solver. lia.
      * intros x. rewrite elem_of_union, elem_of_singleton. intros [->|?%Hr]; lia.
  - intros (Hv & X & HX & Hsz & Hr). destruct (decide (X = ∅)) as [->|Hne].
    + left. rewrite size_empty in Hsz. replace (k =? 0) with true by lia. apply list_elem_of_singleton.
      apply ReplicaSet.to_gset_inj; [done|apply Hq|set_solver].
    + right. (* the least new member *)
      destruct (minimal_exists_elem_of_L Z.le X Hne) as (j & HjX & Hmin).
      assert (∀ x, x ∈ X → j ≤ x) as Hle.
      { intros x Hx. destruct (decide (x ≤ j)) as [Hxj|]; [by apply Hmin|lia]. }
      pose proof (Hr j HjX) as Hj. exists j. split; [|apply elem_of_seqZ; lia].
      apply IH; [lia..|by apply (below_With q i); [done|lia..]| |].
      { assert (0 < size X)%nat; [|lia]. destruct (size X) eqn:E; [|lia]. by apply size_empty_inv in E; set_solver. }
      split; [done|]. exists (X ∖ {[j]}). rewrite ReplicaSet.to_gset_With, decide_True by lia. split_and!.
      * rewrite HX. apply set_eq. intros x. destruct (decide (x = j)); set_solver.
      * rewrite size_difference, size_singleton by set_solver.
        assert (0 < size X)%nat; [|lia]. destruct (size X) eqn:E; [|lia]. by apply size_empty_inv in E; set_solver.
      * intros x [Hx Hxj]%elem_of_difference. specialize (Hle x Hx). specialize (Hr x Hx). set_solver by lia.
Qed.

(** ** The families of the leaders *)

(** The quorums [l], numbered from zero. *)
Definition numbered (l : list Z) : gmap Z Z := foldl (λ m q, <[Z.of_nat (size m) := q]> m) ∅ l.

Lemma numbered_spec l : size (numbered l) = length l ∧ ∀ k, numbered l !! k = index l k.
Proof.
  induction l as [|q l [IHs IH]] using rev_ind; [split; [done|]; intros k; unfold index; by case_match|].
  unfold numbered in *. rewrite foldl_snoc. set (m := foldl _ ∅ l) in *.
  assert (m !! Z.of_nat (size m) = None) as Hn.
  { rewrite IH, IHs. unfold index. case_match; [done|]. apply lookup_ge_None. lia. }
  split; [rewrite map_size_insert_None, length_app, IHs by done; simpl; lia|].
  intros k. rewrite lookup_insert, IHs. case_decide as E.
  - subst k. unfold index. destruct (Z.of_nat (length l) <? 0) eqn:?; [lia|].
    rewrite Nat2Z.id, lookup_app_r by lia. by rewrite Nat.sub_diag.
  - rewrite IH. unfold index. destruct (k <? 0) eqn:?; [done|].
    destruct (decide (Z.to_nat k < length l)%nat); [by rewrite lookup_app_l|].
    rewrite (proj2 (lookup_ge_None _ _)) by lia. symmetry. apply lookup_ge_None. rewrite length_app. simpl. lia.
Qed.

Definition contains (r q : Z) : Prop := ReplicaSet.Contains q r = true.
#[export] Instance contains_dec r q : Decision (contains r q).
Proof. unfold contains. apply _. Defined.

Lemma add_quorum_lookup n q qs r :
  add_quorum n q qs !! r =
    if decide (0 ≤ r < n ∧ contains r q)
    then Some (<[Z.of_nat (size (default ∅ (qs !! r))) := q]> (default ∅ (qs !! r))) else qs !! r.
Proof.
  unfold add_quorum. assert (∀ i, i ∈ seqZ 0 n ↔ 0 ≤ i < n) as Hl by (intros; rewrite elem_of_seqZ; lia).
  pose proof (NoDup_seqZ 0 n) as Hnd. revert Hl Hnd qs.
  assert (∀ (l : list Z) (qs : QuorumSet), NoDup l → foldl (λ qs repID, let length := Z.of_nat (size (default ∅ (qs !! repID))) in
    if ReplicaSet.Contains q repID then <[repID := <[length := q]> (default ∅ (qs !! repID))]> qs else qs) qs l !! r =
    if decide (r ∈ l ∧ contains r q)
    then Some (<[Z.of_nat (size (default ∅ (qs !! r))) := q]> (default ∅ (qs !! r))) else qs !! r) as Hfold.
  { clear. intros l. induction l as [|i l IH]; intros qs Hnd.
    { cbn [foldl]. rewrite decide_False; [done|]. by intros [?%elem_of_nil _]. }
    apply NoDup_cons in Hnd as [Hni Hnd]. cbn [foldl]. rewrite IH by done. cbv zeta. clear IH.
    set (m := default ∅ (qs !! i)).
    assert ((if ReplicaSet.Contains q i then <[i := <[Z.of_nat (size m) := q]> m]> qs else qs) =
      if decide (contains i q) then <[i := <[Z.of_nat (size m) := q]> m]> qs else qs) as ->.
    { destruct (decide (contains i q)) as [Hc|Hc]; unfold contains in Hc; [by rewrite Hc|].
      by rewrite (not_true_is_false _ Hc). }
    destruct (decide (r = i)) as [->|Hne].
    - rewrite (decide_False (P := i ∈ l ∧ _)) by tauto. destruct (decide (contains i q)).
      + rewrite decide_True by (split; [by left|done]). by rewrite lookup_insert_eq.
      + rewrite decide_False by tauto. done.
    - assert ((if decide (contains i q) then <[i := <[Z.of_nat (size m) := q]> m]> qs else qs) !! r = qs !! r) as ->.
      { case_decide; [by rewrite lookup_insert_ne|done]. }
      destruct (decide (r ∈ l ∧ contains r q)) as [[??]|Hno].
      + rewrite decide_True; [done|]. split; [by right|done].
      + rewrite decide_False; [done|]. intros [[->|?]%elem_of_cons ?]; [done|tauto]. }
  intros Hl Hnd qs. rewrite Hfold by done.
  destruct (decide (r ∈ seqZ 0 n ∧ contains r q)) as [[H1 H2]|Hno].
  - rewrite decide_True; [done|]. split; [by apply Hl|done].
  - rewrite decide_False; [done|]. rewrite <- Hl. exact Hno.
Qed.

(** The quorums of a set, in order. *)
Definition quorums (quorumSize repNum : Z) : list Z := leaves (S (Z.to_nat repNum)) repNum quorumSize 0 0.

Lemma families n l r :
  0 ≤ r < n →
  foldl (λ qs q, add_quorum n q qs) (foldl (λ qs id, <[id := ∅]> qs) ∅ (seqZ 0 n)) l !! r =
  Some (numbered (filter (contains r) l)).
Proof.
  intros Hr. induction l as [|q l IH] using rev_ind.
  - cbn [foldl]. assert (∀ l (m : QuorumSet), r ∈ l ∨ m !! r = Some ∅ →
      foldl (λ qs id, <[id := ∅]> qs) m l !! r = Some ∅) as Hinit.
    { clear. intros l. induction l as [|i l IH]; intros m Hm; cbn [foldl].
      - destruct Hm as [?%elem_of_nil|?]; done.
      - apply IH. destruct (decide (r = i)) as [->|Hne]; [right; by rewrite lookup_insert_eq|].
        rewrite elem_of_cons in Hm. rewrite lookup_insert_ne by done. tauto. }
    apply Hinit. left. apply elem_of_seqZ. lia.
  - rewrite foldl_snoc, add_quorum_lookup, IH, filter_app. cbn [default].
    unfold numbered. rewrite filter_cons, filter_nil. destruct (decide (contains r q)).
    + rewrite decide_True by done. by rewrite foldl_snoc.
    + rewrite decide_False by tauto. by rewrite app_nil_r.
Qed.

Lemma families_dom n l :
  0 ≤ n → Z.of_nat (size (foldl (λ qs q, add_quorum n q qs) (foldl (λ qs id, <[id := ∅]> qs) ∅ (seqZ 0 n)) l)) = n.
Proof.
  intros Hn. set (m := foldl _ _ l). rewrite <- (size_dom (D := gset Z)).
  assert (dom m = ReplicaSet.ids n) as ->; [|by apply ReplicaSet.size_ids].
  apply set_eq. intros r. rewrite elem_of_dom, ReplicaSet.elem_of_ids. split.
  - unfold m. intros H. revert H. induction l as [|q l IH] using rev_ind.
    + cbn [foldl]. intros [x Hx]. revert Hx.
      assert (∀ l (m : QuorumSet), foldl (λ qs id, <[id := ∅]> qs) m l !! r = Some x → r ∈ l ∨ m !! r = Some x) as Hinit.
      { clear. intros l. induction l as [|i l IH]; intros m; cbn [foldl]; [by right|].
        intros [?|H]%IH; [left; by right|]. rewrite lookup_insert_Some in H.
        destruct H as [[<- _]|[_ ?]]; [left; by left|by right]. }
      intros [Hin%elem_of_seqZ|Hx]%Hinit; [lia|by rewrite lookup_empty in Hx].
    + rewrite foldl_snoc, add_quorum_lookup. case_decide; [by lia|done].
  - intros Hr. unfold m. rewrite families by done. by eexists.
Qed.

Lemma below_0 : below 0 0.
Proof. split; [unfold ReplicaSet.valid; lia|]. intros j [_ H]%ReplicaSet.elem_of_to_gset. by rewrite Z.testbit_0_l in H. Qed.

Lemma NewQuorumSet_families quorumSize n :
  0 ≤ n ≤ 64 →
  Z.of_nat (size (NewQuorumSet quorumSize n)) = n ∧
  ∀ r, 0 ≤ r < n → NewQuorumSet quorumSize n !! r = Some (numbered (filter (contains r) (quorums quorumSize n))).
Proof.
  intros Hn. unfold NewQuorumSet. cbv zeta. rewrite subsets_leaves; [|lia|lia|exact below_0].
  split; [apply families_dom; lia|]. intros r Hr. by apply families.
Qed.

Lemma elem_of_quorums quorumSize n q :
  0 ≤ quorumSize → 0 ≤ n ≤ 64 → q ∈ quorums quorumSize n ↔
    ReplicaSet.valid q ∧ ReplicaSet.to_gset q ⊆ ReplicaSet.ids n ∧ ReplicaSet.Size q = quorumSize.
Proof.
  intros Hq Hn. unfold quorums. rewrite elem_of_leaves by (lia || exact below_0).
  assert (ReplicaSet.to_gset 0 = ∅) as -> by (vm_compute; reflexivity).
  rewrite ReplicaSet.Size_size. split.
  - intros (Hv & X & -> & Hs & Hr). assert (∅ ∪ X = X) as -> by set_solver. split_and!; [done| |done].
    intros j Hj. apply ReplicaSet.elem_of_ids. specialize (Hr j). set_solver.
  - intros (Hv & Hsub & Hs). split; [done|]. exists (ReplicaSet.to_gset q). split_and!; [set_solver|done|].
    intros j Hj%Hsub. apply ReplicaSet.elem_of_ids in Hj. lia.
Qed.

(** ** Properties *)

(** A quorum of the configured size led by one of its members. *)
Definition quorum_of (quorumSize n leader q : Z) : Prop :=
  ReplicaSet.valid q ∧ ReplicaSet.to_gset q ⊆ ReplicaSet.ids n ∧ ReplicaSet.Size q = quorumSize ∧
  leader ∈ ReplicaSet.to_gset q.

(** Ballots stay below [2^31]. *)
Definition ballots_fit (quorumSize n : Z) : Prop := Z.of_nat (length (quorums quorumSize n)) * n + n < 2 ^ 31.

Lemma elem_of_family quorumSize n leader q :
  0 ≤ quorumSize → 0 ≤ n ≤ 64 →
  q ∈ filter (contains leader) (quorums quorumSize n) ↔ quorum_of quorumSize n leader q.
Proof.
  intros. rewrite list_elem_of_filter, elem_of_quorums by done. unfold contains, quorum_of.
  rewrite ReplicaSet.Contains_spec. tauto.
Qed.

Lemma set_of_gset (X : gset Z) : X ⊆ ReplicaSet.ids 64 → ∃ s, ReplicaSet.valid s ∧ ReplicaSet.to_gset s = X.
Proof.
  induction X as [|i X Hi IH] using set_ind_L; intros HX.
  { exists 0. split; [unfold ReplicaSet.valid; lia|]. vm_compute. reflexivity. }
  destruct IH as (s & Hv & <-); [set_solver|]. exists (ReplicaSet.With s i).
  split; [by apply ReplicaSet.valid_With|]. rewrite ReplicaSet.to_gset_With, decide_True; [done|].
  apply (ReplicaSet.elem_of_ids 64). set_solver.
Qed.

Lemma quorum_exists quorumSize n leader :
  1 ≤ quorumSize ≤ n → n ≤ 64 → 0 ≤ leader < n → ∃ q, quorum_of quorumSize n leader q.
Proof.
  intros Hq Hn Hl.
  set (others := filter (λ j, j ≠ leader) (seqZ 0 n)).
  assert (NoDup others) as Hnd by apply NoDup_filter, NoDup_seqZ.
  assert (Z.of_nat (length others) = n - 1) as Hlen.
  { assert (leader :: others ≡ₚ seqZ 0 n) as HP.
    { apply NoDup_Permutation; [|apply NoDup_seqZ|].
      - apply NoDup_cons. split; [|done]. unfold others. rewrite list_elem_of_filter. tauto.
      - intros j. unfold others. rewrite elem_of_cons, list_elem_of_filter, elem_of_seqZ.
        destruct (decide (j = leader)); intuition lia. }
    apply Permutation_length in HP. cbn [length] in HP. rewrite length_seqZ in HP. lia. }
  set (X := ({[leader]} ∪ list_to_set (take (Z.to_nat (quorumSize - 1)) others)) : gset Z).
  assert (∀ j, j ∈ take (Z.to_nat (quorumSize - 1)) others → j ≠ leader ∧ 0 ≤ j < n) as Htk.
  { intros j Hj%elem_of_take. destruct Hj as (k & Hk & _). apply list_elem_of_lookup_2 in Hk.
    unfold others in Hk. rewrite list_elem_of_filter, elem_of_seqZ in Hk. split; [tauto|lia]. }
  assert (X ⊆ ReplicaSet.ids n) as HX.
  { intros j. unfold X. rewrite elem_of_union, elem_of_singleton, elem_of_list_to_set, ReplicaSet.elem_of_ids.
    intros [->|?%Htk]; lia. }
  destruct (set_of_gset X) as (q & Hv & Hset).
  { intros j ?%HX. rewrite ReplicaSet.elem_of_ids in *. lia. }
  exists q. unfold quorum_of. rewrite ReplicaSet.Size_size, Hset. split_and!; [done..| |unfold X; set_solver].
  unfold X. rewrite size_union, size_singleton, size_list_to_set.
  - rewrite length_take. lia.
  - eapply sublist_NoDup; [exact Hnd|apply sublist_take].
  - intros j Hj%elem_of_singleton. rewrite elem_of_list_to_set. intros ?%Htk. lia.
Qed.

(** The quorums of a leader, by number. *)
Lemma NewQuorumSet_leader quorumSize n leader :
  0 ≤ n ≤ 64 → 0 ≤ leader < n →
  ∃ fam, default ∅ (NewQuorumSet quorumSize n !! leader) = fam ∧
    size fam = length (filter (contains leader) (quorums quorumSize n)) ∧
    ∀ k, fam !! k = index (filter (contains leader) (quorums quorumSize n)) k.
Proof.
  intros Hn Hl. destruct (NewQuorumSet_families quorumSize n Hn) as [_ Hf]. rewrite (Hf leader Hl). cbn [default].
  destruct (numbered_spec (filter (contains leader) (quorums quorumSize n))) as [Hsz Hlk].
  by eexists.
Qed.

Lemma BallotOf_spec ord quorumSize n leader q :
  0 ≤ quorumSize → 0 ≤ n ≤ 64 → 0 ≤ leader < n → ballots_fit quorumSize n → quorum_of quorumSize n leader q →
  let b := BallotOf ord (NewQuorumSet quorumSize n) leader q in
  0 ≤ b ∧ Leader b n = leader ∧ AQ (NewQuorumSet quorumSize n) b = Done q.
Proof.
  intros Hqs Hn Hl Hfit Hq. destruct (NewQuorumSet_leader quorumSize n leader Hn Hl) as (fam & Hfam & Hsz & Hlk).
  destruct (NewQuorumSet_families quorumSize n Hn) as [Hsize _].
  unfold BallotOf. rewrite Hfam, Hsize. cbv zeta.
  apply (elem_of_family quorumSize n leader q Hqs Hn) in Hq.
  destruct (list_find _ (range_order ord fam)) as [[pos [qid q']]|] eqn:Ef.
  2: { exfalso. apply list_elem_of_lookup in Hq as [k Hk].
    assert (fam !! Z.of_nat k = Some q) as Hq.
    { by rewrite Hlk, index_nat. }
    apply list_find_None in Ef. rewrite Forall_forall in Ef.
    apply (elem_of_range_order ord) in Hq. apply (Ef _ Hq). unfold ReplicaSet.Equal. simpl. by apply Z.eqb_eq. }
  apply list_find_Some in Ef as (Hpos & Heq & _). apply list_elem_of_lookup_2, elem_of_range_order in Hpos.
  unfold ReplicaSet.Equal in Heq. simpl in Heq. apply Z.eqb_eq in Heq as ->.
  pose proof Hpos as Hk. rewrite Hlk in Hk. unfold index in Hk. destruct (qid <? 0) eqn:Hneg; [done|].
  pose proof (lookup_lt_Some _ _ _ Hk) as Hlt.
  assert (length (filter (contains leader) (quorums quorumSize n)) ≤ length (quorums quorumSize n))%nat as Hle by apply length_filter.
  unfold ballots_fit in Hfit.
  assert (0 ≤ qid * n ∧ qid * n + n ≤ Z.of_nat (length (quorums quorumSize n)) * n) as [? ?] by nia.
  rewrite (wrapS_id 32 (qid * n)) by lia. rewrite wrapS_id by lia.
  assert (Z.rem (qid * n + leader) n = leader) as Hrem.
  { rewrite Z.rem_mod_nonneg by lia. rewrite Z.add_comm, Z.mod_add by lia. apply Z.mod_small. lia. }
  assert (Z.quot (qid * n + leader) n = qid) as Hquot.
  { rewrite Z.quot_div_nonneg by lia. rewrite Z.div_add_l by lia. rewrite Z.div_small by lia. lia. }
  split; [lia|]. unfold Leader. split; [exact Hrem|].
  unfold AQ. cbv zeta. rewrite Hsize. unfold Leader. rewrite Hrem, Hfam, Hquot, Hsz.
  destruct (n =? 0) eqn:?; [lia|]. destruct (Z.of_nat (length _) =? 0) eqn:?; [lia|].
  rewrite Z.rem_small by lia. by rewrite Hpos.
Qed.

(** C35.  Ballots name quorums.  Every quorum of the configured size has a
    non-negative ballot with each of its members as the leader, from which
    [AQ] and [Leader] recover the quorum and the leader, whatever the order of
    the search; and every non-negative ballot names a quorum of that size
    which contains the ballot's leader. *)
Theorem ballots_name_quorums ord quorumSize n :
  1 ≤ quorumSize ≤ n → n ≤ 64 → ballots_fit quorumSize n →
  (∀ leader q, quorum_of quorumSize n leader q →
     let b := BallotOf ord (NewQuorumSet quorumSize n) leader q in
     0 ≤ b ∧ Leader b n = leader ∧ AQ (NewQuorumSet quorumSize n) b = Done q) ∧
  (∀ b, 0 ≤ b → ∃ q, AQ (NewQuorumSet quorumSize n) b = Done q ∧ quorum_of quorumSize n (Leader b n) q).
Proof.
  intros Hqs Hn Hfit. split.
  - intros leader q Hq. apply BallotOf_spec; [lia..| |done|done].
    destruct Hq as (_ & Hsub & _ & Hl). by apply Hsub, ReplicaSet.elem_of_ids in Hl.
  - intros b Hb. assert (0 ≤ Leader b n < n) as Hl by (apply Z.rem_bound_pos; lia).
    destruct (NewQuorumSet_leader quorumSize n (Leader b n) ltac:(lia) Hl) as (fam & Hfam & Hsz & Hlk).
    destruct (NewQuorumSet_families quorumSize n ltac:(lia)) as [Hsize _].
    destruct (quorum_exists quorumSize n (Leader b n) Hqs Hn Hl) as [q0 Hq0].
    apply elem_of_family in Hq0; [|lia..].
    set (l := filter (contains (Leader b n)) (quorums quorumSize n)) in *.
    assert (0 < length l)%nat as Hpos by (destruct l; [by apply elem_of_nil in Hq0|simpl; lia]).
    set (k := Z.rem (Z.quot b n) (Z.of_nat (length l))).
    assert (0 ≤ k < Z.of_nat (length l)) as Hk by (apply Z.rem_bound_pos; [apply Z.quot_pos|]; lia).
    destruct (lookup_lt_is_Some_2 l (Z.to_nat k) ltac:(lia)) as [q Hq].
    exists q. split.
    + unfold AQ. cbv zeta. rewrite Hsize, Hfam, Hsz. destruct (n =? 0) eqn:?; [lia|].
      destruct (Z.of_nat (length l) =? 0) eqn:?; [lia|]. fold k. rewrite Hlk, index_nonneg by lia. by rewrite Hq.
    + apply list_elem_of_lookup_2 in Hq. apply elem_of_family in Hq; [done|lia..].
Qed.

Lemma ballots_name_quorums_witness :
  AQ (NewQuorumSet 2 3) (BallotOf [1] (NewQuorumSet 2 3) 1 6) = Done 6 ∧
  ∃ q, AQ (NewQuorumSet 2 3) 100 = Done q ∧ quorum_of 2 3 (Leader 100 3) q.
Proof.
  destruct (ballots_name_quorums [1] 2 3) as [H1 H2]; [lia..|reflexivity|]. split.
  - apply H1. split_and!; [unfold ReplicaSet.valid; lia|..]; apply (bool_decide_eq_true_1 _); vm_compute; reflexivity.
  - apply H2. lia.
Defined.

(** A quorum system starts exactly from a quorum of its size that contains
    the leader, at a ballot that names this quorum and this leader; any other
    initial quorum is refused with an error. *)
Lemma NewQuorumSystem_initial ord quorumSize n initial leader :
  ReplicaSet.valid initial → ballots_fit quorumSize n →
  (1 ≤ n ≤ 64 ∧ quorum_of quorumSize n leader initial →
     ∃ b, NewQuorumSystem ord quorumSize n initial leader = Done (inr (mkQuorumSystem (NewQuorumSet quorumSize n) [b])) ∧
       Leader b n = leader ∧ AQ (NewQuorumSet quorumSize n) b = Done initial) ∧
  (¬ (1 ≤ n ≤ 64 ∧ quorum_of quorumSize n leader initial) →
     ∃ why, NewQuorumSystem ord quorumSize n initial leader = Done (inl why)).
Proof.
  intros Hv Hfit. unfold NewQuorumSystem. split.
  - intros [Hn Hq]. pose proof Hq as (_ & Hsub & Hsz & Hl).
    rewrite (proj2 (Z.eqb_eq _ _) Hsz), (proj2 (ReplicaSet.Contains_spec _ _) Hl). cbn [negb orb].
    unfold ReplicaSet.MaxSize. replace ((n <? 1) || (64 <? n)) with false by lia.
    destruct (ReplicaSet.All_spec n) as (all & -> & Hall & Hset); [lia|]. cbn [mbind outcome_bind].
    rewrite (proj2 (ReplicaSet.Covers_spec _ _ Hall Hv)) by (by rewrite Hset). cbn [negb]. cbv zeta.
    assert (0 ≤ quorumSize) as Hqs by (rewrite <- Hsz; unfold ReplicaSet.Size; lia).
    assert (0 ≤ leader < n) as Hln by by apply Hsub, ReplicaSet.elem_of_ids in Hl.
    destruct (BallotOf_spec ord quorumSize n leader initial Hqs ltac:(lia) Hln Hfit Hq) as (Hb & Hlead & HAQ).
    set (b := BallotOf _ _ _ _) in *. destruct (b <? 0) eqn:?; [lia|]. by exists b.
  - intros Hno. destruct (negb (ReplicaSet.Size initial =? quorumSize) || _) eqn:E1; [by eexists|].
    destruct ((n <? 1) || _) eqn:E2; [by eexists|]. unfold ReplicaSet.MaxSize in E2.
    destruct (ReplicaSet.All_spec n) as (all & -> & Hall & Hset); [lia|]. cbn [mbind outcome_bind].
    destruct (ReplicaSet.Covers all initial) eqn:E3; cbn [negb]; [|by eexists].
    exfalso. apply Hno. split; [lia|]. apply orb_false_iff in E1 as [E1 E4].
    apply negb_false_iff in E1, E4. apply Z.eqb_eq in E1. apply ReplicaSet.Contains_spec in E4.
    apply ReplicaSet.Covers_spec in E3; [|done..]. rewrite Hset in E3. done.
Qed.

Lemma NewQuorumSystem_initial_witness :
  (∃ b, NewQuorumSystem [] 2 3 5 2 = Done (inr (mkQuorumSystem (NewQuorumSet 2 3) [b])) ∧
     Leader b 3 = 2 ∧ AQ (NewQuorumSet 2 3) b = Done 5) ∧
  (∃ why, NewQuorumSystem [] 2 3 5 1 = Done (inl why)).
Proof.
  split.
  - apply (proj1 (NewQuorumSystem_initial [] 2 3 5 2 ltac:(unfold ReplicaSet.valid; lia) ltac:(reflexivity))).
    split; [lia|]. split_and!; [unfold ReplicaSet.valid; lia|..]; apply (bool_decide_eq_true_1 _); vm_compute; reflexivity.
  - apply (proj2 (NewQuorumSystem_initial [] 2 3 5 1 ltac:(unfold ReplicaSet.valid; lia) ltac:(reflexivity))).
    intros [_ (_&_&_&H)]. apply ReplicaSet.Contains_spec in H. discriminate H.
Defined.
End SwiftQuorum.
