(* ===== verification/SwiftHashLog.v ===== *)
(** * SwiftHashLog: the hash log of a key ([swift/hashlog.go])

    [HashLog] keeps the commands that are proposed but not synced in a doubly
    linked list and digests the path "synced history, then the pending
    commands" in one hash.  The list is modelled as it is, a heap of nodes with
    [next] and [previous] pointers: a node is in [nodes] exactly as long as it
    is linked, so an identity names its node.

    [hash_log_refines]: every operation implements, on every log reached from
    [NewHashLog], the corresponding operation of an abstract log that keeps a
    plain list, and returns the digest of that list; [AppendAndUpdate] is
    [Append] followed by [Update].  [SHashesEq] compares lists of digests
    ([SHashesEq_permutation]). *)
From stdpp Require Import gmap strings list fin_maps.
From Stdlib Require Import Lia.
From S2P Require Import Prelude State Defs.

Module SwiftHashLog.

(** ** The linked list *)
Record HashNode := mkNode {
  nid : RequestID; next : option RequestID; previous : option RequestID; proposalHash : bytes }.
#[export] Instance eta_node : Eta HashNode := λ n, mkNode (nid n) (next n) (previous n) (proposalHash n).
#[export] Instance set_next : Setter next := ltac:(mk_setter).
#[export] Instance set_previous : Setter previous := ltac:(mk_setter).
#[export] Instance set_proposalHash : Setter proposalHash := ltac:(mk_setter).

Record UpdateEntry := mkUpdate { uhash : list bytes; useqnum : Z }.

Record HashLog := mkLog {
  lballot : Z; synced : Z; syncedHash : bytes;
  pendingHead : option RequestID; pendingTail : option RequestID;
  lhash : bytes; dirty : bool;
  nodes : gmap RequestID HashNode;
  pendingUpd : gmap RequestID UpdateEntry }.
#[export] Instance eta_log : Eta HashLog := λ l,
  mkLog (lballot l) (synced l) (syncedHash l) (pendingHead l) (pendingTail l) (lhash l) (dirty l) (nodes l) (pendingUpd l).
#[export] Instance set_synced : Setter synced := ltac:(mk_setter).
#[export] Instance set_syncedHash : Setter syncedHash := ltac:(mk_setter).
#[export] Instance set_pendingHead : Setter pendingHead := ltac:(mk_setter).
#[export] Instance set_pendingTail : Setter pendingTail := ltac:(mk_setter).
#[export] Instance set_lhash : Setter lhash := ltac:(mk_setter).
#[export] Instance set_dirty : Setter dirty := ltac:(mk_setter).
#[export] Instance set_nodes : Setter nodes := ltac:(mk_setter).
#[export] Instance set_pendingUpd : Setter pendingUpd := ltac:(mk_setter).

(** The zero [SHash]: 32 zero bytes. *)
Definition zeroHash : bytes := replicate 32 0.

Definition NewHashLog : HashLog := mkLog (-1) (-1) zeroHash None None zeroHash false ∅ ∅.

(** [bs]: the previous digest and the identity, little endian. *)
Definition hash_input (initial : bytes) (cmdID : RequestID) : bytes :=
  initial ++ le_encode 4 (u32 (Client cmdID)) ++ le_encode 4 (u32 (Sequence cmdID)).

Section HashLog.
(** [sha256.Sum256] *)
Variable Sum256 : bytes → bytes.

Definition hash (initial : bytes) (cmdID : RequestID) : bytes := Sum256 (hash_input initial cmdID).

(** [for n := l.pendingHead; n != nil; n = n.next]: a node per round. *)
Fixpoint fold_path (fuel : nat) (nodes : gmap RequestID HashNode) (n : option RequestID) (initial : bytes) : outcome bytes :=
  match n with
  | None => Done initial
  | Some id =>
      match fuel, nodes !! id with
      | O, _ => OutOfFuel
      | _, None => Panicked "nil pointer dereference"
      | S fuel, Some node => fold_path fuel nodes (next node) (hash initial (nid node))
      end
  end.

Definition pathHash (l : HashLog) : outcome (bytes * HashLog) :=
  if dirty l then
    h ← fold_path (S (size (nodes l))) (nodes l) (pendingHead l) (syncedHash l);
    let l := l <| lhash := h |> <| dirty := false |> in
    Done (lhash l, l)
  else Done (lhash l, l).

(** A write through a node pointer. *)
Definition at_node (id : option RequestID) (f : HashNode → HashNode) (l : HashLog) : HashLog :=
  match id with Some id => l <| nodes ::= alter f id |> | None => l end.

Definition unlink (cmdID : RequestID) (n : HashNode) (l : HashLog) : HashLog :=
  let l := at_node (previous n) (λ m, m <| next := next n |>) l in
  let l := at_node (next n) (λ m, m <| previous := previous n |>) l in
  let l := if decide (pendingHead l = Some cmdID) then l <| pendingHead := next n |> else l in
  let l := if decide (pendingTail l = Some cmdID) then l <| pendingTail := previous n |> else l in
  l <| nodes ::= delete cmdID |>.

Definition update (cmdID : RequestID) (s : Z) (h : bytes) (save : bool) (l : HashLog) : HashLog :=
  match nodes l !! cmdID with
  | None =>
      if save then l <| pendingUpd ::= <[cmdID := mkUpdate [h] s]> |>
      else if s <=? synced l then l
      else l <| synced := s |> <| syncedHash := h |> <| dirty := true |>
  | Some n =>
      let l := unlink cmdID n l in
      let l := if synced l <? s then l <| synced := s |> <| syncedHash := h |> else l in
      l <| dirty := true |>
  end.

Definition Update (cmdID : RequestID) (s : Z) (h : bytes) (l : HashLog) : HashLog := update cmdID s h true l.

(** [upd.hash[0]] *)
Definition first_hash (u : UpdateEntry) : outcome bytes :=
  match uhash u with h :: _ => Done h | [] => Panicked "index out of range" end.

(** The node joins the list: as its head, or after its tail. *)
Definition link (cmdID : RequestID) (l : HashLog) : HashLog :=
  let l := l <| nodes ::= <[cmdID := mkNode cmdID None None zeroHash]> |> in
  match pendingHead l with
  | None => l <| pendingHead := Some cmdID |>
  | Some head =>
      let tail := default head (pendingTail l) in
      let l := at_node (Some tail) (λ m, m <| next := Some cmdID |>) l in
      let l := at_node (Some cmdID) (λ m, m <| previous := Some tail |>) l in
      l <| pendingTail := Some cmdID |>
  end.

Definition Append (cmdID : RequestID) (l : HashLog) : outcome (bytes * HashLog) :=
  match pendingUpd l !! cmdID with
  | Some upd =>
      h ← first_hash upd;
      Done (h, update cmdID (useqnum upd) h false (l <| pendingUpd ::= delete cmdID |>))
  | None =>
      match nodes l !! cmdID with
      | Some node => Done (proposalHash node, l)
      | None =>
          '(_, l) ← pathHash l;
          let h := match pendingHead l with None => hash (syncedHash l) cmdID | Some _ => hash (lhash l) cmdID end in
          let l := link cmdID l <| lhash := h |> in
          Done (h, at_node (Some cmdID) (λ m, m <| proposalHash := h |>) l)
      end
  end.

Definition AppendDeferred (cmdID : RequestID) (l : HashLog) : outcome HashLog :=
  match pendingUpd l !! cmdID with
  | Some upd =>
      h ← first_hash upd;
      Done (update cmdID (useqnum upd) h false (l <| pendingUpd ::= delete cmdID |>))
  | None =>
      match nodes l !! cmdID with
      | Some _ => Done l
      | None => Done (link cmdID l <| dirty := true |>)
      end
  end.

Definition AppendAndUpdate (cmdID : RequestID) (s : Z) (h : bytes) (l : HashLog) : outcome HashLog :=
  match pendingUpd l !! cmdID with
  | Some upd =>
      h0 ← first_hash upd;
      let l := update cmdID (useqnum upd) h0 false (l <| pendingUpd ::= delete cmdID |>) in
      Done (update cmdID s h true l)
  | None => Done (update cmdID s h false l)
  end.

Definition BeginBallot (b : Z) (l : HashLog) : outcome (Z * HashLog) :=
  if b <=? lballot l then Done (0, l) else
  '(h, l) ← pathHash l;
  Done (Z.of_nat (size (nodes l)), mkLog b (-1) h None None h false ∅ ∅).

(** ** The abstract log: a list of pending identities *)
Record abslog := mkAbs {
  a_ballot : Z; a_synced : Z; a_syncedHash : bytes;
  a_pending : list RequestID;
  a_proposal : gmap RequestID bytes;           (* the digests of the pending proposals *)
  a_early : gmap RequestID (Z * bytes) }.      (* updates received before their command *)
#[local] Instance eta_abs : Eta abslog := λ a,
  mkAbs (a_ballot a) (a_synced a) (a_syncedHash a) (a_pending a) (a_proposal a) (a_early a).
#[local] Instance set_a_synced : Setter a_synced := ltac:(mk_setter).
#[local] Instance set_a_syncedHash : Setter a_syncedHash := ltac:(mk_setter).
#[local] Instance set_a_pending : Setter a_pending := ltac:(mk_setter).
#[local] Instance set_a_proposal : Setter a_proposal := ltac:(mk_setter).
#[local] Instance set_a_early : Setter a_early := ltac:(mk_setter).

Definition a_empty : abslog := mkAbs (-1) (-1) zeroHash [] ∅ ∅.

(** The digest of the synced history followed by the pending commands. *)
Definition path_digest (a : abslog) : bytes := foldl hash (a_syncedHash a) (a_pending a).

(** The command leaves the pending list; a newer sequence number moves the
    synced history. *)
Definition spec_sync (id : RequestID) (s : Z) (h : bytes) (a : abslog) : abslog :=
  let a := a <| a_pending ::= filter (λ x, x ≠ id) |> <| a_proposal ::= delete id |> in
  if a_synced a <? s then a <| a_synced := s |> <| a_syncedHash := h |> else a.

Definition spec_Update (id : RequestID) (s : Z) (h : bytes) (a : abslog) : abslog :=
  if decide (id ∈ a_pending a) then spec_sync id s h a
  else a <| a_early ::= <[id := (s, h)]> |>.

(** A command arrives: an early update of it syncs it at once. *)
Definition spec_arrive (id : RequestID) (h : bytes) (a : abslog) : abslog :=
  match a_early a !! id with
  | Some (s, h) => spec_sync id s h (a <| a_early ::= delete id |>)
  | None =>
      if decide (id ∈ a_pending a) then a
      else a <| a_pending ::= (λ p, p ++ [id]) |> <| a_proposal ::= <[id := h]> |>
  end.

Definition spec_Append (id : RequestID) (a : abslog) : bytes * abslog :=
  let h := hash (path_digest a) id in
  (match a_early a !! id with
   | Some (_, h) => h
   | None => if decide (id ∈ a_pending a) then default zeroHash (a_proposal a !! id) else h
   end, spec_arrive id h a).

Definition spec_AppendDeferred (id : RequestID) (a : abslog) : abslog := spec_arrive id zeroHash a.

Definition spec_BeginBallot (b : Z) (a : abslog) : Z * abslog :=
  if b <=? a_ballot a then (0, a)
  else (Z.of_nat (length (a_pending a)), mkAbs b (-1) (path_digest a) [] ∅ ∅).

(** ** Linked segments *)
Definition first (l : list RequestID) (d : option RequestID) : option RequestID :=
  match l with [] => d | x :: _ => Some x end.
Definition final (d : option RequestID) (l : list RequestID) : option RequestID :=
  match last l with None => d | Some x => Some x end.

(** The nodes of [ids] are linked, from [prev] before them to [nxt] after them. *)
Fixpoint links (m : gmap RequestID HashNode) (prev : option RequestID) (ids : list RequestID) (nxt : option RequestID) : Prop :=
  match ids with
  | [] => True
  | x :: ids =>
      (∃ n, m !! x = Some n ∧ nid n = x ∧ previous n = prev ∧ next n = first ids nxt) ∧
      links m (Some x) ids nxt
  end.

Lemma final_cons d x l : final d (x :: l) = final (Some x) l.
Proof. unfold final. destruct l as [|y l]; [done|]. rewrite last_cons_cons. destruct (last (y :: l)) eqn:E; [done|]. by apply last_None in E. Qed.

Lemma final_snoc d l x : final d (l ++ [x]) = Some x.
Proof. unfold final. by rewrite last_snoc. Qed.

Lemma links_app m prev l1 l2 nxt :
  links m prev (l1 ++ l2) nxt ↔ links m prev l1 (first l2 nxt) ∧ links m (final prev l1) l2 nxt.
Proof.
  revert prev. induction l1 as [|x l1 IH]; intros prev; [split; [done|by intros [_ ?]]|].
  cbn [app links]. rewrite IH, final_cons.
  assert (first (l1 ++ l2) nxt = first l1 (first l2 nxt)) as -> by by destruct l1. tauto.
Qed.

(** Changes elsewhere do not matter. *)
Lemma links_frame m m' prev l nxt :
  (∀ x, x ∈ l → m' !! x = m !! x) → links m prev l nxt → links m' prev l nxt.
Proof.
  revert prev. induction l as [|x l IH]; intros prev Hm; [done|]. cbn [links]. intros [Hx Hl]. split.
  - rewrite Hm by by left. done.
  - apply IH; [|done]. intros y Hy. apply Hm. by right.
Qed.

Lemma links_set_next m prev l y nxt nxt' :
  NoDup (l ++ [y]) → links m prev (l ++ [y]) nxt →
  links (alter (λ n, n <| next := nxt' |>) y m) prev (l ++ [y]) nxt'.
Proof.
  intros Hnd. rewrite !links_app. cbn [links first]. intros [Hl [(n & Hn & Hid & Hp & Hx) _]]. split.
  - eapply links_frame; [|exact Hl]. intros x Hx'. apply lookup_alter_ne.
    intros ->. apply NoDup_app in Hnd as (_ & Hd & _). apply (Hd x); [done|by left].
  - split; [|done]. exists (n <| next := nxt' |>). by rewrite lookup_alter_eq, Hn.
Qed.

Lemma links_set_previous m prev prev' y l nxt :
  y ∉ l → links m prev (y :: l) nxt → links (alter (λ n, n <| previous := prev' |>) y m) prev' (y :: l) nxt.
Proof.
  intros Hni. cbn [links]. intros [(n & Hn & Hid & Hp & Hx) Hl]. split.
  - exists (n <| previous := prev' |>). by rewrite lookup_alter_eq, Hn.
  - eapply links_frame; [|exact Hl]. intros x Hx'. apply lookup_alter_ne. by intros ->.
Qed.

(** The heap after a write through a pointer that may be nil. *)
Definition heap_at (id : option RequestID) (f : HashNode → HashNode) (m : gmap RequestID HashNode) : gmap RequestID HashNode :=
  match id with Some id => alter f id m | None => m end.

Lemma heap_at_lookup id f m x :
  heap_at id f m !! x = if decide (id = Some x) then f <$> m !! x else m !! x.
Proof.
  destruct id as [y|]; simpl; [|done]. rewrite lookup_alter.
  destruct (decide (y = x)) as [->|]; [by rewrite decide_True|by rewrite decide_False by congruence].
Qed.

Lemma final_elem l y : final None l = Some y → ∃ l', l = l' ++ [y].
Proof. unfold final. destruct (last l) as [x|] eqn:E; [|done]. intros [= ->]. by apply last_Some. Qed.

(** Unlinking a node closes the list around it. *)
Lemma links_unlink m l1 id l2 n :
  NoDup (l1 ++ id :: l2) → links m None (l1 ++ id :: l2) None → m !! id = Some n →
  previous n = final None l1 ∧ next n = first l2 None ∧
  links (delete id (heap_at (next n) (λ k, k <| previous := previous n |>)
    (heap_at (previous n) (λ k, k <| next := next n |>) m))) None (l1 ++ l2) None.
Proof.
  intros Hnd Hl Hn. apply links_app in Hl as [H1 [(n' & Hn' & _ & Hp & Hx) H2]].
  assert (n' = n) as -> by congruence. rewrite Hp, Hx. split_and!; [done..|].
  apply NoDup_app in Hnd as (Hnd1 & Hd & Hnd2). apply NoDup_cons in Hnd2 as [Hni Hnd2].
  assert (∀ x, x ∈ l1 → x ≠ id ∧ x ∉ l2) as Hd1.
  { intros x Hx1. specialize (Hd x Hx1). rewrite elem_of_cons in Hd. tauto. }
  assert (∀ x, x ∈ l2 → x ≠ id) as Hd2 by (intros x Hx2 ->; done).
  apply links_app. split.
  - (* before the node *)
    assert (links (heap_at (final None l1) (λ k, k <| next := first l2 None |>) m) None l1 (first l2 None)) as Hl1.
    { destruct (final None l1) as [y|] eqn:Ef; cbn [heap_at].
      - apply final_elem in Ef as [l' ->]. by eapply links_set_next.
      - destruct l1 as [|x l1 _] using rev_ind; [done|]. by rewrite final_snoc in Ef. }
    eapply links_frame; [|exact Hl1]. intros x Hx1. destruct (Hd1 x Hx1) as [Hne Hn2].
    rewrite lookup_delete_ne, heap_at_lookup by done. rewrite decide_False; [done|].
    destruct l2 as [|z l2]; cbn [first]; [done|]. intros [= ->]. apply Hn2. by left.
  - (* after the node *)
    assert (links m (Some id) l2 None) as Hl2 by exact H2.
    assert (links (heap_at (final None l1) (λ k, k <| next := first l2 None |>) m) (Some id) l2 None) as Hl3.
    { eapply links_frame; [|exact Hl2]. intros x Hx2. rewrite heap_at_lookup. rewrite decide_False; [done|].
      intros Ef. apply final_elem in Ef as [l' ->]. apply (Hd1 x); [|done]. apply elem_of_app. right. by left. }
    destruct l2 as [|z l2]; [done|]. cbn [first heap_at] in *.
    eapply links_frame; [|eapply (links_set_previous _ (Some id)); [by apply NoDup_cons in Hnd2 as [? _]|exact Hl3]].
    intros x Hx2. apply lookup_delete_ne. intros <-. by apply Hni.
Qed.

(** ** Representation *)
Record repr (l : HashLog) (a : abslog) : Prop := mkRepr {
  r_ballot : lballot l = a_ballot a;
  r_synced : synced l = a_synced a;
  r_syncedHash : syncedHash l = a_syncedHash a;
  r_links : links (nodes l) None (a_pending a) None;
  r_nodup : NoDup (a_pending a);
  r_nodes : ∀ x, is_Some (nodes l !! x) ↔ x ∈ a_pending a;
  r_head : pendingHead l = first (a_pending a) None;
  r_tail : pendingTail l = final None (a_pending a) ∨ (pendingTail l = None ∧ (length (a_pending a) ≤ 1)%nat);
  r_hash : dirty l = false → lhash l = path_digest a;
  r_proposal : ∀ x, a_proposal a !! x = proposalHash <$> nodes l !! x;
  r_early : ∀ x, pendingUpd l !! x = (λ p : Z * bytes, mkUpdate [p.2] p.1) <$> a_early a !! x;
  r_disjoint : ∀ x, x ∈ a_pending a → a_early a !! x = None;
}.

Lemma repr_New : repr NewHashLog a_empty.
Proof.
  split; try done; [constructor| |by left].
  intros x. simpl. rewrite lookup_empty, elem_of_nil. split; [by intros [? ?]|done].
Qed.

(** Any two nodes of the heap agree on the part of a node the list never
    touches. *)
Lemma unlink_nodes id n l : nodes (unlink id n l) =
  delete id (heap_at (next n) (λ k, k <| previous := previous n |>)
    (heap_at (previous n) (λ k, k <| next := next n |>) (nodes l))).
Proof. unfold unlink, heap_at, at_node. by destruct (previous n), (next n); repeat case_decide. Qed.

Lemma unlink_rest id n l :
  lballot (unlink id n l) = lballot l ∧ synced (unlink id n l) = synced l ∧
  syncedHash (unlink id n l) = syncedHash l ∧ pendingUpd (unlink id n l) = pendingUpd l ∧
  pendingHead (unlink id n l) = (if decide (pendingHead l = Some id) then next n else pendingHead l) ∧
  pendingTail (unlink id n l) = (if decide (pendingTail l = Some id) then previous n else pendingTail l).
Proof.
  unfold unlink. cbv zeta.
  set (l1 := at_node (previous n) _ l). set (l2 := at_node (next n) _ l1).
  assert (lballot l2 = lballot l ∧ synced l2 = synced l ∧ syncedHash l2 = syncedHash l ∧ pendingUpd l2 = pendingUpd l ∧
    pendingHead l2 = pendingHead l ∧ pendingTail l2 = pendingTail l) as (<-&<-&<-&<-&<-&<-).
  { unfold l2, l1, at_node. by destruct (previous n), (next n). }
  clearbody l2. destruct (decide (pendingHead l2 = Some id)); cbn [pendingTail]; repeat case_decide; done.
Qed.

Lemma heap_proposal (id : option RequestID) f m x :
  (∀ n, proposalHash (f n) = proposalHash n) →
  proposalHash <$> heap_at id f m !! x = proposalHash <$> m !! x.
Proof. intros Hf. rewrite heap_at_lookup. case_decide; [|done]. destruct (m !! x); simpl; [by rewrite Hf|done]. Qed.

Lemma is_Some_fmap_proposal (o : option HashNode) : is_Some o ↔ is_Some (proposalHash <$> o).
Proof. by rewrite fmap_is_Some. Qed.

Lemma filter_ne_app (l1 l2 : list RequestID) id :
  id ∉ l1 → id ∉ l2 → filter (λ x, x ≠ id) (l1 ++ id :: l2) = l1 ++ l2.
Proof.
  intros H1 H2. rewrite filter_app, filter_cons, decide_False by tauto.
  rewrite !filter_all; [done|by intros x ? ->|by intros x ? ->].
Qed.

Lemma filter_ne_id (l : list RequestID) id : id ∉ l → filter (λ x, x ≠ id) l = l.
Proof. intros H. apply filter_all. by intros x ? ->. Qed.

(** Removing a linked command. *)
Lemma repr_unlink l a id n :
  repr l a → nodes l !! id = Some n →
  repr (unlink id n l <| dirty := true |>)
    (a <| a_pending ::= filter (λ x, x ≠ id) |> <| a_proposal ::= delete id |>).
Proof.
  intros [Hb Hs Hsh Hl Hnd Hn Hh Ht _ Hp He Hd] Hid.
  destruct (unlink_rest id n l) as (Eb&Es&Esh&Eu&Eh&Et). pose proof (unlink_nodes id n l) as En.
  assert (id ∈ a_pending a) as Hin by (apply Hn; by eexists).
  apply list_elem_of_split in Hin as (l1 & l2 & Ea). rewrite Ea in *.
  destruct (links_unlink (nodes l) l1 id l2 n Hnd Hl Hid) as (Epv & Enx & Hlinks).
  pose proof Hnd as (_ & Hx1 & (Hni2 & _)%NoDup_cons)%NoDup_app.
  assert (id ∉ l1) as Hni1 by (intros ?%Hx1; set_solver).
  set (u := unlink id n l) in *. clearbody u.
  split; simpl; rewrite ?Ea, ?(filter_ne_app _ _ _ Hni1 Hni2), ?Eb, ?Es, ?Esh, ?Eu; try done.
  - by rewrite En.
  - eapply sublist_NoDup; [exact Hnd|]. apply sublist_app; [done|by apply sublist_cons].
  - intros x. rewrite En, lookup_delete. destruct (decide (id = x)) as [<-|Ex].
    + rewrite elem_of_app. split; [by intros [? ?]|tauto].
    + rewrite is_Some_fmap_proposal, !heap_proposal, <- is_Some_fmap_proposal, Hn by done.
      rewrite !elem_of_app, elem_of_cons. naive_solver.
  - rewrite Eh, Hh, Enx. destruct l1 as [|y l1]; cbn [app first]; [by rewrite decide_True|].
    rewrite decide_False; [done|]. intros [= ->]. apply Hni1. by left.
  - rewrite Et, Epv. destruct Ht as [Ht|[Ht Hlen]].
    + rewrite Ht. destruct l2 as [|z l2] using rev_ind.
      * rewrite final_snoc, decide_True, app_nil_r by done. by left.
      * rewrite app_comm_cons, !app_assoc, !final_snoc, decide_False; [by left|].
        intros [= ->]. apply Hni2, elem_of_app. right. by left.
    + rewrite Ht, decide_False by done. right. split; [done|]. rewrite !length_app in *. simpl in Hlen. lia.
  - intros x. rewrite En. destruct (decide (id = x)) as [<-|Ex]; [by rewrite !lookup_delete_eq|].
    by rewrite !lookup_delete_ne, !heap_proposal, Hp.
  - intros x Hx. apply Hd. rewrite elem_of_app, elem_of_cons in *. tauto.
Qed.

(** Moving the synced history. *)
Lemma repr_move l a s h :
  repr (l <| dirty := true |>) a →
  repr (l <| synced := s |> <| syncedHash := h |> <| dirty := true |>) (a <| a_synced := s |> <| a_syncedHash := h |>).
Proof. by intros [Hb Hs Hsh Hl Hnd Hn Hh Ht _ Hp He Hd]. Qed.

Lemma repr_dirty l a : repr l a → repr (l <| dirty := true |>) a.
Proof. by intros [Hb Hs Hsh Hl Hnd Hn Hh Ht _ Hp He Hd]. Qed.

(** [update] of a linked command. *)
Lemma repr_update_linked l a id s h save :
  repr l a → id ∈ a_pending a → repr (update id s h save l) (spec_sync id s h a).
Proof.
  intros Hr Hin. apply (r_nodes _ _ Hr) in Hin as [n Hn]. unfold update, spec_sync. rewrite Hn. cbv zeta.
  pose proof (repr_unlink l a id n Hr Hn) as Hu. pose proof (r_synced _ _ Hu) as Es. simpl in Es.
  simpl. rewrite Es. destruct (a_synced a <? s); [by apply repr_move|done].
Qed.

Lemma spec_sync_absent l a id s h :
  repr l a → id ∉ a_pending a →
  spec_sync id s h a = if a_synced a <? s then a <| a_synced := s |> <| a_syncedHash := h |> else a.
Proof.
  intros Hr Hni. unfold spec_sync. cbv zeta.
  assert (a <| a_pending ::= filter (λ x, x ≠ id) |> <| a_proposal ::= delete id |> = a) as ->; [|done].
  unfold set, set_a_pending, set_a_proposal. simpl. rewrite filter_ne_id by done.
  rewrite delete_id; [by destruct a|]. rewrite (r_proposal _ _ Hr).
  destruct (nodes l !! id) as [n|] eqn:E; [|done]. exfalso. apply Hni, (r_nodes _ _ Hr). by eexists.
Qed.

(** [update] of a command that is not linked, without saving it. *)
Lemma repr_update_absent l a id s h :
  repr l a → id ∉ a_pending a → repr (update id s h false l) (spec_sync id s h a).
Proof.
  intros Hr Hni. rewrite (spec_sync_absent l a) by done. unfold update.
  destruct (nodes l !! id) as [n|] eqn:E; [exfalso; apply Hni, (r_nodes _ _ Hr); by eexists|].
  rewrite (r_synced _ _ Hr), Z.ltb_antisym. destruct (s <=? a_synced a); cbn [negb]; [done|].
  by apply repr_move, repr_dirty.
Qed.

Lemma repr_update l a id s h : repr l a → repr (update id s h false l) (spec_sync id s h a).
Proof.
  intros Hr. destruct (decide (id ∈ a_pending a)); [by apply repr_update_linked|by apply repr_update_absent].
Qed.

Lemma repr_drop_early l a id :
  repr l a → repr (l <| pendingUpd ::= delete id |>) (a <| a_early ::= delete id |>).
Proof.
  intros [Hb Hs Hsh Hl Hnd Hn Hh Ht Hc Hp He Hd]. split; try done; simpl.
  - intros x. rewrite !lookup_delete. case_decide; [done|apply He].
  - intros x Hx. rewrite lookup_delete. case_decide; [done|by apply Hd].
Qed.

Lemma repr_early l a id u : repr l a → pendingUpd l !! id = Some u →
  ∃ s h, u = mkUpdate [h] s ∧ a_early a !! id = Some (s, h).
Proof.
  intros Hr Hu. rewrite (r_early _ _ Hr) in Hu. destruct (a_early a !! id) as [[s h]|]; [|done].
  injection Hu as <-. by exists s, h.
Qed.

Lemma repr_no_early l a id : repr l a → pendingUpd l !! id = None → a_early a !! id = None.
Proof. intros Hr Hu. rewrite (r_early _ _ Hr) in Hu. by apply fmap_None in Hu. Qed.

(** [Update] *)
Lemma repr_Update l a id s h : repr l a → repr (Update id s h l) (spec_Update id s h a).
Proof.
  intros Hr. unfold Update, spec_Update. case_decide as Hin; [by apply repr_update_linked|].
  unfold update. destruct (nodes l !! id) as [n|] eqn:E; [exfalso; apply Hin, (r_nodes _ _ Hr); by eexists|].
  destruct Hr as [Hb Hs Hsh Hl Hnd Hn Hh Ht Hc Hp He Hd]. split; try done; simpl.
  - intros x. rewrite !lookup_insert. case_decide; [done|apply He].
  - intros x Hx. rewrite lookup_insert_ne by congruence. by apply Hd.
Qed.

(** ** The digest *)
Lemma fold_path_spec fuel m prev l init :
  links m prev l None → (length l ≤ fuel)%nat → fold_path fuel m (first l None) init = Done (foldl hash init l).
Proof.
  revert prev l init. induction fuel as [|fuel IH]; intros prev [|x l] init Hl Hf; simpl in *; [done|lia|done|].
  destruct Hl as [(n & Hn & Hid & _ & Hx) Hl]. rewrite Hn, Hid, Hx. eapply IH; [exact Hl|lia].
Qed.

Lemma repr_size l a : repr l a → size (nodes l) = length (a_pending a).
Proof.
  intros Hr. rewrite <- (size_dom (D := gset RequestID)).
  assert (dom (nodes l) = list_to_set (a_pending a)) as ->; [|by apply size_list_to_set, (r_nodup _ _ Hr)].
  apply set_eq. intros x. by rewrite elem_of_dom, elem_of_list_to_set, (r_nodes _ _ Hr).
Qed.

Lemma pathHash_spec l a : repr l a →
  ∃ l', pathHash l = Done (path_digest a, l') ∧ repr l' a ∧ dirty l' = false ∧ nodes l' = nodes l ∧
    pendingHead l' = pendingHead l.
Proof.
  intros Hr. unfold pathHash. destruct (dirty l) eqn:Hd.
  - rewrite (r_head _ _ Hr), (fold_path_spec _ _ None (a_pending a)).
    + rewrite (r_syncedHash _ _ Hr). fold (path_digest a).
      exists (l <| lhash := path_digest a |> <| dirty := false |>).
      split; [done|]. split_and!; [by destruct Hr|done..|apply Hr].
    + apply Hr.
    + rewrite (repr_size l a Hr). lia.
  - exists l. rewrite (r_hash _ _ Hr Hd). done.
Qed.

(** ** Arrival *)
Lemma first_app l x d : first (l ++ [x]) d = first l (Some x).
Proof. by destruct l. Qed.

Lemma links_snoc m prev l x nxt :
  NoDup (l ++ [x]) → links m prev l nxt →
  links (<[x := mkNode x None (final prev l) zeroHash]> (heap_at (final None l) (λ k, k <| next := Some x |>) m)) prev (l ++ [x]) None.
Proof.
  intros Hnd Hl. assert (x ∉ l) as Hni.
  { apply NoDup_app in Hnd as (_ & Hd & _). intros Hx. apply (Hd x Hx). by left. }
  apply links_app. cbn [first links]. split.
  - eapply (links_frame (heap_at (final None l) (λ k, k <| next := Some x |>) m)).
    { intros y Hy. apply lookup_insert_ne. intros <-. done. }
    destruct l as [|y l _] using rev_ind; [done|]. rewrite final_snoc. cbn [heap_at].
    eapply links_set_next; [|exact Hl]. by apply NoDup_app in Hnd as [? _].
  - split; [|done]. eexists. rewrite lookup_insert_eq. done.
Qed.

Lemma final_nil_inv l : final None l = None → l = [].
Proof. unfold final. destruct (last l) eqn:E; [done|]. by apply last_None in E. Qed.

(** What [link] does to the heap. *)
Lemma link_nodes l a id :
  repr l a → nodes l !! id = None →
  nodes (link id l) =
    <[id := mkNode id None (final None (a_pending a)) zeroHash]>
      (heap_at (final None (a_pending a)) (λ k, k <| next := Some id |>) (nodes l)).
Proof.
  intros Hr Hn. unfold link. cbv zeta. cbn [pendingHead].
  set (l0 := l <| nodes ::= _ |>). change (pendingHead l0) with (pendingHead l).
  change (pendingTail l0) with (pendingTail l). rewrite (r_head _ _ Hr).
  destruct (a_pending a) as [|x p] eqn:Ep; cbn [first]; [done|].
  assert (Some (default x (pendingTail l)) = final None (x :: p)) as Et.
  { destruct (r_tail _ _ Hr) as [->|[-> Hlen]]; rewrite Ep in *.
    - destruct (final None (x :: p)) eqn:E; [done|]. by apply final_nil_inv in E.
    - destruct p; [done|]. simpl in Hlen. lia. }
  rewrite <- Et. set (t := default x (pendingTail l)) in *. 
  assert (t ≠ id) as Hne.
  { intros ->. symmetry in Et. apply final_elem in Et as [l' E]. 
    assert (id ∈ a_pending a) as [k Hk]%(r_nodes _ _ Hr); [|congruence].
    rewrite Ep, E. apply elem_of_app. right. by left. }
  unfold at_node, l0. simpl. rewrite alter_insert_ne by done. by rewrite alter_insert_eq.
Qed.

Lemma link_rest id l :
  lballot (link id l) = lballot l ∧ synced (link id l) = synced l ∧ syncedHash (link id l) = syncedHash l ∧
  pendingUpd (link id l) = pendingUpd l ∧
  pendingHead (link id l) = (match pendingHead l with None => Some id | Some h => Some h end) ∧
  pendingTail (link id l) = (match pendingHead l with None => pendingTail l | Some _ => Some id end).
Proof.
  unfold link. cbv zeta. set (l0 := l <| nodes ::= _ |>). change (pendingHead l0) with (pendingHead l).
  destruct (pendingHead l) eqn:E; split_and!; first [done|exact E].
Qed.

(** A new command joins the list, its digest [h] recorded. *)
Lemma repr_link l a id h d lh :
  repr l a → id ∉ a_pending a → a_early a !! id = None →
  (d = false → lh = foldl hash (a_syncedHash a) (a_pending a ++ [id])) →
  repr (at_node (Some id) (λ m, m <| proposalHash := h |>) (link id l <| lhash := lh |> <| dirty := d |>))
    (a <| a_pending ::= (λ p, p ++ [id]) |> <| a_proposal ::= <[id := h]> |>).
Proof.
  intros Hr Hni Hearly Hd. assert (nodes l !! id = None) as Hn.
  { apply eq_None_not_Some. intros Hs. by apply Hni, (r_nodes _ _ Hr). }
  pose proof (link_nodes l a id Hr Hn) as En. destruct (link_rest id l) as (Eb&Es&Esh&Eu&Eh&Et).
  destruct Hr as [Hb Hs Hsh Hl Hnd Hno Hh Ht Hc Hp He Hdj].
  assert (NoDup (a_pending a ++ [id])) as Hnd'.
  { apply NoDup_app. split_and!; [done| |apply NoDup_singleton]. intros x Hx ->%list_elem_of_singleton. done. }
  set (v := link id l) in *. clearbody v. unfold at_node.
  assert (∀ x, alter (λ m, m <| proposalHash := h |>) id (nodes v) !! x =
    if decide (x = id) then Some (mkNode id None (final None (a_pending a)) h)
    else heap_at (final None (a_pending a)) (λ k, k <| next := Some id |>) (nodes l) !! x) as Hlk.
  { intros x. rewrite En. destruct (decide (x = id)) as [->|Hne].
    - by rewrite lookup_alter_eq, lookup_insert_eq.
    - by rewrite lookup_alter_ne, lookup_insert_ne. }
  split; simpl; rewrite ?Eb, ?Es, ?Esh, ?Eu; try done.
  - pose proof (links_snoc (nodes l) None (a_pending a) id None Hnd' Hl) as Hls.
    apply links_app in Hls as [Hls _]. apply links_app. split.
    + eapply links_frame; [|exact Hls]. intros x Hx. rewrite Hlk.
      assert (x ≠ id) as Hxi by (by intros ->).
      by rewrite decide_False, lookup_insert_ne.
    + cbn [links first]. split; [|done]. eexists. rewrite Hlk, decide_True; done.
  - intros x. rewrite Hlk, elem_of_app, list_elem_of_singleton. destruct (decide (x = id)) as [->|Hne].
    + split; [by right|by eexists].
    + rewrite is_Some_fmap_proposal, heap_proposal, <- is_Some_fmap_proposal, Hno by done. tauto.
  - rewrite Eh, Hh, first_app. by destruct (a_pending a).
  - rewrite Et, Hh, final_snoc. destruct (a_pending a) as [|x p] eqn:Ep; cbn [first]; [|by left].
    right. split; [|simpl; lia]. by destruct Ht as [->|[-> _]].
  - intros x. rewrite Hlk. destruct (decide (x = id)) as [->|Hne]; [by rewrite lookup_insert_eq|].
    by rewrite lookup_insert_ne, heap_proposal, Hp.
  - intros x [?| ->%list_elem_of_singleton]%elem_of_app; [by apply Hdj|done].
Qed.

Lemma spec_arrive_early id h a s h0 : a_early a !! id = Some (s, h0) →
  spec_arrive id h a = spec_sync id s h0 (a <| a_early ::= delete id |>).
Proof. intros E. unfold spec_arrive. by rewrite E. Qed.

(** [Append] *)
Lemma repr_Append l a id : repr l a →
  ∃ l', Append id l = Done ((spec_Append id a).1, l') ∧ repr l' (spec_Append id a).2.
Proof.
  intros Hr. unfold Append, spec_Append. cbn [fst snd].
  destruct (pendingUpd l !! id) as [u|] eqn:Eu.
  { destruct (repr_early _ _ _ _ Hr Eu) as (s & h & -> & Ea). rewrite Ea. cbn [first_hash uhash mbind outcome_bind useqnum].
    eexists. split; [done|]. rewrite (spec_arrive_early _ _ _ _ _ Ea). by apply repr_update, repr_drop_early. }
  rewrite (repr_no_early _ _ _ Hr Eu). unfold spec_arrive. rewrite (repr_no_early _ _ _ Hr Eu).
  destruct (nodes l !! id) as [n|] eqn:En.
  { assert (id ∈ a_pending a) as Hin by (apply (r_nodes _ _ Hr); by eexists).
    rewrite !decide_True, (r_proposal _ _ Hr), En by done. by eexists. }
  assert (id ∉ a_pending a) as Hni by (intros [n Hn]%(r_nodes _ _ Hr); congruence).
  rewrite !decide_False by done. destruct (pathHash_spec l a Hr) as (l1 & -> & Hr1 & Hd1 & En1 & Eh1).
  cbn [mbind outcome_bind]. cbv zeta.
  assert (match pendingHead l1 with None => hash (syncedHash l1) id | Some _ => hash (lhash l1) id end = hash (path_digest a) id) as ->.
  { rewrite (r_head _ _ Hr1), (r_syncedHash _ _ Hr1), (r_hash _ _ Hr1 Hd1). unfold path_digest.
    by destruct (a_pending a). }
  eexists. split; [done|].
  pose proof (repr_link l1 a id (hash (path_digest a) id) false (hash (path_digest a) id) Hr1 Hni
    (repr_no_early _ _ _ Hr Eu) ltac:(by rewrite foldl_snoc)) as Hgoal.
  enough (link id l1 <| lhash := hash (path_digest a) id |> <| dirty := false |> = link id l1 <| lhash := hash (path_digest a) id |>) as E
    by by rewrite E in Hgoal.
  assert (dirty (link id l1) = false) as Hd.
  { unfold link. cbv zeta. by destruct (pendingHead _). }
  unfold set, set_lhash, set_dirty. simpl. by rewrite Hd.
Qed.

(** [AppendDeferred] *)
Lemma repr_AppendDeferred l a id : repr l a →
  ∃ l', AppendDeferred id l = Done l' ∧ repr l' (spec_AppendDeferred id a).
Proof.
  intros Hr. unfold AppendDeferred, spec_AppendDeferred.
  destruct (pendingUpd l !! id) as [u|] eqn:Eu.
  { destruct (repr_early _ _ _ _ Hr Eu) as (s & h & -> & Ea). cbn [first_hash uhash mbind outcome_bind useqnum].
    eexists. split; [done|]. rewrite (spec_arrive_early _ _ _ _ _ Ea). by apply repr_update, repr_drop_early. }
  unfold spec_arrive. rewrite (repr_no_early _ _ _ Hr Eu).
  destruct (nodes l !! id) as [n|] eqn:En.
  { rewrite decide_True; [by eexists|]. apply (r_nodes _ _ Hr). by eexists. }
  assert (id ∉ a_pending a) as Hni by (intros [n Hn]%(r_nodes _ _ Hr); congruence).
  rewrite decide_False by done. eexists. split; [done|].
  pose proof (repr_link l a id zeroHash true (lhash (link id l)) Hr Hni (repr_no_early _ _ _ Hr Eu) ltac:(done)) as Hgoal.
  enough (at_node (Some id) (λ m, m <| proposalHash := zeroHash |>) (link id l <| lhash := lhash (link id l) |> <| dirty := true |>)
    = link id l <| dirty := true |>) as E by by rewrite E in Hgoal.
  pose proof (link_nodes l a id Hr En) as Enl. unfold at_node. unfold set, set_nodes, set_dirty, set_lhash. simpl.
  rewrite Enl. by rewrite alter_insert_eq.
Qed.

(** A command that arrives and is synced at once leaves no trace in the list. *)
Lemma spec_sync_fresh id s h d a :
  spec_sync id s h (a <| a_pending ::= (λ p, p ++ [id]) |> <| a_proposal ::= <[id := d]> |>) = spec_sync id s h a.
Proof.
  unfold spec_sync. cbv zeta. simpl. destruct a as [b sy sh p pr ea].
  assert (filter (λ x, x ≠ id) (p ++ [id]) = filter (λ x, x ≠ id) p) as E1.
  { rewrite filter_app, filter_cons, decide_False, filter_nil, app_nil_r by tauto. done. }
  assert (delete id (<[id := d]> pr) = delete id pr) as E2 by apply delete_insert_eq.
  unfold set, set_a_pending, set_a_proposal, set_a_synced, set_a_syncedHash. simpl. by rewrite E1, E2.
Qed.

(** [AppendAndUpdate] *)
Lemma repr_AppendAndUpdate l a id s h : repr l a →
  ∃ l', AppendAndUpdate id s h l = Done l' ∧ repr l' (spec_Update id s h (spec_Append id a).2).
Proof.
  intros Hr. unfold AppendAndUpdate, spec_Append. cbn [snd].
  destruct (pendingUpd l !! id) as [u|] eqn:Eu.
  { destruct (repr_early _ _ _ _ Hr Eu) as (s0 & h0 & -> & Ea). cbn [first_hash uhash mbind outcome_bind useqnum].
    eexists. split; [done|]. rewrite (spec_arrive_early _ _ _ _ _ Ea).
    apply repr_Update. by apply repr_update, repr_drop_early. }
  eexists. split; [done|]. unfold spec_arrive. rewrite (repr_no_early _ _ _ Hr Eu).
  destruct (decide (id ∈ a_pending a)) as [Hin|Hni].
  - unfold spec_Update. rewrite decide_True by done. by apply repr_update.
  - unfold spec_Update. rewrite decide_True by (simpl; apply elem_of_app; right; by left).
    rewrite spec_sync_fresh. by apply repr_update.
Qed.

(** [BeginBallot] *)
Lemma repr_BeginBallot l a b : repr l a →
  ∃ l', BeginBallot b l = Done ((spec_BeginBallot b a).1, l') ∧ repr l' (spec_BeginBallot b a).2.
Proof.
  intros Hr. unfold BeginBallot, spec_BeginBallot. rewrite (r_ballot _ _ Hr).
  destruct (b <=? a_ballot a); [by eexists|].
  destruct (pathHash_spec l a Hr) as (l1 & -> & Hr1 & _ & En & _). cbn [mbind outcome_bind fst snd].
  eexists. rewrite (repr_size l1 a Hr1). split; [done|].
  split; try done; [constructor| |by left]. intros x. simpl. rewrite lookup_empty, elem_of_nil.
  split; [by intros [? ?]|done].
Qed.

(** ** Properties *)

(** The operations of a log, and of the abstract log, with what they return. *)
Inductive op :=
  | OAppend (id : RequestID)
  | OAppendDeferred (id : RequestID)
  | OUpdate (id : RequestID) (s : Z) (h : bytes)
  | OAppendAndUpdate (id : RequestID) (s : Z) (h : bytes)
  | OBeginBallot (b : Z).

Definition perform (o : op) (l : HashLog) : outcome ((bytes + Z) * HashLog) :=
  match o with
  | OAppend id => '(h, l) ← Append id l; Done (inl h, l)
  | OAppendDeferred id => l ← AppendDeferred id l; Done (inr 0, l)
  | OUpdate id s h => Done (inr 0, Update id s h l)
  | OAppendAndUpdate id s h => l ← AppendAndUpdate id s h l; Done (inr 0, l)
  | OBeginBallot b => '(count, l) ← BeginBallot b l; Done (inr count, l)
  end.

Definition spec_perform (o : op) (a : abslog) : (bytes + Z) * abslog :=
  match o with
  | OAppend id => let '(h, a) := spec_Append id a in (inl h, a)
  | OAppendDeferred id => (inr 0, spec_AppendDeferred id a)
  | OUpdate id s h => (inr 0, spec_Update id s h a)
  | OAppendAndUpdate id s h => (inr 0, spec_Update id s h (spec_Append id a).2)
  | OBeginBallot b => let '(count, a) := spec_BeginBallot b a in (inr count, a)
  end.

Lemma repr_perform o l a : repr l a →
  ∃ l', perform o l = Done ((spec_perform o a).1, l') ∧ repr l' (spec_perform o a).2.
Proof.
  intros Hr. destruct o as [id|id|id s h|id s h|b]; unfold perform, spec_perform.
  - destruct (repr_Append l a id Hr) as (l' & -> & Hr'). destruct (spec_Append id a). by eexists.
  - destruct (repr_AppendDeferred l a id Hr) as (l' & -> & Hr'). by eexists.
  - eexists. split; [done|]. by apply repr_Update.
  - destruct (repr_AppendAndUpdate l a id s h Hr) as (l' & -> & Hr'). by eexists.
  - destruct (repr_BeginBallot l a b Hr) as (l' & -> & Hr'). destruct (spec_BeginBallot b a). by eexists.
Qed.

(** A sequence of operations, with the results returned. *)
Fixpoint perform_all (os : list op) (l : HashLog) : outcome (list (bytes + Z) * HashLog) :=
  match os with
  | [] => Done ([], l)
  | o :: os => '(r, l) ← perform o l; '(rs, l) ← perform_all os l; Done (r :: rs, l)
  end.
Fixpoint spec_all (os : list op) (a : abslog) : list (bytes + Z) * abslog :=
  match os with
  | [] => ([], a)
  | o :: os => let '(r, a) := spec_perform o a in let '(rs, a) := spec_all os a in (r :: rs, a)
  end.

(** C36.  The hash log refines the abstract log: any sequence of operations on a
    new log succeeds, returns what the operations of the abstract log return,
    and leaves a list that represents the abstract one: doubly linked in its
    order, with its head and tail, every linked node registered, and a digest
    that is, unless marked stale, the digest of the synced history followed by
    the pending commands.  In particular [AppendAndUpdate] has the effect of
    [Append] followed by [Update]. *)
Theorem hash_log_refines os :
  ∃ l, perform_all os NewHashLog = Done ((spec_all os a_empty).1, l) ∧ repr l (spec_all os a_empty).2.
Proof.
  assert (∀ os l a, repr l a → ∃ l', perform_all os l = Done ((spec_all os a).1, l') ∧ repr l' (spec_all os a).2) as Hall.
  { clear os. intros os. induction os as [|o os IH]; intros l a Hr; [by exists l|]. cbn [perform_all spec_all].
    destruct (repr_perform o l a Hr) as (l1 & -> & Hr1). cbn [mbind outcome_bind].
    destruct (spec_perform o a) as [r a1]. cbn [fst snd] in *. destruct (IH l1 a1 Hr1) as (l2 & -> & Hr2).
    cbn [mbind outcome_bind]. destruct (spec_all os a1). by eexists. }
  apply Hall, repr_New.
Qed.

(** Distinct extensions are hashed from distinct inputs: the 40 bytes that
    [hash] digests determine the previous digest and the identity, for 32-byte
    digests and [int32] identities. *)
Lemma hash_input_injective h h' id id' :
  length h = 32%nat → length h' = 32%nat →
  (∀ i, i = id ∨ i = id' → - 2 ^ 31 ≤ Client i < 2 ^ 31 ∧ - 2 ^ 31 ≤ Sequence i < 2 ^ 31) →
  hash_input h id = hash_input h' id' → h = h' ∧ id = id'.
Proof.
  intros Hl Hl' Hids E. unfold hash_input in E.
  apply app_inj_1 in E as [-> E]; [|congruence].
  apply app_inj_1 in E as [E1 E2]; [|by rewrite !le_encode_length]. split; [done|].
  assert (∀ a b, - 2 ^ 31 ≤ a < 2 ^ 31 → - 2 ^ 31 ≤ b < 2 ^ 31 → le_encode 4 (u32 a) = le_encode 4 (u32 b) → a = b) as Hinj.
  { intros a b Ha Hb E. apply (f_equal le_decode) in E.
    rewrite !le_decode_encode in E by (apply (wrapU_bound 32); lia).
    rewrite <- (wrapS_id 32 a), <- (wrapS_id 32 b), <- (wrapS_wrapU 32 a), <- (wrapS_wrapU 32 b) by lia. by rewrite E. }
  destruct (Hids id), (Hids id'); auto. destruct id, id'. simpl in *. f_equal; by apply Hinj.
Qed.

Lemma hash_input_injective_witness :
  hash_input zeroHash (mkRequestID (-1) 7) = hash_input zeroHash (mkRequestID (-1) 7) ∧
  zeroHash = zeroHash ∧ mkRequestID (-1) 7 = mkRequestID (-1) 7.
Proof.
  split; [done|]. apply (hash_input_injective zeroHash zeroHash (mkRequestID (-1) 7) (mkRequestID (-1) 7));
    [done..| |done]. intros i [->| ->]; simpl; lia.
Defined.
End HashLog.

(** [SHashesEq]: as many digests, each of the first among the second. *)
Definition SHashesEq (hs1 hs2 : list bytes) : bool :=
  if negb (length hs1 =? length hs2)%nat then false
  else forallb (λ h, existsb (λ g, bool_decide (h = g)) hs2) hs1.

(** On digests without repetitions [SHashesEq] decides equality up to
    order. *)
Lemma SHashesEq_permutation hs1 hs2 : NoDup hs1 → SHashesEq hs1 hs2 = true ↔ hs1 ≡ₚ hs2.
Proof.
  intros Hnd. unfold SHashesEq. destruct (decide (length hs1 = length hs2)) as [Hl|Hl].
  2: { rewrite (proj2 (Nat.eqb_neq _ _)) by done. split; [done|]. by intros ?%Permutation_length. }
  rewrite Hl, Nat.eqb_refl. cbn [negb]. rewrite forallb_forall.
  assert (∀ h, existsb (λ g, bool_decide (h = g)) hs2 = true ↔ h ∈ hs2) as Hin.
  { intros h. rewrite existsb_exists. split.
    - by intros (g & Hg%list_elem_of_In & ->%bool_decide_eq_true).
    - intros Hh. exists h. split; [by apply list_elem_of_In|by apply bool_decide_eq_true]. }
  setoid_rewrite Hin. split.
  - intros Hsub. apply submseteq_length_Permutation; [|lia].
    apply NoDup_submseteq; [done|]. intros x Hx. by apply Hsub, list_elem_of_In.
  - intros HP x Hx%list_elem_of_In. by rewrite <- HP.
Qed.

Lemma SHashesEq_permutation_witness :
  SHashesEq [[1]; [2]] [[2]; [1]] = true ∧ NoDup [[1]; [2]] ∧ [[1]; [2]] ≡ₚ [[2]; [1]].
Proof.
  assert (NoDup [[1]; [2]]) as Hd by (apply (bool_decide_unpack _); vm_compute; done).
  assert (SHashesEq [[1]; [2]] [[2]; [1]] = true) as He by (vm_compute; reflexivity).
  split; [exact He|]. split; [exact Hd|]. apply (SHashesEq_permutation [[1]; [2]] [[2]; [1]] Hd). exact He.
Defined.
End SwiftHashLog.
