(* ===== verification/SwiftSets.v ===== *)
(** * SwiftSets: message sets and dependency lists of Swift

    [swift/mset.go] ([acks_match_leader]) and the dependency lists of
    [swift/defs.go] ([Equals_permutation], [Equals_repetitions]).  The values a
    set holds are a type parameter [M] with the callback [accept]; the calls of
    [freeMsg] and of [handler] are traced in the state. *)
From stdpp Require Import gmap strings list fin_maps fin_sets.
From Stdlib Require Import Lia.
From S2P Require Import Prelude State Defs.

Module SwiftSets.

(** ** Message sets ([mset.go]) *)
Record QuorumI := mkQuorum { QSize : Z; QContains : Z → bool }.

Section MsgSet.
Context {M : Type}.

Record MsgSet := mkMsgSet {
  q : QuorumI;
  msgs : gmap Z M;
  leaderMsg : option M;
  freed : list M;                       (* the calls of [freeMsg] *)
  handled : list (option M * list M) }. (* the calls of [handler] *)
#[export] Instance eta_MsgSet : Eta MsgSet := λ s, mkMsgSet (q s) (msgs s) (leaderMsg s) (freed s) (handled s).
#[export] Instance set_q : Setter q := ltac:(mk_setter).
#[export] Instance set_msgs : Setter msgs := ltac:(mk_setter).
#[export] Instance set_leaderMsg : Setter leaderMsg := ltac:(mk_setter).
#[export] Instance set_freed : Setter freed := ltac:(mk_setter).
#[export] Instance set_handled : Setter handled := ltac:(mk_setter).

(** The callback [accept], whose second argument may be nil. *)
Variable accept : M → option M → bool.

Definition NewMsgSet (q : QuorumI) : MsgSet := mkMsgSet q ∅ None [] [].

(** [ReinitMsgSet] of an existing set; its traces belong to the new callbacks. *)
Definition ReinitMsgSet (q : QuorumI) (ms : option MsgSet) : MsgSet :=
  match ms with
  | None => NewMsgSet q
  | Some ms => mkMsgSet q (filter (λ _, False) (msgs ms)) None [] []
  end.

Definition free (m : M) (ms : MsgSet) : MsgSet := ms <| freed ::= (λ l, l ++ [m]) |>.

(** The messages that match the leader's are kept, the others freed. *)
Definition keep_matching (lm : M) (l : list (Z * M)) (ms : MsgSet) : MsgSet :=
  foldl (λ ms '(rep, m), if accept m (Some lm) then ms <| msgs ::= <[rep := m]> |> else free m ms)
    (ms <| msgs := ∅ |>) l.

(** [ord] and [ord'] are the orders of the two loops over [ms.msgs]. *)
Definition Add (ord ord' : list Z) (repID : Z) (isLeader : bool) (msg : M) (ms : MsgSet) : bool * MsgSet :=
  if negb (QContains (q ms) repID) then (false, ms)
  else if bool_decide (is_Some (leaderMsg ms) ∧ is_Some (msgs ms !! repID)) then (false, ms)
  else
    let '(added, ms) :=
      if isLeader then
        (true, keep_matching msg (range_order ord (msgs ms)) (ms <| leaderMsg := Some msg |>))
      else if accept msg (leaderMsg ms) then (true, ms <| msgs ::= <[repID := msg]> |>)
      else (false, free msg ms) in
    let n := Z.of_nat (size (msgs ms)) in
    let ms := if (QSize (q ms) <=? n) || ((QSize (q ms) - 1 <=? n) && bool_decide (is_Some (leaderMsg ms)))
              then ms <| handled ::= (λ l, l ++ [(leaderMsg ms, (range_order ord' (msgs ms)).*2)]) |>
              else ms in
    (added, ms).

Definition Free (ord : list Z) (ms : MsgSet) : MsgSet :=
  let ms' := match leaderMsg ms with Some m => free m ms | None => ms end in
  foldl (λ ms m, free m ms) ms' (range_order ord (msgs ms)).*2.

(** *** Matching *)

(** The messages [m] of members of the quorum all match the leader's [lm]. *)
Definition matching (qi : QuorumI) (lm : option M) (m : gmap Z M) : Prop :=
  ∀ rep x, m !! rep = Some x → QContains qi rep = true ∧ accept x lm = true.

(** A call of the handler has a quorum of matching messages; one of them is the
    leader's, unless the leader is still unknown. *)
Definition quorum_matched (qi : QuorumI) (call : option M * list M) : Prop :=
  ∃ m : gmap Z M, call.2 ≡ₚ (map_to_list m).*2 ∧ matching qi call.1 m ∧
    QSize qi ≤ Z.of_nat (size m) + (if call.1 then 1 else 0).

Record mset_ok (qi : QuorumI) (ms : MsgSet) : Prop := mkMsetOk {
  ok_q : q ms = qi;
  ok_matching : matching qi (leaderMsg ms) (msgs ms);
  ok_handled : ∀ call, call ∈ handled ms → quorum_matched qi call;
}.

Lemma keep_matching_spec qi lm l ms :
  (∀ rep m, (rep, m) ∈ l → QContains qi rep = true) →
  let ms' := keep_matching lm l ms in
  q ms' = q ms ∧ leaderMsg ms' = leaderMsg ms ∧ handled ms' = handled ms ∧ matching qi (Some lm) (msgs ms').
Proof.
  intros Hl. unfold keep_matching. cbv zeta.
  set (I := λ ms' : MsgSet, q ms' = q ms ∧ leaderMsg ms' = leaderMsg ms ∧ handled ms' = handled ms ∧
    matching qi (Some lm) (msgs ms')).
  apply (foldl_ind_in _ I); [by unfold I|].
  intros ms' [rep m] Hin (Hq & Hlm & Hh & Hm). unfold I. destruct (accept m (Some lm)) eqn:Ha; [|done].
  split_and!; [done..|]. intros r x. cbn. rewrite lookup_insert_Some. intros [[<- <-]|[_ Hx]]; [|by apply Hm].
  split; [by eapply Hl|done].
Qed.

Lemma mset_ok_call qi ms ord :
  mset_ok qi ms →
  (QSize (q ms) <=? Z.of_nat (size (msgs ms))) ||
    ((QSize (q ms) - 1 <=? Z.of_nat (size (msgs ms))) && bool_decide (is_Some (leaderMsg ms))) = true →
  mset_ok qi (ms <| handled ::= (λ l, l ++ [(leaderMsg ms, (range_order ord (msgs ms)).*2)]) |>).
Proof.
  intros [Hq Hm Hh] Hn. split; [done..|]. cbn. intros call [Hc|Hc]%elem_of_app; [by apply Hh|].
  apply list_elem_of_singleton in Hc as ->. exists (msgs ms). split_and!; [by rewrite range_order_perm|done|].
  rewrite Hq in Hn. cbn [fst]. destruct (leaderMsg ms); cbn in Hn; [|rewrite andb_false_r in Hn];
    apply orb_prop in Hn as [Hn|Hn]; rewrite ?andb_true_r in Hn; lia.
Qed.

Lemma Add_ok qi ord ord' rep isLeader m ms : mset_ok qi ms → mset_ok qi (Add ord ord' rep isLeader m ms).2.
Proof.
  intros Hok. unfold Add. destruct (QContains (q ms) rep) eqn:Hc; [|done]. cbn [negb].
  case_bool_decide as Hs; [done|].
  match goal with |- context [let '(_, _) := ?e in _] => set (next := e) end.
  assert (mset_ok qi next.2) as Hnext.
  { destruct Hok as [Hq Hm Hh]. subst next. destruct isLeader.
    - cbn [snd]. destruct (keep_matching_spec qi m (range_order ord (msgs ms)) (ms <| leaderMsg := Some m |>))
        as (E1 & E2 & E3 & E4).
      { intros r x Hx%elem_of_range_order. by eapply Hm. }
      split; [by rewrite E1|by rewrite E2|by rewrite E3].
    - destruct (accept m (leaderMsg ms)) eqn:Ha; [|done]. split; [done| |done]. cbn.
      intros r x. rewrite lookup_insert_Some. intros [[<- <-]|[_ Hx]]; [|by apply Hm]. by rewrite <- Hq. }
  destruct next as [added ms']. cbn [snd] in *.
  match goal with |- context [if ?b then _ else _] => destruct b eqn:Hn end; [by apply mset_ok_call|done].
Qed.

(** The calls of [Add] on a set. *)
Definition AddAll (qi : QuorumI) (calls : list (list Z * list Z * Z * bool * M)) : MsgSet :=
  foldl (λ ms '(ord, ord', rep, isLeader, m), (Add ord ord' rep isLeader m ms).2) (NewMsgSet qi) calls.

Lemma AddAll_ok qi calls : mset_ok qi (AddAll qi calls).
Proof.
  unfold AddAll. apply foldl_ind; [by split; [done|intros ? ?|intros ? ?%not_elem_of_nil]|].
  intros ms [[[[ord ord'] rep] isLeader] m]. apply Add_ok.
Qed.

(** Whatever messages arrive and in whatever order the maps are ranged
    over, every call of the handler passes messages of pairwise distinct members
    of the quorum that all match the leader's message, and, with the leader's,
    as many as the quorum has members. *)
Theorem acks_match_leader qi calls call : call ∈ handled (AddAll qi calls) → quorum_matched qi call.
Proof. apply AddAll_ok. Qed.
End MsgSet.

(** Three members, messages that must equal the leader's 7: replica 2's 8 is
    dropped when the leader's message arrives, and replica 1's 7 completes. *)
Definition match_demo (m : Z) (lm : option Z) : bool := match lm with None => true | Some l => m =? l end.
Definition quorum_demo : QuorumI := mkQuorum 3 (λ r, (0 <=? r) && (r <? 4)).
Definition calls_demo : list (list Z * list Z * Z * bool * Z) :=
  [([], [], 2, false, 8); ([], [], 3, false, 7); ([], [], 9, false, 7); ([], [], 0, true, 7); ([], [], 1, false, 7)].

Lemma acks_match_leader_witness :
  handled (AddAll match_demo quorum_demo calls_demo) = [(Some 7, [7; 7])] ∧
  freed (AddAll match_demo quorum_demo calls_demo) = [8] ∧
  quorum_matched match_demo quorum_demo (Some 7, [7; 7]).
Proof.
  split; [vm_compute; reflexivity|]. split; [vm_compute; reflexivity|].
  apply (acks_match_leader match_demo quorum_demo calls_demo).
  replace (handled _) with [(Some 7, [7; 7])] by (vm_compute; reflexivity). apply list_elem_of_here.
Defined.

(** ** Dependencies ([defs.go]) *)
Abbreviation Dep := (list RequestID).

Definition Contains (d : Dep) (cmdID : RequestID) : bool := existsb (λ c, bool_decide (c = cmdID)) d.
Definition NilDepOfCmdID (cmdID : RequestID) : Dep := [cmdID].
Definition IsNilDepOfCmdID (cmdID : RequestID) (dep : Dep) : bool :=
  match dep with [c] => bool_decide (c = cmdID) | _ => false end.

(** [seen1] and [seen2] toggle on the elements in which the lists differ. *)
Definition see (seen seen' : gset RequestID) (c : RequestID) : gset RequestID * gset RequestID :=
  if bool_decide (c ∈ seen') then (seen, seen' ∖ {[c]}) else (seen ∪ {[c]}, seen').

Fixpoint equals_loop (d dep2 : Dep) (seen1 seen2 : gset RequestID) : gset RequestID * gset RequestID :=
  match d, dep2 with
  | a :: d, b :: dep2 =>
      if bool_decide (a = b) then equals_loop d dep2 seen1 seen2
      else let '(seen1, seen2) := see seen1 seen2 a in
           let '(seen2, seen1) := see seen2 seen1 b in
           equals_loop d dep2 seen1 seen2
  | _, _ => (seen1, seen2)
  end.

Definition Equals (d dep2 : Dep) : bool :=
  if negb (length d =? length dep2)%nat then false
  else let '(seen1, seen2) := equals_loop d dep2 ∅ ∅ in (size seen1 =? size seen2)%nat && (size seen1 =? 0)%nat.

Lemma dep_Contains_spec d c : Contains d c = true ↔ c ∈ d.
Proof.
  unfold Contains. rewrite existsb_exists. split.
  - intros (x & Hx%list_elem_of_In & ->%bool_decide_eq_true). done.
  - intros Hc. exists c. split; [by apply list_elem_of_In|by apply bool_decide_eq_true].
Qed.

Lemma see_diff (T1 T2 : gset RequestID) a :
  a ∉ T1 → see (T1 ∖ T2) (T2 ∖ T1) a = (({[a]} ∪ T1) ∖ T2, T2 ∖ ({[a]} ∪ T1)).
Proof. intros Ha. unfold see. case_bool_decide; f_equal; set_solver. Qed.

(** After a prefix of both lists the sets are the two differences of the
    prefixes' elements. *)
Lemma equals_loop_spec d dep2 T1 T2 :
  length d = length dep2 → NoDup d → NoDup dep2 → T1 ## list_to_set d → T2 ## list_to_set dep2 →
  equals_loop d dep2 (T1 ∖ T2) (T2 ∖ T1) =
    ((list_to_set d ∪ T1) ∖ (list_to_set dep2 ∪ T2), (list_to_set dep2 ∪ T2) ∖ (list_to_set d ∪ T1)).
Proof.
  revert dep2 T1 T2. induction d as [|a d IH]; intros [|b dep2] T1 T2 Hlen Hd Hd2 H1 H2; try done.
  { cbn. by rewrite !(left_id_L ∅ (∪)). }
  apply NoDup_cons in Hd as [Ha Hd]. apply NoDup_cons in Hd2 as [Hb Hd2]. cbn [equals_loop list_to_set foldr].
  injection Hlen as Hlen. rewrite !list_to_set_cons in *.
  assert (a ∉ T1 ∧ b ∉ T2) as [HaT HbT] by set_solver.
  assert (∀ X Y : gset RequestID, X = (T1 ∪ {[a]}) ∖ (T2 ∪ {[b]}) → Y = (T2 ∪ {[b]}) ∖ (T1 ∪ {[a]}) →
    equals_loop d dep2 X Y = (({[a]} ∪ list_to_set d ∪ T1) ∖ ({[b]} ∪ list_to_set dep2 ∪ T2),
      ({[b]} ∪ list_to_set dep2 ∪ T2) ∖ ({[a]} ∪ list_to_set d ∪ T1))) as Hgo.
  { intros ? ? -> ->. rewrite IH; [|done..| |].
    - f_equal; f_equal; set_solver.
    - apply elem_of_disjoint. intros x Hx Hxd. apply elem_of_list_to_set in Hxd. set_solver.
    - apply elem_of_disjoint. intros x Hx Hxd. apply elem_of_list_to_set in Hxd. set_solver. }
  case_bool_decide as Hab; [subst b; apply Hgo; set_solver|].
  rewrite see_diff by done. rewrite see_diff by set_solver. apply Hgo; set_solver.
Qed.

(** On dependency lists without repetitions [Equals] decides equality up to
    order. *)
Theorem Equals_permutation d dep2 : NoDup d → NoDup dep2 → Equals d dep2 = true ↔ d ≡ₚ dep2.
Proof.
  intros Hd Hd2. unfold Equals. destruct (decide (length d = length dep2)) as [Hl|Hl].
  2: { rewrite (proj2 (Nat.eqb_neq _ _)) by done. split; [done|]. by intros ?%Permutation_length. }
  rewrite Hl, Nat.eqb_refl. cbn [negb].
  pose proof (equals_loop_spec d dep2 ∅ ∅ Hl Hd Hd2) as HE. rewrite difference_empty_L in HE.
  rewrite HE by set_solver. clear HE. rewrite !(right_id_L ∅ (∪)).
  rewrite andb_true_iff, !Nat.eqb_eq, !size_empty_iff. split.
  - intros [H1 H2]. rewrite H2 in H1. symmetry in H1. rewrite size_empty_iff in H1.
    apply NoDup_Permutation; [done..|]. intros x.
    rewrite <- (elem_of_list_to_set (C:=gset RequestID) x d), <- (elem_of_list_to_set (C:=gset RequestID) x dep2).
    destruct (decide (x ∈@{gset RequestID} list_to_set d)), (decide (x ∈@{gset RequestID} list_to_set dep2));
      [done|set_solver|set_solver|done].
  - intros HP. assert (list_to_set (C:=gset RequestID) d = list_to_set dep2) as -> by (apply list_to_set_perm_L; done).
    split; [done|set_solver].
Qed.

Lemma Equals_permutation_witness :
  NoDup [mkRequestID 1 1; mkRequestID 1 2; mkRequestID 2 1] ∧
  Equals [mkRequestID 1 1; mkRequestID 1 2; mkRequestID 2 1] [mkRequestID 2 1; mkRequestID 1 1; mkRequestID 1 2] = true ∧
  [mkRequestID 1 1; mkRequestID 1 2; mkRequestID 2 1] ≡ₚ [mkRequestID 2 1; mkRequestID 1 1; mkRequestID 1 2].
Proof.
  assert (NoDup [mkRequestID 1 1; mkRequestID 1 2; mkRequestID 2 1]) as Hd by (apply (bool_decide_unpack _); vm_compute; done).
  assert (Equals [mkRequestID 1 1; mkRequestID 1 2; mkRequestID 2 1] [mkRequestID 2 1; mkRequestID 1 1; mkRequestID 1 2] = true) as He
    by (vm_compute; reflexivity).
  split; [exact Hd|]. split; [exact He|].
  apply (Equals_permutation [mkRequestID 1 1; mkRequestID 1 2; mkRequestID 2 1] [mkRequestID 2 1; mkRequestID 1 1; mkRequestID 1 2]);
    [exact Hd| |exact He]. apply (bool_decide_unpack _); vm_compute; done.
Defined.

(** With repetitions it does not: [[a; a; b]] and [[b; b; a]] compare equal. *)
Lemma Equals_repetitions a b : a ≠ b → Equals [a; a; b] [b; b; a] = true.
Proof.
  intros Hab. unfold Equals. cbn [length Nat.eqb negb equals_loop].
  rewrite !(bool_decide_eq_false_2 (a = b)) by done. rewrite (bool_decide_eq_false_2 (b = a)) by done.
  unfold see. repeat first
    [ rewrite (bool_decide_eq_false_2 (_ ∈ _)) by set_solver
    | rewrite (bool_decide_eq_true_2 (_ ∈ _)) by set_solver ].
  rewrite andb_true_iff, !Nat.eqb_eq. rewrite !size_empty_iff.
  match goal with |- size ?X = size ?Y ∧ ?X ≡ ∅ =>
    assert (X ≡ ∅) as EX by set_solver; assert (Y ≡ ∅) as EY by set_solver end.
  by rewrite EX, EY.
Qed.
End SwiftSets.
