(* ===== verification/SwiftConflicts.v ===== *)
(** * SwiftConflicts: the conflict information Swift keeps per key

    [swift/conflicts.go]: the keys of a command ([keysOf], [scan_keys_conflicts])
    and the two-element summary from which a key's dependencies are taken
    ([lightKeyInfo], [writes_reachable]). *)
From stdpp Require Import gmap strings list fin_maps fin_sets relations.
From Stdlib Require Import Lia.
From S2P Require Import Prelude State Defs SwiftSets.

Module SwiftConflicts.
Import SwiftSets.

(** ** The keys of a command *)
Section keysOf.
(** The allocator's limit in bytes, beyond which [make] panics. *)
Variable maxAlloc : Z.

(** [cmd.K + state.Key(i)] in [int64] *)
Definition keysOf (cmd : Command) : outcome (list Z) :=
  if Op cmd =? SCAN then
    count ← Uint64 (V cmd);
    if maxAlloc <? 8 * count then Panicked "makeslice: len out of range"
    else Done (map (λ i, i64 (K cmd + i64 i)) (seqZ 0 count))
  else Done [K cmd].

(** A scan that does not wrap around [int64]. *)
Definition scan_fits (c : Command) (count : Z) : Prop :=
  Op c = SCAN ∧ Uint64 (V c) = Done count ∧ 8 * count ≤ maxAlloc ∧
  - 2 ^ 63 ≤ K c ∧ 0 ≤ count < 2 ^ 63 ∧ K c + count < 2 ^ 63.

Lemma keysOf_scan c count : scan_fits c count → keysOf c = Done (map (λ i, K c + i) (seqZ 0 count)).
Proof.
  intros (Ho & Hc & Hm & Hk & Hb & Hs). unfold keysOf. rewrite Ho, Hc, Z.eqb_refl. cbn [mbind outcome_bind].
  rewrite (proj2 (Z.ltb_ge _ _)) by lia. f_equal. apply map_ext_in. intros i Hi%list_elem_of_In%elem_of_seqZ.
  rewrite !(wrapS_id 64) by (rewrite ?(wrapS_id 64); lia). done.
Qed.

Lemma Conflict_scan_put c count k v :
  scan_fits c count → Conflict c (mkCommand PUT k v) = Done (in_range (K c) (K c + count) k).
Proof.
  intros (Ho & Hc & Hm & Hk & Hb & Hs). unfold Conflict, scan_end. rewrite Ho, Hc. cbn.
  rewrite !(wrapS_id 64) by (rewrite ?(wrapS_id 64); lia). by rewrite andb_true_r.
Qed.

(** The keys under which a scan is ordered are all those whose writes
    conflict with it but the last: a write to key [K + count] conflicts with the
    scan (and changes what it reads, [state.Execute] ranges over [K + count]
    inclusive) and shares no key with it. *)
Theorem scan_keys_conflicts c count ks k v :
  scan_fits c count → keysOf c = Done ks →
  (Conflict c (mkCommand PUT k v) = Done true ↔ k ∈ ks ∨ k = K c + count) ∧ K c + count ∉ ks.
Proof.
  intros Hf. rewrite (keysOf_scan c count Hf). intros [= <-].
  assert (∀ x, x ∈ map (λ i, K c + i) (seqZ 0 count) ↔ K c ≤ x < K c + count) as Hks.
  { intros x. rewrite list_elem_of_fmap. split.
    - intros (i & -> & Hi%elem_of_seqZ). lia.
    - intros Hx. exists (x - K c). rewrite elem_of_seqZ. lia. }
  rewrite !Hks. split; [|lia]. assert (0 ≤ count) as Hb by (destruct Hf as (_ & _ & _ & _ & Hb & _); lia).
  rewrite (Conflict_scan_put c count) by done. unfold in_range. split.
  - intros [= Hr%andb_prop]. lia.
  - intros Hr. f_equal. lia.
Qed.
End keysOf.

Definition scan_5_2 : Command := mkCommand SCAN 5 [2; 0; 0; 0; 0; 0; 0; 0].

Lemma scan_keys_conflicts_witness :
  keysOf (2 ^ 48) scan_5_2 = Done [5; 6] ∧
  (Conflict scan_5_2 (mkCommand PUT 7 [1]) = Done true ↔ 7 ∈ [5; 6] ∨ 7 = 5 + 2) ∧ 5 + 2 ∉ [5; 6].
Proof.
  split; [vm_compute; reflexivity|].
  apply (scan_keys_conflicts (2 ^ 48) scan_5_2 2 [5; 6] 7 [1]); [|vm_compute; reflexivity].
  split; [reflexivity|]. split; [vm_compute; reflexivity|]. simpl. lia.
Defined.

(** ** The summary of a key *)
Record lightKeyInfo := mkLight { lastWrite : list RequestID; lastCmd : list RequestID }.
#[export] Instance eta_lightKeyInfo : Eta lightKeyInfo := λ s, mkLight (lastWrite s) (lastCmd s).
#[export] Instance set_lastWrite : Setter lastWrite := ltac:(mk_setter).
#[export] Instance set_lastCmd : Setter lastCmd := ltac:(mk_setter).

Definition newLightKeyInfo : lightKeyInfo := mkLight [] [].

Definition add (cmd : Command) (cmdID : RequestID) (ki : lightKeyInfo) : lightKeyInfo :=
  let ki := ki <| lastCmd := [cmdID] |> in
  if Op cmd =? PUT then ki <| lastWrite := [cmdID] |> else ki.

(** [len(l) > 0 && l[0] == cmdID] *)
Definition heads (l : list RequestID) (cmdID : RequestID) : bool :=
  match l with [] => false | c :: _ => bool_decide (c = cmdID) end.

Definition remove (cmdID : RequestID) (ki : lightKeyInfo) : lightKeyInfo :=
  let ki := if heads (lastCmd ki) cmdID then ki <| lastCmd := [] |> else ki in
  if heads (lastWrite ki) cmdID then ki <| lastWrite := [] |> else ki.

Definition getConflictCmds (cmd : Command) (ki : lightKeyInfo) : list RequestID :=
  if Op cmd =? GET then lastWrite ki else lastCmd ki.

(** ** The history of a key

    [getDepAndHashes] takes a command's dependencies on a key and then adds it,
    once per identity ([proposedInBallot]).  ([remove] has no caller.) *)
Record history := mkHistory {
  info : lightKeyInfo;
  recorded : gmap RequestID (Command * list RequestID) }.

Inductive kstep : history → history → Prop :=
  | KAdd cmd id h :
      recorded h !! id = None →
      kstep h (mkHistory (add cmd id (info h)) (<[id := (cmd, getConflictCmds cmd (info h))]> (recorded h))).

Definition start : history := mkHistory newLightKeyInfo ∅.
Definition reachable (h : history) : Prop := rtc kstep start h.

(** [d] was recorded with the dependency [e]. *)
Definition depends (h : history) (d e : RequestID) : Prop :=
  ∃ cmd deps, recorded h !! d = Some (cmd, deps) ∧ e ∈ deps.

(** [w] is a recorded write. *)
Definition written (h : history) (w : RequestID) : Prop :=
  ∃ cmd deps, recorded h !! w = Some (cmd, deps) ∧ Op cmd = PUT.

(** Every write is a dependency of [l], through recorded dependencies. *)
Definition covers (h : history) (l : list RequestID) : Prop :=
  ∀ w, written h w → ∃ d, d ∈ l ∧ rtc (depends h) d w.

Definition history_ok (h : history) : Prop := covers h (lastWrite (info h)) ∧ covers h (lastCmd (info h)).

Lemma covers_deps h cmd : history_ok h → covers h (getConflictCmds cmd (info h)).
Proof. intros []. unfold getConflictCmds. by destruct (Op cmd =? GET). Qed.

(** Once [id] is recorded with dependencies that cover the earlier writes, the
    list [[id]] covers them and [id]. *)
Lemma covers_add h cmd id :
  recorded h !! id = None → history_ok h →
  covers (mkHistory (add cmd id (info h)) (<[id := (cmd, getConflictCmds cmd (info h))]> (recorded h))) [id].
Proof.
  intros Hn Hok w (c & deps & Hw & Hp). cbn in Hw. exists id. split; [by left|].
  apply lookup_insert_Some in Hw as [[<- _]|[Hne Hw]]; [done|].
  destruct (covers_deps h cmd Hok w) as (d & Hd & Hr); [by exists c, deps|].
  apply rtc_l with d. { exists cmd, (getConflictCmds cmd (info h)). cbn. by rewrite lookup_insert_eq. }
  revert Hr. apply rtc_subrel. intros x y (cx & dx & Hx & Hy). exists cx, dx. split; [|done]. cbn.
  by rewrite lookup_insert_ne by congruence.
Qed.

Lemma covers_weaken h cmd id deps ki l :
  recorded h !! id = None → Op cmd ≠ PUT → covers h l →
  covers (mkHistory ki (<[id := (cmd, deps)]> (recorded h))) l.
Proof.
  intros Hn Hp Hc w (c & ds & Hw & Hpw). cbn in Hw.
  apply lookup_insert_Some in Hw as [[<- [= <- <-]]|[Hne Hw]]; [done|].
  destruct (Hc w) as (d & Hd & Hr); [by exists c, ds|]. exists d. split; [done|].
  revert Hr. apply rtc_subrel. intros x y (cx & dx & Hx & Hy). exists cx, dx. split; [|done]. cbn.
  by rewrite lookup_insert_ne by congruence.
Qed.

Lemma history_reachable_ok h : reachable h → history_ok h.
Proof.
  apply (rtc_ind_r history_ok). { split; by intros w (c & ds & Hw & _). }
  intros h1 h2 _ Hs Hok. destruct Hs as [cmd id h0 Hn]. pose proof (covers_add h0 cmd id Hn Hok) as Hc.
  unfold history_ok. cbn [info]. unfold add. destruct (Op cmd =? PUT) eqn:E; cbn; [done|]. split; [|done].
  apply covers_weaken; [done|by apply Z.eqb_neq|apply Hok].
Qed.

(** However many commands a key has seen, the one or two identities its
    summary holds are enough: every write recorded on the key is reached from a
    new command's dependencies through the recorded ones, so executing
    dependencies first executes every earlier write first. *)
Theorem writes_reachable h cmd w :
  reachable h → written h w → ∃ d, d ∈ getConflictCmds cmd (info h) ∧ rtc (depends h) d w.
Proof. intros Hr%history_reachable_ok. by apply covers_deps. Qed.

(** A write, two reads and a write: a third read reaches the first write through
    the second write, which depends on the second read only. *)
Definition history_demo : history :=
  let put := mkCommand PUT 0 [] in let get := mkCommand GET 0 [] in
  let step h cmd i := let id := mkRequestID 0 i in
    mkHistory (add cmd id (info h)) (<[id := (cmd, getConflictCmds cmd (info h))]> (recorded h)) in
  step (step (step (step start put 1) get 2) get 3) put 4.

Lemma writes_reachable_witness :
  reachable history_demo ∧ written history_demo (mkRequestID 0 1) ∧
  getConflictCmds (mkCommand GET 0 []) (info history_demo) = [mkRequestID 0 4] ∧
  ∃ d, d ∈ getConflictCmds (mkCommand GET 0 []) (info history_demo) ∧ rtc (depends history_demo) d (mkRequestID 0 1).
Proof.
  assert (reachable history_demo) as Hr.
  { unfold history_demo. do 4 (eapply rtc_r; [|apply KAdd; vm_compute; reflexivity]). apply rtc_refl. }
  assert (written history_demo (mkRequestID 0 1)) as Hw.
  { exists (mkCommand PUT 0 []), []. split; vm_compute; reflexivity. }
  split; [exact Hr|]. split; [exact Hw|]. split; [vm_compute; reflexivity|].
  exact (writes_reachable history_demo (mkCommand GET 0 []) (mkRequestID 0 1) Hr Hw).
Defined.

(** A read that is followed by another read is not reached from a later write:
    the two are ordered by neither's dependencies. *)
Lemma reads_unreachable :
  ¬ ∃ d, d ∈ getConflictCmds (mkCommand PUT 0 []) (info history_demo) ∧ rtc (depends history_demo) d (mkRequestID 0 2).
Proof.
  intros (d & Hd & Hr). assert (d = mkRequestID 0 4) as -> by (vm_compute in Hd; by apply list_elem_of_singleton).
  assert (∀ x, depends history_demo x (mkRequestID 0 2) → False) as Hno.
  { intros x (c & ds & Hx & Hy). unfold history_demo, start in Hx. cbn -[insert lookup] in Hx.
    repeat (rewrite lookup_insert_Some in Hx; destruct Hx as [[<- [= <- <-]]|[_ Hx]];
      [repeat (apply elem_of_cons in Hy as [Hy|Hy]; [discriminate|]); by apply not_elem_of_nil in Hy|]).
    by rewrite lookup_empty in Hx. }
  apply rtc_inv_r in Hr as [E|(y & _ & Hy)]; [discriminate|by eapply Hno].
Qed.
End SwiftConflicts.
