(* ===== verification/Swift.v ===== *)
(** * Swift: messages and state of a Swift replica ([swift/defs.go], [wire.go], [core.go], [events.go])

    The message types the core reads and writes, the descriptor of a command and
    the state [core].  A [Dep] is an option: [None] is nil, which the code tells
    from the empty list. *)
From stdpp Require Import gmap strings list fin_maps.
From Stdlib Require Import Lia.
From S2P Require Import Prelude State ReplicaSet Defs SwiftQuorum SwiftHashLog SwiftSets SwiftConflicts.

Module Swift.
Import SwiftSets.

(** ** Constants *)
Definition NORMAL : Z := 0.
Definition RECOVERING : Z := 1.

Definition START : Z := 0.
Definition PRE_ACCEPT : Z := 1.
Definition ACCEPT : Z := 2.
Definition COMMIT : Z := 3.

Definition HISTORY_SIZE : Z := 10010001.
Definition localWorkBudget : nat := 256.
Definition recoveryAckSeqnum : Z := -1.

Abbreviation SHash := bytes.

(** A nil [Dep] read as a list. *)
Definition ids (d : option Dep) : Dep := default [] d.

(** ** Messages *)
Record MFastAck := mkFastAck {
  FReplica : Z; FBallot : Z; FCmdId : RequestID; FDep : option Dep; FChecksum : list SHash; FSeqnum : Z }.
Record MLightSlowAck := mkLightSlowAck { SReplica : Z; SBallot : Z; SCmdId : RequestID }.
Record MFastAckClient := mkFastAckClient { CReplica : Z; CBallot : Z; CCmdId : RequestID; CChecksum : list SHash }.
Record MAcks := mkAcks { FastAcks : list MFastAck; LightSlowAcks : list MLightSlowAck }.
Record Ack := mkAck { ACmdId : RequestID; ADep : option Dep; AChecksum : list SHash; ASeqnum : Z }.
Record MOptAcks := mkOptAcks { OReplica : Z; OBallot : Z; Acks : list Ack }.
Record MReply := mkReply { RReplica : Z; RBallot : Z; RCmdId : RequestID; RChecksum : list SHash; RRep : Value }.
Record MAccept := mkAccept { AccReplica : Z; AccBallot : Z; AccCmdId : RequestID; AccRep : Value }.
Record MNewLeader := mkNewLeader { NReplica : Z; NBallot : Z }.
Record MNewLeaderAckN := mkNewLeaderAckN {
  NAReplica : Z; NABallot : Z; NACballot : Z;
  NACmdIds : list RequestID; NAPhases : list Z; NACmds : list Command; NADeps : list (option Dep) }.
Record MSync := mkSync {
  YReplica : Z; YBallot : Z;
  YPhases : list (RequestID * Z); YCmds : list (RequestID * Command); YDeps : list (RequestID * option Dep) }.

#[export] Instance eta_FastAck : Eta MFastAck := λ f,
  mkFastAck (FReplica f) (FBallot f) (FCmdId f) (FDep f) (FChecksum f) (FSeqnum f).
#[export] Instance set_FDep : Setter FDep := ltac:(mk_setter).
#[export] Instance eta_Ack : Eta Ack := λ a, mkAck (ACmdId a) (ADep a) (AChecksum a) (ASeqnum a).
#[export] Instance set_ADep : Setter ADep := ltac:(mk_setter).
#[export] Instance set_AChecksum : Setter AChecksum := ltac:(mk_setter).

(** [newRecoveryFastAck] *)
Definition newRecoveryFastAck (replica ballot : Z) (cmdID : RequestID) (dep : option Dep) : MFastAck :=
  mkFastAck replica ballot cmdID (Some (default (NilDepOfCmdID cmdID) dep)) [] recoveryAckSeqnum.

(** [MSync.recoveryIndex]: later entries replace earlier ones.  An absent map is
    an empty one. *)
Definition index_entries {A} (l : list (RequestID * A)) : gmap RequestID A := foldl (λ m e, <[e.1 := e.2]> m) ∅ l.
Definition recoveryIndex (m : MSync) : gmap RequestID Z * gmap RequestID Command * gmap RequestID (option Dep) :=
  (index_entries (YPhases m), index_entries (YCmds m), index_entries (YDeps m)).

(** [MSync.validateRecoveryEntries]: [true] for a nil error. *)
Fixpoint check_keys (seen : gset RequestID) (l : list RequestID) : bool :=
  match l with
  | [] => true
  | id :: l => negb (bool_decide (id ∈ seen)) && check_keys ({[id]} ∪ seen) l
  end.
Definition validateRecoveryEntries (m : MSync) : bool :=
  check_keys ∅ (YPhases m).*1 && check_keys ∅ (YCmds m).*1 && check_keys ∅ (YDeps m).*1.

(** The decoder replaces a nil list by an empty one ([wireproto.EmptySlice]). *)
Definition normal_dep (d : option Dep) : option Dep := Some (ids d).
Definition normal_fast (f : MFastAck) : MFastAck := f <| FDep ::= normal_dep |>.
Definition normal_ack (a : Ack) : Ack := a <| ADep ::= normal_dep |>.
Definition normal_acks (m : MAcks) : MAcks := mkAcks (map normal_fast (FastAcks m)) (LightSlowAcks m).
Definition normal_opt (m : MOptAcks) : MOptAcks := mkOptAcks (OReplica m) (OBallot m) (map normal_ack (Acks m)).
Definition normal_newLeaderAckN (m : MNewLeaderAckN) : MNewLeaderAckN :=
  mkNewLeaderAckN (NAReplica m) (NABallot m) (NACballot m) (NACmdIds m) (NAPhases m) (NACmds m) (map normal_dep (NADeps m)).
Definition normal_sync (m : MSync) : MSync :=
  mkSync (YReplica m) (YBallot m) (YPhases m) (YCmds m) (map (λ e, (e.1, normal_dep e.2)) (YDeps m)).

(** ** Proposals and descriptors *)

(** [proposal]; its runtime token is opaque to the core. *)
Record proposal := mkProposal { Proposed : Propose; Proxy : bool; Addr : string }.
Definition RequestID_of (p : proposal) : RequestID := ProposeRequestID (Proposed p).
Definition Command_of (p : proposal) : Command := PCommand (Proposed p).

(** [acceptFastAndSlowAck] *)
Definition acceptFastAndSlowAck (msg : MFastAck) (leaderMsg : option MFastAck) : bool :=
  match leaderMsg with
  | None => true
  | Some l => bool_decide (FDep msg = None) || Equals (ids (FDep l)) (ids (FDep msg))
  end.

(** [commandDesc].  Its field [defered] holds an empty function. *)
Record commandDesc := mkDesc {
  deferFast : bool; phase : Z; dcmd : Command; dep : option Dep; dhs : list SHash;
  propose : option proposal; proposeDep : option Dep;
  slowPathH : MsgSet (M:=MFastAck); fastPathH : MsgSet (M:=MFastAck);
  pendingLeaderAcks : list MFastAck;
  active : bool; slowPath : bool; dgeneration : Z;
  successors : list RequestID }.
#[export] Instance eta_desc : Eta commandDesc := λ d,
  mkDesc (deferFast d) (phase d) (dcmd d) (dep d) (dhs d) (propose d) (proposeDep d) (slowPathH d) (fastPathH d)
    (pendingLeaderAcks d) (active d) (slowPath d) (dgeneration d) (successors d).
#[export] Instance set_deferFast : Setter deferFast := ltac:(mk_setter).
#[export] Instance set_phase : Setter phase := ltac:(mk_setter).
#[export] Instance set_dcmd : Setter dcmd := ltac:(mk_setter).
#[export] Instance set_dep : Setter dep := ltac:(mk_setter).
#[export] Instance set_dhs : Setter dhs := ltac:(mk_setter).
#[export] Instance set_propose : Setter propose := ltac:(mk_setter).
#[export] Instance set_proposeDep : Setter proposeDep := ltac:(mk_setter).
#[export] Instance set_slowPathH : Setter slowPathH := ltac:(mk_setter).
#[export] Instance set_fastPathH : Setter fastPathH := ltac:(mk_setter).
#[export] Instance set_pendingLeaderAcks : Setter pendingLeaderAcks := ltac:(mk_setter).
#[export] Instance set_active : Setter active := ltac:(mk_setter).
#[export] Instance set_slowPath : Setter slowPath := ltac:(mk_setter).
#[export] Instance set_dgeneration : Setter dgeneration := ltac:(mk_setter).
#[export] Instance set_successors : Setter successors := ltac:(mk_setter).

Record commandStaticDesc := mkStatic {
  tcmdID : RequestID; tphase : Z; tcmd : Command; tdep : option Dep; tslowPath : bool }.

(** What a descriptor is handed: [handleMsg]'s argument. *)
Inductive message :=
  | Proposal (p : proposal)
  | DeferredProposal (p : proposal)
  | FastAck (m : MFastAck)
  | LightSlowAck (m : MLightSlowAck)
  | Deliver.

Record replyArgs := mkReplyArgs { rhs : list SHash; rval : Value; rcmdID : RequestID; rpropose : option proposal }.

(** [localWork]: a descriptor is named by its address. *)
Inductive localWork :=
  | descriptorWork (desc generation : Z) (cmdID : RequestID) (m : message)
  | replyWork (desc generation : Z) (cmdID : RequestID) (args : replyArgs)
  | retryWork (p : proposal).

Record leaderDecision := mkDecision { dLeader : Z; dNextLeader : Z; dRecover : bool; dBallot : Z }.

(** ** Output *)
Inductive client_message :=
  | CLightSlowAck (m : MLightSlowAck) | CAccept (m : MAccept) | CReply (m : MReply) | CFastAck (m : MFastAckClient).
Inductive peer_message :=
  | PNewLeader (m : MNewLeader) | PNewLeaderAckN (m : MNewLeaderAckN) | PSync (m : MSync)
  | PAcks (m : MAcks) | POptAcks (m : MOptAcks).

(** [batchOperation]: an acknowledgement handed to the batcher. *)
Inductive batchOperation :=
  | BFast (m : MFastAck) (sendToClient : bool)
  | BSlow (m : MLightSlowAck) (sendToClient : bool).

Inductive output :=
  | OSend (to : Z) (m : peer_message)
  | OBroadcast (m : peer_message)
  | OClient (client : Z) (m : client_message)
  | OBatch (op : batchOperation)
  | OExecute (cmdID : RequestID) (cmd : Command) (dep : Dep) (phase : Z)   (* c.execute(cmd), with desc.dep and desc.phase *)
  | ODecide (d : leaderDecision).                    (* m.done <- decision *)

(** ** The environment of an event: the orders in which maps are ranged over, the
    descriptors [sync.Pool] hands out and who is alive. *)
Record env := mkEnv {
  ord_report : list RequestID;      (* fillNewLeaderAckN: range c.descriptors *)
  ord_unseen : list RequestID;      (* fillNewLeaderAckN: range c.proposes *)
  ord_acks : list Z;                (* handleNewLeaderAckNs: range U *)
  ord_phases : list RequestID; ord_cmds : list RequestID; ord_deps : list RequestID;
  ord_clear : list RequestID;       (* handleSync: range c.descriptors *)
  ord_sorted : list RequestID;      (* handleSync: sort.Slice *)
  ord_rest : list RequestID;        (* handleSync: range c.proposes *)
  pool_get : Z → gset Z → option Z; (* descriptorPool.Get at a generation *)
  peerAlive : nat → Z → bool }.     (* c.peerAlive in a round of beginRecovery *)

Section Core.
Context `{SM : StateMachine}.

(** ** [core]

    [heap] are the descriptors; [pool] those returned to the adapter's pool
    ([allocDesc], [freeDesc]).  The statistics are kept, [recStart] is only
    printed. *)
Record core := mkCore {
  cn : Z; cid : Z; executeEnabled : bool; replyAfterExecution : bool; descriptorPoolLevel : Z;
  ballot : Z; cballot : Z; status : Z;
  heap : gmap Z commandDesc; nextDesc : Z; pool : gset Z;
  descriptors : gmap RequestID Z; delivered : gset RequestID;
  localQueue : list localWork; localHead : nat; generation : Z;
  keys : gmap Z SwiftConflicts.lightKeyInfo; hlog : gmap Z SwiftHashLog.HashLog;
  proposalBatches : Z; deferredHashElisions : Z; hashBacklogDeferrals : Z;
  proposalBatchCommands : Z; proposalBatchMax : Z;
  proposedInBallot : gset RequestID; seqnum : Z; pendingHashUpds : gmap RequestID SwiftHashLog.UpdateEntry;
  recoveryCmds : gmap RequestID Z;
  history : gmap Z commandStaticDesc; historySize : Z;
  qs : SwiftQuorum.QuorumSystem; sq : QuorumI; fq : QuorumI;
  fixedMajority : bool; optExec : bool; fastRead : bool;
  newLeaderAckNs : option (MsgSet (M:=MNewLeaderAckN));
  proposes : gmap RequestID proposal; slowAddrs : gset string;
  sm : sm_state; out : list output }.

#[export] Instance eta_core : Eta core := λ c,
  mkCore (cn c) (cid c) (executeEnabled c) (replyAfterExecution c) (descriptorPoolLevel c)
    (ballot c) (cballot c) (status c) (heap c) (nextDesc c) (pool c) (descriptors c) (delivered c)
    (localQueue c) (localHead c) (generation c) (keys c) (hlog c)
    (proposalBatches c) (deferredHashElisions c) (hashBacklogDeferrals c) (proposalBatchCommands c) (proposalBatchMax c)
    (proposedInBallot c) (seqnum c) (pendingHashUpds c) (recoveryCmds c) (history c) (historySize c)
    (qs c) (sq c) (fq c) (fixedMajority c) (optExec c) (fastRead c) (newLeaderAckNs c) (proposes c) (slowAddrs c)
    (sm c) (out c).
#[export] Instance set_ballot : Setter ballot := ltac:(mk_setter).
#[export] Instance set_cballot : Setter cballot := ltac:(mk_setter).
#[export] Instance set_status : Setter status := ltac:(mk_setter).
#[export] Instance set_heap : Setter heap := ltac:(mk_setter).
#[export] Instance set_nextDesc : Setter nextDesc := ltac:(mk_setter).
#[export] Instance set_pool : Setter pool := ltac:(mk_setter).
#[export] Instance set_descriptors : Setter descriptors := ltac:(mk_setter).
#[export] Instance set_delivered : Setter delivered := ltac:(mk_setter).
#[export] Instance set_localQueue : Setter localQueue := ltac:(mk_setter).
#[export] Instance set_localHead : Setter localHead := ltac:(mk_setter).
#[export] Instance set_generation : Setter generation := ltac:(mk_setter).
#[export] Instance set_keys : Setter keys := ltac:(mk_setter).
#[export] Instance set_hlog : Setter hlog := ltac:(mk_setter).
#[export] Instance set_proposalBatches : Setter proposalBatches := ltac:(mk_setter).
#[export] Instance set_deferredHashElisions : Setter deferredHashElisions := ltac:(mk_setter).
#[export] Instance set_hashBacklogDeferrals : Setter hashBacklogDeferrals := ltac:(mk_setter).
#[export] Instance set_proposalBatchCommands : Setter proposalBatchCommands := ltac:(mk_setter).
#[export] Instance set_proposalBatchMax : Setter proposalBatchMax := ltac:(mk_setter).
#[export] Instance set_proposedInBallot : Setter proposedInBallot := ltac:(mk_setter).
#[export] Instance set_seqnum : Setter seqnum := ltac:(mk_setter).
#[export] Instance set_pendingHashUpds : Setter pendingHashUpds := ltac:(mk_setter).
#[export] Instance set_recoveryCmds : Setter recoveryCmds := ltac:(mk_setter).
#[export] Instance set_history : Setter history := ltac:(mk_setter).
#[export] Instance set_historySize : Setter historySize := ltac:(mk_setter).
#[export] Instance set_fq : Setter fq := ltac:(mk_setter).
#[export] Instance set_newLeaderAckNs : Setter newLeaderAckNs := ltac:(mk_setter).
#[export] Instance set_proposes : Setter proposes := ltac:(mk_setter).
#[export] Instance set_sm : Setter sm := ltac:(mk_setter).
#[export] Instance set_out : Setter out := ltac:(mk_setter).

Definition majority_quorum (n : Z) : QuorumI := mkQuorum (SwiftQuorum.NewMajorityOf n) (λ _, true).
Definition set_quorum (q : Z) : QuorumI := mkQuorum (ReplicaSet.Size q) (ReplicaSet.Contains q).

(** [newCore]; [execute], [reply] and [level] are the configuration the ports
    read.  A quorum system that cannot be built is fatal. *)
Definition newCore (n id : Z) (execute reply : bool) (level : Z) (fastRead optExec : bool) (slowAddrs : list string)
    (ord : list Z) (initial initialLeader : Z) : outcome core :=
  r ← SwiftQuorum.NewQuorumSystem ord (Z.quot n 2 + 1) n initial initialLeader;
  match r with
  | inl err => Panicked err
  | inr sys =>
      b ← SwiftQuorum.BallotAt sys 0;
      q ← SwiftQuorum.AQ (SwiftQuorum.qs sys) b;
      Done (mkCore n id execute reply level b b NORMAL ∅ 0 ∅ ∅ ∅ [] 0 0 ∅ ∅ 0 0 0 0 0 ∅ 0 ∅ ∅ ∅ 0
              sys (majority_quorum n) (set_quorum q) true optExec fastRead None ∅ (list_to_set slowAddrs)
              sm_init [])
  end.

Definition leader (c : core) : Z := SwiftQuorum.Leader (ballot c) (cn c).
Definition hasDelivered (id : RequestID) (c : core) : bool := bool_decide (id ∈ delivered c).
Definition hasLocalWork (c : core) : bool := (localHead c <? length (localQueue c))%nat.

Definition say (o : output) (c : core) : core := c <| out ::= (λ l, l ++ [o]) |>.
Definition enqueue (w : localWork) (c : core) : core := c <| localQueue ::= (λ l, l ++ [w]) |>.

(** The descriptor at an address, and a write through a pointer to it. *)
Definition zeroDesc : commandDesc :=
  mkDesc false START (mkCommand NONE 0 NIL) None [] None None (NewMsgSet (mkQuorum 0 (λ _, false)))
    (NewMsgSet (mkQuorum 0 (λ _, false))) [] false false 0 [].
Definition at_ (c : core) (a : Z) : commandDesc := default zeroDesc (heap c !! a).
Definition upd (a : Z) (f : commandDesc → commandDesc) (c : core) : core := c <| heap ::= alter f a |>.
End Core.
End Swift.
