(* ===== verification/SwiftCore.v ===== *)
(** * SwiftCore: the normal case of a Swift replica ([swift/core.go], [execute.go], [events.go], [hash_boundary.go])

    The methods of [core] but recovery, as functions of the state to an
    [outcome].  The handler of a message set runs inside [MsgSet.Add], as its
    last action: [addAck] runs it on the call that [SwiftSets.Add] records.  The
    handler ignores the list it is passed and the [freeMsg] callbacks are empty,
    so the order of the loops in [Add] has no effect. *)
From stdpp Require Import gmap strings list fin_maps.
From Stdlib Require Import Lia.
From S2P Require Import Prelude State ReplicaSet Defs SwiftQuorum SwiftHashLog SwiftSets SwiftConflicts Swift.

Module SwiftCore.
Import SwiftSets Swift.

Section Core.
Context `{SM : StateMachine}.
(** [sha256.Sum256] and the allocator's limit. *)
Variable Sum256 : bytes → bytes.
Variable maxAlloc : Z.

Section Methods.
Variable e : env.

(** ** Descriptors *)

(** The adapter's [allocDesc] and [freeDesc].  [sync.Pool.Get] returns some
    pooled descriptor or a new one. *)
Definition allocDesc (c : core) : Z * core :=
  let fresh := (nextDesc c, c <| nextDesc ::= (λ a, a + 1) |>) in
  if 0 <? descriptorPoolLevel c then
    match pool_get e (generation c) (pool c) with
    | Some a => if bool_decide (a ∈ pool c) then (a, c <| pool ::= (λ s, s ∖ {[a]}) |>) else fresh
    | None => fresh
    end
  else fresh.
Definition freeDesc (a : Z) (c : core) : core :=
  let c := upd a (λ d, d <| pendingLeaderAcks := [] |>) c in
  if 0 <? descriptorPoolLevel c then c <| pool ::= union {[a]} |> else c.

(** [newDesc]; [cmd] keeps its old value. *)
Definition newDesc (c : core) : Z * core :=
  let '(a, c) := allocDesc c in
  let c := c <| generation ::= (λ g, u64 (g + 1)) |> in
  let old := heap c !! a in
  let d := mkDesc false START (dcmd (default zeroDesc old)) None [] None None
             (ReinitMsgSet (sq c) (slowPathH <$> old)) (ReinitMsgSet (fq c) (fastPathH <$> old))
             [] true false (generation c) [] in
  (a, c <| heap ::= <[a := d]> |>).

Definition getCmdDescWithHashes (cmdID : RequestID) (msg : option message) (dep : option Dep) (hs : option (list SHash))
    (c : core) : option Z * core :=
  if hasDelivered cmdID c then (None, c) else
  let '(a, c) := match descriptors c !! cmdID with
                 | Some a => (a, c)
                 | None => let '(a, c) := newDesc c in (a, c <| descriptors ::= <[cmdID := a]> |>)
                 end in
  let c := match dep, proposeDep (at_ c a) with
           | Some dep, None =>
               let c := upd a (λ d, d <| proposeDep := Some dep |>) c in
               match hs with Some hs => upd a (λ d, d <| dhs := hs |>) c | None => c end
           | _, _ => c
           end in
  (Some a, match msg with
           | Some m => enqueue (descriptorWork a (dgeneration (at_ c a)) cmdID m) c
           | None => c
           end).
Definition getCmdDesc (cmdID : RequestID) (msg : option message) (dep : option Dep) (c : core) : option Z * core :=
  getCmdDescWithHashes cmdID msg dep None c.

(** A call whose result is not used. *)
Definition hand (cmdID : RequestID) (m : message) (c : core) : core := (getCmdDesc cmdID (Some m) None c).2.
Definition scheduleDelivery (id : RequestID) (c : core) : core := hand id Deliver c.
Definition requeueProposal (p : proposal) (c : core) : core := enqueue (retryWork p) c.

(** ** Execution ([execute.go]) *)
Definition queueReply (a : Z) (id : RequestID) (value : Value) (c : core) : core :=
  let d := at_ c a in
  enqueue (replyWork a (dgeneration d) id (mkReplyArgs (dhs d) value id (propose d))) c.

Definition apply (a : Z) (cmdID : RequestID) (c : core) : outcome core :=
  let d := at_ c a in
  if bool_decide (propose d = None) || hasDelivered cmdID c || negb (executeEnabled c) then Done c else
  if negb (phase d =? COMMIT) && (negb (optExec c) || negb (cid c =? leader c)) then Done c else
  if negb (forallb (λ id, hasDelivered id c) (ids (dep d))) then Done c else
  let c := c <| delivered ::= union {[cmdID]} |> in
  '(v, st) ← sm_execute (dcmd d) (sm c);
  let c := say (OExecute cmdID (dcmd d) (ids (dep d)) (phase d)) (c <| sm := st |>) in
  let c := foldl (λ c id, scheduleDelivery id c) c (successors (at_ c a)) in
  Done (if replyAfterExecution c then queueReply a cmdID v c else c).

(** [c.sendClient] *)
Definition sendClient (client : Z) (m : client_message) : core → core := say (OClient client m).

Definition completeReply (a : Z) (args : replyArgs) (c : core) : outcome core :=
  match rpropose args with
  | None => Panicked "nil pointer dereference"
  | Some p =>
      let client := ClientId (Proposed p) in
      let c := if Proxy p && negb (optExec c)
               then sendClient client (CAccept (mkAccept (cid c) (ballot c) (rcmdID args) (rval args))) c
               else if optExec c && (cid c =? leader c)
               then sendClient client (CReply (mkReply (cid c) (ballot c) (rcmdID args) (rhs args) (rval args))) c
               else c in
      let c := c <| historySize ::= (λ k, Z.rem k HISTORY_SIZE + 1) |> in
      let d := at_ c a in
      let c := c <| history ::= <[historySize c - 1 := mkStatic (rcmdID args) (phase d) (dcmd d) (dep d) (slowPath d)]> |> in
      let c := upd a (λ d, d <| active := false |>) c in
      Done (freeDesc a (c <| descriptors ::= delete (rcmdID args) |>))
  end.

(** ** Acknowledgements *)

(** [getFastAndSlowAcksHandler] *)
Definition acksHandler (a : Z) (leaderMsg : option MFastAck) (c : core) : outcome core :=
  match leaderMsg with
  | None => Done c
  | Some leaderFastAck =>
      let c := upd a (λ d, d <| phase := COMMIT |>) c in
      let c := foldl (λ c depCmdID,
                  let '(depDesc, c) := getCmdDesc depCmdID None None c in
                  match depDesc with
                  | None => c
                  | Some b => upd b (λ d, d <| successors ::= (λ l, l ++ [FCmdId leaderFastAck]) |>) c
                  end) c (ids (dep (at_ c a))) in
      apply a (FCmdId leaderFastAck) c
  end.

(** [desc.slowPathH] or [desc.fastPathH] *)
Inductive path := SlowPath | FastPath.
Definition path_set (w : path) (d : commandDesc) : MsgSet :=
  match w with SlowPath => slowPathH d | FastPath => fastPathH d end.
Definition set_path (w : path) (ms : MsgSet) (d : commandDesc) : commandDesc :=
  match w with SlowPath => d <| slowPathH := ms |> | FastPath => d <| fastPathH := ms |> end.

(** The traces of a set, emptied once its callbacks have run. *)
Definition untraced {M} (ms : MsgSet (M:=M)) : MsgSet := mkMsgSet (q ms) (msgs ms) (leaderMsg ms) [] [].

(** [desc.slowPathH.Add] and [desc.fastPathH.Add] *)
Definition addAck (w : path) (a rep : Z) (isLeader : bool) (msg : MFastAck) (c : core) : outcome core :=
  let ms := (Add acceptFastAndSlowAck [] [] rep isLeader msg (path_set w (at_ c a))).2 in
  let c := upd a (set_path w (untraced ms)) c in
  forEach (λ call c, acksHandler a call.1 c) (handled ms) c.

Definition commonCaseFastAck (msg : MFastAck) (a : Z) (c : core) : outcome core :=
  if negb (status c =? NORMAL) || negb (ballot c =? FBallot msg) then Done c else
  let isLeader := FReplica msg =? leader c in
  match FDep msg with
  | None =>
      c ← addAck SlowPath a (FReplica msg) isLeader msg c;
      if hasDelivered (FCmdId msg) c then Done c else addAck FastPath a (FReplica msg) isLeader msg c
  | Some _ => addAck FastPath a (FReplica msg) isLeader msg c
  end.

Definition handleLightSlowAck (msg : MLightSlowAck) (a : Z) (c : core) : outcome core :=
  commonCaseFastAck (mkFastAck (SReplica msg) (SBallot msg) (SCmdId msg) None [] 0) a c.

(** The calls of [c.batcher]. *)
Definition SendFastAck (m : MFastAck) : core → core := say (OBatch (BFast m false)).
Definition SendFastAckClient (m : MFastAck) : core → core := say (OBatch (BFast m true)).
Definition SendLightSlowAck (m : MLightSlowAck) : core → core := say (OBatch (BSlow m false)).
Definition SendLightSlowAckClient (m : MLightSlowAck) : core → core := say (OBatch (BSlow m true)).

(** The deferred function of [processLeaderFastAck]. *)
Definition reportMismatch (sendSlowAck : bool) (hs : list SHash) (msg : MFastAck) (c : core) : core :=
  if (leader c =? cid c) || hasDelivered (FCmdId msg) c then c else
  if negb sendSlowAck && optExec c && negb (SwiftHashLog.SHashesEq hs (FChecksum msg))
  then sendClient (Client (FCmdId msg)) (CLightSlowAck (mkLightSlowAck (cid c) (ballot c) (FCmdId msg))) c
  else c.

Definition processLeaderFastAck (msg : MFastAck) (a : Z) (c : core) : outcome core :=
  if negb (status c =? NORMAL) || negb (ballot c =? FBallot msg) then Done c else
  let c := upd a (λ d, d <| phase := ACCEPT |>) c in
  let hs := dhs (at_ c a) in
  let neq := negb (Equals (ids (dep (at_ c a))) (ids (FDep msg))) in
  let fast := QContains (fq c) (cid c) in
  let slow := QContains (sq c) (cid c) in
  let sendSlowAck := negb (leader c =? cid c) && (slow || (fast && neq)) in
  c ← addAck SlowPath a (FReplica msg) true msg c;
  c ← (if hasDelivered (FCmdId msg) c then Done c else addAck FastPath a (FReplica msg) true msg c);
  let delivered := hasDelivered (FCmdId msg) c in
  c ← (if sendSlowAck then
         let c := if neq && negb delivered then upd a (λ d, d <| dep := FDep msg |>) c else c in
         let c := upd a (λ d, d <| slowPath := true |>) c in
         let lightSlowAck := mkLightSlowAck (cid c) (ballot c) (FCmdId msg) in
         let c := if optExec c then SendLightSlowAckClient lightSlowAck c else SendLightSlowAck lightSlowAck c in
         if delivered then Done c else handleLightSlowAck lightSlowAck a c
       else Done c);
  Done (reportMismatch sendSlowAck hs msg c).

Definition replayPendingLeaderAcks (a : Z) (c : core) : outcome (bool * core) :=
  let d := at_ c a in
  match propose d, pendingLeaderAcks d with
  | None, _ | _, [] => Done (false, c)
  | Some _, pending =>
      let c := upd a (λ d, d <| pendingLeaderAcks := [] |>) c in
      c ← forEach (λ msg c, processLeaderFastAck msg a c) pending c;
      Done (true, c)
  end.

Definition fastAckFromLeader (msg : MFastAck) (a : Z) (c : core) : outcome core :=
  match propose (at_ c a) with
  | None => Done (upd a (λ d, d <| pendingLeaderAcks ::= (λ l, l ++ [msg]) |>) c)
  | Some _ => '(_, c) ← replayPendingLeaderAcks a c; processLeaderFastAck msg a c
  end.

Definition handleFastAck (msg : MFastAck) (a : Z) (c : core) : outcome core :=
  if FReplica msg =? leader c then fastAckFromLeader msg a c else commonCaseFastAck msg a c.

(** ** Recovery acknowledgements ([hash_boundary.go]) *)

(** The function [sendRecoveryAck] returns. *)
Inductive finishAck := FinishNothing | FinishFastAck (ack : MFastAck) (a : Z) | FinishSlowAck (ack : MLightSlowAck) (a : Z).
Definition run_finish (f : finishAck) (c : core) : outcome core :=
  match f with
  | FinishNothing => Done c
  | FinishFastAck ack a => handleFastAck ack a c
  | FinishSlowAck ack a => handleLightSlowAck ack a c
  end.

Definition sendRecoveryAck (cmdID : RequestID) (dep : option Dep) (propose : proposal) (desc : option Z) (c : core) : finishAck * core :=
  if negb (QContains (sq c) (cid c)) then (FinishNothing, c) else
  if cid c =? leader c then
    let ack := newRecoveryFastAck (cid c) (ballot c) cmdID dep in
    let c := SendFastAck ack c in
    let c := sendClient (ClientId (Proposed propose)) (CReply (mkReply (cid c) (ballot c) cmdID [] [])) c in
    (match desc with Some a => FinishFastAck ack a | None => FinishNothing end, c)
  else
    let ack := mkLightSlowAck (cid c) (ballot c) cmdID in
    let c := SendLightSlowAckClient ack c in
    (match desc with Some a => FinishSlowAck ack a | None => FinishNothing end, c).

(** ** Proposals *)
Definition handlePropose (msg : proposal) (a : Z) (cmdID : RequestID) (c : core) : outcome core :=
  if negb (status c =? NORMAL) || bool_decide (is_Some (propose (at_ c a))) then Done c else
  let c := upd a (λ d, d <| propose := Some msg |>) c in
  if bool_decide (is_Some (recoveryCmds c !! cmdID)) then
    let '(finish, c) := sendRecoveryAck cmdID (dep (at_ c a)) msg (Some a) c in
    '(_, c) ← replayPendingLeaderAcks a c;
    if hasDelivered cmdID c then Done c else run_finish finish c
  else
  let c := upd a (λ d, d <| dcmd := Command_of msg |>) c in
  if negb (QContains (fq c) (cid c)) || deferFast (at_ c a) then
    '(_, c) ← replayPendingLeaderAcks a c; Done c
  else
  let c := upd a (λ d, d <| dep := proposeDep d |> <| phase := PRE_ACCEPT |>) c in
  '(replayed, c) ← replayPendingLeaderAcks a c;
  if (replayed && slowPath (at_ c a)) || hasDelivered cmdID c then Done c else
  if bool_decide (Addr msg ∈ slowAddrs c) && negb (cid c =? leader c) then Done c else
  let ack := mkFastAck (cid c) (ballot c) cmdID (dep (at_ c a)) (dhs (at_ c a)) 0 in
  let '(fastAck, c) :=
    if cid c =? leader c
    then (mkFastAck (cid c) (ballot c) cmdID (dep (at_ c a)) (dhs (at_ c a)) (seqnum c), c <| seqnum ::= (λ s, i64 (s + 1)) |>)
    else (ack, c) in
  let isRead := fastRead c && negb (Op (Command_of msg) =? PUT) in
  let proxy := match propose (at_ c a) with Some p => Proxy p | None => false end in
  c ← (if negb (optExec c) then Done (SendFastAck fastAck c)
       else if ((cid c =? leader c) && negb isRead) || (isRead && proxy)
       then apply a cmdID (SendFastAck fastAck c)
       else Done (SendFastAckClient fastAck c));
  handleFastAck fastAck a c.

Definition handleMsg (m : message) (a : Z) (cmdID : RequestID) (c : core) : outcome core :=
  match m with
  | Proposal p => handlePropose p a cmdID c
  | DeferredProposal p => handlePropose p a cmdID (upd a (λ d, d <| deferFast := true |>) c)
  | FastAck ack => if bool_decide (FCmdId ack = cmdID) then handleFastAck ack a c else Done c
  | LightSlowAck ack => if bool_decide (SCmdId ack = cmdID) then handleLightSlowAck ack a c else Done c
  | Deliver => apply a cmdID c
  end.

(** ** Keys and hash logs *)
Definition log_of (key : Z) (c : core) : outcome SwiftHashLog.HashLog :=
  match hlog c !! key with
  | Some l => Done l
  | None => '(_, l) ← SwiftHashLog.BeginBallot Sum256 (ballot c) SwiftHashLog.NewHashLog; Done l
  end.

(** The body of the loop over [keysOf(cmd)]. *)
Definition addKey (cmd : Command) (cmdID : RequestID) (update : option SwiftHashLog.UpdateEntry) (deferHash : bool)
    (i : Z * Z) (s : Dep * list SHash * core) : outcome (Dep * list SHash * core) :=
  let '(dep, hashes, c) := s in
  let '(dep, info) :=
    match keys c !! i.2 with
    | Some info => (dep ++ SwiftConflicts.getConflictCmds cmd info, info)
    | None => (dep, SwiftConflicts.newLightKeyInfo)
    end in
  let c := c <| keys ::= <[i.2 := SwiftConflicts.add cmd cmdID info]> |> in
  l ← log_of i.2 c;
  '(hashes, l) ← (match update with
                  | Some u =>
                      match index (SwiftHashLog.uhash u) i.1 with
                      | None => Panicked "index out of range"
                      | Some h => l ← SwiftHashLog.AppendAndUpdate cmdID (SwiftHashLog.useqnum u) h l; Done (hashes, l)
                      end
                  | None =>
                      if deferHash then l ← SwiftHashLog.AppendDeferred cmdID l; Done (hashes, l)
                      else '(h, l) ← SwiftHashLog.Append Sum256 cmdID l; Done (hashes ++ [h], l)
                  end);
  Done (dep, hashes, c <| hlog ::= <[i.2 := l]> |>).

Definition numbered {A} (l : list A) : list (Z * A) := zip (seqZ 0 (Z.of_nat (length l))) l.

Definition getDepAndHashesWithUpdate (cmd : Command) (cmdID : RequestID) (update : option SwiftHashLog.UpdateEntry)
    (deferHash : bool) (c : core) : outcome (Dep * option (list SHash) * core) :=
  keysOfCmd ← SwiftConflicts.keysOf maxAlloc cmd;
  if match update with
     | Some u => negb (length (SwiftHashLog.uhash u) =? length keysOfCmd)%nat
     | None => false
     end
  then Panicked "the number of hashes does not match number of objects" else
  '(dep, hashes, c) ← forEach (addKey cmd cmdID update deferHash) (numbered keysOfCmd) ([], [], c);
  Done (dep, if bool_decide (is_Some update) || deferHash then None else Some hashes, c).

Definition getDepAndHashes (cmd : Command) (cmdID : RequestID) (c : core) : outcome (Dep * option (list SHash) * core) :=
  getDepAndHashesWithUpdate cmd cmdID None false c.

Definition updateLogs (cmd : Command) (cmdID : RequestID) (s : Z) (hs : list SHash) (c : core) : outcome core :=
  ks ← SwiftConflicts.keysOf maxAlloc cmd;
  if negb (length ks =? length hs)%nat then Panicked "the number of hashes does not match number of objects" else
  forEach (λ kh c, l ← log_of kh.1 c; Done (c <| hlog ::= <[kh.1 := SwiftHashLog.Update cmdID s kh.2 l]> |>)) (zip ks hs) c.

Definition recordLeaderHash (cmdID : RequestID) (s : Z) (hs : list SHash) (c : core) : outcome core :=
  match proposes c !! cmdID with
  | None => Done (c <| pendingHashUpds ::= <[cmdID := SwiftHashLog.mkUpdate hs s]> |>)
  | Some p => updateLogs (Command_of p) cmdID s hs c
  end.

Definition recordLeaderAck (msg : MFastAck) (c : core) : outcome core :=
  if negb (FBallot msg =? ballot c) || negb (FReplica msg =? leader c) || (cid c =? leader c) then Done c else
  if FSeqnum msg =? recoveryAckSeqnum then
    if negb (bool_decide (is_Some (recoveryCmds c !! FCmdId msg))) || negb (length (FChecksum msg) =? 0)%nat
    then Panicked "invalid recovery hash acknowledgement" else Done c
  else if FSeqnum msg <? 0 then Panicked "invalid leader hash sequence"
  else recordLeaderHash (FCmdId msg) (FSeqnum msg) (FChecksum msg) c.

Definition receiveFastAck (msg : MFastAck) (c : core) : outcome core :=
  if negb (status c =? NORMAL) || negb (FBallot msg =? ballot c) then Done c else
  c ← recordLeaderAck msg c;
  Done (hand (FCmdId msg) (FastAck msg) c).

(** ** Submission *)
Definition beginProposalBatch (count : Z) (c : core) : core :=
  let additional := count - 1 in
  let c := c <| proposalBatches ::= (λ n, u64 (n + 1)) |>
             <| proposalBatchCommands ::= (λ n, u64 (n + u64 (additional + 1))) |> in
  if proposalBatchMax c <? additional + 1 then c <| proposalBatchMax := additional + 1 |> else c.

Definition shouldDeferFast (cmd : Command) (c : core) : outcome bool :=
  if fastRead c || (leader c =? cid c) || negb (QContains (sq c) (cid c)) then Done false else
  ks ← SwiftConflicts.keysOf maxAlloc cmd;
  Done (existsb (λ key, match hlog c !! key with
                        | Some l => 1024 <=? Z.of_nat (size (SwiftHashLog.nodes l))
                        | None => false
                        end) ks).

Definition submit (p : proposal) (c : core) : outcome core :=
  let cmdID := RequestID_of p in
  if bool_decide (cmdID ∈ proposedInBallot c) then Done c else
  let c := c <| proposedInBallot ::= union {[cmdID]} |> <| proposes ::= <[cmdID := p]> |> in
  if bool_decide (is_Some (recoveryCmds c !! cmdID)) then Done (getCmdDescWithHashes cmdID (Some (Proposal p)) None None c).2 else
  let upd := pendingHashUpds c !! cmdID in
  let follows := negb (leader c =? cid c) in
  let slow := QContains (sq c) (cid c) in
  deferFast ← (match upd with Some _ => Done false | None => shouldDeferFast (Command_of p) c end);
  '(dep, hs, c) ←
    (if bool_decide (is_Some upd) && follows && slow then
       '(dep, hs, c) ← getDepAndHashesWithUpdate (Command_of p) cmdID upd false c;
       Done (dep, hs, c <| pendingHashUpds ::= delete cmdID |> <| deferredHashElisions ::= (λ n, u64 (n + 1)) |>)
     else if deferFast : bool then
       '(dep, hs, c) ← getDepAndHashesWithUpdate (Command_of p) cmdID None true c;
       Done (dep, hs, c <| hashBacklogDeferrals ::= (λ n, u64 (n + 1)) |>)
     else getDepAndHashes (Command_of p) cmdID c);
  c ← (match upd with
       | Some u =>
           if follows && negb slow
           then recordLeaderHash cmdID (SwiftHashLog.useqnum u) (SwiftHashLog.uhash u) (c <| pendingHashUpds ::= delete cmdID |>)
           else Done c
       | None => Done c
       end);
  let message := if deferFast : bool then DeferredProposal p else Proposal p in
  let '(desc, c) := getCmdDescWithHashes cmdID (Some message) (Some dep) hs c in
  match desc with None => Panicked "Got proposal for the delivered command" | Some _ => Done c end.

(** ** Local work ([events.go]) *)
Definition perform (w : localWork) (c : core) : outcome core :=
  match w with
  | retryWork p => submit p (beginProposalBatch 1 c)
  | descriptorWork a g cmdID _ | replyWork a g cmdID _ =>
      if negb (active (at_ c a)) || negb (dgeneration (at_ c a) =? g) || negb (bool_decide (descriptors c !! cmdID = Some a))
      then Done c else
      match w with
      | descriptorWork _ _ _ m => handleMsg m a cmdID c
      | replyWork _ _ _ args => completeReply a args c
      | retryWork _ => Done c
      end
  end.

Fixpoint drain_loop (budget : nat) (c : core) : outcome core :=
  match budget with
  | O => Done c
  | S budget =>
      if status c =? NORMAL then
        match localQueue c !! localHead c with
        | None => Done c
        | Some w => c ← perform w (c <| localHead ::= S |>); drain_loop budget c
        end
      else Done c
  end.

Definition drainLocalWork (budget : nat) (c : core) : outcome core :=
  c ← drain_loop budget c;
  Done (if negb (hasLocalWork c) then c <| localQueue := [] |> <| localHead := 0%nat |>
        else if (length (localQueue c) / 2 <? localHead c)%nat
        then c <| localQueue ::= drop (localHead c) |> <| localHead := 0%nat |>
        else c).

(** [pauseLocalWork] keeps the requeued proposals. *)
Definition is_retry (w : localWork) : bool := match w with retryWork _ => true | _ => false end.
Definition pauseLocalWork (c : core) : core :=
  c <| localQueue ::= (λ l, filter (λ w, is_retry w = true) (drop (localHead c) l)) |> <| localHead := 0%nat |>.
End Methods.
End Core.
End SwiftCore.
