(* ===== verification/SwiftRecovery.v ===== *)
(** * SwiftRecovery: recovery, dispatch and the event loop of a Swift replica ([swift/recovery.go], [core.go], [hash_boundary.go], [replica.go])

    [handleSync] sorts the recovered commands with a comparison that is not a
    strict weak order (being a dependency is not transitive), for which
    [sort.Slice] promises no more than a permutation: the model takes the
    permutation from the environment.  [beginRecovery] looks for a ballot whose
    quorum is alive; its loop takes a number of rounds as fuel. *)
From stdpp Require Import gmap strings list fin_maps.
From Stdlib Require Import Lia.
From S2P Require Import Prelude State ReplicaSet Defs SwiftQuorum SwiftHashLog SwiftSets SwiftConflicts Swift SwiftCore.

Module SwiftRecovery.
Import SwiftSets Swift SwiftCore.

(** Phases, commands and dependencies of the commands a [Sync] installs. *)
Abbreviation recovered := (gmap RequestID Z * gmap RequestID Command * gmap RequestID (option Dep))%type.

Section Core.
Context `{SM : StateMachine}.
Variable Sum256 : bytes → bytes.
Variable maxAlloc : Z.

Section Methods.
Variable e : env.

(** ** Reports *)

(** One entry of the four parallel lists. *)
Definition reported : Type := RequestID * Z * Command * option Dep.

Definition report_desc (c : core) (s : gset RequestID * list reported) (a : Z) : gset RequestID * list reported :=
  let d := at_ c a in
  match propose d with
  | None => s
  | Some p =>
      let cmdID := RequestID_of p in
      if bool_decide (cmdID ∈ s.1) then s
      else ({[cmdID]} ∪ s.1, s.2 ++ [(cmdID, phase d, dcmd d, dep d)])
  end.

Definition report_unseen (c : core) (seen : gset RequestID) (cmdID : RequestID) : list reported :=
  if bool_decide (cmdID ∈ seen) || hasDelivered cmdID c then []
  else [(cmdID, ACCEPT, default (mkCommand NONE 0 NIL) (head NOOP), Some [])].

Definition report (c : core) : list reported :=
  let '(seen, l) := foldl (report_desc c) (∅, []) (range_order (ord_report e) (descriptors c)).*2 in
  l ++ List.concat (map (report_unseen c seen) (range_order (ord_unseen e) (proposes c)).*1).

Definition fillNewLeaderAckN (m : MNewLeaderAckN) (c : core) : MNewLeaderAckN :=
  let l := report c in
  mkNewLeaderAckN (NAReplica m) (NABallot m) (NACballot m)
    (map (λ r : reported, r.1.1.1) l) (map (λ r : reported, r.1.1.2) l) (map (λ r : reported, r.1.2) l) (map snd l).

(** ** Selection *)

(** The acknowledgements with the highest [Cballot], [U]: a nil map until one is
    above [-1].  The messages are of distinct replicas, which name them. *)
Definition select_ack (m : MNewLeaderAckN) (s : Z * option (gmap Z MNewLeaderAckN)) : outcome (Z * option (gmap Z MNewLeaderAckN)) :=
  let '(maxCbal, U) := s in
  let '(maxCbal, U) := if maxCbal <? NACballot m then (NACballot m, Some ∅) else (maxCbal, U) in
  if maxCbal =? NACballot m then
    match U with
    | Some U => Done (maxCbal, Some (<[NAReplica m := m]> U))
    | None => Panicked "assignment to entry in nil map"
    end
  else Done (maxCbal, U).
Definition selected_acks (msgs : list MNewLeaderAckN) : outcome (gmap Z MNewLeaderAckN) :=
  '(_, U) ← forEach select_ack msgs (-1, None); Done (default ∅ U).

(** [newLeaderAckN.Phases[i]] and the entries of the other lists at [i]. *)
Definition take_entry (m : MNewLeaderAckN) (ip : Z * Z) (s : recovered) : outcome recovered :=
  let '(phases, cmds, deps) := s in
  if (ip.2 =? COMMIT) || (ip.2 =? ACCEPT) then
    match index (NACmdIds m) ip.1, index (NACmds m) ip.1, index (NADeps m) ip.1 with
    | Some cmdID, Some cmd, Some dep => Done (<[cmdID := ip.2]> phases, <[cmdID := cmd]> cmds, <[cmdID := dep]> deps)
    | _, _, _ => Panicked "index out of range"
    end
  else Done s.
Definition take_ack (m : MNewLeaderAckN) (s : recovered) : outcome recovered :=
  forEach (take_entry m) (numbered (NAPhases m)) s.
Definition select (msgs : list MNewLeaderAckN) : outcome recovered :=
  U ← selected_acks msgs;
  forEach take_ack (range_order (ord_acks e) U).*2 (∅, ∅, ∅).

(** ** Installation *)

(** [installRecoveryHashBoundary] *)
Definition installRecoveryHashBoundary (phases : gmap RequestID Z) (c : core) : outcome core :=
  let c := c <| recoveryCmds := phases |> <| proposedInBallot := ∅ |> <| pendingHashUpds := ∅ |> in
  forEach (λ kl c, '(_, l) ← SwiftHashLog.BeginBallot Sum256 (ballot c) kl.2; Done (c <| hlog ::= <[kl.1 := l]> |>))
    (map_to_list (hlog c)) c.

(** A descriptor is returned; its proposal survives unless it is recovered. *)
Definition clear_desc (phases : gmap RequestID Z) (c : core) (a : Z) : core :=
  let c := match propose (at_ c a) with
           | Some p => if bool_decide (is_Some (phases !! RequestID_of p)) then c else requeueProposal p c
           | None => c
           end in
  freeDesc a (upd a (λ d, d <| active := false |>) c).

Definition addSuccessor (cmdID : RequestID) (c : core) (cmdIDPrime : RequestID) : core :=
  let '(descPrime, c) := getCmdDesc e cmdIDPrime None None c in
  let c := match descPrime with
           | Some b => upd b (λ d, d <| successors ::= (λ l, l ++ [cmdID]) |>) c
           | None => c
           end in
  scheduleDelivery e cmdIDPrime c.

(** The body of the loop over [sorted]; the deferred functions in the order they
    run, last first. *)
Definition install (r : recovered) (s : list finishAck * core) (cmdID : RequestID) : list finishAck * core :=
  let '(phases, cmds, deps) := r in
  let '(finishes, c) := s in
  let deps_of := default None (deps !! cmdID) in
  let '(desc, c) := getCmdDesc e cmdID None None c in
  let c := match desc with
           | None => c
           | Some a =>
               let c := upd a (λ d, d <| phase := default 0 (phases !! cmdID) |>
                                      <| dcmd := default (mkCommand NONE 0 NIL) (cmds !! cmdID) |>
                                      <| dep := deps_of |> <| proposeDep := deps_of |>) c in
               let c := foldl (addSuccessor cmdID) c (ids deps_of) in
               let c := scheduleDelivery e cmdID c in
               if negb (phase (at_ c a) =? COMMIT) && negb (phase (at_ c a) =? ACCEPT)
               then upd a (λ d, d <| phase := ACCEPT |>) c else c
           end in
  match proposes c !! cmdID with
  | None => (finishes, c)
  | Some p =>
      let c := match desc with Some a => upd a (λ d, d <| propose := Some p |>) c | None => c end in
      let '(finish, c) := sendRecoveryAck cmdID deps_of p desc c in
      (finish :: finishes, c)
  end.

Definition report_rest (phases : gmap RequestID Z) (c : core) (kp : RequestID * proposal) : core :=
  if bool_decide (is_Some (phases !! kp.1)) then c
  else sendClient (ClientId (Proposed kp.2)) (CAccept (mkAccept (cid c) (ballot c) kp.1 [])) c.

Definition handleSync (msg : MSync) (c : core) : outcome core :=
  if (YBallot msg <? ballot c) || ((ballot c =? YBallot msg) && (status c =? NORMAL)) then Done c else
  let '(phases, cmds, deps) := recoveryIndex msg in
  let c := if status c =? NORMAL then pauseLocalWork c else c in
  let c := foldl (clear_desc phases) c (range_order (ord_clear e) (descriptors c)).*2 in
  let c := c <| keys := ∅ |> <| descriptors := ∅ |> <| status := NORMAL |>
             <| ballot := YBallot msg |> <| cballot := YBallot msg |> in
  c ← installRecoveryHashBoundary phases c;
  c ← (if fixedMajority c then q ← SwiftQuorum.AQ (SwiftQuorum.qs (qs c)) (ballot c); Done (c <| fq := set_quorum q |>) else Done c);
  let c := c <| historySize := 0 |> in
  let '(finishes, c) := foldl (install (phases, cmds, deps)) ([], c) (range_keys (ord_sorted e) phases) in
  let c := foldl (report_rest phases) c (range_order (ord_rest e) (proposes c)) in
  forEach (run_finish e) finishes c.

(** [sync.Phases], [sync.Cmds] and [sync.Deps] list the maps in some order. *)
Definition newSync (r : recovered) (c : core) : MSync :=
  let '(phases, cmds, deps) := r in
  mkSync (cid c) (ballot c) (range_order (ord_phases e) phases) (range_order (ord_cmds e) cmds) (range_order (ord_deps e) deps).

Definition handleNewLeaderAckNs (msgs : list MNewLeaderAckN) (c : core) : outcome core :=
  r ← select msgs;
  let sync := newSync r c in
  handleSync sync (say (OBroadcast (PSync sync)) c).

(** The set of acknowledgements accepts every message and has no leader's. *)
Definition handleNewLeaderAckN (msg : MNewLeaderAckN) (c : core) : outcome core :=
  if negb (status c =? RECOVERING) || negb (ballot c =? NABallot msg) then Done c else
  match newLeaderAckNs c with
  | None => Panicked "nil pointer dereference"
  | Some ms =>
      let ms := (Add (λ _ _, true) [] [] (NAReplica msg) false msg ms).2 in
      let c := c <| newLeaderAckNs := Some (untraced ms) |> in
      forEach (λ call c, handleNewLeaderAckNs call.2 c) (handled ms) c
  end.

Definition handleNewLeader (msg : MNewLeader) (c : core) : outcome core :=
  if NBallot msg <=? ballot c then Done c else
  let c := pauseLocalWork (c <| status := RECOVERING |> <| ballot := NBallot msg |>) in
  let m := fillNewLeaderAckN (mkNewLeaderAckN (cid c) (ballot c) (cballot c) [] [] [] []) c in
  if negb (NReplica msg =? cid c) then Done (say (OSend (NReplica msg) (PNewLeaderAckN m)) c)
  else handleNewLeaderAckN m c.

Definition reinitNewLeaderAckNs (c : core) : core :=
  c <| newLeaderAckNs := Some (ReinitMsgSet (majority_quorum (cn c)) (newLeaderAckNs c)) |>.

(** ** Becoming the leader *)
Definition avoid_zero (l : Z) : Z := if l =? 0 then -2 else l.
Definition handleLeaderCall (c : core) : outcome leaderDecision :=
  b ← SwiftQuorum.BallotAt (qs c) 1;
  let recover := negb (size (delivered c) =? 0)%nat in
  Done (mkDecision (avoid_zero (if recover then cid c else leader c)) (avoid_zero (SwiftQuorum.Leader b (cn c)))
          recover (if recover then b else 0)).

(** Rounds of [for quorumIsAlive := false; ...]: a ballot whose quorum is alive. *)
Definition quorum_alive (round : nat) (q : Z) (c : core) : bool :=
  ReplicaSet.Range (λ rid ok, if negb (rid =? cid c) && negb (peerAlive e round rid) then (false, false) else (true, ok)) q true.
Fixpoint alive_ballot (fuel round : nat) (b : Z) (c : core) : outcome Z :=
  match fuel with
  | O => OutOfFuel
  | S fuel =>
      q ← SwiftQuorum.AQ (SwiftQuorum.qs (qs c)) b;
      if quorum_alive round q c then Done b
      else alive_ballot fuel (S round) (SwiftQuorum.NextBallotOf (cid c) b (cn c)) c
  end.

Definition first_ballot (newBallot : Z) (c : core) : outcome Z :=
  if negb (newBallot =? -1) then
    if ballot c <? newBallot then Done newBallot
    else SwiftQuorum.SameHigher (qs c) newBallot (ballot c)
  else Done (SwiftQuorum.NextBallotOf (cid c) (ballot c) (cn c)).

Definition beginRecovery (fuel : nat) (newBallot : Z) (c : core) : outcome core :=
  b ← first_ballot newBallot c;
  b ← (if fixedMajority c then alive_ballot fuel 0 b c else Done b);
  let newLeader := mkNewLeader (cid c) b in
  let c := say (OBroadcast (PNewLeader newLeader)) c in
  handleNewLeader newLeader (reinitNewLeaderAckNs c).

(** ** Dispatch *)

(** The cases of [receive]; [IOther] is an event of another type or a nil
    message. *)
Inductive input :=
  | IFastAck (m : MFastAck) | ILightSlowAck (m : MLightSlowAck) | IAcks (m : MAcks) | IOptAcks (m : MOptAcks)
  | INewLeader (m : MNewLeader) | ISync (m : MSync) | INewLeaderAckN (m : MNewLeaderAckN)
  | IRecovery (newBallot : Z) | ILeaderCall | IDeliver (id : RequestID) | IOther.

Definition UnsupportedEvent : string := "swiftpaxos: unsupported event".
Definition UnsupportedTimer : string := "swiftpaxos: unsupported timer".

Definition receiveOptAck (m : MOptAcks) (ack : Ack) (c : core) : outcome core :=
  if negb (OBallot m =? ballot c) then Done c else
  let nil := IsNilDepOfCmdID (ACmdId ack) (ids (ADep ack)) in
  if nil && negb (ASeqnum ack =? recoveryAckSeqnum) then
    Done (hand e (ACmdId ack) (LightSlowAck (mkLightSlowAck (OReplica m) (OBallot m) (ACmdId ack))) c)
  else
    receiveFastAck Sum256 maxAlloc e (mkFastAck (OReplica m) (OBallot m) (ACmdId ack)
      (if nil then None else ADep ack) (AChecksum ack) (ASeqnum ack)) c.

Definition receive (fuel : nat) (i : input) (c : core) : outcome (option string * core) :=
  let ok (o : outcome core) := c ← o; Done (None, c) in
  match i with
  | IFastAck m => ok (receiveFastAck Sum256 maxAlloc e m c)
  | ILightSlowAck m => ok (Done (hand e (SCmdId m) (LightSlowAck m) c))
  | IAcks m =>
      ok (c ← forEach (receiveFastAck Sum256 maxAlloc e) (FastAcks m) c;
          Done (foldl (λ c s, hand e (SCmdId s) (LightSlowAck s) c) c (LightSlowAcks m)))
  | IOptAcks m => ok (forEach (receiveOptAck m) (Acks m) c)
  | INewLeader m => ok (handleNewLeader m c)
  | ISync m => ok (handleSync m c)
  | INewLeaderAckN m => ok (handleNewLeaderAckN m c)
  | IRecovery b => ok (beginRecovery fuel b c)
  | ILeaderCall => d ← handleLeaderCall c; ok (Done (say (ODecide d) c))
  | IDeliver id => ok (Done (scheduleDelivery e id c))
  | IOther => Done (Some UnsupportedEvent, c)
  end.

Definition tick (t : Tick) : option string :=
  if bool_decide (TickKind t = Maintenance) then None else Some UnsupportedTimer.

(** ** The event loop ([replica.go])

    A proposal, a batch of proposals or an event, followed by a bounded drain of
    the local work; [Wake] is the loop's [localReady]. *)
Inductive step :=
  | Propose (ps : list proposal)            (* the proposal and those already queued *)
  | Step (i : input)
  | Wake.

(** The inputs the loop selects from: recovery gates the others. *)
Definition enabled (s : step) (c : core) : bool :=
  match s with
  | Step (INewLeader _ | ISync _ | ILeaderCall) => true
  | Step (INewLeaderAckN _) => status c =? RECOVERING
  | _ => negb (status c =? RECOVERING)
  end.

Definition propose_all (ps : list proposal) (c : core) : outcome core :=
  match ps with
  | [] => Done c
  | p :: _ =>
      if status c =? RECOVERING then Done (requeueProposal p c) else
      c ← forEach (submit Sum256 maxAlloc e) ps (beginProposalBatch (Z.of_nat (length ps)) c);
      drainLocalWork Sum256 maxAlloc e localWorkBudget c
  end.

Definition run_step (fuel : nat) (s : step) (c : core) : outcome core :=
  match s with
  | Propose ps => propose_all ps c
  | Step i =>
      '(err, c) ← receive fuel i c;
      match err with
      | Some _ => Done c
      | None => drainLocalWork Sum256 maxAlloc e localWorkBudget c
      end
  | Wake => drainLocalWork Sum256 maxAlloc e localWorkBudget c
  end.
End Methods.
End Core.
End SwiftRecovery.
