(* ===== verification/SwiftInv.v ===== *)
(** * SwiftInv: the invariant of a Swift replica

    [core_ok] holds whatever proposals, messages and events a replica gets:
    descriptors are owned by one command each and never in the pool, the
    acknowledgements a descriptor holds are of its command and of the installed
    ballot, a committed descriptor has a quorum of matching acknowledgements, and
    the executions recorded in the output are ordered by dependencies.  This file
    has the invariant and the normal case. *)
From stdpp Require Import gmap strings list fin_maps fin_sets.
From Stdlib Require Import Lia.
From S2P Require Import Prelude State ReplicaSet Defs SwiftQuorum SwiftHashLog SwiftSets SwiftConflicts Swift SwiftCore.

Module SwiftInv.
Import SwiftSets Swift SwiftCore.

(** ** Message sets *)
Section Sets.
Context {M : Type}.
Variable accept : M → option M → bool.

(** The messages of a set satisfy [P], the leader's [L]. *)
Definition all_acks (P : Z → M → Prop) (L : M → Prop) (ms : MsgSet (M:=M)) : Prop :=
  (∀ rep m, msgs ms !! rep = Some m → P rep m) ∧ (∀ m, leaderMsg ms = Some m → L m).

(** Enough messages for the handler to be called with the leader's. *)
Definition complete (ms : MsgSet (M:=M)) : Prop :=
  is_Some (leaderMsg ms) ∧ QSize (q ms) - 1 ≤ Z.of_nat (size (msgs ms)).

Lemma keep_matching_all (P : Z → M → Prop) lm l ms :
  (∀ rep m, (rep, m) ∈ l → P rep m) →
  ∀ rep m, msgs (keep_matching accept lm l ms) !! rep = Some m → P rep m.
Proof.
  intros Hl. unfold keep_matching.
  apply (foldl_ind_in _ (λ ms', ∀ rep m, msgs ms' !! rep = Some m → P rep m)); [by intros|].
  intros ms' [rep m] Hin IH. destruct (accept m (Some lm)); [|done]. cbn. intros r x.
  rewrite lookup_insert_Some. intros [[<- <-]|[_ Hx]]; [by apply Hl|by apply IH].
Qed.

(** [Add] with the traces emptied before: the set after, and the calls. *)
Lemma Add_spec (P : Z → M → Prop) (L : M → Prop) ord ord' rep isLeader m (ms : MsgSet (M:=M)) :
  let ms' := (Add accept ord ord' rep isLeader m ms).2 in
  handled ms = [] → all_acks P L ms → (isLeader = true → L m) → (isLeader = false → P rep m) →
  q ms' = q ms ∧ all_acks P L ms' ∧
  (handled ms' = [] ∨
   handled ms' = [(leaderMsg ms', (range_order ord' (msgs ms')).*2)] ∧ (is_Some (leaderMsg ms') → complete ms')).
Proof.
  cbv zeta. intros Hh [HP HL] HLm HPm. unfold Add. destruct (QContains (q ms) rep); [|split_and!; [done..|by left]].
  cbn [negb]. case_bool_decide; [split_and!; [done..|by left]|].
  match goal with |- context [let '(_, _) := ?t in _] => set (next := t) end.
  assert (q next.2 = q ms ∧ handled next.2 = [] ∧ all_acks P L next.2) as (Hq & Hn & Hall).
  { subst next. destruct isLeader; cbn [snd].
    - destruct (keep_matching_spec accept (mkQuorum 0 (λ _, true)) m (range_order ord (msgs ms)) (ms <| leaderMsg := Some m |>))
        as (E1 & E2 & E3 & _); [done|]. cbn in E1, E2, E3.
      split_and!; [by rewrite E1|by rewrite E3|]. split; [|rewrite E2; intros ? [= <-]; by apply HLm].
      apply keep_matching_all. intros r x Hx%elem_of_range_order. by apply HP.
    - destruct (accept m (leaderMsg ms)); [|done]. split_and!; [done..|]. split; [|done]. cbn. intros r x.
      rewrite lookup_insert_Some. intros [[<- <-]|[_ Hx]]; [by apply HPm|by apply HP]. }
  destruct next as [added ms']. cbn [snd] in *.
  match goal with |- context [if ?b then _ else _] => destruct b eqn:Hs end; cbn; [|split_and!; [done..|by left]].
  split_and!; [done..|]. right. rewrite Hn. split; [done|]. intros Hl. split; [done|].
  apply orb_prop in Hs as [Hs|[Hs _]%andb_prop]; cbn; lia.
Qed.

(** A message that is not the leader's removes none. *)
Lemma Add_follower_complete ord ord' rep m (ms : MsgSet (M:=M)) :
  complete ms → complete (Add accept ord ord' rep false m ms).2.
Proof.
  intros [Hl Hs]. unfold Add. destruct (QContains (q ms) rep); [|done]. cbn [negb]. case_bool_decide as Hd; [done|].
  assert (msgs ms !! rep = None) as Hn. { apply eq_None_not_Some. intros ?. by apply Hd. }
  assert (∀ x, complete x → complete (x <| handled ::= (λ l, l ++ [(leaderMsg x, (range_order ord' (msgs x)).*2)]) |>)) as Ht by done.
  match goal with |- context [let '(_, _) := ?t in _] => set (next := t) end.
  assert (complete next.2) as Hc.
  { subst next. destruct (accept m (leaderMsg ms)); (split; [done|]); cbn -[size]; rewrite ?map_size_insert_None by done; lia. }
  destruct next as [added ms']. cbn [snd] in *. match goal with |- context [if ?b then _ else _] => destruct b end; [by apply Ht|done].
Qed.
End Sets.

(** ** Descriptors

    [desc_ok n b rc sq fq id d]: what holds of the descriptor [d] of [id] in
    ballot [b], after a [Sync] with the phases [rc], of which the commands [R] are
    installed.  [cmd_of] says which command the clients propose under an
    identity. *)
Section Inv.
Variable cmd_of : RequestID → Command.
Variable R : gset RequestID.

(** The command is the one proposed, or the no-op recovery puts in its place. *)
Definition genuine (id : RequestID) (cmd : Command) : Prop := cmd = cmd_of id ∨ cmd = mkCommand NONE 0 NIL.
Definition proposal_ok (id : RequestID) (p : proposal) : Prop := RequestID_of p = id ∧ Command_of p = cmd_of id.

Record ack_ok (b : Z) (id : RequestID) (rep : Z) (m : MFastAck) : Prop := mkAckOk {
  ack_id : FCmdId m = id; ack_ballot : FBallot m = b; ack_replica : FReplica m = rep }.

Definition follower_ack (n b : Z) (id : RequestID) (rep : Z) (m : MFastAck) : Prop :=
  rep ≠ SwiftQuorum.Leader b n ∧ ack_ok b id rep m.

(** An acknowledgement that waits for the proposal; its ballot is checked later. *)
Definition leader_ack (n b : Z) (id : RequestID) (m : MFastAck) : Prop :=
  FCmdId m = id ∧ FReplica m = SwiftQuorum.Leader b n.

Record set_ok (n b : Z) (qi : QuorumI) (id : RequestID) (ms : MsgSet (M:=MFastAck)) : Prop := mkSetOk {
  set_matching : mset_ok acceptFastAndSlowAck qi ms;
  set_acks : all_acks (follower_ack n b id) (ack_ok b id (SwiftQuorum.Leader b n)) ms;
  set_quiet : handled ms = [] }.

Record desc_ok (n b : Z) (rc : gmap RequestID Z) (sq fq : QuorumI) (id : RequestID) (d : commandDesc) : Prop := mkDescOk {
  d_active : active d = true;
  d_propose : ∀ p, propose d = Some p → proposal_ok id p ∧ genuine id (dcmd d);
  d_recovered : id ∈ R → genuine id (dcmd d);
  d_pending : Forall (leader_ack n b id) (pendingLeaderAcks d);
  d_slow : set_ok n b sq id (slowPathH d);
  d_fast : set_ok n b fq id (fastPathH d);
  d_commit : phase d = COMMIT → rc !! id = Some COMMIT ∨ complete (slowPathH d) ∨ complete (fastPathH d) }.

(** The leader of a ballot sends no slow acknowledgement in it. *)
Definition slow_ok (n : Z) (m : MLightSlowAck) : Prop := SReplica m ≠ SwiftQuorum.Leader (SBallot m) n.
Definition message_ok (n : Z) (id : RequestID) (m : message) : Prop :=
  match m with
  | Proposal p | DeferredProposal p => proposal_ok id p
  | LightSlowAck m => slow_ok n m
  | _ => True
  end.
Definition output_ok (n : Z) (o : output) : Prop := match o with OBatch (BSlow m _) => slow_ok n m | _ => True end.

Section Core.
Context `{SM : StateMachine}.

Definition work_ok (c : core) (w : localWork) : Prop :=
  match w with
  | descriptorWork _ _ id m => message_ok (cn c) id m
  | replyWork _ _ id args => rcmdID args = id ∧ id ∈ delivered c ∧ ∃ p, rpropose args = Some p ∧ proposal_ok id p
  | retryWork p => proposal_ok (RequestID_of p) p
  end.

(** ** Executions *)
Definition executed (l : list output) : list RequestID :=
  omap (λ o, match o with OExecute id _ _ _ => Some id | _ => None end) l.

(** [l] says of every execution: its identity is new, its dependencies are
    executed, it is committed (or optimistic), and the command is genuine. *)
Inductive ordered (opt : bool) : list output → Prop :=
  | ordered_nil : ordered opt []
  | ordered_quiet l o : ordered opt l → (∀ id cmd d ph, o ≠ OExecute id cmd d ph) → ordered opt (l ++ [o])
  | ordered_execute l id cmd d ph :
      ordered opt l → id ∉ executed l → (∀ x, x ∈ d → x ∈ executed l) → (ph = COMMIT ∨ opt = true) → genuine id cmd →
      ordered opt (l ++ [OExecute id cmd d ph]).

(** ** The invariant *)
Record core_ok (c : core) : Prop := mkCoreOk {
  ok_owned : ∀ id a, descriptors c !! id = Some a →
    a ∉ pool c ∧ ∃ d, heap c !! a = Some d ∧ desc_ok (cn c) (cballot c) (recoveryCmds c) (sq c) (fq c) id d;
  ok_inj : ∀ id1 id2 a, descriptors c !! id1 = Some a → descriptors c !! id2 = Some a → id1 = id2;
  ok_heap : ∀ a, is_Some (heap c !! a) → a < nextDesc c;
  ok_pool : ∀ a, a ∈ pool c → is_Some (heap c !! a);
  ok_work : Forall (work_ok c) (localQueue c);
  ok_proposes : ∀ id p, proposes c !! id = Some p → proposal_ok id p;
  ok_ballot : status c = NORMAL → ballot c = cballot c;
  ok_status : status c = NORMAL ∨ status c = RECOVERING;
  ok_out : ordered (optExec c) (out c);
  ok_sent : Forall (output_ok (cn c)) (out c);
  ok_delivered : ∀ id, id ∈ delivered c ↔ id ∈ executed (out c);
  ok_restored : ∀ id, id ∈ R → id ∈ delivered c ∨ is_Some (descriptors c !! id) }.

(** What the normal case leaves alone, what only grows, and a relation [F] that
    the contents of an owned descriptor keep. *)
Record ext (F : commandDesc → commandDesc → Prop) (c c' : core) : Prop := mkExt {
  ext_n : cn c' = cn c; ext_id : cid c' = cid c; ext_ballot : ballot c' = ballot c; ext_cballot : cballot c' = cballot c;
  ext_status : status c' = status c; ext_rc : recoveryCmds c' = recoveryCmds c; ext_sq : sq c' = sq c; ext_fq : fq c' = fq c;
  ext_opt : optExec c' = optExec c; ext_qs : qs c' = qs c; ext_fixed : fixedMajority c' = fixedMajority c;
  ext_acks : newLeaderAckNs c' = newLeaderAckNs c;
  ext_delivered : delivered c ⊆ delivered c';
  ext_descriptors : descriptors c ⊆ descriptors c';
  ext_frame : ∀ id a, descriptors c !! id = Some a → F (at_ c a) (at_ c' a) }.

(** Calls on other descriptors; completion of a message set; anything. *)
Definition still (d d' : commandDesc) : Prop :=
  phase d' = phase d ∧ slowPathH d' = slowPathH d ∧ fastPathH d' = fastPathH d ∧ propose d' = propose d ∧
  dep d' = dep d ∧ dcmd d' = dcmd d.
Definition keeps (d d' : commandDesc) : Prop := is_Some (propose d) → is_Some (propose d').
Definition sets_still (d d' : commandDesc) : Prop := slowPathH d' = slowPathH d ∧ fastPathH d' = fastPathH d ∧ keeps d d'.
#[export] Instance still_preorder : PreOrder still.
Proof. split; [by repeat split|]. unfold still. intros d1 d2 d3. intuition congruence. Qed.
#[export] Instance keeps_preorder : PreOrder keeps.
Proof. unfold keeps. split; [by intros d ?|]. intros d1 d2 d3. auto. Qed.
#[export] Instance sets_still_preorder : PreOrder sets_still.
Proof.
  split; [intros d; by split_and!; [..|intros ?]|]. intros d1 d2 d3 (? & ? & ?) (? & ? & ?).
  split_and!; [congruence..|]. unfold keeps in *. auto.
Qed.
Lemma still_sets d d' : still d d' → sets_still d d'.
Proof. intros (_ & ? & ? & Hp & _). split_and!; [done..|]. unfold keeps. by rewrite Hp. Qed.
Lemma sets_keeps d d' : sets_still d d' → keeps d d'.
Proof. by intros (_ & _ & ?). Qed.
Lemma still_keeps d d' : still d d' → keeps d d'.
Proof. intros H. by apply sets_keeps, still_sets. Qed.

#[export] Instance ext_preorder F `{!PreOrder F} : PreOrder (ext F).
Proof.
  split; [by intros c; constructor|]. intros c1 c2 c3 [] []. constructor; try congruence; try by etransitivity.
  intros id a Ha. transitivity (at_ c2 a); [by eapply ext_frame0|]. eapply ext_frame1. by eapply lookup_weaken.
Qed.

Lemma ext_owned F c c' id a : ext F c c' → descriptors c !! id = Some a → descriptors c' !! id = Some a.
Proof. intros He Ha. exact (lookup_weaken _ _ _ _ Ha (ext_descriptors _ _ _ He)). Qed.
Lemma ext_leader F c c' : ext F c c' → leader c' = leader c.
Proof. intros []. unfold leader. congruence. Qed.

(** The result of an operation: the invariant, from a state that it extends. *)
Definition good F (c : core) (c' : core) : Prop := core_ok c' ∧ ext F c c'.

Lemma good_refl F `{!PreOrder F} c : core_ok c → good F c c.
Proof. intros H. split; [done|reflexivity]. Qed.
Lemma good_trans F `{!PreOrder F} c1 c2 c3 : good F c1 c2 → good F c2 c3 → good F c1 c3.
Proof. intros [_ H1] [? H2]. split; [done|]. by transitivity c2. Qed.
Lemma good_weaken (F G : commandDesc → commandDesc → Prop) c c' :
  (∀ d d', F d d' → G d d') → good F c c' → good G c c'.
Proof. intros HFG [Hok []]. split; [done|]. constructor; try assumption. intros id a Ha. by eapply HFG, ext_frame0. Qed.
Lemma good_bind F `{!PreOrder F} c c1 (o : outcome core) : good F c c1 → ensures o (good F c1) → ensures o (good F c).
Proof. intros H1 H2. eapply ensures_mono; [exact H2|]. intros c2. by apply good_trans. Qed.

(** Loops over operations that keep the invariant. *)
Lemma good_forEach F `{!PreOrder F} {A} (f : A → core → outcome core) (P : A → Prop) l c :
  core_ok c → Forall P l → (∀ x c', P x → good F c c' → ensures (f x c') (good F c')) → ensures (forEach f l c) (good F c).
Proof.
  intros Hc HP Hf. enough (∀ c0, good F c c0 → ensures (forEach f l c0) (good F c)) as Hgo by by apply Hgo, good_refl.
  induction HP as [|x l Hx _ IH]; intros c0 Hg; [done|]. cbn.
  eapply ensures_bind; [by apply Hf|]. intros c' Hc'. apply IH. by eapply good_trans.
Qed.
Lemma good_foldl F `{!PreOrder F} {A} (f : core → A → core) l c :
  core_ok c → (∀ x c', x ∈ l → good F c c' → good F c' (f c' x)) → good F c (foldl f c l).
Proof.
  intros Hc Hf. apply (foldl_ind_in f (good F c)); [by apply good_refl; [apply _|]|].
  intros c' x Hx Hg. eapply good_trans; [done|exact Hg|]. by apply Hf.
Qed.

Ltac grefl := apply good_refl; [apply _|assumption].

(** ** Elementary steps *)
Lemma work_ok_mono c c' w : cn c' = cn c → delivered c ⊆ delivered c' → work_ok c w → work_ok c' w.
Proof. intros Hn Hd. destruct w; cbn; [by rewrite Hn| |done]. intros (? & ? & ?). split_and!; [done|by apply Hd|done]. Qed.

Lemma enqueue_good F `{!PreOrder F} c w : core_ok c → work_ok c w → good F c (enqueue w c).
Proof.
  intros Hok Hw. split; [|constructor; (reflexivity || (intros; reflexivity))]. destruct Hok. constructor; try done. cbn. apply Forall_app. split; [done|]. by constructor.
Qed.

Definition is_execute (o : output) : Prop := match o with OExecute _ _ _ _ => True | _ => False end.
Lemma executed_app l1 l2 : executed (l1 ++ l2) = executed l1 ++ executed l2.
Proof. unfold executed. apply omap_app. Qed.
Lemma say_good F `{!PreOrder F} c o : core_ok c → ¬ is_execute o → output_ok (cn c) o → good F c (say o c).
Proof.
  intros Hok Ho Hsent. split; [|constructor; (reflexivity || (intros; reflexivity))]. destruct Hok. constructor; try done; cbn.
  - apply ordered_quiet; [done|]. by intros ? ? ? ? ->.
  - apply Forall_app. split; [done|]. by constructor.
  - intros id. rewrite executed_app. assert (executed [o] = []) as -> by by destruct o. by rewrite app_nil_r.
Qed.

(** A write to the descriptor of [id]. *)
Lemma at_owned c id a : core_ok c → descriptors c !! id = Some a →
  heap c !! a = Some (at_ c a) ∧ a ∉ pool c ∧ desc_ok (cn c) (cballot c) (recoveryCmds c) (sq c) (fq c) id (at_ c a).
Proof. intros Hok Ha. destruct (ok_owned c Hok id a Ha) as (Hp & d & Hd & Hdok). unfold at_. by rewrite Hd. Qed.

Lemma at_upd c a f : is_Some (heap c !! a) → at_ (upd a f c) a = f (at_ c a).
Proof. intros [d Hd]. unfold at_, upd. cbn. by rewrite lookup_alter_eq, Hd. Qed.

Lemma upd_good F `{!PreOrder F} c id a f :
  core_ok c → descriptors c !! id = Some a →
  desc_ok (cn c) (cballot c) (recoveryCmds c) (sq c) (fq c) id (f (at_ c a)) →
  F (at_ c a) (f (at_ c a)) → good F c (upd a f c).
Proof.
  intros Hok Ha Hf Hkeep. destruct (at_owned c id a Hok Ha) as (Hd & Hp & _). split.
  2: { constructor; try reflexivity. intros id' b _. destruct (decide (b = a)) as [->|Hne]; [by rewrite at_upd by by eexists|].
       unfold at_, upd. cbn. rewrite lookup_alter_ne by done. reflexivity. }
  destruct Hok. constructor; try done; cbn.
  - intros id' b Hb. destruct (ok_owned0 id' b Hb) as (Hpb & d & Hdb & Hdok). split; [done|].
    destruct (decide (b = a)) as [->|Hne].
    + assert (id' = id) as -> by by eapply ok_inj0. rewrite lookup_alter_eq, Hd. by eexists.
    + rewrite lookup_alter_ne by done. by exists d.
  - intros b. rewrite lookup_alter. destruct (decide (a = b)) as [->|]; [|apply ok_heap0].
    rewrite fmap_is_Some. apply ok_heap0.
  - intros b Hb%ok_pool0. rewrite lookup_alter. destruct (decide (a = b)); [by rewrite fmap_is_Some|done].
Qed.

(** ** Descriptors *)
Lemma empty_set_ok n b qi id ms : msgs ms = ∅ → leaderMsg ms = None → handled ms = [] → q ms = qi → set_ok n b qi id ms.
Proof.
  intros Hm Hl Hh Hq. split; [split|split|done]; rewrite ?Hm, ?Hl, ?Hh; [done|intros ? ? ?|intros ? ?%not_elem_of_nil|intros ? ? ?|done];
    by simplify_map_eq.
Qed.
Lemma Reinit_set_ok n b qi id ms : set_ok n b qi id (ReinitMsgSet qi ms).
Proof.
  apply empty_set_ok; destruct ms as [ms|]; try done. cbn. apply map_eq. intros k. rewrite lookup_empty. apply map_lookup_filter_None. by right; intros ? ? ?.
Qed.

Lemma allocDesc_spec e c a c' :
  core_ok c → allocDesc e c = (a, c') →
  ∃ next free, c' = c <| nextDesc := next |> <| pool := free |> ∧
    (∀ b, b ∈ free → b ∈ pool c ∧ b ≠ a) ∧ nextDesc c ≤ next ∧ a < next ∧ (∀ id, descriptors c !! id ≠ Some a).
Proof.
  intros Hok. assert (∀ id, descriptors c !! id ≠ Some (nextDesc c)) as Hf.
  { intros id Hid. destruct (at_owned c id _ Hok Hid) as (Hd & _). pose proof (ok_heap c Hok (nextDesc c) (ex_intro _ _ Hd)). lia. }
  assert (∀ b, b ∈ pool c → b ≠ nextDesc c) as Hb.
  { intros b Hb ->. pose proof (ok_heap c Hok _ (ok_pool c Hok _ Hb)). lia. }
  assert ((nextDesc c, c <| nextDesc ::= (λ a, a + 1) |>) = (a, c') →
    ∃ next free, c' = c <| nextDesc := next |> <| pool := free |> ∧
      (∀ b, b ∈ free → b ∈ pool c ∧ b ≠ a) ∧ nextDesc c ≤ next ∧ a < next ∧ (∀ id, descriptors c !! id ≠ Some a)) as Hfresh.
  { intros [= <- <-]. exists (nextDesc c + 1), (pool c). split_and!; [by destruct c|by auto|lia|lia|done]. }
  unfold allocDesc. destruct (0 <? descriptorPoolLevel c); [|done]. destruct (pool_get _ _ _) as [p|]; [|done].
  case_bool_decide as Hp; [|done]. intros [= <- <-]. exists (nextDesc c), (pool c ∖ {[p]}).
  split_and!; [by destruct c|set_solver|lia| |].
  - apply (ok_heap c Hok), (ok_pool c Hok), Hp.
  - intros id Hid. by destruct (at_owned c id _ Hok Hid) as (_ & Hn & _).
Qed.

(** A new descriptor for a command that has none. *)
Lemma newDesc_good e c id a c' :
  core_ok c → descriptors c !! id = None → id ∉ R → newDesc e c = (a, c') →
  good still c (c' <| descriptors ::= <[id := a]> |>).
Proof.
  intros Hok Hid HR. unfold newDesc. destruct (allocDesc e c) as [b c1] eqn:Ha.
  destruct (allocDesc_spec e c b c1 Hok Ha) as (next & free & -> & Hp & Hn & Hb & Hnew). intros [= -> <-].
  split.
  2: { constructor; try reflexivity; cbn; [by apply insert_subseteq|]. intros id' x Hx. unfold at_. cbn.
       rewrite lookup_insert_ne by (intros ->; by apply (Hnew id')). reflexivity. }
  pose proof Hok as []. constructor; cbn; [| | | |assumption..|].
  - intros id' x. rewrite lookup_insert_Some. intros [[<- <-]|[Hne Hx]].
    + split; [intros Hbp; by apply Hp in Hbp as [_ ?]|]. rewrite lookup_insert_eq. eexists. split; [done|].
      split; cbn; try done; by apply Reinit_set_ok.
    + assert (x ≠ a) as Hxa by (intros ->; by apply (Hnew id')).
      rewrite lookup_insert_ne by done. destruct (ok_owned0 id' x Hx) as (Hpx & d & Hd & Hdok).
      split; [intros Hbp; by apply Hp in Hbp as [? _]|by exists d].
  - intros id1 id2 x. rewrite !lookup_insert_Some. intros [[<- <-]|[Hne Hx]] [[<- E2]|[Hne2 Hy]]; [done| | |by eapply ok_inj0].
    + by destruct (Hnew id2).
    + subst x. by destruct (Hnew id1).
  - intros x. rewrite lookup_insert_is_Some. intros [<-|[_ Hx]]; [done|]. apply ok_heap0 in Hx. lia.
  - intros x [Hx _]%Hp. apply lookup_insert_is_Some'. right. by apply ok_pool0.
  - intros x Hx. destruct (ok_restored0 x Hx) as [?|?]; [by left|right]. apply lookup_insert_is_Some'. by right.
Qed.

Lemma getCmdDescWithHashes_good e id m dep hs c :
  core_ok c → (∀ x, m = Some x → message_ok (cn c) id x) →
  let r := getCmdDescWithHashes e id m dep hs c in
  good still c r.2 ∧ (∀ a, r.1 = Some a → descriptors r.2 !! id = Some a) ∧ (r.1 = None → id ∈ delivered c).
Proof.
  intros Hok Hm. cbv zeta. unfold getCmdDescWithHashes, hasDelivered. case_bool_decide as Hd; [split; [grefl|done]|].
  match goal with |- context [let '(_, _) := ?t in _] => set (found := t) end.
  assert (good still c found.2 ∧ descriptors found.2 !! id = Some found.1) as [Hg Ho].
  { subst found. destruct (descriptors c !! id) as [a|] eqn:Ha; [split; [grefl|done]|].
    destruct (newDesc e c) as [a c'] eqn:Hn. cbn. split; [|by rewrite lookup_insert_eq].
    eapply newDesc_good; [done|done| |done]. intros [?|[? E]]%(ok_restored c Hok); [done|]. by rewrite Ha in E. }
  destruct found as [a c1]. cbn [fst snd] in *.
  match goal with |- context [enqueue _ ?t] => set (c2 := t) end.
  assert (good still c1 c2) as Hg2.
  { subst c2. destruct Hg as [Hok1 _]. destruct (at_owned c1 id a Hok1 Ho) as (Hd1 & _ & Hdok).
    destruct dep as [dep|]; [|grefl]. destruct (proposeDep (at_ c1 a)); [grefl|].
    assert (good still c1 (upd a (λ d, d <| proposeDep := Some dep |>) c1)) as Hg1.
    { eapply upd_good; [apply _|done|done| |done]. by destruct Hdok. }
    destruct hs as [hs|]; [|done]. eapply good_trans; [apply _|exact Hg1|]. destruct Hg1 as [Hok2 He2].
    eapply upd_good; [apply _|done|by eapply ext_owned| |done]. destruct (at_owned _ id a Hok2 (ext_owned _ _ _ _ _ He2 Ho)) as (_ & _ & Hdok2).
    by destruct Hdok2. }
  assert (good still c c2) as Hg3 by by eapply good_trans; [apply _|..].
  assert (descriptors c2 !! id = Some a) as Ho2 by (eapply ext_owned; [apply Hg2|done]).
  cbn [fst snd]. split; [|split; [|done]].
  - destruct m as [m|]; [|done]. eapply good_trans; [apply _|exact Hg3|]. apply enqueue_good; [apply _|apply Hg3|]. cbn. rewrite (ext_n _ _ _ (proj2 Hg3)). by apply Hm.
  - intros ? [= <-]. by destruct m.
Qed.

Lemma hand_good e id m c : core_ok c → message_ok (cn c) id m → good still c (hand e id m c).
Proof. intros Hok Hm. unfold hand. apply getCmdDescWithHashes_good; [done|]. by intros ? [= <-]. Qed.
Lemma scheduleDelivery_good e id c : core_ok c → good still c (scheduleDelivery e id c).
Proof. intros Hok. by apply hand_good. Qed.

(** ** Execution *)
Lemma queueReply_good c id a v :
  core_ok c → descriptors c !! id = Some a → id ∈ delivered c → is_Some (propose (at_ c a)) → good still c (queueReply a id v c).
Proof.
  intros Hok Ha Hd [p Hp]. apply enqueue_good; [apply _|done|]. cbn. split_and!; [done..|]. exists p. split; [done|].
  by eapply (d_propose _ _ _ _ _ _ _ (proj2 (proj2 (at_owned c id a Hok Ha)))).
Qed.

Lemma apply_good e id a c : core_ok c → descriptors c !! id = Some a → ensures (apply e a id c) (good still c).
Proof.
  intros Hok Ha. unfold apply. destruct (at_owned c id a Hok Ha) as (Hd & _ & Hdok).
  destruct (propose (at_ c a)) as [p|] eqn:Hp; [|grefl]. cbn [bool_decide orb].
  rewrite (bool_decide_eq_false_2 (Some p = None)) by done. cbn [orb].
  unfold hasDelivered at 1. case_bool_decide as Hnd; [grefl|]. cbn [orb].
  destruct (executeEnabled c); [|grefl]. cbn [negb].
  destruct (negb (phase (at_ c a) =? COMMIT) && _) eqn:Hph; [grefl|].
  destruct (forallb _ _) eqn:Hdeps; [|grefl]. cbn [negb].
  cbv zeta. destruct (sm_execute _ _) as [[v st]| |]; [|done|done]. cbn [mbind outcome_bind].
  set (c1 := say _ _).
  assert (good still c c1) as Hg.
  { split; [|constructor; first [reflexivity|intros; reflexivity|cbn; set_solver]]. pose proof Hok as []. constructor; try done; cbn.
    - eapply Forall_impl; [exact ok_work0|]. intros w. apply work_ok_mono; [done|set_solver].
    - apply ordered_execute; [done| | | |].
      + intros Hin. by apply Hnd, ok_delivered0.
      + intros x Hx. apply ok_delivered0. rewrite forallb_forall in Hdeps. specialize (Hdeps x).
        unfold hasDelivered in Hdeps. rewrite bool_decide_eq_true in Hdeps. apply Hdeps. by apply list_elem_of_In.
      + apply andb_false_iff in Hph as [Hph|Hph]; [left; lia|right]. apply orb_false_iff in Hph as [Hph _]. by destruct (optExec c).
      + by eapply (d_propose _ _ _ _ _ _ _ Hdok).
    - apply Forall_app. split; [done|]. by constructor.
    - intros x. rewrite executed_app, elem_of_app, elem_of_union, elem_of_singleton, ok_delivered0. cbn.
      rewrite list_elem_of_singleton. tauto.
    - intros x Hx. destruct (ok_restored0 x Hx); [left|by right]. set_solver. }
  assert (good still c1 (foldl (λ c id, scheduleDelivery e id c) c1 (successors (at_ c1 a)))) as Hg2.
  { apply good_foldl; [apply _|apply Hg|]. intros x c' _ Hc'. apply scheduleDelivery_good, Hc'. }
  set (c2 := foldl _ _ _) in *. pose proof (good_trans _ _ _ _ Hg Hg2) as Hg3. cbn [ensures].
  destruct (replyAfterExecution c2); [|done]. eapply good_trans; [apply _|exact Hg3|]. destruct Hg3 as [Hok3 He3].
  apply queueReply_good; [done|by eapply ext_owned| |].
  - apply (ext_delivered _ _ _ (proj2 Hg2)). cbn. set_solver.
  - destruct (ext_frame _ _ _ He3 id a Ha) as (_ & _ & _ & E & _). by rewrite E, Hp.
Qed.

(** ** Acknowledgements *)
Definition other (w : path) : path := match w with SlowPath => FastPath | FastPath => SlowPath end.
Abbreviation quorum_of w c := (match w with SlowPath => sq c | FastPath => fq c end).

Lemma path_set_ok c id w d :
  desc_ok (cn c) (cballot c) (recoveryCmds c) (sq c) (fq c) id d → set_ok (cn c) (cballot c) (quorum_of w c) id (path_set w d).
Proof. intros []. by destruct w. Qed.

Lemma acksHandler_good e c id a l :
  core_ok c → descriptors c !! id = Some a →
  (∀ m, l = Some m → FCmdId m = id ∧ (complete (slowPathH (at_ c a)) ∨ complete (fastPathH (at_ c a)))) →
  ensures (acksHandler e a l c) (good sets_still c).
Proof.
  intros Hok Ha Hl. destruct l as [m|]; [|grefl]. destruct (Hl m eq_refl) as [Hid Hcomplete]. unfold acksHandler. cbv zeta.
  destruct (at_owned c id a Hok Ha) as (Hd & _ & Hdok).
  assert (good sets_still c (upd a (λ d, d <| phase := COMMIT |>) c)) as Hg.
  { eapply upd_good; [apply _|done|done| |split_and!; [done..|by intros ?]]. destruct Hdok. split; try done. cbn. intros _. by right. }
  set (c1 := upd a _ c) in *.
  match goal with |- context [foldl ?f c1 ?l] => assert (good still c1 (foldl f c1 l)) as Hg2; [|set (c2 := foldl f c1 l) in *] end.
  { apply good_foldl; [apply _|apply Hg|]. intros x c' _ [Hok' _].
    destruct (getCmdDescWithHashes_good e x None None None c' Hok') as (Hg' & Hb & _); [done|].
    unfold getCmdDesc. destruct (getCmdDescWithHashes e x None None None c') as [[b|] c3]; cbn [fst snd] in *; [|done].
    eapply good_trans; [apply _|exact Hg'|]. eapply upd_good; [apply _|apply Hg'|by apply Hb| |done].
    destruct (at_owned _ x b (proj1 Hg') (Hb b eq_refl)) as (_ & _ & []). by split. }
  rewrite Hid. eapply good_bind; [apply _| |].
  { eapply good_trans; [apply _|exact Hg|]. eapply good_weaken; [apply still_sets|exact Hg2]. }
  eapply ensures_mono; [apply (apply_good e id)|]; [apply Hg2|eapply ext_owned; [apply Hg2|done]|].
  intros c3. apply good_weaken, still_sets.
Qed.

Lemma addAck_good e w c id a rep isLeader m :
  core_ok c → descriptors c !! id = Some a →
  (isLeader = true → ack_ok (cballot c) id (SwiftQuorum.Leader (cballot c) (cn c)) m) →
  (isLeader = false → follower_ack (cn c) (cballot c) id rep m) →
  (isLeader = true → phase (at_ c a) = COMMIT → recoveryCmds c !! id = Some COMMIT ∨ complete (path_set (other w) (at_ c a))) →
  ensures (addAck e w a rep isLeader m c) (λ c', good keeps c c' ∧
    (phase (at_ c' a) = COMMIT → phase (at_ c a) = COMMIT ∨ complete (path_set w (at_ c' a)))).
Proof.
  intros Hok Ha HL HF Hph. destruct (at_owned c id a Hok Ha) as (Hd & _ & Hdok).
  pose proof (path_set_ok c id w _ Hdok) as Hset. unfold addAck. cbv zeta.
  set (ms' := (Add _ _ _ _ _ _ _).2).
  destruct (Add_spec acceptFastAndSlowAck (follower_ack (cn c) (cballot c) id) (ack_ok (cballot c) id (SwiftQuorum.Leader (cballot c) (cn c)))
    [] [] rep isLeader m (path_set w (at_ c a)) (set_quiet _ _ _ _ _ Hset) (set_acks _ _ _ _ _ Hset) HL HF) as (Hq & Hall & Hh).
  fold ms' in Hq, Hall, Hh.
  pose proof (Add_ok acceptFastAndSlowAck (quorum_of w c) [] [] rep isLeader m _ (set_matching _ _ _ _ _ Hset)) as Hm. fold ms' in Hm.
  assert (set_ok (cn c) (cballot c) (quorum_of w c) id (untraced ms')) as Hset'.
  { split; [|done|done]. destruct Hm. split; [done|done|]. by intros ? ?%not_elem_of_nil. }
  assert (isLeader = false → complete (path_set w (at_ c a)) → complete (untraced ms')) as Hgrow.
  { intros -> Hc. by apply (Add_follower_complete acceptFastAndSlowAck [] [] rep m) in Hc. }
  set (c1 := upd a _ c).
  assert (at_ c1 a = set_path w (untraced ms') (at_ c a)) as E1 by (apply at_upd; by eexists).
  assert (good keeps c c1) as Hg.
  { eapply upd_good; [apply _|done|done| |destruct w; by intros ?]. destruct Hdok. destruct w; split; try done; cbn; intros Hp.
    - destruct isLeader; [destruct (Hph eq_refl Hp) as [?|?]; [by left|by right; right]|].
      destruct (d_commit0 Hp) as [?|[?|?]]; [by left|right; left; by apply Hgrow|by right; right].
    - destruct isLeader; [destruct (Hph eq_refl Hp) as [?|?]; [by left|by right; left]|].
      destruct (d_commit0 Hp) as [?|[?|?]]; [by left|by right; left|right; right; by apply Hgrow]. }
  assert (path_set w (at_ c1 a) = untraced ms') as E2 by (rewrite E1; by destruct w).
  destruct Hh as [Hh|[Hh Hcomplete]]; rewrite Hh; cbn [forEach].
  { cbn [ensures]. split; [done|]. intros Hp. left. rewrite E1 in Hp. by destruct w. }
  cbn [fst]. assert (descriptors c1 !! id = Some a) as Ha1 by done.
  assert (ensures (acksHandler e a (leaderMsg ms') c1) (λ c', good sets_still c1 c' ∧ (leaderMsg ms' = None → c' = c1))) as Hend.
  { destruct (leaderMsg ms') as [lm|] eqn:Hlm; [|split; [apply good_refl; [apply _|apply Hg]|done]].
    eapply ensures_mono; [apply (acksHandler_good e c1 id a); [apply Hg|done|]|by split].
    intros ? [= <-]. assert (complete (untraced ms')) as Hc by (apply Hcomplete; by eexists). split.
    - destruct Hall as [_ Hall]. by destruct (Hall lm Hlm).
    - rewrite <- E2 in Hc. destruct w; [by left|by right]. }
  destruct (acksHandler e a (leaderMsg ms') c1) as [c2| |]; [|done|done]. destruct Hend as [Hg2 Hsame]. cbn [mbind outcome_bind ensures].
  split; [eapply good_trans; [apply _|exact Hg|]; by eapply good_weaken; [apply sets_keeps|]|]. intros Hp.
  destruct (leaderMsg ms') as [lm|] eqn:Hlm.
  - right. destruct (ext_frame _ _ _ (proj2 Hg2) id a Ha1) as (Es & Ef & _).
    assert (path_set w (at_ c2 a) = untraced ms') as -> by (rewrite <- E2; by destruct w). apply Hcomplete. by eexists.
  - left. rewrite (Hsame eq_refl), E1 in Hp. by destruct w.
Qed.
End Core.
End Inv.

(** Nothing changed. *)
Ltac grefl := apply good_refl; [apply _|assumption].
End SwiftInv.
