(* ===== verification/SwiftNormal.v ===== *)
(** * SwiftNormal: the normal case keeps the invariant

    Acknowledgements, proposals, hash logs and the local work of a Swift replica
    keep [SwiftInv.core_ok]. *)
From stdpp Require Import gmap strings list fin_maps fin_sets.
From Stdlib Require Import Lia.
From S2P Require Import Prelude State ReplicaSet Defs SwiftQuorum SwiftHashLog SwiftSets SwiftConflicts Swift SwiftCore SwiftInv.

Module SwiftNormal.
Import SwiftSets Swift SwiftCore SwiftInv.

(** A write to a descriptor after which its invariant is immediate. *)
Ltac write_desc := eapply upd_good; [apply _|try done|try done| |try (by intros ?)].

Section Core.
Context `{SM : StateMachine}.
Variable Sum256 : bytes → bytes.
Variable maxAlloc : Z.
Variable cmd_of : RequestID → Command.
Variable R : gset RequestID.
Local Abbreviation core_ok := (core_ok cmd_of R).
Local Abbreviation good := (good cmd_of R).

(** A replica in normal operation, working on the descriptor of [id]. *)
Record working (c : core) (id : RequestID) (a : Z) : Prop := mkWorking {
  w_ok : core_ok c;
  w_status : status c = NORMAL;
  w_owned : descriptors c !! id = Some a }.

Lemma working_good F c c' id a : working c id a → good F c c' → working c' id a.
Proof.
  intros [Hok Hs Ha] [Hok' He]. split; [done|by rewrite (ext_status _ _ _ He)|by eapply ext_owned].
Qed.

Lemma working_leader c id a : working c id a → SwiftQuorum.Leader (cballot c) (cn c) = leader c.
Proof. intros [Hok Hs _]. unfold leader. by rewrite (ok_ballot _ _ c Hok Hs). Qed.

Lemma working_desc c id a : working c id a →
  heap c !! a = Some (at_ c a) ∧ desc_ok cmd_of R (cn c) (cballot c) (recoveryCmds c) (sq c) (fq c) id (at_ c a).
Proof. intros [Hok _ Ha]. by destruct (at_owned _ _ c id a Hok Ha) as (? & _ & ?). Qed.

Lemma commonCaseFastAck_good e id a m c :
  working c id a → FCmdId m = id → FReplica m ≠ leader c → ensures (commonCaseFastAck e m a c) (good keeps c).
Proof.
  intros Hw Hid Hne. pose proof Hw as [Hok Hs Ha]. unfold commonCaseFastAck. rewrite Hs. cbn [negb orb NORMAL Z.eqb].
  destruct (ballot c =? FBallot m) eqn:Hb; [|grefl]. apply Z.eqb_eq in Hb. cbn [negb]. cbv zeta.
  rewrite (proj2 (Z.eqb_neq (FReplica m) (leader c)) Hne).
  assert (∀ c', good keeps c c' → follower_ack (cn c') (cballot c') id (FReplica m) m) as Hf.
  { intros c' [_ He]. rewrite (ext_n _ _ _ He), (ext_cballot _ _ _ He). split; [by rewrite (working_leader c id a)|].
    split; [done| |done]. by rewrite <- (ok_ballot _ _ c Hok Hs). }
  assert (∀ w c', good keeps c c' → ensures (addAck e w a (FReplica m) false m c') (good keeps c)) as Hadd.
  { intros w c' Hg. eapply good_bind; [apply _|exact Hg|].
    eapply ensures_mono; [apply (addAck_good cmd_of R e w c' id a); [apply Hg|eapply ext_owned; [apply Hg|done]|done|..]|].
    - intros _. by apply Hf.
    - done.
    - by intros c'' [? _]. }
  assert (good keeps c c) as Hrefl by grefl.
  destruct (FDep m); [by apply Hadd|]. eapply ensures_bind; [by apply Hadd|]. intros c' Hg.
  destruct (hasDelivered (FCmdId m) c'); [done|]. by apply Hadd.
Qed.

Lemma handleLightSlowAck_good e id a m c :
  working c id a → SCmdId m = id → slow_ok (cn c) m → ensures (handleLightSlowAck e m a c) (good keeps c).
Proof.
  intros Hw Hid Hs. unfold handleLightSlowAck. destruct (decide (SBallot m = ballot c)) as [Hb|Hb].
  - apply (commonCaseFastAck_good e id); [done..|]. cbn. unfold slow_ok in Hs. by rewrite Hb in Hs.
  - pose proof (w_ok _ _ _ Hw). unfold commonCaseFastAck. cbn [FBallot].
    rewrite (proj2 (Z.eqb_neq (ballot c) (SBallot m))) by congruence. rewrite orb_true_r. grefl.
Qed.

Lemma sendClient_good F `{!PreOrder F} x m c : core_ok c → good F c (sendClient x m c).
Proof. intros Hok. apply say_good; [apply _|done|by intros ?|done]. Qed.

Lemma reportMismatch_good F `{!PreOrder F} b hs m c : core_ok c → good F c (reportMismatch b hs m c).
Proof.
  intros Hok. unfold reportMismatch. destruct (_ || _); [grefl|]. destruct (_ && _); [|grefl]. apply sendClient_good; [apply _|done].
Qed.

Lemma processLeaderFastAck_good e id a m c :
  working c id a → leader_ack (cn c) (cballot c) id m → ensures (processLeaderFastAck e m a c) (good keeps c).
Proof.
  intros Hw [Hid Hl]. pose proof Hw as [Hok Hs Ha]. unfold processLeaderFastAck. rewrite Hs. cbn [negb orb NORMAL Z.eqb].
  destruct (ballot c =? FBallot m) eqn:Hb; [|grefl]. apply Z.eqb_eq in Hb. cbn [negb]. cbv zeta.
  assert (ack_ok (cballot c) id (SwiftQuorum.Leader (cballot c) (cn c)) m) as Hack.
  { split; [done| |done]. by rewrite <- (ok_ballot _ _ c Hok Hs). }
  destruct (working_desc c id a Hw) as [Hd Hdok].
  assert (good keeps c (upd a (λ d, d <| phase := ACCEPT |>) c)) as Hg1. { write_desc. by destruct Hdok. }
  set (c1 := upd a _ c) in *. assert (phase (at_ c1 a) = ACCEPT) as Hph1 by (unfold c1; rewrite at_upd by (by eexists); done).
  eapply (ensures_bind _ _ (λ c', good keeps c c' ∧ (phase (at_ c' a) = COMMIT → complete (slowPathH (at_ c' a))))).
  { eapply ensures_mono; [apply (addAck_good cmd_of R e SlowPath c1 id a); [apply Hg1|done|done|done|]|].
    - intros _. by rewrite Hph1.
    - intros c' [Hg Hp]. split; [by eapply good_trans; [apply _|exact Hg1|]|]. intros [?|?]%Hp; [|done]. by rewrite Hph1 in *. }
  intros c2 [Hg2 Hp2]. eapply (ensures_bind _ _ (good keeps c)).
  { destruct (hasDelivered _ c2); [done|]. eapply good_bind; [apply _|exact Hg2|].
    eapply ensures_mono; [apply (addAck_good cmd_of R e FastPath c2 id a);
      [apply Hg2|eapply ext_owned; [apply Hg2|done]|..|done|]|by intros ? [? _]].
    - intros _. by rewrite (ext_cballot _ _ _ (proj2 Hg2)), (ext_n _ _ _ (proj2 Hg2)).
    - intros _ Hp. right. by apply Hp2. }
  intros c3 Hg3. eapply (ensures_bind _ _ (good keeps c)).
  2: { intros c4 Hg4. cbn. eapply good_trans; [apply _|exact Hg4|]. apply reportMismatch_good; [apply _|apply Hg4]. }
  match goal with |- context [if ?b then _ else Done c3] => destruct b eqn:Hslow end; [|done].
  apply andb_prop in Hslow as [Hlead _].
  match goal with |- context [upd a (λ d, d <| slowPath := true |>) ?x] => assert (good keeps c x) as Hg4; [|set (c4 := x) in *] end.
  { destruct (_ && _); [|done]. eapply good_trans; [apply _|exact Hg3|].
    destruct (working_desc c3 id a (working_good _ _ _ _ _ Hw Hg3)) as [_ Hdok3].
    write_desc; [apply Hg3|eapply ext_owned; [apply Hg3|done]|]. by destruct Hdok3. }
  assert (good keeps c (upd a (λ d, d <| slowPath := true |>) c4)) as Hg5.
  { eapply good_trans; [apply _|exact Hg4|]. destruct (working_desc c4 id a (working_good _ _ _ _ _ Hw Hg4)) as [_ Hdok4].
    write_desc; [apply Hg4|eapply ext_owned; [apply Hg4|done]|]. by destruct Hdok4. }
  set (c5 := upd a _ c4) in *. set (ack := mkLightSlowAck _ _ _).
  assert (slow_ok (cn c) ack) as Hack5.
  { unfold slow_ok, ack. cbn [SReplica SBallot]. rewrite (ext_id _ _ _ (proj2 Hg5)), (ext_ballot _ _ _ (proj2 Hg5)).
    fold (leader c). change (leader c1) with (leader c) in Hlead. change (cid c1) with (cid c) in Hlead. intros E.
    rewrite E in Hlead. unfold leader in Hlead. by rewrite Z.eqb_refl in Hlead. }
  match goal with |- context [handleLightSlowAck e ack a ?x] => assert (good keeps c x) as Hg6; [|set (c6 := x) in *] end.
  { eapply good_trans; [apply _|exact Hg5|]. destruct (optExec c5); (apply say_good; [apply _|apply Hg5|by intros ?|]);
      cbn [output_ok]; by rewrite (ext_n _ _ _ (proj2 Hg5)). }
  destruct (hasDelivered _ c3); [done|]. eapply good_bind; [apply _|exact Hg6|].
  apply (handleLightSlowAck_good e id); [by eapply working_good|done|]. by rewrite (ext_n _ _ _ (proj2 Hg6)).
Qed.

Lemma replayPendingLeaderAcks_good e id a c :
  working c id a → ensures (replayPendingLeaderAcks e a c) (λ r, good keeps c r.2).
Proof.
  intros Hw. pose proof Hw as [Hok Hs Ha]. unfold replayPendingLeaderAcks. cbv zeta.
  destruct (propose (at_ c a)); [|grefl]. destruct (pendingLeaderAcks (at_ c a)) as [|m l] eqn:Hp; [grefl|].
  destruct (working_desc c id a Hw) as [Hd Hdok].
  assert (good keeps c (upd a (λ d, d <| pendingLeaderAcks := [] |>) c)) as Hg. { write_desc. by destruct Hdok. }
  set (c1 := upd a _ c) in *. eapply (ensures_bind _ _ (good keeps c)); [|by intros c' ?].
  eapply good_bind; [apply _|exact Hg|]. apply (good_forEach _ _ _ _ (leader_ack (cn c) (cballot c) id)); [apply Hg| |].
  - rewrite <- Hp. by destruct Hdok.
  - intros x c' Hx Hg'. apply (processLeaderFastAck_good e id).
    + eapply working_good; [|exact Hg']. by eapply working_good.
    + by rewrite (ext_n _ _ _ (proj2 Hg')), (ext_cballot _ _ _ (proj2 Hg')).
Qed.

Lemma handleFastAck_good e id a m c : working c id a → FCmdId m = id → ensures (handleFastAck e m a c) (good keeps c).
Proof.
  intros Hw Hid. pose proof Hw as [Hok Hs Ha]. unfold handleFastAck. destruct (FReplica m =? leader c) eqn:Hl.
  2: { apply (commonCaseFastAck_good e id); [done|done|lia]. }
  assert (leader_ack (cn c) (cballot c) id m) as Hlead. { split; [done|]. rewrite (working_leader c id a Hw). lia. }
  unfold fastAckFromLeader. destruct (propose (at_ c a)) as [p|] eqn:Hp.
  - eapply ensures_bind; [by apply (replayPendingLeaderAcks_good e id)|]. intros [b c'] Hg. cbn in Hg.
    eapply good_bind; [apply _|exact Hg|]. apply (processLeaderFastAck_good e id); [by eapply working_good|].
    by rewrite (ext_n _ _ _ (proj2 Hg)), (ext_cballot _ _ _ (proj2 Hg)).
  - cbn [ensures]. destruct (working_desc c id a Hw) as [_ Hdok]. write_desc. destruct Hdok. split; try done.
    cbn. apply Forall_app. split; [done|]. by constructor.
Qed.

(** ** Recovery acknowledgements *)
Definition finish_ok (n : Z) (id : RequestID) (desc : option Z) (f : finishAck) : Prop :=
  match f with
  | FinishNothing => True
  | FinishFastAck ack a => desc = Some a ∧ FCmdId ack = id
  | FinishSlowAck ack a => desc = Some a ∧ SCmdId ack = id ∧ slow_ok n ack
  end.

Lemma sendRecoveryAck_good F `{!PreOrder F} id d p desc c :
  core_ok c → good F c (sendRecoveryAck id d p desc c).2 ∧ finish_ok (cn c) id desc (sendRecoveryAck id d p desc c).1.
Proof.
  intros Hok. unfold sendRecoveryAck. destruct (negb _); [split; [grefl|done]|]. destruct (cid c =? leader c) eqn:Hl; cbn [fst snd].
  - split; [|by destruct desc]. unfold SendFastAck. set (o := OBatch _).
    assert (good F c (say o c)) as Hg by (apply say_good; [apply _|done|by intros ?|done]).
    eapply good_trans; [apply _|exact Hg|]. apply sendClient_good; [apply _|apply Hg].
  - assert (slow_ok (cn c) (mkLightSlowAck (cid c) (ballot c) id)) as Hs.
    { unfold slow_ok. cbn. fold (leader c). lia. }
    split; [|by destruct desc]. apply say_good; [apply _|done|by intros ?|done].
Qed.

Lemma run_finish_good e id desc f c :
  core_ok c → status c = NORMAL → finish_ok (cn c) id desc f → (∀ a, desc = Some a → descriptors c !! id = Some a) →
  ensures (run_finish e f c) (good keeps c).
Proof.
  intros Hok Hs Hf Ha. destruct f as [|ack a|ack a]; cbn in *; [grefl| |].
  - destruct Hf as [Hd Hid]. by apply (handleFastAck_good e id); [split; [..|apply Ha]|].
  - destruct Hf as (Hd & Hid & Hslow). by apply (handleLightSlowAck_good e id); [split; [..|apply Ha]|..].
Qed.

(** ** Proposals *)
Lemma upd_twice a f g c : upd a g (upd a f c) = upd a (λ d, g (f d)) c.
Proof. unfold upd, set, set_heap. cbn. by rewrite alter_alter_eq. Qed.

Lemma handlePropose_good e id a p c :
  working c id a → proposal_ok cmd_of id p → (is_Some (recoveryCmds c !! id) → id ∈ R) →
  ensures (handlePropose e p a id c) (good keeps c).
Proof.
  intros Hw Hp HR. pose proof Hw as [Hok Hs Ha]. unfold handlePropose. rewrite Hs. cbn [negb orb NORMAL Z.eqb].
  destruct (propose (at_ c a)) as [p'|] eqn:Hnp; [grefl|]. rewrite (bool_decide_eq_false_2 (is_Some None)) by by intros [].
  destruct (working_desc c id a Hw) as [Hd Hdok]. cbv zeta. cbn [recoveryCmds set set_heap upd].
  case_bool_decide as Hrc.
  - assert (good keeps c (upd a (λ d, d <| propose := Some p |>) c)) as Hg.
    { write_desc. destruct Hdok. split; try done. cbn. intros ? [= <-]. split; [done|]. by apply d_recovered0, HR. }
    set (c1 := upd a _ c) in *. destruct (sendRecoveryAck_good keeps id (dep (at_ c1 a)) p (Some a) c1 (proj1 Hg)) as [Hg2 Hfin].
    destruct (sendRecoveryAck _ _ _ _ _) as [f c2]. cbn [fst snd] in *.
    assert (good keeps c c2) as Hg3 by by eapply good_trans; [apply _|..].
    eapply ensures_bind; [apply (replayPendingLeaderAcks_good e id); by eapply working_good|]. intros [b c3] Hg4. cbn [snd] in Hg4.
    assert (good keeps c c3) as Hg5 by by eapply good_trans; [apply _|..].
    destruct (hasDelivered id c3); [done|]. eapply good_bind; [apply _|exact Hg5|].
    pose proof (working_good _ _ _ _ _ Hw Hg5) as [Hok5 Hs5 Ha5].
    apply (run_finish_good e id (Some a)); [done|done| |by intros ? [= <-]]. by rewrite (ext_n _ _ _ (proj2 Hg5)).
  - rewrite upd_twice.
    assert (good keeps c (upd a (λ d, d <| propose := Some p |> <| dcmd := Command_of p |>) c)) as Hg.
    { write_desc. destruct Hdok. split; try done; cbn; [intros ? [= <-]; split; [done|]|intros _]; left; apply Hp. }
    set (c1 := upd a _ c) in *.
    destruct (negb (QContains (fq c1) (cid c1)) || deferFast (at_ c1 a)).
    { eapply ensures_bind; [apply (replayPendingLeaderAcks_good e id); by eapply working_good|]. intros [b c2] Hg2. cbn in Hg2 |- *.
      by eapply good_trans; [apply _|..]. }
    destruct (working_desc c1 id a (working_good _ _ _ _ _ Hw Hg)) as [_ Hdok1].
    assert (good keeps c (upd a (λ d, d <| dep := proposeDep d |> <| phase := PRE_ACCEPT |>) c1)) as Hg2.
    { eapply good_trans; [apply _|exact Hg|]. write_desc; [apply Hg|]. by destruct Hdok1. }
    set (c2 := upd a _ c1) in *.
    eapply ensures_bind; [apply (replayPendingLeaderAcks_good e id); by eapply working_good|]. intros [b c3] Hg3. cbn [snd] in Hg3.
    assert (good keeps c c3) as Hg4 by by eapply good_trans; [apply _|..].
    destruct (_ || hasDelivered id c3); [done|]. destruct (bool_decide (Addr p ∈ _) && _); [done|].
    match goal with |- context [let '(_, _) := ?t in _] => set (made := t) end.
    assert (good keeps c made.2 ∧ FCmdId made.1 = id) as [Hg5 Hid].
    { subst made. destruct (cid c3 =? leader c3); [|done]. split; [|done]. eapply good_trans; [apply _|exact Hg4|].
      split; [by destruct Hg4 as [[] _]|]. constructor; first [reflexivity|intros; reflexivity]. }
    destruct made as [ack c4]. cbn [fst snd] in *. cbv zeta.
    eapply (ensures_bind _ _ (good keeps c)).
    2: { intros c5 Hg6. eapply good_bind; [apply _|exact Hg6|]. apply (handleFastAck_good e id); [by eapply working_good|done]. }
    assert (∀ b, good keeps c (say (OBatch (BFast ack b)) c4)) as Hsay.
    { intros x. eapply good_trans; [apply _|exact Hg5|]. apply say_good; [apply _|apply Hg5|by intros ?|done]. }
    destruct (negb (optExec c4)); [apply Hsay|]. destruct (_ || _); [|apply Hsay].
    eapply good_bind; [apply _|apply Hsay|]. eapply ensures_mono; [apply (apply_good cmd_of R e id)|].
    + apply Hsay.
    + eapply ext_owned; [apply (Hsay false)|done].
    + intros ?. apply good_weaken, still_keeps.
Qed.

Lemma handleMsg_good e id a m c :
  working c id a → message_ok cmd_of (cn c) id m → (is_Some (recoveryCmds c !! id) → id ∈ R) →
  ensures (handleMsg e m a id c) (good keeps c).
Proof.
  intros Hw Hm HR. pose proof Hw as [Hok Hs Ha]. unfold handleMsg. destruct m as [p|p|ack|ack|].
  - by apply handlePropose_good.
  - assert (good keeps c (upd a (λ d, d <| deferFast := true |>) c)) as Hg.
    { destruct (working_desc c id a Hw) as [_ Hdok]. write_desc. by destruct Hdok. }
    eapply good_bind; [apply _|exact Hg|]. apply handlePropose_good; [by eapply working_good|done..].
  - case_bool_decide; [|grefl]. by apply (handleFastAck_good e id).
  - case_bool_decide; [|grefl]. by apply (handleLightSlowAck_good e id).
  - eapply ensures_mono; [by apply (apply_good cmd_of R e id)|]. intros ?. apply good_weaken, still_keeps.
Qed.

(** ** Keys, hash logs and statistics

    They are outside the invariant. *)
Record quiet (c c' : core) : Prop := mkQuiet {
  q_n : cn c' = cn c; q_id : cid c' = cid c; q_ballot : ballot c' = ballot c; q_cballot : cballot c' = cballot c;
  q_status : status c' = status c; q_heap : heap c' = heap c; q_next : nextDesc c' = nextDesc c; q_pool : pool c' = pool c;
  q_descriptors : descriptors c' = descriptors c; q_delivered : delivered c' = delivered c;
  q_queue : localQueue c' = localQueue c; q_rc : recoveryCmds c' = recoveryCmds c; q_sq : sq c' = sq c; q_fq : fq c' = fq c;
  q_opt : optExec c' = optExec c; q_qs : qs c' = qs c; q_fixed : fixedMajority c' = fixedMajority c;
  q_acks : newLeaderAckNs c' = newLeaderAckNs c; q_proposes : proposes c' = proposes c; q_out : out c' = out c }.
#[export] Instance quiet_preorder : PreOrder quiet.
Proof. split; [by intros c; constructor|]. intros c1 c2 c3 [] []. constructor; congruence. Qed.

Lemma quiet_good F `{!PreOrder F} c c' : core_ok c → quiet c c' → good F c c'.
Proof.
  intros [] []. split.
  - constructor; rewrite ?q_n0, ?q_cballot0, ?q_ballot0, ?q_status0, ?q_heap0, ?q_next0, ?q_pool0, ?q_descriptors0, ?q_delivered0,
      ?q_queue0, ?q_rc0, ?q_sq0, ?q_fq0, ?q_opt0, ?q_proposes0, ?q_out0; try assumption.
    eapply Forall_impl; [exact ok_work0|]. intros w. apply (work_ok_mono cmd_of c c'); [done|by rewrite q_delivered0].
  - constructor; try first [congruence|rewrite q_delivered0; reflexivity|rewrite q_descriptors0; reflexivity].
    intros id a _. unfold at_. rewrite q_heap0. reflexivity.
Qed.

Lemma quiet_forEach {A} (f : A → core → outcome core) l c :
  (∀ x c, ensures (f x c) (quiet c)) → ensures (forEach f l c) (quiet c).
Proof.
  intros Hf. apply (ensures_forEach f (quiet c)); [reflexivity|]. intros x c' Hc'.
  eapply ensures_mono; [apply Hf|]. intros c''. by transitivity c'.
Qed.

Lemma addKey_quiet cmd id u b i s : ensures (addKey Sum256 cmd id u b i s) (λ s', quiet s.2 s'.2).
Proof.
  destruct s as [[dep hashes] c]. unfold addKey. destruct (match keys c !! i.2 with Some _ => _ | None => _ end) as [dep' info].
  cbv zeta. match goal with |- context [log_of Sum256 i.2 ?x] => set (c1 := x) end.
  assert (quiet c c1) as H1 by by constructor. destruct (log_of Sum256 i.2 c1) as [l| |]; [|done|done]. cbn [mbind outcome_bind].
  match goal with |- ensures (?o ≫= _) _ => destruct o as [[hs l']| |] end; [|done|done]. cbn. by destruct H1; constructor.
Qed.

Lemma getDepAndHashesWithUpdate_quiet cmd id u b c :
  ensures (getDepAndHashesWithUpdate Sum256 maxAlloc cmd id u b c) (λ r, quiet c r.2).
Proof.
  unfold getDepAndHashesWithUpdate. destruct (SwiftConflicts.keysOf maxAlloc cmd) as [ks| |]; [|done|done]. cbn [mbind outcome_bind].
  match goal with |- context [if ?b then _ else _] => destruct b end; [done|].
  eapply (ensures_bind _ _ (λ s : Dep * list SHash * core, quiet c s.2)).
  - apply (ensures_forEach _ (λ s : Dep * list SHash * core, quiet c s.2)); [cbn; reflexivity|]. intros x s Hs.
    eapply ensures_mono; [apply addKey_quiet|]. intros s'. cbn. by transitivity s.2.
  - by intros [[? ?] ?].
Qed.

Lemma recordLeaderHash_quiet id s hs c : ensures (recordLeaderHash Sum256 maxAlloc id s hs c) (quiet c).
Proof.
  unfold recordLeaderHash. destruct (proposes c !! id) as [p|]; [|by constructor]. unfold updateLogs.
  destruct (SwiftConflicts.keysOf maxAlloc _) as [ks| |]; [|done|done]. cbn [mbind outcome_bind]. destruct (negb _); [done|].
  apply quiet_forEach. intros x c'. destruct (log_of Sum256 x.1 c') as [l| |]; [|done|done]. by constructor.
Qed.

Lemma recordLeaderAck_quiet m c : ensures (recordLeaderAck Sum256 maxAlloc m c) (quiet c).
Proof.
  unfold recordLeaderAck. destruct (_ || _); [by constructor|]. destruct (FSeqnum m =? recoveryAckSeqnum).
  - destruct (_ || _); [done|by constructor].
  - destruct (FSeqnum m <? 0); [done|]. apply recordLeaderHash_quiet.
Qed.

Lemma receiveFastAck_good e m c : core_ok c → ensures (receiveFastAck Sum256 maxAlloc e m c) (good still c).
Proof.
  intros Hok. unfold receiveFastAck. destruct (_ || _); [grefl|]. eapply ensures_bind; [apply recordLeaderAck_quiet|].
  intros c' Hq. assert (good still c c') as Hg by (apply quiet_good; [apply _|done..]). cbn.
  eapply good_trans; [apply _|exact Hg|]. apply hand_good; [apply Hg|done].
Qed.

(** ** Submission *)
Lemma submit_good e p c :
  core_ok c → proposal_ok cmd_of (RequestID_of p) p → ensures (submit Sum256 maxAlloc e p c) (good still c).
Proof.
  intros Hok Hp. unfold submit. case_bool_decide; [grefl|]. cbv zeta.
  set (c1 := c <| proposedInBallot ::= _ |> <| proposes ::= _ |>).
  assert (good still c c1) as Hg1.
  { split; [|constructor; first [reflexivity|intros; reflexivity]]. destruct Hok. constructor; try done. cbn. intros id p'.
    rewrite lookup_insert_Some. intros [[<- <-]|[_ ?]]; [done|by apply ok_proposes0]. }
  assert (∀ c' m d h, good still c c' → message_ok cmd_of (cn c') (RequestID_of p) m →
    good still c (getCmdDescWithHashes e (RequestID_of p) (Some m) d h c').2) as Hhand.
  { intros c' m d h Hg Hm. eapply good_trans; [apply _|exact Hg|]. apply getCmdDescWithHashes_good; [apply Hg|]. by intros ? [= <-]. }
  destruct (bool_decide (is_Some (recoveryCmds c1 !! _))); [by apply Hhand|].
  match goal with |- ensures (?o ≫= _) _ => destruct o as [df| |] end; [|done|done]. cbn [mbind outcome_bind].
  eapply (ensures_bind _ _ (λ r, good still c r.2)).
  { assert (∀ u b f, (∀ c', quiet c' (f c')) → ensures ('(dep, hs, c) ← getDepAndHashesWithUpdate Sum256 maxAlloc (Command_of p) (RequestID_of p) u b c1;
       Done (dep, hs, f c)) (λ r, good still c r.2)) as Hget.
    { intros u b f Hf. eapply ensures_bind; [apply getDepAndHashesWithUpdate_quiet|]. intros [[d h] c2] Hq. cbn in Hq |- *.
      eapply good_trans; [apply _|exact Hg1|]. apply quiet_good; [apply _|apply Hg1|]. transitivity c2; [done|apply Hf]. }
    destruct (_ && _); [apply Hget; by constructor|]. destruct df; [apply Hget; by constructor|].
    eapply ensures_mono; [apply getDepAndHashesWithUpdate_quiet|]. intros r Hq.
    eapply good_trans; [apply _|exact Hg1|]. apply quiet_good; [apply _|apply Hg1|done]. }
  intros [[d h] c2] Hg2. cbn [snd] in Hg2. eapply (ensures_bind _ _ (good still c)).
  { destruct (pendingHashUpds c1 !! _) as [u|]; [|done]. destruct (_ && _); [|done].
    eapply ensures_mono; [apply recordLeaderHash_quiet|]. intros c3 Hq. eapply good_trans; [apply _|exact Hg2|].
    apply quiet_good; [apply _|apply Hg2|]. etransitivity; [|exact Hq]. by constructor. }
  intros c3 Hg3. match goal with |- context [getCmdDescWithHashes e _ (Some ?m) _ _ _] => specialize (Hhand c3 m (Some d) h Hg3) end.
  destruct (getCmdDescWithHashes _ _ _ _ _ _) as [[a|] c4]; [|done]. apply Hhand. by destruct df.
Qed.

(** ** Local work *)

(** What a drain leaves alone. *)
Record epoch (c c' : core) : Prop := mkEpoch {
  e_n : cn c' = cn c; e_id : cid c' = cid c; e_ballot : ballot c' = ballot c; e_cballot : cballot c' = cballot c;
  e_status : status c' = status c; e_rc : recoveryCmds c' = recoveryCmds c; e_sq : sq c' = sq c; e_fq : fq c' = fq c;
  e_opt : optExec c' = optExec c; e_qs : qs c' = qs c; e_fixed : fixedMajority c' = fixedMajority c;
  e_acks : newLeaderAckNs c' = newLeaderAckNs c;
  e_delivered : delivered c ⊆ delivered c' }.
#[export] Instance epoch_preorder : PreOrder epoch.
Proof. split; [by intros c; constructor|]. intros c1 c2 c3 [] []. constructor; try congruence. by etransitivity. Qed.
Lemma ext_epoch F c c' : ext F c c' → epoch c c'.
Proof. by intros []. Qed.
Definition safe (c c' : core) : Prop := core_ok c' ∧ epoch c c'.
Lemma safe_trans c1 c2 c3 : safe c1 c2 → safe c2 c3 → safe c1 c3.
Proof. intros [_ ?] [? ?]. split; [done|]. by transitivity c2. Qed.
Lemma good_safe F c c' : good F c c' → safe c c'.
Proof. intros [? ?]. split; [done|by eapply ext_epoch]. Qed.

(** A descriptor goes back to the pool; its command has none any more. *)
Lemma retire_safe c id a :
  working c id a → id ∈ delivered c →
  safe c (freeDesc a ((upd a (λ d, d <| active := false |>) c) <| descriptors ::= delete id |>)).
Proof.
  intros [Hok Hs Ha] Hd. unfold freeDesc. cbv zeta. cbn [descriptorPoolLevel].
  set (c1 := upd a _ (_ <| descriptors ::= _ |>)).
  assert (∀ s : gset Z, (∀ b, b ∈ s → b = a ∨ b ∈ pool c) → safe c (c1 <| pool := s |>)) as Hgo.
  { intros s Hsub. split; [|by constructor]. pose proof Hok as []. constructor; try done; cbn.
    - intros id' b [Hne Hb]%lookup_delete_Some. destruct (ok_owned0 id' b Hb) as (Hp & d & Hdb & Hdok).
      assert (b ≠ a) as Hba by (intros ->; apply Hne; by eapply ok_inj0).
      split; [by intros [?|?]%Hsub|]. exists d. by rewrite !lookup_alter_ne by done.
    - intros id1 id2 b [_ H1]%lookup_delete_Some [_ H2]%lookup_delete_Some. by eapply ok_inj0.
    - intros b. rewrite !lookup_alter_is_Some. apply ok_heap0.
    - intros b [->|Hb]%Hsub; rewrite !lookup_alter_is_Some; [|by apply ok_pool0].
      destruct (ok_owned0 id a Ha) as (_ & d & E & _). by rewrite E.
    - intros x Hx. destruct (decide (x = id)) as [->|]; [by left|]. destruct (ok_restored0 x Hx) as [?|?]; [by left|right].
      by rewrite lookup_delete_ne. }
  destruct (0 <? _).
  - match goal with |- safe c ?x => replace x with (c1 <| pool := {[a]} ∪ pool c |>) by reflexivity end. apply Hgo. set_solver.
  - replace c1 with (c1 <| pool := pool c |>) by by destruct c. apply Hgo. auto.
Qed.

Lemma completeReply_safe c id a args :
  working c id a → work_ok cmd_of c (replyWork a 0 id args) → ensures (completeReply a args c) (safe c).
Proof.
  intros Hw (Hid & Hd & p & Hp & _). unfold completeReply. rewrite Hp. cbv zeta. rewrite Hid.
  match goal with |- context [set historySize _ ?x] => assert (good still c x) as Hg; [|set (c1 := x) in *] end.
  { pose proof (w_ok _ _ _ Hw). destruct (_ && _); [|destruct (_ && _)]; [apply sendClient_good; [apply _|done]..|grefl]. }
  cbn [ensures]. match goal with |- context [upd a _ ?x] => assert (good still c x) as Hg2; [|set (c2 := x) in *] end.
  { eapply good_trans; [apply _|exact Hg|]. apply quiet_good; [apply _|apply Hg|]. by constructor. }
  eapply safe_trans; [by eapply good_safe|]. apply retire_safe; [by eapply working_good|].
  by apply (ext_delivered _ _ _ (proj2 Hg2)).
Qed.

Lemma perform_safe e w c :
  core_ok c → status c = NORMAL → work_ok cmd_of c w → (∀ id, is_Some (recoveryCmds c !! id) → id ∈ R) →
  ensures (perform Sum256 maxAlloc e w c) (safe c).
Proof.
  intros Hok Hs Hw HR. unfold perform. destruct w as [a g id m|a g id args|p].
  3: { eapply ensures_mono; [apply submit_good; [|done]|].
       - eapply (quiet_good still); [done|]. unfold beginProposalBatch. cbv zeta. destruct (_ <? _); by constructor.
       - intros c' [Hok' He]. split; [done|]. transitivity (beginProposalBatch 1 c); [|by eapply ext_epoch].
         unfold beginProposalBatch. cbv zeta. destruct (_ <? _); by constructor. }
  all: match goal with |- context [if ?b then _ else _] => destruct b eqn:Hg end; [by split|].
  all: apply orb_false_iff in Hg as [_ Hown]; apply negb_false_iff, bool_decide_eq_true in Hown.
  - eapply ensures_mono; [by apply handleMsg_good; [|..|by apply HR]|]. intros c'. apply good_safe.
  - by apply (completeReply_safe c id).
Qed.

Lemma drain_loop_safe e budget c :
  core_ok c → (∀ id, is_Some (recoveryCmds c !! id) → id ∈ R) → ensures (drain_loop Sum256 maxAlloc e budget c) (safe c).
Proof.
  intros Hok HR. revert c Hok HR. induction budget as [|budget IH]; intros c Hok HR; [by split|]. cbn [drain_loop].
  destruct (status c =? NORMAL) eqn:Hs; [|by split]. apply Z.eqb_eq in Hs.
  destruct (localQueue c !! localHead c) as [w|] eqn:Hw; [|by split].
  set (c1 := c <| localHead ::= S |>). assert (safe c c1) as Hg by (destruct Hok; by split; constructor).
  eapply ensures_bind; [apply perform_safe; [apply Hg|done| |done]|].
  - apply (proj1 (Forall_forall _ _) (ok_work _ _ _ Hok)). by eapply list_elem_of_lookup_2.
  - intros c2 Hg2. eapply ensures_mono; [apply IH; [apply Hg2|]|].
    + rewrite (e_rc _ _ (proj2 Hg2)). done.
    + intros c3 Hg3. eapply safe_trans; [exact Hg|]. by eapply safe_trans.
Qed.

Lemma queue_safe c f k : core_ok c → (∀ w, w ∈ f (localQueue c) → w ∈ localQueue c) → safe c (c <| localQueue ::= f |> <| localHead := k |>).
Proof.
  intros Hok Hf. split; [|by constructor]. destruct Hok. constructor; try done. cbn. apply Forall_forall. intros w Hw%Hf.
  by apply (proj1 (Forall_forall _ _) ok_work0).
Qed.

Lemma drainLocalWork_safe e budget c :
  core_ok c → (∀ id, is_Some (recoveryCmds c !! id) → id ∈ R) → ensures (drainLocalWork Sum256 maxAlloc e budget c) (safe c).
Proof.
  intros Hok HR. unfold drainLocalWork. eapply ensures_bind; [by apply drain_loop_safe|]. intros c1 Hg. cbn [ensures].
  eapply safe_trans; [exact Hg|]. destruct (negb _).
  - apply (queue_safe c1 (λ _, []) 0); [apply Hg|]. by intros w ?%not_elem_of_nil.
  - destruct (_ <? _)%nat; [|by split; [apply Hg|]]. apply (queue_safe c1 (drop (localHead c1)) 0); [apply Hg|].
    intros w [k Hk]%list_elem_of_lookup. rewrite lookup_drop in Hk. by eapply list_elem_of_lookup_2.
Qed.

End Core.
End SwiftNormal.
