(* ===== verification/SwiftReach.v ===== *)
(** * SwiftReach: recovery keeps the invariant; reachable states of a Swift replica

    [inv] holds after every run of proposals and events ([run_inv]).  Its
    readable consequences: executions are unique, genuine and follow the
    dependencies ([executions_ordered]), and a commit has a quorum of matching
    acknowledgements of the installed ballot ([commit_justified]). *)
From stdpp Require Import gmap strings list fin_maps fin_sets.
From Stdlib Require Import Lia.
From S2P Require Import Prelude State ReplicaSet Defs SwiftQuorum SwiftHashLog SwiftSets SwiftConflicts Swift SwiftCore SwiftRecovery SwiftInv SwiftNormal.

Module SwiftReach.
Import SwiftSets Swift SwiftCore SwiftRecovery SwiftInv SwiftNormal.

Section Core.
Context `{SM : StateMachine}.
Variable Sum256 : bytes → bytes.
Variable maxAlloc : Z.
Variable cmd_of : RequestID → Command.
(** The number of replicas. *)
Variable n : Z.
Local Abbreviation core_ok := (core_ok cmd_of).
Local Abbreviation genuine := (genuine cmd_of).

(** ** Messages *)
Definition report_ok (m : MNewLeaderAckN) : Prop :=
  ∀ i id cmd, index (NACmdIds m) i = Some id → index (NACmds m) i = Some cmd → genuine id cmd.
Definition sync_ok (m : MSync) : Prop := ∀ id cmd, (id, cmd) ∈ YCmds m → genuine id cmd.

Record inv (c : core) : Prop := mkInv {
  i_n : cn c = n;
  i_core : core_ok (dom (recoveryCmds c)) c;
  i_acks : ∀ ms, newLeaderAckNs c = Some ms → handled ms = [] ∧ ∀ rep m, msgs ms !! rep = Some m → report_ok m;
  i_sq : sq c = majority_quorum (cn c);
  i_fixed : fixedMajority c = true;
  i_fq : ∃ q, SwiftQuorum.AQ (SwiftQuorum.qs (qs c)) (cballot c) = Done q ∧ fq c = set_quorum q }.

Lemma inv_safe c c' : inv c → safe cmd_of (dom (recoveryCmds c)) c c' → inv c'.
Proof.
  intros [H0 H1 H2 H3 H4 H5] [Hok []]. split; [congruence|by rewrite e_rc0|by rewrite e_acks0|congruence..|by rewrite e_qs0, e_cballot0, e_fq0].
Qed.
Lemma inv_ensures c (o : outcome core) : inv c → ensures o (safe cmd_of (dom (recoveryCmds c)) c) → ensures o inv.
Proof. intros Hi Ho. eapply ensures_mono; [exact Ho|]. intros c'. by apply inv_safe. Qed.
Lemma dom_recovered (rc : gmap RequestID Z) id : is_Some (rc !! id) → id ∈ dom rc.
Proof. by rewrite elem_of_dom. Qed.

(** ** Selection *)
Lemma index_entries_Some {A} (l : list (RequestID * A)) id x : index_entries l !! id = Some x → (id, x) ∈ l.
Proof.
  unfold index_entries. revert id x. apply (foldl_ind_in _ (λ m, ∀ id x, m !! id = Some x → (id, x) ∈ l)).
  - intros id x. by rewrite lookup_empty.
  - intros m [k y] Hin IH id x. cbn. rewrite lookup_insert_Some. intros [[<- <-]|[_ ?]]; [done|by apply IH].
Qed.

Lemma selected_acks_In msgs : ensures (selected_acks msgs) (λ U, ∀ rep m, U !! rep = Some m → m ∈ msgs).
Proof.
  unfold selected_acks. set (I := λ s : Z * option (gmap Z MNewLeaderAckN), ∀ rep m, default ∅ s.2 !! rep = Some m → m ∈ msgs).
  eapply (ensures_bind _ _ I).
  - apply (ensures_forEach_in _ I); [intros rep m; cbn; by rewrite lookup_empty|].
    intros x [b U] Hx IH. unfold select_ack. destruct (b <? NACballot x); (destruct (_ =? NACballot x)); [|by cbn in *..| |done];
      [|destruct U as [U|]; [|done]]; intros r y; cbn; rewrite lookup_insert_Some; intros [[_ <-]|[_ Hy]]; try done.
    by eapply (IH r y).
  - intros [b U] HI. exact HI.
Qed.

Lemma select_genuine e msgs :
  Forall report_ok msgs → ensures (select e msgs) (λ r, ∀ id cmd, r.1.2 !! id = Some cmd → genuine id cmd).
Proof.
  intros Hm. unfold select. set (I := λ r : recovered, ∀ id cmd, r.1.2 !! id = Some cmd → genuine id cmd).
  eapply ensures_bind; [apply selected_acks_In|]. intros U HU.
  apply (ensures_forEach_in _ I); [by intros id cmd; cbn|].
  intros m r Hin Hr. apply (ensures_forEach _ I); [done|].
  assert (report_ok m) as Hok.
  { apply list_elem_of_fmap in Hin as ([rep m'] & -> & Hin%elem_of_range_order). apply (proj1 (Forall_forall _ _) Hm).
    by eapply HU. }
  intros [i ph] [[phases cmds] deps] Hs. unfold take_entry. cbn [fst snd]. destruct (_ || _); [|done].
  destruct (index (NACmdIds m) i) as [id|] eqn:E1; [|done]. destruct (index (NACmds m) i) as [cmd|] eqn:E2; [|done].
  destruct (index (NADeps m) i); [|done]. intros id' cmd'. cbn. rewrite lookup_insert_Some.
  intros [[<- <-]|[_ ?]]; [by eapply Hok|by apply Hs].
Qed.

(** ** Clearing the descriptors *)

(** The invariant without the descriptors. *)
Record base_ok (c : core) : Prop := mkBaseOk {
  b_heap : ∀ a, is_Some (heap c !! a) → a < nextDesc c;
  b_pool : ∀ a, a ∈ pool c → is_Some (heap c !! a);
  b_work : Forall (work_ok cmd_of c) (localQueue c);
  b_proposes : ∀ id p, proposes c !! id = Some p → proposal_ok cmd_of id p;
  b_out : ordered cmd_of (optExec c) (out c);
  b_sent : Forall (output_ok (cn c)) (out c);
  b_delivered : ∀ id, id ∈ delivered c ↔ id ∈ executed (out c) }.

Lemma base_of_core R c : core_ok R c → base_ok c.
Proof. by intros []. Qed.
Lemma core_of_base c : base_ok c → descriptors c = ∅ → status c = NORMAL → ballot c = cballot c → core_ok ∅ c.
Proof.
  intros [] Hd Hs Hb. constructor; try done; rewrite ?Hd.
  - intros id a. by rewrite lookup_empty.
  - intros id1 id2 a. by rewrite lookup_empty.
  - by left.
Qed.

(** The loop keeps the proposals the descriptors hold. *)
Record clearing (c c' : core) : Prop := mkClearing {
  c_base : base_ok c';
  c_heap : ∀ a, is_Some (heap c' !! a) ↔ is_Some (heap c !! a);
  c_propose : ∀ a, propose (at_ c' a) = propose (at_ c a);
  c_descriptors : descriptors c' = descriptors c;
  c_epoch : epoch c c' }.

Lemma freeDesc_clearing c a : base_ok c → is_Some (heap c !! a) → clearing c (freeDesc a (upd a (λ d, d <| active := false |>) c)).
Proof.
  intros Hb Ha. unfold freeDesc. rewrite upd_twice. cbv zeta. cbn [descriptorPoolLevel]. set (c1 := upd a _ c).
  assert (∀ s : gset Z, (∀ b, b ∈ s → b = a ∨ b ∈ pool c) → clearing c (c1 <| pool := s |>)) as Hgo.
  { intros s Hsub. assert (∀ b, is_Some (heap c1 !! b) ↔ is_Some (heap c !! b)) as Hh.
    { intros b. unfold c1. cbn. by rewrite lookup_alter_is_Some. }
    constructor; [|done| |done|by constructor].
    - destruct Hb. constructor; try done; cbn -[lookup].
      + intros b Hbs. apply b_heap0. by apply Hh.
      + intros b Hbs%Hsub. apply Hh. destruct Hbs as [->|?]; [done|by apply b_pool0].
    - intros b. unfold at_, c1. cbn. rewrite lookup_alter. destruct (decide (a = b)) as [->|]; [|done]. by destruct (heap c !! b). }
  destruct (0 <? _).
  - match goal with |- clearing c ?x => replace x with (c1 <| pool := {[a]} ∪ pool c |>) by reflexivity end. apply Hgo. set_solver.
  - replace c1 with (c1 <| pool := pool c |>) by by destruct c. apply Hgo. auto.
Qed.

Lemma clear_desc_clearing phases c a :
  base_ok c → is_Some (heap c !! a) → (∀ p, propose (at_ c a) = Some p → proposal_ok cmd_of (RequestID_of p) p) →
  clearing c (clear_desc phases c a).
Proof.
  intros Hb Ha Hp. unfold clear_desc. cbv zeta.
  match goal with |- context [upd a _ ?x] => assert (clearing c x) as Hc; [|set (c1 := x) in *] end.
  { assert (clearing c c) as Hrefl by (split; try done; reflexivity). destruct (propose (at_ c a)) as [p|]; [|done].
    case_bool_decide; [done|]. constructor; try done. destruct Hb. constructor; try done. cbn. apply Forall_app.
    split; [done|]. constructor; [by apply Hp|done]. }
  destruct Hc. assert (is_Some (heap c1 !! a)) as Ha1 by by apply c_heap0.
  destruct (freeDesc_clearing c1 a c_base0 Ha1). constructor; [done| | |congruence|by etransitivity].
  - intros b. by rewrite c_heap1, c_heap0.
  - intros b. by rewrite c_propose1, c_propose0.
Qed.

Lemma clear_all phases R c (l : list Z) :
  core_ok R c → (∀ a, a ∈ l → ∃ id, descriptors c !! id = Some a) → clearing c (foldl (clear_desc phases) c l).
Proof.
  intros Hok Hl. apply (foldl_ind_in _ (clearing c)).
  { split; try done. by eapply base_of_core. }
  intros c' a Ha%Hl [Hb Hh Hp Hd He]. destruct Ha as [id Ha].
  destruct (at_owned _ _ c id a Hok Ha) as (Hd' & _ & Hdok).
  destruct (clear_desc_clearing phases c' a) as [Hb2 Hh2 Hp2 Hd2 He2]; [done|rewrite Hh; by eexists| |].
  - intros p. rewrite Hp. intros E. destruct (d_propose _ _ _ _ _ _ _ _ _ Hdok p E) as [[Hid Hcmd] _].
    split; [done|]. by rewrite Hid.
  - constructor; [done| | |congruence|by etransitivity]; intros b; [by rewrite Hh2, Hh|by rewrite Hp2, Hp].
Qed.

(** ** Installing the recovered commands *)

(** No delivered command has a descriptor: so it is after the clearing, and no
    installation delivers. *)
Definition fresh (c : core) : Prop := ∀ id a, descriptors c !! id = Some a → id ∉ delivered c.
Record placing (c c' : core) : Prop := mkPlacing {
  p_delivered : delivered c' = delivered c; p_proposes : proposes c' = proposes c; p_fresh : fresh c → fresh c' }.
#[local] Instance placing_preorder : PreOrder placing.
Proof. split; [by intros c; constructor|]. intros c1 c2 c3 [] []. constructor; [congruence..|auto]. Qed.

Lemma newDesc_fields e c :
  descriptors (newDesc e c).2 = descriptors c ∧ delivered (newDesc e c).2 = delivered c ∧ proposes (newDesc e c).2 = proposes c.
Proof.
  unfold newDesc, allocDesc. destruct (0 <? _); [|done]. destruct (pool_get _ _ _); [|done]. by case_bool_decide.
Qed.

Lemma getCmdDescWithHashes_placing e id m d h c : placing c (getCmdDescWithHashes e id m d h c).2.
Proof.
  unfold getCmdDescWithHashes, hasDelivered. case_bool_decide as Hd; [reflexivity|].
  match goal with |- context [let '(_, _) := ?t in _] => set (found := t) end.
  assert (placing c found.2) as Hg.
  { subst found. destruct (descriptors c !! id); [reflexivity|]. pose proof (newDesc_fields e c) as (E1 & E2 & E3).
    destruct (newDesc e c) as [a c']. cbn [fst snd] in *. constructor; [done..|]. intros Hf id' b. cbn. rewrite E1, E2, lookup_insert_Some.
    intros [[<- <-]|[_ ?]]; [done|by eapply Hf]. }
  destruct found as [a c1]. cbn [fst snd] in *. transitivity c1; [done|].
  assert (∀ c2 : core, placing c1 c2 → placing c1 (match m with
    | Some m => enqueue (descriptorWork a (dgeneration (at_ c2 a)) id m) c2 | None => c2 end)) as Hq.
  { intros c2 Hc2. transitivity c2; [done|]. by destruct m; constructor. }
  apply Hq. destruct d; [|reflexivity]. destruct (proposeDep _); [reflexivity|]. by destruct h; constructor.
Qed.

Lemma scheduleDelivery_placing e id c : placing c (scheduleDelivery e id c).
Proof. apply getCmdDescWithHashes_placing. Qed.

Lemma addSuccessor_good R e id c x : core_ok R c → good cmd_of R still c (addSuccessor e id c x) ∧ placing c (addSuccessor e id c x).
Proof.
  intros Hok. unfold addSuccessor, getCmdDesc. pose proof (getCmdDescWithHashes_good cmd_of R e x None None None c Hok) as H.
  destruct H as (Hg & Hb & _); [done|]. pose proof (getCmdDescWithHashes_placing e x None None None c) as Hp.
  destruct (getCmdDescWithHashes e x None None None c) as [desc c1]. cbn [fst snd] in *.
  match goal with |- context [scheduleDelivery e x ?t] => assert (good cmd_of R still c1 t ∧ placing c1 t) as [Hg2 Hp2]; [|set (c2 := t) in *] end.
  { destruct desc as [b|]; [|split; [apply good_refl; [apply _|apply Hg]|reflexivity]]. split; [|by constructor].
    destruct (at_owned _ _ c1 x b (proj1 Hg) (Hb b eq_refl)) as (_ & _ & Hdok).
    eapply upd_good; [apply _|apply Hg|by apply Hb| |done]. by destruct Hdok. }
  split.
  - eapply good_trans; [apply _|exact Hg|]. eapply good_trans; [apply _|exact Hg2|]. by apply scheduleDelivery_good, Hg2.
  - transitivity c1; [done|]. transitivity c2; [done|]. apply scheduleDelivery_placing.
Qed.

(** A command joins the installed ones. *)
Lemma core_ok_more R c id :
  core_ok R c → (∀ a, descriptors c !! id = Some a → genuine id (dcmd (at_ c a))) →
  (id ∈ delivered c ∨ is_Some (descriptors c !! id)) → core_ok ({[id]} ∪ R) c.
Proof.
  intros [] Hd Ho. constructor; try done.
  - intros id' a Ha. destruct (ok_owned0 id' a Ha) as (Hp & d & Hh & Hdok). split; [done|]. exists d. split; [done|].
    destruct Hdok. split; try done. intros [->%elem_of_singleton|?]%elem_of_union; [|by apply d_recovered0].
    specialize (Hd a Ha). unfold at_ in Hd. by rewrite Hh in Hd.
  - intros x [->%elem_of_singleton|Hx]%elem_of_union; [done|by apply ok_restored0].
Qed.

(** The deferred functions belong to the descriptors they name. *)
Definition finishes_ok (c : core) (l : list finishAck) : Prop :=
  Forall (λ f, ∃ id desc, finish_ok (cn c) id desc f ∧ ∀ a, desc = Some a → descriptors c !! id = Some a) l.
Lemma finishes_ext F c c' l : ext F c c' → finishes_ok c l → finishes_ok c' l.
Proof.
  intros He Hl. eapply Forall_impl; [exact Hl|]. intros f (id & desc & Hf & Ha). exists id, desc. rewrite (ext_n _ _ _ He). split; [done|].
  intros a Hd. eapply ext_owned; [exact He|by apply Ha].
Qed.

Lemma install_good R e phases cmds deps fs c id :
  core_ok R c → fresh c → recoveryCmds c = phases → (∀ id cmd, cmds !! id = Some cmd → genuine id cmd) → finishes_ok c fs →
  let s' := install e (phases, cmds, deps) (fs, c) id in
  core_ok ({[id]} ∪ R) s'.2 ∧ ext keeps c s'.2 ∧ placing c s'.2 ∧ finishes_ok s'.2 s'.1.
Proof.
  intros Hok Hf Hrc Hcmds Hfs. cbv zeta. unfold install. cbv zeta.
  set (deps_of := default None (deps !! id)). unfold getCmdDesc.
  destruct (getCmdDescWithHashes_good cmd_of R e id None None None c Hok) as (Hg & Hb & Hn); [done|].
  pose proof (getCmdDescWithHashes_placing e id None None None c) as Hpl.
  destruct (getCmdDescWithHashes e id None None None c) as [desc c1]. cbn [fst snd] in *.
  match goal with |- context [match proposes ?x !! id with _ => _ end] =>
    assert (core_ok ({[id]} ∪ R) x ∧ ext keeps c1 x ∧ placing c1 x) as (Hok2 & He2 & Hpl2); [|set (c2 := x) in *; clearbody c2] end.
  { destruct desc as [a|].
    2: { split; [|split; [reflexivity|reflexivity]]. apply core_ok_more; [apply Hg| |].
         - intros a Ha. exfalso. eapply (p_fresh _ _ Hpl Hf); [exact Ha|]. rewrite (p_delivered _ _ Hpl). by apply Hn.
         - left. rewrite (p_delivered _ _ Hpl). by apply Hn. }
    specialize (Hb a eq_refl). destruct (at_owned _ _ c1 id a (proj1 Hg) Hb) as (Hh & _ & Hdok).
    set (cmd := default (mkCommand NONE 0 NIL) (cmds !! id)).
    assert (genuine id cmd) as Hcmd by (unfold cmd; destruct (cmds !! id) eqn:E; [by apply Hcmds|by right]).
    match goal with |- context [foldl _ ?x (ids deps_of)] => assert (good cmd_of R keeps c1 x ∧ placing c1 x) as [Hg3 Hp3];
      [|assert (dcmd (at_ x a) = cmd) as Ecmd; [|set (c3 := x) in *]] end.
    { split; [|by constructor]. eapply upd_good; [apply _|apply Hg|exact Hb| |by intros ?]. destruct Hdok. split; try done.
      - cbn. intros p Hp. by destruct (d_propose0 p Hp).
      - cbn. intros Hph. left. rewrite (ext_rc _ _ _ (proj2 Hg)), Hrc. destruct (phases !! id); cbn in Hph; [by subst|done]. }
    { by rewrite at_upd by by eexists. }
    match goal with |- context [scheduleDelivery e id ?x] => assert (good cmd_of R still c3 x ∧ placing c3 x) as [Hg4 Hp4]; [|set (c4 := x) in *] end.
    { apply (foldl_ind (addSuccessor e id) (λ x, good cmd_of R still c3 x ∧ placing c3 x)).
      - split; [apply good_refl; [apply _|apply Hg3]|reflexivity].
      - intros x y [Hx Hpx]. destruct (addSuccessor_good R e id x y (proj1 Hx)) as [Hy Hpy].
        split; [by eapply good_trans; [apply _|..]|by transitivity x]. }
    pose proof (scheduleDelivery_good cmd_of R e id c4 (proj1 Hg4)) as Hg5. pose proof (scheduleDelivery_placing e id c4) as Hp5.
    set (c5 := scheduleDelivery e id c4) in *. pose proof (good_trans _ _ _ _ _ _ Hg4 Hg5) as Hg6.
    assert (ext keeps c1 c5) as He5.
    { transitivity c3; [apply Hg3|]. eapply (good_weaken cmd_of R still keeps); [apply still_keeps|done]. }
    assert (placing c1 c5) as Hp6 by (transitivity c3; [done|by transitivity c4]).
    assert (descriptors c3 !! id = Some a) as Ho3 by (eapply ext_owned; [apply Hg3|done]).
    assert (descriptors c5 !! id = Some a) as Ho5 by (eapply ext_owned; [apply Hg6|done]).
    destruct (ext_frame _ _ _ (proj2 Hg6) id a Ho3) as (_ & _ & _ & _ & _ & Ed).
    assert (core_ok ({[id]} ∪ R) c5) as Hok5.
    { apply core_ok_more; [apply Hg5| |right; by eexists]. intros x Hx. rewrite Ho5 in Hx. injection Hx as <-. by rewrite Ed, Ecmd. }
    destruct (_ && _); [|done]. destruct (at_owned _ _ c5 id a Hok5 Ho5) as (_ & _ & Hdok5).
    assert (good cmd_of ({[id]} ∪ R) keeps c5 (upd a (λ d, d <| phase := ACCEPT |>) c5)) as [? ?].
    { eapply upd_good; [apply _|done|done| |by intros ?]. by destruct Hdok5. }
    split; [done|]. split; [by transitivity c5|]. transitivity c5; [done|by constructor]. }
  assert (ext keeps c c2) as He02.
  { transitivity c1; [|done]. eapply (good_weaken cmd_of R still keeps); [apply still_keeps|done]. }
  assert (placing c c2) as Hp02 by by transitivity c1.
  assert (finishes_ok c2 fs) as Hfs2 by by eapply finishes_ext.
  destruct (proposes c2 !! id) as [p|] eqn:Hp; [|done].
  match goal with |- context [sendRecoveryAck id deps_of p desc ?x] =>
    assert (good cmd_of ({[id]} ∪ R) keeps c2 x ∧ placing c2 x) as [Hg3 Hp3]; [|set (c3 := x) in *] end.
  { destruct desc as [a|]; [|split; [apply good_refl; [apply _|done]|reflexivity]]. split; [|by constructor].
    assert (descriptors c2 !! id = Some a) as Ho2 by (eapply ext_owned; [exact He2|by apply Hb]).
    destruct (at_owned _ _ c2 id a Hok2 Ho2) as (_ & _ & Hdok2).
    eapply upd_good; [apply _|done|exact Ho2| |by intros ?]. destruct Hdok2. split; try done. cbn. intros ? [= <-].
    split; [by eapply ok_proposes|]. apply d_recovered0. by apply elem_of_union_l, elem_of_singleton. }
  destruct (sendRecoveryAck_good cmd_of ({[id]} ∪ R) keeps id deps_of p desc c3 (proj1 Hg3)) as [Hg4 Hfin].
  assert (placing c3 (sendRecoveryAck id deps_of p desc c3).2) as Hp4.
  { unfold sendRecoveryAck. destruct (negb _); [reflexivity|]. by destruct (_ =? _); constructor. }
  destruct (sendRecoveryAck _ _ _ _ _) as [f c4]. cbn [fst snd] in *.
  assert (ext keeps c c4) as He4 by (transitivity c2; [done|]; transitivity c3; [apply Hg3|apply Hg4]).
  split; [apply Hg4|]. split; [done|]. split; [transitivity c2; [done|by transitivity c3]|].
  constructor; [|by eapply finishes_ext].
  exists id, desc. rewrite (ext_n _ _ _ (proj2 Hg4)). split; [done|]. intros a ->.
  eapply (ext_owned keeps); [transitivity c3; [apply (proj2 Hg3)|apply (proj2 Hg4)]|]. eapply ext_owned; [exact He2|by apply Hb].
Qed.

Lemma install_all e phases cmds deps l : ∀ R fs c,
  core_ok R c → fresh c → recoveryCmds c = phases → (∀ id cmd, cmds !! id = Some cmd → genuine id cmd) → finishes_ok c fs →
  let s' := foldl (install e (phases, cmds, deps)) (fs, c) l in
  core_ok (list_to_set l ∪ R) s'.2 ∧ ext keeps c s'.2 ∧ finishes_ok s'.2 s'.1.
Proof.
  induction l as [|id l IH]; intros R fs c Hok Hf Hrc Hcmds Hfs; cbn [foldl list_to_set].
  { rewrite (left_id_L ∅ (∪)). split; [done|]. by split; [reflexivity|]. }
  destruct (install_good R e phases cmds deps fs c id Hok Hf Hrc Hcmds Hfs) as (Hok' & He' & Hp' & Hfs').
  destruct (install e (phases, cmds, deps) (fs, c) id) as [fs' c']. cbn [fst snd] in *.
  destruct (IH ({[id]} ∪ R) fs' c') as (Hok2 & He2 & Hfs2); [done|by apply (p_fresh _ _ Hp')|by rewrite (ext_rc _ _ _ He')|done|done|].
  cbv zeta. split; [|split; [by transitivity c'|done]].
  replace ({[id]} ∪ list_to_set l ∪ R) with (list_to_set l ∪ ({[id]} ∪ R)); [done|]. by rewrite (assoc_L (∪)), (comm_L (∪) {[id]}).
Qed.

Lemma installRecoveryHashBoundary_quiet phases c :
  ensures (installRecoveryHashBoundary Sum256 phases c) (quiet (c <| recoveryCmds := phases |>)).
Proof.
  unfold installRecoveryHashBoundary. set (c1 := c <| recoveryCmds := phases |> <| proposedInBallot := ∅ |> <| pendingHashUpds := ∅ |>).
  cbv zeta. eapply ensures_mono; [apply (quiet_forEach _ _ c1)|].
  - intros x c'. destruct (SwiftHashLog.BeginBallot _ _ _) as [[k l]| |]; [|done|done]. by constructor.
  - intros c' Hq. transitivity c1; [by constructor|done].
Qed.

Lemma pause_safe R c : core_ok R c → safe cmd_of R c (pauseLocalWork c).
Proof.
  intros Hok. apply (queue_safe cmd_of R c (λ l, filter (λ w, is_retry w = true) (drop (localHead c) l)) 0); [done|].
  intros w [_ [k Hk]%list_elem_of_lookup]%list_elem_of_filter. rewrite lookup_drop in Hk. by eapply list_elem_of_lookup_2.
Qed.

Lemma range_keys_dom {A} (ord : list RequestID) (m : gmap RequestID A) : list_to_set (range_keys ord m) = dom m.
Proof.
  apply set_eq. intros k. rewrite elem_of_list_to_set, range_keys_perm, list_elem_of_fmap, elem_of_dom. split.
  - intros ([k' v] & -> & Hk%elem_of_map_to_list). by eexists.
  - intros [v Hv]. exists (k, v). split; [done|]. by apply elem_of_map_to_list.
Qed.

(** The state in which the recovered commands are installed. *)
Lemma cleared_ok R e phases c b q :
  core_ok R c →
  let c1 := foldl (clear_desc phases) c (range_order (ord_clear e) (descriptors c)).*2 in
  let c2 := c1 <| keys := ∅ |> <| descriptors := ∅ |> <| status := NORMAL |> <| ballot := b |> <| cballot := b |> in
  ∀ c3, quiet (c2 <| recoveryCmds := phases |>) c3 →
  core_ok ∅ (c3 <| fq := q |> <| historySize := 0 |>) ∧ epoch c c1.
Proof.
  intros Hok. cbv zeta. set (c1 := foldl _ _ _).
  assert (clearing c c1) as [Hb _ _ _ He].
  { eapply clear_all; [exact Hok|]. intros a ([id a'] & -> & Hin%elem_of_range_order)%list_elem_of_fmap. by exists id. }
  intros c3 []. cbn in *. split; [|done]. apply core_of_base; cbn; [|done|done|congruence].
  destruct Hb. constructor; cbn; rewrite ?q_heap0, ?q_next0, ?q_pool0, ?q_queue0, ?q_proposes0, ?q_opt0, ?q_out0, ?q_n0, ?q_delivered0; try done.
  eapply Forall_impl; [exact b_work0|]. intros w. apply work_ok_mono; [done|]. cbn. by rewrite q_delivered0.
Qed.

Lemma sync_cmds_genuine m id cmd : sync_ok m → index_entries (YCmds m) !! id = Some cmd → genuine id cmd.
Proof. intros Hm Hin%index_entries_Some. by apply Hm. Qed.

Lemma handleSync_inv e m c : inv c → sync_ok m → ensures (handleSync Sum256 e m c) inv.
Proof.
  intros Hi Hm. unfold handleSync. destruct (_ || _); [done|]. cbn [recoveryIndex]. cbv zeta.
  set (phases := index_entries (YPhases m)). destruct Hi as [Hn Hok Hacks Hsq Hfix Hfq].
  match goal with |- context [foldl (clear_desc phases) ?x] => assert (safe cmd_of (dom (recoveryCmds c)) c x) as [Hok0 He0]; [|set (c0 := x) in *; clearbody c0] end.
  { destruct (status c =? NORMAL); [by apply pause_safe|by split]. }
  pose proof (cleared_ok (dom (recoveryCmds c)) e phases c0 (YBallot m)) as Hclear. cbv zeta in Hclear.
  set (c1 := foldl (clear_desc phases) _ _) in *. set (c2 := _ <| cballot := _ |>) in *.
  eapply ensures_bind; [apply installRecoveryHashBoundary_quiet|]. intros c3 Hq3.
  assert (fixedMajority c3 = true ∧ SwiftQuorum.qs (qs c3) = SwiftQuorum.qs (qs c) ∧ ballot c3 = YBallot m ∧ cballot c3 = YBallot m ∧
    cn c3 = cn c ∧ sq c3 = sq c ∧ newLeaderAckNs c3 = newLeaderAckNs c ∧ recoveryCmds c3 = phases ∧ status c3 = NORMAL) as (F1 & F2 & F3 & F4 & F5 & F6 & F7 & F8 & F9).
  { destruct (Hclear (fq c) Hok0 c3 Hq3) as [_ He1]. destruct Hq3, He0, He1. cbn in *. split_and!; congruence. }
  rewrite F1. destruct (SwiftQuorum.AQ (SwiftQuorum.qs (qs c3)) (ballot c3)) as [qu| |] eqn:Hqu; [|done|done]. cbn [mbind outcome_bind].
  destruct (Hclear (set_quorum qu) Hok0 c3 Hq3) as [Hok4 _]. set (c4 := _ <| historySize := 0 |>) in *.
  destruct (install_all e phases (index_entries (YCmds m)) (index_entries (YDeps m)) (range_keys (ord_sorted e) phases) ∅ [] c4)
    as (Hok5 & He5 & Hfs5); [done| | |by intros id cmd ?; eapply sync_cmds_genuine|by constructor|].
  { intros id a. cbn. destruct Hq3. rewrite q_descriptors0. cbn. by rewrite lookup_empty. }
  { exact F8. }
  destruct (foldl (install _ _) _ _) as [fs c5]. cbn [fst snd] in *. rewrite range_keys_dom, (right_id_L ∅ (∪)) in Hok5.
  assert (good cmd_of (dom phases) keeps c5 (foldl (report_rest phases) c5 (range_order (ord_rest e) (proposes c5)))) as Hg6.
  { apply good_foldl; [apply _|done|]. intros x c' _ [Hc' _]. unfold report_rest. case_bool_decide; [grefl|].
    apply sendClient_good; [apply _|done]. }
  set (c6 := foldl (report_rest phases) _ _) in *.
  eapply (ensures_mono _ (good cmd_of (dom phases) keeps c6)).
  - eapply good_forEach; [apply _|apply Hg6|exact (finishes_ext _ _ _ _ (proj2 Hg6) Hfs5)|].
    intros f c' (id & desc & Hf & Ha) Hg. eapply (run_finish_good cmd_of _ e id desc); [apply Hg| | |].
    + rewrite (ext_status _ _ _ (proj2 Hg)), (ext_status _ _ _ (proj2 Hg6)), (ext_status _ _ _ He5). exact F9.
    + by rewrite (ext_n _ _ _ (proj2 Hg)).
    + intros a Hd. eapply ext_owned; [apply Hg|by apply Ha].
  - intros c7 [Hok7 He7]. assert (ext keeps c4 c7) as He.
    { transitivity c5; [done|]. transitivity c6; [apply Hg6|done]. }
    destruct He. cbn in *. split.
    + rewrite ext_n0. change (cn c4) with (cn c3). by rewrite F5.
    + rewrite ext_rc0. change (recoveryCmds c4) with (recoveryCmds c3). by rewrite F8.
    + rewrite ext_acks0. change (newLeaderAckNs c4) with (newLeaderAckNs c3). by rewrite F7.
    + rewrite ext_sq0, ext_n0. change (sq c4) with (sq c3). change (cn c4) with (cn c3). by rewrite F6, F5.
    + rewrite ext_fixed0. exact F1.
    + exists qu. rewrite ext_qs0, ext_cballot0, ext_fq0. split; [|done]. change (cballot c4) with (cballot c3).
      change (qs c4) with (qs c3). by rewrite F4, <- F3.
Qed.

(** ** Elections *)
Lemma inv_say c o : inv c → ¬ is_execute o → output_ok (cn c) o → inv (say o c).
Proof. intros Hi Ho Hs. eapply inv_safe; [exact Hi|]. eapply good_safe, (say_good _ _ still); [apply Hi|done..]. Qed.

Lemma handleNewLeaderAckNs_inv e l c : inv c → Forall report_ok l → ensures (handleNewLeaderAckNs Sum256 e l c) inv.
Proof.
  intros Hi Hl. unfold handleNewLeaderAckNs. eapply ensures_bind; [by apply select_genuine|]. intros [[phases cmds] deps] Hr.
  cbv zeta. apply handleSync_inv; [by apply inv_say; [|intros ?|]|].
  intros id cmd Hin%elem_of_range_order. by apply (Hr id cmd).
Qed.

Lemma handleNewLeaderAckN_inv e m c : inv c → report_ok m → ensures (handleNewLeaderAckN Sum256 e m c) inv.
Proof.
  intros Hi Hm. unfold handleNewLeaderAckN. destruct (_ || _); [done|].
  destruct (newLeaderAckNs c) as [ms|] eqn:Hns; [|done]. destruct (i_acks c Hi ms Hns) as [Hh Hall]. cbv zeta.
  destruct (Add_spec (λ _ _, true) (λ _ x, report_ok x) (λ _, True) [] [] (NAReplica m) false m ms Hh) as (_ & [Hall' _] & Hh');
    [by split|done|done|]. set (ms' := (Add _ _ _ _ _ _ _).2) in *. set (c1 := c <| newLeaderAckNs := _ |>).
  assert (inv c1) as Hi1.
  { destruct Hi as [? [] ? ? ? ?]. split; try done. intros x [= <-]. by split. }
  destruct Hh' as [->|[-> _]]; cbn [forEach]; [done|].
  assert (ensures (handleNewLeaderAckNs Sum256 e (range_order [] (msgs ms')).*2 c1) inv) as Hend.
  { apply handleNewLeaderAckNs_inv; [done|]. apply Forall_forall. intros x ([rep x'] & -> & Hx%elem_of_range_order)%list_elem_of_fmap.
    by apply (Hall' rep). }
  cbn [snd]. by destruct (handleNewLeaderAckNs _ _ _ _).
Qed.

Lemma report_genuine e c r : inv c → r ∈ report e c → genuine r.1.1.1 r.1.2.
Proof.
  intros [_ Hok _ _ _ _]. unfold report.
  assert (∀ l : list Z, (∀ a, a ∈ l → ∃ id, descriptors c !! id = Some a) →
    ∀ r, r ∈ (foldl (report_desc c) (∅, []) l).2 → genuine r.1.1.1 r.1.2) as Hdescs.
  { intros l Hl. apply (foldl_ind_in (report_desc c) (λ s, ∀ r, r ∈ s.2 → genuine r.1.1.1 r.1.2)); [by intros ? ?%not_elem_of_nil|].
    intros s a [id Ha]%Hl IH x. unfold report_desc. destruct (propose (at_ c a)) as [p|] eqn:Hp; [|by apply IH].
    case_bool_decide; [by apply IH|]. cbn. intros [Hx|Hx%list_elem_of_singleton]%elem_of_app; [by apply IH|]. subst x. cbn.
    destruct (at_owned _ _ c id a Hok Ha) as (_ & _ & Hdok). destruct (d_propose _ _ _ _ _ _ _ _ _ Hdok p Hp) as [[Hid _] Hg].
    by rewrite Hid. }
  specialize (Hdescs (range_order (ord_report e) (descriptors c)).*2).
  destruct (foldl (report_desc c) _ _) as [seen l]. cbn [snd] in Hdescs. intros [Hr|Hr]%elem_of_app.
  - apply Hdescs; [|done]. intros a ([id a'] & -> & Hin%elem_of_range_order)%list_elem_of_fmap. by exists id.
  - apply list_elem_of_In, in_concat in Hr as (x & Hx%list_elem_of_In & Hr%list_elem_of_In).
    apply list_elem_of_fmap in Hx as (id & -> & _). unfold report_unseen in Hr. destruct (_ || _); [by apply not_elem_of_nil in Hr|].
    apply list_elem_of_singleton in Hr as ->. by right.
Qed.

Lemma handleNewLeader_inv e m c : inv c → ensures (handleNewLeader Sum256 e m c) inv.
Proof.
  intros Hi. unfold handleNewLeader. destruct (NBallot m <=? ballot c); [done|]. cbv zeta.
  set (c1 := pauseLocalWork (c <| status := RECOVERING |> <| ballot := NBallot m |>)).
  assert (inv c1) as Hi1.
  { destruct Hi as [? Hok ? ? ? ?]. eapply inv_safe.
    2: { apply pause_safe. cbn. destruct Hok. constructor; try done; cbn. by right. }
    split; try done. destruct Hok. constructor; try done; cbn. by right. }
  set (m' := fillNewLeaderAckN _ _ _). assert (report_ok m') as Hr.
  { intros i id cmd. subst m'. cbn. unfold index. destruct (i <? 0); [done|]. rewrite !list_lookup_fmap.
    destruct (report e c1 !! Z.to_nat i) as [r|] eqn:E; [|done]. cbn. intros [= <-] [= <-].
    apply (report_genuine e c1); [done|]. by eapply list_elem_of_lookup_2. }
  destruct (negb _); [|by apply handleNewLeaderAckN_inv]. by apply inv_say; [|intros ?|].
Qed.

Lemma beginRecovery_inv e fuel b c : inv c → ensures (beginRecovery Sum256 e fuel b c) inv.
Proof.
  intros Hi. unfold beginRecovery. destruct (first_ballot b c) as [b1| |]; [|done|done]. cbn [mbind outcome_bind].
  match goal with |- ensures (?o ≫= _) _ => destruct o as [b2| |] end; [|done|done]. cbn [mbind outcome_bind]. cbv zeta.
  apply handleNewLeader_inv. assert (inv (say (OBroadcast (PNewLeader (mkNewLeader (cid c) b2))) c)) as Hi1 by by apply inv_say; [|intros ?|].
  destruct Hi1 as [? Hok ? ? ? ?]. split; try done.
  - destruct Hok. by constructor.
  - cbn. intros ms [= <-]. unfold ReinitMsgSet. destruct (newLeaderAckNs c); (split; [done|]); intros rep y; cbn.
    + by intros [_ ?]%map_lookup_filter_Some.
    + by rewrite lookup_empty.
Qed.

(** ** Events *)
Definition input_ok (i : input) : Prop :=
  match i with
  | ILightSlowAck m => slow_ok n m
  | IAcks m => Forall (slow_ok n) (LightSlowAcks m)
  | IOptAcks m => ∀ ack, ack ∈ Acks m → IsNilDepOfCmdID (ACmdId ack) (ids (ADep ack)) = true →
      ASeqnum ack ≠ recoveryAckSeqnum → OReplica m ≠ SwiftQuorum.Leader (OBallot m) n
  | ISync m => sync_ok m
  | INewLeaderAckN m => report_ok m
  | _ => True
  end.
Definition step_ok (s : step) : Prop :=
  match s with
  | Propose ps => Forall (λ p, proposal_ok cmd_of (RequestID_of p) p) ps
  | Step i => input_ok i
  | Wake => True
  end.

Lemma hand_inv e id m c : inv c → message_ok cmd_of n id m → inv (hand e id m c).
Proof.
  intros Hi Hm. eapply inv_safe; [exact Hi|]. eapply good_safe, hand_good; [apply Hi|]. by rewrite (i_n c Hi).
Qed.
Lemma receiveFastAck_inv e m c : inv c → ensures (receiveFastAck Sum256 maxAlloc e m c) inv.
Proof.
  intros Hi. eapply inv_ensures; [done|]. eapply ensures_mono; [apply receiveFastAck_good, Hi|]. intros c'. apply good_safe.
Qed.

Lemma receiveOptAck_inv e m c ack :
  inv c → ack ∈ Acks m → input_ok (IOptAcks m) → ensures (receiveOptAck Sum256 maxAlloc e m ack c) inv.
Proof.
  intros Hi Hin Hm. unfold receiveOptAck. destruct (negb _); [done|]. cbv zeta.
  destruct (IsNilDepOfCmdID _ _) eqn:En; cbn [andb]; [|by apply receiveFastAck_inv].
  destruct (ASeqnum ack =? recoveryAckSeqnum) eqn:Es; cbn [negb]; [by apply receiveFastAck_inv|].
  cbn. apply hand_inv; [done|]. cbn. unfold slow_ok. cbn. apply (Hm ack Hin En). lia.
Qed.

Lemma receive_inv e fuel i c : inv c → input_ok i → ensures (receive Sum256 maxAlloc e fuel i c) (λ r, inv r.2).
Proof.
  intros Hi Hin.
  assert (∀ o : outcome core, ensures o inv → ensures (c ← o; Done (None (A:=string), c)) (λ r, inv r.2)) as Hok.
  { intros o Ho. by destruct o. }
  unfold receive. cbv zeta. destruct i; try apply Hok.
  - by apply receiveFastAck_inv.
  - by apply hand_inv.
  - eapply ensures_bind; [apply (ensures_forEach _ inv); [done|]; intros; by apply receiveFastAck_inv|].
    intros c' Hi'. cbn [ensures]. apply foldl_ind_in; [done|]. intros x s Hs Hx. apply hand_inv; [done|].
    by apply (proj1 (Forall_forall _ _) Hin).
  - apply (ensures_forEach_in _ inv); [done|]. intros ack c' Hack Hi'. by apply receiveOptAck_inv.
  - by apply handleNewLeader_inv.
  - by apply handleSync_inv.
  - by apply handleNewLeaderAckN_inv.
  - by apply beginRecovery_inv.
  - destruct (handleLeaderCall c); [|done|done]. cbn. by apply inv_say; [|intros ?|].
  - by apply hand_inv.
  - done.
Qed.

Lemma drain_inv e c : inv c → ensures (drainLocalWork Sum256 maxAlloc e localWorkBudget c) inv.
Proof.
  intros Hi. eapply inv_ensures; [done|]. apply drainLocalWork_safe; [apply Hi|]. intros id. apply dom_recovered.
Qed.

Lemma run_step_inv e fuel s c : inv c → step_ok s → ensures (run_step Sum256 maxAlloc e fuel s c) inv.
Proof.
  intros Hi Hs. destruct s as [ps|i|]; cbn [run_step]; [| |by apply drain_inv].
  - unfold propose_all. destruct ps as [|p ps]; [done|]. destruct (status c =? RECOVERING).
    { cbn. eapply inv_safe; [exact Hi|]. eapply good_safe, (enqueue_good _ _ still); [apply Hi|]. by inversion_clear Hs. }
    assert (inv (beginProposalBatch (Z.of_nat (length (p :: ps))) c)) as Hi1.
    { eapply inv_safe; [exact Hi|]. eapply good_safe, (quiet_good _ _ still); [apply Hi|].
      unfold beginProposalBatch. cbv zeta. destruct (_ <? _); by constructor. }
    eapply (ensures_bind _ _ inv); [|intros c'; apply drain_inv].
    apply (ensures_forEach_in _ inv); [done|]. intros x c' Hx Hc'. eapply inv_ensures; [done|].
    eapply ensures_mono; [apply submit_good; [apply Hc'|]|intros c''; apply good_safe].
    by apply (proj1 (Forall_forall _ _) Hs).
  - eapply ensures_bind; [by apply receive_inv|]. intros [[err|] c'] Hi'; [done|]. by apply drain_inv.
Qed.

(** ** Runs *)

(** A start and a sequence of steps, each in its environment. *)
Definition run (l : list (env * nat * step)) (c : core) : outcome core :=
  forEach (λ s, run_step Sum256 maxAlloc s.1.1 s.1.2 s.2) l c.

Lemma newCore_inv id ex rep level fr opt slow ord initial l :
  ensures (newCore n id ex rep level fr opt slow ord initial l) inv.
Proof.
  unfold newCore. destruct (SwiftQuorum.NewQuorumSystem _ _ _ _ _) as [[err|sys]| |]; [done| |done|done]. cbn [mbind outcome_bind].
  destruct (SwiftQuorum.BallotAt sys 0) as [b| |]; [|done|done]. cbn [mbind outcome_bind].
  destruct (SwiftQuorum.AQ (SwiftQuorum.qs sys) b) as [q| |] eqn:Hq; [|done|done]. cbn [mbind outcome_bind ensures].
  split; [done| |done|done|done|by exists q].
  cbn. rewrite dom_empty_L. apply core_of_base; [|done|done|done]. constructor; cbn; try done.
  - intros a. rewrite lookup_empty. by intros [].
  - constructor.
  - intros x. rewrite elem_of_empty. cbn. by rewrite elem_of_nil.
Qed.

Lemma run_inv l c : inv c → Forall (λ s, step_ok s.2) l → ensures (run l c) inv.
Proof.
  intros Hi Hl. unfold run. apply (ensures_forEach_in _ inv); [done|]. intros s c' Hs Hi'. apply run_step_inv; [done|].
  by apply (proj1 (Forall_forall _ _) Hl).
Qed.

(** ** What a run shows *)

(** A replica that starts and takes the steps [l], each of which carries genuine
    commands. *)
Definition reached id ex rep level fr opt slow ord initial lead (l : list (env * nat * step)) (c : core) : Prop :=
  Forall (λ s, step_ok s.2) l ∧
  (c0 ← newCore n id ex rep level fr opt slow ord initial lead; run l c0) = Done c.

Lemma reached_inv id ex rep level fr opt slow ord initial lead l c :
  reached id ex rep level fr opt slow ord initial lead l c → inv c.
Proof.
  intros [Hl Hr]. assert (ensures (c0 ← newCore n id ex rep level fr opt slow ord initial lead; run l c0) inv) as Hi.
  { eapply ensures_bind; [apply newCore_inv|]. intros c0 Hc0. by apply run_inv. }
  by eapply ensures_Done.
Qed.

Lemma ordered_split opt l : ordered cmd_of opt l → NoDup (executed l) ∧
  ∀ l1 id cmd d ph l2, l = l1 ++ OExecute id cmd d ph :: l2 →
    (∀ x, x ∈ d → x ∈ executed l1) ∧ (ph = COMMIT ∨ opt = true) ∧ genuine id cmd.
Proof.
  induction 1 as [|l o Hl [Hnd IH] Ho|l id cmd d ph Hl [Hnd IH] Hnew Hd Hph Hg].
  - split; [constructor|]. by intros [|].
  - assert (executed [o] = []) as E by (destruct o; try done; by destruct (Ho _ _ _ _ eq_refl)).
    rewrite executed_app, E, app_nil_r. split; [done|]. intros l1 id cmd d ph l2 Es.
    destruct l2 as [|y l2 _] using rev_ind.
    + apply app_inj_tail in Es as [_ ->]. by destruct (Ho _ _ _ _ eq_refl).
    + rewrite app_comm_cons, app_assoc in Es. apply app_inj_tail in Es as [Es _]. by eapply IH.
  - rewrite executed_app. split.
    + apply NoDup_app. split; [done|]. split; [|apply NoDup_singleton]. by intros x Hx ->%list_elem_of_singleton.
    + intros l1 id' cmd' d' ph' l2 Es. destruct l2 as [|y l2 _] using rev_ind.
      * apply app_inj_tail in Es as [-> [= -> -> -> ->]]. done.
      * rewrite app_comm_cons, app_assoc in Es. apply app_inj_tail in Es as [Es _]. by eapply IH.
Qed.

(** C28.  Whatever proposals, messages and recoveries a replica sees, it executes
    no command twice, a command only after all its dependencies, and, unless it
    is an optimistic leader, only a committed one; and what it executes under an
    identity is what the clients proposed under it, or the no-op that recovery
    puts in place of a proposal. *)
Theorem executions_ordered id ex rep level fr opt slow ord initial lead l c :
  reached id ex rep level fr opt slow ord initial lead l c →
  NoDup (executed (out c)) ∧ (∀ x, x ∈ delivered c ↔ x ∈ executed (out c)) ∧
  ∀ l1 x cmd d ph l2, out c = l1 ++ OExecute x cmd d ph :: l2 →
    (∀ y, y ∈ d → y ∈ executed l1) ∧ (ph = COMMIT ∨ optExec c = true) ∧ genuine x cmd.
Proof.
  intros Hr%reached_inv. pose proof (i_core c Hr) as []. destruct (ordered_split _ _ ok_out0) as [Hnd Hs].
  by split; [|split].
Qed.

(** The leader's acknowledgement of [x] in ballot [b] and those of [acks], of
    other members of the quorum, in the same ballot, that are slow or name the
    same dependencies; with the leader's they are as many as the quorum has
    members. *)
Definition quorum_for (b : Z) (x : RequestID) (qi : QuorumI) (l : MFastAck) (acks : gmap Z MFastAck) : Prop :=
  FCmdId l = x ∧ FBallot l = b ∧ FReplica l = SwiftQuorum.Leader b n ∧
  (∀ rep m, acks !! rep = Some m → rep ≠ SwiftQuorum.Leader b n ∧ QContains qi rep = true ∧
     FReplica m = rep ∧ FCmdId m = x ∧ FBallot m = b ∧
     (FDep m = None ∨ Equals (ids (FDep l)) (ids (FDep m)) = true)) ∧
  QSize qi ≤ Z.of_nat (size acks) + 1.

Lemma complete_quorum (b : Z) x qi ms : set_ok n b qi x ms → complete ms → ∃ l, quorum_for b x qi l (msgs ms).
Proof.
  intros [[Hq Hm _] [HP HL] _] [[l Hl] Hs]. exists l. destruct (HL l Hl). split_and!; [done..| |rewrite <- Hq; lia].
  intros rep m Hrep. destruct (HP rep m Hrep) as [Hne []]. destruct (Hm rep m Hrep) as [Hc Hacc]. split_and!; try done.
  rewrite Hl in Hacc. apply orb_prop in Hacc as [Hacc|Hacc]; [left; by apply bool_decide_eq_true in Hacc|by right].
Qed.

(** C29.  In a reached state a command that is committed was installed as
    committed by the last recovery, or the leader of the installed ballot and
    enough others acknowledge it in that ballot: a majority, or the fast quorum
    the ballot names. *)
Theorem commit_justified id ex rep level fr opt slow ord initial lead l c x a :
  reached id ex rep level fr opt slow ord initial lead l c →
  descriptors c !! x = Some a → phase (at_ c a) = COMMIT →
  recoveryCmds c !! x = Some COMMIT ∨
  ∃ qi lm acks, quorum_for (cballot c) x qi lm acks ∧
    (qi = majority_quorum n ∨ ∃ q, SwiftQuorum.AQ (SwiftQuorum.qs (qs c)) (cballot c) = Done q ∧ qi = set_quorum q).
Proof.
  intros Hr%reached_inv Ha Hp. destruct Hr as [Hn Hok _ Hsq _ (q & Hq & Hfq)].
  destruct (at_owned _ _ c x a Hok Ha) as (_ & _ & []). rewrite Hn in *.
  destruct (d_commit0 Hp) as [?|[Hc|Hc]]; [by left|right..].
  - destruct (complete_quorum _ _ _ _ d_slow0 Hc) as [lm Hlm]. exists (sq c), lm, (msgs (slowPathH (at_ c a))). rewrite Hsq in *. by split; [|left].
  - destruct (complete_quorum _ _ _ _ d_fast0 Hc) as [lm Hlm]. exists (fq c), lm, (msgs (fastPathH (at_ c a))). rewrite Hfq in *.
    split; [done|right; by exists q].
Qed.
End Core.

(** Replica 1 of 3 gets a proposal and the acknowledgement of the leader, which
    orders the command after one that replica 1 has not executed. *)
#[local] Existing Instance demo_machine.
Definition demo_env : env := mkEnv [] [] [] [] [] [] [] [] [] (λ _ _, None) (λ _ _, true).
Definition demo_x : RequestID := mkRequestID 8 0.
Definition demo_y : RequestID := mkRequestID 9 0.
Definition demo_put (id : RequestID) : proposal := mkProposal (mkPropose (Sequence id) (Client id) (mkCommand PUT 1 [Client id]) 0) false "".
Definition demo_of (id : RequestID) : Command := mkCommand PUT 1 [Client id].
Definition demo_ack (id : RequestID) (dep : list RequestID) (seq : Z) : MFastAck := mkFastAck 0 0 id (Some dep) [[0]] seq.
Definition demo_hash (b : bytes) : bytes := take 32 b.
Definition demo_steps (k : nat) : list (env * nat * step) :=
  map (λ s, (demo_env, 0%nat, s))
    (take k [Propose [demo_put demo_y]; Step (IFastAck (demo_ack demo_y [demo_x] 1));
             Propose [demo_put demo_x]; Step (IFastAck (demo_ack demo_x [] 0))]).
Definition demo_run (k : nat) : outcome core :=
  c ← newCore 3 1 true true 1 false false [] [] 3 0; run demo_hash (2 ^ 48) (demo_steps k) c.

Lemma demo_run_ok k : Forall (λ s, step_ok demo_of 3 s.2) (demo_steps k).
Proof.
  unfold demo_steps. apply Forall_fmap, Forall_take. repeat constructor.
Qed.

Lemma demo_reached k c : demo_run k = Done c →
  reached demo_hash (2 ^ 48) demo_of 3 1 true true 1 false false [] [] 3 0 (demo_steps k) c.
Proof. intros E. split; [apply demo_run_ok|exact E]. Qed.

Lemma executions_ordered_witness :
  ∃ c, demo_run 4 = Done c ∧ executed (out c) = [demo_x; demo_y] ∧
  NoDup (executed (out c)) ∧ (∀ x, x ∈ delivered c ↔ x ∈ executed (out c)) ∧
  ∀ l1 x cmd d ph l2, out c = l1 ++ OExecute x cmd d ph :: l2 →
    (∀ y, y ∈ d → y ∈ executed l1) ∧ (ph = COMMIT ∨ optExec c = true) ∧ genuine demo_of x cmd.
Proof.
  assert (match demo_run 4 with Done c => executed (out c) = [demo_x; demo_y] | _ => False end) as He by (vm_compute; reflexivity).
  destruct (demo_run 4) as [c| |] eqn:E; [|destruct He|destruct He]. exists c. split; [reflexivity|]. split; [exact He|].
  exact (executions_ordered demo_hash (2 ^ 48) demo_of 3 1 true true 1 false false [] [] 3 0 (demo_steps 4) c (demo_reached 4 c E)).
Defined.

Lemma commit_justified_witness :
  ∃ c a, demo_run 2 = Done c ∧ descriptors c !! demo_y = Some a ∧ phase (at_ c a) = COMMIT ∧
  (recoveryCmds c !! demo_y = Some COMMIT ∨
   ∃ qi lm acks, quorum_for 3 (cballot c) demo_y qi lm acks ∧
    (qi = majority_quorum 3 ∨ ∃ q, SwiftQuorum.AQ (SwiftQuorum.qs (qs c)) (cballot c) = Done q ∧ qi = set_quorum q)).
Proof.
  assert (match demo_run 2 with Done c => match descriptors c !! demo_y with Some a => phase (at_ c a) = COMMIT | None => False end
          | _ => False end) as He by (vm_compute; reflexivity).
  destruct (demo_run 2) as [c| |] eqn:E; [|destruct He|destruct He]. destruct (descriptors c !! demo_y) as [a|] eqn:Ha; [|destruct He].
  exists c, a. split; [reflexivity|]. split; [exact Ha|]. split; [exact He|].
  exact (commit_justified demo_hash (2 ^ 48) demo_of 3 1 true true 1 false false [] [] 3 0 (demo_steps 2) c demo_y a (demo_reached 2 c E) Ha He).
Defined.
End SwiftReach.
