(* ===== verification/SwiftBatch.v ===== *)
(** * SwiftBatch: batching of acknowledgements ([swift/batch.go])

    The core hands acknowledgements to the batcher, whose [flush] turns the two
    queues into one broadcast: [MOptAcks] when all are of one ballot, else
    [MAcks].  The queues are buffered channels used by the event loop alone, so
    [select] chooses a nonempty one, the first in [choice] when both are.

    [flush_complete]: the broadcast conveys what was queued and nothing else,
    where a slow acknowledgement supersedes a fast one of the same command.
    [batches_complete]: whatever is handed over in whatever order, every
    acknowledgement is in exactly one flush, and no queue outgrows its capacity. *)
From stdpp Require Import gmap strings list fin_maps fin_sets.
From Stdlib Require Import Lia.
From S2P Require Import Prelude State Defs SwiftSets Swift.

Module SwiftBatch.
Import SwiftSets Swift.

(** ** State *)
Record messageBatcher := mkBatcher {
  size : nat;                                     (* the capacity of the channels *)
  fastAcks : list (MFastAck * bool);
  lightSlowAcks : list (MLightSlowAck * bool) }.
#[export] Instance eta_batcher : Eta messageBatcher := λ b, mkBatcher (size b) (fastAcks b) (lightSlowAcks b).
#[export] Instance set_fastAcks : Setter fastAcks := ltac:(mk_setter).
#[export] Instance set_lightSlowAcks : Setter lightSlowAcks := ltac:(mk_setter).

Definition newMessageBatcher (size : Z) : outcome messageBatcher :=
  if size <=? 0 then Panicked "swift: batch capacity must be positive" else Done (mkBatcher (Z.to_nat size) [] []).

(** The variables of a round of [flush]. *)
Record batch := mkBatch {
  bballot : Z; backs : list Ack; places : gmap RequestID Z;
  fastAckClientMsgs : gmap RequestID MFastAckClient; slowAckClientMsgs : gmap RequestID MLightSlowAck }.
#[export] Instance eta_batch : Eta batch := λ b,
  mkBatch (bballot b) (backs b) (places b) (fastAckClientMsgs b) (slowAckClientMsgs b).
#[export] Instance set_bballot : Setter bballot := ltac:(mk_setter).
#[export] Instance set_backs : Setter backs := ltac:(mk_setter).
#[export] Instance set_places : Setter places := ltac:(mk_setter).
#[export] Instance set_fastC : Setter fastAckClientMsgs := ltac:(mk_setter).
#[export] Instance set_slowC : Setter slowAckClientMsgs := ltac:(mk_setter).

(** What is sent: the client messages, then the broadcast. *)
Record flushed := mkFlushed { to_clients : list (Z * client_message); to_all : peer_message }.

Section Flush.
(** The replica's identity, and the orders of the loops over the client maps. *)
Variable rID : Z.
Variable ord_fast ord_slow : list RequestID.

Definition fast_entry (f : MFastAck) : Ack := mkAck (FCmdId f) (FDep f) (FChecksum f) (FSeqnum f).
Definition slow_entry (s : MLightSlowAck) : Ack := mkAck (SCmdId s) (Some (NilDepOfCmdID (SCmdId s))) [] 0.
Definition fast_client (f : MFastAck) : MFastAckClient := mkFastAckClient (FReplica f) (FBallot f) (FCmdId f) (FChecksum f).

(** [is[id] = len(optAcks.Acks); optAcks.Acks = append(optAcks.Acks, a)] *)
Definition append_ack (a : Ack) (b : batch) : batch :=
  b <| places ::= <[ACmdId a := Z.of_nat (length (backs b))]> |> <| backs ::= (λ l, l ++ [a]) |>.

(** The loops of a round that starts with a fast acknowledgement. *)
Definition fast_then_fast (b : batch) (op : MFastAck * bool) : batch :=
  let '(f, toClient) := op in
  let b := if bballot b =? FBallot f then append_ack (fast_entry f) b else b <| bballot := -1 |> in
  if toClient then b <| fastAckClientMsgs ::= <[FCmdId f := fast_client f]> |> else b.
Definition fast_then_slow (b : batch) (op : MLightSlowAck * bool) : batch :=
  let '(s, toClient) := op in
  let b := if bballot b =? SBallot s then
             match places b !! SCmdId s with
             | Some i => b <| backs ::= alter (λ a, a <| ADep := Some (NilDepOfCmdID (SCmdId s)) |> <| AChecksum := [] |>) (Z.to_nat i) |>
             | None => append_ack (slow_entry s) b
             end
           else b <| bballot := -1 |> in
  if toClient then b <| fastAckClientMsgs ::= delete (SCmdId s) |> <| slowAckClientMsgs ::= <[SCmdId s := s]> |> else b.

(** The loops of a round that starts with a slow one. *)
Definition slow_then_slow (b : batch) (op : MLightSlowAck * bool) : batch :=
  let '(s, toClient) := op in
  let b := if bballot b =? SBallot s then append_ack (slow_entry s) b else b <| bballot := -1 |> in
  if toClient then b <| slowAckClientMsgs ::= <[SCmdId s := s]> |> else b.
Definition slow_then_fast (b : batch) (op : MFastAck * bool) : batch :=
  let '(f, toClient) := op in
  let b := if bballot b =? FBallot f then
             match places b !! FCmdId f with
             | Some _ => b
             | None => append_ack (fast_entry f) b
             end
           else b <| bballot := -1 |> in
  if toClient then
    match slowAckClientMsgs b !! FCmdId f with
    | Some _ => b
    | None => b <| fastAckClientMsgs ::= <[FCmdId f := fast_client f]> |>
    end
  else b.

Definition finish_round (ballot : Z) (b : batch) (fast : list (MFastAck * bool)) (slow : list (MLightSlowAck * bool)) : flushed :=
  mkFlushed
    (map (λ kf : RequestID * MFastAckClient, (Client (CCmdId kf.2), CFastAck kf.2)) (range_order ord_fast (fastAckClientMsgs b)) ++
     map (λ ks : RequestID * MLightSlowAck, (Client (SCmdId ks.2), CLightSlowAck ks.2)) (range_order ord_slow (slowAckClientMsgs b)))
    (if negb (bballot b =? -1) then POptAcks (mkOptAcks rID ballot (backs b)) else PAcks (mkAcks fast.*1 slow.*1)).

Definition flush_fast (op : MFastAck * bool) (fast : list (MFastAck * bool)) (slow : list (MLightSlowAck * bool)) : flushed :=
  let f := op.1 in
  let b := mkBatch (FBallot f) [fast_entry f] {[FCmdId f := 0]}
             (if op.2 : bool then {[FCmdId f := fast_client f]} else ∅) ∅ in
  finish_round (FBallot f) (foldl fast_then_slow (foldl fast_then_fast b fast) slow) (op :: fast) slow.

Definition flush_slow (op : MLightSlowAck * bool) (fast : list (MFastAck * bool)) (slow : list (MLightSlowAck * bool)) : flushed :=
  let s := op.1 in
  let b := mkBatch (SBallot s) [slow_entry s] {[SCmdId s := 0]} ∅ (if op.2 : bool then {[SCmdId s := s]} else ∅) in
  finish_round (SBallot s) (foldl slow_then_fast (foldl slow_then_slow b slow) fast) fast (op :: slow).

(** [flush]: a round empties both queues, so there is at most one. *)
Definition flush (choice : bool) (b : messageBatcher) : list flushed * messageBatcher :=
  let empty := mkBatcher (size b) [] [] in
  match fastAcks b, lightSlowAcks b with
  | [], [] => ([], b)
  | op :: fast, [] => ([flush_fast op fast []], empty)
  | [], op :: slow => ([flush_slow op [] slow], empty)
  | f :: fast, s :: slow =>
      ([if choice then flush_fast f fast (s :: slow) else flush_slow s (f :: fast) slow], empty)
  end.

(** [enqueue] on the queue of the operation; [SendFastAck] and the others. *)
Definition enqueue (choice : bool) (op : batchOperation) (b : messageBatcher) : list flushed * messageBatcher :=
  let full := match op with
              | BFast _ _ => (length (fastAcks b) =? size b)%nat
              | BSlow _ _ => (length (lightSlowAcks b) =? size b)%nat
              end in
  let '(sent, b) := if full then flush choice b else ([], b) in
  (sent, match op with
         | BFast f toClient => b <| fastAcks ::= (λ l, l ++ [(f, toClient)]) |>
         | BSlow s toClient => b <| lightSlowAcks ::= (λ l, l ++ [(s, toClient)]) |>
         end).
End Flush.

(** ** What a broadcast conveys *)

(** An acknowledgement as [receive] reads it. *)
Inductive conveyed := Fast (f : MFastAck) | Slow (s : MLightSlowAck).
Definition read_entry (m : MOptAcks) (a : Ack) : conveyed :=
  let nil := IsNilDepOfCmdID (ACmdId a) (ids (ADep a)) in
  if nil && negb (ASeqnum a =? recoveryAckSeqnum) then Slow (mkLightSlowAck (OReplica m) (OBallot m) (ACmdId a))
  else Fast (mkFastAck (OReplica m) (OBallot m) (ACmdId a) (if nil then None else ADep a) (AChecksum a) (ASeqnum a)).
Definition conveys (m : peer_message) : list conveyed :=
  match m with
  | PAcks m => map Fast (FastAcks m) ++ map Slow (LightSlowAcks m)
  | POptAcks m => map (read_entry m) (Acks m)
  | _ => []
  end.
(** A recovery acknowledgement with the dependency sentinel stands for one
    without dependencies. *)
Definition read_fast (f : MFastAck) : MFastAck :=
  if IsNilDepOfCmdID (FCmdId f) (ids (FDep f)) then f <| FDep := None |> else f.

(** What replica [rID] hands over: its own acknowledgements, one fast one per
    command; the sentinel only in recovery, where it sends no slow one. *)
Record queues_ok (rID : Z) (F : list MFastAck) (S : list MLightSlowAck) : Prop := mkQueuesOk {
  own_fast : ∀ f, f ∈ F → FReplica f = rID ∧ FBallot f ≠ -1;
  own_slow : ∀ s, s ∈ S → SReplica s = rID ∧ SBallot s ≠ -1;
  one_fast : NoDup (map FCmdId F);
  sentinel : ∀ f, f ∈ F → IsNilDepOfCmdID (FCmdId f) (ids (FDep f)) = true → FSeqnum f = recoveryAckSeqnum;
  recovery_fast : ∀ f s, f ∈ F → s ∈ S → FCmdId f = SCmdId s → FSeqnum f ≠ recoveryAckSeqnum }.

Section Conveyed.
Variable B : Z.

Definition stands_for (a : Ack) (s : MLightSlowAck) : Prop :=
  ACmdId a = SCmdId s ∧ ADep a = Some (NilDepOfCmdID (SCmdId s)) ∧ ASeqnum a ≠ recoveryAckSeqnum.

(** The batch holds what was taken from the queues so far. *)
Record holds (F : list MFastAck) (S : list MLightSlowAck) (b : batch) : Prop := mkHolds {
  h_ballot : bballot b = B;
  h_fast_ballot : ∀ f, f ∈ F → FBallot f = B;
  h_slow_ballot : ∀ s, s ∈ S → SBallot s = B;
  h_places : ∀ id i, places b !! id = Some i → 0 ≤ i ∧ ∃ a, backs b !! Z.to_nat i = Some a ∧ ACmdId a = id;
  h_known : ∀ id, is_Some (places b !! id) → id ∈ map FCmdId F ∨ id ∈ map SCmdId S;
  h_slow : ∀ s, s ∈ S → ∃ a, a ∈ backs b ∧ stands_for a s;
  h_fast : ∀ f, f ∈ F → (∀ s, s ∈ S → SCmdId s ≠ FCmdId f) → fast_entry f ∈ backs b;
  h_all : ∀ a, a ∈ backs b → (∃ s, s ∈ S ∧ stands_for a s) ∨ (∃ f, f ∈ F ∧ a = fast_entry f) }.

(** Or the ballots differ. *)
Definition tracks F S (b : batch) : Prop := bballot b = -1 ∨ holds F S b.

Lemma append_ack_places (b : batch) (a : Ack) id i :
  (∀ id i, places b !! id = Some i → 0 ≤ i ∧ ∃ a, backs b !! Z.to_nat i = Some a ∧ ACmdId a = id) →
  places (append_ack a b) !! id = Some i → 0 ≤ i ∧ ∃ x, backs (append_ack a b) !! Z.to_nat i = Some x ∧ ACmdId x = id.
Proof.
  intros Hb. cbn. rewrite lookup_insert_Some. intros [[<- <-]|[_ Hi]].
  - split; [lia|]. exists a. split; [|done]. rewrite Nat2Z.id. by rewrite lookup_app_r, Nat.sub_diag by lia.
  - destruct (Hb id i Hi) as (Hp & x & Hx & E). split; [done|]. exists x. split; [|done]. by apply lookup_app_l_Some.
Qed.

Lemma holds_append_fast F S b f :
  holds F S b → FBallot f = B → holds (F ++ [f]) S (append_ack (fast_entry f) b).
Proof.
  intros [] Hf. constructor; cbn [bballot append_ack set set_places set_backs]; try done.
  - intros x [?| ->%list_elem_of_singleton]%elem_of_app; [by apply h_fast_ballot0|done].
  - intros id i. by apply append_ack_places.
  - intros id. cbn. rewrite lookup_insert_is_Some', map_app, elem_of_app. intros [<-|Hi]; [left; right; by left|].
    destruct (h_known0 id Hi); [left; by left|by right].
  - intros s (a & Ha & Hs)%h_slow0. exists a. split; [|done]. cbn. apply elem_of_app. by left.
  - intros x [Hx| ->%list_elem_of_singleton]%elem_of_app Hno; cbn; apply elem_of_app; [left; by apply h_fast0|right; by left].
  - cbn. intros a [Ha| ->%list_elem_of_singleton]%elem_of_app.
    + destruct (h_all0 a Ha) as [?|(x & Hx & E)]; [by left|right]. exists x. split; [|done]. apply elem_of_app. by left.
    + right. exists f. split; [|done]. apply elem_of_app. right. by left.
Qed.

Lemma holds_append_slow F S b s : holds F S b → SBallot s = B → holds F (S ++ [s]) (append_ack (slow_entry s) b).
Proof.
  intros [] Hs. constructor; cbn [bballot append_ack set set_places set_backs]; try done.
  - intros x [?| ->%list_elem_of_singleton]%elem_of_app; [by apply h_slow_ballot0|done].
  - intros id i. by apply append_ack_places.
  - intros id. cbn. rewrite lookup_insert_is_Some', map_app, elem_of_app. intros [<-|Hi]; [right; right; by left|].
    destruct (h_known0 id Hi); [by left|right; by left].
  - intros x [Hx| ->%list_elem_of_singleton]%elem_of_app; cbn.
    + destruct (h_slow0 x Hx) as (a & Ha & Hax). exists a. split; [|done]. apply elem_of_app. by left.
    + exists (slow_entry s). split; [apply elem_of_app; right; by left|]. by repeat split.
  - intros x Hx Hno. cbn. apply elem_of_app. left. apply h_fast0; [done|]. intros y Hy. apply Hno, elem_of_app. by left.
  - cbn. intros a [Ha| ->%list_elem_of_singleton]%elem_of_app.
    + destruct (h_all0 a Ha) as [(x & Hx & E)|?]; [left|by right]. exists x. split; [|done]. apply elem_of_app. by left.
    + left. exists s. split; [apply elem_of_app; right; by left|by repeat split].
Qed.

(** An entry of a fast acknowledgement becomes the slow one's. *)
Definition supersede (s : MLightSlowAck) (a : Ack) : Ack := a <| ADep := Some (NilDepOfCmdID (SCmdId s)) |> <| AChecksum := [] |>.
Lemma holds_supersede F S b s i :
  holds F S b → SBallot s = B → places b !! SCmdId s = Some i →
  (∀ f, f ∈ F → FCmdId f = SCmdId s → FSeqnum f ≠ recoveryAckSeqnum) →
  holds F (S ++ [s]) (b <| backs ::= alter (supersede s) (Z.to_nat i) |>).
Proof.
  intros [] Hs Hi Hrec. destruct (h_places0 _ _ Hi) as (Hpos & a & Ha & Eid).
  assert (stands_for (supersede s a) s) as Hnew.
  { split; [done|]. split; [done|]. cbn. destruct (h_all0 a) as [(x & Hx & _ & _ & ?)|(f & Hf & ->)]; [by eapply list_elem_of_lookup_2|done|].
    cbn in *. by apply Hrec. }
  assert (∀ x, x ∈ backs b → ACmdId x ≠ SCmdId s → x ∈ alter (supersede s) (Z.to_nat i) (backs b)) as Hkeep.
  { intros x [k Hk]%list_elem_of_lookup Hne. apply list_elem_of_lookup. exists k. rewrite list_lookup_alter_ne; [done|].
    intros <-. rewrite Ha in Hk. injection Hk as <-. by apply Hne. }
  assert (supersede s a ∈ alter (supersede s) (Z.to_nat i) (backs b)) as Hin.
  { apply list_elem_of_lookup. exists (Z.to_nat i). by rewrite list_lookup_alter_eq, Ha. }
  constructor; cbn -[supersede]; try done.
  - intros x [?| ->%list_elem_of_singleton]%elem_of_app; [by apply h_slow_ballot0|done].
  - intros id k Hk. destruct (h_places0 id k Hk) as (Hkp & x & Hx & E). split; [done|].
    destruct (decide (Z.to_nat i = Z.to_nat k)) as [Eq|].
    + rewrite <- Eq, Ha in Hx. injection Hx as <-. exists (supersede s a). rewrite <- Eq. by rewrite list_lookup_alter_eq, Ha.
    + exists x. by rewrite list_lookup_alter_ne.
  - intros id Hk. rewrite map_app, elem_of_app. destruct (h_known0 id Hk); [by left|right; by left].
  - intros x [Hx| ->%list_elem_of_singleton]%elem_of_app; [|by exists (supersede s a)].
    destruct (decide (SCmdId x = SCmdId s)) as [Eq|Hne].
    + exists (supersede s a). split; [done|]. destruct Hnew as (E1 & E2 & E3). split; [congruence|]. by rewrite Eq.
    + destruct (h_slow0 x Hx) as (y & Hy & Hyx). exists y. split; [|done]. apply Hkeep; [done|]. destruct Hyx as [-> _]. done.
  - intros f Hf Hno. apply Hkeep; [apply h_fast0; [done|]|].
    + intros x Hx. apply Hno, elem_of_app. by left.
    + cbn. intros E. apply (Hno s); [apply elem_of_app; right; by left|done].
  - intros x [k Hk]%list_elem_of_lookup. destruct (decide (Z.to_nat i = k)) as [<-|Hne].
    + rewrite list_lookup_alter_eq, Ha in Hk. injection Hk as <-. left. exists s. split; [apply elem_of_app; right; by left|done].
    + rewrite list_lookup_alter_ne in Hk by done. destruct (h_all0 x) as [(y & Hy & E)|?]; [by eapply list_elem_of_lookup_2| |by right].
      left. exists y. split; [apply elem_of_app; by left|done].
Qed.

(** A fast acknowledgement that comes after a slow one of its command. *)
Lemma holds_drop F S b f :
  holds F S b → FBallot f = B → (∃ s, s ∈ S ∧ SCmdId s = FCmdId f) → holds (F ++ [f]) S b.
Proof.
  intros [] Hf (s & Hs & Eid). constructor; try done.
  - intros x [?| ->%list_elem_of_singleton]%elem_of_app; [by apply h_fast_ballot0|done].
  - intros id Hk. rewrite map_app, elem_of_app. destruct (h_known0 id Hk); [left; by left|by right].
  - intros x [Hx| ->%list_elem_of_singleton]%elem_of_app Hno; [by apply h_fast0|]. by destruct (Hno s Hs).
  - intros a Ha. destruct (h_all0 a Ha) as [?|(x & Hx & E)]; [by left|right]. exists x. split; [apply elem_of_app; by left|done].
Qed.

Lemma holds_clients F S b g h : holds F S b → holds F S (b <| fastAckClientMsgs ::= g |> <| slowAckClientMsgs ::= h |>).
Proof. intros []. by constructor. Qed.

(** The four loop bodies. *)
Lemma tracks_clients F S b b' :
  tracks F S b → bballot b' = bballot b → backs b' = backs b → places b' = places b → tracks F S b'.
Proof.
  intros [Hb|[]] E1 E2 E3; [left; by rewrite E1|right]. constructor; rewrite ?E1, ?E2, ?E3; done.
Qed.

Lemma fast_then_fast_tracks F S b f t : FBallot f ≠ -1 → tracks F S b → tracks (F ++ [f]) S (fast_then_fast b (f, t)).
Proof.
  intros Hf Hb. cbn.
  eapply (tracks_clients _ _ (if bballot b =? FBallot f then append_ack (fast_entry f) b else b <| bballot := -1 |>)).
  2-4: by destruct t.
  destruct (bballot b =? FBallot f) eqn:E; [|by left]. destruct Hb as [Hb|Hb]; [lia|]. right.
  apply holds_append_fast; [done|]. pose proof (h_ballot _ _ _ Hb). lia.
Qed.

Lemma fast_then_slow_tracks F S b s t :
  SBallot s ≠ -1 → (∀ f, f ∈ F → FCmdId f = SCmdId s → FSeqnum f ≠ recoveryAckSeqnum) →
  tracks F S b → tracks F (S ++ [s]) (fast_then_slow b (s, t)).
Proof.
  intros Hs Hrec Hb. cbn.
  match goal with |- context [if t then _ else ?x] => eapply (tracks_clients _ _ x); [|by destruct t..] end.
  destruct (bballot b =? SBallot s) eqn:E; [|by left]. destruct Hb as [Hb|Hb]; [lia|]. right. pose proof (h_ballot _ _ _ Hb).
  destruct (places b !! SCmdId s) as [i|] eqn:Hi; [by apply holds_supersede; [|lia|..]|]. by apply holds_append_slow; [|lia].
Qed.

Lemma slow_then_slow_tracks F S b s t : SBallot s ≠ -1 → tracks F S b → tracks F (S ++ [s]) (slow_then_slow b (s, t)).
Proof.
  intros Hs Hb. cbn.
  match goal with |- context [if t then _ else ?x] => eapply (tracks_clients _ _ x); [|by destruct t..] end.
  destruct (bballot b =? SBallot s) eqn:E; [|by left]. destruct Hb as [Hb|Hb]; [lia|]. right. pose proof (h_ballot _ _ _ Hb).
  by apply holds_append_slow; [|lia].
Qed.

Lemma slow_then_fast_tracks F S b f t :
  FBallot f ≠ -1 → FCmdId f ∉ map FCmdId F → tracks F S b → tracks (F ++ [f]) S (slow_then_fast b (f, t)).
Proof.
  intros Hf Hnew Hb. cbn.
  match goal with |- context [slowAckClientMsgs ?x !! _] => eapply (tracks_clients _ _ x);
    [|destruct t; [by destruct (slowAckClientMsgs x !! FCmdId f)|done]..] end.
  destruct (bballot b =? FBallot f) eqn:E; [|by left]. destruct Hb as [Hb|Hb]; [lia|]. right. pose proof (h_ballot _ _ _ Hb).
  destruct (places b !! FCmdId f) as [i|] eqn:Hi; [|by apply holds_append_fast; [|lia]].
  apply holds_drop; [done|lia|]. destruct (h_known _ _ _ Hb (FCmdId f)) as [?|Hs]; [by eexists|done|].
  apply list_elem_of_fmap in Hs as (s & E' & Hs). by exists s.
Qed.

(** The loops. *)
Lemma foldl_tracks {A X} (step : batch → A * bool → batch) (grow : list X → A → list X) (ok : list X → A → Prop)
    (tr : list X → batch → Prop) l :
  (∀ K x t b, ok K x → tr K b → tr (grow K x) (step b (x, t))) →
  ∀ K b, (∀ l1 x l2, l.*1 = l1 ++ x :: l2 → ok (foldl grow K l1) x) → tr K b → tr (foldl grow K l.*1) (foldl step b l).
Proof.
  intros Hstep. induction l as [|[x t] l IH]; intros K b Hok Hb; [done|]. cbn.
  apply IH; [|apply Hstep; [by apply (Hok [] x l.*1)|done]].
  intros l1 y l2 E. apply (Hok (x :: l1) y l2). cbn. by rewrite E.
Qed.
Lemma foldl_snoc_app {A} (K l : list A) : foldl (λ K x, K ++ [x]) K l = K ++ l.
Proof. revert K. induction l as [|x l IH]; intros K; cbn; [by rewrite app_nil_r|]. rewrite IH. by rewrite <- app_assoc. Qed.
End Conveyed.

Section Complete.
Variable rID : Z.
Variable ord_fast ord_slow : list RequestID.

(** [x] is [f], up to the sentinel. *)
Definition is_read (f : MFastAck) (x : conveyed) : Prop := x = Fast f ∨ x = Fast (read_fast f).

(** The broadcast [m] conveys the queues [F] and [S]. *)
Record conveys_queues (F : list MFastAck) (S : list MLightSlowAck) (m : peer_message) : Prop := mkConveys {
  cv_fast : ∀ f, f ∈ F → (∃ s, s ∈ S ∧ SCmdId s = FCmdId f) ∨ ∃ x, x ∈ conveys m ∧ is_read f x;
  cv_slow : ∀ s, s ∈ S → Slow s ∈ conveys m;
  cv_only : ∀ x, x ∈ conveys m → (∃ f, f ∈ F ∧ is_read f x) ∨ ∃ s, s ∈ S ∧ x = Slow s }.

Lemma read_fast_entry B F S acks f :
  queues_ok rID F S → f ∈ F → FBallot f = B → is_read f (read_entry (mkOptAcks rID B acks) (fast_entry f)).
Proof.
  intros [] Hf Hb. destruct (own_fast0 f Hf) as [Hr _]. specialize (sentinel0 f Hf). unfold read_entry, is_read, read_fast. cbn.
  destruct (IsNilDepOfCmdID (FCmdId f) (ids (FDep f))) eqn:E; [right|left]; cbn.
  - specialize (sentinel0 eq_refl). destruct f; cbn in *; subst. by rewrite E.
  - destruct f; cbn in *; subst. by rewrite E.
Qed.
Lemma read_slow_entry B F S acks a s :
  queues_ok rID F S → s ∈ S → SBallot s = B → stands_for a s → read_entry (mkOptAcks rID B acks) a = Slow s.
Proof.
  intros [] Hs Hb (E1 & E2 & E3). destruct (own_slow0 s Hs) as [Hr _]. unfold read_entry. rewrite E1, E2. cbn.
  rewrite bool_decide_eq_true_2 by done. cbn. rewrite (proj2 (Z.eqb_neq _ _)) by done. cbn. f_equal. rewrite <- Hr, <- Hb. by destruct s.
Qed.

Lemma finish_round_conveys B b fast slow :
  queues_ok rID fast.*1 slow.*1 → B ≠ -1 → tracks B fast.*1 slow.*1 b →
  conveys_queues fast.*1 slow.*1 (to_all (finish_round rID ord_fast ord_slow B b fast slow)).
Proof.
  intros Hok HB [Hb|Hh]; cbn.
  - rewrite Hb. cbn. constructor; cbn.
    + intros f Hf. right. exists (Fast f). split; [|by left]. apply elem_of_app. left. apply list_elem_of_fmap. by exists f.
    + intros s Hs. apply elem_of_app. right. apply list_elem_of_fmap. by exists s.
    + intros x [Hx|Hx]%elem_of_app; apply list_elem_of_fmap in Hx as (y & -> & Hy); [left|right]; exists y; [by split; [|left]|done].
  - destruct Hh. rewrite h_ballot0. rewrite (proj2 (Z.eqb_neq _ _)) by done. cbn [negb]. constructor; cbn.
    + intros f Hf. destruct (decide (Exists (λ s, SCmdId s = FCmdId f) slow.*1)) as [Hs|Hs].
      * left. apply Exists_exists in Hs as (s & ? & ?). by exists s.
      * right. exists (read_entry (mkOptAcks rID B (backs b)) (fast_entry f)). split.
        -- apply list_elem_of_fmap. exists (fast_entry f). split; [done|]. apply h_fast0; [done|]. intros s Hin E. apply Hs, Exists_exists. by exists s.
        -- eapply read_fast_entry; [exact Hok|done|by apply h_fast_ballot0].
    + intros s Hs. destruct (h_slow0 s Hs) as (a & Ha & Has). apply list_elem_of_fmap. exists a. split; [|done].
      symmetry. eapply read_slow_entry; [exact Hok|done|by apply h_slow_ballot0|done].
    + intros x (a & -> & Ha)%list_elem_of_fmap. destruct (h_all0 a Ha) as [(s & Hs & Has)|(f & Hf & ->)].
      * right. exists s. split; [done|]. eapply read_slow_entry; [exact Hok|done|by apply h_slow_ballot0|done].
      * left. exists f. split; [done|]. eapply read_fast_entry; [exact Hok|done|by apply h_fast_ballot0].
Qed.

Lemma flush_fast_conveys f t fast slow :
  queues_ok rID (f :: fast.*1) slow.*1 →
  conveys_queues (f :: fast.*1) slow.*1 (to_all (flush_fast rID ord_fast ord_slow (f, t) fast slow)).
Proof.
  intros Hok. unfold flush_fast. cbn [fst snd].
  apply (finish_round_conveys (FBallot f) _ ((f, t) :: fast)); [done|by apply (own_fast _ _ _ Hok f); left|]. cbn [fmap list_fmap fst].
  set (b0 := mkBatch _ _ _ _ _). assert (tracks (FBallot f) [f] [] b0) as Hb0.
  { right. constructor; cbn; try done.
    - by intros x ->%list_elem_of_singleton.
    - intros s Hs. by apply not_elem_of_nil in Hs.
    - intros id i [<- <-]%lookup_singleton_Some. split; [done|]. by exists (fast_entry f).
    - intros id [i [<- _]%lookup_singleton_Some]. left. by left.
    - intros s Hs. by apply not_elem_of_nil in Hs.
    - intros x ->%list_elem_of_singleton _. by left.
    - intros a ->%list_elem_of_singleton. right. exists f. split; [by left|done]. }
  pose proof (foldl_tracks fast_then_fast (λ K x, K ++ [x]) (λ _ x, FBallot x ≠ -1) (λ K b, tracks (FBallot f) K [] b) fast) as H1.
  specialize (H1 (λ K x t b Hx, fast_then_fast_tracks _ K [] b x t Hx) [f] b0). rewrite foldl_snoc_app in H1.
  pose proof (foldl_tracks fast_then_slow (λ K x, K ++ [x])
    (λ _ s, SBallot s ≠ -1 ∧ ∀ x, x ∈ f :: fast.*1 → FCmdId x = SCmdId s → FSeqnum x ≠ recoveryAckSeqnum)
    (λ K b, tracks (FBallot f) (f :: fast.*1) K b) slow) as H2.
  specialize (H2 (λ K x t b Hx, fast_then_slow_tracks _ (f :: fast.*1) K b x t (proj1 Hx) (proj2 Hx)) [] (foldl fast_then_fast b0 fast)).
  rewrite foldl_snoc_app in H2. apply H2.
  - intros l1 s l2 E. assert (s ∈ slow.*1) as Hs by (rewrite E; apply elem_of_app; right; by left).
    split; [by apply (own_slow _ _ _ Hok)|]. intros x Hx Hid. by apply (recovery_fast _ _ _ Hok x s).
  - apply H1; [|done]. intros l1 x l2 E. apply (own_fast _ _ _ Hok). right. rewrite E. apply elem_of_app. right. by left.
Qed.

Lemma flush_slow_conveys s t fast slow :
  queues_ok rID fast.*1 (s :: slow.*1) →
  conveys_queues fast.*1 (s :: slow.*1) (to_all (flush_slow rID ord_fast ord_slow (s, t) fast slow)).
Proof.
  intros Hok. unfold flush_slow. cbn [fst snd].
  apply (finish_round_conveys (SBallot s) _ fast ((s, t) :: slow)); [done|by apply (own_slow _ _ _ Hok s); left|]. cbn [fmap list_fmap fst].
  set (b0 := mkBatch _ _ _ _ _). assert (tracks (SBallot s) [] [s] b0) as Hb0.
  { right. constructor; cbn; try done.
    - intros x Hx. by apply not_elem_of_nil in Hx.
    - by intros x ->%list_elem_of_singleton.
    - intros id i [<- <-]%lookup_singleton_Some. split; [done|]. by exists (slow_entry s).
    - intros id [i [<- _]%lookup_singleton_Some]. right. by left.
    - intros x ->%list_elem_of_singleton. exists (slow_entry s). split; [by left|by repeat split].
    - intros x Hx. by apply not_elem_of_nil in Hx.
    - intros a ->%list_elem_of_singleton. left. exists s. split; [by left|by repeat split]. }
  pose proof (foldl_tracks slow_then_slow (λ K x, K ++ [x]) (λ _ x, SBallot x ≠ -1) (λ K b, tracks (SBallot s) [] K b) slow) as H1.
  specialize (H1 (λ K x t b Hx, slow_then_slow_tracks _ [] K b x t Hx) [s] b0). rewrite foldl_snoc_app in H1.
  pose proof (foldl_tracks slow_then_fast (λ K x, K ++ [x]) (λ K x, FBallot x ≠ -1 ∧ FCmdId x ∉ map FCmdId K)
    (λ K b, tracks (SBallot s) K (s :: slow.*1) b) fast) as H2.
  specialize (H2 (λ K x t b Hx, slow_then_fast_tracks _ K (s :: slow.*1) b x t (proj1 Hx) (proj2 Hx)) [] (foldl slow_then_slow b0 slow)).
  rewrite foldl_snoc_app in H2. apply H2.
  - intros l1 x l2 E. rewrite foldl_snoc_app. assert (x ∈ fast.*1) as Hx by (rewrite E; apply elem_of_app; right; by left).
    split; [by apply (own_fast _ _ _ Hok)|]. pose proof (one_fast _ _ _ Hok) as Hnd. rewrite E, map_app in Hnd.
    apply NoDup_app in Hnd as (_ & Hd & _). intros Hin. apply (Hd _ Hin). by left.
  - apply H1; [|done]. intros l1 x l2 E. apply (own_slow _ _ _ Hok). right. rewrite E. apply elem_of_app. right. by left.
Qed.

(** C34.  A flush of a nonempty batcher makes one broadcast, whichever queue
    [select] takes first, and empties both queues.  The broadcast conveys every
    queued acknowledgement and nothing else, except that a slow one replaces a
    fast one of its command when all are of one ballot. *)
Theorem flush_complete choice b :
  queues_ok rID (fastAcks b).*1 (lightSlowAcks b).*1 → (fastAcks b ≠ [] ∨ lightSlowAcks b ≠ []) →
  ∃ fl, flush rID ord_fast ord_slow choice b = ([fl], mkBatcher (size b) [] []) ∧
    conveys_queues (fastAcks b).*1 (lightSlowAcks b).*1 (to_all fl).
Proof.
  intros Hok Hne. unfold flush. destruct (fastAcks b) as [|[f t] fast] eqn:Ef, (lightSlowAcks b) as [|[s u] slow] eqn:Es.
  - by destruct Hne.
  - eexists. split; [done|]. by apply (flush_slow_conveys s u []).
  - eexists. split; [done|]. by apply (flush_fast_conveys f t fast []).
  - eexists. split; [done|]. destruct choice; [by apply (flush_fast_conveys f t fast ((s, u) :: slow))|].
    by apply (flush_slow_conveys s u ((f, t) :: fast)).
Qed.
End Complete.

(** A round of four acknowledgements: the slow one of command 1 supersedes its
    fast one, and those of commands 2 and 3 are conveyed as they are. *)
Definition demo_id (k : Z) : RequestID := mkRequestID 9 k.
Definition demo_fast (k seq : Z) (dep : list RequestID) : MFastAck := mkFastAck 1 0 (demo_id k) (Some dep) [[7]] seq.
Definition demo_batcher : messageBatcher :=
  mkBatcher 16 [(demo_fast 1 0 [demo_id 0], true); (demo_fast 2 0 [demo_id 1], true)]
    [(mkLightSlowAck 1 0 (demo_id 1), true); (mkLightSlowAck 1 0 (demo_id 3), false)].

Lemma flush_complete_witness :
  ∃ fl, flush 1 [] [] true demo_batcher = ([fl], mkBatcher 16 [] []) ∧
    conveys (to_all fl) = [Slow (mkLightSlowAck 1 0 (demo_id 1)); Fast (demo_fast 2 0 [demo_id 1]); Slow (mkLightSlowAck 1 0 (demo_id 3))] ∧
    conveys_queues (fastAcks demo_batcher).*1 (lightSlowAcks demo_batcher).*1 (to_all fl).
Proof.
  assert (queues_ok 1 (fastAcks demo_batcher).*1 (lightSlowAcks demo_batcher).*1) as Hok.
  { constructor; cbn.
    - intros f. rewrite !elem_of_cons, elem_of_nil. intros [->|[->|[]]]; done.
    - intros f. rewrite !elem_of_cons, elem_of_nil. intros [->|[->|[]]]; done.
    - apply (bool_decide_unpack _). vm_compute. done.
    - intros f. rewrite !elem_of_cons, elem_of_nil. intros [->|[->|[]]]; vm_compute; discriminate.
    - intros f x. rewrite !elem_of_cons, elem_of_nil. intros [->|[->|[]]] _ _; vm_compute; discriminate. }
  destruct (flush_complete 1 [] [] true demo_batcher Hok) as (fl & E & Hc); [left; discriminate|].
  exists fl. split; [exact E|]. split; [|exact Hc]. vm_compute in E. injection E as <-. vm_compute. reflexivity.
Defined.

(** ** Sequences of operations *)
Section Sequence.
Variable rID : Z.
Variable ord_fast ord_slow : list RequestID.

Fixpoint enqueue_all (ops : list (bool * batchOperation)) (b : messageBatcher) : list flushed * messageBatcher :=
  match ops with
  | [] => ([], b)
  | (choice, op) :: ops =>
      let '(sent, b) := enqueue rID ord_fast ord_slow choice op b in
      let '(sent', b) := enqueue_all ops b in
      (sent ++ sent', b)
  end.

Definition fast_ops (ops : list (bool * batchOperation)) : list (MFastAck * bool) :=
  omap (λ o, match o.2 with BFast f t => Some (f, t) | _ => None end) ops.
Definition slow_ops (ops : list (bool * batchOperation)) : list (MLightSlowAck * bool) :=
  omap (λ o, match o.2 with BSlow f t => Some (f, t) | _ => None end) ops.

(** The queues that were flushed, in order, with the choices made. *)
Definition rounds := list (bool * messageBatcher).
Definition sent_by (rs : rounds) : list flushed := rs ≫= λ r, (flush rID ord_fast ord_slow r.1 r.2).1.
Definition within (k : nat) (b : messageBatcher) : Prop := (length (fastAcks b) ≤ k ∧ length (lightSlowAcks b) ≤ k)%nat.

Lemma flush_empties choice b : (flush rID ord_fast ord_slow choice b).2 = mkBatcher (size b) [] [].
Proof. destruct b as [k F S]. unfold flush. cbn. by destruct F, S. Qed.

(** Every acknowledgement handed over is flushed once, in order, or still
    queued, and the queues stay within their capacity. *)
Theorem batches_complete ops b :
  (0 < size b)%nat → within (size b) b →
  let '(sent, b') := enqueue_all ops b in
  ∃ rs : rounds, sent = sent_by rs ∧ Forall (λ r, within (size b) r.2) rs ∧ within (size b) b' ∧
    (rs ≫= λ r, fastAcks r.2) ++ fastAcks b' = fastAcks b ++ fast_ops ops ∧
    (rs ≫= λ r, lightSlowAcks r.2) ++ lightSlowAcks b' = lightSlowAcks b ++ slow_ops ops.
Proof.
  revert b. induction ops as [|[choice op] ops IH]; intros b Hs Hw; cbn [enqueue_all].
  { exists []. cbn. rewrite !app_nil_r. by split_and!. }
  unfold enqueue. match goal with |- context [if ?t then flush _ _ _ _ _ else _] => set (full := t) end.
  set (b1 := (if full then mkBatcher (size b) [] [] else b)).
  set (r1 := (if full then [(choice, b)] else []) : rounds).
  assert ((if full then flush rID ord_fast ord_slow choice b else ([], b)) = (sent_by r1, b1)) as ->.
  { subst b1 r1. destruct full; [|done]. unfold sent_by. cbn. rewrite app_nil_r, <- (flush_empties choice b). by destruct (flush _ _ _ _ _). }
  assert (size b1 = size b) as Es by (subst b1; by destruct full).
  set (b2 := match op with BFast f t => b1 <| fastAcks ::= _ |> | BSlow s t => b1 <| lightSlowAcks ::= _ |> end).
  assert (size b2 = size b) as Es2 by (subst b2; by destruct op).
  assert (within (size b) b2) as Hw2.
  { destruct Hw. subst b2 b1 full. unfold within. destruct op; cbn; destruct (_ =? _)%nat eqn:E; cbn; rewrite ?length_app; cbn;
      apply Nat.eqb_eq in E || apply Nat.eqb_neq in E; lia. }
  specialize (IH b2). rewrite Es2 in IH. specialize (IH Hs Hw2).
  destruct (enqueue_all ops b2) as [sent b']. destruct IH as (rs & -> & Hrs & Hw' & EF & ES).
  exists (r1 ++ rs). split_and!; [unfold sent_by; by rewrite bind_app| |done| |].
  - apply Forall_app. split; [|done]. subst r1. destruct full; [|by constructor]. constructor; [done|by constructor].
  - rewrite bind_app, <- app_assoc, EF. subst b2 r1 b1. destruct op, full; cbn; by rewrite ?app_nil_r, <- ?app_assoc.
  - rewrite bind_app, <- app_assoc, ES. subst b2 r1 b1. destruct op, full; cbn; by rewrite ?app_nil_r, <- ?app_assoc.
Qed.
End Sequence.
End SwiftBatch.
