(* ===== verification/SwiftReplica.v ===== *)
(** * SwiftReplica: the adapter of a Swift replica ([swift/replica.go])

    [Replica] is a core with its batcher; a step of the event loop runs the core
    and sends what it emitted: acknowledgements go through the batcher, which is
    flushed after the local work is drained. *)
From stdpp Require Import gmap strings list fin_maps.
From Stdlib Require Import Lia.
From S2P Require Import Prelude State Defs SwiftSets Swift SwiftCore SwiftRecovery SwiftBatch.

Module SwiftReplica.
Import SwiftSets Swift SwiftRecovery SwiftBatch.

(** What leaves the replica, in order; [ToAll] is to every other replica. *)
Inductive packet :=
  | ToPeer (to : Z) (m : peer_message)
  | ToAll (m : peer_message)
  | ToClient (client : Z) (m : client_message)
  | Answer (d : leaderDecision).

Section Replica.
Context `{SM : StateMachine}.
Variable Sum256 : bytes → bytes.
Variable maxAlloc : Z.

Record Replica := mkReplica { rcore : core; batcher : messageBatcher; localReady : bool }.

Definition batchSize : Z := 16.
Definition New (n id : Z) (execute reply : bool) (level : Z) (fastRead optExec : bool) (slowAddrs : list string)
    (ord : list Z) (initial initialLeader : Z) : outcome Replica :=
  c ← newCore n id execute reply level fastRead optExec slowAddrs ord initial initialLeader;
  b ← newMessageBatcher batchSize;
  Done (mkReplica c b false).

Section Step.
Variable e : env.
Variable fuel : nat.
(** The orders of the client maps of a flush, and the choice of [select]. *)
Variable ord_fast ord_slow : list RequestID.
Variable choice : bool.

Definition packets_of (f : flushed) : list packet := map (λ cm, ToClient cm.1 cm.2) (to_clients f) ++ [ToAll (to_all f)].

Definition emit (s : list packet * messageBatcher) (id : Z) (o : output) : list packet * messageBatcher :=
  let '(sent, b) := s in
  match o with
  | OSend to m => (sent ++ [ToPeer to m], b)
  | OBroadcast m => (sent ++ [ToAll m], b)
  | OClient client m => (sent ++ [ToClient client m], b)
  | ODecide d => (sent ++ [Answer d], b)
  | OExecute _ _ _ _ => (sent, b)
  | OBatch op =>
      let '(fl, b) := enqueue id ord_fast ord_slow choice op b in
      (sent ++ (fl ≫= packets_of), b)
  end.

(** Whether the step ends in [drain]: an event that is refused and a proposal
    during recovery do not. *)
Definition drains (s : step) (c : core) : bool :=
  match s with
  | Propose _ => negb (status c =? RECOVERING)
  | Step IOther => false
  | _ => true
  end.

Definition replica_step (s : step) (r : Replica) : outcome (list packet * Replica) :=
  let c := rcore r in
  c' ← run_step Sum256 maxAlloc e fuel s c;
  let '(sent, b) := foldl (λ st o, emit st (cid c) o) ([], batcher r) (drop (length (out c)) (out c')) in
  if drains s c then
    let '(fl, b) := flush (cid c) ord_fast ord_slow choice b in
    Done (sent ++ (fl ≫= packets_of), mkReplica c' b (localReady r || ((status c' =? NORMAL) && hasLocalWork c')))
  else Done (sent, mkReplica c' b (localReady r)).
End Step.
End Replica.
End SwiftReplica.
