(* ===== verification/SwiftScenarios.v ===== *)
(** * SwiftScenarios: runs of a Swift cluster

    A cluster of the modelled replicas.  A link loses nothing, carries only what
    the replica at its other end sent, and delivers the messages of one kind in
    order: a replica has a channel per kind. *)
From stdpp Require Import gmap strings list fin_maps fin_sets.
From Stdlib Require Import Lia.
From S2P Require Import Prelude State Defs SwiftSets Swift SwiftCore SwiftRecovery SwiftInv SwiftBatch SwiftReplica.

Module SwiftScenarios.
Import SwiftSets Swift SwiftCore SwiftRecovery SwiftInv SwiftReplica.

#[local] Existing Instance demo_machine.

(** ** Clusters *)
Section Cluster.
Variable n : Z.
Variable Sum256 : bytes → bytes.

Record cluster := mkCluster { nodes : gmap Z Replica; links : gmap (Z * Z) (list peer_message) }.

(** The proposals of clients, the next message of a link, the recovery an
    operator starts. *)
Inductive kind := Acknowledgements | NewLeader | NewLeaderAck | Sync.
Definition kind_of (m : peer_message) : kind :=
  match m with
  | PAcks _ | POptAcks _ => Acknowledgements
  | PNewLeader _ => NewLeader
  | PNewLeaderAckN _ => NewLeaderAck
  | PSync _ => Sync
  end.
#[local] Instance kind_eq_dec : EqDecision kind.
Proof. solve_decision. Defined.
Inductive action := Clients (ps : list proposal) | Recv (from : Z) (k : kind) | Recover (newBallot : Z).

Definition no_env : env := mkEnv [] [] [] [] [] [] [] [] [] (λ _ _, None) (λ _ _, true).
Definition maxAlloc : Z := 2 ^ 48.

(** The message after its round trip through the wire. *)
Definition arrival (m : peer_message) : input :=
  match m with
  | PNewLeader m => INewLeader m
  | PNewLeaderAckN m => INewLeaderAckN (normal_newLeaderAckN m)
  | PSync m => ISync (normal_sync m)
  | PAcks m => IAcks (normal_acks m)
  | POptAcks m => IOptAcks (normal_opt m)
  end.

Definition push (from : Z) (m : peer_message) (l : gmap (Z * Z) (list peer_message)) (to : Z) : gmap (Z * Z) (list peer_message) :=
  <[(from, to) := default [] (l !! (from, to)) ++ [m]]> l.
Definition send (from : Z) (l : gmap (Z * Z) (list peer_message)) (p : packet) : gmap (Z * Z) (list peer_message) :=
  match p with
  | ToPeer to m => push from m l to
  | ToAll m => foldl (push from m) l (filter (λ to, to ≠ from) (seqZ 0 n))
  | ToClient _ _ | Answer _ => l
  end.

Definition act (at_replica : Z * action) (w : cluster) : outcome cluster :=
  let '(id, a) := at_replica in
  match nodes w !! id with
  | None => Panicked "no such replica"
  | Some r =>
      '(s, l) ← (match a with
                 | Clients ps => Done (Propose ps, links w)
                 | Recover b => Done (Step (IRecovery b), links w)
                 | Recv from k =>
                     let queue := default [] (links w !! (from, id)) in
                     match list_find (λ m, kind_of m = k) queue with
                     | Some (i, m) => Done (Step (arrival m), <[(from, id) := delete i queue]> (links w))
                     | None => Panicked "nothing to receive"
                     end
                 end);
      if negb (enabled s (rcore r)) then Panicked "gated" else
      '(sent, r) ← replica_step Sum256 maxAlloc no_env 10 [] [] true s r;
      Done (mkCluster (<[id := r]> (nodes w)) (foldl (send id) l sent))
  end.

Definition start (execute reply optExec : bool) (initial leader : Z) : outcome cluster :=
  forEach (λ id w, r ← New n id execute reply 0 false optExec [] [] initial leader;
                   Done (mkCluster (<[id := r]> (nodes w)) (links w))) (seqZ 0 n) (mkCluster ∅ ∅).
Definition cluster_run (l : list (Z * action)) (w : cluster) : outcome cluster := forEach act l w.
End Cluster.

(** ** Readings *)
Definition executions (id : Z) (w : cluster) : list RequestID :=
  match nodes w !! id with Some r => executed (out (rcore r)) | None => [] end.
Definition value_at (id key : Z) (w : cluster) : option Value :=
  match nodes w !! id with Some r => @tm_get gmap_TreeMap key (sm (rcore r)) | None => None end.

(** Two clients write key 1. *)
Definition X : RequestID := mkRequestID 8 0.
Definition Y : RequestID := mkRequestID 9 0.
Definition put (id : RequestID) (v : Z) : proposal :=
  mkProposal (mkPropose (Sequence id) (Client id) (mkCommand PUT 1 [v]) 0) false "".
Definition pX := put X 10.
Definition pY := put Y 20.

Definition acks_from (r : Z) : action := Recv r Acknowledgements.

(** A cluster of three that executes and replies, [optExec] as given. *)
Definition three (opt : bool) : outcome cluster := start 3 true true opt 3 0.
Definition digest (b : bytes) : bytes := take 32 b.
Definition run_three (opt : bool) (l : list (Z * action)) : outcome cluster := w ← three opt; cluster_run 3 digest l w.

(** What a run of [three] ends with. *)
Definition ends_with (opt : bool) (l : list (Z * action)) (P : cluster → bool) : bool :=
  match run_three opt l with Done w => P w | Panicked _ | OutOfFuel => false end.
Lemma ends_with_spec opt l P : ends_with opt l P = true → ∃ w, run_three opt l = Done w ∧ P w = true.
Proof. unfold ends_with. destruct (run_three opt l) as [w| |]; intros; [by exists w|done|done]. Qed.

(** ** A slow acknowledgement of the leader is counted too early *)

(** Replica 2 receives Y first, then the acknowledgements of replica 1, which
    has both commands; when the leader's acknowledgement of Y arrives, the slow
    path of Y is complete, and it commits before the leader's dependencies, of
    which X is one, are installed. *)
Definition early_slow_ack : list (Z * action) :=
  [(0, Clients [pX]); (0, Clients [pY]);                 (* the leader orders X before Y *)
   (1, Clients [pX]); (1, Clients [pY]);
   (1, acks_from 0); (1, acks_from 0);                   (* replica 1 acknowledges both *)
   (2, Clients [pY]);
   (2, acks_from 1); (2, acks_from 1); (2, acks_from 1); (2, acks_from 1);
   (2, acks_from 0); (2, acks_from 0);                   (* replica 2 executes Y *)
   (2, Clients [pX]);                                    (* and then X *)
   (0, acks_from 1); (0, acks_from 1); (0, acks_from 1); (0, acks_from 1)].

(** C30.  [processLeaderFastAck] counts the leader's acknowledgement, and so may
    commit the command, before it installs the leader's dependencies: without
    optimistic execution, no recovery and no lost message, a replica executes two
    writes of one key in the other order than the leader, and the replicas end
    with different values. *)
Theorem early_slow_ack_diverges : ∃ w, run_three false early_slow_ack = Done w ∧
  executions 0 w = [X; Y] ∧ executions 2 w = [Y; X] ∧ value_at 0 1 w = Some [20] ∧ value_at 2 1 w = Some [10].
Proof.
  destruct (ends_with_spec false early_slow_ack (λ w, bool_decide (executions 0 w = [X; Y] ∧ executions 2 w = [Y; X] ∧
    value_at 0 1 w = Some [20] ∧ value_at 2 1 w = Some [10]))) as (w & Hr & Hw); [by vm_compute|].
  exists w. split; [exact Hr|exact (bool_decide_eq_true_1 _ Hw)].
Qed.

(** ** A recovery forgets what has been executed *)

(** Replica 1 executes X and then Y, as the leader 0 orders them.  Replica 2 has
    received Y first, and starts a recovery with replica 1, which has retired
    both commands and reports none of them; replica 0 follows the new leader. *)
Definition forgotten : list (Z * action) :=
  [(2, Clients [pY]); (2, Clients [pX]);
   (0, Clients [pX]); (0, Clients [pY]);
   (1, Clients [pX]); (1, Clients [pY]);
   (1, acks_from 0); (1, acks_from 0);                   (* replica 1 executes X and Y *)
   (2, Recover (-1)); (1, Recv 2 NewLeader); (2, Recv 1 NewLeaderAck);
   (0, Recv 2 NewLeader); (0, Recv 2 Sync);
   (0, acks_from 2); (2, acks_from 0); (2, acks_from 0)].

(** C31.  [fillNewLeaderAckN] reports only the commands that still have a
    descriptor: a command that the reporting replicas have executed and retired
    is ordered again by the next leader, and a replica that had not executed it
    executes it elsewhere in its order. *)
Theorem recovery_forgets : ∃ w, run_three false forgotten = Done w ∧
  executions 1 w = [X; Y] ∧ executions 0 w = [Y; X] ∧ value_at 1 1 w = Some [20] ∧ value_at 0 1 w = Some [10].
Proof.
  destruct (ends_with_spec false forgotten (λ w, bool_decide (executions 1 w = [X; Y] ∧ executions 0 w = [Y; X] ∧
    value_at 1 1 w = Some [20] ∧ value_at 0 1 w = Some [10]))) as (w & Hr & Hw); [by vm_compute|].
  exists w. split; [exact Hr|exact (bool_decide_eq_true_1 _ Hw)].
Qed.
End SwiftScenarios.
