(* ===== verification/SwiftElect.v ===== *)
(** * SwiftElect: elections of Swift ([swift/recovery.go])

    [beginRecovery] finds a ballot whose quorum is alive if there is one
    ([alive_ballot_found]); the new leader's selection keeps what a reporting
    replica has accepted in the newest ballot ([recovery_keeps_accepted]); the
    [Sync] it sends is read back as the maps it was built from
    ([sync_roundtrip]). *)
From stdpp Require Import gmap strings list fin_maps fin_sets.
From Stdlib Require Import Lia.
From S2P Require Import Prelude State ReplicaSet Defs SwiftQuorum SwiftSets Swift SwiftCore SwiftRecovery SwiftInv SwiftReach.

Module SwiftElect.
Import SwiftQuorum SwiftSets Swift SwiftCore SwiftRecovery SwiftReach.

(** ** A ballot whose quorum is alive *)
Lemma visit_all_stop (f : Z → bool) l :
  ReplicaSet.visit_all (λ rid ok, if f rid then (false, false) else (true, ok)) l true = forallb (λ i, negb (f i)) l.
Proof. induction l as [|i l IH]; [done|]. cbn. destruct (f i); [done|]. by rewrite IH. Qed.

Lemma AQ_nth quorumSize n b :
  1 ≤ quorumSize ≤ n → n ≤ 64 → 0 ≤ b →
  let l := filter (SwiftQuorum.contains (SwiftQuorum.Leader b n)) (SwiftQuorum.quorums quorumSize n) in
  (0 < length l)%nat ∧ ∃ q, l !! Z.to_nat ((b / n) `mod` Z.of_nat (length l)) = Some q ∧
    SwiftQuorum.AQ (SwiftQuorum.NewQuorumSet quorumSize n) b = Done q.
Proof.
  intros Hqs Hn Hb l. assert (0 ≤ SwiftQuorum.Leader b n < n) as Hl by (apply Z.rem_bound_pos; lia).
  destruct (SwiftQuorum.NewQuorumSet_leader quorumSize n (SwiftQuorum.Leader b n) ltac:(lia) Hl) as (fam & Hfam & Hsz & Hlk).
  destruct (SwiftQuorum.NewQuorumSet_families quorumSize n ltac:(lia)) as [Hsize _].
  destruct (SwiftQuorum.quorum_exists quorumSize n (SwiftQuorum.Leader b n) Hqs Hn Hl) as [q0 Hq0].
  apply SwiftQuorum.elem_of_family in Hq0; [|lia..]. fold l in Hq0, Hsz, Hlk.
  assert (0 < length l)%nat as Hpos by (destruct l; [by apply elem_of_nil in Hq0|simpl; lia]). split; [done|].
  assert (0 ≤ b / n) by (apply Z.div_pos; lia).
  pose proof (Z.mod_pos_bound (b / n) (Z.of_nat (length l)) ltac:(lia)).
  destruct (lookup_lt_is_Some_2 l (Z.to_nat ((b / n) `mod` Z.of_nat (length l))) ltac:(lia)) as [q Hq]. exists q. split; [done|].
  unfold SwiftQuorum.AQ. cbv zeta. rewrite Hsize, Hfam, Hsz. rewrite (proj2 (Z.eqb_neq n 0)) by lia.
  rewrite (proj2 (Z.eqb_neq _ _)) by lia. rewrite Z.quot_div_nonneg by lia. rewrite Z.rem_mod_nonneg by lia.
  rewrite Hlk, index_nonneg by lia. by rewrite Hq.
Qed.

Lemma NextBallotOf_spec id b n :
  0 ≤ id < n → 0 ≤ b → (b / n + 1) * n + n < 2 ^ 31 →
  let b' := SwiftQuorum.NextBallotOf id b n in b' = (b / n + 1) * n + id ∧ SwiftQuorum.Leader b' n = id ∧ b' / n = b / n + 1 ∧ b < b'.
Proof.
  intros Hid Hb Hfit. cbv zeta. unfold SwiftQuorum.NextBallotOf, SwiftQuorum.Leader. rewrite Z.quot_div_nonneg by lia.
  assert (0 ≤ b / n) by (apply Z.div_pos; lia). assert (0 ≤ (b / n + 1) * n) by nia. pose proof (Z.mul_succ_div_gt b n ltac:(lia)).
  assert (b / n + 1 ≤ (b / n + 1) * n) by nia. set (k := b / n) in *. set (m := (k + 1) * n) in *.
  rewrite (wrapS_id 32 (k + 1)) by lia. fold m. rewrite (wrapS_id 32 m) by lia. rewrite (wrapS_id 32 (m + id)) by lia. split; [done|].
  subst m.
  rewrite Z.rem_mod_nonneg by nia. split; [|split; [|nia]].
  - rewrite Z.add_comm, Z.mod_add by lia. by apply Z.mod_small.
  - rewrite Z.add_comm, Z.div_add by lia. rewrite Z.div_small by lia. lia.
Qed.

Section Alive.
Context `{SM : StateMachine}.
Variable e : env.
Variable c : core.
Variable quorumSize : Z.
Variable alive : Z → bool.

Local Abbreviation n := (cn c).
Local Abbreviation family := (filter (SwiftQuorum.contains (cid c)) (SwiftQuorum.quorums quorumSize n)).

(** A quorum system of a cluster, in which the replica leads the quorums of
    [family], and an answer to [peerAlive] that does not change. *)
Record electing : Prop := mkElecting {
  el_size : 1 ≤ quorumSize ≤ n; el_n : n ≤ 64; el_id : 0 ≤ cid c < n;
  el_qs : SwiftQuorum.qs (qs c) = SwiftQuorum.NewQuorumSet quorumSize n;
  el_alive : ∀ r p, peerAlive e r p = alive p }.

Definition all_alive (q : Z) : Prop := ∀ p, p ∈ ReplicaSet.members q → p = cid c ∨ alive p = true.

Lemma quorum_alive_spec r q : electing → ReplicaSet.valid q → quorum_alive e r q c = true ↔ all_alive q.
Proof.
  intros Hel Hq. unfold quorum_alive, ReplicaSet.Range. rewrite ReplicaSet.Range_loop_spec by (done || apply ReplicaSet.members_length).
  rewrite (visit_all_stop (λ rid, negb (rid =? cid c) && negb (peerAlive e r rid))), forallb_forall. unfold all_alive.
  split; intros H p Hp; specialize (H p); rewrite <- list_elem_of_In in *; rewrite (el_alive Hel) in *.
  - specialize (H Hp). destruct (p =? cid c) eqn:E; [left; lia|right]. by destruct (alive p).
  - destruct (H Hp) as [->| ->]; [by rewrite Z.eqb_refl|by rewrite andb_false_r].
Qed.

(** The ballot a search may return. *)
Definition found (b b' : Z) : Prop :=
  b ≤ b' ∧ ∃ q, SwiftQuorum.AQ (SwiftQuorum.qs (qs c)) b' = Done q ∧ SwiftQuorum.quorum_of quorumSize n (SwiftQuorum.Leader b' n) q ∧ all_alive q.

Lemma alive_ballot_step fuel r b :
  electing → 0 ≤ b → (b / n + 1) * n + n < 2 ^ 31 →
  (¬ (∃ q, SwiftQuorum.AQ (SwiftQuorum.qs (qs c)) b = Done q ∧ all_alive q) →
     returns (alive_ballot e fuel (S r) (SwiftQuorum.NextBallotOf (cid c) b n) c) (found b)) →
  returns (alive_ballot e (S fuel) r b c) (found b).
Proof.
  intros Hel Hb Hfit Hnext. cbn [alive_ballot]. destruct (AQ_nth quorumSize n b) as (_ & q & Hl & Hq); [by destruct Hel..|done|].
  rewrite (el_qs Hel) in *. rewrite Hq. cbn [mbind outcome_bind].
  assert (SwiftQuorum.quorum_of quorumSize n (SwiftQuorum.Leader b n) q) as Hquo.
  { apply list_elem_of_lookup_2 in Hl. apply SwiftQuorum.elem_of_family in Hl; [done|destruct Hel; lia..]. }
  pose proof (quorum_alive_spec r q Hel (proj1 Hquo)) as Hs. destruct (quorum_alive e r q c).
  - cbn. split; [lia|]. exists q. rewrite (el_qs Hel). split_and!; [done..|by apply Hs].
  - apply Hnext. intros (q' & Hq' & Ha). rewrite Hq in Hq'. injection Hq' as <-. by apply Hs in Ha.
Qed.

Lemma found_mono b b1 b' : b ≤ b1 → found b1 b' → found b b'.
Proof. intros Hle [H1 H2]. split; [lia|done]. Qed.

Lemma alive_ballot_turn q0 k0 : electing → family !! Z.to_nat k0 = Some q0 → 0 ≤ k0 < Z.of_nat (length family) → all_alive q0 →
  ∀ (i : nat) fuel r b, (i < fuel)%nat → 0 ≤ b → SwiftQuorum.Leader b n = cid c → (b / n + Z.of_nat i + 1) * n + n < 2 ^ 31 →
    (b / n + Z.of_nat i) `mod` Z.of_nat (length family) = k0 → returns (alive_ballot e fuel r b c) (found b).
Proof.
  intros Hel Hk0 Hlt Ha0 i. pose proof (el_id Hel) as Hid. induction i as [|i IH]; intros fuel r b Hf Hb Hl Hfit Hk;
    (destruct fuel as [|fuel]; [lia|]); (assert (0 ≤ b / n) by (apply Z.div_pos; lia)); apply alive_ballot_step; try done; try nia; intros Hno.
  - destruct Hno. exists q0. split; [|done]. destruct (AQ_nth quorumSize n b) as (_ & q & Hq & HA); [by destruct Hel..|done|].
    rewrite Hl in Hq. rewrite Z.add_0_r in Hk. rewrite Hk, Hk0 in Hq. injection Hq as ->. by rewrite (el_qs Hel).
  - destruct (NextBallotOf_spec (cid c) b n) as (_ & Hl' & Hd & Hlt'); [done|done|nia|].
    eapply returns_mono; [apply IH|intros b'; apply found_mono; lia]; [lia|lia|done| |]; rewrite Hd.
    + replace (b / n + 1 + Z.of_nat i + 1) with (b / n + Z.of_nat (S i) + 1) by lia. done.
    + rewrite <- Hk. f_equal. lia.
Qed.

(** C33.  If some quorum that the replica can lead is alive, the search for a
    ballot ends, after at most a round more than the replica leads quorums, with
    a ballot that is not lower and whose quorum is alive. *)
Theorem alive_ballot_found q0 fuel b :
  electing → SwiftQuorum.quorum_of quorumSize n (cid c) q0 → all_alive q0 →
  0 ≤ b → (b / n + Z.of_nat (length family) + 1) * n + n < 2 ^ 31 → (length family < fuel)%nat →
  returns (alive_ballot e fuel 0 b c) (found b).
Proof.
  intros Hel Hq0 Ha0 Hb Hfit Hf. pose proof (el_id Hel) as Hid. assert (0 ≤ b / n) by (apply Z.div_pos; lia).
  apply (SwiftQuorum.elem_of_family quorumSize n (cid c) q0) in Hq0; [|destruct Hel; lia..].
  apply list_elem_of_lookup in Hq0 as [k Hk]. pose proof (lookup_lt_Some _ _ _ Hk) as Hlt.
  destruct fuel as [|fuel]; [lia|]. apply alive_ballot_step; [done|done|nia|]. intros _.
  destruct (NextBallotOf_spec (cid c) b n) as (_ & Hl' & Hd & Hlt'); [done|done|nia|].
  set (len := Z.of_nat (length family)) in *.
  eapply returns_mono; [|intros b'; apply (found_mono b (SwiftQuorum.NextBallotOf (cid c) b n)); lia].
  apply (alive_ballot_turn q0 (Z.of_nat k) Hel) with (i := Z.to_nat ((Z.of_nat k - (b / n + 1)) `mod` len));
    pose proof (Z.mod_pos_bound (Z.of_nat k - (b / n + 1)) len ltac:(lia)); [by rewrite Nat2Z.id|lia|done|lia|lia|done| |].
  - rewrite Hd, Z2Nat.id by lia. nia.
  - rewrite Hd, Z2Nat.id by lia. rewrite Zplus_mod_idemp_r. replace (b / n + 1 + (Z.of_nat k - (b / n + 1))) with (Z.of_nat k) by lia.
    apply Z.mod_small. lia.
Qed.
End Alive.

(** Replica 1 of 3 looks for a quorum when only replica 2 answers. *)
#[local] Existing Instance demo_machine.
Definition only_two (p : Z) : bool := p =? 2.
Definition only_two_env : env := mkEnv [] [] [] [] [] [] [] [] [] (λ _ _, None) (λ _, only_two).

Lemma alive_ballot_found_witness : ∃ c, newCore 3 1 true true 0 false true [] [] 3 0 = Done c ∧
  returns (alive_ballot only_two_env 3 0 1 c) (found c 2 only_two 1).
Proof.
  assert (match newCore 3 1 true true 0 false true [] [] 3 0 with
    | Done c => bool_decide (cn c = 3 ∧ cid c = 1 ∧ SwiftQuorum.qs (qs c) = SwiftQuorum.NewQuorumSet 2 3)
    | Panicked _ | OutOfFuel => false end = true) as Hb by (vm_compute; reflexivity).
  destruct (newCore 3 1 true true 0 false true [] [] 3 0) as [c| |]; [|discriminate Hb..].
  exists c. split; [reflexivity|]. apply bool_decide_eq_true_1 in Hb as (Hn & Hid & Hqs).
  apply (alive_ballot_found only_two_env c 2 only_two 6).
  - constructor; rewrite ?Hn, ?Hid; (lia || done).
  - rewrite Hn, Hid. apply SwiftQuorum.elem_of_family; [lia..|]. apply (bool_decide_eq_true_1 _). vm_compute. reflexivity.
  - intros p Hp. rewrite Hid. assert (ReplicaSet.members 6 = [1; 2]) as E by (vm_compute; reflexivity). rewrite E in Hp. 
    apply elem_of_cons in Hp as [->|[->|?%elem_of_nil]%elem_of_cons]; [by left|by right|done].
  - lia.
  - rewrite Hn, Hid. vm_compute. reflexivity.
  - rewrite Hn, Hid. vm_compute. lia.
Defined.

(** ** The selection of a new leader *)

(** The parallel lists of a report have one length. *)
Definition wf_report (m : MNewLeaderAckN) : Prop :=
  length (NACmdIds m) = length (NAPhases m) ∧ length (NACmds m) = length (NAPhases m) ∧ length (NADeps m) = length (NAPhases m).

Definition newest (msgs : list MNewLeaderAckN) (m : MNewLeaderAckN) : Prop :=
  m ∈ msgs ∧ ∀ m', m' ∈ msgs → NACballot m' ≤ NACballot m.

(** An entry of a report that the selection looks at. *)
Definition accepted (m : MNewLeaderAckN) (id : RequestID) (ph : Z) (cmd : Command) (dep : option Dep) : Prop :=
  ∃ i : nat, NACmdIds m !! i = Some id ∧ NAPhases m !! i = Some ph ∧ NACmds m !! i = Some cmd ∧ NADeps m !! i = Some dep ∧
             (ph = COMMIT ∨ ph = ACCEPT).

Definition max_so_far (pre : list MNewLeaderAckN) (s : Z * option (gmap Z MNewLeaderAckN)) : Prop :=
  (∀ m, m ∈ pre → NACballot m ≤ s.1) ∧ (pre = [] ∧ s = (-1, None) ∨ is_Some s.2 ∧ ∃ m, m ∈ pre ∧ NACballot m = s.1) ∧
  ∀ rep m, default ∅ s.2 !! rep = Some m ↔ rep = NAReplica m ∧ m ∈ pre ∧ NACballot m = s.1.

Lemma select_ack_max pre m s :
  max_so_far pre s → 0 ≤ NACballot m → (∀ m', m' ∈ pre → NAReplica m' ≠ NAReplica m) →
  returns (select_ack m s) (max_so_far (pre ++ [m])).
Proof.
  destruct s as [b U]. intros (Hle & Hne & Hin) Hm Hrep. cbn [fst snd] in *. unfold select_ack.
  destruct (b <? NACballot m) eqn:Hb.
  - rewrite Z.eqb_refl. cbn. unfold max_so_far. cbn [fst snd]. split_and!.
    + intros m' [H%Hle| ->%list_elem_of_singleton]%elem_of_app; lia.
    + right. split; [done|]. exists m. split; [apply elem_of_app; right; by left|done].
    + intros rep m'. cbn. rewrite lookup_insert_Some, lookup_empty, elem_of_app, list_elem_of_singleton. split.
      * intros [[<- <-]|[_ ?]]; [by auto|done].
      * intros (-> & [H%Hle| ->] & Hb'); [lia|by left].
  - destruct Hne as [[-> [= -> ->]]|[[u Hu] Hex]]; [lia|]. cbn [snd] in Hu. subst U. cbn in Hin.
    assert (NACballot m ≤ b) as Hmb by lia.
    assert (∀ m', m' ∈ pre ++ [m] → NACballot m' ≤ b) as Hle'.
    { intros m' [H%Hle| ->%list_elem_of_singleton]%elem_of_app; lia. }
    assert (∃ m', m' ∈ pre ++ [m] ∧ NACballot m' = b) as Hex'.
    { destruct Hex as (m' & Hm' & Hb'). exists m'. split; [apply elem_of_app; by left|done]. }
    destruct (b =? NACballot m) eqn:He; cbn; unfold max_so_far; cbn [fst snd]; (split; [done|]); (split; [right; by split|]);
      intros rep m'; cbn; rewrite ?lookup_insert_Some, Hin, elem_of_app, list_elem_of_singleton.
    + split; [intros [[<- <-]|(_ & ? & ? & ?)]; [split_and!; [done|by right|lia]|auto]|].
      intros (-> & [H| ->] & Hb'); [right|by left]. split; [intros E; by apply (Hrep m' H)|auto].
    + split; [intros (? & ? & ?); auto|]. intros (-> & [H| ->] & Hb'); [auto|lia].
Qed.

Lemma selected_acks_spec msgs :
  NoDup (NAReplica <$> msgs) → (∀ m, m ∈ msgs → 0 ≤ NACballot m) →
  returns (selected_acks msgs) (λ U, ∀ rep m, U !! rep = Some m ↔ rep = NAReplica m ∧ newest msgs m).
Proof.
  intros Hnd Hpos. unfold selected_acks.
  eapply (returns_bind _ _ (λ s, ∃ pre, msgs = pre ++ [] ∧ max_so_far pre s)).
  - apply (returns_forEach select_ack (λ l s, ∃ pre, msgs = pre ++ l ∧ max_so_far pre s)).
    { exists []. split; [done|]. split_and!; [by intros m ?%elem_of_nil|by left|].
      intros rep m. cbn. rewrite lookup_empty. split; [done|]. by intros (_ & ?%elem_of_nil & _). }
    intros m l s (pre & -> & Hs). eapply returns_mono; [apply (select_ack_max pre); [done|apply Hpos; set_solver|]|].
    + intros m' Hm' E. rewrite fmap_app, fmap_cons in Hnd. apply NoDup_app in Hnd as (_ & Hnd & _).
      apply (Hnd (NAReplica m')); [by apply list_elem_of_fmap_2|]. rewrite E. by left.
    + intros s' Hs'. exists (pre ++ [m]). by rewrite <- app_assoc.
  - intros [b U] (pre & -> & Hle & Hne & Hin). rewrite app_nil_r. intros rep m. rewrite Hin. cbn [fst snd] in *.
    unfold newest. split.
    + intros (-> & Hm & <-). auto.
    + intros (-> & Hm & Hmax). split_and!; [done..|]. apply Hle in Hm as ?. destruct Hne as [[-> _]|[_ (m' & Hm' & <-)]]; [by apply elem_of_nil in Hm|].
      apply Hmax in Hm'. lia.
Qed.

(** The three maps of a selection have the same commands, and each comes from an
    entry of one of the newest reports. *)
Definition sound (msgs : list MNewLeaderAckN) (r : recovered) : Prop := ∀ id,
  match r.1.1 !! id, r.1.2 !! id, r.2 !! id with
  | Some ph, Some cmd, Some dep => ∃ m, newest msgs m ∧ accepted m id ph cmd dep
  | None, None, None => True
  | _, _, _ => False
  end.

(** The selection has the command of the entry [i] of a report. *)
Definition has_entry (m : MNewLeaderAckN) (i : nat) (r : recovered) : Prop :=
  ∀ id ph, NACmdIds m !! i = Some id → NAPhases m !! i = Some ph → ph = COMMIT ∨ ph = ACCEPT → is_Some (r.1.1 !! id).
Definition has_report (m : MNewLeaderAckN) (r : recovered) : Prop := ∀ i, has_entry m i r.
Definition grows (r r' : recovered) : Prop := ∀ id, is_Some (r.1.1 !! id) → is_Some (r'.1.1 !! id).

Lemma has_report_grows m r r' : grows r r' → has_report m r → has_report m r'.
Proof. intros Hg Hr i id ph H1 H2 H3. apply Hg. by eapply Hr. Qed.

Lemma take_entry_spec msgs m r (i : nat) ph :
  newest msgs m → wf_report m → NAPhases m !! i = Some ph → sound msgs r →
  returns (take_entry m (Z.of_nat i, ph) r) (λ r', sound msgs r' ∧ grows r r' ∧ has_entry m i r').
Proof.
  intros Hm (L1 & L2 & L3) Hph Hr. destruct r as [[phases cmds] deps]. unfold take_entry. cbn [fst snd].
  destruct ((ph =? COMMIT) || (ph =? ACCEPT)) eqn:Hp.
  - apply lookup_lt_Some in Hph as Hi. rewrite !index_nat.
    destruct (lookup_lt_is_Some_2 (NACmdIds m) i) as [id Hid]; [lia|].
    destruct (lookup_lt_is_Some_2 (NACmds m) i) as [cmd Hcmd]; [lia|].
    destruct (lookup_lt_is_Some_2 (NADeps m) i) as [dep Hdep]; [lia|]. rewrite Hid, Hcmd, Hdep. cbn. split_and!.
    + intros id'. specialize (Hr id'). cbn in *. destruct (decide (id = id')) as [<-|Hne].
      * rewrite !lookup_insert_eq. exists m. split; [done|]. exists i. split_and!; [done..|]. lia.
      * by rewrite !lookup_insert_ne.
    + intros id' H. cbn in *. destruct (decide (id = id')) as [<-|Hne]; [by rewrite lookup_insert_eq|by rewrite lookup_insert_ne].
    + intros id' ph' E _ _. rewrite Hid in E. injection E as <-. cbn. by rewrite lookup_insert_eq.
  - cbn. split_and!; [done|by intros id'|]. intros id' ph' _ E H. rewrite Hph in E. injection E as <-. lia.
Qed.

Lemma numbered_phases (l : list Z) z ph : (z, ph) ∈ numbered l ↔ ∃ i : nat, z = Z.of_nat i ∧ l !! i = Some ph.
Proof.
  unfold numbered. rewrite list_elem_of_lookup. split.
  - intros [i Hi]. apply lookup_zip_Some in Hi as [H1 H2]. apply lookup_seqZ in H1 as [-> _]. by exists i.
  - intros (i & -> & Hi). exists i. apply lookup_zip_Some. split; [|done]. apply lookup_seqZ. apply lookup_lt_Some in Hi. lia.
Qed.

Lemma take_ack_spec msgs m r :
  newest msgs m → wf_report m → sound msgs r →
  returns (take_ack m r) (λ r', sound msgs r' ∧ grows r r' ∧ has_report m r').
Proof.
  intros Hm Hwf Hr. unfold take_ack.
  set (I := λ (l : list (Z * Z)) r', (∀ x, x ∈ l → x ∈ numbered (NAPhases m)) ∧ sound msgs r' ∧ grows r r' ∧
    ∀ i ph, NAPhases m !! i = Some ph → (Z.of_nat i, ph) ∈ l ∨ has_entry m i r').
  eapply (returns_mono _ (I [])).
  - apply (returns_forEach (take_entry m) I).
    { split_and!; [done..|by intros id|]. intros i ph Hi. left. apply numbered_phases. by exists i. }
    intros [z ph] l r' (Hl & Hs & Hg & Hc). destruct (proj1 (numbered_phases _ _ _) (Hl (z, ph) ltac:(by left))) as (i & -> & Hi).
    eapply returns_mono; [by apply (take_entry_spec msgs)|]. intros r'' (Hs' & Hg' & He). split_and!.
    + intros x Hx. apply Hl. by right.
    + done.
    + intros id H. by apply Hg', Hg.
    + intros i' ph' Hi'. destruct (decide (i' = i)) as [->|Hne]; [by right|]. destruct (Hc i' ph' Hi') as [H|H].
      * apply elem_of_cons in H as [[= E _]|H]; [lia|by left].
      * right. intros id p' H1 H2 H3. apply Hg'. by eapply H.
  - intros r' (_ & Hs & Hg & Hc). split_and!; [done..|]. intros i id ph H1 H2 H3.
    destruct (Hc i ph H2) as [H%elem_of_nil|H]; [done|by eapply H].
Qed.

Section Selection.
Variable e : env.
Variable msgs : list MNewLeaderAckN.

(** What a selection starts from: reports of distinct replicas. *)
Hypothesis distinct : NoDup (NAReplica <$> msgs).
Hypothesis ballots : ∀ m, m ∈ msgs → 0 ≤ NACballot m.
Hypothesis reports : ∀ m, m ∈ msgs → wf_report m.

(** C32.  The selection of a new leader, in whatever order it visits the reports,
    is made of the ACCEPT and COMMIT entries of the reports with the highest
    [Cballot], with the command and the dependencies of such an entry, and it
    misses none of their commands. *)
Theorem recovery_keeps_accepted :
  returns (select e msgs) (λ r, ∀ id,
    match r.1.1 !! id, r.1.2 !! id, r.2 !! id with
    | Some ph, Some cmd, Some dep => ∃ m, newest msgs m ∧ accepted m id ph cmd dep
    | None, None, None => ∀ m ph cmd dep, newest msgs m → ¬ accepted m id ph cmd dep
    | _, _, _ => False
    end).
Proof.
  unfold select. eapply returns_bind; [by apply selected_acks_spec|]. intros U HU.
  set (I := λ (l : list MNewLeaderAckN) r, (∀ m, m ∈ l → newest msgs m) ∧ sound msgs r ∧ ∀ m, newest msgs m → m ∈ l ∨ has_report m r).
  eapply (returns_mono _ (I [])).
  - apply (returns_forEach take_ack I).
    + split_and!; [|by intros id|]; intros m.
      * intros ([rep m'] & -> & H%elem_of_range_order)%list_elem_of_fmap. by apply HU in H as [_ H].
      * intros Hm. left. apply list_elem_of_fmap. exists (NAReplica m, m). split; [done|]. apply elem_of_range_order. by apply HU.
    + intros m l r (Hl & Hs & Hc). pose proof (Hl m ltac:(by left)) as Hm.
      eapply returns_mono; [apply (take_ack_spec msgs); [done|by apply reports, Hm|done]|]. intros r' (Hs' & Hg & Hr). split_and!; [|done|].
      * intros m' Hm'. apply Hl. by right.
      * intros m' Hm'. destruct (Hc m' Hm') as [[->|H]%elem_of_cons|H]; [by right|by left|right; by eapply has_report_grows].
  - intros r (_ & Hs & Hc) id. specialize (Hs id). destruct (r.1.1 !! id) as [ph|] eqn:E; [done|].
    destruct (r.1.2 !! id), (r.2 !! id); try done. intros m ph cmd dep Hm (i & H1 & H2 & _ & _ & H3).
    destruct (Hc m Hm) as [H%elem_of_nil|H]; [done|]. destruct (H i id ph H1 H2 H3) as [x Hx]. by rewrite E in Hx.
Qed.
End Selection.

(** Two reports of the newest ballot and an older one. *)
Definition report_of (r cbal : Z) (entries : list (RequestID * Z * option Dep)) : MNewLeaderAckN :=
  mkNewLeaderAckN r 5 cbal entries.*1.*1 entries.*1.*2 (map (λ x, demo_of x.1.1) entries) entries.*2.
Definition demo_reports : list MNewLeaderAckN :=
  [report_of 0 2 [(demo_x, ACCEPT, Some [])]; report_of 1 0 [(demo_y, COMMIT, None)];
   report_of 2 2 [(demo_y, PRE_ACCEPT, Some [demo_x]); (demo_x, COMMIT, Some [])]].

Lemma recovery_keeps_accepted_witness :
  returns (select only_two_env demo_reports) (λ r, ∀ id,
    match r.1.1 !! id, r.1.2 !! id, r.2 !! id with
    | Some ph, Some cmd, Some dep => ∃ m, newest demo_reports m ∧ accepted m id ph cmd dep
    | None, None, None => ∀ m ph cmd dep, newest demo_reports m → ¬ accepted m id ph cmd dep
    | _, _, _ => False
    end).
Proof.
  assert (Forall (λ m, 0 ≤ NACballot m ∧ wf_report m) demo_reports) as Hok
    by (repeat constructor; vm_compute; discriminate).
  apply (recovery_keeps_accepted only_two_env demo_reports).
  - apply (bool_decide_eq_true_1 _). vm_compute. reflexivity.
  - intros m Hm. by apply (proj1 (Forall_forall _ _) Hok) in Hm as [? _].
  - intros m Hm. by apply (proj1 (Forall_forall _ _) Hok) in Hm as [_ ?].
Defined.

(** ** A [Sync] on the wire *)
Lemma index_entries_lookup {A} (l : list (RequestID * A)) (m0 : gmap RequestID A) :
  NoDup l.*1 → ∀ id x, foldl (λ m e, <[e.1 := e.2]> m) m0 l !! id = Some x ↔ (id, x) ∈ l ∨ id ∉ l.*1 ∧ m0 !! id = Some x.
Proof.
  revert m0. induction l as [|[k y] l IH]; intros m0 Hnd id x.
  - cbn. split; [right|intros [?%elem_of_nil|[_ ?]]]; try done. split; [apply not_elem_of_nil|done].
  - cbn in *. apply NoDup_cons in Hnd as [Hk Hnd]. rewrite IH by done. rewrite lookup_insert_Some, !elem_of_cons. split.
    + intros [?|[Hn [[<- <-]|[? ?]]]]; [by left; right|by left; left|right; split; [intros [->|?]; done|done]].
    + intros [[[= -> ->]|?]|[Hn ?]]; [right; split; [done|by left]|by left|].
      right. split; [intros ?; apply Hn; by right|]. right. split; [intros ->; apply Hn; by left|done].
Qed.

Lemma index_entries_range {A} ord (m : gmap RequestID A) : index_entries (range_order ord m) = m.
Proof.
  apply map_eq. intros id. apply option_eq. intros x. unfold index_entries.
  rewrite index_entries_lookup by (rewrite range_order_perm; apply NoDup_fst_map_to_list).
  rewrite elem_of_range_order, lookup_empty. naive_solver.
Qed.

Lemma index_entries_map {A B} (f : A → B) (l : list (RequestID * A)) :
  index_entries (map (λ e, (e.1, f e.2)) l) = f <$> index_entries l.
Proof.
  unfold index_entries. rewrite <- (fmap_empty f) at 1. generalize (∅ : gmap RequestID A) as m0.
  induction l as [|[k y] l IH]; intros m0; [done|]. cbn. by rewrite <- fmap_insert.
Qed.

Lemma check_keys_spec l seen : NoDup l → (∀ id, id ∈ l → id ∉ seen) → check_keys seen l = true.
Proof.
  revert seen. induction l as [|id l IH]; intros seen Hnd Hs; [done|]. apply NoDup_cons in Hnd as [Hid Hnd]. cbn.
  rewrite bool_decide_eq_false_2 by (apply Hs; by left). apply IH; [done|]. intros id' Hin.
  rewrite elem_of_union, elem_of_singleton. intros [->|Hse]; [done|]. by apply (Hs id'); [right|].
Qed.

(** The [Sync] that a new leader broadcasts passes the receiver's check for
    repeated commands and is indexed there as the selected phases, commands and
    dependencies, in whatever orders the leader lists its maps; only a nil
    dependency list becomes an empty one. *)
Theorem sync_roundtrip `{SM : StateMachine} e (r : recovered) (c : core) :
  validateRecoveryEntries (normal_sync (newSync e r c)) = true ∧
  recoveryIndex (normal_sync (newSync e r c)) = (r.1.1, r.1.2, normal_dep <$> r.2).
Proof.
  destruct r as [[phases cmds] deps]. unfold newSync, normal_sync, recoveryIndex, validateRecoveryEntries. cbn [YPhases YCmds YDeps fst snd].
  rewrite index_entries_map, !index_entries_range. split; [|done].
  assert (∀ l, NoDup l → check_keys ∅ l = true) as Hck by (intros; apply check_keys_spec; [done|set_solver]).
  rewrite !andb_true_iff. split_and!; apply Hck; [| |rewrite map_map; cbn];
    (eapply NoDup_Permutation_proper; [apply fmap_Permutation, range_order_perm|]; apply NoDup_fst_map_to_list).
Qed.
End SwiftElect.
