(* ===== verification/CurpClient.v ===== *)
(** * CurpClient: when a CURP client completes a command ([curp/client.go])

    Completion records ([client/completion.go]), the evidence a client gathers
    per request and the two ways a command completes.  [completion_justified]
    ties the rule to the replicas: a fast completion has a leader's reply and a
    super quorum of records of one ballot, which is what [recovered_complete]
    asks of a command that recovery must not lose. *)
From stdpp Require Import gmap strings list fin_maps fin_sets.
From Stdlib Require Import Lia.
From S2P Require Import Prelude State ReplicaSet Defs CurpWitness.

(** ** Completion records ([client/completion.go]) *)
Module Completion.

(** The replies handed to the workload are traced; throughput samples are not. *)
Record BufferClient := mkBuffer {
  ClientID : Z;
  completed : gset RequestID;
  Reply : list (RequestID * Value) }.

Definition ReplyCompleted (id : RequestID) (b : BufferClient) : bool := bool_decide (id ∈ completed b).
Definition CompletedReplies (b : BufferClient) : Z := Z.of_nat (size (completed b)).

(** The flag is true if the result was claimed, which is when [beforeNotify]
    runs; without a [stop] channel the delivery is not cancelled. *)
Definition CompleteReply (id : RequestID) (value : Value) (b : BufferClient) : bool * BufferClient :=
  if negb (Client id =? ClientID b) then (false, b)
  else if bool_decide (id ∈ completed b) then (false, b)
  else (true, mkBuffer (ClientID b) ({[id]} ∪ completed b) (Reply b ++ [(id, value)])).

Definition RegisterReply (val : Value) (seqnum : Z) (b : BufferClient) : BufferClient :=
  (CompleteReply (mkRequestID (ClientID b) seqnum) val b).2.

(** Every reply is for a claimed identity of this client, once. *)
Record published (b : BufferClient) : Prop := mkPublished {
  pub_claimed : ∀ id, id ∈ completed b ↔ id ∈ (Reply b).*1;
  pub_once : NoDup (Reply b).*1;
  pub_own : ∀ id, id ∈ completed b → Client id = ClientID b;
}.

Lemma CompleteReply_published id v b : published b → published (CompleteReply id v b).2.
Proof.
  intros [Hc Ho Hw]. unfold CompleteReply. destruct (Client id =? ClientID b) eqn:E; [|done]. cbn [negb].
  case_bool_decide as Hin; [done|]. split; cbn.
  - intros i. rewrite fmap_app, elem_of_app, elem_of_union, elem_of_singleton, Hc. cbn.
    rewrite list_elem_of_singleton. tauto.
  - rewrite fmap_app. apply NoDup_app. split_and!; [done| |apply NoDup_singleton].
    intros i Hi ->%list_elem_of_singleton. by apply Hin, Hc.
  - intros i [->%elem_of_singleton|Hi]%elem_of_union; [lia|by apply Hw].
Qed.
End Completion.

Module CurpClient.
Import Completion.

Record completion := mkCompletion { votes : Z; value : Value; leaderReply : bool }.
#[export] Instance eta_completion : Eta completion := λ p, mkCompletion (votes p) (value p) (leaderReply p).
#[export] Instance set_votes : Setter votes := ltac:(mk_setter).
#[export] Instance set_value : Setter value := ltac:(mk_setter).
#[export] Instance set_leaderReply : Setter leaderReply := ltac:(mk_setter).

Record Client := mkClient {
  buffer : BufferClient;
  N : Z;
  ballot : Z;
  pending : gmap RequestID completion }.
#[export] Instance eta_Client : Eta Client := λ c, mkClient (buffer c) (N c) (ballot c) (pending c).
#[export] Instance set_buffer : Setter buffer := ltac:(mk_setter).
#[export] Instance set_ballot : Setter ballot := ltac:(mk_setter).
#[export] Instance set_pending : Setter pending := ltac:(mk_setter).

Definition NewClient (b : BufferClient) (n : Z) : Client := mkClient b n (-1) ∅.

(** [evidence]: true if it returns the entry of [pending] for [id]. *)
Definition evidence (id : RequestID) (b replica : Z) (c : Client) : bool * Client :=
  if negb (Defs.Client id =? ClientID (buffer c)) || (replica <? 0) || (N c <=? replica) || (b <? ballot c) then (false, c)
  else if ReplyCompleted id (buffer c) then (false, c)
  else
    let c := if ballot c <? b then c <| ballot := b |> <| pending := ∅ |> else c in
    (true, match pending c !! id with
           | Some _ => c
           | None => c <| pending ::= <[id := mkCompletion 0 [] false]> |>
           end).

Definition finish (id : RequestID) (v : Value) (c : Client) : Client :=
  let '(claimed, b) := CompleteReply id v (buffer c) in
  let c := c <| buffer := b |> in
  if claimed : bool then c <| pending ::= delete id |> else c.

Definition tryFast (id : RequestID) (c : Client) : Client :=
  match pending c !! id with
  | Some p => if leaderReply p && (CurpWitness.superQuorum (N c) <=? ReplicaSet.Size (votes p)) then finish id (value p) c else c
  | None => c
  end.

(** [p.votes |= uint64(1) << replica] *)
Definition record_vote (replica : Z) (p : completion) : completion :=
  p <| votes ::= (λ v, Z.lor v (u64 (Z.shiftl 1 replica))) |>.

(** ** Messages *)
Record MReply := mkMReply { rReplica : Z; rBallot : Z; rCmdId : RequestID; rRep : Value; rOk : Z }.
Record MRecordAck := mkMRecordAck { aReplica : Z; aBallot : Z; aCmdId : RequestID; aOk : Z }.
Record MSyncReply := mkMSyncReply { sReplica : Z; sBallot : Z; sCmdId : RequestID; sRep : Value }.

(** [r.Ballot % int32(c.N)] is evaluated only for entries, where [0 < N]. *)
Definition handleReply (r : MReply) (c : Client) : Client :=
  let '(p, c) := evidence (rCmdId r) (rBallot r) (rReplica r) c in
  if negb p || negb (rOk r =? TRUE) || negb (rReplica r =? Z.rem (rBallot r) (N c)) then c
  else tryFast (rCmdId r)
         (c <| pending ::= alter (λ p, record_vote (rReplica r) (p <| value := rRep r |> <| leaderReply := true |>)) (rCmdId r) |>).

Definition handleRecordAck (r : MRecordAck) (c : Client) : Client :=
  let '(p, c) := evidence (aCmdId r) (aBallot r) (aReplica r) c in
  if negb p || negb (aOk r =? TRUE) then c
  else tryFast (aCmdId r) (c <| pending ::= alter (record_vote (aReplica r)) (aCmdId r) |>).

Definition handleSyncReply (r : MSyncReply) (c : Client) : Client :=
  let '(p, c) := evidence (sCmdId r) (sBallot r) (sReplica r) c in
  if negb p then c else finish (sCmdId r) (sRep r) c.

Inductive message := Rep (r : MReply) | Ack (r : MRecordAck) | Sync (r : MSyncReply).

(** [handleMsgs]: the messages in the order the select takes them. *)
Definition handle (c : Client) (m : message) : Client :=
  match m with Rep r => handleReply r c | Ack r => handleRecordAck r c | Sync r => handleSyncReply r c end.
Definition handleMsgs (ms : list message) (c : Client) : Client := foldl handle c ms.

(** ** What a completion rests on *)

(** Replica [i] answered or recorded [id] in ballot [b]. *)
Definition recorded_by (ms : list message) (b : Z) (id : RequestID) (i : Z) : Prop :=
  (∃ m, Ack m ∈ ms ∧ m = mkMRecordAck i b id TRUE) ∨ (∃ v, Rep (mkMReply i b id v TRUE) ∈ ms).

(** The leader of [b] answered [id] with [v]. *)
Definition answered_by_leader (n : Z) (ms : list message) (b : Z) (id : RequestID) (v : Value) : Prop :=
  Rep (mkMReply (Z.rem b n) b id v TRUE) ∈ ms.

(** A completion with [v] has the leader's reply and a super quorum of records
    of one ballot, or a reply of the executed log. *)
Definition justified (n : Z) (ms : list message) (id : RequestID) (v : Value) : Prop :=
  (∃ b F, answered_by_leader n ms b id v ∧ CurpWitness.superQuorum n ≤ Z.of_nat (size F) ∧ F ⊆ ReplicaSet.ids n ∧
     ∀ i, i ∈ F → recorded_by ms b id i) ∨
  (∃ i b, Sync (mkMSyncReply i b id v) ∈ ms).

Record entry_ok (n : Z) (ms : list message) (b : Z) (id : RequestID) (p : completion) : Prop := mkEntryOk {
  ok_votes : ∀ i, i ∈ ReplicaSet.to_gset (votes p) → 0 ≤ i < n ∧ recorded_by ms b id i;
  ok_leader : leaderReply p = true → answered_by_leader n ms b id (value p);
}.

Record client_ok (ms : list message) (c : Client) : Prop := mkClientOk {
  ok_published : published (buffer c);
  ok_pending : ∀ id p, pending c !! id = Some p → entry_ok (N c) ms (ballot c) id p;
  ok_replies : ∀ id v, (id, v) ∈ Reply (buffer c) → justified (N c) ms id v;
}.

Lemma recorded_by_mono ms m b id i : recorded_by ms b id i → recorded_by (ms ++ [m]) b id i.
Proof. intros [(a & Ha & ->)|(v & Hv)]; [left|right]; eexists; [split; [|done]|]; apply elem_of_app; by left. Qed.

Lemma justified_mono n ms m id v : justified n ms id v → justified n (ms ++ [m]) id v.
Proof.
  intros [(b & F & Hl & Hs & HF & Hi)|(i & b & Hi)]; [left|right].
  - exists b, F. split_and!; [apply elem_of_app; by left|done..|]. intros i Hin. by apply recorded_by_mono, Hi.
  - exists i, b. apply elem_of_app. by left.
Qed.

Lemma client_ok_mono ms m c : client_ok ms c → client_ok (ms ++ [m]) c.
Proof.
  intros [Hp He Hr]. split; [done| |].
  - intros id p Hid. destruct (He id p Hid) as [Hv Hl]. split.
    + intros i Hi. split; [by apply Hv|]. by apply recorded_by_mono, Hv.
    + intros Ht. apply elem_of_app. left. by apply Hl.
  - intros id v Hid. by apply justified_mono, Hr.
Qed.

Lemma to_gset_vote v r i : 0 ≤ r → i ∈ ReplicaSet.to_gset (Z.lor v (u64 (Z.shiftl 1 r))) → i ∈ ReplicaSet.to_gset v ∨ i = r.
Proof.
  intros Hr. destruct (decide (r < 64)).
  - rewrite wrapU_id.
    + rewrite ReplicaSet.to_gset_lor_bit by lia. done.
    + rewrite Z.shiftl_1_l. pose proof (Z.pow_pos_nonneg 2 r). split; [lia|]. apply Z.pow_lt_mono_r; lia.
  - assert (u64 (Z.shiftl 1 r) = 0) as ->; [|rewrite Z.lor_0_r; tauto].
    unfold wrapU. rewrite Z.shiftl_1_l. replace r with (64 + (r - 64)) by lia. rewrite Z.pow_add_r by lia.
    rewrite Z.mul_comm. apply Z.mod_mul. lia.
Qed.

Lemma evidence_ok ms id b r c :
  client_ok ms c →
  let '(p, c') := evidence id b r c in
  client_ok ms c' ∧ N c' = N c ∧ (p = true → 0 ≤ r < N c ∧ ballot c' = b ∧ is_Some (pending c' !! id)).
Proof.
  intros Hok. unfold evidence. destruct (_ || _) eqn:E; [done|]. destruct (ReplyCompleted id (buffer c)); [done|].
  assert (0 ≤ r < N c ∧ ballot c ≤ b) as [Hr Hb] by lia. destruct Hok as [Hp He Hs].
  set (c1 := if ballot c <? b then c <| ballot := b |> <| pending := ∅ |> else c).
  assert (client_ok ms c1 ∧ N c1 = N c ∧ ballot c1 = b) as ([Hp1 He1 Hs1] & HN & Hbal).
  { subst c1. destruct (ballot c <? b) eqn:Eb.
    - split; [by split|done].
    - split; [by split|]. split; [done|lia]. }
  destruct (pending c1 !! id) eqn:Ep.
  { split; [by split|]. split; [done|]. intros _. split; [lia|]. split; [done|]. rewrite Ep. by eexists. }
  split; [|split].
  - split; [done| |done]. cbn. intros i p. rewrite lookup_insert_Some. intros [[<- <-]|[_ Hi]]; [|by apply He1].
    split; [|done]. intros i Hi. apply ReplicaSet.elem_of_to_gset in Hi as [_ Hi]. cbn [votes] in Hi. by rewrite Z.bits_0 in Hi.
  - done.
  - intros _. split_and!; [lia..|done|]. cbn. rewrite lookup_insert_eq. by eexists.
Qed.

Lemma finish_ok ms id v c : client_ok ms c → justified (N c) ms id v → client_ok ms (finish id v c) ∧ N (finish id v c) = N c.
Proof.
  intros [Hp He Hr] Hj. unfold finish. pose proof (CompleteReply_published id v (buffer c) Hp) as Hpub.
  assert (∀ i w, (i, w) ∈ Reply (CompleteReply id v (buffer c)).2 → justified (N c) ms i w) as Hrep.
  { unfold CompleteReply. destruct (negb _); [done|]. case_bool_decide; [done|]. cbn.
    intros i w [Hi|Hi]%elem_of_app; [by apply Hr|]. apply list_elem_of_singleton in Hi as [= -> ->]. done. }
  destruct (CompleteReply id v (buffer c)) as [[] b]; (split; [|done]); split; try done.
  cbn. intros i p [_ Hi]%lookup_delete_Some. by apply He.
Qed.

Lemma tryFast_ok ms id c : client_ok ms c → client_ok ms (tryFast id c) ∧ N (tryFast id c) = N c.
Proof.
  intros Hok. unfold tryFast. destruct (pending c !! id) as [p|] eqn:Ep; [|done].
  destruct (_ && _) eqn:E; [|done]. apply andb_prop in E as [El Eq]. apply finish_ok; [done|].
  destruct (ok_pending ms c Hok id p Ep) as [Hv Hl]. left. exists (ballot c), (ReplicaSet.to_gset (votes p)).
  split_and!; [by apply Hl|rewrite <- ReplicaSet.Size_size; lia| |intros i Hi; by apply Hv].
  intros i Hi. apply ReplicaSet.elem_of_ids. by apply Hv.
Qed.

(** An update of the entry of [id] that keeps it right keeps the client right. *)
Lemma alter_ok ms f id c :
  client_ok ms c → (∀ p, entry_ok (N c) ms (ballot c) id p → entry_ok (N c) ms (ballot c) id (f p)) →
  client_ok ms (c <| pending ::= alter f id |>).
Proof.
  intros [Hp He Hr] Hf. split; [done| |done]. cbn. intros i p.
  rewrite lookup_alter_Some. intros [[-> (q & Hq & ->)]|[_ Hi]]; [by apply Hf, He|by apply He].
Qed.

Lemma vote_ok n ms b id r p :
  0 ≤ r < n → recorded_by ms b id r → entry_ok n ms b id p → entry_ok n ms b id (record_vote r p).
Proof.
  intros Hr Hrec [Hv Hl]. split; [|exact Hl]. cbn. intros i [Hi| ->]%to_gset_vote; [by apply Hv|done|lia].
Qed.

Lemma client_handle_ok ms m c : client_ok ms c → client_ok (ms ++ [m]) (handle c m) ∧ N (handle c m) = N c.
Proof.
  intros Hok%(client_ok_mono ms m). assert (m ∈ ms ++ [m]) as Hm by (apply elem_of_app; right; by left).
  set (ms' := ms ++ [m]) in *. clearbody ms'. destruct m as [r|r|r]; cbn [handle].
  - unfold handleReply. pose proof (evidence_ok ms' (rCmdId r) (rBallot r) (rReplica r) c Hok) as He.
    destruct (evidence _ _ _ c) as [p c1]. destruct He as (Hok1 & HN & Hp).
    destruct (_ || _) eqn:E; [done|]. assert (p = true ∧ rOk r = TRUE ∧ rReplica r = Z.rem (rBallot r) (N c1)) as (-> & HO & HL)
      by (destruct p; [lia|done]).
    destruct (Hp eq_refl) as (Hr & Hb & _). destruct r as [rr rb ri rv ro]; cbn in *. subst ro.
    edestruct tryFast_ok as [H1 H2]; [|split; [exact H1|by rewrite H2]].
    apply alter_ok; [done|]. intros q Hq. rewrite Hb, HN in *. apply vote_ok; [done|right; by eexists|].
    split; [apply Hq|]. intros _. unfold answered_by_leader. by rewrite <- HL.
  - unfold handleRecordAck. pose proof (evidence_ok ms' (aCmdId r) (aBallot r) (aReplica r) c Hok) as He.
    destruct (evidence _ _ _ c) as [p c1]. destruct He as (Hok1 & HN & Hp).
    destruct (_ || _) eqn:E; [done|]. assert (p = true ∧ aOk r = TRUE) as (-> & HO) by (destruct p; [lia|done]).
    destruct (Hp eq_refl) as (Hr & Hb & _). destruct r as [rr rb ri ro]; cbn in *. subst ro.
    edestruct tryFast_ok as [H1 H2]; [|split; [exact H1|by rewrite H2]].
    apply alter_ok; [done|]. intros q Hq. rewrite Hb, HN in *. apply vote_ok; [done|left; by eexists|done].
  - unfold handleSyncReply. pose proof (evidence_ok ms' (sCmdId r) (sBallot r) (sReplica r) c Hok) as He.
    destruct (evidence _ _ _ c) as [p c1]. destruct He as (Hok1 & HN & Hp). destruct p; [|done]. cbn [negb].
    edestruct finish_ok as [H1 H2]; [exact Hok1| |split; [exact H1|by rewrite H2]].
    right. destruct r as [i b id v]. by exists i, b.
Qed.

Lemma client_handleMsgs_ok pre ms c : client_ok pre c → client_ok (pre ++ ms) (handleMsgs ms c) ∧ N (handleMsgs ms c) = N c.
Proof.
  revert pre c. induction ms as [|m ms IH]; intros pre c Hok; [by rewrite app_nil_r|].
  destruct (client_handle_ok pre m c Hok) as [H1 H2]. destruct (IH _ _ H1) as [H3 H4].
  rewrite <- app_assoc in H3. split; [exact H3|]. etrans; [exact H4|exact H2].
Qed.

(** C21.  A client completes each command at most once, and only with a value it
    may rely on: either the leader of one ballot answered with it and a super
    quorum of distinct replicas recorded the command in that same ballot, or a
    replica reported it as the executed result. *)
Theorem completion_justified n cid ms :
  let c := handleMsgs ms (NewClient (mkBuffer cid ∅ []) n) in
  NoDup (Reply (buffer c)).*1 ∧ ∀ id v, (id, v) ∈ Reply (buffer c) → justified n ms id v.
Proof.
  destruct (client_handleMsgs_ok [] ms (NewClient (mkBuffer cid ∅ []) n)) as [[Hp _ Hr] HN].
  { split; [|by intros ? ? ?|by intros ? ? ?%not_elem_of_nil].
    split; [by intros id; cbn; rewrite elem_of_nil, elem_of_empty|apply NoDup_nil; done|intros id; by intros ?%elem_of_empty]. }
  cbv zeta. split; [apply Hp|]. cbn in HN. intros id v Hid. rewrite <- HN. by apply Hr.
Qed.

(** Three replicas: the leader's reply and two records complete request 5; the
    record of an older ballot does not count. *)
Definition msgs_demo : list message :=
  let id := mkRequestID 1 5 in
  [ Ack (mkMRecordAck 1 0 id TRUE); Rep (mkMReply 0 3 id [9] TRUE); Ack (mkMRecordAck 1 0 id TRUE);
    Ack (mkMRecordAck 2 3 id TRUE); Ack (mkMRecordAck 1 3 id TRUE); Sync (mkMSyncReply 1 3 id [9]) ].

Example completion_demo :
  let c k := handleMsgs (take k msgs_demo) (NewClient (mkBuffer 1 ∅ []) 3) in
  Reply (buffer (c 4%nat)) = [] ∧ Reply (buffer (c 5%nat)) = [(mkRequestID 1 5, [9])] ∧
  Reply (buffer (c 6%nat)) = [(mkRequestID 1 5, [9])].
Proof. vm_compute. done. Qed.

Lemma completion_justified_witness :
  (mkRequestID 1 5, [9]) ∈ Reply (buffer (handleMsgs msgs_demo (NewClient (mkBuffer 1 ∅ []) 3))) ∧
  justified 3 msgs_demo (mkRequestID 1 5) [9].
Proof.
  assert ((mkRequestID 1 5, [9]) ∈ Reply (buffer (handleMsgs msgs_demo (NewClient (mkBuffer 1 ∅ []) 3)))) as H.
  { replace (Reply _) with [(mkRequestID 1 5, [9] : Value)] by (vm_compute; reflexivity). apply list_elem_of_here. }
  split; [exact H|]. exact (proj2 (completion_justified 3 1 msgs_demo) (mkRequestID 1 5) [9] H).
Defined.
End CurpClient.
