(* ===== verification/Epaxos.v ===== *)
(** * Epaxos: state, messages and ordering of EPaxos ([epaxos/core.go], [defs.go])

    The core's data as the code has it, the attribute computation (conflict
    index, [updateAttributes], [mergeAttributes]), the pre-accept, accept and
    commit handlers and the broadcasts.  A handler takes its environment (clock,
    liveness, peer order) and the core and returns the core, whose [out] is the
    list of port calls in order, or panics.  Instances are shared by pointer in
    the code; here they are named by their position, which is the identity
    [newInstance] gives them.  Messages are encoded when they are sent
    ([replica/transport.go]), so a port call holds the values of that moment. *)
From stdpp Require Import gmap strings list fin_maps fin_sets.
From Stdlib Require Import Lia.
From S2P Require Import Prelude State ReplicaSet Defs.

Module Epaxos.

(** [instanceID]: the replica's row and the instance in it. *)
Abbreviation instanceID := (Z * Z)%type.

(** ** Constants ([defs.go]) *)
Definition STATUS_NONE : Z := 0.
Definition PREACCEPTED : Z := 1.
Definition PREACCEPTED_EQ : Z := 2.
Definition ACCEPTED : Z := 3.
Definition COMMITTED : Z := 4.
Definition EXECUTED : Z := 5.
Definition MAX_INSTANCE : Z := 10 * 1024 * 1024.
Definition COMMIT_GRACE_PERIOD : Z := 3 * Second.
Definition MAX_BATCH : Z := 1000.
Definition INITIAL_RECOVERY_BACKOFF : Z := 3 * Second.
Definition MAX_RECOVERY_BACKOFF : Z := 6 * Second.
Definition CHAN_BUFFER_SIZE : Z := 2000000.

(** ** Messages ([messages.pb.go]); a nil command slice is [None] *)
Record Attributes := mkAttributes {
  m_LeaderId : Z; m_Replica : Z; m_Instance : Z; m_Ballot : Z;
  m_Command : option (list Command); m_Seq : Z; m_Deps : list Z }.

(** Four messages have these fields. *)
Definition PreAccept : Type := Attributes.
Definition TryPreAccept : Type := Attributes.
Definition Accept : Type := Attributes.
Definition Commit : Type := Attributes.

Record Prepare := mkPrepare { p_LeaderId : Z; p_Replica : Z; p_Instance : Z; p_Ballot : Z }.
Record PrepareReply := mkPrepareReply {
  pr_VBallot : Z; pr_AcceptorId : Z; pr_Replica : Z; pr_Instance : Z; pr_Ballot : Z;
  pr_Status : Z; pr_Command : option (list Command); pr_Seq : Z; pr_Deps : list Z }.
Record PreAcceptReply := mkPreAcceptReply {
  par_Replica : Z; par_Instance : Z; par_Ballot : Z; par_VBallot : Z; par_Seq : Z; par_Deps : list Z;
  par_CommittedDeps : list Z; par_Status : Z; par_AcceptorId : Z }.
Record AcceptReply := mkAcceptReply { ar_Replica : Z; ar_Instance : Z; ar_Ballot : Z; ar_AcceptorId : Z }.
Record TryPreAcceptReply := mkTryPreAcceptReply {
  tpr_AcceptorId : Z; tpr_Replica : Z; tpr_Instance : Z; tpr_Ballot : Z; tpr_VBallot : Z;
  tpr_ConflictReplica : Z; tpr_ConflictInstance : Z; tpr_ConflictStatus : Z }.
Record RepairRequest := mkRepairRequest { rr_Owner : Z; rr_Slot : Z }.

Inductive message :=
  | MPrepare (m : Prepare) | MPrepareReply (m : PrepareReply)
  | MPreAccept (m : PreAccept) | MPreAcceptReply (m : PreAcceptReply)
  | MAccept (m : Accept) | MAcceptReply (m : AcceptReply) | MCommit (m : Commit)
  | MTryPreAccept (m : TryPreAccept) | MTryPreAcceptReply (m : TryPreAcceptReply)
  | MRepairRequest (m : RepairRequest).

(** ** The leader's bookkeeping and the instances *)
Record LeaderBookkeeping := mkLB {
  clientProposals : option (list Propose);
  ballot : Z;
  allEqual : bool;
  preAcceptOKs : Z; acceptOKs : Z; nacks : Z;
  originalDeps : list Z; committedDeps : list Z;
  prepareReplies : list PrepareReply;
  preparing : bool; tryingToPreAccept : bool;
  possibleQuorum : list bool;
  tpaReps : Z; tpaAccepted : bool;
  lastTriedBallot : Z;
  cmds : option (list Command); status : Z; seq : Z; deps : list Z;
  leaderResponded : bool;
  preVoters : Z; acceptVoters : Z; prepareVoters : Z;      (* [replicaset.Set] *)
  phaseStarted : Z }.
#[export] Instance eta_LeaderBookkeeping : Eta LeaderBookkeeping := λ b,
  mkLB (clientProposals b) (ballot b) (allEqual b) (preAcceptOKs b) (acceptOKs b) (nacks b) (originalDeps b)
    (committedDeps b) (prepareReplies b) (preparing b) (tryingToPreAccept b) (possibleQuorum b) (tpaReps b) (tpaAccepted b)
    (lastTriedBallot b) (cmds b) (status b) (seq b) (deps b) (leaderResponded b) (preVoters b) (acceptVoters b)
    (prepareVoters b) (phaseStarted b).
#[export] Instance set_clientProposals : Setter clientProposals := ltac:(mk_setter).
#[export] Instance set_ballot : Setter ballot := ltac:(mk_setter).
#[export] Instance set_allEqual : Setter allEqual := ltac:(mk_setter).
#[export] Instance set_preAcceptOKs : Setter preAcceptOKs := ltac:(mk_setter).
#[export] Instance set_acceptOKs : Setter acceptOKs := ltac:(mk_setter).
#[export] Instance set_nacks : Setter nacks := ltac:(mk_setter).
#[export] Instance set_committedDeps : Setter committedDeps := ltac:(mk_setter).
#[export] Instance set_prepareReplies : Setter prepareReplies := ltac:(mk_setter).
#[export] Instance set_preparing : Setter preparing := ltac:(mk_setter).
#[export] Instance set_tryingToPreAccept : Setter tryingToPreAccept := ltac:(mk_setter).
#[export] Instance set_possibleQuorum : Setter possibleQuorum := ltac:(mk_setter).
#[export] Instance set_tpaReps : Setter tpaReps := ltac:(mk_setter).
#[export] Instance set_tpaAccepted : Setter tpaAccepted := ltac:(mk_setter).
#[export] Instance set_lastTriedBallot : Setter lastTriedBallot := ltac:(mk_setter).
#[export] Instance set_cmds : Setter cmds := ltac:(mk_setter).
#[export] Instance set_status : Setter status := ltac:(mk_setter).
#[export] Instance set_seq : Setter seq := ltac:(mk_setter).
#[export] Instance set_deps : Setter deps := ltac:(mk_setter).
#[export] Instance set_leaderResponded : Setter leaderResponded := ltac:(mk_setter).
#[export] Instance set_preVoters : Setter preVoters := ltac:(mk_setter).
#[export] Instance set_acceptVoters : Setter acceptVoters := ltac:(mk_setter).
#[export] Instance set_prepareVoters : Setter prepareVoters := ltac:(mk_setter).
#[export] Instance set_phaseStarted : Setter phaseStarted := ltac:(mk_setter).

Record Instance := mkInstance {
  Cmds : option (list Command);
  bal : Z; vbal : Z;
  Status : Z;
  Seq : Z;
  Deps : list Z;
  lb : option LeaderBookkeeping;
  Index : Z; Lowlink : Z;
  onStack : bool;
  proposeTime : Z }.
#[export] Instance eta_Instance : Eta Instance := λ x,
  mkInstance (Cmds x) (bal x) (vbal x) (Status x) (Seq x) (Deps x) (lb x) (Index x) (Lowlink x) (onStack x) (proposeTime x).
#[export] Instance set_Cmds : Setter Cmds := ltac:(mk_setter).
#[export] Instance set_bal : Setter bal := ltac:(mk_setter).
#[export] Instance set_vbal : Setter vbal := ltac:(mk_setter).
#[export] Instance set_Status : Setter Status := ltac:(mk_setter).
#[export] Instance set_Seq : Setter Seq := ltac:(mk_setter).
#[export] Instance set_Deps : Setter Deps := ltac:(mk_setter).
#[export] Instance set_lb : Setter lb := ltac:(mk_setter).
#[export] Instance set_Index : Setter Index := ltac:(mk_setter).
#[export] Instance set_Lowlink : Setter Lowlink := ltac:(mk_setter).
#[export] Instance set_onStack : Setter onStack := ltac:(mk_setter).

Record InstPair := mkInstPair { last : Z; lastWrite : Z }.

(** Calls of the core's ports ([corePorts]), in order. *)
Inductive event :=
  | Sent (to : Z) (m : message)                                     (* [send] *)
  | Broadcast (order : option (list Z)) (limit : Z) (m : message)   (* [broadcast] *)
  | Replied (p : Propose) (val : Value)                             (* [replyResult] *)
  | Requeued (p : Propose)                                          (* [requeueProposal] *)
  | RecordedMetadata (x : Instance)                                 (* [recordInstanceMetadata] *)
  | RecordedCommands (l : option (list Command))                    (* [recordCommands] *)
  | Synced                                                          (* [sync] *)
  | RepliedBeacon | BeaconTicked.                                   (* [replyBeacon], [beaconTick] *)

(** The clock's readings in the order [time.Now] is called, who is alive, the
    order in which peers are tried, the orders in which the maps are ranged
    over, and whether execution is on. *)
Record env := mkEnv {
  clock : nat → Z;
  peerAlive : Z → bool;
  preferredPeerOrder : list Z;
  blocked_order : list Z;
  active_order : list instanceID;
  executeEnabled : bool }.

Section Core.
Context {SM : StateMachine}.

Record core := mkCore {
  cn : Z; cf : Z; cid : Z;
  batchWait : Z;
  transconf : bool;
  thrifty : bool;
  replyAfterExecution : bool;
  instanceSpace : gmap instanceID Instance;     (* nil entries are absent *)
  crtInstance : list Z;
  committedUpTo : list Z;
  executedUpTo : list Z;
  stack : list instanceID;                      (* [scheduler.stack] *)
  conflicts : list (gmap Z InstPair);
  maxSeqPerKey : gmap Z Z;
  maxSeq : Z;
  instancesToRecover : list instanceID;
  isLeader : bool;
  maxRecvBallot : Z;
  recoveryAttempts : gmap Z (Z * Z);            (* [nextAttempt], [backoff] *)
  deferMap : gmap Z Z;
  blocked : gmap Z Z;
  active : gset instanceID;
  nextGapScan : Time;
  sm : sm_state;
  stats : gmap string Z;
  reads : nat;                                  (* of the clock *)
  out : list event;
  components : list (list instanceID) }.        (* executed, for the theorems *)
#[export] Instance eta_core : Eta core := λ c,
  mkCore (cn c) (cf c) (cid c) (batchWait c) (transconf c) (thrifty c) (replyAfterExecution c) (instanceSpace c)
    (crtInstance c) (committedUpTo c) (executedUpTo c) (stack c) (conflicts c) (maxSeqPerKey c) (maxSeq c)
    (instancesToRecover c) (isLeader c) (maxRecvBallot c) (recoveryAttempts c) (deferMap c) (blocked c) (active c)
    (nextGapScan c) (sm c) (stats c) (reads c) (out c) (components c).
#[export] Instance set_instanceSpace : Setter instanceSpace := ltac:(mk_setter).
#[export] Instance set_crtInstance : Setter crtInstance := ltac:(mk_setter).
#[export] Instance set_committedUpTo : Setter committedUpTo := ltac:(mk_setter).
#[export] Instance set_executedUpTo : Setter executedUpTo := ltac:(mk_setter).
#[export] Instance set_stack : Setter stack := ltac:(mk_setter).
#[export] Instance set_conflicts : Setter conflicts := ltac:(mk_setter).
#[export] Instance set_maxSeqPerKey : Setter maxSeqPerKey := ltac:(mk_setter).
#[export] Instance set_maxSeq : Setter maxSeq := ltac:(mk_setter).
#[export] Instance set_instancesToRecover : Setter instancesToRecover := ltac:(mk_setter).
#[export] Instance set_isLeader : Setter isLeader := ltac:(mk_setter).
#[export] Instance set_maxRecvBallot : Setter maxRecvBallot := ltac:(mk_setter).
#[export] Instance set_recoveryAttempts : Setter recoveryAttempts := ltac:(mk_setter).
#[export] Instance set_deferMap : Setter deferMap := ltac:(mk_setter).
#[export] Instance set_blocked : Setter blocked := ltac:(mk_setter).
#[export] Instance set_active : Setter active := ltac:(mk_setter).
#[export] Instance set_nextGapScan : Setter nextGapScan := ltac:(mk_setter).
#[export] Instance set_sm : Setter sm := ltac:(mk_setter).
#[export] Instance set_stats : Setter stats := ltac:(mk_setter).
#[export] Instance set_reads : Setter reads := ltac:(mk_setter).
#[export] Instance set_out : Setter out := ltac:(mk_setter).
#[export] Instance set_components : Setter components := ltac:(mk_setter).

(** [newCore]; [replyAfterExecution] is a port that reads a constant. *)
Definition newCore (n f id batchWait : Z) (transconf replyAfterExecution : bool) : core :=
  let row {A} (a : A) := replicate (Z.to_nat n) a in
  mkCore n f id batchWait transconf true replyAfterExecution ∅ (row (-1)) (row (-1)) (row (-1)) []
    (row ∅) ∅ 0 [] false (-1) ∅ ∅ ∅ ∅ None sm_init ∅ 0 [] [].

(** ** Access *)

(** A slice indexed within its length. *)
Definition at_index {A} (l : list A) (i : Z) : outcome A :=
  match index l i with Some x => Done x | None => Panicked "index out of range" end.

(** [l[i] = x] *)
Definition store {A} (l : list A) (i : Z) (x : A) : outcome (list A) :=
  _ ← at_index l i; Done (<[Z.to_nat i := x]> l).

(** [instanceSpace[q][i]]: rows of [MAX_INSTANCE] pointers. *)
Definition in_space (q i : Z) (c : core) : bool := (0 <=? q) && (q <? cn c) && (0 <=? i) && (i <? MAX_INSTANCE).
Definition space (q i : Z) (c : core) : outcome (option Instance) :=
  if in_space q i c then Done (instanceSpace c !! (q, i)) else Panicked "index out of range".

Definition deref (v : instanceID) (c : core) : outcome Instance :=
  match instanceSpace c !! v with Some x => Done x | None => Panicked "nil pointer dereference" end.

Definition put (v : instanceID) (x : Instance) (c : core) : core := c <| instanceSpace ::= <[v := x]> |>.
Definition upd (v : instanceID) (f : Instance → Instance) (c : core) : core := c <| instanceSpace ::= alter f v |>.
Definition bump (name : string) (k : Z) (c : core) : core :=
  c <| stats ::= (λ m, <[name := default 0 (m !! name) + k]> m) |>.
(** [if v > stats.M[name] { stats.M[name] = v }] *)
Definition raise_stat (name : string) (v : Z) (c : core) : core :=
  c <| stats ::= (λ m, if default 0 (m !! name) <? v then <[name := v]> m else m) |>.
Definition emit (ev : event) (c : core) : core := c <| out ::= (λ o, o ++ [ev]) |>.
Definition tick_clock (c : core) : core := c <| reads ::= S |>.

(** ** Instances *)
Definition newInstance (e : env) (cmds : option (list Command)) (cballot lballot st sq : Z) (dps : list Z) (c : core)
    : Instance * core :=
  (mkInstance cmds cballot lballot st sq dps None 0 0 false (clock e (reads c)), tick_clock c).

Definition newInstanceDefault (e : env) (c : core) : Instance * core :=
  newInstance e None (-1) (-1) STATUS_NONE (-1) [] c.

(** [if inst == nil { inst = newInstanceDefault(..); instanceSpace[..][..] = inst }] *)
Definition ensure_instance (e : env) (v : instanceID) (c : core) : outcome (Instance * core) :=
  inst ← space v.1 v.2 c;
  match inst with
  | Some x => Done (x, c)
  | None => let '(x, c) := newInstanceDefault e c in Done (x, put v x c)
  end.

Definition newNilDeps (c : core) : list Z := replicate (Z.to_nat (cn c)) (-1).
Definition allPossible (n : Z) : list bool := replicate (Z.to_nat n) true.

Definition newLeaderBookkeeping (e : env) (p : option (list Propose)) (original committed dps : list Z) (lastTried : Z)
    (cs : option (list Command)) (st sq : Z) (c : core) : outcome (LeaderBookkeeping * core) :=
  pre ← ReplicaSet.New [cid c];
  acc ← ReplicaSet.New [cid c];
  prep ← ReplicaSet.New [];
  Done (mkLB p lastTried true 0 0 0 original committed [] true false (allPossible (cn c)) 0 false lastTried
    cs st sq dps false pre acc prep (clock e (reads c)), tick_clock c).

Definition newLeaderBookkeepingDefault (e : env) (c : core) : outcome (LeaderBookkeeping * core) :=
  newLeaderBookkeeping e None (newNilDeps c) (newNilDeps c) (newNilDeps c) 0 None STATUS_NONE (-1) c.

(** The bookkeeping behind [inst.lb], written back. *)
Definition put_lb (v : instanceID) (b : LeaderBookkeeping) (c : core) : core := upd v (set lb (λ _, Some b)) c.

(** ** Ballots and batches *)
Definition isInitialBallot (blt replica : Z) : bool := blt =? replica.

(** The next ballot of this replica above every ballot it has seen. *)
Definition nextBallot (x : Instance) (c : core) : Z :=
  let high := if bal x <? maxRecvBallot c then maxRecvBallot c else bal x in
  i32 (i32 (i32 (Z.quot high (cn c) + 1) * cn c) + cid c).

Definition makeBallot (v : instanceID) (c : core) : outcome core :=
  x ← deref v c;
  match lb x with
  | None => Panicked "nil pointer dereference"
  | Some b => Done (put_lb v (b <| lastTriedBallot := nextBallot x c |>) c)
  end.

Definition raise_ballot (b : Z) (c : core) : core :=
  if maxRecvBallot c <? b then c <| maxRecvBallot := b |> else c.

(** [if instance > crtInstance[replica] { crtInstance[replica] = instance }] *)
Definition raise_crt (replica instance : Z) (c : core) : outcome core :=
  crt ← at_index (crtInstance c) replica;
  Done (if crt <? instance then c <| crtInstance ::= <[Z.to_nat replica := instance]> |> else c).

Definition BatchingEnabled (c : core) : bool := 0 <? batchWait c.
Definition maxBatchCommands (c : core) : Z := if negb (BatchingEnabled c) then 1 else MAX_BATCH.
Definition FastQuorumSize (c : core) : Z := cf c + (cf c + 1) / 2.
Definition SlowQuorumSize (c : core) : Z := (cn c + 1) / 2.

Definition fastQuorumAvailable (e : env) (c : core) : bool :=
  let live := Z.of_nat (length (filter (λ i, peerAlive e i = true) (rangeZ 0 (cn c - 1)))) in
  FastQuorumSize c <=? live.

(** The statistics of a batch. *)
Definition count_batch (size proposalQueue : Z) (c : core) : core :=
  raise_stat "maxProposalQueue" proposalQueue (raise_stat "maxBatchSize" size
    (bump "proposedCommands" size (bump "totalBatchingSize" size (bump "totalBatching" 1 c)))).

Definition beginProposalBatch (proposalQueue : Z) (c : core) : outcome (Z * core) :=
  let size := proposalQueue + 1 in
  let size := if maxBatchCommands c <? size then maxBatchCommands c else size in
  let c := count_batch size proposalQueue c in
  crt ← at_index (crtInstance c) (cid c);
  Done (size, c <| crtInstance ::= <[Z.to_nat (cid c) := i32 (crt + 1)]> |>).

(** ** The committed prefix of a row *)
Definition settled_status (x : Instance) : bool := (Status x =? COMMITTED) || (Status x =? EXECUTED).

Fixpoint updateCommitted_loop (fuel : nat) (replica : Z) (c : core) : outcome core :=
  match fuel with
  | O => OutOfFuel
  | S fuel =>
      upto ← at_index (committedUpTo c) replica;
      inst ← space replica (i32 (upto + 1)) c;
      match inst with
      | Some x =>
          if settled_status x
          then updateCommitted_loop fuel replica (c <| committedUpTo ::= <[Z.to_nat replica := i32 (upto + 1)]> |>)
          else Done c
      | None => Done c
      end
  end.
(** Each round passes an instance. *)
Definition updateCommitted (replica : Z) (c : core) : outcome core :=
  updateCommitted_loop (S (size (instanceSpace c))) replica c.

Definition recoveryKey (replica slot : Z) : Z := Z.lor (Z.shiftl (u32 replica) 32) (u32 slot).
Definition clearRecovery (replica slot : Z) (c : core) : core :=
  c <| recoveryAttempts ::= delete (recoveryKey replica slot) |>.

(** ** The conflict index *)
Definition max_seq_key (k sq : Z) (m : gmap Z Z) : gmap Z Z :=
  match m !! k with
  | Some s => if s <? sq then <[k := sq]> m else m
  | None => <[k := sq]> m
  end.

(** The pair of a key after command [cmd] of instance [instance]. *)
Definition index_command (instance : Z) (cmd : Command) (row : gmap Z InstPair) : gmap Z InstPair :=
  let write := negb (Op cmd =? GET) in
  match row !! K cmd with
  | Some p =>
      <[K cmd := mkInstPair (if last p <? instance then instance else last p)
                            (if (lastWrite p <? instance) && write then instance else lastWrite p)]> row
  | None => <[K cmd := mkInstPair instance (if write then instance else -1)]> row
  end.

Definition updateConflicts_command (replica instance sq : Z) (cmd : Command) (c : core) : outcome core :=
  row ← at_index (conflicts c) replica;
  Done (c <| conflicts ::= <[Z.to_nat replica := index_command instance cmd row]> |>
          <| maxSeqPerKey ::= max_seq_key (K cmd) sq |>).

Definition updateConflicts (cs : option (list Command)) (replica instance sq : Z) (c : core) : outcome core :=
  forEach (updateConflicts_command replica instance sq) (default [] cs) c.

(** ** Attributes *)
Abbreviation attributes := (Z * list Z * bool)%type.   (* [seq], [deps], [changed] *)

(** The inner loop of row [q]: it ends at the first command that raises
    [deps[q]]. *)
Fixpoint updateAttributes_row (c : core) (replica instance q : Z) (cs : list Command) (a : attributes) : outcome attributes :=
  match cs with
  | [] => Done a
  | cmd :: cs =>
      let '(sq, dps, _) := a in
      row ← at_index (conflicts c) q;
      match row !! K cmd with
      | Some p =>
          let d := if negb (Op cmd =? GET) then last p else lastWrite p in
          if (q =? replica) && (instance <=? d) then updateAttributes_row c replica instance q cs a else
          dq ← at_index dps q;
          if dq <? d then
            inst ← space q d c;
            match inst with
            | None => Panicked "nil pointer dereference"
            | Some x => Done (if sq <=? Seq x then i32 (Seq x + 1) else sq, <[Z.to_nat q := d]> dps, true)
            end
          else updateAttributes_row c replica instance q cs a
      | None => updateAttributes_row c replica instance q cs a
      end
  end.

Definition updateAttributes_key (c : core) (a : attributes) (cmd : Command) : attributes :=
  let '(sq, dps, changed) := a in
  match maxSeqPerKey c !! K cmd with
  | Some s => if sq <=? s then (i32 (s + 1), dps, true) else a
  | None => a
  end.

Definition updateAttributes (cs : option (list Command)) (sq : Z) (dps : list Z) (replica instance : Z) (c : core)
    : outcome attributes :=
  let l := default [] cs in
  a ← forEach (λ q a,
        if negb (cid c =? replica) && (q =? replica) then Done a
        else updateAttributes_row c replica instance q l a)
      (rangeZ 0 (cn c - 1)) (sq, dps, false);
  Done (foldl (updateAttributes_key c) a l).

(** One round of the merge loop; [deps1] is updated in place. *)
Definition merge_row (deps2 : list Z) (q : Z) (a : list Z * bool) : outcome (list Z * bool) :=
  let '(deps1, same) := a in
  d1 ← at_index deps1 q;
  d2 ← at_index deps2 q;
  if d1 =? d2 then Done a
  else Done (if d1 <? d2 then <[Z.to_nat q := d2]> deps1 else deps1, false).

Definition mergeAttributes (seq1 : Z) (deps1 : list Z) (seq2 : Z) (deps2 : list Z) (c : core) : outcome attributes :=
  '(dps, same) ← forEach (merge_row deps2) (rangeZ 0 (cn c - 1)) (deps1, seq1 =? seq2);
  Done (if negb (seq1 =? seq2) && (seq1 <? seq2) then seq2 else seq1, dps, same).

(** [equal] *)
Definition equal (deps1 deps2 : list Z) : bool := bool_decide (deps1 = deps2).
End Core.
End Epaxos.
