(* ===== verification/EpaxosCore.v ===== *)
(** * EpaxosCore: pre-accept, accept and commit ([epaxos/core.go])

    Proposing a batch, the handlers of the ordering messages with every early
    return, the two commit paths, and the broadcasts of each phase.  [bcast*]
    recover from panics, so they always return. *)
From stdpp Require Import gmap strings list fin_maps fin_sets.
From Stdlib Require Import Lia.
From S2P Require Import Prelude State ReplicaSet Defs Epaxos.

Module EpaxosCore.
Import Epaxos.
Section Ordering.
Context {SM : StateMachine}.

(** ** Broadcasts: who is addressed, in which order, how many are tried *)

(** [newTransportState] *)
Definition cyclicPeers (c : core) : list Z := (λ offset, Z.rem (cid c + offset) (cn c)) <$> rangeZ 1 (cn c - 1).

(** The body runs with the instance's bookkeeping; a panic inside it is
    recovered before anything is sent. *)
Definition bcast (v : instanceID) (body : LeaderBookkeeping → core → core) (c : core) : core :=
  match space v.1 v.2 c with
  | Done (Some x) => match lb x with Some b => body b c | None => c end
  | _ => c
  end.

(** [preferredPeerOrder()[:n-1]] *)
Definition preferred (e : env) (limit : Z) (m : message) (c : core) : core :=
  if Z.of_nat (length (preferredPeerOrder e)) <? cn c - 1 then c
  else emit (Broadcast (Some (take (Z.to_nat (cn c - 1)) (preferredPeerOrder e))) limit m) c.

Definition bcastPrepare (v : instanceID) : core → core :=
  bcast v (λ b c, emit (Broadcast (Some (cyclicPeers c)) (cn c - 1)
    (MPrepare (mkPrepare (cid c) v.1 v.2 (lastTriedBallot b)))) c).

(** The message of a phase, from the bookkeeping. *)
Definition phase_message (v : instanceID) (blt : Z) (b : LeaderBookkeeping) (c : core) : Attributes :=
  mkAttributes (cid c) v.1 v.2 blt (cmds b) (seq b) (deps b).

Definition bcastPreAccept (e : env) (v : instanceID) : core → core :=
  bcast v (λ b c, preferred e (if thrifty c then FastQuorumSize c - 1 else cn c - 1)
    (MPreAccept (phase_message v (lastTriedBallot b) b c)) c).

Definition bcastTryPreAccept (v : instanceID) : core → core :=
  bcast v (λ b c, emit (Broadcast None (cn c - 1) (MTryPreAccept (phase_message v (lastTriedBallot b) b c))) c).

Definition bcastAccept (e : env) (v : instanceID) : core → core :=
  bcast v (λ b c, preferred e (if thrifty c then cn c / 2 else cn c - 1)
    (MAccept (phase_message v (lastTriedBallot b) b c)) c).

Definition bcastCommit (e : env) (v : instanceID) : core → core :=
  bcast v (λ b c, preferred e (cn c - 1) (MCommit (phase_message v (ballot b) b c)) c).

(** [recordInstanceMetadata(instanceSpace[..][..])], [sync()] *)
Definition record_instance (v : instanceID) (c : core) : outcome core :=
  x ← deref v c; Done (emit (RecordedMetadata x) c).

(** ** Proposing *)
Definition startPhase1 (e : env) (cs : option (list Command)) (v : instanceID) (blt : Z)
    (proposals : option (list Propose)) (c : core) : outcome core :=
  let c := c <| active ::= (λ s, {[ v ]} ∪ s) |> in
  c ← raise_crt v.1 v.2 c;
  dps ← store (newNilDeps c) v.1 (i32 (v.2 - 1));
  '(sq, dps, _) ← updateAttributes cs 0 dps v.1 v.2 c;
  let '(inst, c) := newInstance e cs blt blt PREACCEPTED sq dps c in
  '(b, c) ← newLeaderBookkeeping e proposals dps (newNilDeps c) dps blt cs PREACCEPTED sq c;
  _ ← space v.1 v.2 c;
  let c := put v (inst <| lb := Some (b <| preparing := false |>) |>) c in
  c ← updateConflicts cs v.1 v.2 sq c;
  let c := if maxSeq c <=? sq then c <| maxSeq := sq |> else c in
  c ← record_instance v c;
  let c := emit Synced (emit (RecordedCommands cs) c) in
  Done (bcastPreAccept e v c).

Definition submit (e : env) (proposals : list Propose) (c : core) : outcome core :=
  crt ← at_index (crtInstance c) (cid c);
  startPhase1 e (Some (PCommand <$> proposals)) (cid c, crt) (cid c) (Some proposals) c.

(** ** Pre-accept *)
Definition reply_preAccept (m : PreAccept) (v : instanceID) (c : core) : outcome core :=
  x ← deref v c;
  Done (emit (Sent (m_LeaderId m) (MPreAcceptReply
    (mkPreAcceptReply (m_Replica m) (m_Instance m) (bal x) (vbal x) (Seq x) (Deps x) (committedUpTo c) (Status x) (cid c)))) c).

Definition handlePreAccept (e : env) (m : PreAccept) (c : core) : outcome core :=
  let v := (m_Replica m, m_Instance m) in
  _ ← space v.1 v.2 c;
  let c := if maxSeq c <=? m_Seq m then c <| maxSeq := i32 (m_Seq m + 1) |> else c in
  let c := raise_ballot (m_Ballot m) c in
  c ← raise_crt v.1 v.2 c;
  '(x, c) ← ensure_instance e v c;
  if m_Ballot m <? bal x then Done c else
  let c := upd v (set bal (λ _, m_Ballot m)) c in
  if ACCEPTED <=? Status x then
    if bool_decide (Cmds x = None) then
      let c := upd v (set Cmds (λ _, m_Command m)) c in
      c ← updateConflicts (m_Command m) v.1 v.2 (m_Seq m) c;
      reply_preAccept m v (emit Synced (emit (RecordedCommands (m_Command m)) c))
    else reply_preAccept m v c
  else if negb (vbal x =? m_Ballot m) || (Status x =? STATUS_NONE) then
    '(sq, dps, changed) ← updateAttributes (m_Command m) (m_Seq m) (m_Deps m) v.1 v.2 c;
    let st := if changed : bool then PREACCEPTED else PREACCEPTED_EQ in
    let c := upd v (λ x, x <| Cmds := m_Command m |> <| Seq := sq |> <| Deps := dps |> <| bal := m_Ballot m |>
                           <| vbal := m_Ballot m |> <| Status := st |>) c in
    c ← updateConflicts (m_Command m) v.1 v.2 (m_Seq m) c;
    c ← record_instance v c;
    reply_preAccept m v (emit Synced (emit (RecordedCommands (m_Command m)) c))
  else reply_preAccept m v c.

(** A nack: past half of them a leader tries a higher ballot. *)
Definition nack (v : instanceID) (b : LeaderBookkeeping) (c : core) : outcome core :=
  let b := b <| nacks ::= (λ k, k + 1) |> in
  let c := put_lb v b c in
  if (Z.shiftr (cn c) 1 <? nacks b + 1) && isLeader c then c ← makeBallot v c; Done (bcastPrepare v c)
  else Done c.

(** The acceptor counts if it is a replica that has not answered yet. *)
Definition count_voter (acceptor : Z) (voters : Z) (c : core) : option Z :=
  if (acceptor <? 0) || (cn c <=? acceptor) then None
  else let '(fresh, voters') := ReplicaSet.Add voters acceptor in if fresh : bool then Some voters' else None.

(** The commit watermarks the replies report, for more than 7 replicas. *)
Definition merge_committed (x : Instance) (r : PreAcceptReply) (c : core) (q : Z) (a : list Z * bool) : outcome (list Z * bool) :=
  let '(com, all) := a in
  cq ← at_index com q;
  rq ← at_index (par_CommittedDeps r) q;
  uq ← at_index (committedUpTo c) q;
  dq ← at_index (Deps x) q;
  let cq := if cq <? rq then rq else cq in
  let cq := if cq <? uq then uq else cq in
  Done (<[Z.to_nat q := cq]> com, if cq <? dq then false else all).

Definition merge_all_committed (x : Instance) (r : PreAcceptReply) (com : list Z) (c : core) : outcome (list Z * bool) :=
  if 7 <? cn c then forEach (merge_committed x r c) (rangeZ 0 (cn c - 1)) (com, true) else Done (com, true).

(** [inst] takes what the bookkeeping holds. *)
Definition adopt_lb (b : LeaderBookkeeping) (x : Instance) : Instance :=
  x <| Status := status b |> <| bal := ballot b |> <| Cmds := cmds b |> <| Deps := deps b |> <| Seq := seq b |> <| lb := Some b |>.

(** Replies at commit, unless they wait for the execution. *)
Definition reply_clients (b : LeaderBookkeeping) (c : core) : core :=
  if replyAfterExecution c then c
  else foldl (λ c p, bump "clientReplies" 1 (emit (Replied p NIL) c)) c (default [] (clientProposals b)).

(** [if inst.proposeTime != 0 { totalCommitTime += now - proposeTime }] *)
Definition commit_time (e : env) (x : Instance) (c : core) : core :=
  if proposeTime x =? 0 then c
  else bump "totalCommitTime" (i64 (clock e (reads c) - proposeTime x)) (tick_clock c).

(** What a counted reply makes of the bookkeeping, and whether all
    dependencies are known to be committed. *)
Definition merge_reply (x : Instance) (r : PreAcceptReply) (b : LeaderBookkeeping) (c : core)
    : outcome (LeaderBookkeeping * bool * core) :=
  let b := b <| preAcceptOKs ::= (λ k, k + 1) |> in
  let b := if ballot b <? par_VBallot r
    then b <| ballot := par_VBallot r |> <| seq := par_Seq r |> <| deps := par_Deps r |> <| status := par_Status r |> else b in
  '(sq, dps, same) ← mergeAttributes (seq b) (deps b) (par_Seq r) (par_Deps r) c;
  let ignore := (cn c <=? 3) && thrifty c in
  let b := if ignore then b else b <| allEqual ::= (λ a, a && same) |> in
  let c := if negb ignore && negb same then bump "conflicted" 1 c else c in
  '(com, allCommitted) ← merge_all_committed x r (committedDeps b) c;
  let b := b <| committedDeps := com |> <| deps := dps |> in
  let b := if status b <=? PREACCEPTED_EQ then b <| seq := sq |> else b in
  Done (b, allCommitted, c).

Definition commit_fast (e : env) (v : instanceID) (b : LeaderBookkeeping) (c : core) : outcome core :=
  let b := b <| status := COMMITTED |> in
  let c := upd v (adopt_lb b) c in
  c ← record_instance v c;
  c ← updateCommitted v.1 (emit Synced c);
  let c := bcastCommit e v (reply_clients b (clearRecovery v.1 v.2 c)) in
  x ← deref v c;
  Done (commit_time e x (bump "fast" 1 c)).

Definition accept_slow (e : env) (v : instanceID) (b : LeaderBookkeeping) (allCommitted : bool) (c : core) : outcome core :=
  let b := b <| status := ACCEPTED |> in
  let c := upd v (adopt_lb b) c in
  c ← record_instance v c;
  let c := bump "slow" 1 (bcastAccept e v (emit Synced c)) in
  Done (if allCommitted then c else bump "weird" 1 c).

Definition handlePreAcceptReply (e : env) (r : PreAcceptReply) (c : core) : outcome core :=
  let v := (par_Replica r, par_Instance r) in
  inst ← space v.1 v.2 c;
  match inst ≫= λ x, (λ b, (x, b)) <$> lb x with
  | None => Done c
  | Some (x, b) =>
      if preparing b || tryingToPreAccept b || negb (bal x =? lastTriedBallot b) then Done c else
      let c := raise_ballot (par_Ballot r) c in
      if par_Ballot r <? lastTriedBallot b then Done c else
      if lastTriedBallot b <? par_Ballot r then nack v b c else
      if negb (status b =? PREACCEPTED) && negb (status b =? PREACCEPTED_EQ) then Done c else
      match count_voter (par_AcceptorId r) (preVoters b) c with
      | None => Done c
      | Some voters =>
          let initial := isInitialBallot (lastTriedBallot b) (par_Replica r) in
          '(b, allCommitted, c) ← merge_reply x r (b <| preVoters := voters |>) c;
          let c := put_lb v b c in
          let precondition := allEqual b && allCommitted && initial in
          if (FastQuorumSize c - 1 <=? preAcceptOKs b) && precondition then commit_fast e v b c
          else if (cn c / 2 <=? preAcceptOKs b) && (negb precondition || negb (fastQuorumAvailable e c))
          then accept_slow e v b allCommitted c
          else Done c
      end
  end.

(** ** Accept *)
Definition handleAccept (e : env) (m : Accept) (c : core) : outcome core :=
  let v := (m_Replica m, m_Instance m) in
  _ ← space v.1 v.2 c;
  let c := raise_ballot (m_Ballot m) c in
  c ← raise_crt v.1 v.2 c;
  '(x, c) ← ensure_instance e v c;
  c ← (if m_Ballot m <? bal x then Done c
       else if COMMITTED <=? Status x then Done c
       else
         let c := upd v (λ x, x <| Deps := m_Deps m |> <| Seq := m_Seq m |> <| bal := m_Ballot m |> <| vbal := m_Ballot m |>
                                <| Status := ACCEPTED |> <| Cmds := m_Command m |>) c in
         c ← updateConflicts (m_Command m) v.1 v.2 (m_Seq m) c;
         c ← record_instance v c;
         Done (emit Synced c));
  x ← deref v c;
  Done (emit (Sent (m_LeaderId m) (MAcceptReply (mkAcceptReply (m_Replica m) (m_Instance m) (bal x) (cid c)))) c).

Definition commit_slow (e : env) (v : instanceID) (b : LeaderBookkeeping) (c : core) : outcome core :=
  let b := b <| status := COMMITTED |> in
  let c := upd v (λ x, x <| Status := COMMITTED |> <| lb := Some b |>) c in
  c ← updateCommitted v.1 c;
  c ← record_instance v (clearRecovery v.1 v.2 c);
  let c := bcastCommit e v (reply_clients b (emit Synced c)) in
  x ← deref v c;
  Done (commit_time e x c).

Definition handleAcceptReply (e : env) (r : AcceptReply) (c : core) : outcome core :=
  let v := (ar_Replica r, ar_Instance r) in
  inst ← space v.1 v.2 c;
  match inst ≫= λ x, (λ b, (x, b)) <$> lb x with
  | None => Done c
  | Some (x, b) =>
      if preparing b || negb (bal x =? lastTriedBallot b) then Done c else
      let c := raise_ballot (ar_Ballot r) c in
      if negb (status b =? ACCEPTED) then Done c else
      if negb (lastTriedBallot b =? ar_Ballot r) then Done c else
      if lastTriedBallot b <? ar_Ballot r then nack v b c else
      match count_voter (ar_AcceptorId r) (acceptVoters b) c with
      | None => Done c
      | Some voters =>
          let b := b <| acceptVoters := voters |> <| acceptOKs ::= (λ k, k + 1) |> in
          let c := put_lb v b c in
          if cn c / 2 <? acceptOKs b + 1 then commit_slow e v b c else Done c
      end
  end.

(** ** Commit *)

(** The owner proposes again what a recovery replaced by a no-op. *)
Definition requeue_replaced (m : Commit) (v : instanceID) (x : Instance) (c : core) : core :=
  match lb x, m_Command m with
  | Some b, Some [cmd] =>
      if (m_Replica m =? cid c) && (Op cmd =? NONE) && bool_decide (is_Some (clientProposals b)) then
        let c := foldl (λ c p, emit (Requeued p) c) c (default [] (clientProposals b)) in
        put_lb v (b <| clientProposals := None |>) c
      else c
  | _, _ => c
  end.

Definition handleCommit (e : env) (m : Commit) (c : core) : outcome core :=
  let v := (m_Replica m, m_Instance m) in
  _ ← space v.1 v.2 c;
  c ← raise_crt v.1 v.2 c;
  let c := raise_ballot (m_Ballot m) c in
  '(x, c) ← ensure_instance e v c;
  if COMMITTED <=? Status x then Done c else
  let c := requeue_replaced m v x c in
  let c := upd v (λ x, x <| bal ::= (λ b, if b <? m_Ballot m then m_Ballot m else b) |> <| vbal := m_Ballot m |>
                         <| Cmds := m_Command m |> <| Seq := m_Seq m |> <| Deps := m_Deps m |> <| Status := COMMITTED |>) c in
  c ← updateConflicts (m_Command m) v.1 v.2 (m_Seq m) c;
  c ← updateCommitted v.1 c;
  c ← record_instance v (clearRecovery v.1 v.2 c);
  Done (emit (RecordedCommands (m_Command m)) c).
End Ordering.
End EpaxosCore.
