(* ===== verification/EpaxosRecovery.v ===== *)
(** * EpaxosRecovery: instance recovery of EPaxos ([epaxos/recovery.go])

    Recovery attempts with back-off, the prepare phase, the choice of the value
    from the evidence, the tentative pre-accept of the original optimized
    recovery, deferral, and the periodic repair of gaps.  Maps are ranged over
    in the order the environment gives. *)
From stdpp Require Import gmap strings list fin_maps fin_sets.
From Stdlib Require Import Lia.
From S2P Require Import Prelude State ReplicaSet Defs Epaxos EpaxosCore.

Module EpaxosRecovery.
Import Epaxos EpaxosCore.
Section Recovery.
Context {SM : StateMachine}.

Definition handleLeaderCall (c : core) : core := c <| isLeader := true |>.

(** ** Scheduling: the channel takes the instance if it has room. *)
Definition scheduleRecovery (replica slot now : Z) (c : core) : bool * core :=
  let key := recoveryKey replica slot in
  let attempt := recoveryAttempts c !! key in
  let early := match attempt with Some (nextAttempt, _) => now <? nextAttempt | None => false end in
  if early then (false, bump "recoverySuppressed" 1 c) else
  let backoff := match attempt with
    | Some (_, b) => if MAX_RECOVERY_BACKOFF <? b * 2 then MAX_RECOVERY_BACKOFF else b * 2
    | None => INITIAL_RECOVERY_BACKOFF end in
  let c := c <| recoveryAttempts ::= <[key := (now + backoff, backoff)]> |> in
  if Z.of_nat (length (instancesToRecover c)) <? CHAN_BUFFER_SIZE
  then (true, bump "recoveryScheduled" 1 (c <| instancesToRecover ::= (λ l, l ++ [(replica, slot)]) |>))
  else (false, bump "recoveryQueueFull" 1 c).

Definition recoveryCoordinator (e : env) (owner : Z) (c : core) : Z :=
  if peerAlive e owner then owner
  else default (cid c) (list_find (λ i, peerAlive e i = true) (rangeZ 0 (cn c - 1)) ≫= λ p, Some p.2).

Definition blockedOn (e : env) (owner slot now : Z) (c : core) : outcome core :=
  c ← raise_crt owner slot c;
  let key := recoveryKey owner slot in
  match blocked c !! key with
  | None => Done (bump "dependencyBlocks" 1 (c <| blocked ::= <[key := now]> |>))
  | Some first =>
      if now - first <? COMMIT_GRACE_PERIOD then Done c else
      let c := c <| blocked ::= <[key := now]> |> in
      let target := recoveryCoordinator e owner c in
      if target =? cid c then Done (scheduleRecovery owner slot now c).2
      else Done (emit (Sent target (MRepairRequest (mkRepairRequest owner slot))) c)
  end.

(** ** Prepare *)

(** Committed, with its commands known. *)
Definition known_committed (x : Instance) : bool := (COMMITTED <=? Status x) && bool_decide (is_Some (Cmds x)).

(** The reply to a prepare, of this replica. *)
Definition prepare_reply (v : instanceID) (x : Instance) (c : core) : PrepareReply :=
  mkPrepareReply (vbal x) (cid c) v.1 v.2 (bal x) (Status x) (Cmds x) (Seq x) (Deps x).

Definition startRecoveryForInstance (e : env) (v : instanceID) (c : core) : outcome core :=
  let c := c <| active ::= (λ s, {[ v ]} ∪ s) |> in
  inst ← space v.1 v.2 c;
  if bool_decide (from_option known_committed false inst) then Done (clearRecovery v.1 v.2 c) else
  '(x, c) ← ensure_instance e v c;
  let proposals := lb x ≫= clientProposals in
  '(b, c) ← newLeaderBookkeepingDefault e c;
  let b := b <| clientProposals := proposals |> <| ballot := vbal x |> <| seq := Seq x |> <| cmds := Cmds x |>
             <| deps := Deps x |> <| status := Status x |> in
  let b := b <| lastTriedBallot := nextBallot x c |> in
  let x := x <| bal := lastTriedBallot b |> in
  let b := b <| prepareVoters ::= (λ s, (ReplicaSet.Add s (cid c)).2) |>
             <| prepareReplies ::= (λ l, l ++ [prepare_reply v x c]) |>
             <| leaderResponded := cid c =? v.1 |> in
  Done (bcastPrepare v (put v (x <| lb := Some b |>) c)).

Definition handlePrepare (e : env) (m : Prepare) (c : core) : outcome core :=
  let v := (p_Replica m, p_Instance m) in
  _ ← space v.1 v.2 c;
  let c := raise_ballot (p_Ballot m) c in
  '(x, c) ← ensure_instance e v c;
  let x := if bal x <? p_Ballot m then x <| bal := p_Ballot m |> else x in
  Done (emit (Sent (p_LeaderId m) (MPrepareReply (prepare_reply v x c))) (put v x c)).

(** *** The evidence *)

(** [reply] beats the best so far: a higher ballot, then a higher status. *)
Definition stronger (reply : PrepareReply) (chosen : option PrepareReply) : bool :=
  match chosen with
  | None => true
  | Some ch => (pr_VBallot ch <? pr_VBallot reply) ||
               ((pr_VBallot reply =? pr_VBallot ch) && (pr_Status ch <? pr_Status reply))
  end.

(** The loop over the replies; a committed one ends it. *)
Fixpoint select_evidence (replica : Z) (replies : list PrepareReply) (chosen : option PrepareReply) (responded : bool)
    : option PrepareReply * bool :=
  match replies with
  | [] => (chosen, responded)
  | r :: replies =>
      let responded := responded || (pr_AcceptorId r =? replica) in
      if COMMITTED <=? pr_Status r then (Some r, responded)
      else if pr_Status r =? STATUS_NONE then select_evidence replica replies chosen responded
      else select_evidence replica replies (if stronger r chosen then Some r else chosen) responded
  end.

(** [sameCommands] *)
Definition sameCommands (a b : option (list Command)) : bool :=
  bool_decide (default [] a = default [] b).

Definition is_preaccepted (s : Z) : bool := (s =? PREACCEPTED) || (s =? PREACCEPTED_EQ).

Definition agrees_with (chosen r : PrepareReply) : bool :=
  (pr_VBallot r =? pr_VBallot chosen) && (pr_Seq r =? pr_Seq chosen) && equal (pr_Deps r) (pr_Deps chosen) &&
  sameCommands (pr_Command r) (pr_Command chosen).

(** [matching], [allEqual] *)
Definition count_matching (replica : Z) (chosen : PrepareReply) (a : Z * bool) (r : PrepareReply) : Z * bool :=
  let '(matching, all) := a in
  if negb (is_preaccepted (pr_Status r)) then a
  else if negb (agrees_with chosen r) then (matching, false)
  else if negb (pr_AcceptorId r =? replica) then (matching + 1, all)
  else a.

(** ** Tentative pre-accept *)

(** The search of row [q] for a conflict: [Some] ends the search, [None] goes
    on to the next row. *)
Fixpoint find_row (cs : option (list Command)) (replica instance sq : Z) (dps : list Z) (q : Z) (slots : list Z) (c : core)
    : outcome (option instanceID) :=
  match slots with
  | [] => Done None
  | i :: slots =>
      if i =? -1 then find_row cs replica instance sq dps q slots c else
      if (replica =? q) && (instance =? i) then Done None else
      dq ← at_index dps q;
      if i =? dq then find_row cs replica instance sq dps q slots c else
      inst ← space q i c;
      match inst with
      | None => find_row cs replica instance sq dps q slots c
      | Some x =>
          if bool_decide (default [] (Cmds x) = []) then find_row cs replica instance sq dps q slots c else
          dr ← at_index (Deps x) replica;
          if instance <=? dr then find_row cs replica instance sq dps q slots c else
          clash ← ConflictBatch (default [] (Cmds x)) (default [] cs);
          if clash && ((dq <? i) || ((i <? dq) && (sq <=? Seq x) && (negb (q =? replica) || (PREACCEPTED_EQ <? Status x))))
          then Done (Some (q, i))
          else find_row cs replica instance sq dps q slots c
      end
  end.

Fixpoint find_rows (cs : option (list Command)) (replica instance sq : Z) (dps : list Z) (qs : list Z) (c : core)
    : outcome (option instanceID) :=
  match qs with
  | [] => Done None
  | q :: qs =>
      upto ← at_index (executedUpTo c) q;
      crt ← at_index (crtInstance c) q;
      found ← find_row cs replica instance sq dps q (rangeZ upto crt) c;
      match found with Some w => Done (Some w) | None => find_rows cs replica instance sq dps qs c end
  end.

(** The position of the conflict, if there is one. *)
Definition findPreAcceptConflicts (cs : option (list Command)) (replica instance sq : Z) (dps : list Z) (c : core)
    : outcome (option instanceID) :=
  inst ← space replica instance c;
  let known := inst ≫= λ x, if bool_decide (default [] (Cmds x) = []) then None else Some x in
  match known with
  | Some x =>
      if ACCEPTED <=? Status x then Done (Some (replica, instance))
      else if (Seq x =? sq) && equal (Deps x) dps then Done None
      else find_rows cs replica instance sq dps (rangeZ 0 (cn c - 1)) c
  | None => find_rows cs replica instance sq dps (rangeZ 0 (cn c - 1)) c
  end.

(** [uint64(r)<<32 | uint64(i)] *)
Definition deferKey (r i : Z) : Z := Z.lor (u64 (Z.shiftl (u64 r) 32)) (u64 i).
Definition updateDeferred (dr di r i : Z) (c : core) : core := c <| deferMap ::= <[deferKey r i := deferKey dr di]> |>.
Definition deferredByInstance (q i : Z) (c : core) : option (Z * Z) :=
  daux ← deferMap c !! deferKey q i; Some (i32 (Z.shiftr daux 32), i32 daux).

(** The bookkeeping turns to the accept phase of its value. *)
Definition accept_value (v : instanceID) (b : LeaderBookkeeping) : core → core :=
  upd v (λ x, x <| Cmds := cmds b |> <| Seq := seq b |> <| Deps := deps b |> <| Status := ACCEPTED |>
                <| vbal := lastTriedBallot b |> <| lb := Some b |>).

(** Giving up: the instance is pre-accepted again. *)
Definition restart (e : env) (v : instanceID) (b : LeaderBookkeeping) (c : core) : outcome core :=
  startPhase1 e (cmds b) v (lastTriedBallot b) (clientProposals b) c.

(** A refusal rules out its sender and the conflicting row from the quorum. *)
Definition rule_out (r : TryPreAcceptReply) (c : core) (b : LeaderBookkeeping) : outcome LeaderBookkeeping :=
  pq ← store (possibleQuorum b) (tpr_AcceptorId r) false;
  let cr := tpr_ConflictReplica r in
  pq ← (if (0 <=? cr) && (cr <? cn c) then store pq cr false else Done pq);
  Done (b <| nacks ::= (λ k, k + 1) |> <| possibleQuorum := pq |>).

(** What follows a counted answer that does not complete the quorum. *)
Definition after_refusal (e : env) (v : instanceID) (r : TryPreAcceptReply) (b : LeaderBookkeeping) (c : core) : outcome core :=
  let b := b <| tpaAccepted ::= (λ a, a || (ACCEPTED <=? tpr_ConflictStatus r)) |> in
  if (SlowQuorumSize c - 1 <=? tpaReps b) && tpaAccepted b then
    let b := b <| tryingToPreAccept := false |> in restart e v b (put_lb v b c)
  else
  let notInQuorum := Z.of_nat (length (filter (λ p, p = false) (possibleQuorum b))) in
  cycle ← (if notInQuorum =? cn c / 2 then
             match deferredByInstance v.1 v.2 c with
             | Some (dq, _) => at_index (possibleQuorum b) dq
             | None => Done false
             end
           else Done false);
  if cycle : bool then
    let b := b <| tryingToPreAccept := false |> in
    x ← deref v c;
    let b := b <| lastTriedBallot := nextBallot x c |> in
    restart e v b (put_lb v b c)
  else if (SlowQuorumSize c <=? tpaReps b) && (0 <=? tpr_ConflictReplica r) then
    let c := updateDeferred v.1 v.2 (tpr_ConflictReplica r) (tpr_ConflictInstance r) c in
    Done (put_lb v (b <| tryingToPreAccept := false |>) c)
  else Done (put_lb v b c).

Definition handleTryPreAcceptReply (e : env) (r : TryPreAcceptReply) (c : core) : outcome core :=
  let v := (tpr_Replica r, tpr_Instance r) in
  _ ← space v.1 v.2 c;
  let c := raise_ballot (tpr_Ballot r) c in
  '(x, c) ← ensure_instance e v c;
  match lb x with
  | None => Done c
  | Some b =>
      if negb (tryingToPreAccept b) || negb (tpr_Ballot r =? lastTriedBallot b) then Done c else
      match count_voter (tpr_AcceptorId r) (preVoters b) c with
      | None => Done c
      | Some voters =>
          let b := b <| preVoters := voters |> <| tpaReps ::= (λ k, k + 1) |> in
          if (tpr_VBallot r =? lastTriedBallot b) && (tpr_ConflictReplica r <? 0) then
            let b := b <| preAcceptOKs ::= (λ k, k + 1) |> in
            if SlowQuorumSize c <=? preAcceptOKs b then
              let b := b <| status := ACCEPTED |> <| tryingToPreAccept := false |> <| acceptOKs := 0 |> in
              let c := upd v (set bal (λ _, lastTriedBallot b)) (accept_value v b c) in
              Done (bcastAccept e v c)
            else after_refusal e v r b c
          else b ← rule_out r c b; after_refusal e v r b c
      end
  end.

Definition handleTryPreAccept (e : env) (m : TryPreAccept) (c : core) : outcome core :=
  let v := (m_Replica m, m_Instance m) in
  '(x, c) ← ensure_instance e v c;
  '(confRep, confInst, confStatus, c) ← (
    if bal x <=? m_Ballot m then
      let c := upd v (set bal (λ _, m_Ballot m)) c in
      found ← findPreAcceptConflicts (m_Command m) v.1 v.2 (m_Seq m) (m_Deps m) c;
      match found with
      | Some w => y ← deref w c; Done (w.1, w.2, Status y, c)
      | None =>
          c ← raise_crt v.1 v.2 c;
          let c := upd v (λ x, x <| Cmds := m_Command m |> <| Seq := m_Seq m |> <| Deps := m_Deps m |>
                                 <| Status := PREACCEPTED |> <| vbal := m_Ballot m |>) c in
          c ← updateConflicts (m_Command m) v.1 v.2 (m_Seq m) c;
          Done (-1, -1, STATUS_NONE, c)
      end
    else Done (-1, -1, STATUS_NONE, c));
  x ← deref v c;
  let reply := mkTryPreAcceptReply (cid c) v.1 v.2 (bal x) (vbal x) confRep confInst confStatus in
  if m_LeaderId m =? cid c then handleTryPreAcceptReply e reply c
  else Done (emit (Sent (m_LeaderId m) (MTryPreAcceptReply reply)) c).

(** ** The replies to a prepare *)

(** The commit of evidence that is committed, here and everywhere. *)
Definition commit_chosen (e : env) (v : instanceID) (ch : PrepareReply) (c : core) : outcome core :=
  let m := mkAttributes (cid c) v.1 v.2 (pr_VBallot ch) (pr_Command ch) (pr_Seq ch) (pr_Deps ch) in
  c ← handleCommit e m c;
  Done (emit (Broadcast None (cn c - 1) (MCommit m)) c).

(** The value is chosen: accept it, try to pre-accept it, or start over. *)
Definition recover_value (e : env) (v : instanceID) (ch : PrepareReply) (b : LeaderBookkeeping) (c : core) : outcome core :=
  let '(matching, same) := foldl (count_matching v.1 ch) (0, true) (prepareReplies b) in
  let c := upd v (λ x, x <| Cmds := cmds b |> <| Seq := seq b |> <| Deps := deps b |> <| Status := pr_Status ch |>
                         <| vbal := pr_VBallot ch |> <| lb := Some b |>) c in
  let initial := isInitialBallot (pr_VBallot ch) v.1 in
  let untouched := initial && same && negb (leaderResponded b) in
  if (pr_Status ch =? ACCEPTED) || (untouched && (cn c / 2 <=? matching)) then
    let b := b <| status := ACCEPTED |> <| ballot := lastTriedBallot b |> in
    Done (bcastAccept e v (accept_value v b c))
  else if untouched && ((cf c + 1) / 2 <=? matching) then
    none ← ReplicaSet.New [];
    let b := b <| tryingToPreAccept := true |> <| preAcceptOKs := 0 |> <| tpaReps := 0 |> <| preVoters := none |> in
    let c := bcastTryPreAccept v (put_lb v b c) in
    handleTryPreAccept e (phase_message v (lastTriedBallot b) b c) c
  else restart e v b c.

Definition handlePrepareReply (e : env) (r : PrepareReply) (c : core) : outcome core :=
  let v := (pr_Replica r, pr_Instance r) in
  inst ← space v.1 v.2 c;
  match inst ≫= λ x, (λ b, (x, b)) <$> lb x with
  | None => Done c
  | Some (x, b) =>
      if negb (bal x =? lastTriedBallot b) then Done c else
      let c := raise_ballot (pr_Ballot r) c in
      if negb (preparing b) then Done c else
      if negb (pr_Ballot r =? lastTriedBallot b) then Done (put_lb v (b <| nacks ::= (λ k, k + 1) |>) c) else
      match count_voter (pr_AcceptorId r) (prepareVoters b) c with
      | None => Done c
      | Some voters =>
          let b := b <| prepareVoters := voters |> <| prepareReplies ::= (λ l, l ++ [r]) |> in
          if Z.of_nat (length (prepareReplies b)) <? SlowQuorumSize c then Done (put_lb v b c) else
          let '(chosen, responded) := select_evidence (pr_Replica r) (prepareReplies b) None (leaderResponded b) in
          let b := b <| preparing := false |> <| leaderResponded := responded |> in
          match chosen with
          | None => startPhase1 e (Some NOOP) v (lastTriedBallot b) (clientProposals b) c   (* replaces [inst] and [lb] *)
          | Some ch =>
              let b := b <| ballot := pr_VBallot ch |> <| cmds := pr_Command ch |> <| seq := pr_Seq ch |>
                         <| status := pr_Status ch |> <| deps := pr_Deps ch |> in
              let c := put_lb v b c in
              if COMMITTED <=? pr_Status ch then commit_chosen e v ch c else recover_value e v ch b c
          end
      end
  end.

(** ** Repair *)
Definition handleRepairRequest (e : env) (m : RepairRequest) (c : core) : outcome core :=
  let owner := rr_Owner m in
  let slot := rr_Slot m in
  if (owner <? 0) || (cn c <=? owner) || (slot <? 0) || (MAX_INSTANCE <=? slot) then Done c else
  inst ← space owner slot c;
  match inst with
  | Some x =>
      if known_committed x then
        Done (emit (Broadcast None (cn c - 1) (MCommit (mkAttributes (cid c) owner slot (vbal x) (Cmds x) (Seq x) (Deps x)))) c)
      else if recoveryCoordinator e owner c =? cid c
      then Done (scheduleRecovery owner slot (clock e (reads c)) (tick_clock c)).2 else Done c
  | None =>
      if recoveryCoordinator e owner c =? cid c
      then Done (scheduleRecovery owner slot (clock e (reads c)) (tick_clock c)).2 else Done c
  end.

(** The slots of a row that are scanned for gaps. *)
Definition scan_slot (e : env) (now owner slot : Z) (c : core) : outcome core :=
  inst ← space owner slot c;
  if from_option known_committed false inst then Done c else blockedOn e owner slot now c.

Definition scan_row (e : env) (now owner : Z) (c : core) : outcome core :=
  crt ← at_index (crtInstance c) owner;
  upto ← at_index (executedUpTo c) owner;
  let limit := i32 (upto + 256) in
  let final := if limit <? crt then limit else crt in
  forEach (scan_slot e now owner) (rangeZ (i32 (upto + 1)) final) c.

Definition scan_gaps (e : env) (now : Z) (c : core) : outcome core :=
  let early := match nextGapScan c with Some t => now <? t | None => false end in
  if early then Done c else
  forEach (scan_row e now) (rangeZ 0 (cn c - 1)) (c <| nextGapScan := Some (now + 200 * Millisecond) |>).

Definition retry_blocked (e : env) (now key : Z) (c : core) : outcome core :=
  let owner := i32 (Z.shiftr key 32) in
  let slot := i32 key in
  inst ← space owner slot c;
  if from_option known_committed false inst then Done (c <| blocked ::= delete key |>)
  else blockedOn e owner slot now c.

Definition check_active (e : env) (now : Z) (v : instanceID) (c : core) : outcome core :=
  inst ← space v.1 v.2 c;
  match inst ≫= λ x, b ← lb x; if COMMITTED <=? Status x then None else Some (x, b) with
  | None => Done (c <| active ::= (λ s, s ∖ {[ v ]}) |>)
  | Some (x, b) =>
      if negb (bal x =? lastTriedBallot b) then Done c else
      let age := now - phaseStarted b in
      if age <? Second then Done c else
      if negb (preparing b) && negb (tryingToPreAccept b) && is_preaccepted (status b) && (cn c / 2 <=? preAcceptOKs b) then
        let b := b <| status := ACCEPTED |> <| ballot := lastTriedBallot b |> in
        let c := bcastAccept e v (accept_value v b c) in
        Done (put_lb v (b <| phaseStarted := now |>) c)
      else if COMMIT_GRACE_PERIOD <=? age then
        if recoveryCoordinator e v.1 c =? cid c then startRecoveryForInstance e v c else Done c
      else Done c
  end.

Definition repairTick (e : env) (now : Z) (c : core) : outcome core :=
  c ← scan_gaps e now c;
  c ← forEach (retry_blocked e now) (range_order (blocked_order e) (blocked c)).*1 c;
  forEach (check_active e now) (range_set (active_order e) (active c)) c.
End Recovery.
End EpaxosRecovery.
