(* ===== verification/EpaxosExecute.v ===== *)
(** * EpaxosExecute: execution order of EPaxos ([epaxos/execute.go])

    The scheduler's depth-first search over committed instances, the execution
    of a component, and the row loop [apply]. *)
From stdpp Require Import gmap strings list fin_maps fin_sets sorting.
From Stdlib Require Import Lia.
From S2P Require Import Prelude State Defs Epaxos EpaxosCore EpaxosRecovery.

Module EpaxosExecute.
Import Epaxos EpaxosCore EpaxosRecovery.
Section Execute.
Context {SM : StateMachine}.

(** [blockedOn(q, i, time.Now())] before a [return false]. *)
Definition block (e : env) (q i index : Z) (c : core) : outcome (bool * Z * core) :=
  c ← blockedOn e q i (clock e (reads c)) (tick_clock c); Done (false, index, c).

(** ** Executing a component *)

(** [nodeArray.Less] on the instances at two positions *)
Definition Less (c : core) (v w : instanceID) : bool :=
  let sv := from_option Seq 0 (instanceSpace c !! v) in
  let sw := from_option Seq 0 (instanceSpace c !! w) in
  (sv <? sw) || ((sv =? sw) && (v.1 <? w.1)) || ((sv =? sw) && (v.1 =? w.1) && (v.2 <? w.2)).

Definition not_after (c : core) (v w : instanceID) : Prop := Less c w v = false.
#[local] Instance not_after_dec c : RelDecision (not_after c).
Proof. intros v w. unfold not_after. apply _. Defined.

(** [sort.Sort]: positions are distinct, so the order is total. *)
Definition sorted (c : core) (l : list instanceID) : list instanceID := merge_sort (not_after c) l.

(** Command [idx] of the instance [w]. *)
Definition execute_command (w : Instance) (ic : Z * Command) (c : core) : outcome core :=
  let '(idx, cmd) := ic in
  let proposals := lb w ≫= clientProposals in
  if Op cmd =? NONE then Done c
  else if replyAfterExecution c && bool_decide (is_Some proposals) then
    '(val, s) ← sm_execute cmd (sm c);
    p ← at_index (default [] proposals) idx;
    Done (bump "clientReplies" 1 (emit (Replied p val) (c <| sm := s |>)))
  else if Op cmd =? PUT then '(_, s) ← sm_execute cmd (sm c); Done (c <| sm := s |>)
  else Done c.

Definition numbered {A} (l : list A) : list (Z * A) := imap (λ i x, (Z.of_nat i, x)) l.

Definition execute_instance (w : instanceID) (c : core) : outcome core :=
  x ← deref w c;
  let cmds := default [] (Cmds x) in
  c ← forEach (execute_command x) (numbered cmds) c;
  let c := upd w (λ x, x <| Status := EXECUTED |> <| onStack := false |>) c in
  Done (bump "executedCommands" (Z.of_nat (length cmds)) c).

(** [list := s.stack[l:]], then [s.stack = s.stack[0:l]]. *)
Definition execute_component (l : nat) (c : core) : outcome core :=
  let list := sorted c (drop l (stack c)) in
  c ← forEach execute_instance list c;
  Done (c <| stack ::= take l |> <| components ::= (λ cs, cs ++ [list]) |>).

(** ** The search *)

(** The pairs of commands compared when [transconf] is set; a match has no effect. *)
Definition compare_commands (v w : Instance) : outcome () :=
  forEach (λ alpha _, forEach (λ beta _, _ ← Conflict alpha beta; Done ()) (default [] (Cmds w)) ())
    (default [] (Cmds v)) ().

(** One round of the loop over [q], at [v]. *)
Definition visit (e : env) (strongconnect : instanceID → Z → core → outcome (bool * Z * core))
    (v : instanceID) (q : Z) (index : Z) (c : core) : outcome (bool * Z * core) :=
  xv ← deref v c;
  i ← at_index (Deps xv) q;
  upto ← at_index (executedUpTo c) q;
  if i <=? upto then Done (true, index, c) else
  inst ← space q i c;
  match inst with
  | None => block e q i index c
  | Some w =>
      if bool_decide (Cmds w = None) then block e q i index c else
      _ ← (if transconf c then compare_commands xv w else Done ());
      if Status w =? EXECUTED then Done (true, index, c)
      else if negb (Status w =? COMMITTED) then block e q i index c
      else if Index w =? 0 then
        '(ok, index, c) ← strongconnect (q, i) index c;
        if negb ok then Done (false, index, c) else
        xw ← deref (q, i) c;
        xv ← deref v c;
        Done (true, index, if Lowlink xw <? Lowlink xv then upd v (set Lowlink (λ _, Lowlink xw)) c else c)
      else if onStack w && (Index w <? Lowlink xv) then Done (true, index, upd v (set Lowlink (λ _, Index w)) c)
      else Done (true, index, c)
  end.

Fixpoint visit_all (e : env) (strongconnect : instanceID → Z → core → outcome (bool * Z * core))
    (v : instanceID) (qs : list Z) (index : Z) (c : core) : outcome (bool * Z * core) :=
  match qs with
  | [] => Done (true, index, c)
  | q :: qs =>
      '(ok, index, c) ← visit e strongconnect v q index c;
      if negb ok then Done (false, index, c) else visit_all e strongconnect v qs index c
  end.

(** The index, the low link and the place on the stack of a vertex first seen. *)
Definition enter (v : instanceID) (index : Z) (c : core) : core :=
  upd v (λ x, x <| Index := index |> <| Lowlink := index |> <| onStack := true |>) c <| stack ::= (λ s, s ++ [v]) |>.

Fixpoint strongconnect (fuel : nat) (e : env) (v : instanceID) (index : Z) (c : core) : outcome (bool * Z * core) :=
  match fuel with
  | O => OutOfFuel
  | S fuel =>
      let l := length (stack c) in
      let c := enter v index c in
      let index := index + 1 in
      x ← deref v c;
      if bool_decide (Cmds x = None) then block e v.1 v.2 index c else
      '(ok, index, c) ← visit_all e (strongconnect fuel e) v (rangeZ 0 (cn c - 1)) index c;
      if negb ok then Done (false, index, c) else
      x ← deref v c;
      if Lowlink x =? Index x then c ← execute_component l c; Done (true, index, c)
      else Done (true, index, c)
  end.

(** Each visit gives an instance its index, so the instances bound the depth. *)
Definition searchFuel (c : core) : nat := S (size (instanceSpace c)).

Definition clear_mark (c : core) (v : instanceID) : core :=
  upd v (λ x, x <| Index := 0 |> <| onStack := false |>) c.

Definition findSCC (e : env) (root : instanceID) (c : core) : outcome (bool * core) :=
  '(ret, _, c) ← strongconnect (searchFuel c) e root 1 (c <| stack := [] |>);
  Done (ret, foldl clear_mark c (stack c)).

Definition executeCommand (e : env) (replica slot : Z) (c : core) : outcome (bool * core) :=
  inst ← space replica slot c;
  match inst with
  | None => Done (false, c)
  | Some x =>
      if Status x =? EXECUTED then Done (true, c)
      else if negb (Status x =? COMMITTED) then Done (false, c)
      else '(ok, c) ← findSCC e (replica, slot) c; Done (ok, c)
  end.

(** ** [apply]: up to 128 rounds per row *)
Fixpoint apply_row (budget : nat) (e : env) (now q : Z) (c : core) : outcome core :=
  match budget with
  | O => Done c
  | S budget =>
      upto ← at_index (executedUpTo c) q;
      crt ← at_index (crtInstance c) q;
      let i := i32 (upto + 1) in
      if crt <? i then Done c else
      inst ← space q i c;
      match inst with
      | Some x =>
          if Status x =? EXECUTED then
            apply_row budget e now q
              (c <| executedUpTo ::= alter (λ u, i32 (u + 1)) (Z.to_nat q) |> <| blocked ::= delete (recoveryKey q i) |>)
          else if (Status x <? COMMITTED) || bool_decide (Cmds x = None) then blockedOn e q i now c
          else '(ok, c) ← executeCommand e q i c; if ok : bool then apply_row budget e now q c else Done c
      | None => blockedOn e q i now c
      end
  end.

Definition apply (e : env) (now : Z) (c : core) : outcome core :=
  forEach (apply_row 128 e now) (rangeZ 0 (cn c - 1)) c.
End Execute.
End EpaxosExecute.
