(* ===== verification/EpaxosOrder.v ===== *)
(** * EpaxosOrder: EPaxos executes dependencies first

    The search of [EpaxosExecute] is Tarjan's algorithm over the dependency
    endpoints of committed instances.  This file proves it right for one call of
    [apply], from any [calm] state: the components the call executes are
    strongly connected, all other dependencies of their members were executed
    before, by this call or an earlier one, the members are in the order of
    [Less], and the call executes no instance twice ([extends]).  That the states
    a run reaches are calm is proved of the handlers in [EpaxosSteps]. *)
From stdpp Require Import gmap strings list fin_maps fin_sets sorting relations.
From Stdlib Require Import Lia.
From S2P Require Import Prelude State Defs Epaxos EpaxosCore EpaxosRecovery EpaxosExecute.

Module EpaxosOrder.
Import Epaxos EpaxosCore EpaxosRecovery EpaxosExecute.
Section Order.
Context {SM : StateMachine}.

Lemma StronglySorted_weaken {A} (R S : A → A → Prop) l :
  (∀ x y, R x y → S x y) → StronglySorted R l → StronglySorted S l.
Proof. intros HRS. induction 1 as [|x l _ IH Hx]; constructor; [done|]. eapply Forall_impl; [exact Hx|]. intros y. apply HRS. Qed.

(** ** The dependency graph *)
Definition executed (c : core) (v : instanceID) : Prop := ∃ x, instanceSpace c !! v = Some x ∧ Status x = EXECUTED.

(** [v] is in a component that was executed, by whichever call of [apply]. *)
Definition finished (c : core) (v : instanceID) : Prop := v ∈ List.concat (components c).

(** [v] depends on [w]. *)
Definition edge (c : core) (v w : instanceID) : Prop :=
  ∃ x, instanceSpace c !! v = Some x ∧ 0 ≤ w.1 < cn c ∧ 0 ≤ w.2 ∧ index (Deps x) w.1 = Some w.2.

Abbreviation reach c := (rtc (edge c)).

Definition idx_of (c : core) (v : instanceID) : Z := from_option Index 0 (instanceSpace c !! v).
Definition low_of (c : core) (v : instanceID) : Z := from_option Lowlink 0 (instanceSpace c !! v).

(** What an executed component promises: strongly connected, closed but for
    what was executed before, in order. *)
Record component_ok (c : core) (before : list instanceID) (b : list instanceID) : Prop := mkComponentOk {
  comp_nonempty : b ≠ [];
  comp_closed : ∀ v w, v ∈ b → edge c v w → w ∈ before ∨ w ∈ b;
  comp_connected : ∀ u v, u ∈ b → v ∈ b → reach c u v;
  comp_sorted : StronglySorted (λ v w, Less c v w = true) b;
}.

(** [c'] has executed the components [new] since [c], and nothing else. *)
Record extends (c c' : core) (new : list (list instanceID)) : Prop := mkExtends {
  x_components : components c' = components c ++ new;
  x_once : NoDup (List.concat new);
  x_fresh : ∀ v, v ∈ List.concat new → executed c' v ∧ ¬ executed c v;
  x_only : ∀ v, executed c' v → executed c v ∨ v ∈ List.concat new;
  x_order : ∀ pre b post, new = pre ++ b :: post → component_ok c' (List.concat (components c ++ pre)) b;
}.

(** ** Between two calls of [apply]

    No instance is on the stack.  One with an index, as one that is [EXECUTED]
    or in the executed prefix of its row, has been executed.  (It need not be
    [EXECUTED] now: a recovery under way can pre-accept it again.) *)
Record calm (c : core) : Prop := mkCalm {
  m_marks : ∀ v x, instanceSpace c !! v = Some x → onStack x = false ∧ (Index x = 0 ∨ finished c v);
  m_executed : ∀ v, executed c v → finished c v;
  m_prefix : ∀ q u j, index (executedUpTo c) q = Some u → 0 ≤ j ≤ u → finished c (q, j);
  m_width : Forall (λ u, - 2 ^ 31 ≤ u < 2 ^ 31) (executedUpTo c);
}.

(** ** What the search keeps *)
Definition shape (x : Instance) := (Seq x, Deps x).

(** Instances keep their contents; a committed one may become executed. *)
Definition inst_keeps (x x' : Instance) : Prop :=
  shape x' = shape x ∧ (Status x' = Status x ∨ Status x = COMMITTED ∧ Status x' = EXECUTED).

Record keeps (c c' : core) : Prop := mkKeeps {
  k_n : cn c' = cn c;
  k_upto : executedUpTo c' = executedUpTo c;
  k_done : ∀ v, finished c v → finished c' v;
  k_inst : ∀ v, option_Forall2 inst_keeps (instanceSpace c !! v) (instanceSpace c' !! v);
}.

#[local] Instance inst_keeps_preorder : PreOrder inst_keeps.
Proof.
  split; [intros x; split; [done|by left]|]. intros x y z [E1 S1] [E2 S2]. split; [congruence|].
  destruct S1 as [S1|[S1 S1']], S2 as [S2|[S2 S2']]; try (left; congruence); right; split; congruence.
Qed.

#[local] Instance keeps_preorder : PreOrder keeps.
Proof.
  split; [split; [done..|auto|intros v; reflexivity]|].
  intros a b c [E1 E2 E3 E4] [F1 F2 F3 F4]. split; [congruence..|auto|]. intros v. by transitivity (instanceSpace b !! v).
Qed.

Lemma keeps_fwd c c' v x : keeps c c' → instanceSpace c !! v = Some x → ∃ x', instanceSpace c' !! v = Some x' ∧ inst_keeps x x'.
Proof. intros Hk Hx. destruct (k_inst _ _ Hk v) as [? y Hxy|]; [|done]. injection Hx as ->. by exists y. Qed.

Lemma keeps_bwd c c' v x' : keeps c c' → instanceSpace c' !! v = Some x' → ∃ x, instanceSpace c !! v = Some x ∧ inst_keeps x x'.
Proof. intros Hk Hx. destruct (k_inst _ _ Hk v) as [x ? Hxy|]; [|done]. injection Hx as ->. by exists x. Qed.

Lemma keeps_executed c c' v : keeps c c' → executed c v → executed c' v.
Proof.
  intros Hk (x & Hx & Hs). destruct (keeps_fwd c c' v x Hk Hx) as (x' & Hx' & _ & [E|[E _]]); exists x'; [split; congruence|].
  rewrite Hs in E. done.
Qed.

Lemma keeps_edge c c' v w : keeps c c' → edge c v w ↔ edge c' v w.
Proof.
  intros Hk. split; intros (x & Hx & Hr & H0 & Hd).
  - destruct (keeps_fwd c c' v x Hk Hx) as (x' & Hx' & [= _ Ed] & _). exists x'. by rewrite (k_n _ _ Hk), Ed.
  - destruct (keeps_bwd c c' v x Hk Hx) as (x' & Hx' & [= _ Ed] & _). exists x'. by rewrite <- (k_n _ _ Hk), <- Ed.
Qed.

Lemma keeps_reach c c' v w : keeps c c' → reach c v w → reach c' v w.
Proof. intros Hk. apply rtc_subrel. intros x y Hxy. by apply (keeps_edge c c' x y Hk). Qed.

Lemma keeps_seq c c' v : keeps c c' → from_option Seq 0 (instanceSpace c' !! v) = from_option Seq 0 (instanceSpace c !! v).
Proof. intros Hk. destruct (k_inst _ _ Hk v) as [x y [Es _]|]; [|done]. unfold shape in Es. cbn. congruence. Qed.

Lemma keeps_Less c c' v w : keeps c c' → Less c' v w = Less c v w.
Proof. intros Hk. unfold Less. by rewrite !(keeps_seq c c') by done. Qed.

Lemma keeps_component c c' before b : keeps c c' → component_ok c before b → component_ok c' before b.
Proof.
  intros Hk [H1 H2 H3 H4]. split; [done| | |].
  - intros v w Hv He. apply (H2 v w Hv). by apply (keeps_edge c c').
  - intros u v Hu Hv. apply (keeps_reach c); auto.
  - revert H4. apply StronglySorted_weaken. intros v w. by rewrite (keeps_Less c c').
Qed.

(** ** The state between and during searches of one call, from [origin] *)
Section From.
Variable origin : core.

Record tidy (c : core) : Prop := mkTidy {
  t_new : ∃ new, extends origin c new;
  t_stay : ∀ v, executed origin v → executed c v;
  t_exec : ∀ v, executed c v → finished c v;
  t_prefix : ∀ q u j, index (executedUpTo c) q = Some u → 0 ≤ j ≤ u → finished c (q, j);
  t_width : Forall (λ u, - 2 ^ 31 ≤ u < 2 ^ 31) (executedUpTo c);
  t_marks : ∀ v x, instanceSpace c !! v = Some x → v ∉ stack c → onStack x = false ∧ (Index x = 0 ∨ finished c v);
  t_stack : ∀ v, v ∈ stack c → ∃ x, instanceSpace c !! v = Some x ∧ Status x = COMMITTED ∧ Index x ≠ 0 ∧ onStack x = true;
}.

(** The stack is in the order of the indexes, which are below [idx]. *)
Record ranked (idx : Z) (c : core) : Prop := mkRanked {
  r_sorted : StronglySorted (λ v w, idx_of c v < idx_of c w) (stack c);
  r_bounds : ∀ v, v ∈ stack c → 1 ≤ idx_of c v < idx;
}.

(** Tidiness looks at no more than the contents and marks of the instances, the
    executed prefixes, the stack and the components. *)
Lemma tidy_step c c' :
  keeps c c' → components c' = components c → stack c' = stack c →
  (∀ v x', instanceSpace c' !! v = Some x' → ∃ x, instanceSpace c !! v = Some x ∧ Status x' = Status x ∧
    Index x' = Index x ∧ onStack x' = onStack x) → tidy c → tidy c'.
Proof.
  intros Hk Ec Es Hin [(new & [N1 N2 N3 N4 N5]) T2 T3 T4 T5 T6 T7].
  assert (∀ v, executed c' v ↔ executed c v) as Hex.
  { intros v. split; [|by apply keeps_executed]. intros (x' & Hx' & Hs). destruct (Hin v x' Hx') as (x & Hx & E & _).
    exists x. split; congruence. }
  unfold finished in *. split; rewrite ?(k_upto _ _ Hk), ?Ec, ?Es; try done.
  - exists new. split; rewrite ?Ec; try done.
    + intros v Hv. rewrite Hex. by apply N3.
    + intros v. rewrite Hex. apply N4.
    + intros pre b post Hb. apply (keeps_component c c'); [done|]. by eapply N5.
  - intros v Hv. apply Hex. auto.
  - intros v Hv%Hex. unfold finished. rewrite Ec. auto.
  - intros q u j Hu Hj. unfold finished. rewrite Ec. by eapply T4.
  - intros v x' Hx' Hv. destruct (Hin v x' Hx') as (x & Hx & _ & -> & ->). unfold finished. rewrite Ec. by apply (T6 v).
  - intros v Hv. destruct (T7 v Hv) as (x & Hx & S1 & S2 & S3). destruct (keeps_fwd c c' v x Hk Hx) as (x' & Hx' & _).
    destruct (Hin v x' Hx') as (y & Hy & E1 & E2 & E3). exists x'. rewrite E1, E2, E3. rewrite Hx in Hy. by injection Hy as <-.
Qed.

Lemma at_index_inv {A} (l : list A) i : ensures (at_index l i) (λ x, index l i = Some x).
Proof. unfold at_index. by destruct (index l i). Qed.
Lemma deref_inv v c : ensures (deref v c) (λ x, instanceSpace c !! v = Some x).
Proof. unfold deref. by destruct (instanceSpace c !! v). Qed.
Lemma space_inv q i c : ensures (space q i c) (λ o, o = instanceSpace c !! (q, i) ∧ 0 ≤ q < cn c ∧ 0 ≤ i).
Proof. unfold space, in_space. destruct (_ && _) eqn:E; [|exact I]. cbn. split; [reflexivity|lia]. Qed.

(** *** Blocking changes nothing the search looks at *)
Record same_search (c c' : core) : Prop := mkSameSearch {
  ss_n : cn c' = cn c;
  ss_space : instanceSpace c' = instanceSpace c;
  ss_upto : executedUpTo c' = executedUpTo c;
  ss_stack : stack c' = stack c;
  ss_components : components c' = components c;
}.

Lemma scheduleRecovery_same owner slot now c : same_search c (scheduleRecovery owner slot now c).2.
Proof. unfold scheduleRecovery. repeat case_match; by split. Qed.

Lemma raise_crt_same owner slot c : ensures (raise_crt owner slot c) (same_search c).
Proof. unfold raise_crt. destruct (at_index _ _); [|exact I..]. cbn. by case_match. Qed.

Lemma blockedOn_same e owner slot now c : ensures (blockedOn e owner slot now c) (same_search c).
Proof.
  unfold blockedOn. eapply ensures_bind; [apply raise_crt_same|]. intros c1 [E1 E2 E3 E4 E5].
  destruct (blocked c1 !! _) as [first|]; [|by split]. case_match; [by split|].
  case_match; [|by split]. cbn.
  destruct (scheduleRecovery_same owner slot now (c1 <| blocked ::= <[recoveryKey owner slot := now]> |>)) as [F1 F2 F3 F4 F5].
  cbn in *. split; congruence.
Qed.

Lemma keeps_same_search c c' : same_search c c' → keeps c c'.
Proof. intros [E1 E2 E3 E4 E5]. split; [done..|unfold finished; by rewrite E5|]. intros v. by rewrite E2. Qed.

Lemma tidy_same c c' : same_search c c' → tidy c → tidy c'.
Proof.
  intros Hss. apply tidy_step; [by apply keeps_same_search|apply Hss..|].
  intros v x. rewrite (ss_space _ _ Hss). intros Hx. by exists x.
Qed.

Lemma block_spec e q i idx c :
  tidy c → ensures (block e q i idx c) (λ '(ok, idx', c'), ok = false ∧ keeps c c' ∧ tidy c').
Proof.
  intros Ht. unfold block. eapply ensures_bind; [apply blockedOn_same|]. intros c' [E1 E2 E3 E4 E5]. cbn in *.
  assert (same_search c c') as Hss by by split.
  split_and!; [reflexivity|by apply keeps_same_search|by eapply tidy_same].
Qed.

(** *** Executing the instances of a component *)
Record same_frame (c c' : core) : Prop := mkSameFrame {
  sf_n : cn c' = cn c;
  sf_upto : executedUpTo c' = executedUpTo c;
  sf_stack : stack c' = stack c;
  sf_components : components c' = components c;
}.

#[local] Instance same_frame_preorder : PreOrder same_frame.
Proof. split; [by split|]. intros a b c [] []. split; congruence. Qed.

Definition mark_executed (x : Instance) : Instance := x <| Status := EXECUTED |> <| onStack := false |>.

Lemma execute_command_spec x ic c : ensures (execute_command x ic c) (λ c', same_frame c c' ∧ instanceSpace c' = instanceSpace c).
Proof.
  destruct ic as [i cmd]. unfold execute_command. case_match; [by split|]. case_match.
  - destruct (sm_execute cmd (sm c)) as [[val st]| |]; [|exact I..]. cbn. destruct (at_index _ i); [by split|exact I..].
  - case_match; [|by split]. destruct (sm_execute cmd (sm c)) as [[val st]| |]; [by split|exact I..].
Qed.

Lemma execute_instance_spec w c :
  ensures (execute_instance w c) (λ c', same_frame c c' ∧ instanceSpace c' = alter mark_executed w (instanceSpace c)).
Proof.
  unfold execute_instance. eapply ensures_bind; [apply deref_inv|]. intros x Hx. eapply ensures_bind.
  - apply (ensures_forEach (execute_command x) (λ c', same_frame c c' ∧ instanceSpace c' = instanceSpace c)); [done|].
    intros ic c' [Hf Hs]. eapply ensures_mono; [apply execute_command_spec|].
    intros c2 [Hf2 Hs2]. split; [by etrans|congruence].
  - intros c' [[] Hs]. cbn. split; [by split|]. by rewrite Hs.
Qed.

Lemma execute_list_spec l c :
  NoDup l →
  ensures (forEach execute_instance l c) (λ c', same_frame c c' ∧
    ∀ u, instanceSpace c' !! u = if decide (u ∈ l) then mark_executed <$> instanceSpace c !! u else instanceSpace c !! u).
Proof.
  intros Hnd. revert c. induction Hnd as [|w l Hw Hnd IH]; intros c; cbn [forEach].
  { split; [done|]. intros u. by rewrite decide_False by apply not_elem_of_nil. }
  eapply ensures_bind; [apply execute_instance_spec|]. intros c1 [Hf1 Hs1].
  eapply ensures_mono; [apply IH|]. intros c2 [Hf2 Hs2]. split; [by etrans|]. intros u. rewrite Hs2, Hs1.
  destruct (decide (u = w)) as [->|Hne].
  - rewrite decide_False by done. rewrite decide_True by left. by rewrite lookup_alter_eq.
  - rewrite lookup_alter_ne by done. destruct (decide (u ∈ l)).
    + by rewrite decide_True by by right.
    + rewrite decide_False; [done|]. by intros [->|?]%elem_of_cons.
Qed.

(** *** The order of a component *)
Lemma not_after_trans c : Transitive (not_after c).
Proof. intros u v w. unfold not_after, Less. lia. Qed.
Lemma not_after_total c : Total (not_after c).
Proof. intros v w. unfold not_after, Less. lia. Qed.

Lemma not_after_Less c v w : not_after c v w → v ≠ w → Less c v w = true.
Proof.
  unfold not_after, Less. destruct v as [v1 v2], w as [w1 w2]. cbn. intros H Hne.
  assert (v1 ≠ w1 ∨ v2 ≠ w2) by (destruct (decide (v1 = w1)), (decide (v2 = w2)); subst; tauto). lia.
Qed.

Lemma sorted_perm c l : sorted c l ≡ₚ l.
Proof. apply merge_sort_Permutation. Qed.

Lemma sorted_Less c l : NoDup l → StronglySorted (λ v w, Less c v w = true) (sorted c l).
Proof.
  intros Hnd. assert (NoDup (sorted c l)) as Hnd' by by rewrite sorted_perm.
  assert (StronglySorted (not_after c) (sorted c l)) as Hs.
  { apply StronglySorted_merge_sort; [apply not_after_trans|apply not_after_total]. }
  induction Hs as [|v l' Hs IH Hv]; [constructor|]. apply NoDup_cons in Hnd' as [Hni Hnd'].
  constructor; [by apply IH|]. rewrite Forall_forall in Hv |- *. intros w Hw.
  apply not_after_Less; [by apply Hv|]. by intros ->.
Qed.
Lemma ranked_NoDup idx c : ranked idx c → NoDup (stack c).
Proof. intros [Hs _]. apply (StronglySorted_NoDup _ _) in Hs; [done|]. intros x. lia. Qed.

Lemma join_snoc {A} (ls : list (list A)) l : List.concat (ls ++ [l]) = List.concat ls ++ l.
Proof. by rewrite List.concat_app; cbn; rewrite app_nil_r. Qed.

(** One more component, of instances that are committed, extends the call. *)
Lemma extends_snoc c c' b new :
  keeps c c' → extends origin c new → (∀ v, executed origin v → executed c v) →
  components c' = components c ++ [b] → NoDup b → (∀ v, v ∈ b → executed c' v ∧ ¬ executed c v) →
  (∀ v, executed c' v → executed c v ∨ v ∈ b) → component_ok c' (List.concat (components c)) b →
  extends origin c' (new ++ [b]).
Proof.
  intros Hk [N1 N2 N3 N4 N5] Hstay Ec Hnd Hb Honly Hok. split.
  - by rewrite Ec, N1, app_assoc.
  - rewrite join_snoc. apply NoDup_app. split_and!; [done| |done]. intros v Hv Hv'. destruct (Hb v Hv') as [_ []]. by apply N3.
  - intros v. rewrite join_snoc, elem_of_app. intros [Hv|Hv].
    + destruct (N3 v Hv). split; [by eapply keeps_executed|done].
    + destruct (Hb v Hv) as [He Hn]. split; [done|]. intros Ho. by apply Hn, Hstay.
  - intros v Hv. rewrite join_snoc, elem_of_app. destruct (Honly v Hv) as [He|]; [|tauto]. destruct (N4 v He); tauto.
  - intros p b' post Hp. destruct (decide (post = [])) as [->|Hpost].
    + apply app_inj_tail in Hp as [<- <-]. by rewrite <- N1.
    + destruct (exists_last Hpost) as (post' & z & ->). rewrite app_comm_cons, app_assoc in Hp.
      apply app_inj_tail in Hp as [Hp _]. apply (keeps_component c c'); [done|]. by eapply N5.
Qed.

(** A closed, strongly connected top of the stack is executed and popped. *)
Lemma execute_component_spec c pre comp idx :
  tidy c → ranked idx c → stack c = pre ++ comp → comp ≠ [] →
  (∀ v w, v ∈ comp → edge c v w → finished c w ∨ w ∈ comp) →
  (∀ u v, u ∈ comp → v ∈ comp → reach c u v) →
  ensures (execute_component (length pre) c) (λ c',
    keeps c c' ∧ tidy c' ∧ stack c' = pre ∧
    (∀ u, u ∉ comp → instanceSpace c' !! u = instanceSpace c !! u) ∧ (∀ u, u ∈ comp → finished c' u) ∧
    (∀ u, idx_of c' u = idx_of c u ∧ low_of c' u = low_of c u)).
Proof.
  intros Ht Hr Hst Hne Hcl Hcon. unfold execute_component. rewrite Hst, drop_app_length.
  pose proof (ranked_NoDup _ _ Hr) as Hnd. rewrite Hst in Hnd. apply NoDup_app in Hnd as (Hndp & Hdis & Hndc).
  assert (∀ w, w ∈ sorted c comp ↔ w ∈ comp) as Hin by (intros w; by rewrite sorted_perm).
  assert (∀ w, w ∈ comp → ∃ x, instanceSpace c !! w = Some x ∧ Status x = COMMITTED) as Hcomp.
  { intros w Hw. destruct (t_stack c Ht w) as (x & ? & ? & _); [|by exists x]. rewrite Hst. apply elem_of_app. by right. }
  eapply ensures_bind; [apply (execute_list_spec (sorted c comp) c); by rewrite sorted_perm|].
  intros c1 [[E1 E2 E3 E4] Hsp]. cbn.
  assert (∀ u, instanceSpace c1 !! u = if decide (u ∈ comp) then mark_executed <$> instanceSpace c !! u else instanceSpace c !! u) as Hspc.
  { intros u. rewrite Hsp. destruct (decide (u ∈ comp)) as [Hu|Hu].
    - by rewrite decide_True by by apply Hin.
    - rewrite decide_False; [done|]. by rewrite Hin. }
  clear Hsp. set (c' := c1 <| stack ::= _ |> <| components ::= _ |>).
  assert (instanceSpace c' = instanceSpace c1 ∧ cn c' = cn c ∧ executedUpTo c' = executedUpTo c) as (Es & En & Eu) by done.
  assert (stack c' = pre) as Hst' by (cbn; rewrite E3, Hst; apply take_app_length).
  assert (components c' = components c ++ [sorted c comp]) as Hcs by (cbn; by rewrite E4).
  assert (∀ u, finished c' u ↔ finished c u ∨ u ∈ comp) as Hdone.
  { intros u. unfold finished. by rewrite Hcs, join_snoc, elem_of_app, Hin. }
  assert (keeps c c') as Hk.
  { split; [done..|intros v; rewrite Hdone; tauto|]. intros v. rewrite Es, Hspc.
    destruct (decide (v ∈ comp)) as [Hv|Hv]; [|reflexivity].
    destruct (Hcomp v Hv) as (x & -> & Hs). constructor. split; [done|]. right. by split. }
  assert (∀ u, u ∈ comp → executed c' u ∧ ¬ executed c u) as Hex.
  { intros u Hu. destruct (Hcomp u Hu) as (x & Hx & Hs). split; [exists (mark_executed x); by rewrite Es, Hspc, decide_True, Hx|].
    intros (y & Hy & Hsy). rewrite Hx in Hy. injection Hy as <-. rewrite Hs in Hsy. done. }
  assert (∀ u, executed c' u → executed c u ∨ u ∈ comp) as Honly.
  { intros u (x & Hx & Hs). rewrite Es, Hspc in Hx. case_decide; [by right|]. left. by exists x. }
  split_and!; [done| |done| |intros u Hu; apply Hdone; by right|].
  - destruct (t_new c Ht) as (new & Hnew). split; rewrite ?Hst', ?Eu.
    + exists (new ++ [sorted c comp]). apply (extends_snoc c); [done|done|apply Ht|done|by rewrite sorted_perm|..].
      * intros v Hv%Hin. by apply Hex.
      * intros v. rewrite Hin. apply Honly.
      * apply (keeps_component c c'); [done|]. split.
        -- intros E. apply Hne. apply Permutation_nil. by rewrite <- (sorted_perm c comp), E.
        -- intros v w Hv%Hin He. rewrite Hin. by eapply Hcl.
        -- intros u v Hu%Hin Hv%Hin. by apply Hcon.
        -- by apply sorted_Less.
    + intros v Hv. eapply keeps_executed; [done|]. by apply Ht.
    + intros v Hv. apply Hdone. destruct (Honly v Hv); [left; by apply Ht|by right].
    + intros q u j Hu Hj. apply Hdone. left. by eapply (t_prefix c Ht).
    + apply Ht.
    + rewrite Es. intros v x Hx Hv. rewrite Hspc in Hx. rewrite Hdone. case_decide as Hc.
      * destruct (Hcomp v Hc) as (y & Hy & _). rewrite Hy in Hx. injection Hx as <-. cbn. tauto.
      * destruct (t_marks c Ht v x Hx); [|tauto]. rewrite Hst. by intros [?|?]%elem_of_app.
    + intros v Hv. rewrite Es, Hspc, decide_False; [|by intros ?; eapply Hdis].
      apply (t_stack c Ht). rewrite Hst. apply elem_of_app. by left.
  - intros u Hu. change (instanceSpace c' !! u = instanceSpace c !! u). by rewrite Es, Hspc, decide_False.
  - intros u. unfold idx_of, low_of. change (instanceSpace c' !! u) with (instanceSpace c1 !! u). rewrite Hspc.
    case_decide; [|done]. by destruct (instanceSpace c !! u).
Qed.
(** ** The search *)

(** The target of an edge may be left behind: it was executed, or it is on the
    stack not below [low]. *)
Definition good (c : core) (low : Z) (w : instanceID) : Prop := finished c w ∨ w ∈ stack c ∧ low ≤ idx_of c w.

Lemma good_mono c c' low low' w :
  keeps c c' → (∀ u, u ∈ stack c → u ∈ stack c' ∧ idx_of c' u = idx_of c u) → low' ≤ low → good c low w → good c' low' w.
Proof.
  intros Hk Hst Hl [He|[Hw Hi]]; [left; by eapply k_done|right].
  destruct (Hst w Hw) as [Hw' Hi']. split; [done|lia].
Qed.

(** What a visit of [v] that has returned leaves above the stack it found. *)
Definition open_component (c : core) (pre : list instanceID) (v : instanceID) (low : Z) : Prop :=
  ∃ ext, stack c = pre ++ v :: ext ∧ ∀ u, u ∈ ext → reach c v u ∧ ∀ w, edge c u w → good c low w.

(** The loop of [v] before row [q]: [pre] is the stack below [v], [low] the
    lowest index its edges and those of the instances above it have reached. *)
Record visiting (c0 : core) (pre : list instanceID) (v : instanceID) (idx0 q idx low : Z) (c : core) : Prop := mkVisiting {
  v_keeps : keeps c0 c;
  v_tidy : tidy c;
  v_ranked : ranked idx c;
  v_same : ∀ u, u ∈ pre → instanceSpace c !! u = instanceSpace c0 !! u;
  v_open : open_component c pre v low;
  v_self : idx_of c v = idx0;
  v_low : ∃ u, u ∈ stack c ∧ idx_of c u = low ∧ reach c v u;
  v_edges : ∀ w, edge c v w → w.1 < q → good c low w;
  v_reach : ∀ u, u ∈ stack c → reach c u v;
}.

(** The outcome of [strongconnect] at [v] from [c]. *)
Definition connected (c : core) (v : instanceID) (idx : Z) (r : bool * Z * core) : Prop :=
  let '(ok, idx', c') := r in
  keeps c c' ∧ tidy c' ∧
  (ok = true → idx < idx' ∧ ranked idx' c' ∧ (∀ u, u ∈ stack c → instanceSpace c' !! u = instanceSpace c !! u) ∧
    ((stack c' = stack c ∧ finished c' v ∧ idx ≤ low_of c' v) ∨
     (open_component c' (stack c) v (low_of c' v) ∧ (∀ w, edge c' v w → good c' (low_of c' v) w) ∧ low_of c' v < idx ∧
      (∃ u, u ∈ stack c ∧ idx_of c' u = low_of c' v ∧ reach c' v u) ∧ (∀ u, u ∈ stack c' → reach c' u v)))).

Definition can_connect (c : core) (v : instanceID) (idx : Z) : Prop :=
  tidy c ∧ ranked idx c ∧ 1 ≤ idx ∧ (∃ x, instanceSpace c !! v = Some x ∧ Status x = COMMITTED) ∧ v ∉ stack c ∧
  (∀ u, u ∈ stack c → reach c u v).

Lemma visiting_on_stack c0 pre v idx0 q idx low c : visiting c0 pre v idx0 q idx low c → v ∈ stack c.
Proof. intros [_ _ _ _ (ext & -> & _)]. apply elem_of_app. right. by left. Qed.

Lemma visiting_pre c0 pre v idx0 q idx low c u :
  visiting c0 pre v idx0 q idx low c → u ∈ pre → u ∈ stack c ∧ u ≠ v ∧ idx_of c u < idx0.
Proof.
  intros Hv Hu. destruct (v_open _ _ _ _ _ _ _ _ Hv) as (ext & Hst & _).
  pose proof (r_sorted _ _ (v_ranked _ _ _ _ _ _ _ _ Hv)) as Hs. rewrite Hst in *.
  assert (idx_of c u < idx_of c v) as Hlt. { apply StronglySorted_app in Hs as (Hs & _ & _). apply Hs; [done|by left]. }
  rewrite (v_self _ _ _ _ _ _ _ _ Hv) in Hlt. split_and!; [apply elem_of_app; by left| |done].
  intros ->. rewrite (v_self _ _ _ _ _ _ _ _ Hv) in Hlt. lia.
Qed.

(** The row [q] is settled once its edge, if it has one, is good. *)
Lemma visiting_next c0 pre v idx0 q idx low c xv i :
  visiting c0 pre v idx0 q idx low c → instanceSpace c !! v = Some xv → index (Deps xv) q = Some i →
  (0 ≤ i → good c low (q, i)) → visiting c0 pre v idx0 (q + 1) idx low c.
Proof.
  intros [] Hx Hi Hg. split; try done. intros w He Hw. destruct (decide (w.1 < q)) as [|Hge]; [auto|].
  destruct He as (x & Hx' & Hr & H0 & Hd). rewrite Hx in Hx'. injection Hx' as <-.
  assert (w.1 = q) as Eq by lia. rewrite Eq, Hi in Hd. injection Hd as Ed.
  replace w with (q, i) by (destruct w; cbn in *; congruence). apply Hg. lia.
Qed.

(** Lowering the bound to that of a good target. *)
Lemma visiting_lower c0 pre v idx0 q idx low low' c :
  visiting c0 pre v idx0 q idx low c → low' ≤ low → (∃ u, u ∈ stack c ∧ idx_of c u = low' ∧ reach c v u) →
  visiting c0 pre v idx0 q idx low' c.
Proof.
  intros [] Hl Hr. destruct v_open0 as (ext & Hst & Hext).
  assert (∀ w, good c low w → good c low' w) as Hg by (intros w; by apply good_mono).
  split; try done; [|auto]. exists ext. split; [done|]. intros u Hu. destruct (Hext u Hu) as [? He]. split; [done|auto].
Qed.

(** *** Writing a low link *)
Lemma set_low_facts l v c :
  let c' := upd v (set Lowlink (λ _, l)) c in
  keeps c c' ∧ keeps c' c ∧ (∀ u, u ≠ v → instanceSpace c' !! u = instanceSpace c !! u) ∧
  (∀ u, idx_of c' u = idx_of c u) ∧ (is_Some (instanceSpace c !! v) → low_of c' v = l).
Proof.
  assert (∀ x, inst_keeps x (set Lowlink (λ _, l) x)) as Hx by (intros x; split; [done|by left]).
  assert (∀ x, inst_keeps (set Lowlink (λ _, l) x) x) as Hx' by (intros x; split; [done|by left]).
  cbv zeta. split_and!.
  - split; [done..|]. intros u. cbn. rewrite lookup_alter. case_decide; [subst u|reflexivity]. by destruct (instanceSpace c !! v); constructor.
  - split; [done..|]. intros u. cbn. rewrite lookup_alter. case_decide; [subst u|reflexivity]. by destruct (instanceSpace c !! v); constructor.
  - intros u Hu. cbn. by rewrite lookup_alter_ne.
  - intros u. unfold idx_of. cbn. rewrite lookup_alter. case_decide; [subst u|done]. by destruct (instanceSpace c !! v).
  - intros [x Hv]. unfold low_of. cbn. by rewrite lookup_alter_eq, Hv.
Qed.

Lemma tidy_set_low l v c : tidy c → tidy (upd v (set Lowlink (λ _, l)) c).
Proof.
  apply tidy_step; [apply set_low_facts|done..|]. intros u x. cbn. rewrite lookup_alter. case_decide; [subst u|intros; by exists x].
  destruct (instanceSpace c !! v) as [y|]; [|done]. intros [= <-]. by exists y.
Qed.

Lemma visiting_set_low l c0 pre v idx0 q idx low c :
  visiting c0 pre v idx0 q idx low c → visiting c0 pre v idx0 q idx low (upd v (set Lowlink (λ _, l)) c).
Proof.
  intros Hv. pose proof (set_low_facts l v c) as (Hk & Hk' & Hne & Hidx & _).
  pose proof (tidy_set_low l v c (v_tidy _ _ _ _ _ _ _ _ Hv)) as Ht.
  assert (∀ u, u ∈ pre → u ≠ v) as Hpre by (intros u Hu; by eapply (visiting_pre _ _ _ _ _ _ _ _ u Hv)).
  assert (stack (upd v (set Lowlink (λ _, l)) c) = stack c) as Hst by done.
  set (c' := upd _ _ c) in *. destruct Hv as [K T [S1 S2] Sm (ext & Eo & Ext) Se (u & Hu & Eu & Ru) Ed Re].
  assert (∀ w, good c low w → good c' low w) as Hg by (intros w; apply good_mono; [done|by rewrite Hst|done]).
  assert (∀ x y, reach c x y → reach c' x y) as Hr by (intros x y; by apply keeps_reach).
  split; rewrite ?Hidx; try done.
  - by transitivity c.
  - split; rewrite Hst; [|intros x Hx; rewrite Hidx; by apply S2]. revert S1. apply StronglySorted_weaken. intros x y. by rewrite !Hidx.
  - intros x Hx. rewrite Hne; auto.
  - exists ext. split; [by rewrite Hst|]. intros x Hx. destruct (Ext x Hx) as [? He]. split; [auto|].
    intros w Hw'. apply Hg, He. by apply (keeps_edge c c').
  - exists u. rewrite Hst, Hidx. auto.
  - intros w Hw' Hq. apply Hg, Ed; [|done]. by apply (keeps_edge c c').
  - intros x Hx. rewrite Hst in Hx. auto.
Qed.

(** *** Entering a vertex *)
Lemma enter_spec c v idx :
  can_connect c v idx → visiting c (stack c) v idx 0 (idx + 1) idx (enter v idx c) ∧ low_of (enter v idx c) v = idx.
Proof.
  intros (Ht & Hr & H1 & (x & Hx & Hs) & Hv & Hre). set (c' := enter v idx c).
  assert (∀ u, u ≠ v → instanceSpace c' !! u = instanceSpace c !! u) as Hne by (intros u Hu; cbn; by rewrite lookup_alter_ne).
  set (x' := x <| Index := idx |> <| Lowlink := idx |> <| onStack := true |>).
  assert (instanceSpace c' !! v = Some x') as Hx' by (cbn; by rewrite lookup_alter_eq, Hx).
  assert (stack c' = stack c ++ [v]) as Hst by done.
  assert (keeps c c') as Hk.
  { split; [done..|]. intros u. destruct (decide (u = v)) as [->|Hu].
    - rewrite Hx, Hx'. constructor. split; [done|by left].
    - by rewrite Hne. }
  assert (∀ u, executed c' u ↔ executed c u) as Hex.
  { intros u. split; [|by apply keeps_executed]. intros (y & Hy & Hsy). destruct (decide (u = v)) as [->|Hu].
    - rewrite Hx' in Hy. injection Hy as <-. exists x. split; [done|]. rewrite <- Hsy. done.
    - rewrite Hne in Hy by done. by exists y. }
  assert (∀ u, u ∈ stack c → u ≠ v) as Hsv by (intros u Hu ->; done).
  assert (∀ u, u ≠ v → idx_of c' u = idx_of c u) as Hio by (intros u Hu; unfold idx_of; by rewrite Hne).
  assert (idx_of c' v = idx) as Hiv by (unfold idx_of; by rewrite Hx').
  assert (tidy c') as Ht'.
  { destruct (t_new c Ht) as (new & [N1 N2 N3 N4 N5]). split.
    - exists new. split; [done..| | |].
      + intros u Hu. rewrite Hex. by apply N3.
      + intros u. rewrite Hex. apply N4.
      + intros p b post Hb. apply (keeps_component c c'); [done|]. by eapply N5.
    - intros u Hu. apply Hex. by apply Ht.
    - intros u Hu%Hex. by apply (t_exec c Ht).
    - exact (t_prefix c Ht).
    - apply Ht.
    - intros u y Hy Hu. rewrite Hst, elem_of_app, list_elem_of_singleton in Hu.
      rewrite Hne in Hy by tauto. apply (t_marks c Ht u); tauto.
    - intros u. rewrite Hst, elem_of_app, list_elem_of_singleton. intros [Hu| ->].
      + rewrite Hne by auto. by apply (t_stack c Ht).
      + exists x'. split_and!; [done..|cbn; lia|done]. }
  split; [|by unfold low_of; rewrite Hx'].
  split; [done|done| | |by exists []; split; [done|intros ? ?%not_elem_of_nil]|done| | |].
  - split; rewrite Hst.
    + apply StronglySorted_app. split_and!; [|destruct Hr as [Hr _]; revert Hr; clear -Hsv Hio|repeat constructor].
      * intros u w Hu ->%list_elem_of_singleton. rewrite Hiv, Hio by auto. by apply (r_bounds _ _ Hr).
      * induction 1 as [|u l _ IH Hu]; constructor.
        -- apply IH; intros w Hw; apply Hsv; by right.
        -- rewrite Forall_forall in Hu |- *. intros w Hw. rewrite !Hio; [by apply Hu|apply Hsv; by right|apply Hsv; by left].
    + intros u. rewrite elem_of_app, list_elem_of_singleton. intros [Hu| ->]; [|rewrite Hiv; lia].
      rewrite Hio by auto. pose proof (r_bounds _ _ Hr u Hu). lia.
  - intros u Hu. by apply Hne, Hsv.
  - exists v. split_and!; [rewrite Hst; apply elem_of_app; right; by left|done|done].
  - intros w (y & _ & Hr1 & _) Hlt. lia.
  - intros u. rewrite Hst, elem_of_app, list_elem_of_singleton. intros [Hu| ->]; [|done].
    by apply (keeps_reach c), Hre.
Qed.

(** *** A call from the loop *)

(** The stack a successful call leaves extends the one it found. *)
Lemma connected_stack c v idx idx' c' u :
  connected c v idx (true, idx', c') → u ∈ stack c → u ∈ stack c' ∧ idx_of c' u = idx_of c u.
Proof.
  intros (_ & _ & Hc) Hu. destruct (Hc eq_refl) as (_ & _ & Hsame & Hcase). split; [|unfold idx_of; by rewrite Hsame].
  destruct Hcase as [[-> _]|[(ext & -> & _) _]]; [done|]. apply elem_of_app. by left.
Qed.

Lemma visiting_call c0 pre v idx0 q idx low c w idx' c' xv :
  visiting c0 pre v idx0 q idx low c → low_of c v = low → low ≤ idx0 → idx0 < idx →
  edge c v w → w.1 = q → instanceSpace c !! v = Some xv →
  connected c w idx (true, idx', c') →
  instanceSpace c' !! v = Some xv ∧ idx < idx' ∧
  visiting c0 pre v idx0 (q + 1) idx' (Z.min low (low_of c' w)) c'.
Proof.
  intros Hv Hlow Hle Hlt He Hwq Hxv Hc. pose proof (visiting_on_stack _ _ _ _ _ _ _ _ Hv) as Hvs.
  pose proof (λ u, connected_stack c w idx idx' c' u Hc) as Hstk.
  pose proof (λ u, visiting_pre _ _ _ _ _ _ _ _ u Hv) as Hpre.
  destruct Hc as (Hk & Ht' & Hc). destruct (Hc eq_refl) as (Hidx & Hrk & Hsame & Hcase). clear Hc.
  assert (instanceSpace c' !! v = Some xv) as Hxv' by by rewrite Hsame.
  split; [done|]. split; [done|].
  destruct Hv as [K T R Sm (ext & Eo & Ext) Se (u0 & Hu0 & Eu0 & Ru0) Ed Re].
  set (low' := Z.min low (low_of c' w)).
  assert (∀ x, good c low x → good c' low' x) as Hg by (intros x; apply good_mono; [done|done|lia]).
  assert (∀ x y, reach c x y → reach c' x y) as Hr by (intros x y; by apply keeps_reach).
  assert (∃ t, index (Deps xv) q = Some t ∧ w = (q, t)) as (t & Ht & Ew).
  { destruct He as (y & Hy & _ & _ & Hd). rewrite Hxv in Hy. injection Hy as <-. rewrite Hwq in Hd.
    exists w.2. split; [done|]. destruct w; cbn in *; congruence. }
  assert (good c' low' w ∧ open_component c' pre v low' ∧ (∃ u, u ∈ stack c' ∧ idx_of c' u = low' ∧ reach c' v u) ∧
    (∀ u, u ∈ stack c' → reach c' u v)) as (Hgw & Hop & Hlo & Hre).
  { assert (reach c' v w) as Hvw by (apply Hr, rtc_once; exact He).
    destruct Hcase as [(Hst & Hex & Hlw)|((ext' & Hst & Hext') & Hedges & Hlw & (u1 & Hu1 & Eu1 & Ru1) & Hback)].
    - assert (low' = low) as Elow by lia. rewrite Elow in *. split; [by left|]. rewrite Hst. split_and!.
      + exists ext. split; [by rewrite Hst|]. intros u Hu. destruct (Ext u Hu) as [? Hed]. split; [auto|].
        intros x Hx. apply Hg, Hed. by apply (keeps_edge c c').
      + exists u0. destruct (Hstk u0 Hu0) as [_ ->]. auto.
      + intros u Hu. auto.
    - assert (∀ x, good c' (low_of c' w) x → good c' low' x) as Hg' by (intros x; apply good_mono; [done|done|lia]).
      assert (reach c' w v) as Hwv by (transitivity u1; [done|auto]).
      split; [|split; [|split]].
      + right. rewrite Hst. split; [apply elem_of_app; right; by left|].
        assert (w ∈ stack c') as Hws by (rewrite Hst; apply elem_of_app; right; by left).
        destruct (Hstk u1 Hu1) as [Hu1' _]. destruct Hrk as [Hsrt _]. rewrite Hst in Hsrt.
        apply StronglySorted_app in Hsrt as (Hlt' & _ & _). specialize (Hlt' u1 w Hu1 ltac:(by left)). lia.
      + exists (ext ++ w :: ext'). split; [by rewrite Hst, Eo, <- app_assoc|].
        intros u [Hu|Hu]%elem_of_app.
        * destruct (Ext u Hu) as [? Hed]. split; [auto|]. intros x Hx. apply Hg, Hed. by apply (keeps_edge c c').
        * apply elem_of_cons in Hu as [->|Hu]; [split; [done|]; intros x Hx; by apply Hg', Hedges|].
          destruct (Hext' u Hu) as [Hwu Hed]. split; [by transitivity w|]. intros x Hx. by apply Hg', Hed.
      + destruct (Z.min_spec low (low_of c' w)) as [[_ E]|[_ E]]; subst low'; rewrite E.
        * exists u0. destruct (Hstk u0 Hu0) as [? ->]. auto.
        * exists u1. destruct (Hstk u1 Hu1) as [? _]. split_and!; [done..|by transitivity w].
      + intros u Hu. transitivity w; [by apply Hback|done]. }
  assert (idx_of c' v = idx0) as Hself by (destruct (Hstk v Hvs) as [_ ->]; done).
  apply (visiting_next c0 pre v idx0 q idx' low' c' xv t); [|done|done|by rewrite <- Ew].
  split; [by transitivity c|done|done| |done|done|done| |done].
  - intros u Hu. destruct (Hpre u Hu) as (Hus & _). rewrite Hsame by done. by apply Sm.
  - intros x Hx Hq. apply Hg, Ed; [|done]. by apply (keeps_edge c c').
Qed.

Lemma Conflict_returns a b : executable a → executable b → returns (Conflict a b) (λ _, True).
Proof.
  intros Ha Hb. unfold Conflict. destruct (_ && _); [done|].
  destruct (Op a =? SCAN) eqn:Ea; [apply Z.eqb_eq in Ea; by destruct (scan_end_returns a Ha Ea) as [ub ->]|].
  destruct (Op b =? SCAN) eqn:Eb; [apply Z.eqb_eq in Eb; by destruct (scan_end_returns b Hb Eb) as [ub ->]|done].
Qed.

(** The low link of [v] is the bound. *)
Definition at_row c0 pre v idx0 q idx c : Prop :=
  ∃ low, visiting c0 pre v idx0 q idx low c ∧ low_of c v = low ∧ low ≤ idx0 ∧ idx0 < idx ∧ 1 ≤ idx0.

Definition row_done c0 pre v idx0 q (r : bool * Z * core) : Prop :=
  let '(ok, idx', c') := r in keeps c0 c' ∧ tidy c' ∧ (ok = true → at_row c0 pre v idx0 q idx' c').

Lemma block_row e c0 pre v idx0 q q' i idx low c :
  visiting c0 pre v idx0 q' idx low c → ensures (block e q i idx c) (row_done c0 pre v idx0 (q' + 1)).
Proof.
  intros Hv. eapply ensures_mono; [apply block_spec; apply Hv|].
  intros [[ok idx'] c'] (-> & Hk & Ht). split_and!; [|done..]. transitivity c; [apply Hv|done].
Qed.

(** Lowering the low link of [v] to that of a vertex it reached, or not. *)
Lemma write_low c0 pre v idx0 q idx low l c :
  visiting c0 pre v idx0 q idx (Z.min low l) c → low_of c v = low → low ≤ idx0 → idx0 < idx → 1 ≤ idx0 →
  is_Some (instanceSpace c !! v) →
  row_done c0 pre v idx0 q (true, idx, if l <? low then upd v (set Lowlink (λ _, l)) c else c).
Proof.
  intros Hv Hlow Hle Hlt H1 Hs. destruct (l <? low) eqn:El.
  - rewrite Z.min_r in Hv by lia. apply (visiting_set_low l) in Hv. split_and!; [apply Hv..|]. intros _.
    exists l. split_and!; [done| |lia..]. by apply (set_low_facts l v c).
  - rewrite Z.min_l in Hv by lia. split_and!; [apply Hv..|]. intros _. by exists low.
Qed.

Section Visit.
Variables (e : env) (sc : instanceID → Z → core → outcome (bool * Z * core)).
Hypothesis Hsc : ∀ v idx c, can_connect c v idx → ensures (sc v idx c) (connected c v idx).

(** The edge to [(q, i)], committed and not yet indexed, is followed. *)
Lemma visit_white c0 pre v idx0 q i idx c xv w :
  at_row c0 pre v idx0 q idx c → 0 ≤ q < cn c → 0 ≤ i → instanceSpace c !! v = Some xv → index (Deps xv) q = Some i →
  instanceSpace c !! (q, i) = Some w → Status w = COMMITTED → Index w = 0 →
  ensures ('(ok, index, c) ← sc (q, i) idx c;
    if negb ok then Done (false, index, c) else
    xw ← deref (q, i) c;
    xv ← deref v c;
    Done (true, index, if Lowlink xw <? Lowlink xv then upd v (set Lowlink (λ _, Lowlink xw)) c else c))
    (row_done c0 pre v idx0 (q + 1)).
Proof.
  intros (low & Hv & Hlow & Hle & Hlt & H1) Hq H0i Hxv Hi Hw Es E0.
  assert (edge c v (q, i)) as He by (exists xv; cbn; split_and!; [done|lia..|done]).
  eapply ensures_bind; [apply Hsc|].
  - split_and!; [apply Hv|apply Hv|lia|by exists w| |].
    + intros Hin. destruct (t_stack c (v_tidy _ _ _ _ _ _ _ _ Hv) _ Hin) as (y & Hy & _ & Hne & _). congruence.
    + intros u Hus. eapply rtc_r; [by apply (v_reach _ _ _ _ _ _ _ _ Hv)|done].
  - intros [[ok idx'] c'] Hc. destruct ok; cbn [negb].
    2: { destruct Hc as (Hk & Ht' & _). split_and!; [transitivity c; [apply Hv|done]|done..]. }
    destruct (visiting_call _ _ _ _ _ _ _ _ _ _ _ _ Hv Hlow Hle Hlt He eq_refl Hxv Hc) as (Hxv' & Hidx & Hv').
    destruct Hc as (Hk & _ & _). destruct (keeps_fwd _ _ _ _ Hk Hw) as (w' & Hw' & _).
    unfold deref. rewrite Hw', Hxv'. cbn [mbind outcome_bind ensures].
    assert (low_of c' (q, i) = Lowlink w') as El by (unfold low_of; by rewrite Hw').
    assert (low_of c' v = Lowlink xv ∧ low = Lowlink xv) as [El1 El2] by (unfold low_of in *; rewrite Hxv in Hlow; by rewrite Hxv').
    rewrite El in Hv'. rewrite <- El2. apply write_low; [done|congruence|lia..|by rewrite Hxv'].
Qed.

Lemma visit_spec c0 pre v idx0 q idx c :
  at_row c0 pre v idx0 q idx c → 0 ≤ q < cn c →
  ensures (visit e sc v q idx c) (row_done c0 pre v idx0 (q + 1)).
Proof.
  intros Hrow Hq. pose proof Hrow as (low & Hv & Hlow & Hle & Hlt & H1).
  pose proof (v_tidy _ _ _ _ _ _ _ _ Hv) as Ht.
  unfold visit. eapply ensures_bind; [apply deref_inv|]. intros xv Hxv. eapply ensures_bind; [apply at_index_inv|]. intros i Hi.
  eapply ensures_bind; [apply at_index_inv|]. intros upto Hu. cbn beta in *.
  assert (∀ b : 0 ≤ i → good c low (q, i), row_done c0 pre v idx0 (q + 1) (true, idx, c)) as Hgood.
  { intros Hg. split_and!; [apply Hv..|]. intros _. exists low. split_and!; [|done..]. by apply (visiting_next _ _ _ _ _ _ _ _ xv i). }
  destruct (i <=? upto) eqn:Ei; [apply Hgood; intros H0; left; eapply (t_prefix c Ht); [done|lia]|].
  eapply ensures_bind; [apply space_inv|]. intros inst (-> & _ & H0i).
  destruct (instanceSpace c !! (q, i)) as [w|] eqn:Hw; [|by eapply block_row].
  case_bool_decide as Hcmds; [by eapply block_row|].
  eapply (ensures_bind _ _ (λ _, True)); [by destruct (if transconf c then _ else _)|].
  intros _ _. destruct (Status w =? EXECUTED) eqn:Ex; [apply Hgood; intros _; left; apply (t_exec c Ht); exists w; split; [done|lia]|].
  destruct (Status w =? COMMITTED) eqn:Ec; [|by eapply block_row]. cbn [negb].
  destruct (Index w =? 0) eqn:E0; [by apply (visit_white c0 pre v idx0 q i idx c xv w); try lia|].
  assert (idx_of c (q, i) = Index w) as Eiw by (unfold idx_of; by rewrite Hw).
  assert (low = Lowlink xv) as El by (unfold low_of in Hlow; by rewrite Hxv in Hlow).
  destruct (decide ((q, i) ∈ stack c)) as [Hws|Hws].
  - destruct (t_stack c Ht _ Hws) as (w1 & Hw1 & _ & _ & Hon). rewrite Hw in Hw1. injection Hw1 as <-. rewrite Hon. cbn [andb].
    assert (edge c v (q, i)) as He by (exists xv; cbn; split_and!; [done|lia..|done]).
    rewrite <- El. cut (row_done c0 pre v idx0 (q + 1) (true, idx, if Index w <? low then upd v (set Lowlink (λ _, Index w)) c else c)).
    { by destruct (Index w <? low). }
    apply write_low; [|done|lia..|by rewrite Hxv].
    eapply (visiting_next _ _ _ _ q _ _ c xv i); [|done|done|intros _; right; split; [done|lia]].
    apply (visiting_lower _ _ _ _ _ _ low); [done|lia|]. destruct (Z.min_spec low (Index w)) as [[_ ->]|[_ ->]].
    + apply Hv.
    + exists (q, i). split_and!; [done..|by apply rtc_once].
  - destruct (t_marks c Ht _ _ Hw Hws) as [-> [?|Hf]]; [lia|]. apply Hgood. intros _. by left.
Qed.

Lemma visit_all_spec c0 pre v idx0 q idx c :
  at_row c0 pre v idx0 q idx c → 0 ≤ q → cn c = cn c0 →
  ensures (visit_all e sc v (rangeZ q (cn c - 1)) idx c) (row_done c0 pre v idx0 (cn c0)).
Proof.
  intros Hr Hq Hn. remember (Z.to_nat (cn c - q)) as k eqn:Ek. revert q idx c Hr Hq Hn Ek.
  induction k as [|k IH]; intros q idx c Hr Hq Hn Ek.
  - rewrite rangeZ_empty by lia. cbn. pose proof Hr as (low & Hv & ?). split_and!; [apply Hv..|]. intros _.
    exists low. split; [|done]. destruct Hv as [K T R Sm O Se L Ed Re]. split; try done.
    intros w Hw _. apply Ed; [done|]. destruct Hw as (_ & _ & Hw & _). lia.
  - rewrite rangeZ_cons by lia. cbn [visit_all]. eapply ensures_bind; [by apply visit_spec; [|lia]|].
    intros [[ok idx'] c'] (Hk & Ht & Hrow). destruct ok; cbn [negb]; [|by split_and!].
    pose proof (k_n _ _ Hk) as Hn'. replace (cn c) with (cn c') by congruence. apply IH; [by apply Hrow|lia..].
Qed.
End Visit.

(** *** The search is right *)
Lemma strongconnect_spec fuel e v idx c :
  can_connect c v idx → ensures (strongconnect fuel e v idx c) (connected c v idx).
Proof.
  revert v idx c. induction fuel as [|fuel IH]; intros v idx c Hcan; [exact I|].
  pose proof (enter_spec c v idx Hcan) as [Hv Hlow]. destruct Hcan as (Ht & Hr & H1 & _ & Hvn & Hre).
  cbn [strongconnect]. set (c1 := enter v idx c) in *. pose proof (v_tidy _ _ _ _ _ _ _ _ Hv) as Ht1.
  eapply ensures_bind; [apply deref_inv|]. intros x1 Hx1. cbn beta in Hx1. case_bool_decide as Hcmds.
  { eapply ensures_mono; [by apply block_spec|]. intros [[ok idx'] c'] (-> & Hk & Ht').
    split_and!; [transitivity c1; [apply Hv|done]|done..]. }
  eapply ensures_bind.
  { apply (visit_all_spec e (strongconnect fuel e) IH c (stack c) v idx 0); [|lia|done].
    exists idx. split_and!; [done..|lia|lia|lia]. }
  intros [[ok idx'] c'] (Hk & Ht' & Hrow). destruct ok; cbn [negb]; [|by split_and!].
  destruct (Hrow eq_refl) as (low & Hv' & Hlow' & Hle & Hlt & _).
  eapply ensures_bind; [apply deref_inv|]. intros x2 Hx2. cbn beta in Hx2.
  assert (idx_of c' v = Index x2 ∧ low_of c' v = Lowlink x2) as [Ei El] by (unfold idx_of, low_of; by rewrite Hx2).
  pose proof (λ u, visiting_pre _ _ _ _ _ _ _ _ u Hv') as Hpre.
  destruct Hv' as [_ _ R Sm (ext & Eo & Ext) Se (u & Hu & Eu & Ru) Ed Re].
  assert (∀ w, edge c' v w → good c' low w) as Hev.
  { intros w Hw. apply Ed; [done|]. destruct Hw as (y & _ & Hw & _). rewrite (k_n _ _ Hk) in Hw. lia. }
  destruct (Lowlink x2 =? Index x2) eqn:Eq.
  - assert (low = idx) as -> by lia.
    assert (∀ w, good c' idx w → finished c' w ∨ w ∈ v :: ext) as Hgood.
    { intros w [?|[Hw Hwi]]; [by left|]. right. rewrite Eo in Hw. apply elem_of_app in Hw as [Hw|Hw]; [|done].
      destruct (Hpre w Hw) as (_ & _ & ?). lia. }
    assert (∀ w, w ∈ v :: ext → reach c' v w ∧ reach c' w v) as Hcon.
    { intros w Hw. split; [|apply Re; rewrite Eo; apply elem_of_app; by right].
      apply elem_of_cons in Hw as [->|Hw]; [done|]. by apply Ext. }
    eapply ensures_bind; [apply (execute_component_spec c' (stack c) (v :: ext) idx')|]; [done|done|done|done| | |].
    + intros a b [->|Ha]%elem_of_cons Hab; apply Hgood; [by apply Hev|by apply (Ext a Ha)].
    + intros a b Ha Hb. transitivity v; [by apply Hcon|by apply Hcon].
    + intros c2 (Hk2 & Ht2 & Hst2 & Hsp2 & Hex2 & Hm2). cbn. split_and!; [by transitivity c'|done|]. intros _.
      pose proof (ranked_NoDup _ _ R) as Hnd. rewrite Eo in Hnd. apply NoDup_app in Hnd as (_ & Hdis & _).
      split_and!; [lia| | |left; split_and!; [done|apply Hex2; by left|]].
      * destruct R as [R1 R2]. rewrite Eo in R1. apply StronglySorted_app in R1 as (_ & R1 & _).
        split; rewrite Hst2.
        -- revert R1. apply StronglySorted_weaken. intros a b. destruct (Hm2 a) as [-> _], (Hm2 b) as [-> _]. done.
        -- intros a Ha. destruct (Hm2 a) as [-> _]. apply R2. rewrite Eo. apply elem_of_app. by left.
      * intros a Ha. rewrite Hsp2 by (intros ?; by eapply Hdis). by apply Sm.
      * destruct (Hm2 v) as [_ ->]. lia.
  - split_and!; [done..|]. intros _. split_and!; [lia|done|done|]. right. rewrite Hlow'. split_and!.
    + by exists ext.
    + done.
    + lia.
    + exists u. split_and!; [|done..]. rewrite Eo in Hu. apply elem_of_app in Hu as [?|Hu]; [done|].
      exfalso. assert (idx ≤ idx_of c' u); [|lia]. apply elem_of_cons in Hu as [->|Hu]; [lia|].
      destruct R as [R1 _]. rewrite Eo in R1. apply StronglySorted_app in R1 as (_ & _ & R1).
      apply StronglySorted_cons in R1 as [R1 _]. rewrite Forall_forall in R1. specialize (R1 u Hu). lia.
    + done.
Qed.

(** ** Between the searches of one call: the stack is garbage *)
Definition quiet (c : core) : Prop := tidy (c <| stack := [] |>).

Lemma quiet_same c c' : same_search c c' → quiet c → quiet c'.
Proof. intros [] Hq. eapply (tidy_same (c <| stack := [] |>)); [by split|exact Hq]. Qed.

Definition clear (x : Instance) : Instance := x <| Index := 0 |> <| onStack := false |>.

Lemma clear_marks_spec l c :
  let c' := foldl clear_mark c l in
  cn c' = cn c ∧ executedUpTo c' = executedUpTo c ∧ components c' = components c ∧
  ∀ u, instanceSpace c' !! u = if decide (u ∈ l) then clear <$> instanceSpace c !! u else instanceSpace c !! u.
Proof.
  revert c. induction l as [|v l IH]; intros c; cbn [foldl].
  { split_and!; [done..|]. intros u. by rewrite decide_False by apply not_elem_of_nil. }
  destruct (IH (clear_mark c v)) as (-> & -> & -> & Hsp). split_and!; [done..|].
  intros u. rewrite Hsp. cbn. destruct (decide (u = v)) as [->|Hne].
  - rewrite (decide_True (P := v ∈ v :: l)) by by left. rewrite lookup_alter_eq.
    case_decide; [|done]. by destruct (instanceSpace c !! v).
  - rewrite lookup_alter_ne by done. destruct (decide (u ∈ l)).
    + by rewrite decide_True by by right.
    + rewrite decide_False; [done|]. by intros [->|?]%elem_of_cons.
Qed.

Lemma quiet_clear c : tidy c → quiet (foldl clear_mark c (stack c)).
Proof.
  intros Ht. destruct (clear_marks_spec (stack c) c) as (En & Eu & Eo & Hsp). unfold quiet.
  set (c' := _ <| stack := [] |>).
  assert (∀ u x, instanceSpace c' !! u = Some x → ∃ y, instanceSpace c !! u = Some y ∧ Status x = Status y ∧
    (x = y ∧ u ∉ stack c ∨ Index x = 0 ∧ onStack x = false)) as Hin.
  { intros u x. cbn. rewrite Hsp. case_decide; [|intros Hx; exists x; split_and!; [done..|by left]].
    destruct (instanceSpace c !! u) as [y|]; [|done]. intros [= <-]. exists y. split_and!; [done..|by right]. }
  assert (keeps c c') as Hk.
  { split; [done..|intros u; unfold finished; cbn; by rewrite Eo|]. intros u. cbn. rewrite Hsp. case_decide; [|reflexivity].
    destruct (instanceSpace c !! u); constructor. split; [done|by left]. }
  assert (∀ u, executed c' u ↔ executed c u) as Hex.
  { intros u. split; [|by apply keeps_executed]. intros (x & Hx & Hs). destruct (Hin u x Hx) as (y & Hy & Es & _).
    exists y. split; congruence. }
  assert (∀ u, finished c' u ↔ finished c u) as Hfin by (intros u; unfold finished; cbn; by rewrite Eo).
  destruct (t_new c Ht) as (new & [N1 N2 N3 N4 N5]). split.
  - exists new. split; [by cbn; rewrite Eo|done| | |].
    + intros v Hv. rewrite Hex. by apply N3.
    + intros v. rewrite Hex. apply N4.
    + intros p b post Hb. apply (keeps_component c c'); [done|]. by eapply N5.
  - intros v Hv. apply Hex. by apply Ht.
  - intros v Hv%Hex. apply Hfin. by apply (t_exec c Ht).
  - cbn. rewrite Eu. intros q u j Hu Hj. apply Hfin. by eapply (t_prefix c Ht).
  - cbn. rewrite Eu. apply Ht.
  - intros u x Hx _. rewrite Hfin. destruct (Hin u x Hx) as (y & Hy & Es & [[-> Hn]|[-> ->]]); [|by auto]. by apply (t_marks c Ht u).
  - cbn. by intros u ?%not_elem_of_nil.
Qed.

Lemma findSCC_spec e root x c :
  quiet c → instanceSpace c !! root = Some x → Status x = COMMITTED →
  ensures (findSCC e root c) (λ '(ok, c'), quiet c').
Proof.
  intros Hq Hx Hs. unfold findSCC. set (c0 := c <| stack := [] |>) in *.
  eapply ensures_bind; [apply (strongconnect_spec (searchFuel c) e root 1 c0)|].
  - split_and!; [done| |lia|by exists x|by intros ?%not_elem_of_nil|by intros u ?%not_elem_of_nil].
    split; [constructor|]. by intros v ?%not_elem_of_nil.
  - intros [[ok idx] c'] (Hk & Ht & _). by apply quiet_clear.
Qed.

Lemma executeCommand_spec e q i c : quiet c → ensures (executeCommand e q i c) (λ '(ok, c'), quiet c').
Proof.
  intros Hc. unfold executeCommand. eapply ensures_bind; [apply space_inv|]. intros inst (-> & _ & _).
  destruct (instanceSpace c !! (q, i)) as [x|] eqn:Hx; [|done]. destruct (_ =? EXECUTED); [done|].
  destruct (Status x =? COMMITTED) eqn:Es; [|done]. cbn [negb]. eapply ensures_bind; [eapply findSCC_spec; [done..|lia]|].
  by intros [ok c'] H.
Qed.

Lemma quiet_blockedOn e q i now c : quiet c → ensures (blockedOn e q i now c) quiet.
Proof. intros Hc. eapply ensures_mono; [apply blockedOn_same|]. intros c' Hss. by eapply quiet_same. Qed.

Lemma quiet_advance q u k c :
  quiet c → 0 ≤ q → index (executedUpTo c) q = Some u → executed c (q, i32 (u + 1)) →
  quiet (c <| executedUpTo ::= alter (λ u, i32 (u + 1)) (Z.to_nat q) |> <| blocked ::= delete k |>).
Proof.
  intros Hc Hq Hu He. destruct Hc as [(new & [N1 N2 N3 N4 N5]) T2 T3 T4 T5 T6 T7]. rewrite index_nonneg in Hu by done.
  pose proof (Forall_lookup_1 _ _ _ _ T5 Hu) as Hur. cbn beta in Hur.
  assert (- 2 ^ 31 ≤ i32 (u + 1) < 2 ^ 31 ∧ i32 (u + 1) ≤ u + 1) as [Hw Hlt].
  { pose proof (wrapS_bound 32 (u + 1) ltac:(lia)) as Hb. change (32 - 1) with 31 in Hb. split; [done|].
    destruct (decide (u + 1 < 2 ^ 31)); [|lia]. rewrite wrapS_id; [done|lia|]. change (32 - 1) with 31. lia. }
  split; try done.
  - exists new. split; try done. intros p b post Hb. destruct (N5 p b post Hb) as [C1 C2 C3 C4]. by split.
  - cbn. intros p v j Hv Hj. destruct (decide (0 ≤ p)) as [Hp|Hp].
    2: { unfold index in Hv. case_match; first [done|lia]. }
    rewrite index_nonneg in Hv by done. destruct (decide (p = q)) as [->|Hne].
    + rewrite list_lookup_alter_eq in Hv. rewrite Hu in Hv. cbn in Hv. injection Hv as <-.
      destruct (decide (j = i32 (u + 1))) as [->|Hj']; [by apply T3|]. apply (T4 q u j); [cbn; by rewrite index_nonneg|lia].
    + rewrite list_lookup_alter_ne in Hv by lia. apply (T4 p v j); [cbn; by rewrite index_nonneg|done].
  - cbn. apply Forall_lookup_2. intros j v. destruct (decide (j = Z.to_nat q)) as [->|Hne].
    + rewrite list_lookup_alter_eq. cbn in Hu. rewrite Hu. cbn. intros [= <-]. done.
    + rewrite list_lookup_alter_ne by done. intros Hv. exact (Forall_lookup_1 _ _ j v T5 Hv).
Qed.

Lemma apply_row_spec budget e now q c : quiet c → 0 ≤ q → ensures (apply_row budget e now q c) quiet.
Proof.
  revert c. induction budget as [|budget IH]; intros c Hc Hq; [done|]. cbn [apply_row].
  eapply ensures_bind; [apply at_index_inv|]. intros u Hu. cbn beta in Hu.
  eapply ensures_bind; [apply at_index_inv|]. intros crt _. destruct (crt <? i32 (u + 1)); [done|].
  eapply ensures_bind; [apply space_inv|]. intros inst (-> & _ & _).
  destruct (instanceSpace c !! _) as [x|] eqn:Hx; [|by apply quiet_blockedOn].
  destruct (Status x =? EXECUTED) eqn:Es.
  - apply IH; [|done]. apply (quiet_advance q u); [done..|]. exists x. split; [done|lia].
  - destruct (_ || _); [by apply quiet_blockedOn|].
    eapply ensures_bind; [by apply executeCommand_spec|]. intros [ok c'] Hc'. destruct ok; [|done]. by apply IH.
Qed.

Lemma quiet_apply e now c : quiet c → ensures (apply e now c) quiet.
Proof.
  intros Hc. unfold apply. apply ensures_forEach_in; [done|]. intros q c' Hq%elem_of_rangeZ Hc'. apply apply_row_spec; [done|lia].
Qed.
End From.

(** ** One call of [apply] *)
Lemma calm_quiet c : calm c → quiet c c.
Proof.
  intros [M1 M2 M3 M4]. split; try done.
  - exists []. split; cbn; [by rewrite app_nil_r|constructor|by intros v ?%not_elem_of_nil|by left|by intros [|??] ?].
  - intros v x Hx _. by apply M1.
  - by intros v ?%not_elem_of_nil.
Qed.

Lemma quiet_calm origin c : quiet origin c → calm c.
Proof. intros [_ _ T3 T4 T5 T6 _]. split; try done. intros v x Hx. apply (T6 v x Hx). apply not_elem_of_nil. Qed.

(** A call of [apply] from a calm state leaves a calm state, and executes
    components in order of their dependencies. *)
Lemma apply_spec e now c : calm c → ensures (apply e now c) (λ c', calm c' ∧ ∃ new, extends c c' new).
Proof.
  intros Hc. eapply ensures_mono; [by apply (quiet_apply c), calm_quiet|]. intros c' Hq.
  split; [by eapply quiet_calm|]. destruct (t_new _ _ Hq) as (new & [N1 N2 N3 N4 N5]). exists new. split; try done.
  intros p b post Hb. destruct (N5 p b post Hb). by split.
Qed.

Lemma calm_new n f id bw tc ra : calm (newCore n f id bw tc ra).
Proof.
  assert (∀ v x, instanceSpace (newCore n f id bw tc ra) !! v = Some x → False) as Hno.
  { intros v x. cbn. by rewrite lookup_empty. }
  split.
  - intros v x Hx. by apply Hno in Hx.
  - intros v (x & Hx & _). by apply Hno in Hx.
  - intros q u j Hu Hj. unfold index in Hu. cbn in Hu. case_match; [done|]. apply lookup_replicate in Hu as [-> _]. lia.
  - apply Forall_replicate. lia.
Qed.
End Order.
End EpaxosOrder.
