(* ===== verification/EpaxosReplica.v ===== *)
(** * EpaxosReplica: dispatch, the replica around the core, and the cluster

    [receive] and [tick] of [epaxos/core.go], batching and the stable record of
    [epaxos/replica.go], what a message becomes on the wire, and clusters of
    cores: a cluster's run is a list of steps, each a proposal, a delivery of a
    message some replica has sent to this one, the start of a scheduled
    recovery, or a timer.  Runs are executable. *)
From stdpp Require Import gmap strings list fin_maps fin_sets.
From Stdlib Require Import Lia.
From S2P Require Import Prelude State Defs Transport Epaxos EpaxosCore EpaxosRecovery EpaxosExecute.

Module EpaxosReplica.
Import Epaxos EpaxosCore EpaxosRecovery EpaxosExecute.
Section Replica.
Context {SM : StateMachine}.

(** ** Dispatch ([core.go]) *)
Inductive input :=
  | IMessage (m : message)
  | IBeacon
  | IInstance (v : instanceID)
  | ILeaderCall
  | INil             (* a nil pointer of one of the types above *)
  | IOther.          (* any other type *)

Definition UnsupportedEvent : string := "epaxos: unsupported event".

Definition handle (e : env) (m : message) (c : core) : outcome core :=
  match m with
  | MPrepare m => handlePrepare e m c
  | MPreAccept m => handlePreAccept e m c
  | MAccept m => handleAccept e m c
  | MCommit m => handleCommit e m c
  | MPrepareReply m => handlePrepareReply e m c
  | MPreAcceptReply m => handlePreAcceptReply e m c
  | MAcceptReply m => handleAcceptReply e m c
  | MTryPreAccept m => handleTryPreAccept e m c
  | MTryPreAcceptReply m => handleTryPreAcceptReply e m c
  | MRepairRequest m => handleRepairRequest e m c
  end.

Definition receive (e : env) (i : input) (c : core) : outcome (option string * core) :=
  match i with
  | IMessage m => c ← handle e m c; Done (None, c)
  | IBeacon => Done (None, emit RepliedBeacon c)
  | IInstance v => c ← startRecoveryForInstance e v c; Done (None, c)
  | ILeaderCall => Done (None, handleLeaderCall c)
  | INil | IOther => Done (Some UnsupportedEvent, c)
  end.

Definition tick (e : env) (t : Tick) (c : core) : outcome (option string * core) :=
  match TickKind t with
  | Maintenance =>
      c ← repairTick e (TickNow t) c;
      c ← (if executeEnabled e then apply e (TickNow t) c else Done c);
      Done (None, c)
  | Slow => Done (None, emit BeaconTicked c)
  | Batch => Done (Some "epaxos: unsupported timer"%string, c)
  end.

(** ** Proposals ([replica.go]) *)
Definition ErrInvalidProposal : string := "protocol: nil proposal".

(** [Propose] takes one proposal and drains the queue up to the batch size; the
    rest of the queue is returned.  The channel read blocks on a queue that is
    too short, which [count <= len(ProposeChan) + 1] excludes. *)
Definition Propose (e : env) (p : option Defs.Propose) (queue : list Defs.Propose) (c : core)
    : outcome (option string * list Defs.Propose * core) :=
  match p with
  | None => Done (Some ErrInvalidProposal, queue, c)
  | Some p =>
      '(count, c) ← beginProposalBatch (Z.of_nat (length queue)) c;
      let rest := Z.to_nat (count - 1) in
      c ← submit e (p :: take rest queue) c;
      Done (None, drop rest queue, c)
  end.

(** *** The stable record of an instance *)
Definition write_at (b : bytes) (l : nat) (v : bytes) : outcome bytes :=
  if (l + length v <=? length b)%nat then Done (take l b ++ v ++ drop (l + length v) b) else Panicked "index out of range".

Fixpoint write_deps (b : bytes) (l : nat) (dps : list Z) : outcome bytes :=
  match dps with
  | [] => Done b
  | d :: dps => b ← write_at b l (le_encode 4 (u32 d)); write_deps b (l + 4) dps
  end.

(** The bytes written to the stable store. *)
Definition recordInstanceMetadata (n : Z) (x : Instance) : outcome bytes :=
  let b := replicate (Z.to_nat (9 + n * 4)) 0 in
  b ← write_at b 0 (le_encode 4 (u32 (bal x)));
  b ← write_at b 0 (le_encode 4 (u32 (vbal x)));
  b ← write_at b 4 [u8 (Status x)];
  b ← write_at b 5 (le_encode 4 (u32 (Seq x)));
  write_deps b 9 (Deps x).

(** ** The wire *)

(** Decoding makes an empty slice of a nil one ([NormalizeProto]), and
    [PrepareReply.VBallot] is not encoded. *)
Definition wire_commands (l : option (list Command)) : option (list Command) := Some (default [] l).

Definition wire_attributes (m : Attributes) : Attributes :=
  mkAttributes (m_LeaderId m) (m_Replica m) (m_Instance m) (m_Ballot m) (wire_commands (m_Command m)) (m_Seq m) (m_Deps m).

Definition wire_prepareReply (m : PrepareReply) : PrepareReply :=
  mkPrepareReply 0 (pr_AcceptorId m) (pr_Replica m) (pr_Instance m) (pr_Ballot m) (pr_Status m)
    (wire_commands (pr_Command m)) (pr_Seq m) (pr_Deps m).

Definition over_wire (m : message) : message :=
  match m with
  | MPreAccept m => MPreAccept (wire_attributes m)
  | MAccept m => MAccept (wire_attributes m)
  | MCommit m => MCommit (wire_attributes m)
  | MTryPreAccept m => MTryPreAccept (wire_attributes m)
  | MPrepareReply m => MPrepareReply (wire_prepareReply m)
  | m => m
  end.

(** [Replica.broadcast] and [Replica.Send]: the peers a call reaches when
    [alive] are up ([Alive] of the runtime, which is not [peerAlive]). *)
Definition sender (c : core) (alive : Z → bool) : Transport.MessageSender :=
  Transport.mkMessageSender (Msg:=message) (Frame:=message) (St:=()) (cid c) (cn c) (Some alive) (λ _ _ st, (None, st)) None.

Definition reaches (c : core) (alive : Z → bool) (ev : event) : list (Z * message) :=
  match ev with
  | Sent to m => (λ a, (a, m)) <$> Transport.tried (sender c alive) (Transport.mkSendPlan (Some [to]) 0 false None)
  | Broadcast order limit m => (λ a, (a, m)) <$> Transport.tried (sender c alive) (Transport.mkSendPlan order limit false None)
  | _ => []
  end.

(** ** Clusters *)
Inductive step :=
  | SPropose (a : Z) (p : Defs.Propose) (queue : list Defs.Propose) (e : env)
  | SDeliver (src dst : Z) (k : nat) (alive : Z → bool) (e : env)   (* call [k] of [src] *)
  | SRecover (a : Z) (e : env)
  | STick (a : Z) (t : Tick) (e : env)
  | SLead (a : Z) (e : env).

Definition target (s : step) : Z :=
  match s with SPropose a _ _ _ | SDeliver _ a _ _ _ | SRecover a _ | STick a _ _ | SLead a _ => a end.

(** The message of call [k] of [src] that is addressed to [dst]. *)
Definition sent_to (cs : list core) (src dst : Z) (k : nat) (alive : Z → bool) : option message :=
  s ← index cs src;
  ev ← out s !! k;
  p ← head (filter (λ am, am.1 = dst) (reaches s alive ev));
  Some (over_wire p.2).

(** What a step makes of its target; [None] if it is not enabled. *)
Definition step_core (cs : list core) (s : step) (c : core) : option (outcome core) :=
  match s with
  | SPropose _ p queue e => Some ('(_, _, c) ← Propose e (Some p) queue c; Done c)
  | SDeliver src dst k alive e =>
      m ← sent_to cs src dst k alive;
      Some ('(_, c) ← receive e (IMessage m) c; Done c)
  | SRecover _ e =>
      match instancesToRecover c with
      | v :: rest => Some ('(_, c) ← receive e (IInstance v) (c <| instancesToRecover := rest |>); Done c)
      | [] => None
      end
  | STick _ t e => Some ('(_, c) ← tick e t c; Done c)
  | SLead _ e => Some ('(_, c) ← receive e ILeaderCall c; Done c)
  end.

Definition exec (s : step) (cs : list core) : outcome (list core) :=
  match index cs (target s) with
  | None => Done cs
  | Some c =>
      match step_core cs s c with
      | None => Done cs
      | Some o => c ← o; Done (<[Z.to_nat (target s) := c]> cs)
      end
  end.

Definition run : list step → list core → outcome (list core) := forEach exec.

(** The replicas of a cluster at start. *)
Definition start (n f bw : Z) (tc ra : bool) : list core := (λ id, newCore n f id bw tc ra) <$> rangeZ 0 (n - 1).
End Replica.
End EpaxosReplica.
