(* ===== verification/EpaxosEnds.v ===== *)
(** * EpaxosEnds: the search of EPaxos always ends

    Whatever the state, reachable or not: a visit gives its instance an index,
    the search follows an edge only to an instance without one, so its depth is
    bounded by the number of instances; a row takes at most 128 rounds. *)
From stdpp Require Import gmap strings list fin_maps fin_sets.
From Stdlib Require Import Lia.
From S2P Require Import Prelude State ReplicaSet Defs Epaxos EpaxosCore EpaxosRecovery EpaxosExecute EpaxosReplica.

Module EpaxosEnds.
Import Epaxos EpaxosCore EpaxosRecovery EpaxosExecute EpaxosReplica.
Section Ends.
Context {SM : StateMachine}.

(** The instances without an index. *)
Definition indexes (c : core) : gmap instanceID Z := Index <$> instanceSpace c.
Definition white (c : core) : gset instanceID := dom (filter (λ '(_, i), i = 0) (indexes c)).

Lemma elem_of_white c v : v ∈ white c ↔ ∃ x, instanceSpace c !! v = Some x ∧ Index x = 0.
Proof.
  unfold white, indexes. rewrite elem_of_dom. split.
  - intros [i Hi]. apply map_lookup_filter_Some in Hi as [Hi ->]. rewrite lookup_fmap in Hi.
    destruct (instanceSpace c !! v) as [x|]; [|done]. exists x. by injection Hi.
  - intros (x & Hx & Hi). exists 0. apply map_lookup_filter_Some. by rewrite lookup_fmap, Hx, <- Hi.
Qed.

Lemma white_size c : (size (white c) ≤ size (instanceSpace c))%nat.
Proof.
  unfold white. rewrite size_dom. etrans; [apply map_size_filter|]. unfold indexes. by rewrite map_size_fmap.
Qed.

Lemma white_same c c' : indexes c' = indexes c → white c' = white c.
Proof. unfold white. by intros ->. Qed.

(** ** Pieces that keep the indexes *)
Lemma at_index_ends {A} (l : list A) i : ends (at_index l i) (λ _, True).
Proof. unfold at_index. by destruct (index l i). Qed.
Lemma deref_ends v c : ends (deref v c) (λ _, True).
Proof. unfold deref. by destruct (instanceSpace c !! v). Qed.
Lemma space_ends q i c : ends (space q i c) (λ o, o = instanceSpace c !! (q, i)).
Proof. unfold space. by destruct (in_space q i c). Qed.

Lemma indexes_upd f v c : (∀ x, Index (f x) = Index x) → indexes (upd v f c) = indexes c.
Proof.
  intros Hf. unfold indexes. cbn. apply map_eq. intros u. rewrite !lookup_fmap, lookup_alter.
  case_decide; [subst u|done]. destruct (instanceSpace c !! v); cbn; congruence.
Qed.

Lemma raise_crt_ends q i c : ends (raise_crt q i c) (λ c', indexes c' = indexes c).
Proof. unfold raise_crt, at_index. destruct (index _ _); [|exact I]. cbn. by case_match. Qed.

Lemma scheduleRecovery_indexes q i now c : indexes (scheduleRecovery q i now c).2 = indexes c.
Proof. unfold scheduleRecovery. by repeat case_match. Qed.

Lemma blockedOn_ends e q i now c : ends (blockedOn e q i now c) (λ c', indexes c' = indexes c).
Proof.
  unfold blockedOn. eapply ends_bind; [apply raise_crt_ends|]. intros c1 E.
  destruct (blocked c1 !! _) as [first|]; [|exact E]. case_match; [exact E|]. case_match; [|exact E].
  cbn. by rewrite scheduleRecovery_indexes.
Qed.

Lemma block_ends e q i idx c : ends (block e q i idx c) (λ '(_, idx', c'), idx' = idx ∧ indexes c' = indexes c).
Proof. unfold block. eapply ends_bind; [apply blockedOn_ends|]. intros c' E. by split. Qed.

Lemma Conflict_ends a b : ends (Conflict a b) (λ _, True).
Proof.
  assert (∀ c, ends (scan_end c) (λ _, True)) as Hs.
  { intros c. unfold scan_end, Uint64. by repeat (case_match; cbn). }
  unfold Conflict. case_match; [done|]. case_match; [eapply ends_bind; [apply Hs|done]|].
  case_match; [eapply ends_bind; [apply Hs|done]|done].
Qed.

Lemma compare_commands_ends v w : ends (compare_commands v w) (λ _, True).
Proof.
  unfold compare_commands. apply (ends_forEach _ (λ _, True)); [done..|]. intros a _ _ _.
  apply (ends_forEach _ (λ _, True)); [done..|]. intros b _ _ _. eapply ends_bind; [apply Conflict_ends|done].
Qed.

(** ** The search *)
Hypothesis sm_terminates : ∀ cmd s, sm_execute cmd s ≠ OutOfFuel.

Lemma execute_command_ends x ic c : ends (execute_command x ic c) (λ c', indexes c' = indexes c).
Proof.
  destruct ic as [i cmd]. unfold execute_command. pose proof (sm_terminates cmd (sm c)) as Hs.
  case_match; [done|]. case_match; [|case_match; [|done]]; destruct (sm_execute cmd (sm c)) as [[val st]| |]; try done.
  cbn. unfold at_index. by destruct (index _ i).
Qed.

Lemma execute_instance_ends w c : ends (execute_instance w c) (λ c', indexes c' = indexes c).
Proof.
  unfold execute_instance. eapply ends_bind; [apply deref_ends|]. intros x _. eapply ends_bind.
  - apply (ends_forEach _ (λ _, True) (λ c', indexes c' = indexes c)); [done..|].
    intros ic c' _ E. eapply ends_mono; [apply execute_command_ends|]. intros c2 E2. by rewrite E2.
  - intros c' E. etrans; [|exact E].
    by apply (indexes_upd (λ x : Instance, x <| Status := EXECUTED |> <| onStack := false |>) w c').
Qed.

Lemma execute_component_ends l c : ends (execute_component l c) (λ c', indexes c' = indexes c).
Proof.
  unfold execute_component. eapply ends_bind; [|intros c' E; exact E].
  apply (ends_forEach _ (λ _, True) (λ c', indexes c' = indexes c)); [done..|].
  intros w c' _ E. eapply ends_mono; [apply execute_instance_ends|]. intros c2 E2. by rewrite E2.
Qed.

(** A visit from [W], the instances that may still have no index: the indexes
    given grow, and no instance loses its index. *)
Definition went (W : gset instanceID) (idx : Z) (r : bool * Z * core) : Prop :=
  let '(_, idx', c') := r in idx ≤ idx' ∧ white c' ⊆ W.

Section Visit.
Variables (e : env) (fuel : nat) (sc : instanceID → Z → core → outcome (bool * Z * core)).
Hypothesis Hsc : ∀ v idx c, 1 ≤ idx → (size (white c ∖ {[ v ]}) < fuel)%nat → ends (sc v idx c) (went (white c) idx).

Lemma visit_ends v q idx c W :
  1 ≤ idx → white c ⊆ W → (size W ≤ fuel)%nat → ends (visit e sc v q idx c) (went W idx).
Proof.
  intros H1 HW Hf. unfold visit. assert (∀ b, went W idx (b, idx, c)) as Hsame by (intros b; split; [lia|done]).
  assert (∀ l, went W idx (true, idx, upd v (set Lowlink (λ _, l)) c)) as Hlow.
  { intros l. split; [lia|]. by rewrite (white_same c) by by apply indexes_upd. }
  assert (∀ i, ends (block e q i idx c) (went W idx)) as Hblock.
  { intros i. eapply ends_mono; [apply block_ends|]. intros [[b idx'] c'] [-> E]. split; [lia|]. by rewrite (white_same c). }
  eapply ends_bind; [apply deref_ends|]. intros xv _. eapply ends_bind; [apply at_index_ends|]. intros i _.
  eapply ends_bind; [apply at_index_ends|]. intros upto _. case_match; [apply Hsame|].
  eapply ends_bind; [apply space_ends|]. intros inst ->. destruct (instanceSpace c !! (q, i)) as [w|] eqn:Hw; [|apply Hblock].
  case_match; [apply Hblock|].
  eapply (ends_bind _ _ (λ _, True)); [destruct (transconf c); [apply compare_commands_ends|done]|]. intros _ _.
  case_match; [apply Hsame|]. case_match; [apply Hblock|].
  destruct (Index w =? 0) eqn:E0; [|case_match; [apply Hlow|apply Hsame]].
  assert ((q, i) ∈ white c) as Hin by (apply elem_of_white; exists w; split; [done|lia]).
  eapply ends_bind; [apply Hsc; [done|]|].
  - apply Nat.lt_le_trans with (size (white c)); [apply subset_size; set_solver|]. etrans; [by apply subseteq_size|done].
  - intros [[ok idx'] c'] [Hi Hw']. assert (white c' ⊆ W) by set_solver. destruct ok; [|by split].
    eapply ends_bind; [apply deref_ends|]. intros xw _. eapply ends_bind; [apply deref_ends|]. intros xv' _. cbn.
    split; [done|]. case_match; [|done]. by rewrite (white_same c') by by apply indexes_upd.
Qed.

Lemma visit_all_ends v qs idx c W :
  1 ≤ idx → white c ⊆ W → (size W ≤ fuel)%nat → ends (visit_all e sc v qs idx c) (went W idx).
Proof.
  revert idx c. induction qs as [|q qs IH]; intros idx c H1 HW Hf; [by split|]. cbn [visit_all].
  eapply ends_bind; [by apply visit_ends|]. intros [[ok idx'] c'] [Hi Hw]. destruct ok; [|by split]. cbn [negb].
  eapply ends_mono; [apply IH; [lia|done|done]|]. intros [[ok2 idx2] c2] [Hi2 Hw2]. split; [lia|done].
Qed.
End Visit.

Lemma white_enter v idx c : idx ≠ 0 → white (enter v idx c) ⊆ white c ∖ {[ v ]}.
Proof.
  intros Hi u. rewrite elem_of_difference, not_elem_of_singleton, !elem_of_white. cbn. intros (x & Hx & Ei).
  rewrite lookup_alter in Hx. case_decide as Hu; [|by split; [exists x|]].
  subst u. destruct (instanceSpace c !! v); [|done]. injection Hx as <-. by cbn in Ei.
Qed.

Lemma strongconnect_ends fuel e v idx c :
  1 ≤ idx → (size (white c ∖ {[ v ]}) < fuel)%nat → ends (strongconnect fuel e v idx c) (went (white c) idx).
Proof.
  revert v idx c. induction fuel as [|fuel IH]; intros v idx c H1 Hf; [lia|]. cbn [strongconnect].
  pose proof (white_enter v idx c ltac:(lia)) as He. set (W := white c ∖ {[ v ]}) in *. assert (W ⊆ white c) as HW by set_solver.
  eapply ends_bind; [apply deref_ends|]. intros x _. case_match.
  { eapply ends_mono; [apply block_ends|]. intros [[b idx'] c'] [-> E]. split; [lia|]. rewrite (white_same _ _ E). set_solver. }
  eapply ends_bind; [apply (visit_all_ends e fuel (strongconnect fuel e) IH v _ _ _ W); [lia|done|lia]|].
  intros [[ok idx'] c'] [Hi Hw]. assert (went (white c) idx (true, idx', c')) as Hgo by (split; [lia|set_solver]).
  destruct ok; [|exact Hgo]. cbn [negb]. eapply ends_bind; [apply deref_ends|]. intros x' _. case_match; [|exact Hgo].
  eapply ends_bind; [apply execute_component_ends|]. intros c2 E. cbn. rewrite (white_same _ _ E). exact Hgo.
Qed.

Lemma findSCC_ends e root c : ends (findSCC e root c) (λ _, True).
Proof.
  unfold findSCC. eapply ends_bind; [apply strongconnect_ends; [lia|]|by intros [[ok idx] c'] _].
  unfold searchFuel. apply Nat.lt_succ_r. change (white (c <| stack := [] |>)) with (white c).
  etrans; [|apply white_size]. apply subseteq_size. set_solver.
Qed.

Lemma executeCommand_ends e q i c : ends (executeCommand e q i c) (λ _, True).
Proof.
  unfold executeCommand. eapply ends_bind; [apply space_ends|]. intros inst _. case_match; [|done].
  case_match; [done|]. case_match; [done|]. eapply ends_bind; [apply findSCC_ends|]. by intros [ok c'] _.
Qed.

Lemma apply_row_ends budget e now q c : ends (apply_row budget e now q c) (λ _, True).
Proof.
  revert c. induction budget as [|budget IH]; intros c; [done|]. cbn [apply_row].
  assert (∀ i, ends (blockedOn e q i now c) (λ _, True)) as Hblock by (intros i; eapply ends_mono; [apply blockedOn_ends|done]).
  eapply ends_bind; [apply at_index_ends|]. intros upto _. eapply ends_bind; [apply at_index_ends|]. intros crt _.
  case_match; [done|]. eapply ends_bind; [apply space_ends|]. intros inst _. case_match; [|apply Hblock].
  case_match; [apply IH|]. case_match; [apply Hblock|].
  eapply ends_bind; [apply executeCommand_ends|]. intros [ok c'] _. by destruct ok.
Qed.

(** ** Repair: its loops are over lists *)
Lemma startRecoveryForInstance_ends e v c : ends (startRecoveryForInstance e v c) (λ _, True).
Proof.
  unfold startRecoveryForInstance. eapply ends_bind; [apply space_ends|]. intros inst _. case_match; [done|].
  apply (ends_bind _ _ (λ _, True)).
  { unfold ensure_instance. eapply ends_bind; [apply space_ends|]. intros o _. by case_match. }
  intros [x c'] _. apply (ends_bind _ _ (λ _, True)); [|by intros [b c2] _].
  unfold newLeaderBookkeepingDefault, newLeaderBookkeeping.
  assert (∀ l, ends (ReplicaSet.New l) (λ _, True)) as Hn.
  { intros l. unfold ReplicaSet.New. generalize 0. induction l as [|i l IH]; intros s; [done|]. cbn. case_match; [apply IH|done]. }
  repeat (eapply ends_bind; [apply Hn|]; intros ? _). done.
Qed.

Lemma repairTick_ends e now c : ends (repairTick e now c) (λ _, True).
Proof.
  assert (∀ q i c, ends (blockedOn e q i now c) (λ _, True)) as Hb by (intros; eapply ends_mono; [apply blockedOn_ends|done]).
  unfold repairTick. eapply ends_bind.
  { unfold scan_gaps. case_match; [exact I|]. apply (ends_forEach _ (λ _, True) (λ _, True)); [done..|]. intros q c1 _ _. unfold scan_row.
    eapply ends_bind; [apply at_index_ends|]. intros crt _. eapply ends_bind; [apply at_index_ends|]. intros upto _.
    apply (ends_forEach _ (λ _, True)); [done..|]. intros i c2 _ _. unfold scan_slot.
    eapply ends_bind; [apply space_ends|]. intros inst _. destruct (from_option _ _ _); [done|apply Hb]. }
  intros c1 _. eapply ends_bind.
  { apply (ends_forEach _ (λ _, True) (λ _, True)); [done..|]. intros k c2 _ _. unfold retry_blocked.
    eapply ends_bind; [apply space_ends|]. intros inst _. destruct (from_option _ _ _); [done|apply Hb]. }
  intros c2 _. apply (ends_forEach _ (λ _, True)); [done..|]. intros v c3 _ _. unfold check_active.
  eapply ends_bind; [apply space_ends|]. intros inst _. destruct (inst ≫= _) as [[x b]|]; [|done].
  repeat (case_match; [done|]). case_match; [|done]. case_match; [apply startRecoveryForInstance_ends|done].
Qed.

(** C9.  Execution always ends.  Whatever the state of a replica, reachable or
    not, and whatever the instances depend on, cyclic, missing or uncommitted, a
    timer's tick (repair, then the search for instances to execute) comes to an
    end: the search goes into each instance at most once, so the number of
    instances bounds its depth, and a row takes at most 128 rounds. *)
Theorem tick_ends e t c : tick e t c ≠ OutOfFuel.
Proof.
  assert (ends (tick e t c) (λ _, True)) as H; [|by destruct (tick e t c)].
  unfold tick. case_match; [|exact I..]. eapply ends_bind; [apply repairTick_ends|]. intros c1 _.
  eapply ends_bind; [|by intros c2 _]. instantiate (1 := λ _, True). case_match; [|done].
  unfold apply. apply (ends_forEach _ (λ _, True)); [done..|]. intros q c2 _ _. apply apply_row_ends.
Qed.
End Ends.

(** *** A cycle whose members wait for an instance that is not committed *)
Section Demo.
#[local] Existing Instance demo_machine.

Definition committed_demo (seq : Z) (deps : list Z) : Instance :=
  mkInstance (Some [mkCommand PUT 1 [seq]]) 0 0 COMMITTED seq deps None 0 0 false 0.
Definition waiting_demo : core :=
  newCore 2 1 0 0 false false <| crtInstance := [1; 1] |>
    <| instanceSpace := {[ (0, 0) := committed_demo 2 [-1; 0]; (1, 0) := committed_demo 1 [0; -1];
                           (0, 1) := committed_demo 3 [0; 1]; (1, 1) := committed_demo 4 [2; 0] ]} |>.
Definition env_demo : env := mkEnv (λ k, Z.of_nat k) (λ _, true) [] [] [] true.
Definition tick_demo : Tick := mkTick Maintenance 0 [].

Lemma tick_ends_witness :
  components (result_or (None, waiting_demo) (tick env_demo tick_demo waiting_demo)).2 = [[(1, 0); (0, 0)]] ∧
  tick env_demo tick_demo waiting_demo ≠ OutOfFuel.
Proof. split; [vm_compute; reflexivity|]. apply tick_ends. exact demo_terminates. Defined.
End Demo.
End EpaxosEnds.
