(* ===== verification/EpaxosSteps.v ===== *)
(** * EpaxosSteps: what the runs of a cluster execute

    [EpaxosOrder] is about one call of [apply], from a calm state.  Here the
    handlers of [EpaxosCore] and [EpaxosRecovery] are shown to leave the marks of
    the search, the executed prefixes and the executed components alone, and to
    mark nothing [EXECUTED] ([touch]), so that every state a run of a cluster
    reaches is calm, and every step of a run executes components in the order of
    their dependencies ([execution_order]). *)
From stdpp Require Import gmap strings list fin_maps fin_sets sorting relations.
From Stdlib Require Import Lia.
From S2P Require Import Prelude State ReplicaSet Defs Transport Epaxos EpaxosCore EpaxosRecovery EpaxosExecute EpaxosOrder EpaxosReplica.

Module EpaxosSteps.
Import Epaxos EpaxosCore EpaxosRecovery EpaxosExecute EpaxosOrder EpaxosReplica.
Section Steps.
Context {SM : StateMachine}.

(** ** What a handler does to the marks

    It creates instances without marks, or replaces an instance by such a one;
    another instance keeps its marks, and does not become [EXECUTED]. *)
Definition unmarked (y : Instance) : Prop := Index y = 0 ∧ onStack y = false ∧ Status y ≠ EXECUTED.
Definition mark_kept (x y : Instance) : Prop :=
  Index y = Index x ∧ onStack y = onStack x ∧ (Status y = EXECUTED → Status x = EXECUTED).

Definition touch (c0 c : core) : Prop :=
  executedUpTo c = executedUpTo c0 ∧ components c = components c0 ∧
  ∀ v y, instanceSpace c !! v = Some y → unmarked y ∨ ∃ x, instanceSpace c0 !! v = Some x ∧ mark_kept x y.

Lemma touch_refl c : touch c c.
Proof. split_and!; [done..|]. intros v y Hy. right. by exists y. Qed.

Lemma mark_trans x y z : mark_kept x y → mark_kept y z → mark_kept x z.
Proof. intros (E1 & E2 & E3) (F1 & F2 & F3). split_and!; [congruence..|auto]. Qed.

Lemma unmarked_kept x y : unmarked x → mark_kept x y → unmarked y.
Proof. intros (E1 & E2 & E3) (F1 & F2 & F3). split_and!; [congruence..|auto]. Qed.

Lemma touch_upd c0 c v f : (∀ x, mark_kept x (f x)) → touch c0 c → touch c0 (upd v f c).
Proof.
  intros Hf (H1 & H2 & H3). split_and!; [done..|]. intros u y. cbn. rewrite lookup_alter. case_decide as Hu; [|by apply H3].
  subst u. destruct (instanceSpace c !! v) as [x|] eqn:Hx; [|done]. cbn. intros [= <-].
  destruct (H3 v x Hx) as [?|(x0 & Hx0 & ?)]; [left; by eapply unmarked_kept|right]. exists x0. split; [done|]. by eapply mark_trans.
Qed.

Lemma touch_put c0 c v y :
  unmarked y ∨ (∃ x, instanceSpace c !! v = Some x ∧ mark_kept x y) → touch c0 c → touch c0 (put v y c).
Proof.
  intros Hy (H1 & H2 & H3). split_and!; [done..|]. intros u z. cbn. rewrite lookup_insert. case_decide as Hu; [|by apply H3].
  subst u. intros [= <-]. destruct Hy as [?|(x & Hx & Hk)]; [by left|].
  destruct (H3 v x Hx) as [?|(x0 & Hx0 & ?)]; [left; by eapply unmarked_kept|right]. exists x0. split; [done|]. by eapply mark_trans.
Qed.

Lemma ensures_any {A} (o : outcome A) : ensures o (λ _, True).
Proof. by destruct o. Qed.

(** A write to another field of the core. *)
Ltac framed := lazymatch goal with |- touch ?c0 (set _ _ ?c) => change (touch c0 c) end.

#[local] Hint Extern 1 (touch _ (set _ _ _)) => framed : touch.
#[local] Hint Extern 1 (touch _ (if ?b then _ else _)) => destruct b : touch.
#[local] Hint Extern 2 (touch _ (match ?o with Some _ => _ | None => _ end)) => destruct o : touch.
#[local] Hint Extern 1 (touch _ (upd _ _ _)) => apply touch_upd; [by intros ?; split_and!; cbn; repeat case_match|] : touch.

Section From.
Variable c0 : core.
Abbreviation T := (touch c0).

Lemma emit_touch ev c : T c → T (emit ev c). Proof. done. Qed.
Lemma bump_touch s k c : T c → T (bump s k c). Proof. done. Qed.
Lemma tick_touch c : T c → T (tick_clock c). Proof. done. Qed.
Lemma raise_stat_touch s k c : T c → T (raise_stat s k c). Proof. done. Qed.
Lemma clearRecovery_touch q i c : T c → T (clearRecovery q i c). Proof. done. Qed.
Lemma updateDeferred_touch a b q i c : T c → T (updateDeferred a b q i c). Proof. done. Qed.
Lemma put_lb_touch v b c : T c → T (put_lb v b c). Proof. unfold put_lb. auto with touch. Qed.
Lemma accept_value_touch v b c : T c → T (accept_value v b c). Proof. unfold accept_value. auto with touch. Qed.
Lemma raise_ballot_touch b c : T c → T (raise_ballot b c). Proof. unfold raise_ballot. auto with touch. Qed.
Lemma bcast_touch v body c : (∀ b c, T c → T (body b c)) → T c → T (bcast v body c).
Proof. intros Hb Hc. unfold bcast. repeat (case_match; auto). Qed.
#[local] Hint Resolve emit_touch bump_touch tick_touch raise_stat_touch clearRecovery_touch updateDeferred_touch put_lb_touch
  accept_value_touch raise_ballot_touch : touch.
Lemma preferred_touch e k m c : T c → T (preferred e k m c). Proof. unfold preferred. auto with touch. Qed.
#[local] Hint Resolve preferred_touch : touch.
Lemma bcastPrepare_touch v c : T c → T (bcastPrepare v c). Proof. apply bcast_touch. auto with touch. Qed.
Lemma bcastPreAccept_touch e v c : T c → T (bcastPreAccept e v c). Proof. apply bcast_touch. auto with touch. Qed.
Lemma bcastTryPreAccept_touch v c : T c → T (bcastTryPreAccept v c). Proof. apply bcast_touch. auto with touch. Qed.
Lemma bcastAccept_touch e v c : T c → T (bcastAccept e v c). Proof. apply bcast_touch. auto with touch. Qed.
Lemma bcastCommit_touch e v c : T c → T (bcastCommit e v c). Proof. apply bcast_touch. auto with touch. Qed.
Lemma commit_time_touch e x c : T c → T (commit_time e x c). Proof. unfold commit_time. auto with touch. Qed.
Lemma reply_clients_touch b c : T c → T (reply_clients b c).
Proof. intros Hc. unfold reply_clients. destruct (replyAfterExecution c); [done|]. apply (foldl_ind _ T); auto with touch. Qed.
Lemma requeue_replaced_touch m v x c : T c → T (requeue_replaced m v x c).
Proof.
  intros Hc. unfold requeue_replaced. repeat (case_match; [auto|] || case_match); auto.
  cbn zeta. apply put_lb_touch, (foldl_ind _ T); auto with touch.
Qed.
#[local] Hint Resolve bcastPrepare_touch bcastPreAccept_touch bcastTryPreAccept_touch bcastAccept_touch bcastCommit_touch
  commit_time_touch reply_clients_touch requeue_replaced_touch : touch.

(** Following a handler: a call that returns a core keeps [T] by its lemma,
    another is any value. *)
Ltac walk :=
  cbn beta iota zeta in *;
  repeat match goal with H : _ ∧ _ |- _ => destruct H end;
  lazymatch goal with
  | |- ensures (Done _) _ => cbn [ensures]; auto with touch
  | |- ensures (Panicked _) _ => exact I
  | |- ensures OutOfFuel _ => exact I
  | |- ensures (_ ≫= _) _ =>
      first [apply (ensures_bind _ _ (touch c0)); [solve [walk]|]
            |eapply ensures_bind; [first [solve [eauto 8 with touch]|apply ensures_any]|]]; (let x := fresh "r" in let H := fresh "Hr" in intros x H; walk)
  | |- ensures (match ?x with _ => _ end) _ => destruct x eqn:?; walk
  | |- ensures _ _ => eauto 8 with touch
  end.

Lemma raise_crt_touch q i c : T c → ensures (raise_crt q i c) T.
Proof. intros Hc. unfold raise_crt. walk. Qed.
Lemma record_instance_touch v c : T c → ensures (record_instance v c) T.
Proof. intros Hc. unfold record_instance. walk. Qed.
Lemma ensure_instance_touch e v c :
  T c → ensures (ensure_instance e v c) (λ '(x, c'), T c' ∧ instanceSpace c' !! v = Some x).
Proof.
  intros Hc. unfold ensure_instance. eapply ensures_bind; [apply space_inv|]. intros o (-> & _ & _). rewrite <- surjective_pairing.
  destruct (instanceSpace c !! v) as [x|] eqn:Hx; [done|]. cbn. split; [|by rewrite lookup_insert_eq].
  apply (touch_put c0 (tick_clock c)); [left; by split_and!|exact Hc].
Qed.
Lemma updateConflicts_touch cs q i sq c : T c → ensures (updateConflicts cs q i sq c) T.
Proof. intros Hc. unfold updateConflicts. apply ensures_forEach; [done|]. intros cmd c1 Hc1. unfold updateConflicts_command. walk. Qed.
Lemma updateCommitted_touch q c : T c → ensures (updateCommitted q c) T.
Proof.
  unfold updateCommitted. generalize (S (size (instanceSpace c))). intros fuel. revert c.
  induction fuel as [|fuel IH]; intros c Hc; [exact I|]. cbn [updateCommitted_loop]. walk.
Qed.
Lemma newLeaderBookkeeping_touch e ps o com dps blt cs st sq c :
  T c → ensures (newLeaderBookkeeping e ps o com dps blt cs st sq c) (λ '(_, c'), T c').
Proof. intros Hc. unfold newLeaderBookkeeping. walk. Qed.
Lemma beginProposalBatch_touch k c : T c → ensures (beginProposalBatch k c) (λ '(_, c'), T c').
Proof. intros Hc. unfold beginProposalBatch, count_batch. walk. Qed.
Lemma makeBallot_touch v c : T c → ensures (makeBallot v c) T.
Proof. intros Hc. unfold makeBallot. walk. Qed.
Lemma scheduleRecovery_touch q i now c : T c → T (scheduleRecovery q i now c).2.
Proof. intros Hc. unfold scheduleRecovery. cbn zeta. repeat case_match; done. Qed.
#[local] Hint Resolve raise_crt_touch record_instance_touch ensure_instance_touch updateConflicts_touch updateCommitted_touch
  newLeaderBookkeeping_touch beginProposalBatch_touch makeBallot_touch scheduleRecovery_touch : touch.
Lemma blockedOn_touch e q i now c : T c → ensures (blockedOn e q i now c) T.
Proof. intros Hc. unfold blockedOn. walk. Qed.
#[local] Hint Resolve blockedOn_touch : touch.


(** ** The handlers *)
#[local] Hint Extern 1 (touch _ (put _ _ _)) => apply touch_put; [left; by split_and!|] : touch.

Lemma startPhase1_touch e cs v blt ps c : T c → ensures (startPhase1 e cs v blt ps c) T.
Proof. intros Hc. unfold startPhase1, newInstance. walk. Qed.
#[local] Hint Resolve startPhase1_touch : touch.
Lemma submit_touch e ps c : T c → ensures (submit e ps c) T.
Proof. intros Hc. unfold submit. walk. Qed.
#[local] Hint Resolve submit_touch : touch.
Lemma Propose_touch e p queue c : T c → ensures (Propose e p queue c) (λ '(_, _, c'), T c').
Proof. intros Hc. unfold Propose. walk. Qed.

Lemma reply_preAccept_touch m v c : T c → ensures (reply_preAccept m v c) T.
Proof. intros Hc. unfold reply_preAccept. walk. Qed.
Lemma nack_touch v b c : T c → ensures (nack v b c) T.
Proof. intros Hc. unfold nack. walk. Qed.
#[local] Hint Resolve reply_preAccept_touch nack_touch : touch.
Lemma handlePreAccept_touch e m c : T c → ensures (handlePreAccept e m c) T.
Proof. intros Hc. unfold handlePreAccept. walk. Qed.

Lemma merge_reply_touch x r b c : T c → ensures (merge_reply x r b c) (λ '(_, _, c'), T c').
Proof. intros Hc. unfold merge_reply. walk. Qed.
Lemma commit_fast_touch e v b c : T c → ensures (commit_fast e v b c) T.
Proof. intros Hc. unfold commit_fast, adopt_lb. walk. Qed.
Lemma accept_slow_touch e v b a c : T c → ensures (accept_slow e v b a c) T.
Proof. intros Hc. unfold accept_slow, adopt_lb. walk. Qed.
Lemma commit_slow_touch e v b c : T c → ensures (commit_slow e v b c) T.
Proof. intros Hc. unfold commit_slow. walk. Qed.
#[local] Hint Resolve merge_reply_touch commit_fast_touch accept_slow_touch commit_slow_touch : touch.
Lemma handlePreAcceptReply_touch e r c : T c → ensures (handlePreAcceptReply e r c) T.
Proof. intros Hc. unfold handlePreAcceptReply. walk. Qed.
Lemma handleAcceptReply_touch e r c : T c → ensures (handleAcceptReply e r c) T.
Proof. intros Hc. unfold handleAcceptReply. walk. Qed.
Lemma handleCommit_touch e m c : T c → ensures (handleCommit e m c) T.
Proof. intros Hc. unfold handleCommit. walk. Qed.
Lemma handleAccept_touch e m c : T c → ensures (handleAccept e m c) T.
Proof. intros Hc. unfold handleAccept. walk. Qed.
#[local] Hint Resolve handlePreAccept_touch handlePreAcceptReply_touch handleAccept_touch handleAcceptReply_touch handleCommit_touch : touch.


(** *** Recovery *)
Lemma handlePrepare_touch e m c : T c → ensures (handlePrepare e m c) T.
Proof.
  intros Hc. unfold handlePrepare. eapply ensures_bind; [apply ensures_any|]. intros _ _.
  eapply ensures_bind; [apply ensure_instance_touch; auto with touch|]. intros [x c1] [Hc1 Hx]. cbn.
  apply emit_touch, touch_put; [|done]. right. exists x. split; [done|]. by case_match.
Qed.

Lemma startRecoveryForInstance_touch e v c : T c → ensures (startRecoveryForInstance e v c) T.
Proof.
  intros Hc. unfold startRecoveryForInstance. eapply ensures_bind; [apply ensures_any|]. intros inst _.
  case_match; [exact Hc|]. eapply ensures_bind; [apply ensure_instance_touch; exact Hc|]. intros [x c1] [Hc1 Hx].
  eapply (ensures_bind _ _ (λ '(_, c2), T c2 ∧ instanceSpace c2 = instanceSpace c1)).
  { unfold newLeaderBookkeepingDefault, newLeaderBookkeeping. repeat (eapply ensures_bind; [apply ensures_any|]; intros ? _). by split. }
  intros [b c2] [Hc2 Es]. cbn. apply bcastPrepare_touch, touch_put; [|done]. right. exists x. by rewrite Es.
Qed.
#[local] Hint Resolve handlePrepare_touch startRecoveryForInstance_touch : touch.

Lemma after_refusal_touch e v r b c : T c → ensures (after_refusal e v r b c) T.
Proof. intros Hc. unfold after_refusal, restart. walk. Qed.
#[local] Hint Resolve after_refusal_touch : touch.
Lemma handleTryPreAcceptReply_touch e r c : T c → ensures (handleTryPreAcceptReply e r c) T.
Proof. intros Hc. unfold handleTryPreAcceptReply. walk. Qed.
#[local] Hint Resolve handleTryPreAcceptReply_touch : touch.
Lemma handleTryPreAccept_touch e m c : T c → ensures (handleTryPreAccept e m c) T.
Proof.
  intros Hc. unfold handleTryPreAccept. eapply ensures_bind; [by apply ensure_instance_touch|]. intros [x c1] [Hc1 _].
  eapply (ensures_bind _ _ (λ '(_, _, _, c2), T c2)); [walk|]. intros [[[a b] st] c2] Hc2. walk.
Qed.
#[local] Hint Resolve handleTryPreAccept_touch : touch.

Lemma commit_chosen_touch e v ch c : T c → ensures (commit_chosen e v ch c) T.
Proof. intros Hc. unfold commit_chosen. walk. Qed.
#[local] Hint Resolve commit_chosen_touch : touch.
Lemma recover_value_touch e v ch b c : pr_Status ch ≠ EXECUTED → T c → ensures (recover_value e v ch b c) T.
Proof. intros Hs Hc. unfold recover_value, restart. walk. Qed.
Lemma handlePrepareReply_touch e r c : T c → ensures (handlePrepareReply e r c) T.
Proof.
  intros Hc. unfold handlePrepareReply. walk. apply recover_value_touch; [unfold COMMITTED, EXECUTED in *; lia|auto with touch].
Qed.
Lemma handleRepairRequest_touch e m c : T c → ensures (handleRepairRequest e m c) T.
Proof. intros Hc. unfold handleRepairRequest. walk. Qed.
#[local] Hint Resolve handlePrepareReply_touch handleRepairRequest_touch : touch.

Lemma check_active_touch e now v c : T c → ensures (check_active e now v c) T.
Proof. intros Hc. unfold check_active. walk. Qed.
Lemma repairTick_touch e now c : T c → ensures (repairTick e now c) T.
Proof.
  intros Hc. unfold repairTick. eapply (ensures_bind _ _ T).
  { unfold scan_gaps. destruct (match nextGapScan c with Some t => now <? t | None => false end); [exact Hc|].
    apply ensures_forEach; [exact Hc|]. intros q c1 Hc1. unfold scan_row. do 2 (eapply ensures_bind; [apply ensures_any|]; intros ? _).
    apply ensures_forEach; [exact Hc1|]. intros i c2 Hc2. unfold scan_slot. walk. }
  intros c1 Hc1. eapply (ensures_bind _ _ T).
  { apply ensures_forEach; [exact Hc1|]. intros k c2 Hc2. unfold retry_blocked. walk. }
  intros c2 Hc2. apply ensures_forEach; [exact Hc2|]. intros v c3 Hc3. by apply check_active_touch.
Qed.

Lemma receive_touch e i c : T c → ensures (receive e i c) (λ '(_, c'), T c').
Proof.
  intros Hc. destruct i as [m| |v| | |]; cbn [receive]; [|exact Hc| |exact Hc..]; eapply (ensures_bind _ _ T).
  - destruct m; cbn [handle]; auto with touch.
  - intros c' Hc'. exact Hc'.
  - auto with touch.
  - intros c' Hc'. exact Hc'.
Qed.
End From.

(** ** Repair leaves executed instances as they are *)
Definition elsewhere (v : instanceID) (c c' : core) : Prop := ∀ u, u ≠ v → instanceSpace c' !! u = instanceSpace c !! u.
Definition stays (c c' : core) : Prop := ∀ v, executed c v → executed c' v.

Lemma stays_same c c' : instanceSpace c' = instanceSpace c → stays c c'.
Proof. intros E v. unfold executed. by rewrite E. Qed.
Lemma stays_trans a b c : stays a b → stays b c → stays a c.
Proof. unfold stays. auto. Qed.
Lemma elsewhere_stays v c c' : ¬ executed c v → elsewhere v c c' → stays c c'.
Proof. intros Hv He u Hu. destruct (decide (u = v)) as [->|Hne]; [done|]. unfold executed. by rewrite He. Qed.
Lemma elsewhere_trans v a b c : elsewhere v a b → elsewhere v b c → elsewhere v a c.
Proof. intros H1 H2 u Hu. rewrite H2, H1; done. Qed.
Lemma elsewhere_put v x c : elsewhere v c (put v x c).
Proof. intros u Hu. cbn. by rewrite lookup_insert_ne. Qed.
Lemma elsewhere_upd v f c : elsewhere v c (upd v f c).
Proof. intros u Hu. cbn. by rewrite lookup_alter_ne. Qed.

Lemma bcast_space v body c :
  (∀ b, instanceSpace (body b c) = instanceSpace c) → instanceSpace (bcast v body c) = instanceSpace c.
Proof. intros Hb. unfold bcast. by repeat case_match. Qed.

Lemma blockedOn_stays e q i now c : ensures (blockedOn e q i now c) (stays c).
Proof. eapply ensures_mono; [apply blockedOn_same|]. intros c' Hs. by apply stays_same, ss_space. Qed.

Lemma startRecoveryForInstance_elsewhere e v c : ensures (startRecoveryForInstance e v c) (elsewhere v c).
Proof.
  unfold startRecoveryForInstance. eapply ensures_bind; [apply ensures_any|]. intros inst _. case_match; [by intros u|].
  eapply (ensures_bind _ _ (λ '(_, c1), elsewhere v c c1)).
  { unfold ensure_instance. eapply ensures_bind; [apply ensures_any|]. intros [x|] _; [by intros u|].
    intros u Hu. cbn. by rewrite lookup_insert_ne. }
  intros [x c1] H1. eapply (ensures_bind _ _ (λ '(_, c2), instanceSpace c2 = instanceSpace c1)).
  { unfold newLeaderBookkeepingDefault, newLeaderBookkeeping. repeat (eapply ensures_bind; [apply ensures_any|]; intros ? _). done. }
  intros [b c2] Es. cbn. intros u Hu. unfold bcastPrepare. rewrite bcast_space by done. cbn.
  rewrite lookup_insert_ne by done. rewrite Es. by apply H1.
Qed.

Lemma check_active_stays e now v c : ensures (check_active e now v c) (stays c).
Proof.
  unfold check_active. eapply ensures_bind; [apply space_inv|]. intros inst (-> & _ & _). rewrite <- surjective_pairing.
  destruct (instanceSpace c !! v) as [x|] eqn:Hx; [|by apply stays_same].
  cbn. destruct (lb x) as [b|]; [|by apply stays_same]. cbn. destruct (COMMITTED <=? Status x) eqn:Es; [by apply stays_same|].
  assert (¬ executed c v) as Hn.
  { intros (y & Hy & Hs). rewrite Hx in Hy. injection Hy as <-. rewrite Hs in Es. done. }
  case_match; [by apply stays_same|]. case_match; [by apply stays_same|]. case_match.
  { apply (elsewhere_stays v); [done|]. apply elsewhere_trans with (accept_value v (b <| status := ACCEPTED |> <| ballot := lastTriedBallot b |>) c).
    - apply elsewhere_upd.
    - intros u Hu. unfold put_lb, bcastAccept. rewrite elsewhere_upd by done. rewrite bcast_space; [done|].
      intros b'. unfold preferred. by case_match. }
  case_match; [|by apply stays_same]. case_match; [|by apply stays_same].
  eapply ensures_mono; [apply startRecoveryForInstance_elsewhere|]. intros c'. by apply elsewhere_stays.
Qed.

Lemma forEach_stays {A} (f : A → core → outcome core) l c : (∀ x c, ensures (f x c) (stays c)) → ensures (forEach f l c) (stays c).
Proof.
  intros Hf. apply (ensures_forEach f (stays c)); [by intros v|]. intros x c1 H1.
  eapply ensures_mono; [apply Hf|]. intros c2. by apply stays_trans.
Qed.

Lemma repairTick_stays e now c : ensures (repairTick e now c) (stays c).
Proof.
  unfold repairTick. eapply (ensures_bind _ _ (stays c)).
  { unfold scan_gaps. destruct (match nextGapScan c with Some t => now <? t | None => false end); [by intros v|].
    eapply ensures_mono; [apply forEach_stays|intros c1 H; exact H]. intros q c1. unfold scan_row.
    do 2 (eapply ensures_bind; [apply ensures_any|]; intros ? _). apply forEach_stays. intros i c2. unfold scan_slot.
    eapply ensures_bind; [apply ensures_any|]. intros inst _. destruct (from_option _ _ _); [by intros v|apply blockedOn_stays]. }
  intros c1 H1. eapply (ensures_bind _ _ (stays c)).
  { eapply ensures_mono; [apply forEach_stays|intros c2; by apply stays_trans]. intros k c2. unfold retry_blocked.
    eapply ensures_bind; [apply ensures_any|]. intros inst _. destruct (from_option _ _ _); [by apply stays_same|apply blockedOn_stays]. }
  intros c2 H2. eapply ensures_mono; [apply forEach_stays|intros c3; by apply stays_trans]. intros v c3. apply check_active_stays.
Qed.

(** ** Steps *)
Lemma touch_executed c c' v : touch c c' → executed c' v → executed c v.
Proof.
  intros (_ & _ & H) (y & Hy & Hs). destruct (H v y Hy) as [(_ & _ & ?)|(x & Hx & _ & _ & Hk)]; [done|]. exists x. auto.
Qed.

Lemma touch_calm c c' : touch c c' → calm c → calm c'.
Proof.
  intros Ht [M1 M2 M3 M4]. pose proof Ht as (Eu & Ec & H). unfold finished in *. split; unfold finished; rewrite ?Eu, ?Ec.
  - intros v y Hy. destruct (H v y Hy) as [(? & ? & _)|(x & Hx & -> & -> & _)]; [tauto|by apply (M1 v)].
  - intros v Hv. by apply M2, (touch_executed c c').
  - exact M3.
  - exact M4.
Qed.

Lemma touch_extends c c' : touch c c' → extends c c' [].
Proof.
  intros Ht. split.
  - rewrite app_nil_r. apply Ht.
  - constructor.
  - by intros v ?%not_elem_of_nil.
  - intros v Hv. left. by apply (touch_executed c c').
  - by intros [|??] ?.
Qed.

(** Repair before [apply] does not matter to what the tick executes. *)
Lemma extends_after c c1 c2 new : touch c c1 → stays c c1 → extends c1 c2 new → extends c c2 new.
Proof.
  intros Ht Hs [N1 N2 N3 N4 N5]. pose proof Ht as (_ & Ec & _). rewrite Ec in N1, N5. split; try done.
  - intros v Hv. destruct (N3 v Hv) as [? Hn]. split; [done|]. intros He. by apply Hn, Hs.
  - intros v Hv. destruct (N4 v Hv); [left; by apply (touch_executed c c1)|by right].
Qed.

Definition stepped (c c' : core) : Prop := calm c' ∧ ∃ new, extends c c' new.

Lemma touch_stepped c c' : calm c → touch c c' → stepped c c'.
Proof. intros Hc Ht. split; [by eapply touch_calm|]. exists []. by apply touch_extends. Qed.

Lemma tick_stepped e t c : calm c → ensures (tick e t c) (λ '(_, c'), stepped c c').
Proof.
  intros Hc. unfold tick. destruct (TickKind t); [|by apply touch_stepped; [|apply (touch_refl c)]..].
  eapply (ensures_bind _ _ (λ c1, touch c c1 ∧ stays c c1)).
  { pose proof (repairTick_touch c e (TickNow t) c (touch_refl c)). pose proof (repairTick_stays e (TickNow t) c).
    by destruct (repairTick _ _ _). }
  intros c1 [Ht Hs]. pose proof (touch_calm c c1 Ht Hc) as Hc1.
  eapply (ensures_bind _ _ (stepped c)); [|by intros c2]. destruct (executeEnabled e); [|by apply touch_stepped].
  eapply ensures_mono; [by apply apply_spec|]. intros c2 [Hc2 [new Hnew]]. split; [done|]. exists new. by eapply extends_after.
Qed.

Lemma step_core_stepped cs s c o : calm c → step_core cs s c = Some o → ensures o (stepped c).
Proof.
  intros Hc. destruct s as [a p queue e|src dst k alive e|a e|a t e|a e]; cbn [step_core].
  - intros Eo; apply (inj Some) in Eo; subst o. eapply ensures_bind; [apply (Propose_touch c), touch_refl|]. intros [[err rest] c'] Ht. by apply touch_stepped.
  - destruct (sent_to _ _ _ _ _) as [m|]; [|done]. cbn [mbind option_bind]. intros Eo; apply (inj Some) in Eo; subst o.
    eapply ensures_bind; [apply (receive_touch c), touch_refl|]. intros [err c'] Ht. by apply touch_stepped.
  - destruct (instancesToRecover c) as [|v rest]; [done|]. intros Eo; apply (inj Some) in Eo; subst o.
    eapply ensures_bind; [apply (receive_touch c); exact (touch_refl c)|]. intros [err c'] Ht. by apply touch_stepped.
  - intros Eo; apply (inj Some) in Eo; subst o. eapply ensures_bind; [by apply tick_stepped|]. by intros [err c'].
  - intros Eo; apply (inj Some) in Eo; subst o. by apply touch_stepped; [|apply (touch_refl c)].
Qed.

(** ** Runs *)
Definition cluster_calm (cs : list core) : Prop := ∀ a c, index cs a = Some c → calm c.

Lemma exec_stepped cs s :
  cluster_calm cs → ensures (exec s cs) (λ cs', ∀ a c', index cs' a = Some c' → ∃ c, index cs a = Some c ∧ stepped c c').
Proof.
  intros Hcs. assert (∀ a c', index cs a = Some c' → ∃ c, index cs a = Some c ∧ stepped c c') as Hsame.
  { intros a c' Hc'. exists c'. split; [done|]. apply touch_stepped; [by eapply Hcs|apply touch_refl]. }
  unfold exec. destruct (index cs (target s)) as [c|] eqn:Ec; [|exact Hsame].
  destruct (step_core cs s c) as [o|] eqn:Eo; [|exact Hsame].
  eapply ensures_bind; [eapply step_core_stepped; [by eapply Hcs|done]|]. intros c1 Hc1 a c'.
  specialize (Hsame a c'). unfold index in *. destruct (a <? 0) eqn:Ea; [done|]. destruct (target s <? 0) eqn:Et; [done|].
  intros [(E & <- & _)|[_ Ha]]%list_lookup_insert_Some; [|by apply Hsame].
  exists c. assert (a = target s) as -> by lia. done.
Qed.

Lemma run_calm ss cs cs' : cluster_calm cs → run ss cs = Done cs' → cluster_calm cs'.
Proof.
  revert cs. induction ss as [|s ss IH]; intros cs Hcs; [by intros [= <-]|]. unfold run. cbn [forEach].
  pose proof (exec_stepped cs s Hcs) as He. destruct (exec s cs) as [cs1| |]; [|done..]. cbn in He |- *.
  apply IH. intros a c Hc. by destruct (He a c Hc) as (c1 & _ & ? & _).
Qed.

Lemma start_calm n f bw tc ra : cluster_calm (start n f bw tc ra).
Proof.
  intros a c. unfold start, index. destruct (a <? 0); [done|]. rewrite list_lookup_fmap.
  destruct (rangeZ 0 (n - 1) !! _); [|done]. cbn. intros [= <-]. apply calm_new.
Qed.

(** C7.  Dependencies execute first.  In any run of a cluster from its start,
    with messages delivered in any order, any number of times, or never, with
    recoveries and ticks at any time, a step of a replica executes a sequence of
    components: each is a strongly connected set of instances, all other
    dependencies of its members were executed before, by the replica's earlier
    steps or in an earlier component of this one, and its members execute in the
    order of sequence number, replica and instance.  The step executes no
    instance twice and none that is executed already, makes no other instance
    executed, and the executed prefixes count instances that were executed. *)
Theorem execution_order n f bw tc ra ss cs s cs' a c c' :
  run ss (start n f bw tc ra) = Done cs → exec s cs = Done cs' → index cs a = Some c → index cs' a = Some c' →
  (∃ new, components c' = components c ++ new ∧
    NoDup (List.concat new) ∧
    (∀ v, v ∈ List.concat new → executed c' v ∧ ¬ executed c v) ∧
    (∀ v, executed c' v → executed c v ∨ v ∈ List.concat new) ∧
    ∀ pre b post, new = pre ++ b :: post → component_ok c' (List.concat (components c ++ pre)) b) ∧
  ∀ q u j, index (executedUpTo c') q = Some u → 0 ≤ j ≤ u → (q, j) ∈ List.concat (components c').
Proof.
  intros Hrun Hs Ha Ha'. pose proof (run_calm ss _ cs (start_calm n f bw tc ra) Hrun) as Hcs.
  pose proof (exec_stepped cs s Hcs) as He. rewrite Hs in He. destruct (He a c' Ha') as (c1 & Hc1 & Hcalm & new & Hnew).
  rewrite Ha in Hc1. injection Hc1 as <-. split; [|exact (m_prefix c' Hcalm)]. exists new. destruct Hnew. by split_and!.
Qed.
End Steps.
End EpaxosSteps.
