(* ===== verification/EpaxosShape.v ===== *)
(** * EpaxosShape: no ordering or recovery message makes a replica panic

    The type invariant of a core of [n] replicas whose instances are below [B]:
    every row has its length, the conflict index points at instances that
    exist, stored positions are in range, and so is whatever was sent.  Every
    handler returns on a message that has this shape and keeps it
    ([receive_returns]). *)
From stdpp Require Import gmap strings list fin_maps fin_sets.
From Stdlib Require Import Lia.
From S2P Require Import Prelude State ReplicaSet Defs Epaxos EpaxosCore EpaxosRecovery EpaxosExecute EpaxosOrder EpaxosReplica.

Module EpaxosShape.
Import Epaxos EpaxosCore EpaxosRecovery EpaxosExecute EpaxosReplica.

(** ** Two 32-bit numbers in a word *)
Lemma pack_lor a b : 0 ≤ a → 0 ≤ b < 2 ^ 32 → Z.lor (Z.shiftl a 32) b = a * 2 ^ 32 + b.
Proof.
  intros Ha Hb. rewrite Z.shiftl_mul_pow2 by lia. rewrite <- Z.add_lor_land.
  assert (Z.land (a * 2 ^ 32) b = 0) as ->; [|lia]. apply Z.bits_inj'. intros i Hi. rewrite Z.land_spec, Z.bits_0.
  destruct (decide (i < 32)) as [Hlt|Hge].
  - by rewrite Z.mul_pow2_bits_low by lia.
  - rewrite <- (Z.mod_small b (2 ^ 32)) by lia. rewrite Z.mod_pow2_bits_high by lia. by rewrite andb_false_r.
Qed.

Lemma unpack a b : 0 ≤ a < 2 ^ 31 → 0 ≤ b < 2 ^ 31 →
  i32 (Z.shiftr (a * 2 ^ 32 + b) 32) = a ∧ i32 (a * 2 ^ 32 + b) = b.
Proof.
  intros Ha Hb. split.
  - rewrite Z.shiftr_div_pow2 by lia. rewrite Z.div_add_l by lia. rewrite (Z.div_small b), Z.add_0_r by lia. apply wrapS_id; lia.
  - rewrite <- wrapS_wrapU by lia. unfold wrapU. rewrite Z.add_comm, Z_mod_plus_full, Z.mod_small by lia. apply wrapS_id; lia.
Qed.

Lemma recoveryKey_unpack owner slot : 0 ≤ owner < 2 ^ 31 → 0 ≤ slot < 2 ^ 31 →
  i32 (Z.shiftr (recoveryKey owner slot) 32) = owner ∧ i32 (recoveryKey owner slot) = slot.
Proof.
  intros Ho Hs. unfold recoveryKey. rewrite !wrapU_id by lia. rewrite pack_lor by lia. by apply unpack.
Qed.

Lemma deferKey_unpack r i : 0 ≤ r < 2 ^ 31 → 0 ≤ i < 2 ^ 31 → i32 (Z.shiftr (deferKey r i) 32) = r.
Proof.
  intros Hr Hi. unfold deferKey. rewrite (wrapU_id 64 r), (wrapU_id 64 i) by lia.
  rewrite wrapU_id by (rewrite Z.shiftl_mul_pow2 by lia; lia). rewrite pack_lor by lia. by apply unpack.
Qed.

Lemma ConflictBatch_returns l l' : Forall executable l → Forall executable l' → returns (ConflictBatch l l') (λ _, True).
Proof.
  intros Hl Hl'. induction Hl as [|c l Hc _ IH]; [done|]. cbn [ConflictBatch]. eapply (returns_bind _ _ (λ _, True)).
  - clear IH. induction Hl' as [|d l' Hd _ IH]; [done|]. cbn [ConflictRow].
    eapply returns_bind; [by apply EpaxosOrder.Conflict_returns|]. by intros [] _.
  - by intros [] _.
Qed.

Section Shape.
Context {SM : StateMachine} (n id B : Z).

(** ** The shape of values and messages *)
Definition pos_ok (v : instanceID) : Prop := 0 ≤ v.1 < n ∧ 0 ≤ v.2 < B.
Definition row_ok (l : list Z) : Prop := length l = Z.to_nat n ∧ Forall (λ i, -1 ≤ i < B) l.
Definition cmds_ok (l : option (list Command)) : Prop :=
  Forall (λ cmd, executable cmd ∧ (Op cmd ≠ NONE → sm_admits cmd)) (default [] l).

Definition attributes_ok (m : Attributes) : Prop :=
  pos_ok (m_Replica m, m_Instance m) ∧ cmds_ok (m_Command m) ∧ row_ok (m_Deps m).
Definition prepareReply_ok (r : PrepareReply) : Prop :=
  pos_ok (pr_Replica r, pr_Instance r) ∧ cmds_ok (pr_Command r) ∧ (pr_Status r = STATUS_NONE ∨ row_ok (pr_Deps r)).

Definition message_ok (m : message) : Prop :=
  match m with
  | MPrepare m => pos_ok (p_Replica m, p_Instance m)
  | MPrepareReply m => prepareReply_ok m
  | MPreAccept m | MAccept m | MCommit m | MTryPreAccept m => attributes_ok m
  | MPreAcceptReply m =>
      pos_ok (par_Replica m, par_Instance m) ∧ row_ok (par_Deps m) ∧ length (par_CommittedDeps m) = Z.to_nat n
  | MAcceptReply m => pos_ok (ar_Replica m, ar_Instance m)
  | MTryPreAcceptReply m => pos_ok (tpr_Replica m, tpr_Instance m)
  | MRepairRequest m => pos_ok (rr_Owner m, rr_Slot m)
  end.

Definition event_ok (ev : event) : Prop :=
  match ev with Sent _ m | Broadcast _ _ m => message_ok m | _ => True end.

(** Bookkeeping that still collects promises may hold no attributes yet. *)
Record lb_ok (b : LeaderBookkeeping) : Prop := mkLbOk {
  lo_deps : preparing b = true ∨ row_ok (deps b);
  lo_trying : tryingToPreAccept b = true → preparing b = false ∧ status b < ACCEPTED;
  lo_cmds : cmds_ok (cmds b);
  lo_committed : length (committedDeps b) = Z.to_nat n;
  lo_possible : length (possibleQuorum b) = Z.to_nat n;
  lo_replies : Forall prepareReply_ok (prepareReplies b) }.

(** The instance may lag behind its bookkeeping: promises are being collected,
    or the value is about to be committed. *)
Definition lagging (b : LeaderBookkeeping) : Prop := preparing b = true ∨ COMMITTED ≤ status b.

Record instance_ok (x : Instance) : Prop := mkInstanceOk {
  xo_cmds : cmds_ok (Cmds x);
  xo_deps : (Status x = STATUS_NONE ∧ Cmds x = None) ∨ row_ok (Deps x);
  xo_lb : ∀ b, lb x = Some b → lb_ok b ∧ (lagging b ∨ row_ok (Deps x)) }.

(** ** The shape of a core *)
Record view := mkView {
  w_n : Z; w_id : Z; w_space : gmap instanceID Instance;
  w_crt : list Z; w_committed : list Z; w_executed : list Z;
  w_conflicts : list (gmap Z InstPair);
  w_blocked : gmap Z Z; w_active : gset instanceID; w_recover : list instanceID; w_defer : gmap Z Z;
  w_out : list event }.
Definition view_of (c : core) : view :=
  mkView (cn c) (cid c) (instanceSpace c) (crtInstance c) (committedUpTo c) (executedUpTo c) (conflicts c)
    (blocked c) (active c) (instancesToRecover c) (deferMap c) (out c).

Definition pair_ok (m : gmap instanceID Instance) (q : Z) (p : InstPair) : Prop :=
  is_Some (m !! (q, last p)) ∧ (lastWrite p = -1 ∨ is_Some (m !! (q, lastWrite p))).

Record shape_ok (w : view) : Prop := mkShapeOk {
  s_n : w_n w = n; s_id : w_id w = id;
  s_range : 0 ≤ id < n ∧ n ≤ 64 ∧ 0 ≤ B < MAX_INSTANCE;
  s_space : map_Forall (λ v x, pos_ok v ∧ instance_ok x) (w_space w);
  s_crt : row_ok (w_crt w); s_committed : row_ok (w_committed w); s_executed : row_ok (w_executed w);
  s_conflicts : length (w_conflicts w) = Z.to_nat n;
  s_pairs : ∀ q row k p, w_conflicts w !! q = Some row → row !! k = Some p → pair_ok (w_space w) (Z.of_nat q) p;
  s_blocked : ∀ key t, w_blocked w !! key = Some t → pos_ok (i32 (Z.shiftr key 32), i32 key);
  s_active : ∀ v, v ∈ w_active w → pos_ok v;
  s_recover : Forall pos_ok (w_recover w);
  s_defer : ∀ k d, w_defer w !! k = Some d → 0 ≤ i32 (Z.shiftr d 32) < n;
  s_out : Forall event_ok (w_out w) }.

(** Fields outside the view do not matter, by conversion. *)
Definition node_ok (c : core) : Prop := shape_ok (view_of c).

(** The core is in shape and the instance exists. *)
Definition node_at (v : instanceID) (c : core) : Prop := node_ok c ∧ is_Some (instanceSpace c !! v).

Lemma node_at_ok v c : node_at v c → node_ok c.
Proof. by intros []. Qed.
Hint Resolve node_at_ok : core.

(** ** Rows *)
Lemma row_lookup l q : row_ok l → 0 ≤ q < n → ∃ i, at_index l q = Done i ∧ l !! Z.to_nat q = Some i ∧ -1 ≤ i < B.
Proof.
  intros [Hl Hf] Hq. unfold at_index. rewrite index_nonneg by lia.
  destruct (lookup_lt_is_Some_2 l (Z.to_nat q)) as [i Hi]; [lia|]. rewrite Hi. exists i.
  split_and!; [done|done|..]; apply (Forall_lookup_1 _ _ _ _ Hf Hi).
Qed.

Lemma length_lookup {A} (l : list A) q : length l = Z.to_nat n → 0 ≤ q < n → ∃ i, at_index l q = Done i ∧ l !! Z.to_nat q = Some i.
Proof.
  intros Hl Hq. unfold at_index. rewrite index_nonneg by lia.
  destruct (lookup_lt_is_Some_2 l (Z.to_nat q)) as [i Hi]; [lia|]. rewrite Hi. by exists i.
Qed.

Lemma row_insert l k i : row_ok l → -1 ≤ i < B → row_ok (<[k := i]> l).
Proof. intros [Hl Hf] Hi. split; [by rewrite length_insert|by apply Forall_insert]. Qed.

Lemma row_nil_deps c : node_ok c → row_ok (newNilDeps c).
Proof.
  intros Hc. destruct (s_range _ Hc) as (? & ? & ?). unfold newNilDeps. rewrite (s_n _ Hc : cn c = n).
  split; [apply length_replicate|]. apply Forall_replicate. lia.
Qed.

Lemma space_ok c v : node_ok c → pos_ok v → space v.1 v.2 c = Done (instanceSpace c !! v).
Proof.
  intros Hc [H1 H2]. destruct (s_range _ Hc) as (? & ? & ?). unfold space, in_space.
  rewrite (s_n _ Hc : cn c = n), <- surjective_pairing. by replace (_ && _) with true by lia.
Qed.

Lemma node_instance c v x : node_ok c → instanceSpace c !! v = Some x → pos_ok v ∧ instance_ok x.
Proof. intros Hc Hx. exact (s_space _ Hc v x Hx). Qed.

(** ** Steps on the instance space and the output *)
Lemma put_ok v x c : pos_ok v → instance_ok x → node_ok c → node_at v (put v x c).
Proof.
  intros Hv Hx [H1 H2 H3 H4 H5 H6 H7 H8 H9 H10 H11 H12 H13 H14]. split; [split; try done|].
  - cbn. apply map_Forall_insert_2; [by split|done].
  - intros q row k p Hr Hp. destruct (H9 q row k p Hr Hp) as [Hl Hw]. cbn in *.
    assert (∀ i, is_Some (instanceSpace c !! i) → is_Some (<[v := x]> (instanceSpace c) !! i)) as Hm.
    { intros i Hi. destruct (decide (i = v)) as [->|]; [by rewrite lookup_insert_eq|by rewrite lookup_insert_ne]. }
    split; [by apply Hm|]. destruct Hw; [by left|right; by apply Hm].
  - cbn. by rewrite lookup_insert_eq.
Qed.

Lemma upd_put v f c x : instanceSpace c !! v = Some x → upd v f c = put v (f x) c.
Proof. intros Hx. change (upd v f c) with (c <| instanceSpace := alter f v (instanceSpace c) |>).
  assert (alter f v (instanceSpace c) = <[v := f x]> (instanceSpace c)) as E; [|by rewrite E].
  apply map_eq. intros i. destruct (decide (i = v)) as [->|].
  - by rewrite lookup_alter_eq, Hx, lookup_insert_eq.
  - by rewrite lookup_alter_ne, lookup_insert_ne.
Qed.

Lemma upd_upd v f g c : upd v f (upd v g c) = upd v (f ∘ g) c.
Proof.
  change (upd v f (upd v g c)) with (c <| instanceSpace := alter f v (alter g v (instanceSpace c)) |>).
  assert (alter f v (alter g v (instanceSpace c)) = alter (f ∘ g) v (instanceSpace c)) as E; [|by rewrite E].
  apply map_eq. intros i. destruct (decide (i = v)) as [->|].
  - rewrite !lookup_alter_eq. by destruct (_ !! v).
  - by rewrite !lookup_alter_ne.
Qed.

Lemma upd_ok v f c : node_at v c → (∀ x, instanceSpace c !! v = Some x → instance_ok x → instance_ok (f x)) → node_at v (upd v f c).
Proof.
  intros [Hc [x Hx]] Hf. rewrite (upd_put v f c x Hx). destruct (node_instance c v x Hc Hx) as [Hv Hi].
  by apply put_ok; [|apply Hf|].
Qed.

Lemma emit_shape ev c : event_ok ev → node_ok c → node_ok (emit ev c).
Proof.
  intros He [H1 H2 H3 H4 H5 H6 H7 H8 H9 H10 H11 H12 H13 H14]. split; try done. cbn. by apply Forall_app; split; [|apply Forall_singleton].
Qed.

Lemma emit_at v ev c : event_ok ev → node_at v c → node_at v (emit ev c).
Proof. intros He [Hc Hv]. split; [by apply emit_shape|exact Hv]. Qed.
Hint Resolve emit_shape emit_at : core.

Lemma default_instance_ok e c : instance_ok (newInstanceDefault e c).1.
Proof. split; cbn; [by apply Forall_nil|by left|done]. Qed.

Lemma ensure_instance_ok e v c :
  node_ok c → pos_ok v →
  returns (ensure_instance e v c) (λ '(x, c'), node_at v c' ∧ instanceSpace c' !! v = Some x ∧ instance_ok x).
Proof.
  intros Hc Hv. unfold ensure_instance. rewrite space_ok by done. cbn [mbind outcome_bind].
  destruct (instanceSpace c !! v) as [x|] eqn:Hx.
  - cbn. split_and!; [by split|done|by apply (node_instance c v x)].
  - pose proof (default_instance_ok e c) as Hd. destruct (newInstanceDefault e c) as [x c'] eqn:E.
    assert (node_ok c') as Hc' by (unfold newInstanceDefault, newInstance in E; injection E as <- <-; exact Hc).
    split_and!; [by apply put_ok|cbn; by rewrite lookup_insert_eq|exact Hd].
Qed.

Lemma deref_ok v c : node_at v c → returns (deref v c) (λ x, instanceSpace c !! v = Some x ∧ instance_ok x).
Proof. intros [Hc [x Hx]]. unfold deref. rewrite Hx. split; [done|by apply (node_instance c v x)]. Qed.

Lemma record_instance_keeps v c :
  node_at v c → returns (record_instance v c) (λ c', node_at v c' ∧ instanceSpace c' = instanceSpace c).
Proof. intros Hc. unfold record_instance. eapply returns_bind; [by apply deref_ok|]. intros x _. split; [by apply emit_at|done]. Qed.

(** ** Rows, conflicts and attributes *)
Lemma raise_crt_ok v w c : node_at w c → pos_ok v → returns (raise_crt v.1 v.2 c) (node_at w).
Proof.
  intros [Hc Hw] [H1 H2]. unfold raise_crt. destruct (row_lookup (crtInstance c) v.1 (s_crt _ Hc) H1) as (crt & -> & _ & _).
  cbn [mbind outcome_bind]. destruct (crt <? v.2); [|by split]. split; [|exact Hw].
  destruct Hc as [K1 K2 K3 K4 K5 K6 K7 K8 K9 K10 K11 K12 K13 K14]. split; try done. apply row_insert; [done|lia].
Qed.

Lemma raise_crt_node v c : node_ok c → pos_ok v → returns (raise_crt v.1 v.2 c) node_ok.
Proof.
  intros Hc [H1 H2]. unfold raise_crt. destruct (row_lookup (crtInstance c) v.1 (s_crt _ Hc) H1) as (crt & -> & _ & _).
  cbn [mbind outcome_bind]. destruct (crt <? v.2); [|done].
  destruct Hc as [K1 K2 K3 K4 K5 K6 K7 K8 K9 K10 K11 K12 K13 K14]. split; try done. apply row_insert; [done|lia].
Qed.

Lemma raise_ballot_ok b c : node_ok c → node_ok (raise_ballot b c).
Proof. intros Hc. unfold raise_ballot. by destruct (_ <? _). Qed.
Lemma raise_ballot_at v b c : node_at v c → node_at v (raise_ballot b c).
Proof. intros Hc. unfold raise_ballot. by destruct (_ <? _). Qed.
Lemma raise_ballot_space b c : instanceSpace (raise_ballot b c) = instanceSpace c.
Proof. unfold raise_ballot. by destruct (_ <? _). Qed.

Lemma index_command_ok m q i cmd row :
  is_Some (m !! (q, i)) → (∀ k p, row !! k = Some p → pair_ok m q p) →
  ∀ k p, index_command i cmd row !! k = Some p → pair_ok m q p.
Proof.
  intros Hi Hrow k p. unfold index_command. destruct (row !! K cmd) as [p0|] eqn:Hp0.
  - rewrite lookup_insert_Some. intros [[_ <-]|[_ Hp]]; [|by eapply Hrow].
    destruct (Hrow _ _ Hp0) as [Hl Hw]. split; cbn; repeat case_match; auto.
  - rewrite lookup_insert_Some. intros [[_ <-]|[_ Hp]]; [|by eapply Hrow].
    split; cbn; [done|]. case_match; auto.
Qed.

Lemma updateConflicts_keeps w cs v sq c :
  node_at w c → pos_ok v → is_Some (instanceSpace c !! v) →
  returns (updateConflicts cs v.1 v.2 sq c) (λ c', node_at w c' ∧ instanceSpace c' = instanceSpace c).
Proof.
  intros Hc Hv Hs. unfold updateConflicts. apply (returns_forEach_all _ (λ _, True) (λ c', node_at w c' ∧ instanceSpace c' = instanceSpace c)); [done|by apply Forall_true|].
  intros cmd c' _ [[Hc' Hw] E]. unfold updateConflicts_command. destruct Hv as [H1 H2].
  destruct (length_lookup (conflicts c') v.1 (s_conflicts _ Hc') H1) as (row & -> & Hrow). cbn [mbind outcome_bind].
  split; [split; [|exact Hw]|exact E].
  destruct Hc' as [K1 K2 K3 K4 K5 K6 K7 K8 K9 K10 K11 K12 K13 K14]. split; try done; cbn.
  + by rewrite length_insert.
  + intros q r k p Hq Hk. apply list_lookup_insert_Some in Hq as [(<- & <- & _)|[_ Hq]]; [|by eapply K9].
    rewrite Z2Nat.id by lia. eapply index_command_ok; [| |exact Hk].
    * rewrite E. by destruct v.
    * intros k' p' Hk'. pose proof (K9 _ _ _ _ Hrow Hk') as Hp. by rewrite Z2Nat.id in Hp by lia.
Qed.

Lemma updateAttributes_row_ok c replica instance q cs a :
  node_ok c → 0 ≤ q < n → row_ok a.1.2 → returns (updateAttributes_row c replica instance q cs a) (λ a', row_ok a'.1.2).
Proof.
  intros Hc Hq. revert a. induction cs as [|cmd cs IH]; intros [[sq dps] ch] Ha; [done|]. cbn [updateAttributes_row].
  destruct (length_lookup (conflicts c) q (s_conflicts _ Hc) Hq) as (row & -> & Hrow). cbn [mbind outcome_bind].
  destruct (row !! K cmd) as [p|] eqn:Hp; [|by apply IH].
  destruct (_ && _); [by apply IH|]. destruct (row_lookup dps q Ha Hq) as (dq & -> & _ & Hdq). cbn [mbind outcome_bind].
  destruct (dq <? _) eqn:Hd; [|by apply IH].
  pose proof (s_pairs _ Hc _ _ _ _ Hrow Hp) as [Hl Hw]. rewrite Z2Nat.id in Hl, Hw by lia. change (w_space (view_of c)) with (instanceSpace c) in *.
  set (d := if negb (Op cmd =? GET) then last p else lastWrite p) in *.
  assert (is_Some (instanceSpace c !! (q, d))) as [x Hx].
  { subst d. destruct (negb _); [done|]. destruct Hw as [E|]; [|done]. lia. }
  destruct (node_instance c _ x Hc Hx) as [Hpos _]. rewrite (space_ok c (q, d) Hc Hpos : space q d c = _). cbn [mbind outcome_bind]. rewrite Hx.
  cbn. apply row_insert; [done|]. destruct Hpos as [_ Hpos]. cbn in Hpos. lia.
Qed.

Lemma updateAttributes_ok cs sq dps v c :
  node_ok c → row_ok dps → returns (updateAttributes cs sq dps v.1 v.2 c) (λ a, row_ok a.1.2).
Proof.
  intros Hc Hd. unfold updateAttributes. eapply returns_bind.
  - apply (returns_forEach_all _ (λ q, 0 ≤ q < n) (λ a : Z * list Z * bool, row_ok a.1.2)); [done| |].
    + apply Forall_forall. intros q Hq%elem_of_rangeZ. rewrite (s_n _ Hc : cn c = n) in Hq. lia.
    + intros q a Hq Ha. destruct (_ && _); [done|]. by apply updateAttributes_row_ok.
  - intros a Ha. cbn. apply foldl_ind; [done|]. intros [[s d] ch] cmd Hi. unfold updateAttributes_key. by repeat case_match.
Qed.

Lemma mergeAttributes_ok s1 d1 s2 d2 c :
  node_ok c → row_ok d1 → row_ok d2 → returns (mergeAttributes s1 d1 s2 d2 c) (λ a, row_ok a.1.2).
Proof.
  intros Hc H1 H2. unfold mergeAttributes. eapply returns_bind.
  - apply (returns_forEach_all _ (λ q, 0 ≤ q < n) (λ a : list Z * bool, row_ok a.1)); [done| |].
    + apply Forall_forall. intros q Hq%elem_of_rangeZ. rewrite (s_n _ Hc : cn c = n) in Hq. lia.
    + intros q [d same] Hq Ha. unfold merge_row. destruct (row_lookup d q Ha Hq) as (x & -> & _ & _).
      destruct (row_lookup d2 q H2 Hq) as (y & -> & _ & Hy). cbn. destruct (x =? y); [done|]. cbn.
      destruct (x <? y); [by apply row_insert|done].
  - by intros [d same] Hd.
Qed.

(** The committed prefix: each round passes an instance of the row. *)
Definition row_of (q : Z) (c : core) (lo : Z) : gmap instanceID Instance := filter (λ '(v, _), v.1 = q ∧ lo < v.2) (instanceSpace c).

Lemma updateCommitted_loop_ok w fuel q c u :
  node_at w c → 0 ≤ q < n → index (committedUpTo c) q = Some u → (size (row_of q c u) < fuel)%nat →
  returns (updateCommitted_loop fuel q c) (λ c', node_at w c' ∧ instanceSpace c' = instanceSpace c).
Proof.
  revert c u. induction fuel as [|fuel IH]; intros c u Hc Hq Hu Hf; [lia|]. cbn [updateCommitted_loop].
  pose proof (node_at_ok _ _ Hc) as Hok. destruct (s_range _ Hok) as (? & ? & HB).
  destruct (row_lookup _ q (s_committed _ Hok) Hq) as (u' & Hat & Hl & Hr). cbn in Hat, Hl. rewrite Hat. cbn [mbind outcome_bind].
  rewrite index_nonneg in Hu by lia. rewrite Hl in Hu. injection Hu as ->.
  assert (i32 (u + 1) = u + 1) as -> by (apply wrapS_id; [lia|]; unfold MAX_INSTANCE in HB; lia).
  unfold space, in_space. rewrite (s_n _ Hok : cn c = n). replace (_ && _) with true by lia. cbn [mbind outcome_bind].
  destruct (instanceSpace c !! (q, u + 1)) as [x|] eqn:Hx; [|done]. destruct (settled_status x); [|done].
  destruct (node_instance c _ x Hok Hx) as [[_ Hpos] _]. cbn in Hpos.
  eapply returns_mono; [apply (IH _ (u + 1))|by intros c' [? E]].
  - destruct Hc as [[K1 K2 K3 K4 K5 K6 K7 K8 K9 K10 K11 K12 K13 K14] Hw]. split; [|exact Hw]. split; try done. apply row_insert; [done|lia].
  - done.
  - cbn. rewrite index_nonneg by lia. rewrite list_lookup_insert_eq; [done|]. by apply lookup_lt_Some in Hl.
  - cut (size (row_of q c (u + 1)) < size (row_of q c u))%nat.
    { intros H'. unfold row_of in *. cbn in *. lia. }
    apply map_subset_size. split.
    + apply map_subseteq_spec. intros v y. unfold row_of. rewrite !map_lookup_filter_Some. intros [? [? ?]]. split; [done|]. split; [done|lia].
    + intros Hsub. rewrite map_subseteq_spec in Hsub.
      assert (row_of q c u !! (q, u + 1) = Some x) as E by (apply map_lookup_filter_Some; split; [done|]; cbn; lia).
      apply Hsub, map_lookup_filter_Some in E as [_ E]. cbn in E. lia.
Qed.

Lemma updateCommitted_keeps w v c :
  node_at w c → pos_ok v → returns (updateCommitted v.1 c) (λ c', node_at w c' ∧ instanceSpace c' = instanceSpace c).
Proof.
  intros Hc [H1 _]. pose proof (node_at_ok _ _ Hc) as Hok.
  destruct (row_lookup _ v.1 (s_committed _ Hok) H1) as (u & _ & Hl & _). cbn in Hl.
  apply (updateCommitted_loop_ok w _ v.1 c u); [done|done|by rewrite index_nonneg by lia|].
  unfold row_of. pose proof (map_size_filter (λ '(v', _), v'.1 = v.1 ∧ u < v'.2) (instanceSpace c)). lia.
Qed.

(** ** Broadcasts *)
Lemma bcast_keeps (P : core → Prop) v body c :
  P c → (∀ x b, instanceSpace c !! v = Some x → lb x = Some b → P (body b c)) → P (bcast v body c).
Proof.
  intros Hc Hb. unfold bcast, space. destruct (in_space _ _ _); [|done]. rewrite <- surjective_pairing.
  destruct (instanceSpace c !! v) as [x|] eqn:Hx; [|done]. destruct (lb x) as [b|] eqn:Hl; [|done]. by eapply Hb.
Qed.

Lemma preferred_at w e limit m c : message_ok m → node_at w c → node_at w (preferred e limit m c).
Proof. intros Hm Hc. unfold preferred. destruct (_ <? _); [done|]. by apply emit_at. Qed.

Lemma node_lb c v x b : node_ok c → instanceSpace c !! v = Some x → lb x = Some b → pos_ok v ∧ lb_ok b.
Proof. intros Hc Hx Hb. destruct (node_instance c v x Hc Hx) as [Hv Hi]. split; [done|]. by apply (xo_lb x Hi b Hb). Qed.

Lemma phase_message_ok v blt b c : pos_ok v → lb_ok b → preparing b = false → attributes_ok (phase_message v blt b c).
Proof. intros Hv [H1 _ H2 _ _ _] Hp. split_and!; cbn; [by destruct v|done|]. destruct H1; [congruence|done]. Qed.

(** The bookkeeping of [v] has a value to send. *)
Definition leads (v : instanceID) (c : core) : Prop := ∀ x b, instanceSpace c !! v = Some x → lb x = Some b → preparing b = false.

Lemma bcastPreAccept_ok w e v c : node_at w c → leads v c → node_at w (bcastPreAccept e v c).
Proof.
  intros Hc Hl. apply (bcast_keeps (node_at w)); [done|]. intros x b Hx Hb. destruct (node_lb c v x b) as [Hv Hok]; [by eapply node_at_ok|done..|].
  apply preferred_at; [|done]. apply phase_message_ok; [done..|by eapply Hl].
Qed.
Lemma bcastAccept_ok w e v c : node_at w c → leads v c → node_at w (bcastAccept e v c).
Proof.
  intros Hc Hl. apply (bcast_keeps (node_at w)); [done|]. intros x b Hx Hb. destruct (node_lb c v x b) as [Hv Hok]; [by eapply node_at_ok|done..|].
  apply preferred_at; [|done]. apply phase_message_ok; [done..|by eapply Hl].
Qed.
Lemma bcastCommit_ok w e v c : node_at w c → leads v c → node_at w (bcastCommit e v c).
Proof.
  intros Hc Hl. apply (bcast_keeps (node_at w)); [done|]. intros x b Hx Hb. destruct (node_lb c v x b) as [Hv Hok]; [by eapply node_at_ok|done..|].
  apply preferred_at; [|done]. apply phase_message_ok; [done..|by eapply Hl].
Qed.
Lemma bcastTryPreAccept_ok w v c : node_at w c → leads v c → node_at w (bcastTryPreAccept v c).
Proof.
  intros Hc Hl. apply (bcast_keeps (node_at w)); [done|]. intros x b Hx Hb. destruct (node_lb c v x b) as [Hv Hok]; [by eapply node_at_ok|done..|].
  apply emit_at; [|done]. apply phase_message_ok; [done..|by eapply Hl].
Qed.
Lemma bcastPrepare_ok w v c : node_at w c → pos_ok v → node_at w (bcastPrepare v c).
Proof. intros Hc Hv. apply (bcast_keeps (node_at w)); [done|]. intros x b Hx Hb. apply emit_at; [|done]. cbn. by destruct v. Qed.

Lemma leads_same v c c' : instanceSpace c' = instanceSpace c → leads v c → leads v c'.
Proof. unfold leads. by intros ->. Qed.
Lemma leads_put v x c : (∀ b, lb x = Some b → preparing b = false) → leads v (put v x c).
Proof. intros Hx y b Hy. cbn in Hy. rewrite lookup_insert_eq in Hy. injection Hy as <-. by apply Hx. Qed.
Lemma leads_upd v f c : (∀ x b, lb (f x) = Some b → preparing b = false) → leads v (upd v f c).
Proof.
  intros Hf y b Hy. cbn in Hy. rewrite lookup_alter_eq in Hy. destruct (instanceSpace c !! v); [|done]. injection Hy as <-. by apply Hf.
Qed.

(** ** Phase 1 *)
Lemma New_self c : node_ok c → ∃ s, ReplicaSet.New [cid c] = Done s.
Proof.
  intros Hc. destruct (s_range _ Hc) as (Hr & ? & _). rewrite (s_id _ Hc : cid c = id). unfold ReplicaSet.New. cbn.
  rewrite (proj2 (ReplicaSet.valid_id_spec id)) by lia. by eexists.
Qed.

Lemma newLeaderBookkeeping_ok e p o com dps blt cs st sq c :
  node_ok c → returns (newLeaderBookkeeping e p o com dps blt cs st sq c) (λ '(b, c'),
    c' = tick_clock c ∧ deps b = dps ∧ cmds b = cs ∧ committedDeps b = com ∧ prepareReplies b = [] ∧ preparing b = true ∧
    possibleQuorum b = allPossible n ∧ clientProposals b = p ∧ lastTriedBallot b = blt ∧ ballot b = blt ∧ status b = st ∧ seq b = sq ∧
    tryingToPreAccept b = false).
Proof.
  intros Hc. unfold newLeaderBookkeeping. destruct (New_self c Hc) as [s ->]. cbn. by rewrite (s_n _ Hc : cn c = n).
Qed.

Lemma allPossible_length m : length (allPossible m) = Z.to_nat m.
Proof. apply length_replicate. Qed.

Lemma i32_small z : -1 ≤ z < MAX_INSTANCE → i32 z = z.
Proof. intros Hz. apply wrapS_id; [lia|]. unfold MAX_INSTANCE in Hz. lia. Qed.

Lemma active_ok v c : pos_ok v → node_ok c → node_ok (c <| active ::= (λ s, {[ v ]} ∪ s) |>).
Proof.
  intros Hv [K1 K2 K3 K4 K5 K6 K7 K8 K9 K10 K11 K12 K13 K14]. split; try done. cbn.
  intros w [->%elem_of_singleton|Hw]%elem_of_union; [done|by apply K11].
Qed.

Lemma startPhase1_ok e cs v blt ps c :
  node_ok c → pos_ok v → cmds_ok cs → returns (startPhase1 e cs v blt ps c) node_ok.
Proof.
  intros Hc Hv Hcs. unfold startPhase1. apply (active_ok v) in Hc; [|done].
  eapply returns_bind; [by apply raise_crt_node|]. clear c Hc. intros c Hc.
  destruct (s_range _ Hc) as (Hid & Hn & HB). destruct Hv as [Hv1 Hv2]. pose proof (conj Hv1 Hv2 : pos_ok v) as Hv.
  unfold store. destruct (row_lookup (newNilDeps c) v.1 (row_nil_deps c Hc) Hv1) as (d & -> & _ & _). cbn [mbind outcome_bind].
  rewrite i32_small by lia. eapply returns_bind.
  { apply updateAttributes_ok; [done|]. apply row_insert; [by apply row_nil_deps|lia]. }
  intros [[sq dps] ch] Hd. cbn in Hd. cbn [newInstance].
  eapply returns_bind; [by apply (newLeaderBookkeeping_ok e ps dps (newNilDeps c) dps blt cs PREACCEPTED sq (tick_clock c))|].
  intros [b c'] (-> & E1 & E2 & E3 & E4 & E5 & E6 & E7 & E8 & E9 & E10 & E11 & E12).
  match goal with |- context [space v.1 v.2 ?c2] => set (c2' := c2) end. assert (node_ok c2') as Hc2 by exact Hc.
  rewrite space_ok by done. cbn [mbind outcome_bind].
  match goal with |- context [put v ?x _] => assert (instance_ok x) as Hx; [|set (y := x) in *] end.
  { split; cbn; [done|by right|]. intros b' [= <-]. split; [|by right]. split; cbn; rewrite ?E1, ?E2, ?E3, ?E4, ?E6, ?E12; try done.
    - by right.
    - apply (row_nil_deps c Hc).
    - apply allPossible_length. }
  pose proof (put_ok v y c2' Hv Hx Hc2) as Hat.
  eapply returns_bind; [exact (updateConflicts_keeps v cs v sq _ Hat Hv (proj2 Hat))|].
  intros c3 [Hc3 Es]. match goal with |- context [record_instance v ?c4] => assert (node_at v c4 ∧ instanceSpace c4 = instanceSpace c3) as [Hc4 Es4] end.
  { by destruct (_ <=? _). }
  eapply returns_bind; [by apply record_instance_keeps|]. intros c5 [Hc5 Es5]. cbn.
  apply (node_at_ok v), bcastPreAccept_ok; [by repeat apply emit_at|].
  eapply leads_same; [etrans; [exact Es5|etrans; [exact Es4|exact Es]]|]. by apply leads_put; intros b' [= <-].
Qed.

(** ** Pre-accept *)
Lemma node_at_pos v c : node_at v c → pos_ok v.
Proof. intros [Hc [x Hx]]. by apply (node_instance c v x). Qed.
Hint Resolve node_at_pos : core.

Lemma updateConflicts_at v cs sq c :
  node_at v c → returns (updateConflicts cs v.1 v.2 sq c) (λ c', node_at v c' ∧ instanceSpace c' = instanceSpace c).
Proof. intros Hc. apply updateConflicts_keeps; [done|by apply (node_at_pos v c)|apply Hc]. Qed.

Lemma updateCommitted_at v c :
  node_at v c → returns (updateCommitted v.1 c) (λ c', node_at v c' ∧ instanceSpace c' = instanceSpace c).
Proof. intros Hc. apply updateCommitted_keeps; [done|by apply (node_at_pos v c)]. Qed.

(** The instance has its dependencies. *)
Definition has_deps (v : instanceID) (c : core) : Prop := ∀ x, instanceSpace c !! v = Some x → row_ok (Deps x).

Lemma has_deps_same v c c' : instanceSpace c' = instanceSpace c → has_deps v c → has_deps v c'.
Proof. unfold has_deps. by intros ->. Qed.
Lemma has_deps_upd v f c : (∀ x, instanceSpace c !! v = Some x → row_ok (Deps (f x))) → has_deps v (upd v f c).
Proof.
  intros Hf x Hx. cbn in Hx. rewrite lookup_alter_eq in Hx. destruct (instanceSpace c !! v) as [y|]; [|done]. injection Hx as <-. by apply Hf.
Qed.

Lemma reply_preAccept_ok m v c :
  node_at v c → has_deps v c → v = (m_Replica m, m_Instance m) → returns (reply_preAccept m v c) node_ok.
Proof.
  intros Hc Hd Ev. unfold reply_preAccept. eapply returns_bind; [by apply deref_ok|]. intros x [Hx _]. cbn.
  apply emit_shape; [|by eapply node_at_ok]. split_and!; cbn; [rewrite <- Ev; by apply (node_at_pos v c)|by apply Hd|].
  apply (s_committed _ (node_at_ok _ _ Hc)).
Qed.

Lemma instance_bal_ok x b : instance_ok x → instance_ok (x <| bal := b |>).
Proof. intros [H1 H2 H3]. by split. Qed.

Lemma handlePreAccept_ok e m c : node_ok c → attributes_ok m → returns (handlePreAccept e m c) node_ok.
Proof.
  intros Hc (Hv & Hcs & Hds). unfold handlePreAccept. set (v := (m_Replica m, m_Instance m)) in *.
  rewrite space_ok by done. cbn [mbind outcome_bind].
  match goal with |- context [raise_ballot _ ?c1] => assert (node_ok c1) as Hc1 by by destruct (_ <=? _) end.
  eapply returns_bind; [apply raise_crt_node; [by apply raise_ballot_ok|done]|]. clear c Hc Hc1. intros c Hc.
  eapply returns_bind; [by apply ensure_instance_ok|]. clear c Hc. intros [x c] (Hc & Hx & Hok).
  destruct (m_Ballot m <? bal x); [by eapply node_at_ok|].
  set (c1 := upd v _ c). assert (node_at v c1) as Hc1 by (apply upd_ok; [done|intros y _; apply instance_bal_ok]).
  assert (instanceSpace c1 !! v = Some (x <| bal := m_Ballot m |>)) as Hx1.
  { cbn. by rewrite lookup_alter_eq, Hx. }
  clearbody c1. clear c Hc Hx. destruct Hok as [Ho1 Ho2 Ho3].
  destruct (ACCEPTED <=? Status x) eqn:Est.
  - assert (row_ok (Deps x)) as Hdx by (destruct Ho2 as [[E _]|]; [rewrite E in Est; discriminate|done]).
    assert (has_deps v c1) as Hd1 by (intros y Hy; rewrite Hx1 in Hy; by injection Hy as <-).
    case_bool_decide as Hn; [|by apply reply_preAccept_ok].
    eapply returns_bind; [apply updateConflicts_at, upd_ok; [done|]|].
    { intros y Hy [I1 I2 I3]. rewrite Hx1 in Hy. injection Hy as <-. split; [done|by right|]. intros b Hb. by apply I3. }
    intros c2 [Hc2 Es]. apply reply_preAccept_ok; [by repeat apply emit_at| |done].
    apply (has_deps_same v (upd v (set Cmds (λ _, m_Command m)) c1)); [exact Es|]. apply has_deps_upd. intros y Hy. rewrite Hx1 in Hy. by injection Hy as <-.
  - destruct (negb (vbal x =? m_Ballot m) || (Status x =? STATUS_NONE)) eqn:Ev.
    + eapply returns_bind; [apply updateAttributes_ok; [by eapply node_at_ok|done]|]. intros [[sq dps] ch] Hd. cbn in Hd. cbn beta iota zeta.
      set (f := λ x : Instance, _). set (c2 := upd v f c1).
      assert (node_at v c2) as Hc2.
      { apply upd_ok; [done|]. intros y Hy _. rewrite Hx1 in Hy. injection Hy as <-. split; cbn; [done|by right|].
        intros b Hb. split; [by apply Ho3|by right]. }
      eapply returns_bind; [by apply updateConflicts_at|]. intros c3 [Hc3 Es3].
      eapply returns_bind; [by apply record_instance_keeps|]. intros c4 [Hc4 Es4].
      apply reply_preAccept_ok; [by repeat apply emit_at| |done].
      apply (has_deps_same v c2); [by etrans|]. by apply has_deps_upd.
    + apply reply_preAccept_ok; [done| |done]. intros y Hy. rewrite Hx1 in Hy. injection Hy as <-. cbn.
      destruct Ho2 as [[E _]|]; [|done]. rewrite E in Ev. cbn in Ev. by destruct (negb _).
Qed.

(** ** Replies to a pre-accept *)
Lemma put_lb_ok v b c :
  node_at v c → lb_ok b → (lagging b ∨ has_deps v c) → node_at v (put_lb v b c).
Proof.
  intros Hc Hb Hd. apply upd_ok; [done|]. intros x Hx [H1 H2 H3]. split; cbn; [done|done|]. intros b' [= <-].
  split; [done|]. destruct Hd as [|Hd]; [by left|right; exact (Hd x Hx)].
Qed.

Lemma has_deps_lb v b c : has_deps v c → has_deps v (put_lb v b c).
Proof. intros Hd. apply has_deps_upd. intros x Hx. exact (Hd x Hx). Qed.

Lemma lb_ballot_ok b k : lb_ok b → lb_ok (b <| lastTriedBallot := k |>).
Proof. intros [H1 H0 H2 H3 H4 H5]. by split. Qed.

Lemma makeBallot_ok v c : node_at v c → (∃ x b, instanceSpace c !! v = Some x ∧ lb x = Some b) → returns (makeBallot v c) (node_at v).
Proof.
  intros Hc (x & b & Hx & Hb). unfold makeBallot, deref. rewrite Hx. cbn [mbind outcome_bind]. rewrite Hb. cbn.
  apply upd_ok; [done|]. intros y Hy [H1 H2 H3]. rewrite Hx in Hy. injection Hy as <-. split; cbn; [done|done|]. intros b' [= <-].
  destruct (H3 b Hb) as [Ho Hd]. split; [by apply lb_ballot_ok|done].
Qed.

Lemma nack_ok v b c :
  node_at v c → lb_ok b → (lagging b ∨ has_deps v c) → returns (nack v b c) node_ok.
Proof.
  intros Hc Hb Hd. unfold nack. cbn beta zeta. set (b' := b <| nacks ::= _ |>).
  assert (lb_ok b') as Hb' by (destruct Hb; by split).
  assert (node_at v (put_lb v b' c)) as Hc' by by apply put_lb_ok.
  destruct (_ && _); [|by eapply node_at_ok].
  eapply returns_bind; [apply makeBallot_ok; [done|]|].
  - destruct Hc as [_ [x Hx]]. eexists _, b'. cbn. by rewrite lookup_alter_eq, Hx.
  - intros c2 Hc2. cbn. apply (node_at_ok v), bcastPrepare_ok; [done|by apply (node_at_pos v c)].
Qed.

Lemma count_voter_range a vs c vs' : node_ok c → count_voter a vs c = Some vs' → 0 ≤ a < n.
Proof. intros Hc. unfold count_voter. rewrite (s_n _ Hc : cn c = n). destruct ((a <? 0) || (n <=? a)) eqn:E; [done|]. lia. Qed.

Lemma merge_all_committed_ok x r com c :
  node_ok c → row_ok (Deps x) → length com = Z.to_nat n → length (par_CommittedDeps r) = Z.to_nat n →
  returns (merge_all_committed x r com c) (λ a, length a.1 = Z.to_nat n).
Proof.
  intros Hc Hx Hcom Hr. unfold merge_all_committed. destruct (7 <? cn c); [|done].
  apply (returns_forEach_all _ (λ q, 0 ≤ q < n) (λ a : list Z * bool, length a.1 = Z.to_nat n)); [done| |].
  - apply Forall_forall. intros q Hq%elem_of_rangeZ. rewrite (s_n _ Hc : cn c = n) in Hq. lia.
  - intros q [l all] Hq Hl. unfold merge_committed. destruct (length_lookup l q Hl Hq) as (? & -> & _).
    destruct (length_lookup _ q Hr Hq) as (? & -> & _). destruct (row_lookup _ q (s_committed _ Hc) Hq) as (? & E & _). cbn in E. rewrite E.
    destruct (row_lookup _ q Hx Hq) as (? & -> & _). cbn. by rewrite length_insert.
Qed.

Lemma merge_reply_ok x r b c :
  node_ok c → row_ok (Deps x) → lb_ok b → preparing b = false → tryingToPreAccept b = false → row_ok (par_Deps r) →
  length (par_CommittedDeps r) = Z.to_nat n →
  returns (merge_reply x r b c) (λ '(b', _, c'), lb_ok b' ∧ preparing b' = false ∧ tryingToPreAccept b' = false ∧ view_of c' = view_of c).
Proof.
  intros Hc Hx Hb Hp Ht Hr Hrc. unfold merge_reply. cbn beta zeta.
  match goal with |- context [mergeAttributes (seq ?b1)] => set (b1' := b1) end.
  assert (lb_ok b1' ∧ preparing b1' = false ∧ tryingToPreAccept b1' = false) as (Hb1 & Hp1 & Ht1).
  { destruct Hb as [H1 H0 H2 H3 H4 H5]. subst b1'.
    destruct (_ <? _); (split; [|by split]); split; try done; cbn; [by right|by rewrite Ht]. }
  clearbody b1'. destruct Hb1 as [H1 H0 H2 H3 H4 H5]. destruct H1 as [?|H1]; [congruence|].
  eapply returns_bind; [by apply mergeAttributes_ok|]. intros [[sq dps] same] Hd. cbn in Hd. cbn beta iota zeta.
  set (ign := (cn c <=? 3) && thrifty c).
  match goal with |- context [merge_all_committed x r (committedDeps ?b2) ?c2] => set (b2' := b2); set (c2' := c2) end.
  assert (view_of c2' = view_of c) as Hv by (subst c2'; destruct (negb ign && negb same); reflexivity).
  assert (deps b2' = deps b1' ∧ cmds b2' = cmds b1' ∧ committedDeps b2' = committedDeps b1' ∧ possibleQuorum b2' = possibleQuorum b1'
    ∧ prepareReplies b2' = prepareReplies b1' ∧ preparing b2' = preparing b1' ∧ tryingToPreAccept b2' = tryingToPreAccept b1')
    as (E1 & E2 & E3 & E4 & E5 & E6 & E7) by (subst b2'; by destruct ign).
  clearbody b2' c2' ign. eapply returns_bind; [apply merge_all_committed_ok|].
  - unfold node_ok. by rewrite Hv.
  - done.
  - by rewrite E3.
  - done.
  - intros [com all] Hcom. cbn in Hcom. cbn.
    split_and!; [|destruct (_ <=? _); cbn; congruence|destruct (_ <=? _); cbn; congruence|done].
    destruct (_ <=? _); split; cbn; rewrite ?E2, ?E4, ?E5, ?E6, ?E7, ?Ht1; try done; by right.
Qed.

Lemma adopt_lb_ok b x : lb_ok b → preparing b = false → instance_ok (adopt_lb b x).
Proof.
  intros Hb Hp. pose proof Hb as [H1 _ H2 _ _ _]. destruct H1 as [?|H1]; [congruence|].
  split; cbn; [done|by right|]. intros b' [= <-]. split; [done|by right].
Qed.

Lemma lb_status_ok b s : lb_ok b → tryingToPreAccept b = false → lb_ok (b <| status := s |>).
Proof. intros [H1 H0 H2 H3 H4 H5] Ht. split; try done. cbn. by rewrite Ht. Qed.

Lemma reply_clients_view b c : instanceSpace (reply_clients b c) = instanceSpace c ∧ (node_ok c → node_ok (reply_clients b c)).
Proof.
  unfold reply_clients. destruct (replyAfterExecution c); [done|].
  apply (foldl_ind _ (λ c', instanceSpace c' = instanceSpace c ∧ (node_ok c → node_ok c'))); [done|].
  intros c' p [E H]. split; [exact E|]. intros Hc. by apply (emit_shape (Replied p NIL)); [|apply H].
Qed.

Lemma reply_clients_at v b c : node_at v c → node_at v (reply_clients b c) ∧ instanceSpace (reply_clients b c) = instanceSpace c.
Proof. intros [Hc Hv]. destruct (reply_clients_view b c) as [E H]. split; [split; [by apply H|by rewrite E]|done]. Qed.

Lemma commit_time_ok e x c : node_ok c → node_ok (commit_time e x c).
Proof. intros Hc. unfold commit_time. by destruct (_ =? 0). Qed.

Lemma commit_fast_ok e v b c :
  node_at v c → lb_ok b → preparing b = false → tryingToPreAccept b = false → returns (commit_fast e v b c) node_ok.
Proof.
  intros Hc Hb Hp Ht. unfold commit_fast. cbn beta zeta. set (b' := b <| status := COMMITTED |>).
  assert (lb_ok b') as Hb' by by apply lb_status_ok.
  assert (node_at v (upd v (adopt_lb b') c)) as Hc1 by (apply upd_ok; [done|intros x _ _; by apply adopt_lb_ok]).
  assert (leads v (upd v (adopt_lb b') c)) as Hl1 by (apply leads_upd; intros x b2 [= <-]; done).
  eapply returns_bind; [by apply record_instance_keeps|]. intros c2 [Hc2 Es2].
  eapply returns_bind; [by apply updateCommitted_at, emit_at|]. intros c3 [Hc3 Es3].
  destruct (reply_clients_at v b' (clearRecovery v.1 v.2 c3) Hc3) as [Hc4 Es4].
  eapply returns_bind; [apply deref_ok, bcastCommit_ok; [done|]|].
  - eapply leads_same; [|exact Hl1]. rewrite Es4. etrans; [exact Es3|exact Es2].
  - intros x _. apply commit_time_ok. apply (node_at_ok v). apply bcastCommit_ok; [done|].
    eapply leads_same; [|exact Hl1]. rewrite Es4. etrans; [exact Es3|exact Es2].
Qed.

Lemma accept_slow_ok e v b all c :
  node_at v c → lb_ok b → preparing b = false → tryingToPreAccept b = false → returns (accept_slow e v b all c) node_ok.
Proof.
  intros Hc Hb Hp Ht. unfold accept_slow. cbn beta zeta. set (b' := b <| status := ACCEPTED |>).
  assert (lb_ok b') as Hb' by by apply lb_status_ok.
  assert (node_at v (upd v (adopt_lb b') c)) as Hc1 by (apply upd_ok; [done|intros x _ _; by apply adopt_lb_ok]).
  assert (leads v (upd v (adopt_lb b') c)) as Hl1 by (apply leads_upd; intros x b2 [= <-]; done).
  eapply returns_bind; [by apply record_instance_keeps|]. intros c2 [Hc2 Es2].
  assert (node_at v (bcastAccept e v (emit Synced c2))) as Hc3.
  { apply bcastAccept_ok; [by apply emit_at|]. by eapply leads_same; [exact Es2|]. }
  cbn. destruct all; exact (node_at_ok _ _ Hc3).
Qed.

Lemma find_lb c v x b :
  instanceSpace c !! v ≫= (λ x, (λ b, (x, b)) <$> lb x) = Some (x, b) → instanceSpace c !! v = Some x ∧ lb x = Some b.
Proof. destruct (instanceSpace c !! v) as [y|]; [|done]. cbn. destruct (lb y) eqn:E; [|done]. by intros [= <- <-]. Qed.

Lemma handlePreAcceptReply_ok e r c : node_ok c → message_ok (MPreAcceptReply r) → returns (handlePreAcceptReply e r c) node_ok.
Proof.
  intros Hc (Hv & Hr & Hrc). unfold handlePreAcceptReply. set (v := (par_Replica r, par_Instance r)) in *.
  rewrite space_ok by done. cbn [mbind outcome_bind].
  destruct (_ ≫= _) as [[x b]|] eqn:E; [|done]. apply find_lb in E as [Hx Hb].
  destruct (node_instance c v x Hc Hx) as [_ Hok]. destruct (xo_lb x Hok b Hb) as [Hbok Hdx].
  destruct (preparing b) eqn:Hp; [done|]. cbn [orb]. destruct (tryingToPreAccept b) eqn:Ht; [done|]. cbn [orb].
  destruct (negb _); [done|]. apply (raise_ballot_ok (par_Ballot r)) in Hc. rewrite <- (raise_ballot_space (par_Ballot r)) in Hx.
  set (c1 := raise_ballot _ c) in *. clearbody c1. clear c. rename c1 into c.
  assert (node_at v c) as Hat by (split; [done|by eexists]).
  assert (row_ok (Deps x) → has_deps v c) as Hd by (intros Hdx' y Hy; rewrite Hx in Hy; by injection Hy as <-).
  destruct (_ <? lastTriedBallot b); [done|].
  destruct (lastTriedBallot b <? _); [apply nack_ok; [done|done|]; destruct Hdx; [by left|right; by apply Hd]|].
  destruct (_ && _) eqn:Est; [done|]. destruct Hdx as [[?|?]|Hdx]; [congruence|unfold PREACCEPTED, PREACCEPTED_EQ, COMMITTED in *; lia|].
  specialize (Hd Hdx). destruct (count_voter _ _ _) as [vs|]; [|done].
  eapply returns_bind; [apply merge_reply_ok; [done|done| |done|done|done|done]|].
  { destruct Hbok; by split. }
  intros [[b' all] c'] (Hb' & Hp' & Ht' & Hview).
  assert (node_at v c' ∧ has_deps v c') as [Hat' Hd'].
  { unfold node_at, node_ok, has_deps in *. assert (instanceSpace c' = instanceSpace c) as -> by by injection Hview. by rewrite Hview. }
  assert (node_at v (put_lb v b' c')) as Hat2 by (apply put_lb_ok; [done|done|by right]).
  cbn beta iota zeta.
  match goal with |- context [if ?p then commit_fast _ _ _ _ else _] => destruct p; [by apply commit_fast_ok|] end.
  match goal with |- context [if ?p then accept_slow _ _ _ _ _ else _] => destruct p; [by apply accept_slow_ok|] end.
  by eapply node_at_ok.
Qed.

(** ** Accept and commit *)
Lemma handleAccept_ok e m c : node_ok c → attributes_ok m → returns (handleAccept e m c) node_ok.
Proof.
  intros Hc (Hv & Hcs & Hds). unfold handleAccept. set (v := (m_Replica m, m_Instance m)) in *.
  rewrite space_ok by done. cbn [mbind outcome_bind].
  eapply returns_bind; [apply raise_crt_node; [by apply raise_ballot_ok|done]|]. clear c Hc. intros c Hc.
  eapply returns_bind; [by apply ensure_instance_ok|]. clear c Hc. intros [x c] (Hc & Hx & Hok).
  eapply (returns_bind _ _ (node_at v)).
  - destruct (m_Ballot m <? bal x); [done|]. destruct (COMMITTED <=? Status x); [done|]. cbn beta zeta.
    eapply returns_bind; [apply updateConflicts_at, upd_ok; [done|]|].
    { intros y Hy [I1 I2 I3]. split; cbn; [done|by right|]. intros b Hb. split; [by apply I3|by right]. }
    intros c2 [Hc2 _]. eapply returns_bind; [by apply record_instance_keeps|]. intros c3 [Hc3 _]. by apply emit_at.
  - intros c2 Hc2. eapply returns_bind; [by apply deref_ok|]. intros y _. cbn. apply emit_shape; [done|by eapply node_at_ok].
Qed.

Lemma commit_slow_ok e v b c :
  node_at v c → has_deps v c → lb_ok b → preparing b = false → tryingToPreAccept b = false → returns (commit_slow e v b c) node_ok.
Proof.
  intros Hc Hd Hb Hp Ht. unfold commit_slow. cbn beta zeta. set (b' := b <| status := COMMITTED |>).
  assert (lb_ok b') as Hb' by by apply lb_status_ok. set (f := λ x : Instance, _). 
  assert (node_at v (upd v f c)) as Hc1.
  { apply upd_ok; [done|]. intros x Hx [I1 I2 I3]. assert (row_ok (Deps x)) by by apply Hd. split; cbn; [done|by right|].
    intros b2 [= <-]. split; [done|by right]. }
  assert (leads v (upd v f c)) as Hl1 by (apply leads_upd; intros x b2 [= <-]; done).
  eapply returns_bind; [by apply updateCommitted_at|]. intros c2 [Hc2 Es2].
  eapply returns_bind; [by apply record_instance_keeps|]. intros c3 [Hc3 Es3].
  destruct (reply_clients_at v b' (emit Synced c3)) as [Hc4 Es4]; [by apply emit_at|].
  assert (leads v (reply_clients b' (emit Synced c3))) as Hl4.
  { eapply leads_same; [|exact Hl1]. rewrite Es4. etrans; [exact Es3|exact Es2]. }
  eapply returns_bind; [by apply deref_ok, bcastCommit_ok|].
  intros x _. apply commit_time_ok. by apply (node_at_ok v), bcastCommit_ok.
Qed.

Lemma handleAcceptReply_ok e r c : node_ok c → message_ok (MAcceptReply r) → returns (handleAcceptReply e r c) node_ok.
Proof.
  intros Hc Hv. cbn in Hv. unfold handleAcceptReply. set (v := (ar_Replica r, ar_Instance r)) in *.
  rewrite space_ok by done. cbn [mbind outcome_bind].
  destruct (_ ≫= _) as [[x b]|] eqn:E; [|done]. apply find_lb in E as [Hx Hb].
  destruct (node_instance c v x Hc Hx) as [_ Hok]. destruct (xo_lb x Hok b Hb) as [Hbok Hdx].
  destruct (preparing b) eqn:Hp; [done|]. cbn [orb].
  destruct (negb _); [done|]. apply (raise_ballot_ok (ar_Ballot r)) in Hc. rewrite <- (raise_ballot_space (ar_Ballot r)) in Hx.
  set (c1 := raise_ballot _ c) in *. clearbody c1. clear c. rename c1 into c.
  assert (node_at v c) as Hat by (split; [done|by eexists]).
  destruct (status b =? ACCEPTED) eqn:Est; cbn [negb]; [|done].
  destruct Hdx as [[?|?]|Hdx]; [congruence|unfold ACCEPTED, COMMITTED in *; lia|].
  assert (has_deps v c) as Hd by (intros y Hy; rewrite Hx in Hy; by injection Hy as <-).
  destruct (negb _); [done|]. destruct (_ <? _); [by apply nack_ok; [..|right]|].
  destruct (count_voter _ _ _) as [vs|]; [|done]. cbn beta zeta.
  set (b' := b <| acceptVoters := vs |> <| acceptOKs ::= _ |>). assert (lb_ok b') as Hb' by (destruct Hbok; by split).
  assert (node_at v (put_lb v b' c)) as Hat2 by (apply put_lb_ok; [done|done|by right]).
  destruct (_ <? _); [|by eapply node_at_ok]. apply commit_slow_ok; [done|by apply has_deps_lb|done|done|].
  destruct (tryingToPreAccept b) eqn:Ht; [|done]. destruct (lo_trying b Hbok Ht). lia.
Qed.

Lemma requeue_replaced_ok m v x c :
  node_at v c → instanceSpace c !! v = Some x →
  node_at v (requeue_replaced m v x c) ∧ is_Some (instanceSpace (requeue_replaced m v x c) !! v).
Proof.
  intros Hc Hx. assert (node_at v (requeue_replaced m v x c)) as H; [|split; [done|apply H]].
  unfold requeue_replaced. destruct (lb x) as [b|] eqn:Hb; [|done]. destruct (m_Command m) as [[|cmd [|? ?]]|]; try done.
  destruct (_ && _); [|done]. cbn zeta. set (c1 := foldl _ _ _).
  assert (node_at v c1 ∧ instanceSpace c1 = instanceSpace c) as [Hc1 Es].
  { subst c1. apply (foldl_ind _ (λ c', node_at v c' ∧ instanceSpace c' = instanceSpace c)); [done|].
    intros c' p [H1 H2]. split; [by apply emit_at|exact H2]. }
  apply upd_ok; [done|]. intros y Hy [I1 I2 I3]. rewrite Es, Hx in Hy. injection Hy as <-.
  split; cbn; [done|done|]. intros b' [= <-]. destruct (I3 b Hb) as [[J1 J0 J2 J3 J4 J5] J]. by split.
Qed.

Lemma handleCommit_ok e m c :
  node_ok c → attributes_ok m → returns (handleCommit e m c) node_ok.
Proof.
  intros Hc (Hv & Hcs & Hds). unfold handleCommit. set (v := (m_Replica m, m_Instance m)) in *.
  rewrite space_ok by done. cbn [mbind outcome_bind].
  eapply returns_bind; [by apply raise_crt_node|]. clear c Hc. intros c Hc.
  eapply returns_bind; [apply ensure_instance_ok; [by apply raise_ballot_ok|done]|]. clear c Hc. intros [x c] (Hc & Hx & Hok).
  destruct (COMMITTED <=? Status x); [by eapply node_at_ok|]. cbn zeta.
  destruct (requeue_replaced_ok m v x c Hc Hx) as [Hc1 _].
  eapply returns_bind; [apply updateConflicts_at, upd_ok; [done|]|].
  { intros y Hy [I1 I2 I3]. split; cbn; [done|by right|]. intros b Hb. split; [by apply I3|by right]. }
  intros c2 [Hc2 _]. eapply returns_bind; [by apply updateCommitted_at|]. intros c3 [Hc3 _].
  eapply returns_bind; [by apply record_instance_keeps|]. intros c4 [Hc4 _]. cbn. apply emit_shape; [done|by eapply node_at_ok].
Qed.

(** ** Recovery *)
Lemma scheduleRecovery_ok v now c :
  node_ok c → pos_ok v → node_ok (scheduleRecovery v.1 v.2 now c).2 ∧ instanceSpace (scheduleRecovery v.1 v.2 now c).2 = instanceSpace c.
Proof.
  intros [K1 K2 K3 K4 K5 K6 K7 K8 K9 K10 K11 K12 K13 K14] Hv. unfold scheduleRecovery. cbn zeta.
  destruct (match recoveryAttempts c !! _ with Some (nextAttempt, _) => now <? nextAttempt | None => false end); [by split|].
  match goal with |- context [if ?b then (true, _) else _] => destruct b end; (split; [split; try done|done]).
  cbn. apply Forall_app. split; [done|]. apply Forall_singleton. by destruct v.
Qed.

Lemma pos_small c v : node_ok c → pos_ok v → 0 ≤ v.1 < 2 ^ 31 ∧ 0 ≤ v.2 < 2 ^ 31.
Proof. intros Hc [H1 H2]. destruct (s_range _ Hc) as (? & ? & ?). unfold MAX_INSTANCE in *. lia. Qed.

Lemma blocked_insert_ok v now c :
  node_ok c → pos_ok v → node_ok (c <| blocked ::= <[recoveryKey v.1 v.2 := now]> |>).
Proof.
  intros Hc Hv. destruct (pos_small c v Hc Hv) as [? ?]. destruct Hc as [K1 K2 K3 K4 K5 K6 K7 K8 K9 K10 K11 K12 K13 K14].
  split; try done. cbn. intros key t. rewrite lookup_insert_Some. intros [[<- _]|[_ Hk]]; [|by eapply K10].
  destruct (recoveryKey_unpack v.1 v.2) as [-> ->]; [lia..|]. by destruct v.
Qed.

Lemma raise_crt_space v c c' : raise_crt v.1 v.2 c = Done c' → instanceSpace c' = instanceSpace c.
Proof. unfold raise_crt. destruct (at_index _ _) as [crt| |]; [|done..]. cbn. destruct (_ <? _); by intros [= <-]. Qed.

Lemma blockedOn_ok e v now c : node_ok c → pos_ok v → returns (blockedOn e v.1 v.2 now c) (λ c', node_ok c' ∧ instanceSpace c' = instanceSpace c).
Proof.
  intros Hc Hv. unfold blockedOn. pose proof (raise_crt_node v c Hc Hv) as Hr. apply returns_inv in Hr as (c1 & E & Hc1).
  rewrite E. apply raise_crt_space in E. cbn [mbind outcome_bind]. rewrite <- E. clear c Hc E.
  destruct (blocked c1 !! _) as [first|].
  - destruct (_ <? COMMIT_GRACE_PERIOD); [done|]. destruct (_ =? _).
    + exact (scheduleRecovery_ok v now _ (blocked_insert_ok v now c1 Hc1 Hv) Hv).
    + split; [|done]. apply emit_shape; [by destruct v|by apply blocked_insert_ok].
  - split; [|done]. exact (blocked_insert_ok v now c1 Hc1 Hv).
Qed.

Lemma prepare_reply_ok v x c : pos_ok v → instance_ok x → prepareReply_ok (prepare_reply v x c).
Proof. intros Hv [H1 H2 H3]. split_and!; cbn; [by destruct v|done|]. destruct H2 as [[E _]|]; [by left|by right]. Qed.

Lemma startRecoveryForInstance_ok e v c : node_ok c → pos_ok v → returns (startRecoveryForInstance e v c) node_ok.
Proof.
  intros Hc Hv. unfold startRecoveryForInstance. apply (active_ok v) in Hc; [|done]. set (c1 := c <| active ::= _ |>) in *.
  clearbody c1. clear c. rewrite space_ok by done. cbn [mbind outcome_bind]. case_bool_decide; [done|].
  eapply returns_bind; [by apply ensure_instance_ok|]. clear c1 Hc H. intros [x c] (Hc & Hx & Hok).
  eapply returns_bind; [by apply newLeaderBookkeeping_ok; eapply node_at_ok|].
  intros [b c'] (-> & E1 & E2 & E3 & E4 & E5 & E6 & E7 & E8 & E9 & E10 & E11 & E12). cbn beta iota zeta.
  apply (node_at_ok v), bcastPrepare_ok; [|done]. destruct Hok as [I1 I2 I3].
  apply put_ok; [done| |exact (node_at_ok _ _ Hc)].
  split; cbn; [done|done|]. intros b' [= <-]. split; [|left; left; exact E5].
  split; cbn; rewrite ?E3, ?E4, ?E5, ?E6, ?E12; try done; [by left|exact (proj1 (row_nil_deps c (node_at_ok _ _ Hc)))|apply allPossible_length|].
  apply Forall_singleton. apply prepare_reply_ok; [done|]. split; [done|done|]. intros b' Hb'. by apply I3.
Qed.

Lemma handlePrepare_ok e m c : node_ok c → message_ok (MPrepare m) → returns (handlePrepare e m c) node_ok.
Proof.
  intros Hc Hv. cbn in Hv. unfold handlePrepare. set (v := (p_Replica m, p_Instance m)) in *. rewrite space_ok by done. cbn [mbind outcome_bind].
  eapply returns_bind; [apply ensure_instance_ok; [by apply raise_ballot_ok|done]|]. clear c Hc. intros [x c] (Hc & Hx & Hok).
  cbn zeta. set (x' := if bal x <? p_Ballot m then _ else _).
  assert (instance_ok x') as Hx' by (subst x'; destruct (_ <? _); [by apply instance_bal_ok|done]).
  apply emit_shape; [by apply prepare_reply_ok|]. apply (node_at_ok v), put_ok; [done|done|by eapply node_at_ok].
Qed.

Lemma select_evidence_ok q l ch resp :
  Forall prepareReply_ok l → (∀ r, ch = Some r → prepareReply_ok r ∧ pr_Status r ≠ STATUS_NONE) →
  ∀ r, (select_evidence q l ch resp).1 = Some r → prepareReply_ok r ∧ pr_Status r ≠ STATUS_NONE.
Proof.
  intros Hl. revert ch resp. induction Hl as [|r0 l Hr0 _ IH]; intros ch resp Hch; [done|]. cbn [select_evidence].
  destruct (COMMITTED <=? pr_Status r0) eqn:Ec.
  { intros r [= <-]. split; [done|]. unfold COMMITTED, STATUS_NONE in *. lia. }
  destruct (pr_Status r0 =? STATUS_NONE) eqn:En; [by apply IH|]. apply IH. intros r.
  destruct (stronger r0 ch); [|by apply Hch]. intros [= <-]. split; [done|by apply Z.eqb_neq].
Qed.

(** ** Tentative pre-accept *)
Lemma cmds_executable l : cmds_ok l → Forall executable (default [] l).
Proof. intros Hl. eapply Forall_impl; [exact Hl|]. by intros c []. Qed.

Definition conflict_ok (c : core) (o : option instanceID) : Prop := ∀ w, o = Some w → is_Some (instanceSpace c !! w).

Lemma find_row_ok cs v sq dps q slots c :
  node_ok c → cmds_ok cs → pos_ok v → row_ok dps → 0 ≤ q < n → Forall (λ i, -1 ≤ i < B) slots →
  returns (find_row cs v.1 v.2 sq dps q slots c) (conflict_ok c).
Proof.
  intros Hc Hcs Hv Hd Hq. induction 1 as [|i slots Hi _ IH]; [done|]. cbn [find_row].
  destruct (i =? -1) eqn:E1; [done|]. destruct (_ && _); [done|].
  destruct (row_lookup dps q Hd Hq) as (dq & -> & _ & _). cbn [mbind outcome_bind]. destruct (i =? dq); [done|].
  rewrite (space_ok c (q, i) Hc : pos_ok (q, i) → space q i c = _) by (split; cbn; lia). cbn [mbind outcome_bind].
  destruct (instanceSpace c !! (q, i)) as [x|] eqn:Hx; [|done]. case_bool_decide as Hn; [done|].
  destruct (node_instance c _ x Hc Hx) as [_ [I1 I2 _]]. destruct I2 as [[_ E]|I2]; [by rewrite E in Hn|].
  destruct (row_lookup (Deps x) v.1 I2 (proj1 Hv)) as (dr & -> & _ & _). cbn [mbind outcome_bind]. destruct (_ <=? dr); [done|].
  eapply returns_bind; [apply ConflictBatch_returns; by apply cmds_executable|]. intros clash _.
  destruct (_ && _); [|done]. intros w [= <-]. by eexists.
Qed.

Lemma find_rows_ok cs v sq dps qs c :
  node_ok c → cmds_ok cs → pos_ok v → row_ok dps → Forall (λ q, 0 ≤ q < n) qs →
  returns (find_rows cs v.1 v.2 sq dps qs c) (conflict_ok c).
Proof.
  intros Hc Hcs Hv Hd. induction 1 as [|q qs Hq _ IH]; [done|]. cbn [find_rows].
  destruct (row_lookup _ q (s_executed _ Hc) Hq) as (u & E & _ & Hu). cbn in E. rewrite E. cbn [mbind outcome_bind].
  destruct (row_lookup _ q (s_crt _ Hc) Hq) as (k & E' & _ & Hk). cbn in E'. rewrite E'. cbn [mbind outcome_bind].
  eapply returns_bind; [apply find_row_ok; try done|].
  - apply Forall_forall. intros i Hi%elem_of_rangeZ. lia.
  - intros [w|] Hw; [exact Hw|done].
Qed.

Lemma findPreAcceptConflicts_ok cs v sq dps c :
  node_ok c → cmds_ok cs → pos_ok v → row_ok dps → returns (findPreAcceptConflicts cs v.1 v.2 sq dps c) (conflict_ok c).
Proof.
  intros Hc Hcs Hv Hd. unfold findPreAcceptConflicts. rewrite space_ok by done. cbn [mbind outcome_bind].
  assert (returns (find_rows cs v.1 v.2 sq dps (rangeZ 0 (cn c - 1)) c) (conflict_ok c)) as Hrows.
  { apply find_rows_ok; try done. apply Forall_forall. intros q Hq%elem_of_rangeZ. rewrite (s_n _ Hc : cn c = n) in Hq. lia. }
  destruct (instanceSpace c !! v) as [x|] eqn:Hx; cbn; [|done]. case_bool_decide; [done|].
  destruct (ACCEPTED <=? Status x); [|by destruct (_ && _)]. intros w [= <-]. rewrite <- surjective_pairing. by eexists.
Qed.

Lemma accept_value_ok v b c : node_at v c → lb_ok b → preparing b = false → node_at v (accept_value v b c) ∧ leads v (accept_value v b c).
Proof.
  intros Hc Hb Hp. pose proof Hb as [H1 _ H2 _ _ _]. destruct H1 as [?|H1]; [congruence|]. split.
  - apply upd_ok; [done|]. intros x _ [I1 I2 I3]. split; cbn; [done|by right|]. intros b' [= <-]. split; [done|by right].
  - by apply leads_upd; intros x b' [= <-].
Qed.

Lemma restart_ok e v b c : node_ok c → pos_ok v → lb_ok b → returns (restart e v b c) node_ok.
Proof. intros Hc Hv Hb. apply startPhase1_ok; [done|done|apply Hb]. Qed.

Lemma rule_out_ok r c b :
  node_ok c → lb_ok b → 0 ≤ tpr_AcceptorId r < n →
  returns (rule_out r c b) (λ b', lb_ok b' ∧ preparing b' = preparing b ∧ deps b' = deps b).
Proof.
  intros Hc Hb Hr. pose proof Hb as [H1 H0 H2 H3 H4 H5]. unfold rule_out, store.
  destruct (length_lookup _ _ H4 Hr) as (p & -> & _). cbn [mbind outcome_bind]. cbn zeta.
  eapply (returns_bind _ _ (λ pq, length pq = Z.to_nat n)).
  - destruct (_ && _) eqn:E; [|cbn; by rewrite length_insert]. rewrite (s_n _ Hc : cn c = n) in E.
    destruct (length_lookup (<[Z.to_nat (tpr_AcceptorId r):=false]> (possibleQuorum b)) (tpr_ConflictReplica r)) as (p' & -> & _);
      [by rewrite length_insert|lia|]. cbn. by rewrite !length_insert.
  - intros pq Hpq. cbn. split; [by split|done].
Qed.

Lemma updateDeferred_ok v r i c : node_ok c → pos_ok v → node_ok (updateDeferred v.1 v.2 r i c).
Proof.
  intros Hc Hv. destruct (pos_small c v Hc Hv) as [H1 H2]. destruct Hc as [K1 K2 K3 K4 K5 K6 K7 K8 K9 K10 K11 K12 K13 K14].
  split; try done. cbn. intros k d. rewrite lookup_insert_Some. intros [[_ <-]|[_ Hk]]; [|by eapply K13].
  rewrite deferKey_unpack by done. apply Hv.
Qed.

Lemma after_refusal_ok e v r b c :
  node_at v c → has_deps v c → lb_ok b → preparing b = false → returns (after_refusal e v r b c) node_ok.
Proof.
  intros Hc Hd Hb Hp. pose proof (node_at_pos v c Hc) as Hv. unfold after_refusal. cbn beta zeta.
  set (b1 := b <| tpaAccepted ::= _ |>). set (b2 := b1 <| tryingToPreAccept := false |>).
  assert (lb_ok b1 ∧ lb_ok b2) as [Hb1 Hb2] by (destruct Hb as [H1 H0 H2 H3 H4 H5]; split; by split).
  assert (∀ b3, lb_ok b3 → node_at v (put_lb v b3 c)) as Hput by (intros b3 Hb3; apply put_lb_ok; [done|done|by right]).
  destruct (_ && _); [apply restart_ok; [eapply node_at_ok; by apply Hput|done|done]|].
  eapply (returns_bind _ _ (λ _, True)).
  { destruct (_ =? cn c / 2); [|done]. unfold deferredByInstance. destruct (deferMap c !! _) as [d|] eqn:Hdm; [|done]. cbn.
    pose proof (s_defer _ (node_at_ok _ _ Hc) _ _ Hdm) as Hr. destruct Hb1 as [_ _ _ _ H4 _].
    destruct (length_lookup _ _ H4 Hr) as (p & E & _). cbn in E. by rewrite E. }
  intros [] _.
  - eapply returns_bind; [by apply deref_ok|]. intros x _. apply restart_ok; [eapply node_at_ok, Hput|done|]; by apply lb_ballot_ok.
  - destruct (_ && _); [|cbn; by eapply node_at_ok, Hput]. cbn.
    assert (node_at v (updateDeferred v.1 v.2 (tpr_ConflictReplica r) (tpr_ConflictInstance r) c)) as Hc2.
    { split; [apply updateDeferred_ok; [by eapply node_at_ok|done]|apply Hc]. }
    apply (node_at_ok v), put_lb_ok; [done|done|right]. exact Hd.
Qed.

Lemma handleTryPreAcceptReply_ok e r c : node_ok c → message_ok (MTryPreAcceptReply r) → returns (handleTryPreAcceptReply e r c) node_ok.
Proof.
  intros Hc Hv. cbn in Hv. unfold handleTryPreAcceptReply. set (v := (tpr_Replica r, tpr_Instance r)) in *.
  rewrite space_ok by done. cbn [mbind outcome_bind].
  eapply returns_bind; [apply ensure_instance_ok; [by apply raise_ballot_ok|done]|]. clear c Hc. intros [x c] (Hc & Hx & Hok).
  destruct (lb x) as [b|] eqn:Hb; [|by eapply node_at_ok]. destruct (tryingToPreAccept b) eqn:Ht; cbn [negb orb]; [|by eapply node_at_ok].
  destruct (xo_lb x Hok b Hb) as [Hbok Hdx]. destruct (lo_trying b Hbok Ht) as [Hp Hst]. destruct Hdx as [[?|?]|Hdx]; [congruence|unfold ACCEPTED, COMMITTED in *; lia|].
  assert (has_deps v c) as Hd by (intros y Hy; rewrite Hx in Hy; by injection Hy as <-).
  destruct (negb _); [by eapply node_at_ok|].
  destruct (count_voter _ _ _) as [vs|] eqn:Ev; [|by eapply node_at_ok]. apply count_voter_range in Ev; [|by eapply node_at_ok].
  cbn beta zeta. set (b1 := b <| preVoters := vs |> <| tpaReps ::= _ |>).
  assert (lb_ok b1) as Hb1 by (destruct Hbok as [H1 H0 H2 H3 H4 H5]; by split).
  destruct (_ && _).
  - set (b2 := b1 <| preAcceptOKs ::= _ |>). assert (lb_ok b2) as Hb2 by (destruct Hbok as [H1 H0 H2 H3 H4 H5]; by split).
    destruct (_ <=? preAcceptOKs b2); [|by apply after_refusal_ok].
    set (b3 := b2 <| status := ACCEPTED |> <| tryingToPreAccept := false |> <| acceptOKs := 0 |>).
    assert (lb_ok b3) as Hb3 by (destruct Hbok as [H1 H0 H2 H3 H4 H5]; by split).
    destruct (accept_value_ok v b3 c Hc Hb3 Hp) as [Ha Hl]. cbn.
    apply (node_at_ok v), bcastAccept_ok; [apply upd_ok; [done|intros y _; apply instance_bal_ok]|].
    intros y b' Hy. cbn in Hy. rewrite lookup_alter_eq in Hy. destruct (instanceSpace (accept_value v b3 c) !! v) as [z|] eqn:Hz.
    + cbn in Hz. rewrite Hz in Hy. injection Hy as <-. intros Hlb. exact (Hl z b' Hz Hlb).
    + cbn in Hz. by rewrite Hz in Hy.
  - eapply returns_bind; [by apply rule_out_ok; [eapply node_at_ok|..]|]. intros b2 (Hb2 & Hp2 & _).
    apply after_refusal_ok; [done|done|done|]. by rewrite Hp2.
Qed.

Lemma handleTryPreAccept_ok e m c : node_ok c → attributes_ok m → returns (handleTryPreAccept e m c) node_ok.
Proof.
  intros Hc (Hv & Hcs & Hds). unfold handleTryPreAccept. set (v := (m_Replica m, m_Instance m)) in *.
  eapply returns_bind; [by apply ensure_instance_ok|]. clear c Hc. intros [x c] (Hc & Hx & Hok).
  eapply (returns_bind _ _ (λ '(_, _, _, c'), node_at v c')).
  - destruct (bal x <=? m_Ballot m); [|done]. cbn zeta. set (c1 := upd v _ c).
    assert (node_at v c1) as Hc1 by (apply upd_ok; [done|intros y _; apply instance_bal_ok]).
    eapply returns_bind; [by apply findPreAcceptConflicts_ok; [eapply node_at_ok|..]|]. intros [w|] Hw.
    + eapply returns_bind; [apply deref_ok; split; [by eapply node_at_ok|by apply Hw]|]. by intros y _.
    + eapply returns_bind; [by apply (raise_crt_ok v v)|]. intros c2 Hc2. cbn zeta.
      eapply returns_bind; [apply updateConflicts_at, upd_ok; [done|]|].
      { intros y Hy [I1 I2 I3]. split; cbn; [done|by right|]. intros b Hb. split; [by apply I3|by right]. }
      by intros c3 [Hc3 _].
  - intros [[[cr ci] cs] c2] Hc2. eapply returns_bind; [by apply deref_ok|]. intros y _. cbn zeta.
    destruct (_ =? cid c2); [apply handleTryPreAcceptReply_ok; [by eapply node_at_ok|by destruct v]|].
    apply emit_shape; [by destruct v|by eapply node_at_ok].
Qed.

(** ** The replies to a prepare *)
Lemma commit_chosen_ok e v ch c :
  node_ok c → prepareReply_ok ch → pr_Status ch ≠ STATUS_NONE → pos_ok v → returns (commit_chosen e v ch c) node_ok.
Proof.
  intros Hc (_ & Hcs & Hd) Hs Hv. destruct Hd as [|Hd]; [done|]. unfold commit_chosen. cbn zeta. set (m := mkAttributes _ _ _ _ _ _ _).
  assert (attributes_ok m) as Hm by (split_and!; [by destruct v|done|done]).
  eapply returns_bind; [by apply handleCommit_ok|]. intros c2 Hc2. cbn. by apply emit_shape.
Qed.

Lemma recover_value_ok e v ch b c :
  node_at v c → prepareReply_ok ch → pr_Status ch ≠ STATUS_NONE → pr_Status ch < COMMITTED → status b = pr_Status ch →
  lb_ok b → preparing b = false → tryingToPreAccept b = false →
  returns (recover_value e v ch b (put_lb v b c)) node_ok.
Proof.
  intros Hc (_ & Hcs & Hd) Hs Hlt Hst Hb Hp Ht. destruct Hd as [|Hd]; [done|]. unfold recover_value. destruct (foldl _ _ _) as [matching same].
  pose proof Hb as [H1 H0 H2 H3 H4 H5]. destruct H1 as [?|H1]; [congruence|].
  cbn zeta. set (f := λ x : Instance, _).
  change (upd v f (put_lb v b c)) with (upd v f (upd v (set lb (λ _, Some b)) c)). rewrite upd_upd.
  change (upd v (f ∘ _) c) with (upd v f c). set (c1 := upd v f c).
  assert (node_at v c1) as Hc1.
  { apply upd_ok; [done|]. intros x _ _. split; cbn; [done|by right|]. intros b' [= <-]. split; [done|by right]. }
  assert (has_deps v c1) as Hd1 by by apply has_deps_upd.
  destruct (pr_Status ch =? ACCEPTED) eqn:Ea; cbn [orb].
  2: match goal with |- context [if ?p then Done _ else _] => destruct p end.
  1,2: set (b2 := b <| status := ACCEPTED |> <| ballot ::= _ |>); assert (lb_ok b2) as Hb2 by (split; try done; [by right|cbn; by rewrite Ht]).
  1,2:
    destruct (accept_value_ok v b2 c1 Hc1 Hb2 Hp) as [Ha Hl]; cbn; by apply (node_at_ok v), bcastAccept_ok.
  - match goal with |- context [if ?p then _ else restart _ _ _ _] => destruct p end; [|apply restart_ok; [by eapply node_at_ok|by apply (node_at_pos v c)|done]].
    cbn. set (b2 := b <| tryingToPreAccept ::= _ |> <| preAcceptOKs ::= _ |> <| tpaReps ::= _ |> <| preVoters ::= _ |>).
    assert (lb_ok b2) as Hb2.
    { split; try done; [by right|]. intros _. split; [done|]. cbn. rewrite Hst. unfold ACCEPTED, COMMITTED in *. lia. }
    assert (node_at v (put_lb v b2 c1)) as Hc2 by (apply put_lb_ok; [done|done|by right]).
    assert (leads v (put_lb v b2 c1)) as Hl2 by (apply leads_upd; intros x b' [= <-]; done).
    apply handleTryPreAccept_ok; [by apply (node_at_ok v), bcastTryPreAccept_ok|].
    apply phase_message_ok; [by apply (node_at_pos v c)|done|done].
Qed.

Lemma handlePrepareReply_ok e r c : node_ok c → prepareReply_ok r → returns (handlePrepareReply e r c) node_ok.
Proof.
  intros Hc Hr. pose proof Hr as (Hv & Hrc & Hrd). unfold handlePrepareReply. set (v := (pr_Replica r, pr_Instance r)) in *.
  rewrite space_ok by done. cbn [mbind outcome_bind].
  destruct (_ ≫= _) as [[x b]|] eqn:E; [|done]. apply find_lb in E as [Hx Hb].
  destruct (node_instance c v x Hc Hx) as [_ Hok]. destruct (xo_lb x Hok b Hb) as [Hbok Hdx].
  destruct (negb _); [done|]. apply (raise_ballot_ok (pr_Ballot r)) in Hc. rewrite <- (raise_ballot_space (pr_Ballot r)) in Hx.
  set (c1 := raise_ballot _ c) in *. clearbody c1. clear c. rename c1 into c.
  assert (node_at v c) as Hat by (split; [done|by eexists]).
  destruct (preparing b) eqn:Hp; cbn [negb]; [|done]. pose proof Hbok as [H1 H0 H2 H3 H4 H5].
  assert (tryingToPreAccept b = true → False) as Hnt by (intros Ht; destruct (H0 Ht); congruence).
  destruct (negb _). { cbn. apply (node_at_ok v), put_lb_ok; [done| |left; by left]. by split. }
  destruct (count_voter _ _ _) as [vs|]; [|done]. cbn beta zeta.
  set (b1 := b <| prepareVoters := vs |> <| prepareReplies ::= _ |>).
  assert (Forall prepareReply_ok (prepareReplies b1)) as Hreps by (apply Forall_app; split; [done|by apply Forall_singleton]).
  assert (lb_ok b1) as Hb1 by by split.
  destruct (_ <? SlowQuorumSize c); [cbn; by apply (node_at_ok v), put_lb_ok; [..|left; by left]|].
  destruct (select_evidence _ _ _ _) as [chosen resp] eqn:Es.
  pose proof (select_evidence_ok (pr_Replica r) (prepareReplies b1) None (leaderResponded b1) Hreps) as Hch.
  rewrite Es in Hch. cbn [fst] in Hch. destruct chosen as [ch|].
  - destruct (Hch ltac:(done) ch eq_refl) as [Hchok Hchs]. pose proof Hchok as (_ & Hchc & Hchd). destruct Hchd as [|Hchd]; [done|].
    set (b2 := b1 <| preparing ::= _ |> <| leaderResponded ::= _ |> <| ballot ::= _ |> <| cmds ::= _ |> <| seq ::= _ |> <| status ::= _ |> <| deps ::= _ |>).
    assert (lb_ok b2) as Hb2 by (split; try done; by right).
    assert (tryingToPreAccept b2 = false) as Ht2 by (cbn; destruct (tryingToPreAccept b); [by destruct (Hnt eq_refl)|done]).
    destruct (COMMITTED <=? pr_Status ch) eqn:Ec.
    + apply commit_chosen_ok; [|done..]. apply (node_at_ok v), put_lb_ok; [done|done|left; right; cbn; lia].
    + apply recover_value_ok; try done. lia.
  - apply startPhase1_ok; [done|done|]. apply Forall_singleton. split; [done|]. by intros ?.
Qed.

(** ** Repair *)
Lemma known_committed_deps x : instance_ok x → known_committed x = true → row_ok (Deps x).
Proof.
  intros [_ [[E _]|H] _] Hk; [|done]. unfold known_committed in Hk. rewrite E in Hk. discriminate.
Qed.

Lemma handleRepairRequest_ok e m c : node_ok c → message_ok (MRepairRequest m) → returns (handleRepairRequest e m c) node_ok.
Proof.
  intros Hc Hv. cbn in Hv. unfold handleRepairRequest. cbn zeta. destruct (_ || _ || _ || _) eqn:E; [done|].
  rewrite (space_ok c _ Hc Hv : space (rr_Owner m) (rr_Slot m) c = _). cbn [mbind outcome_bind].
  assert (node_ok (if recoveryCoordinator e (rr_Owner m) c =? cid c
    then (scheduleRecovery (rr_Owner m) (rr_Slot m) (clock e (reads c)) (tick_clock c)).2 else c)) as Hs.
  { destruct (_ =? cid c); [|done]. by apply (scheduleRecovery_ok (rr_Owner m, rr_Slot m)). }
  destruct (instanceSpace c !! (rr_Owner m, rr_Slot m)) as [x|] eqn:Hx; [|by destruct (_ =? cid c)].
  destruct (node_instance c _ x Hc Hx) as [_ Hok]. destruct (known_committed x) eqn:Ek; [|by destruct (_ =? cid c)].
  apply emit_shape; [|done]. split_and!; [done|apply Hok|by apply known_committed_deps].
Qed.

Lemma scan_slot_ok e now v c : node_ok c → pos_ok v → returns (scan_slot e now v.1 v.2 c) node_ok.
Proof.
  intros Hc Hv. unfold scan_slot. rewrite space_ok by done. cbn [mbind outcome_bind]. destruct (from_option _ _ _); [done|].
  eapply returns_mono; [by apply blockedOn_ok|]. by intros c' [? _].
Qed.

Lemma scan_row_ok e now q c : node_ok c → 0 ≤ q < n → returns (scan_row e now q c) node_ok.
Proof.
  intros Hc Hq. unfold scan_row. destruct (s_range _ Hc) as (_ & _ & HB).
  destruct (row_lookup _ q (s_crt _ Hc) Hq) as (k & E' & _ & Hk). cbn in E'. rewrite E'. cbn [mbind outcome_bind].
  destruct (row_lookup _ q (s_executed _ Hc) Hq) as (u & E & _ & Hu). cbn in E. rewrite E. cbn [mbind outcome_bind]. cbn zeta.
  rewrite (i32_small (u + 1)) by lia. set (final := if _ <? k then _ else _). assert (final ≤ k) as Hf by (subst final; case_match; lia).
  apply (returns_forEach_all _ (λ i, 0 ≤ i < B) node_ok); [done| |].
  - apply Forall_forall. intros i Hi%elem_of_rangeZ. lia.
  - intros i c' Hi Hc'. by apply (scan_slot_ok e now (q, i)).
Qed.

Lemma retry_blocked_ok e now key c :
  node_ok c → pos_ok (i32 (Z.shiftr key 32), i32 key) → returns (retry_blocked e now key c) node_ok.
Proof.
  intros Hc Hk. unfold retry_blocked. cbn zeta.
  rewrite (space_ok c _ Hc Hk : space (i32 (Z.shiftr key 32)) (i32 key) c = _). cbn [mbind outcome_bind]. destruct (from_option _ _ _).
  - destruct Hc as [K1 K2 K3 K4 K5 K6 K7 K8 K9 K10 K11 K12 K13 K14]. split; try done. cbn. intros k' t. rewrite lookup_delete_Some.
    intros [_ Hk']. by eapply K10.
  - eapply returns_mono; [by apply (blockedOn_ok e (i32 (Z.shiftr key 32), i32 key))|]. by intros c2 [? _].
Qed.

Lemma bcastAccept_space e v c : instanceSpace (bcastAccept e v c) = instanceSpace c.
Proof. apply (bcast_keeps (λ c', instanceSpace c' = instanceSpace c)); [done|]. intros x b _ _. unfold preferred. destruct (Z.of_nat _ <? _); reflexivity. Qed.

Lemma retry_recovery_ok e v (late coordinates : bool) c :
  node_ok c → pos_ok v → returns (if late then if coordinates then startRecoveryForInstance e v c else Done c else Done c) node_ok.
Proof. intros Hc Hv. destruct late; [|done]. destruct coordinates; [|done]. by apply startRecoveryForInstance_ok. Qed.

Lemma check_active_ok e now v c : node_ok c → pos_ok v → returns (check_active e now v c) node_ok.
Proof.
  intros Hc Hv. unfold check_active. rewrite space_ok by done. cbn [mbind outcome_bind].
  match goal with |- context [match ?o with Some _ => _ | None => _ end] => destruct o as [[x b]|] eqn:E end.
  2: { destruct Hc as [K1 K2 K3 K4 K5 K6 K7 K8 K9 K10 K11 K12 K13 K14]. split; try done. cbn. intros w Hw%elem_of_difference. apply K11, Hw. }
  destruct (instanceSpace c !! v) as [y|] eqn:Hx; [|done]. cbn in E. destruct (lb y) as [b'|] eqn:Hb; [|done]. cbn in E.
  destruct (COMMITTED <=? Status y); [done|]. injection E as -> ->. destruct (node_instance c v x Hc Hx) as [_ Hok].
  destruct (xo_lb x Hok b Hb) as [Hbok _]. assert (node_at v c) as Hat by (split; [done|by eexists]).
  destruct (negb (bal x =? _)); [done|]. cbn zeta. destruct (_ <? Second); [done|].
  destruct (preparing b) eqn:Hp; cbn [negb andb]; [by apply retry_recovery_ok|].
  destruct (tryingToPreAccept b) eqn:Ht; cbn [negb andb]; [by apply retry_recovery_ok|].
  match goal with |- context [if ?p then Done _ else _] => destruct p; [|by apply retry_recovery_ok] end.
  set (b1 := b <| status := ACCEPTED |> <| ballot ::= _ |>). set (b2 := b1 <| phaseStarted ::= _ |>).
  pose proof Hbok as [H1 H0 H2 H3 H4 H5]. destruct H1 as [?|H1]; [congruence|].
  assert (lb_ok b1) as Hb1 by (split; try done; [by right|cbn; by rewrite Ht]).
  assert (lb_ok b2) as Hb2 by (split; try done; [by right|cbn; by rewrite Ht]).
  destruct (accept_value_ok v b1 c Hat Hb1 Hp) as [Ha Hl].
  apply (node_at_ok v), put_lb_ok; [by apply bcastAccept_ok|done|right].
  intros z Hz. rewrite bcastAccept_space in Hz. cbn in Hz. rewrite lookup_alter_eq, Hx in Hz. injection Hz as <-. exact H1.
Qed.

Lemma repairTick_ok e now c : node_ok c → returns (repairTick e now c) node_ok.
Proof.
  intros Hc. unfold repairTick. eapply (returns_bind _ _ node_ok).
  { unfold scan_gaps. destruct (match nextGapScan c with Some t => now <? t | None => false end); [done|].
    apply (returns_forEach_all _ (λ q, 0 ≤ q < n) node_ok); [done| |].
    - apply Forall_forall. intros q Hq%elem_of_rangeZ. rewrite (s_n _ Hc : cn c = n) in Hq. lia.
    - intros q c' Hq Hc'. by apply scan_row_ok. }
  clear c Hc. intros c Hc. eapply (returns_bind _ _ node_ok).
  { apply (returns_forEach_all _ (λ key, pos_ok (i32 (Z.shiftr key 32), i32 key)) node_ok); [done| |].
    - apply Forall_forall. intros key Hkey. apply list_elem_of_fmap in Hkey as ([k t] & -> & Hk).
      apply elem_of_range_order in Hk. by eapply (s_blocked _ Hc).
    - intros key c' Hk Hc'. by apply retry_blocked_ok. }
  clear c Hc. intros c Hc. apply (returns_forEach_all _ pos_ok node_ok); [done| |].
  - apply Forall_forall. intros v Hv%elem_of_range_set. by apply (s_active _ Hc).
  - intros v c' Hv Hc'. by apply check_active_ok.
Qed.

(** ** Every input *)
Lemma handle_shape e m c : node_ok c → message_ok m → returns (handle e m c) node_ok.
Proof.
  intros Hc Hm. destruct m; cbn [handle].
  - by apply handlePrepare_ok.
  - by apply handlePrepareReply_ok.
  - by apply handlePreAccept_ok.
  - by apply handlePreAcceptReply_ok.
  - by apply handleAccept_ok.
  - by apply handleAcceptReply_ok.
  - by apply handleCommit_ok.
  - by apply handleTryPreAccept_ok.
  - by apply handleTryPreAcceptReply_ok.
  - by apply handleRepairRequest_ok.
Qed.

Definition input_ok (i : input) : Prop :=
  match i with IMessage m => message_ok m | IInstance v => pos_ok v | _ => True end.

Lemma receive_shape e i c : node_ok c → input_ok i → returns (receive e i c) (λ '(_, c'), node_ok c').
Proof.
  intros Hc Hi. destruct i as [m| |v| | |]; cbn [receive].
  - eapply returns_bind; [by apply handle_shape|done].
  - by apply emit_shape.
  - eapply returns_bind; [by apply startRecoveryForInstance_ok|done].
  - done.
  - done.
  - done.
Qed.

Lemma newCore_ok f bw tc ra : 0 ≤ id < n → n ≤ 64 → 0 ≤ B < MAX_INSTANCE → node_ok (newCore n f id bw tc ra).
Proof.
  intros Hid Hn HB. assert (row_ok (replicate (Z.to_nat n) (-1))) as Hr.
  { split; [apply length_replicate|]. apply Forall_replicate. lia. }
  split; try done; cbn.
  - apply length_replicate.
  - intros q row k p Hq. apply lookup_replicate in Hq as [-> _]. by rewrite lookup_empty.
Qed.
End Shape.
End EpaxosShape.
