(* ===== verification/EpaxosTotal.v ===== *)
(** * EpaxosTotal: clusters of EPaxos replicas do not panic

    Proposals, execution and the composition of the handlers' shape lemmas
    ([EpaxosShape]) over the runs of a cluster: in every run, whatever is
    delivered, late, repeated or out of order, the next message, recovery or
    repair tick returns ([cluster_steps_return]). *)
From stdpp Require Import gmap strings list fin_maps fin_sets.
From Stdlib Require Import Lia.
From S2P Require Import Prelude State ReplicaSet Defs Transport Epaxos EpaxosCore EpaxosRecovery EpaxosExecute EpaxosOrder EpaxosReplica EpaxosShape.

Module EpaxosTotal.
Import Epaxos EpaxosCore EpaxosRecovery EpaxosExecute EpaxosReplica EpaxosShape.
Section Total.
Context {SM : StateMachine} (n : Z).

(** ** A larger bound on the instances *)
Section Widen.
Context (id B B' : Z) (HB : B ≤ B' < MAX_INSTANCE).

Lemma pos_widen v : pos_ok n B v → pos_ok n B' v.
Proof. intros [H1 H2]. split; lia. Qed.
Lemma row_widen l : row_ok n B l → row_ok n B' l.
Proof. intros [H1 H2]. split; [done|]. eapply Forall_impl; [exact H2|]. cbn. intros i Hi. lia. Qed.
Hint Resolve pos_widen row_widen : core.

Lemma attributes_widen m : attributes_ok n B m → attributes_ok n B' m.
Proof. intros (? & ? & ?). split_and!; auto. Qed.
Lemma prepareReply_widen r : prepareReply_ok n B r → prepareReply_ok n B' r.
Proof. intros (? & ? & Hd). split_and!; auto. destruct Hd; auto. Qed.
Hint Resolve attributes_widen prepareReply_widen : core.

Lemma message_widen m : message_ok n B m → message_ok n B' m.
Proof. destruct m; cbn; auto. intros (? & ? & ?). split_and!; auto. Qed.
Lemma event_widen ev : event_ok n B ev → event_ok n B' ev.
Proof. destruct ev; cbn; auto using message_widen. Qed.

Lemma lb_widen b : lb_ok n B b → lb_ok n B' b.
Proof. intros [H1 H0 H2 H3 H4 H5]. split; auto; [destruct H1; auto|]. eapply Forall_impl; [exact H5|]. auto. Qed.

Lemma instance_widen x : instance_ok n B x → instance_ok n B' x.
Proof.
  intros [H1 H2 H3]. split; [done|destruct H2; auto|]. intros b Hb. destruct (H3 b Hb) as [H4 H5].
  split; [by apply lb_widen|]. destruct H5; auto.
Qed.

Lemma node_widen c : node_ok n id B c → node_ok n id B' c.
Proof.
  intros [K1 K2 K3 K4 K5 K6 K7 K8 K9 K10 K11 K12 K13 K14]. split; auto.
  - lia.
  - eapply map_Forall_impl; [exact K4|]. cbn. intros v x [Hv Hx]. split; [auto|by apply instance_widen].
  - intros key t Hk. eauto.
  - eapply Forall_impl; [exact K12|]. auto.
  - eapply Forall_impl; [exact K14|]. auto using event_widen.
Qed.
End Widen.

(** ** Proposals *)
Definition proposal_ok (p : Defs.Propose) : Prop := executable (PCommand p) ∧ (Op (PCommand p) ≠ NONE → sm_admits (PCommand p)).

Lemma next_crt_ok id B c crt :
  node_ok n id B c → B + 1 < MAX_INSTANCE → crtInstance c !! Z.to_nat id = Some crt → -1 ≤ crt < B →
  node_ok n id (B + 1) (c <| crtInstance ::= <[Z.to_nat id := crt + 1]> |>).
Proof.
  intros Hc HB Hl Hr. destruct (s_range _ _ _ _ Hc) as (Hid & Hn & HB0). apply (node_widen id B (B + 1)) in Hc; [|lia].
  destruct Hc as [K1 K2 K3 K4 K5 K6 K7 K8 K9 K10 K11 K12 K13 K14].
  split; [exact K1|exact K2|exact K3|exact K4| |exact K6|exact K7|exact K8|exact K9|exact K10|exact K11|exact K12|exact K13|exact K14].
  apply row_insert; [exact K5|lia].
Qed.

Lemma count_batch_ok id B size k c : node_ok n id B c → node_ok n id B (count_batch size k c).
Proof. done. Qed.

Lemma beginProposalBatch_ok id B k c :
  node_ok n id B c → B + 1 < MAX_INSTANCE →
  returns (beginProposalBatch k c) (λ '(_, c'), node_ok n id (B + 1) c' ∧
    ∃ crt, 0 ≤ crt < B + 1 ∧ at_index (crtInstance c') id = Done crt ∧ cid c' = id).
Proof.
  intros Hc HB. unfold beginProposalBatch. cbn zeta. set (size := if _ <? k + 1 then _ else _).
  pose proof (count_batch_ok id B size k c Hc) as Hc1. revert Hc1. generalize (count_batch size k c). intros c1 Hc1. destruct (s_range _ _ _ _ Hc1) as (Hid & Hn & HB0).
  pose proof (s_id _ _ _ _ Hc1 : cid c1 = id) as Eid. rewrite Eid.
  destruct (row_lookup n B (crtInstance c1) id (s_crt _ _ _ _ Hc1) Hid) as (crt & -> & Hl & Hr). cbn [mbind outcome_bind].
  rewrite i32_small by lia. split; [by apply (next_crt_ok id B)|]. exists (crt + 1). split; [lia|]. split; [|exact Eid].
  unfold at_index. rewrite index_nonneg by lia. cbn [crtInstance set]. cbn. rewrite list_lookup_insert_eq; [done|]. by apply lookup_lt_Some in Hl.
Qed.

Lemma submit_shape id B e ps c crt :
  node_ok n id B c → cid c = id → at_index (crtInstance c) id = Done crt → 0 ≤ crt < B → Forall proposal_ok ps →
  returns (submit e ps c) (node_ok n id B).
Proof.
  intros Hc Eid Ecrt Hr Hps. unfold submit. rewrite Eid, Ecrt. cbn [mbind outcome_bind].
  destruct (s_range _ _ _ _ Hc) as (Hid & _ & _). apply (startPhase1_ok n id B); [done|by split|].
  unfold cmds_ok. cbn [default]. apply Forall_fmap. exact Hps.
Qed.

Lemma Propose_ok id B e p queue c :
  node_ok n id B c → B + 1 < MAX_INSTANCE → Forall proposal_ok (p :: queue) →
  returns (Propose e (Some p) queue c) (λ '(_, _, c'), node_ok n id (B + 1) c').
Proof.
  intros Hc HB Hps. unfold Propose.
  eapply returns_bind; [by apply (beginProposalBatch_ok id B)|]. intros [count c2] (Hc2 & crt & Hr & Ecrt & Eid).
  eapply returns_bind; [|intros c3 Hc3; exact Hc3]. apply (submit_shape id (B + 1) e _ c2 crt); try done.
  apply Forall_cons in Hps as [Hp Hq]. apply Forall_cons. split; [exact Hp|]. by apply Forall_take.
Qed.

(** ** Execution keeps the shape *)
Section Search.
Context (id B : Z).
Abbreviation ok := (node_ok n id B).

(** Every instance on the search's stack has its dependencies. *)
Definition stacked (c : core) : Prop := ok c ∧ ∀ v, v ∈ stack c → has_deps n B v c.

Lemma blockedOn_stack e v now c c' : blockedOn e v.1 v.2 now c = Done c' → stack c' = stack c.
Proof.
  unfold blockedOn, raise_crt. destruct (at_index _ _) as [crt| |]; [|done..]. cbn.
  set (c1 := if crt <? v.2 then _ else _). assert (stack c1 = stack c) as <- by (subst c1; by destruct (_ <? _)).
  destruct (blocked c1 !! _) as [first|]; [|by intros [= <-]]. destruct (_ <? COMMIT_GRACE_PERIOD); [by intros [= <-]|].
  destruct (_ =? cid _); [|by intros [= <-]]. intros [= <-]. unfold scheduleRecovery. cbn zeta.
  destruct (match _ with Some (nextAttempt, _) => now <? nextAttempt | None => false end); [done|].
  match goal with |- context [if ?b then (true, _) else _] => by destruct b end.
Qed.

Lemma block_stacked e v idx c : stacked c → pos_ok n B v → ensures (block e v.1 v.2 idx c) (λ '(_, _, c'), stacked c').
Proof.
  intros [Hc Hst] Hv. unfold block. destruct (blockedOn e v.1 v.2 _ _) as [c'| |] eqn:E; [|done..]. cbn.
  pose proof (blockedOn_ok n id B e v (clock e (reads c)) (tick_clock c) Hc Hv) as Hb. rewrite E in Hb. destruct Hb as [Hc' Hs].
  apply blockedOn_stack in E. split; [done|]. intros u Hu. rewrite E in Hu. unfold has_deps. rewrite Hs. by apply Hst.
Qed.

Lemma upd_marks v f c :
  (∀ x, Cmds (f x) = Cmds x ∧ Deps (f x) = Deps x ∧ lb (f x) = lb x ∧ (Status (f x) = Status x)) →
  ok c → ok (upd v f c) ∧ ∀ u, has_deps n B u c → has_deps n B u (upd v f c).
Proof.
  intros Hf Hc. split.
  - destruct (instanceSpace c !! v) as [x|] eqn:Hx.
    + rewrite (upd_put v f c x Hx). destruct (node_instance n id B c v x Hc Hx) as [Hv [I1 I2 I3]].
      apply (node_at_ok n id B v), put_ok; [done| |done]. destruct (Hf x) as (E1 & E2 & E3 & E4).
      split; rewrite ?E1, ?E2, ?E3, ?E4; done.
    + assert (upd v f c = c <| instanceSpace := alter f v (instanceSpace c) |>) as -> by done.
      assert (alter f v (instanceSpace c) = instanceSpace c) as ->; [|exact Hc].
      apply map_eq. intros i. destruct (decide (i = v)) as [->|]; [by rewrite lookup_alter_eq, Hx|by rewrite lookup_alter_ne].
  - intros u Hu x Hx. cbn in Hx. destruct (decide (u = v)) as [->|]; [|rewrite lookup_alter_ne in Hx by done; by apply Hu].
    rewrite lookup_alter_eq in Hx. destruct (instanceSpace c !! v) as [y|] eqn:Hy; [|done]. injection Hx as <-.
    destruct (Hf y) as (_ & -> & _). by apply Hu.
Qed.

Lemma stacked_marks v f c :
  (∀ x, Cmds (f x) = Cmds x ∧ Deps (f x) = Deps x ∧ lb (f x) = lb x ∧ (Status (f x) = Status x)) →
  stacked c → stacked (upd v f c).
Proof. intros Hf [Hc Hst]. destruct (upd_marks v f c Hf Hc) as [H1 H2]. split; [done|]. intros u Hu. by apply H2, Hst. Qed.

Lemma execute_command_keeps x ic c : ensures (execute_command x ic c) (λ c',
  (ok c → ok c') ∧ instanceSpace c' = instanceSpace c ∧ stack c' = stack c).
Proof.
  destruct ic as [i cmd]. unfold execute_command. destruct (Op cmd =? NONE); [done|]. destruct (_ && _).
  - destruct (sm_execute cmd (sm c)) as [[val s]| |]; [|done..]. cbn. destruct (at_index _ _) as [p| |]; [|done..]. cbn.
    split_and!; [|done|done]. intros Hc. exact (emit_shape n id B (Replied p val) c I Hc).
  - destruct (Op cmd =? PUT); [|done]. destruct (sm_execute cmd (sm c)) as [[val s]| |]; [|done..]. by cbn.
Qed.

(** The members of a component. *)
Lemma execute_instance_keeps w c : ok c → has_deps n B w c → ensures (execute_instance w c) (λ c',
  ok c' ∧ stack c' = stack c ∧ ∀ u, has_deps n B u c → has_deps n B u c').
Proof.
  intros Hc Hw. unfold execute_instance, deref. destruct (instanceSpace c !! w) as [x|] eqn:Hx; [|done]. cbn [mbind outcome_bind].
  eapply (ensures_bind _ _ (λ c', ok c' ∧ instanceSpace c' = instanceSpace c ∧ stack c' = stack c)).
  - apply (ensures_forEach _ (λ c', ok c' ∧ instanceSpace c' = instanceSpace c ∧ stack c' = stack c)); [done|].
    intros ic c' (H1 & H2 & H3). eapply ensures_mono; [apply execute_command_keeps|]. intros c2 (J1 & J2 & J3).
    split_and!; [by apply J1|congruence|congruence].
  - intros c' (Hc' & Hs & Hst). cbn. set (f := λ x : Instance, _). set (c2 := upd w f c').
    assert (instanceSpace c' !! w = Some x) as Hx' by by rewrite Hs.
    destruct (node_instance n id B c' w x Hc' Hx') as [Hv [I1 I2 I3]].
    assert (ok c2) as Hc2.
    { subst c2. rewrite (upd_put w f c' x Hx'). apply (node_at_ok n id B w), put_ok; [done| |done].
      split; cbn; [done|right; by apply Hw|done]. }
    split_and!; [exact Hc2|exact Hst|]. intros u Hu y Hy. cbn in Hy. rewrite Hs in Hy.
    destruct (decide (u = w)) as [->|]; [|rewrite lookup_alter_ne in Hy by done; by apply Hu].
    rewrite lookup_alter_eq, Hx in Hy. injection Hy as <-. cbn. by apply Hu.
Qed.

(** What a part of the search leaves. *)
Definition grown (c c' : core) : Prop := stacked c' ∧ ∀ u, has_deps n B u c → has_deps n B u c'.

Lemma grown_refl c : stacked c → grown c c.
Proof. by split. Qed.
Lemma grown_trans a b c : grown a b → grown b c → grown a c.
Proof. intros [H1 H2] [H3 H4]. split; [done|]. intros u Hu. by apply H4, H2. Qed.
Lemma grown_marks v f c :
  (∀ x, Cmds (f x) = Cmds x ∧ Deps (f x) = Deps x ∧ lb (f x) = lb x ∧ (Status (f x) = Status x)) →
  stacked c → grown c (upd v f c).
Proof. intros Hf Hc. split; [by apply stacked_marks|]. apply (upd_marks v f c Hf), Hc. Qed.

Lemma block_grown e v idx c : stacked c → pos_ok n B v → ensures (block e v.1 v.2 idx c) (λ '(_, _, c'), grown c c').
Proof.
  intros Hc Hv. pose proof (block_stacked e v idx c Hc Hv) as Hs. unfold block in *.
  destruct (blockedOn e v.1 v.2 _ _) as [c'| |] eqn:E; [|done..]. cbn in *. split; [done|].
  pose proof (blockedOn_ok n id B e v (clock e (reads c)) (tick_clock c) (proj1 Hc) Hv) as Hb. rewrite E in Hb. destruct Hb as [_ Es].
  intros u Hu. unfold has_deps. rewrite Es. exact Hu.
Qed.

Lemma execute_component_grown l c : stacked c → ensures (execute_component l c) (grown c).
Proof.
  intros [Hc Hst]. unfold execute_component. eapply (ensures_bind _ _ (grown c)).
  - assert (∀ w, w ∈ sorted c (drop l (stack c)) → w ∈ stack c) as Hin.
    { intros w. rewrite EpaxosOrder.sorted_perm. intros Hw. rewrite <- (take_drop l (stack c)). apply elem_of_app. by right. }
    set (ws := sorted c _) in *. clearbody ws. revert c Hc Hst Hin. induction ws as [|w ws IH]; intros c Hc Hst Hin; [by apply grown_refl|].
    cbn [forEach]. eapply ensures_bind; [apply execute_instance_keeps; [done|apply Hst, Hin; by left]|].
    intros c' (H1 & H2 & H3). assert (grown c c') as Hg.
    { split; [split; [done|]|done]. intros u Hu. rewrite H2 in Hu. by apply H3, Hst. }
    eapply ensures_mono; [apply IH; [done|apply Hg|]|intros c2 Hc2; by eapply grown_trans].
    intros u Hu. rewrite H2. apply Hin. by right.
  - intros c' [[Hc' Hst'] Hg]. cbn. split; [|exact Hg]. split; [exact Hc'|]. intros u Hu. apply Hst'. cbn in Hu.
    rewrite <- (take_drop l (stack c')). apply elem_of_app. by left.
Qed.

Lemma enter_grown v idx c : stacked c → has_deps n B v c → grown c (enter v idx c).
Proof.
  intros Hc Hv. unfold enter. set (f := λ x : Instance, _).
  destruct (grown_marks v f c) as [[H1 H2] H3]; [done|done|]. split; [split; [exact H1|]|exact H3].
  cbn. intros u [Hu|Hu%list_elem_of_singleton]%elem_of_app; [by apply (H2 u)|]. subst u. by apply (H3 v).
Qed.

Lemma committed_deps c v x : ok c → instanceSpace c !! v = Some x → Status x ≠ STATUS_NONE → has_deps n B v c.
Proof.
  intros Hc Hx Hs y Hy. rewrite Hx in Hy. injection Hy as <-. destruct (node_instance n id B c v x Hc Hx) as [_ [_ [[E _]|H] _]]; done.
Qed.

Section Connect.
Context (e : env) (sc : instanceID → Z → core → outcome (bool * Z * core)).
Context (Hsc : ∀ v idx c, stacked c → has_deps n B v c → ensures (sc v idx c) (λ '(_, _, c'), grown c c')).

Lemma visit_grown v q idx c :
  stacked c → has_deps n B v c → 0 ≤ q < n → ensures (visit e sc v q idx c) (λ '(_, _, c'), grown c c').
Proof.
  intros Hc Hv Hq. pose proof (grown_refl c Hc) as Hrefl. unfold visit, deref.
  destruct (instanceSpace c !! v) as [xv|] eqn:Hxv; [|done]. cbn [mbind outcome_bind].
  destruct (row_lookup n B (Deps xv) q (Hv xv Hxv) Hq) as (i & -> & _ & Hi). cbn [mbind outcome_bind].
  destruct (row_lookup n B _ q (s_executed _ _ _ _ (proj1 Hc)) Hq) as (u & E & _ & Hu). cbn in E. rewrite E. cbn [mbind outcome_bind].
  destruct (i <=? u) eqn:Eu; [done|]. assert (pos_ok n B (q, i)) as Hpos by (split; cbn; lia).
  rewrite (space_ok n id B c (q, i) (proj1 Hc) Hpos : space q i c = _). cbn [mbind outcome_bind].
  assert (∀ idx, ensures (block e q i idx c) (λ '(_, _, c'), grown c c')) as Hblock by (intros idx'; by apply (block_grown e (q, i))).
  destruct (instanceSpace c !! (q, i)) as [w|] eqn:Hw; [|done]. case_bool_decide; [done|].
  eapply (ensures_bind _ _ (λ _, True)); [by destruct (if transconf c then _ else _)|]. intros _ _.
  destruct (Status w =? EXECUTED); [done|]. destruct (Status w =? COMMITTED) eqn:Ec; cbn [negb]; [|done].
  destruct (Index w =? 0).
  - eapply ensures_bind; [apply Hsc; [done|]|].
    { apply (committed_deps c (q, i) w); [apply Hc|done|]. apply Z.eqb_eq in Ec. rewrite Ec. done. }
    intros [[r idx'] c'] Hg. destruct r; cbn [negb]; [|exact Hg].
    destruct (instanceSpace c' !! (q, i)) as [xw|]; [|done]. cbn [mbind outcome_bind].
    destruct (instanceSpace c' !! v) as [xv'|]; [|done]. cbn [mbind outcome_bind]. destruct (_ <? _); [|exact Hg].
    eapply grown_trans; [exact Hg|]. apply grown_marks; [done|apply Hg].
  - destruct (_ && _); [|done]. by apply grown_marks.
Qed.

Lemma visit_all_grown v qs idx c :
  stacked c → has_deps n B v c → Forall (λ q, 0 ≤ q < n) qs → ensures (visit_all e sc v qs idx c) (λ '(_, _, c'), grown c c').
Proof.
  intros Hc Hv Hqs. revert idx c Hc Hv. induction Hqs as [|q qs Hq _ IH]; intros idx c Hc Hv; [by apply grown_refl|].
  cbn [visit_all]. eapply ensures_bind; [by apply visit_grown|]. intros [[r idx'] c'] Hg. destruct r; cbn [negb]; [|exact Hg].
  eapply ensures_mono; [apply IH; apply Hg; done|]. intros [[r2 idx2] c2] Hg2. by eapply grown_trans.
Qed.
End Connect.

Lemma strongconnect_grown fuel e v idx c :
  stacked c → has_deps n B v c → ensures (strongconnect fuel e v idx c) (λ '(_, _, c'), grown c c').
Proof.
  revert v idx c. induction fuel as [|fuel IH]; intros v idx c Hc Hv; [done|]. cbn [strongconnect].
  pose proof (enter_grown v idx c Hc Hv) as He. set (c1 := enter v idx c) in *. clearbody c1. destruct He as [Hc1 Hg1].
  unfold deref. destruct (instanceSpace c1 !! v) as [x|] eqn:Hx; [|done]. cbn [mbind outcome_bind].
  destruct (node_instance n id B c1 v x (proj1 Hc1) Hx) as [Hpos _]. case_bool_decide.
  { eapply ensures_mono; [by apply block_grown|]. intros [[r i2] c2] [H1 H2]. split; [done|]. intros u Hu. by apply H2, Hg1. }
  eapply ensures_bind; [apply visit_all_grown; [exact IH|done|by apply Hg1|]|].
  { apply Forall_forall. intros q Hq%elem_of_rangeZ. rewrite (s_n _ _ _ _ (proj1 Hc1) : cn c1 = n) in Hq. lia. }
  intros [[r idx2] c2] Hg2. assert (grown c c2) as Hg by (eapply grown_trans; [split; [exact Hc1|exact Hg1]|exact Hg2]).
  destruct r; cbn [negb]; [|exact Hg]. destruct (instanceSpace c2 !! v) as [y|]; [|done]. cbn [mbind outcome_bind].
  destruct (_ =? _); [|exact Hg]. eapply ensures_bind; [apply execute_component_grown, Hg2|].
  intros c3 Hg3. by eapply grown_trans.
Qed.

Lemma findSCC_ok e v c : ok c → has_deps n B v c → ensures (findSCC e v c) (λ '(_, c'), ok c').
Proof.
  intros Hc Hv. unfold findSCC. eapply ensures_bind.
  - apply strongconnect_grown; [split; [exact Hc|by intros u ?%not_elem_of_nil]|exact Hv].
  - intros [[r idx] c'] [[Hc' _] _]. cbn. apply (foldl_ind clear_mark ok); [done|]. intros c2 u Hc2.
    by apply (upd_marks u (λ x, x <| Index := 0 |> <| onStack := false |>) c2).
Qed.

Lemma executeCommand_ok e v c : ok c → ensures (executeCommand e v.1 v.2 c) (λ '(_, c'), ok c').
Proof.
  intros Hc. unfold executeCommand, space. destruct (in_space _ _ _); [|done]. rewrite <- surjective_pairing. cbn [mbind outcome_bind].
  destruct (instanceSpace c !! v) as [x|] eqn:Hx; [|done]. destruct (_ =? EXECUTED); [done|].
  destruct (Status x =? COMMITTED) eqn:Ec; cbn [negb]; [|done]. eapply ensures_bind; [apply findSCC_ok; [done|]|by intros [r c'] H].
  apply (committed_deps c v x Hc Hx). apply Z.eqb_eq in Ec. by rewrite Ec.
Qed.

Lemma apply_row_ok budget e now q c : ok c → 0 ≤ q < n → ensures (apply_row budget e now q c) ok.
Proof.
  revert c. induction budget as [|budget IH]; intros c Hc Hq; [done|]. cbn [apply_row]. destruct (s_range _ _ _ _ Hc) as (_ & _ & HB).
  destruct (row_lookup n B _ q (s_executed _ _ _ _ Hc) Hq) as (u & E & Hl & Hu). cbn in E. rewrite E. cbn [mbind outcome_bind].
  destruct (row_lookup n B _ q (s_crt _ _ _ _ Hc) Hq) as (k & E' & _ & Hk). cbn in E'. rewrite E'. cbn [mbind outcome_bind]. cbn zeta.
  rewrite i32_small by lia. destruct (k <? u + 1) eqn:Ek; [done|]. assert (pos_ok n B (q, u + 1)) as Hpos by (split; cbn; lia).
  rewrite (space_ok n id B c (q, u + 1) Hc Hpos : space q (u + 1) c = _). cbn [mbind outcome_bind].
  assert (ensures (blockedOn e q (u + 1) now c) ok) as Hblock.
  { pose proof (blockedOn_ok n id B e (q, u + 1) now c Hc Hpos) as Hb. cbn in Hb. destruct (blockedOn _ _ _ _ _); [apply Hb|done..]. }
  destruct (instanceSpace c !! (q, u + 1)) as [x|] eqn:Hx; [|done]. destruct (Status x =? EXECUTED).
  - apply IH; [|done]. destruct Hc as [K1 K2 K3 K4 K5 K6 K7 K8 K9 K10 K11 K12 K13 K14].
    split; [exact K1|exact K2|exact K3|exact K4|exact K5|exact K6| |exact K8|exact K9| |exact K11|exact K12|exact K13|exact K14].
    + destruct K7 as [L1 L2]. split; cbn; [by rewrite length_alter|]. apply Forall_lookup_2. intros j v.
      destruct (decide (j = Z.to_nat q)) as [->|Hne].
      * rewrite list_lookup_alter_eq. cbn in Hl. rewrite Hl. cbn. intros [= <-]. rewrite i32_small by lia. lia.
      * rewrite list_lookup_alter_ne by done. intros Hv. exact (Forall_lookup_1 _ _ j v L2 Hv).
    + cbn. intros key t. rewrite lookup_delete_Some. intros [_ Hkey]. by eapply K10.
  - destruct (_ || _); [done|]. eapply ensures_bind; [by apply (executeCommand_ok e (q, u + 1))|]. intros [r c'] Hc'. destruct r; [by apply IH|done].
Qed.

Lemma apply_shape e now c : ok c → ensures (apply e now c) ok.
Proof.
  intros Hc. unfold apply. rewrite (s_n _ _ _ _ Hc : cn c = n).
  assert (Forall (λ q, 0 ≤ q < n) (rangeZ 0 (n - 1))) as Hqs.
  { apply Forall_forall. intros q Hq%elem_of_rangeZ. lia. }
  revert c Hc. induction Hqs as [|q qs Hq _ IH]; intros c Hc; [done|]. cbn [forEach].
  eapply ensures_bind; [by apply apply_row_ok|]. intros c' Hc'. by apply IH.
Qed.
End Search.

(** ** Clusters *)
Lemma wire_commands_ok l : cmds_ok l → cmds_ok (wire_commands l).
Proof. by destruct l as [[|c l]|]. Qed.

Lemma over_wire_ok B m : message_ok n B m → message_ok n B (over_wire m).
Proof.
  destruct m; cbn; try done; try (intros (H1 & H2 & H3); split_and!; [done|by apply wire_commands_ok|done]).
Qed.

Lemma reaches_ok B c alive ev a m : event_ok n B ev → (a, m) ∈ reaches c alive ev → message_ok n B m.
Proof.
  intros He. destruct ev; cbn [reaches]; try (by intros ?%elem_of_nil);
    intros (a' & [= _ ->] & _)%list_elem_of_fmap; exact He.
Qed.

Definition cluster_ok (B : Z) (cs : list core) : Prop := ∀ a c, index cs a = Some c → node_ok n a B c.

Lemma sent_to_ok B cs src dst k alive m : cluster_ok B cs → sent_to cs src dst k alive = Some m → message_ok n B m.
Proof.
  intros Hcs. unfold sent_to. destruct (index cs src) as [s|] eqn:Es; [|done]. cbn. destruct (out s !! k) as [ev|] eqn:Eev; [|done]. cbn.
  destruct (head _) as [[a m']|] eqn:Eh; [|done]. cbn. intros [= <-]. apply over_wire_ok.
  assert ((a, m') ∈ filter (λ am : Z * message, am.1 = dst) (reaches s alive ev)) as Hin.
  { destruct (filter _ _); [done|]. injection Eh as ->. by left. }
  apply list_elem_of_filter in Hin as [_ Hin]. eapply reaches_ok; [|exact Hin].
  eapply (Forall_lookup_1 _ _ _ _ (s_out _ _ _ _ (Hcs src s Es))). exact Eev.
Qed.

Lemma cluster_insert B cs a c : cluster_ok B cs → node_ok n a B c → 0 ≤ a → cluster_ok B (<[Z.to_nat a := c]> cs).
Proof.
  intros Hcs Hc Ha b d. unfold index. destruct (b <? 0) eqn:Eb; [done|]. intros Hd.
  apply list_lookup_insert_Some in Hd as [(E & <- & _)|[_ Hd]]; [by replace b with a by lia|].
  apply (Hcs b). unfold index. by rewrite Eb.
Qed.

Lemma cluster_widen B B' cs : B ≤ B' < MAX_INSTANCE → cluster_ok B cs → cluster_ok B' cs.
Proof. intros HB Hcs a c Ha. by apply (node_widen a B B'), Hcs. Qed.

(** The commands a client proposes were admitted. *)
Definition step_ok (s : step) : Prop :=
  match s with SPropose _ p queue _ => Forall proposal_ok (p :: queue) | _ => True end.

Definition is_proposal (s : step) : Z := match s with SPropose _ _ _ _ => 1 | _ => 0 end.
Fixpoint proposals (ss : list step) : Z := match ss with [] => 0 | s :: ss => is_proposal s + proposals ss end.

(** The step runs the search over committed instances ([EpaxosOrder] is about it). *)
Definition executes (s : step) : bool :=
  match s with
  | STick _ t e => bool_decide (TickKind t = Maintenance) && executeEnabled e
  | _ => false
  end.

Lemma tick_shape id B e t c : node_ok n id B c → ensures (tick e t c) (λ '(_, c'), node_ok n id B c').
Proof.
  intros Hc. unfold tick. destruct (TickKind t).
  - eapply (ensures_bind _ _ (node_ok n id B)).
    + pose proof (repairTick_ok n id B e (TickNow t) c Hc) as H. by destruct (repairTick _ _ _).
    + intros c1 Hc1. eapply (ensures_bind _ _ (node_ok n id B)); [|done]. destruct (executeEnabled e); [by apply apply_shape|done].
  - done.
  - exact (emit_shape n id B BeaconTicked c I Hc).
Qed.

Lemma tick_returns id B e t c :
  node_ok n id B c → bool_decide (TickKind t = Maintenance) && executeEnabled e = false → returns (tick e t c) (λ _, True).
Proof.
  intros Hc. unfold tick. destruct (TickKind t); [|done..]. rewrite bool_decide_true by done. cbn [andb]. intros ->.
  eapply returns_bind; [by apply (repairTick_ok n id B)|]. by intros c1 Hc1.
Qed.

(** One step: what it keeps if it returns, and that it does. *)
Lemma step_core_ok B cs s c o :
  cluster_ok B cs → step_ok s → B + is_proposal s < MAX_INSTANCE → node_ok n (target s) B c → step_core cs s c = Some o →
  ensures o (node_ok n (target s) (B + is_proposal s)) ∧ (executes s = false → returns o (λ _, True)).
Proof.
  intros Hcs Hs HB Hc. destruct s as [a p queue e|src dst k alive e|a e|a t e|a e]; cbn [step_core target is_proposal executes] in *.
  - intros Eo; apply (inj Some) in Eo; subst o. pose proof (Propose_ok a B e p queue c Hc HB Hs) as H.
    destruct (Propose _ _ _ _) as [[[err rest] c']| |]; [by split|done..].
  - destruct (sent_to _ _ _ _ _) as [m|] eqn:Em; [|done]. cbn [mbind option_bind]. intros Eo; apply (inj Some) in Eo; subst o. rewrite Z.add_0_r.
    pose proof (receive_shape n dst B e (IMessage m) c Hc (sent_to_ok B cs _ _ _ _ m Hcs Em)) as H.
    destruct (receive _ _ _) as [[err c']| |]; [by split|done..].
  - destruct (instancesToRecover c) as [|v rest] eqn:Er; [done|]. intros Eo; apply (inj Some) in Eo; subst o. rewrite Z.add_0_r.
    assert (pos_ok n B v ∧ node_ok n a B (c <| instancesToRecover := rest |>)) as [Hv Hc'].
    { destruct Hc as [K1 K2 K3 K4 K5 K6 K7 K8 K9 K10 K11 K12 K13 K14]. cbn in K12. rewrite Er in K12.
      apply Forall_cons in K12 as [Hv K12]. by split. }
    pose proof (receive_shape n a B e (IInstance v) _ Hc' Hv) as H. destruct (receive _ _ _) as [[err c']| |]; [by split|done..].
  - intros Eo; apply (inj Some) in Eo; subst o. rewrite Z.add_0_r. split.
    + eapply ensures_bind; [by apply (tick_shape a B)|]. by intros [? ?].
    + intros He. eapply returns_bind; [by apply (tick_returns a B)|]. by intros [? ?].
  - intros Eo; apply (inj Some) in Eo; subst o. rewrite Z.add_0_r. cbn. by split.
Qed.

Lemma is_proposal_nonneg s : 0 ≤ is_proposal s.
Proof. by destruct s. Qed.
Lemma proposals_nonneg ss : 0 ≤ proposals ss.
Proof. induction ss as [|s ss IH]; cbn; [lia|]. pose proof (is_proposal_nonneg s). lia. Qed.

Lemma exec_ok B cs s :
  cluster_ok B cs → step_ok s → 0 ≤ B → B + is_proposal s < MAX_INSTANCE →
  ensures (exec s cs) (cluster_ok (B + is_proposal s)) ∧ (executes s = false → returns (exec s cs) (λ _, True)).
Proof.
  intros Hcs Hs HB HM. pose proof (is_proposal_nonneg s) as Hp.
  assert (cluster_ok (B + is_proposal s) cs) as Hcs' by (apply (cluster_widen B); [lia|done]).
  unfold exec. destruct (index cs (target s)) as [c|] eqn:Ec; [|done].
  destruct (step_core cs s c) as [o|] eqn:Eo; [|done].
  destruct (step_core_ok B cs s c o Hcs Hs HM (Hcs _ _ Ec) Eo) as [He Hr]. split.
  - eapply ensures_bind; [exact He|]. intros c' Hc'. apply cluster_insert; [done|done|]. unfold index in Ec. destruct (_ <? 0) eqn:E0; [done|lia].
  - intros Hx. eapply returns_bind; [by apply Hr|done].
Qed.

Lemma run_ok B ss cs cs' :
  cluster_ok B cs → Forall step_ok ss → 0 ≤ B → B + proposals ss < MAX_INSTANCE → run ss cs = Done cs' →
  cluster_ok (B + proposals ss) cs'.
Proof.
  intros Hcs Hss. revert B cs Hcs. induction Hss as [|s ss Hs _ IH]; intros B cs Hcs HB HM; cbn [proposals] in *.
  { intros [= <-]. by rewrite Z.add_0_r. }
  pose proof (is_proposal_nonneg s). pose proof (proposals_nonneg ss). unfold run. cbn [forEach].
  destruct (exec_ok B cs s Hcs Hs HB) as [He _]; [lia|]. destruct (exec s cs) as [cs1| |]; [|done..]. cbn in He |- *.
  intros Hrun. rewrite Z.add_assoc. apply (IH (B + is_proposal s) cs1 He); [lia|lia|exact Hrun].
Qed.

Lemma start_ok f bw tc ra : 1 ≤ n ≤ 64 → cluster_ok 0 (start n f bw tc ra).
Proof.
  intros Hn a c Ha. unfold start, index in Ha. destruct (a <? 0) eqn:E0; [done|].
  rewrite list_lookup_fmap in Ha. destruct (rangeZ 0 (n - 1) !! Z.to_nat a) as [id|] eqn:Eid; [|done]. injection Ha as <-.
  unfold rangeZ in Eid. apply lookup_seqZ in Eid as [-> Hlt]. replace (0 + Z.of_nat (Z.to_nat a)) with a by lia.
  apply newCore_ok; [lia|lia|]. unfold MAX_INSTANCE. lia.
Qed.

(** C8.  No message, recovery or repair makes a replica panic.  In any run of a
    cluster from its start, with admitted commands, with fewer proposals than
    the instance space has slots, and with messages delivered in any order, any
    number of times, or never: whatever comes next, other than the execution of
    committed instances ([EpaxosEnds] is about that), returns. *)
Theorem cluster_steps_return f bw tc ra ss s cs :
  1 ≤ n ≤ 64 → Forall step_ok (ss ++ [s]) → proposals (ss ++ [s]) < MAX_INSTANCE →
  run ss (start n f bw tc ra) = Done cs → executes s = false → ∃ cs', exec s cs = Done cs'.
Proof.
  intros Hn Hok HM Hrun Hx. apply Forall_app in Hok as [Hss Hs]. apply Forall_cons in Hs as [Hs _].
  assert (∀ l, proposals (l ++ [s]) = proposals l + is_proposal s) as Hsum.
  { induction l as [|s' l IH]; cbn; [lia|]. rewrite IH. lia. }
  rewrite Hsum in HM. pose proof (is_proposal_nonneg s). pose proof (proposals_nonneg ss).
  assert (cluster_ok (proposals ss) cs) as Hcs by (apply (run_ok 0 ss (start n f bw tc ra)); [by apply start_ok|done|lia|lia|done]).
  destruct (exec_ok (proposals ss) cs s Hcs Hs) as [_ Hr]; [lia|lia|]. specialize (Hr Hx).
  apply returns_inv in Hr as (cs' & E & _). by exists cs'.
Qed.
End Total.
End EpaxosTotal.
