(* ===== verification/EpaxosScenarios.v ===== *)
(** * EpaxosScenarios: what goes wrong in EPaxos recovery

    Runs of a cluster of the modelled replicas, each a list of steps that the
    run function executes:

    - [recovery_diverges]: two replicas execute the same two writes of one key
      in opposite orders;
    - [executed_reopened]: a reply to a prepare that is late takes an executed
      instance back to pre-accepted, with other dependencies;
    - [promise_lowered]: a replica that has promised a ballot accepts at a
      lower one;

    and three local facts: [batch_misses_conflict], [accept_nack_ignored],
    [record_loses_promise]. *)
From stdpp Require Import gmap strings list fin_maps fin_sets.
From Stdlib Require Import Lia.
From S2P Require Import Prelude State Defs Transport Epaxos EpaxosCore EpaxosRecovery EpaxosExecute EpaxosOrder EpaxosReplica EpaxosSteps EpaxosTotal.

Module EpaxosScenarios.
Import Epaxos EpaxosCore EpaxosRecovery EpaxosExecute EpaxosOrder EpaxosReplica EpaxosSteps EpaxosTotal.

(** ** Local facts *)
Section Local.
Context {SM : StateMachine}.

(** A refusal of an accept is never counted: the handler has returned for every
    ballot but its own. *)
Lemma accept_nack_ignored e r c c' x b :
  handleAcceptReply e r c = Done c' → instanceSpace c !! (ar_Replica r, ar_Instance r) = Some x → lb x = Some b →
  lastTriedBallot b < ar_Ballot r → instanceSpace c' = instanceSpace c ∧ out c' = out c.
Proof.
  unfold handleAcceptReply, space. intros H Hx Hb Hlt. cbn [fst snd] in *. rewrite Hx in H. destruct (in_space _ _ _); [|done].
  cbn [mbind outcome_bind option_bind] in H. rewrite Hb in H. cbn in H.
  assert (∀ k, instanceSpace (raise_ballot k c) = instanceSpace c ∧ out (raise_ballot k c) = out c) as Hr.
  { intros k. unfold raise_ballot. by destruct (_ <? k). }
  destruct (_ || _); [by injection H as <-|]. destruct (negb (status b =? ACCEPTED)); [injection H as <-; apply Hr|].
  rewrite (proj2 (Z.eqb_neq _ _)) in H by lia. cbn in H. injection H as <-. apply Hr.
Qed.

(** The second of two writes of one length at one place remains. *)
Lemma write_at_again b l p v :
  length p = length v → (b1 ← write_at b l p; write_at b1 l v) = write_at b l v.
Proof.
  intros Hpv. unfold write_at. rewrite Hpv. destruct (l + length v <=? length b)%nat eqn:E; [|done]. apply Nat.leb_le in E.
  cbn [mbind outcome_bind]. rewrite !length_app, length_take, length_drop, Hpv.
  replace (min l (length b) + (length v + (length b - (l + length v))))%nat with (length b) by lia.
  rewrite (proj2 (Nat.leb_le _ _) E). f_equal.
  assert (take l (take l b ++ p ++ drop (l + length v) b) = take l b) as ->.
  { rewrite take_app_le by (rewrite length_take; lia). by rewrite take_take, Nat.min_id. }
  do 2 f_equal. rewrite app_assoc, drop_app_ge by (rewrite length_app, length_take; lia).
  rewrite drop_drop, length_app, length_take. f_equal. lia.
Qed.

(** The stable record of an instance holds no promise: both ballots are written
    to the same four bytes. *)
Lemma record_loses_promise n x b1 b2 :
  recordInstanceMetadata n (x <| bal := b1 |>) = recordInstanceMetadata n (x <| bal := b2 |>).
Proof.
  assert (∀ b o, (b ← write_at b 0 (le_encode 4 (u32 o)); b ← write_at b 0 (le_encode 4 (u32 (vbal x)));
      b ← write_at b 4 [u8 (Status x)]; b ← write_at b 5 (le_encode 4 (u32 (Seq x))); write_deps b 9 (Deps x)) =
    (b ← write_at b 0 (le_encode 4 (u32 (vbal x)));
      b ← write_at b 4 [u8 (Status x)]; b ← write_at b 5 (le_encode 4 (u32 (Seq x))); write_deps b 9 (Deps x))) as H.
  { intros b o. rewrite <- (write_at_again b 0 (le_encode 4 (u32 o)) (le_encode 4 (u32 (vbal x)))) by done.
    by destruct (write_at b 0 (le_encode 4 (u32 o))). }
  unfold recordInstanceMetadata. cbn [bal vbal Status Seq Deps set]. exact (eq_trans (H _ b1) (eq_sym (H _ b2))).
Qed.
End Local.

(** ** Runs *)
Section Runs.
#[local] Existing Instance demo_machine.
#[local] Existing Instance demo_laws.

Definition all : Z → bool := λ _, true.
Definition but (l : list Z) : Z → bool := λ i, bool_decide (i ∉ l).
(** Replica [id] of [n] at time [t], with the peers [up] alive. *)
Definition env_at (n id t : Z) (up : Z → bool) : env :=
  mkEnv (λ _, t) up ((λ k, (id + k) `mod` n) <$> rangeZ 1 n) [] [] true.
Definition write (k v : Z) : Defs.Propose := mkPropose 1 7 (mkCommand PUT k [v]) 0.
Definition maintenance (t : Z) : Tick := mkTick Maintenance t [].
Definition grace : Z := 4 * Second.

(** Three replicas.  Replica 1 commits 1.0 on the fast path with replica 2;
    replica 0 commits 0.0, which depends on 1.0, with replica 1, and has not
    heard of 1.0 otherwise.  It takes 1 for dead, starts the recovery of 1.0 and
    sends the prepare, which replica 2 answers. *)
Definition before_reply : list step := [
  SPropose 1 (write 1 20) [] (env_at 3 1 0 all);
  SDeliver 1 2 3 all (env_at 3 2 0 all);
  SDeliver 2 1 3 all (env_at 3 1 0 all);
  SPropose 0 (write 1 10) [] (env_at 3 0 0 all);
  SDeliver 0 1 3 all (env_at 3 1 0 all);
  SDeliver 1 0 11 all (env_at 3 0 0 all);
  STick 0 (maintenance 0) (env_at 3 0 0 (but [1]));
  STick 0 (maintenance grace) (env_at 3 0 grace (but [1]));
  SRecover 0 (env_at 3 0 grace (but [1]));
  SDeliver 0 2 8 (but [1]) (env_at 3 2 0 all)].

(** The reply reaches 0 with ballot 0 for 1.0, so 0 pre-accepts 1.0 again with
    its own dependencies, and commits that with 2. *)
Definition diverging_run : list step := before_reply ++ [
  SDeliver 2 0 4 all (env_at 3 0 grace (but [1]));
  SDeliver 0 2 12 (but [1]) (env_at 3 2 0 all);
  SDeliver 2 0 8 all (env_at 3 0 grace (but [1]));
  SDeliver 0 2 15 (but [1]) (env_at 3 2 0 all);
  SDeliver 2 0 11 all (env_at 3 0 grace (but [1]));
  STick 0 (maintenance grace) (env_at 3 0 grace all);
  SDeliver 0 1 7 all (env_at 3 1 grace all);
  STick 1 (maintenance grace) (env_at 3 1 grace all)].

(** The commit of 1.0 reaches 0 first, and is executed. *)
Definition executed_run : list step := before_reply ++ [
  SDeliver 1 0 7 all (env_at 3 0 grace all);
  STick 0 (maintenance grace) (env_at 3 0 grace all)].
Definition reopening : step := SDeliver 2 0 4 all (env_at 3 0 grace all).

(** Five replicas.  0.0 is pre-accepted at 2 only; 1 recovers it with ballot 6
    from 2 and 3 and tries to pre-accept it; 2 starts a recovery with ballot 12,
    which 1 promises. *)
Definition promised_run : list step := [
  SPropose 0 (write 1 10) [] (env_at 5 0 0 all);
  SDeliver 0 2 3 (but [1]) (env_at 5 2 0 all);
  STick 2 (maintenance 0) (env_at 5 2 0 (but [0]));
  STick 2 (maintenance grace) (env_at 5 2 grace (but [0]));
  SDeliver 2 1 4 all (env_at 5 1 grace (but [0]));
  SRecover 1 (env_at 5 1 grace (but [0]));
  SDeliver 1 2 0 all (env_at 5 2 grace (but [0]));
  SDeliver 1 3 0 all (env_at 5 3 grace (but [0]));
  SDeliver 2 1 5 all (env_at 5 1 grace (but [0]));
  SDeliver 3 1 0 all (env_at 5 1 grace (but [0]));
  SDeliver 1 3 1 all (env_at 5 3 grace (but [0]));
  SDeliver 1 4 1 all (env_at 5 4 grace (but [0]));
  STick 2 (maintenance (2 * grace)) (env_at 5 2 (2 * grace) (but [0; 1]));
  SRecover 2 (env_at 5 2 (2 * grace) (but [0; 1]));
  SDeliver 2 1 6 all (env_at 5 1 (2 * grace) (but [0]))].
(** The answers to the attempt at ballot 6. *)
Definition late_answers : list step := [
  SDeliver 3 1 1 all (env_at 5 1 (2 * grace) (but [0]));
  SDeliver 4 1 0 all (env_at 5 1 (2 * grace) (but [0]))].

Definition cluster_after (n f : Z) (ss : list step) : list core := result_or [] (run ss (start n f 0 false false)).
Definition replica (n f : Z) (ss : list step) (a : Z) : core := default (newCore n f a 0 false false) (index (cluster_after n f ss) a).
Definition instance_at (n f : Z) (ss : list step) (a : Z) (v : instanceID) : option (Z * Z * Z * list Z) :=
  (λ x, (Status x, bal x, Seq x, Deps x)) <$> instanceSpace (replica n f ss a) !! v.

(** What the replicas of the diverging run hold for 0.0 and 1.0, in which order
    they executed them, and the value of key 1. *)
Definition outcome_at (ss : list step) (a : Z) :=
  let c := replica 3 1 ss a in
  (instance_at 3 1 ss a (0, 0), instance_at 3 1 ss a (1, 0), List.concat (components c), @tm_get gmap_TreeMap 1 (sm c)).

(** Replicas 0 and 1 pre-accept each other's write of one key, so that 0.0 and 1.0
    depend on each other; both commit on the fast path, and 0 hears of 1.0. *)
Definition crossing_run : list step := [
  SPropose 0 (write 1 10) [] (env_at 3 0 0 all);
  SPropose 1 (write 1 20) [] (env_at 3 1 0 all);
  SDeliver 0 1 3 all (env_at 3 1 0 all);
  SDeliver 1 0 3 (but [2]) (env_at 3 0 0 all);
  SDeliver 1 0 7 all (env_at 3 0 0 all);
  SDeliver 0 1 7 all (env_at 3 1 0 all);
  SDeliver 1 0 11 all (env_at 3 0 0 all)].
Definition crossing_tick : step := STick 0 (maintenance 0) (env_at 3 0 0 all).

Lemma replica_at n f ss a :
  match index (cluster_after n f ss) a with Some _ => true | None => false end = true →
  index (cluster_after n f ss) a = Some (replica n f ss a).
Proof. unfold replica. by destruct (index (cluster_after n f ss) a). Qed.

Lemma last_step n f ss s :
  is_done (run ss (start n f 0 false false)) = true → is_done (run (ss ++ [s]) (start n f 0 false false)) = true →
  run ss (start n f 0 false false) = Done (cluster_after n f ss) ∧
  exec s (cluster_after n f ss) = Done (cluster_after n f (ss ++ [s])).
Proof.
  unfold cluster_after. intros H1%(result_or_done []) H2%(result_or_done []). split; [exact H1|].
  set (cs' := result_or _ (run (ss ++ _) _)) in *. clearbody cs'. unfold run in *. rewrite forEach_app in H2.
  destruct (forEach exec ss _) as [cs| |]; [|done..]. cbn in *. by destruct (exec s cs).
Qed.

(** The tick executes the cycle as one component. *)
Lemma execution_order_witness :
  let c := replica 3 1 (crossing_run ++ [crossing_tick]) 0 in
  components (replica 3 1 crossing_run 0) = [] ∧ components c = [[(0, 0); (1, 0)]] ∧ component_ok c [] [(0, 0); (1, 0)].
Proof.
  cbv zeta. set (c := replica _ _ (_ ++ _) _).
  assert (components (replica 3 1 crossing_run 0) = []) as H0 by (vm_compute; reflexivity).
  assert (components c = [[(0, 0); (1, 0)]]) as H1 by (vm_compute; reflexivity).
  assert (is_done (run crossing_run (start 3 1 0 false false)) = true) as H2 by (vm_compute; reflexivity).
  assert (is_done (run (crossing_run ++ [crossing_tick]) (start 3 1 0 false false)) = true) as H3 by (vm_compute; reflexivity).
  assert (index (cluster_after 3 1 crossing_run) 0 = Some (replica 3 1 crossing_run 0)) as H4
    by (apply replica_at; vm_compute; reflexivity).
  assert (index (cluster_after 3 1 (crossing_run ++ [crossing_tick])) 0 = Some c) as H5
    by (apply replica_at; vm_compute; reflexivity).
  destruct (last_step 3 1 crossing_run crossing_tick H2 H3) as [Hrun Hexec].
  split; [exact H0|]. split; [exact H1|].
  destruct (execution_order 3 1 0 false false _ _ _ _ _ _ _ Hrun Hexec H4 H5) as [(new & Hn & _ & _ & _ & Ho) _].
  rewrite H0, H1 in Hn. rewrite H0 in Ho. exact (Ho [] [(0, 0); (1, 0)] [] (eq_sym Hn)).
Defined.

(** The reply to the recovering replica is handled, whatever came before. *)
Lemma cluster_steps_return_witness :
  run before_reply (start 3 1 0 false false) = Done (cluster_after 3 1 before_reply) ∧
  ∃ cs', exec (SDeliver 2 0 4 all (env_at 3 0 grace (but [1]))) (cluster_after 3 1 before_reply) = Done cs'.
Proof.
  assert (run before_reply (start 3 1 0 false false) = Done (cluster_after 3 1 before_reply)) as Hrun.
  { apply result_or_done. vm_compute. reflexivity. }
  split; [exact Hrun|]. apply (cluster_steps_return 3 1 0 false false before_reply).
  - lia.
  - repeat constructor; intros; discriminate || exact I.
  - vm_compute. reflexivity.
  - exact Hrun.
  - reflexivity.
Defined.

(** C10.  Recovery can break agreement.  There is a run of three replicas, with
    admitted commands and no crash, in which replicas 0 and 1 both execute 1.0
    with the same command but different dependencies and sequence number, apply
    two writes of one key in opposite orders, and end with different stores:
    the reply to a prepare does not carry the ballot of its value over the wire,
    so that the recovering replica does not recognise a value its owner may have
    committed on the fast path. *)
Theorem recovery_diverges :
  Forall step_ok diverging_run ∧
  run diverging_run (start 3 1 0 false false) = Done (cluster_after 3 1 diverging_run) ∧
  outcome_at diverging_run 0 =
    (Some (EXECUTED, 0, 1, [-1; 0; -1]), Some (EXECUTED, 3, 2, [0; -1; -1]), [(0, 0); (1, 0)], Some [20]) ∧
  outcome_at diverging_run 1 =
    (Some (EXECUTED, 0, 1, [-1; 0; -1]), Some (EXECUTED, 1, 0, [-1; -1; -1]), [(1, 0); (0, 0)], Some [10]).
Proof.
  split_and!.
  - repeat constructor; intros; discriminate || exact I.
  - apply result_or_done. vm_compute. reflexivity.
  - vm_compute. reflexivity.
  - vm_compute. reflexivity.
Qed.

(** An executed instance is pre-accepted again by a recovery that was under way
    when its commit arrived. *)
Lemma executed_reopened :
  is_done (run (executed_run ++ [reopening]) (start 3 1 0 false false)) = true ∧
  instance_at 3 1 executed_run 0 (1, 0) = Some (EXECUTED, 3, 0, [-1; -1; -1]) ∧
  instance_at 3 1 (executed_run ++ [reopening]) 0 (1, 0) = Some (PREACCEPTED, 3, 2, [0; -1; -1]) ∧
  executedUpTo (replica 3 1 (executed_run ++ [reopening]) 0) = [0; 0; -1].
Proof. split_and!; vm_compute; reflexivity. Qed.

(** Replica 1 has promised ballot 12 and then accepts at ballot 6. *)
Lemma promise_lowered :
  is_done (run (promised_run ++ late_answers) (start 5 2 0 false false)) = true ∧
  instance_at 5 2 promised_run 1 (0, 0) = Some (PREACCEPTED, 12, 0, [-1; -1; -1; -1; -1]) ∧
  instance_at 5 2 (promised_run ++ late_answers) 1 (0, 0) = Some (ACCEPTED, 6, 0, [-1; -1; -1; -1; -1]).
Proof. split_and!; vm_compute; reflexivity. Qed.

(** A batch misses a conflict: the search of a row ends at the first command
    that raises the dependency.  Row 1 has written key 1 at 1.0 and key 2 at 1.1;
    a batch writing both keys depends on 1.0 only. *)
Definition indexed : core :=
  result_or (newCore 2 1 0 1 false false)
    (let inst := mkInstance None 1 1 PREACCEPTED 0 [-1; -1] None 0 0 false 0 in
     c ← updateConflicts (Some [mkCommand PUT 1 []]) 1 0 0 (put (1, 0) inst (put (1, 1) inst (newCore 2 1 0 1 false false)));
     updateConflicts (Some [mkCommand PUT 2 []]) 1 1 0 c).

Lemma batch_misses_conflict :
  updateAttributes (Some [mkCommand PUT 1 []; mkCommand PUT 2 []]) 0 [-1; -1] 0 0 indexed = Done (1, [-1; 0], true).
Proof. vm_compute. reflexivity. Qed.
End Runs.
End EpaxosScenarios.
