(* ===== verification/Pql.v ===== *)
(** * Pql: messages and lease policies of PQL ([pql/defs.go], [policy.go], [wire.go])

    PQL is Paxos with quorum leases: a replica that holds leases from a majority
    serves reads of the keys it is configured for without the leader.  This file
    has the packets with their validation, and the lease policies: which
    replicas hold the lease of a key, and to whom a write is sent. *)
From stdpp Require Import gmap strings list fin_maps sorting.
From Stdlib Require Import Lia.
From S2P Require Import Prelude State ReplicaSet Defs.

Module Pql.

(** ** Constants ([defs.go], [lease.go], [configuration.go]) *)
Definition PageSize : Z := 128.
Definition AdmissionWindow : Z := 8192.

Definition packetPrepare : Z := 0.
Definition packetPromise : Z := 1.
Definition packetAccept : Z := 2.
Definition packetAck : Z := 3.
Definition packetCommit : Z := 4.
Definition packetReady : Z := 5.
Definition packetFetch : Z := 6.
Definition packetForward : Z := 7.
Definition packetForwardReply : Z := 8.
Definition packetGuard : Z := 9.
Definition packetGuardAck : Z := 10.
Definition packetLeasePromise : Z := 11.
Definition packetLeaseReply : Z := 12.
Definition packetSuspect : Z := 13.

Definition genesisLeaseEpoch : Z := 1.
Definition guardDuration : Z := 2 * Second.
Definition leaseDuration : Z := 2 * Second.
Definition leaseRenewInterval : Z := 500 * Millisecond.
Definition failureGrace : Z := 5 * Second.
Definition configurationInterval : Z := 10 * Second.
Definition configurationBatch : Z := 5000.

(** ** Messages ([messages.pb.go]) *)
Record HolderUpdate := mkHolderUpdate { Key : Z; Holders : Z }.
Record LeaseChange := mkLeaseChange { Leader : Z; CExcluded : Z; Updates : list HolderUpdate }.
Record Request := mkRequest {
  ID : RequestID; Cmd : Command; Origin : Z; RTimestamp : Z; Change : option LeaseChange }.
Record Record_ := mkRecord {
  Slot : Z; RBallot : Z; Req : Request; Committed : bool; NotifyMask : Z; RLeaseEpoch : Z }.
Record Packet := mkPacket {
  Kind : Z; From : Z; Ballot : Z; Floor : Z; High : Z; Page : Z; Pages : Z;
  Records : list Record_; Requests : list Request;
  LeaseEpoch : Z; Timestamp : Z; Duration : Z; Frontier : Z; Result : Value;
  Control : bool; AckSequence : Z; Elapsed : Z; Excluded : Z }.

#[export] Instance HolderUpdate_eq_dec : EqDecision HolderUpdate.
Proof. solve_decision. Defined.
#[export] Instance LeaseChange_eq_dec : EqDecision LeaseChange.
Proof. solve_decision. Defined.
#[export] Instance Request_eq_dec : EqDecision Request.
Proof. solve_decision. Defined.
#[export] Instance Record_eq_dec : EqDecision Record_.
Proof. solve_decision. Defined.
#[export] Instance Packet_eq_dec : EqDecision Packet.
Proof. solve_decision. Defined.

#[export] Instance eta_Record : Eta Record_ :=
  λ r, mkRecord (Slot r) (RBallot r) (Req r) (Committed r) (NotifyMask r) (RLeaseEpoch r).
#[export] Instance set_RBallot : Setter RBallot := ltac:(mk_setter).
#[export] Instance set_Committed : Setter Committed := ltac:(mk_setter).
#[export] Instance set_NotifyMask : Setter NotifyMask := ltac:(mk_setter).
#[export] Instance set_RLeaseEpoch : Setter RLeaseEpoch := ltac:(mk_setter).

#[export] Instance eta_Packet : Eta Packet := λ p,
  mkPacket (Kind p) (From p) (Ballot p) (Floor p) (High p) (Page p) (Pages p) (Records p) (Requests p)
    (LeaseEpoch p) (Timestamp p) (Duration p) (Frontier p) (Result p) (Control p) (AckSequence p) (Elapsed p) (Excluded p).
#[export] Instance set_Floor : Setter Floor := ltac:(mk_setter).
#[export] Instance set_High : Setter High := ltac:(mk_setter).
#[export] Instance set_Page : Setter Page := ltac:(mk_setter).
#[export] Instance set_Pages : Setter Pages := ltac:(mk_setter).
#[export] Instance set_Records : Setter Records := ltac:(mk_setter).
#[export] Instance set_Requests : Setter Requests := ltac:(mk_setter).
#[export] Instance set_LeaseEpoch : Setter LeaseEpoch := ltac:(mk_setter).
#[export] Instance set_Timestamp : Setter Timestamp := ltac:(mk_setter).
#[export] Instance set_Duration : Setter Duration := ltac:(mk_setter).
#[export] Instance set_Frontier : Setter Frontier := ltac:(mk_setter).
#[export] Instance set_Result : Setter Result := ltac:(mk_setter).
#[export] Instance set_Control : Setter Control := ltac:(mk_setter).
#[export] Instance set_AckSequence : Setter AckSequence := ltac:(mk_setter).
#[export] Instance set_Elapsed : Setter Elapsed := ltac:(mk_setter).

(** A packet literal: the fields not given are zero. *)
Definition packet (kind from ballot : Z) : Packet :=
  mkPacket kind from ballot 0 0 0 0 [] [] 0 0 0 0 [] false 0 0 0.

Definition zeroCommand : Command := mkCommand 0 0 [].
Definition zeroRequest : Request := mkRequest (mkRequestID 0 0) zeroCommand 0 0 None.

(** [recoveryNoop] *)
Definition recoveryNoop (r : Request) : bool :=
  (Origin r =? -1) && (Op (Cmd r) =? NONE) && bool_decide (Change r = None).

(** The no-op of a slot. *)
Definition noop_request (slot : Z) : Request :=
  mkRequest (mkRequestID (-1) (i32 slot)) (mkCommand NONE 0 []) (-1) 0 None.

(** [validatePacket]: [true] if the packet is taken. *)
Definition valid_record (p : Packet) (r : Record_) : bool :=
  (0 <=? Slot r) &&
  match Change (Req r) with
  | Some ch => Control p && (0 <=? Leader ch) && (Leader ch <? 63) && (Z.of_nat (length (Updates ch)) <=? configurationBatch)
  | None => true
  end.

Definition validatePacket (p : Packet) : bool :=
  let count {A} (l : list A) := Z.of_nat (length l) in
  (Kind p <=? packetSuspect) && (0 <=? From p) && (From p <? 63) && forallb (valid_record p) (Records p) &&
  (if (Kind p =? packetAccept) || (Kind p =? packetAck) || (Kind p =? packetCommit)
   then (0 <? count (Records p)) && (count (Records p) <=? PageSize)
   else if Kind p =? packetForward then (0 <? count (Requests p)) && (count (Requests p) <=? PageSize)
   else if Kind p =? packetForwardReply then count (Requests p) =? 1
   else if (Kind p =? packetGuard) || (Kind p =? packetLeasePromise)
   then (0 <? Duration p) && (Duration p <=? 30 * Second) else true).

(** ** Lease policies ([policy.go]); masks are 64-bit words *)
Inductive leasePolicy := mkPolicy {
  pn : Z; pleader : Z;
  holders : gmap Z Z;
  defaultMask : Z;
  excluded : Z;
  parent : option leasePolicy }.

(** [uint64(1) << uint(id)] *)
Definition bit (id : Z) : Z := u64 (Z.shiftl 1 id).
Definition has (mask id : Z) : bool := negb (Z.land mask (bit id) =? 0).

(** [bitCount]: one round per bit set. *)
Fixpoint bitCount_loop (fuel : nat) (mask n : Z) : Z :=
  match fuel with
  | O => n
  | S fuel => if mask =? 0 then n else bitCount_loop fuel (Z.land mask (u64 (mask - 1))) (n + 1)
  end.
Definition bitCount (mask : Z) : Z := bitCount_loop 65 mask 0.

(** [for version := p; version != nil; version = version.parent] *)
Fixpoint holder_version (version : leasePolicy) (key : Z) : option Z :=
  match holders version !! key with
  | Some mask => Some mask
  | None => match parent version with Some older => holder_version older key | None => None end
  end.

Definition holderMask (p : leasePolicy) (key : Z) : Z :=
  match holder_version p key with
  | Some mask => Z.ldiff mask (excluded p)
  | None => Z.ldiff (bit (pleader p)) (excluded p)
  end.

(** [for id := 0; id < p.n && bitCount(mask) < p.n/2+1; id++] *)
Fixpoint fill_mask (quorum : Z) (want : Z → bool) (ids : list Z) (mask : Z) : Z :=
  match ids with
  | [] => mask
  | id :: ids =>
      if quorum <=? bitCount mask then mask
      else fill_mask quorum want ids (if want id then Z.lor mask (bit id) else mask)
  end.

Definition writeMask (p : leasePolicy) (cmd : Command) : Z :=
  let quorum := Z.quot (pn p) 2 + 1 in
  let ids := rangeZ 0 (pn p - 1) in
  let mask := bit (pleader p) in
  let mask := if Op cmd =? PUT then Z.lor mask (holderMask p (K cmd)) else mask in
  let mask := fill_mask quorum (has (Z.ldiff (defaultMask p) (excluded p))) ids mask in
  fill_mask quorum (λ id, negb (has (excluded p) id)) ids mask.

Definition holds (p : leasePolicy) (id key : Z) : bool :=
  (0 <=? id) && (id <? pn p) && has (holderMask p key) id.
End Pql.
