(* ===== verification/PqlLease.v ===== *)
(** * PqlLease: the leases of PQL ([pql/lease.go])

    A replica is a grantor to every peer and a holder of every peer's promises.
    [tick], [receive] and [switchEpoch] take a reading of the local clock and
    return the state and the packets to send, which all go to other replicas.
    Counters and sequence numbers wrap as in Go. *)
From stdpp Require Import gmap strings list fin_maps sorting.
From Stdlib Require Import Lia.
From S2P Require Import Prelude State Defs Pql.

Module PqlLease.
Import Pql.

(** ** Times ([time.Time]; [None] is the zero time) *)
Definition before (now : Z) (t : Time) : bool := match t with Some t => now <? t | None => false end.
Definition minDuration : Z := - 2 ^ 63.
(** [a.Sub(b)], saturating at the zero times. *)
Definition SubT (a b : Time) : Z :=
  match a, b with
  | Some a, _ => Sub a b
  | None, Some _ => minDuration
  | None, None => 0
  end.

Record leaseState := mkLease {
  ln : Z; lid : Z;
  promisedBy : Z; promisedTo : Z;
  renewAt : Time;
  latestPromises : list Time; latestReplies : list Time;
  guardExpires : list Time; lastGuard : list Time; lastResponse : list Time;
  lastSent : list Time; lastAckTime : list Time;
  guardSequence : list Z; sentSequence : list Z; receivedSequence : list Z; ackSequence : list Z;
  receivedGuardSequence : list Z;
  ackTimes : list (gmap Z Z);
  frontiers : list Z;
  readUntil : Time; writeUntil : Time;
  catchup : Z;
  activationComplete : bool;
  started : bool;
  establishments : Z; renewals : Z; promisesAccepted : Z; promisesRejected : Z }.

#[export] Instance eta_lease : Eta leaseState := λ l,
  mkLease (ln l) (lid l) (promisedBy l) (promisedTo l) (renewAt l) (latestPromises l) (latestReplies l)
    (guardExpires l) (lastGuard l) (lastResponse l) (lastSent l) (lastAckTime l) (guardSequence l) (sentSequence l)
    (receivedSequence l) (ackSequence l) (receivedGuardSequence l) (ackTimes l) (frontiers l) (readUntil l)
    (writeUntil l) (catchup l) (activationComplete l) (started l) (establishments l) (renewals l)
    (promisesAccepted l) (promisesRejected l).
#[export] Instance set_promisedBy : Setter promisedBy := ltac:(mk_setter).
#[export] Instance set_promisedTo : Setter promisedTo := ltac:(mk_setter).
#[export] Instance set_renewAt : Setter renewAt := ltac:(mk_setter).
#[export] Instance set_latestPromises : Setter latestPromises := ltac:(mk_setter).
#[export] Instance set_latestReplies : Setter latestReplies := ltac:(mk_setter).
#[export] Instance set_guardExpires : Setter guardExpires := ltac:(mk_setter).
#[export] Instance set_lastGuard : Setter lastGuard := ltac:(mk_setter).
#[export] Instance set_lastResponse : Setter lastResponse := ltac:(mk_setter).
#[export] Instance set_lastSent : Setter lastSent := ltac:(mk_setter).
#[export] Instance set_lastAckTime : Setter lastAckTime := ltac:(mk_setter).
#[export] Instance set_guardSequence : Setter guardSequence := ltac:(mk_setter).
#[export] Instance set_sentSequence : Setter sentSequence := ltac:(mk_setter).
#[export] Instance set_receivedSequence : Setter receivedSequence := ltac:(mk_setter).
#[export] Instance set_ackSequence : Setter ackSequence := ltac:(mk_setter).
#[export] Instance set_receivedGuardSequence : Setter receivedGuardSequence := ltac:(mk_setter).
#[export] Instance set_ackTimes : Setter ackTimes := ltac:(mk_setter).
#[export] Instance set_frontiers : Setter frontiers := ltac:(mk_setter).
#[export] Instance set_readUntil : Setter readUntil := ltac:(mk_setter).
#[export] Instance set_writeUntil : Setter writeUntil := ltac:(mk_setter).
#[export] Instance set_catchup : Setter catchup := ltac:(mk_setter).
#[export] Instance set_activationComplete : Setter activationComplete := ltac:(mk_setter).
#[export] Instance set_started : Setter started := ltac:(mk_setter).
#[export] Instance set_establishments : Setter establishments := ltac:(mk_setter).
#[export] Instance set_renewals : Setter renewals := ltac:(mk_setter).
#[export] Instance set_promisesAccepted : Setter promisesAccepted := ltac:(mk_setter).
#[export] Instance set_promisesRejected : Setter promisesRejected := ltac:(mk_setter).

Definition newLeaseState (n id : Z) : leaseState :=
  let row {A} (a : A) := replicate (Z.to_nat n) a in
  mkLease n id genesisLeaseEpoch (-1) None (row None) (row None) (row None) (row None) (row None) (row None) (row None)
    (row 0) (row 0) (row 0) (row 0) (row 0) (row ∅) (row (-1)) None None (-1) false false 0 0 0 0.

(** The lists have one entry per replica and [peer] is a replica's index: a
    reading is of a valid index. *)
Definition time_at (l : list Time) (peer : Z) : Time := default None (index l peer).
Definition seq_at (l : list Z) (peer : Z) : Z := default 0 (index l peer).
Definition put {A} (peer : Z) (x : A) : list A → list A := <[Z.to_nat peer := x]>.

Definition switchEpoch (epoch now : Z) (l : leaseState) : leaseState :=
  l <| promisedBy := epoch |> <| started := false |> <| renewAt := Some now |>
    <| latestReplies ::= fmap (λ _, None) |> <| lastGuard ::= fmap (λ _, None) |> <| ackSequence ::= fmap (λ _, 0) |>
    <| writeUntil := Some now |>.

(** The largest of [now] and the deadlines of the other replicas. *)
Definition recomputeWriteUntil (now : Z) (l : leaseState) : leaseState :=
  l <| writeUntil := Some (foldl (λ m peer,
         match time_at (latestReplies l) peer with
         | Some expiry => if negb (peer =? lid l) && (m <? expiry) then expiry else m
         | None => m
         end) now (rangeZ 0 (ln l - 1))) |>.

(** [sort.Slice]: the later expiry first, then the smaller identity. *)
Definition later (l : leaseState) (a b : Z) : bool :=
  match time_at (latestPromises l) a, time_at (latestPromises l) b with
  | Some x, Some y => if x =? y then a <? b else y <? x
  | None, None => a <? b
  | Some _, None => true
  | None, Some _ => false
  end.
Definition later_le (l : leaseState) (a b : Z) : Prop := later l b a = false.
#[export] Instance later_le_dec l : RelDecision (later_le l).
Proof. intros a b. unfold later_le. apply _. Defined.

Definition live_promises (now : Z) (l : leaseState) : list Z :=
  filter (λ peer, peer ≠ lid l ∧ before now (time_at (latestPromises l) peer) = true) (rangeZ 0 (ln l - 1)).

Definition recomputeReadUntil (now : Z) (l : leaseState) : leaseState :=
  let ids := live_promises now l in
  let half := Z.quot (ln l) 2 in
  if Z.of_nat (length ids) <? half then l <| readUntil := None |> else
  let ids := merge_sort (later_le l) ids in
  let l := l <| readUntil := time_at (latestPromises l) (default 0 (index ids (half - 1))) |> in
  if activationComplete l then l else
  l <| catchup := foldl (λ m peer, Z.max m (default (-1) (index (frontiers l) peer))) (-1) (take (Z.to_nat half) ids) |>
    <| activationComplete := true |>.

(** A promise to [peer] and the deadline it binds this replica to. *)
Definition sendPromise (now peer frontier : Z) (guarded : bool) (l : leaseState) : leaseState * list (Z * Packet) :=
  let l := l <| lastSent ::= put peer (Some now) |> <| sentSequence ::= (λ s, put peer (i64 (seq_at s peer + 1)) s) |> in
  let p := packet packetLeasePromise (lid l) 0 <| LeaseEpoch := promisedBy l |> <| Timestamp := seq_at (sentSequence l) peer |>
             <| Duration := leaseDuration |> <| Frontier := frontier |> in
  let p := if guarded then p <| AckSequence := i64 (- seq_at (guardSequence l) peer) |>
           else p <| AckSequence := seq_at (ackSequence l) peer |> <| Elapsed := Sub now (time_at (lastAckTime l) peer) |> in
  let l := l <| latestReplies ::= put peer (Some (now + guardDuration + leaseDuration)) |> in
  (recomputeWriteUntil now l, [(peer, p)]).

Definition sendGuard (now peer : Z) (l : leaseState) : leaseState * list (Z * Packet) :=
  let l := l <| guardSequence ::= (λ s, put peer (i64 (seq_at s peer + 1)) s) |> <| lastGuard ::= put peer (Some now) |>
             <| lastSent ::= put peer (Some now) |> in
  (l <| establishments ::= (λ x, u64 (x + 1)) |>,
   [(peer, packet packetGuard (lid l) 0 <| LeaseEpoch := promisedBy l |> <| Timestamp := seq_at (guardSequence l) peer |>
             <| Duration := guardDuration |>)]).

(** One peer of [tick]: renew what it has acknowledged and is still bound, or
    start over with a guard. *)
Definition tick_peer (now : Z) (alive : list bool) (frontier : Z) (st : leaseState * list (Z * Packet)) (peer : Z)
    : leaseState * list (Z * Packet) :=
  let '(l, out) := st in
  if (peer =? lid l) || negb (default false (index alive peer)) then st else
  if (0 <? seq_at (ackSequence l) peer) && before now (time_at (latestReplies l) peer) then
    let '(l, o) := sendPromise now peer frontier false l in
    (l <| renewals ::= (λ x, u64 (x + 1)) |>, out ++ o)
  else let '(l, o) := sendGuard now peer l in (l, out ++ o).

(** [alive] has an entry per replica. *)
Definition tick (now : Z) (alive : list bool) (frontier : Z) (l : leaseState) : leaseState * list (Z * Packet) :=
  if started l && before now (renewAt l) then (l, []) else
  let '(l, out) := foldl (tick_peer now alive frontier) (l, []) (rangeZ 0 (ln l - 1)) in
  (recomputeWriteUntil now (l <| started := true |> <| renewAt := Some (now + leaseRenewInterval) |>), out).

(** ** [receive], one case at a time *)
Definition reply_to (l : leaseState) (to ts : Z) : Z * Packet :=
  (to, packet packetLeaseReply (lid l) 0 <| LeaseEpoch := promisedTo l |> <| Timestamp := ts |>).

Definition receive_guard (p : Packet) (now : Z) (l : leaseState) : leaseState * list (Z * Packet) :=
  let peer := From p in
  if (Duration p <=? 0) || (30 * Second <? Duration p) then (l, []) else
  if Timestamp p <=? seq_at (receivedGuardSequence l) peer then (l, []) else
  let l := l <| receivedGuardSequence ::= put peer (Timestamp p) |> <| guardExpires ::= put peer (Some (now + Duration p)) |> in
  (l, [(peer, packet packetGuardAck (lid l) 0 <| LeaseEpoch := LeaseEpoch p |> <| Timestamp := Timestamp p |>)]).

Definition receive_guardAck (p : Packet) (now frontier : Z) (l : leaseState) : leaseState * list (Z * Packet) :=
  let peer := From p in
  if negb (LeaseEpoch p =? promisedBy l) || negb (Timestamp p =? seq_at (guardSequence l) peer)
     || bool_decide (time_at (lastGuard l) peer = None) then (l, []) else
  sendPromise now peer frontier true (l <| lastGuard ::= put peer None |> <| lastResponse ::= put peer (Some now) |>).

(** A promise is admitted while the guard it answers runs, or if it followed an
    acknowledgement soon enough, on the holder's clock. *)
Definition admissible (p : Packet) (now : Z) (l : leaseState) : bool :=
  let peer := From p in
  if 0 <? AckSequence p then
    match default ∅ (index (ackTimes l) peer) !! AckSequence p with
    | Some ack => (0 <=? Elapsed p) && (now - ack <? i64 (Elapsed p + guardDuration))
    | None => false
    end
  else (AckSequence p <? 0) && (AckSequence p =? i64 (- seq_at (receivedGuardSequence l) peer)) &&
       before now (time_at (guardExpires l) peer).

(** A promise of a new epoch voids those of the old one. *)
Definition enter_epoch (epoch : Z) (l : leaseState) : leaseState :=
  l <| promisedTo := epoch |> <| activationComplete := false |> <| catchup := -1 |>
    <| latestPromises ::= fmap (λ _, None) |> <| frontiers ::= fmap (λ _, -1) |>.

Definition remember_ack (peer ts now : Z) (acks : list (gmap Z Z)) : list (gmap Z Z) :=
  let m := <[ts := now]> (default ∅ (index acks peer)) in
  put peer (filter (λ kv : Z * Z, ¬ failureGrace + guardDuration + leaseDuration < now - kv.2) m) acks.

Definition receive_promise (p : Packet) (now : Z) (l : leaseState) : leaseState * list (Z * Packet) :=
  let peer := From p in
  if Timestamp p <=? seq_at (receivedSequence l) peer then (l, []) else
  if negb (admissible p now l) || (Duration p <=? 0) || (30 * Second <? Duration p)
  then (l <| promisesRejected ::= (λ x, u64 (x + 1)) |>, []) else
  if LeaseEpoch p <? promisedTo l
  then (l <| promisesRejected ::= (λ x, u64 (x + 1)) |>, [reply_to l peer (Timestamp p)]) else
  let l := if promisedTo l <? LeaseEpoch p then enter_epoch (LeaseEpoch p) l else l in
  let l := l <| receivedSequence ::= put peer (Timestamp p) |> <| latestPromises ::= put peer (Some (now + Duration p)) |>
             <| frontiers ::= put peer (Frontier p) |> <| ackTimes ::= remember_ack peer (Timestamp p) now |> in
  let l := recomputeReadUntil now l in
  (l <| promisesAccepted ::= (λ x, u64 (x + 1)) |>, [reply_to l peer (Timestamp p)]).

(** An acknowledgement can shorten an outstanding grant, not extend it. *)
Definition receive_reply (p : Packet) (now : Z) (l : leaseState) : leaseState * list (Z * Packet) :=
  let peer := From p in
  if negb (LeaseEpoch p =? promisedBy l) || negb (Timestamp p =? seq_at (sentSequence l) peer)
     || negb (before now (time_at (latestReplies l) peer)) then (l, []) else
  let l := l <| ackSequence ::= put peer (Timestamp p) |> <| lastResponse ::= put peer (Some now) |>
             <| lastAckTime ::= put peer (Some now) |> in
  let expiry := now + leaseDuration in
  let l := if before expiry (time_at (latestReplies l) peer) then l <| latestReplies ::= put peer (Some expiry) |> else l in
  (recomputeWriteUntil now l, []).

(** Whether the packet was one of the lease protocol's. *)
Definition receive (p : Packet) (now frontier : Z) (l : leaseState) : bool * leaseState * list (Z * Packet) :=
  let peer := From p in
  let taken (r : leaseState * list (Z * Packet)) := (true, r.1, r.2) in
  if (peer <? 0) || (ln l <=? peer) || (peer =? lid l) then (false, l, []) else
  if Kind p =? packetGuard then taken (receive_guard p now l)
  else if Kind p =? packetGuardAck then taken (receive_guardAck p now frontier l)
  else if Kind p =? packetLeasePromise then taken (receive_promise p now l)
  else if Kind p =? packetLeaseReply then taken (receive_reply p now l)
  else (false, l, []).

Definition canRead (now executed : Z) (l : leaseState) : bool :=
  (0 <=? promisedTo l) && before now (readUntil l) && (catchup l <=? executed).

(** [!now.Before(l.writeUntil)] *)
Definition canWriteOutside (now : Z) (l : leaseState) : bool := negb (before now (writeUntil l)).
End PqlLease.
