(* ===== verification/PqlLeasePair.v ===== *)
(** * PqlLeasePair: one grantor and one holder of PQL's leases

    What a grantor keeps about a holder ([gview]), what the holder keeps about
    the grantor ([hview]), and the packets between them.  The clocks of the two
    run at one rate, [sg] and [sh] ahead of real time [T].  [pair_ok] is the
    invariant: every promise that can still be admitted, and every promise that
    has been, ends before the grantor's obligation does.  The lemmas are the
    actions of the two sides. *)
From stdpp Require Import gmap strings list fin_maps.
From Stdlib Require Import Lia.
From S2P Require Import Prelude State Defs Pql PqlLease.

Module PqlLeasePair.
Import Pql PqlLease.

Record gview := mkG {
  v_guard : Z; v_sent : Z; v_ack : Z; v_bound : Time; v_ackTime : Time; v_epoch : Z }.
Record hview := mkH {
  u_received : Z; u_guard : Z; u_guardExpires : Time; u_promise : Time; u_acks : gmap Z Z; u_epoch : Z }.

Abbreviation lease := leaseDuration.

Section Pair.
Context (sg sh : Z).            (* skews of the clocks *)
Implicit Types (T : Z) (F B : Packet → Prop) (V : gview) (U : hview).

(** Until when, on the holder's clock, a promise is admitted. *)
Definition deadline (p : Packet) (U : hview) : option Z :=
  if 0 <? AckSequence p then (λ b, b + Elapsed p + guardDuration) <$> u_acks U !! AckSequence p
  else if bool_decide (AckSequence p < 0 ∧ - AckSequence p = u_guard U) then u_guardExpires U else None.

(** The grantor is bound beyond [x] on the holder's clock, in epoch [e]. *)
Definition bound_beyond (V : gview) (x e : Z) : Prop :=
  ∃ b, v_bound V = Some b ∧ x - sh ≤ b - sg ∧ v_epoch V = e.

(** [F] are the packets from the grantor to the holder, [B] those back. *)
Record pair_ok (T : Z) (F B : Packet → Prop) (V : gview) (U : hview) : Prop := mkPair {
  pk_time : 0 ≤ T;
  pk_guard : ∀ p, F p → Kind p = packetGuard → 1 ≤ Timestamp p ≤ v_guard V ∧ Duration p = guardDuration;
  pk_guardAck : ∀ p, B p → Kind p = packetGuardAck → 1 ≤ Timestamp p ≤ u_guard U;
  pk_guards : 0 ≤ u_guard U ≤ v_guard V;
  pk_expires : ∀ x, u_guardExpires U = Some x → x ≤ T + sh + guardDuration;
  pk_promise : ∀ p, F p → Kind p = packetLeasePromise →
    1 ≤ Timestamp p ≤ v_sent V ∧ Duration p = lease ∧
    (0 < AckSequence p ≤ u_received U ∧ 0 ≤ Elapsed p ≤ T ∨ 1 ≤ - AckSequence p ≤ u_guard U);
  pk_deadline : ∀ p d, F p → Kind p = packetLeasePromise → u_received U < Timestamp p → deadline p U = Some d →
    d ≤ T + sh ∨ bound_beyond V (d + lease) (LeaseEpoch p);
  pk_epoch : ∀ p, F p → Kind p = packetLeasePromise → Timestamp p = v_sent V → v_bound V ≠ None → LeaseEpoch p = v_epoch V;
  pk_unique : ∀ p q, F p → F q → Kind p = packetLeasePromise → Kind q = packetLeasePromise →
    Timestamp p = Timestamp q → LeaseEpoch p = LeaseEpoch q;
  pk_reply : ∀ r, B r → Kind r = packetLeaseReply → 1 ≤ Timestamp r ∧
    (Timestamp r ≤ u_received U ∨
     ∃ p, F p ∧ Kind p = packetLeasePromise ∧ Timestamp p = Timestamp r ∧ LeaseEpoch p < LeaseEpoch r);
  pk_received : 0 ≤ u_received U ≤ v_sent V;
  pk_acked : 0 ≤ v_ack V ≤ u_received U;
  pk_ackTime : 0 < v_ack V → ∃ a, v_ackTime V = Some a ∧ 0 ≤ a - sg ≤ T ∧ ∀ b, u_acks U !! v_ack V = Some b → b - sh ≤ a - sg;
  pk_acks : ∀ s b, u_acks U !! s = Some b → b ≤ T + sh;
  pk_bound : ∀ b, v_bound V = Some b → b ≤ T + sg + guardDuration + lease;
  pk_held : ∀ x, u_promise U = Some x → x ≤ T + sh + lease ∧ (x ≤ T + sh ∨ bound_beyond V x (u_epoch U)) }.

(** ** What an unexpired promise means *)
Lemma pair_held T F B V U x :
  pair_ok T F B V U → u_promise U = Some x → T + sh < x → ∃ b, v_bound V = Some b ∧ T + sg < b ∧ v_epoch V = u_epoch U.
Proof.
  intros H Hx Hlt. destruct (pk_held _ _ _ _ _ H x Hx) as [_ [?|(b & Hb & Hle & He)]]; [lia|]. exists b. split_and!; [done|lia|done].
Qed.

(** ** Actions *)

(** Packets of other kinds do not matter. *)
Lemma pair_packets T F B F' B' V U :
  (∀ p, Kind p = packetGuard ∨ Kind p = packetLeasePromise → F p ↔ F' p) →
  (∀ p, Kind p = packetGuardAck ∨ Kind p = packetLeaseReply → B p ↔ B' p) →
  pair_ok T F B V U → pair_ok T F' B' V U.
Proof.
  intros HF HB [K1 K2 K3 K4 K5 K6 K7 K8 K9 K10 K11 K12 K13 K14 K15 K16].
  assert (∀ p, F' p → Kind p = packetGuard ∨ Kind p = packetLeasePromise → F p) as HF' by (intros; by apply HF).
  assert (∀ p, B' p → Kind p = packetGuardAck ∨ Kind p = packetLeaseReply → B p) as HB' by (intros; by apply HB).
  split; try done; eauto 12.
  intros r Hr Hk. destruct (K10 r) as [Ht Hor]; [eauto..|]. split; [done|].
  destruct Hor as [?|(p & Hp & Hkp & Ht' & He)]; [by left|]. right. exists p. split_and!; try done. apply HF; [by right|done].
Qed.

Lemma pair_advance T T' F B V U : T ≤ T' → pair_ok T F B V U → pair_ok T' F B V U.
Proof.
  intros HT [K1 K2 K3 K4 K5 K6 K7 K8 K9 K10 K11 K12 K13 K14 K15 K16]. split; try done.
  - lia.
  - intros x Hx. specialize (K5 x Hx). lia.
  - intros p Hp Hk. destruct (K6 p Hp Hk) as (H1 & H2 & Hor). split; [done|]. split; [done|]. destruct Hor; [left; lia|by right].
  - intros p d Hp Hk Hr Hd. destruct (K7 p d Hp Hk Hr Hd); [left; lia|by right].
  - intros Ha. destruct (K13 Ha) as (a & ? & ? & ?). exists a. split_and!; try done; lia.
  - intros s b Hb. specialize (K14 s b Hb). lia.
  - intros b Hb. specialize (K15 b Hb). lia.
  - intros x Hx. destruct (K16 x Hx) as [? [?|?]]; (split; [lia|]); [left; lia|by right].
Qed.

(** The grantor sends a guard. *)
Definition guard_sent (V : gview) : gview :=
  mkG (v_guard V + 1) (v_sent V) (v_ack V) (v_bound V) (v_ackTime V) (v_epoch V).

Lemma pair_send_guard T F B V U p :
  pair_ok T F B V U → Kind p = packetGuard → Timestamp p = v_guard V + 1 → Duration p = guardDuration →
  pair_ok T (λ q, F q ∨ q = p) B (guard_sent V) U.
Proof.
  intros [K1 K2 K3 K4 K5 K6 K7 K8 K9 K10 K11 K12 K13 K14 K15 K16] Hk Ht Hd.
  assert (Kind p ≠ packetLeasePromise) as Hne by (rewrite Hk; done).
  split; cbn; try done.
  - intros q [Hq| ->] Hkq; [|lia]. destruct (K2 q Hq Hkq). split; [lia|done].
  - lia.
  - intros q [Hq| ->]; [|done]. by apply K6.
  - intros q d [Hq| ->]; [|done]. by apply K7.
  - intros q [Hq| ->]; [|done]. by apply K8.
  - intros q q' [Hq| ->] [Hq'| ->]; try done. by apply K9.
  - intros r Hr Hkr. destruct (K10 r Hr Hkr) as [? [?|(q & Hq & ?)]]; (split; [done|]); [by left|]. right. exists q. split; [by left|done].
Qed.

(** The grantor sends a promise: the packet, in its epoch, and the new bound. *)
Definition promise_sent (now : Z) (V : gview) : gview :=
  mkG (v_guard V) (v_sent V + 1) (v_ack V) (Some (now + guardDuration + lease)) (v_ackTime V) (v_epoch V).

Lemma bound_promise_sent T F B V U x e :
  pair_ok T F B V U → bound_beyond V x e → bound_beyond (promise_sent (T + sg) V) x e.
Proof.
  intros H (b & Hb & Hle & He). eexists. split; [reflexivity|]. cbn. split; [|done].
  pose proof (pk_bound _ _ _ _ _ H b Hb). lia.
Qed.

Lemma pair_send_promise T F B V U p :
  pair_ok T F B V U → Kind p = packetLeasePromise → Timestamp p = v_sent V + 1 → Duration p = lease → LeaseEpoch p = v_epoch V →
  (0 < AckSequence p ≤ u_received U ∧ 0 ≤ Elapsed p ≤ T ∨ 1 ≤ - AckSequence p ≤ u_guard U) →
  (∀ d, deadline p U = Some d → d ≤ T + sh + guardDuration) →
  pair_ok T (λ q, F q ∨ q = p) B (promise_sent (T + sg) V) U.
Proof.
  intros H Hk Ht Hdur He Hack Hdl.
  assert (∀ x e, bound_beyond V x e → bound_beyond (promise_sent (T + sg) V) x e) as Hbb by (intros x e; by eapply bound_promise_sent).
  destruct H as [K1 K2 K3 K4 K5 K6 K7 K8 K9 K10 K11 K12 K13 K14 K15 K16].
  assert (Kind p ≠ packetGuard) as Hne by (rewrite Hk; done).
  split; cbn; try done.
  - intros q [Hq| ->]; [|done]. by apply K2.
  - intros q [Hq| ->] Hkq; [destruct (K6 q Hq Hkq) as (? & ? & ?); split_and!; [lia..|done|done]|]. split_and!; [lia|lia|done|done].
  - intros q d [Hq| ->] Hkq Hr Hd.
    + destruct (K7 q d Hq Hkq Hr Hd); [by left|right; auto].
    + right. exists (T + sg + guardDuration + lease). split; [done|]. specialize (Hdl d Hd). split; [lia|done].
  - intros q [Hq| ->] Hkq Hts; [|done]. destruct (K6 q Hq Hkq). lia.
  - intros q q' [Hq| ->] [Hq'| ->] Hkq Hkq' Hts; try done; [by apply K9| |].
    + destruct (K6 q Hq Hkq). lia.
    + destruct (K6 q' Hq' Hkq'). lia.
  - intros r Hr Hkr. destruct (K10 r Hr Hkr) as [? [?|(q & Hq & ?)]]; (split; [done|]); [by left|]. right. exists q. split; [by left|done].
  - lia.
  - intros b Hb. injection Hb as <-. lia.
  - intros x Hx. destruct (K16 x Hx) as [? [?|?]]; split; try done; [by left|right; auto].
Qed.

(** Renewing: the promise refers to the last acknowledgement. *)
Lemma pair_renew T F B V U p a :
  pair_ok T F B V U → 0 < v_ack V → v_ackTime V = Some a →
  Kind p = packetLeasePromise → Timestamp p = v_sent V + 1 → Duration p = lease → LeaseEpoch p = v_epoch V →
  AckSequence p = v_ack V → Elapsed p = T + sg - a →
  pair_ok T (λ q, F q ∨ q = p) B (promise_sent (T + sg) V) U.
Proof.
  intros H Hpos Ha Hk Ht Hd He Hs Hel. destruct (pk_ackTime _ _ _ _ _ H Hpos) as (a' & Ha' & Hrange & Hb).
  rewrite Ha in Ha'. injection Ha' as <-. pose proof (pk_acked _ _ _ _ _ H).
  apply pair_send_promise; try done.
  - left. lia.
  - intros d. unfold deadline. rewrite Hs, (proj2 (Z.ltb_lt _ _) Hpos).
    destruct (u_acks U !! v_ack V) as [b|] eqn:E; cbn; [|done]. intros [= <-]. specialize (Hb b eq_refl). lia.
Qed.

(** Answering the acknowledgement of a guard. *)
Lemma pair_guarded T F B V U p s :
  pair_ok T F B V U → 1 ≤ s ≤ u_guard U →
  Kind p = packetLeasePromise → Timestamp p = v_sent V + 1 → Duration p = lease → LeaseEpoch p = v_epoch V → AckSequence p = - s →
  pair_ok T (λ q, F q ∨ q = p) B (promise_sent (T + sg) V) U.
Proof.
  intros H Hs Hk Ht Hd He Ha. apply pair_send_promise; try done.
  - right. lia.
  - intros d. unfold deadline. rewrite Ha, (proj2 (Z.ltb_ge _ _)) by lia. case_bool_decide; [|done].
    apply (pk_expires _ _ _ _ _ H).
Qed.

(** The grantor takes an acknowledgement of its last promise. *)
Lemma pair_acknowledged T F B V U r b :
  pair_ok T F B V U → B r → Kind r = packetLeaseReply → LeaseEpoch r = v_epoch V → Timestamp r = v_sent V → v_bound V = Some b →
  pair_ok T F B (mkG (v_guard V) (v_sent V) (Timestamp r) (Some (Z.min b (T + sg + lease))) (Some (T + sg)) (v_epoch V)) U.
Proof.
  intros H Hr Hk He Ht Hb. destruct (pk_reply _ _ _ _ _ H r Hr Hk) as [Hpos Hor].
  assert (Timestamp r ≤ u_received U) as Hrec.
  { destruct Hor as [?|(p & Hp & Hkp & Htp & Hlt)]; [done|].
    assert (LeaseEpoch p = v_epoch V); [|lia]. apply (pk_epoch _ _ _ _ _ H); [done|done|congruence|by rewrite Hb]. }
  destruct H as [K1 K2 K3 K4 K5 K6 K7 K8 K9 K10 K11 K12 K13 K14 K15 K16].
  split; cbn; try done.
  - intros p d Hp Hkp Hlt. destruct (K6 p Hp Hkp). lia.
  - intros p Hp Hkp Htp _. apply K8; try done. by rewrite Hb.
  - lia.
  - intros _. eexists. split; [done|]. split; [lia|]. intros b' Hb'. specialize (K14 _ _ Hb'). lia.
  - intros b' Hb'. injection Hb' as <-. specialize (K15 b Hb). lia.
  - intros x Hx. destruct (K16 x Hx) as [Hx2 [?|(b' & Hb' & Hle & He')]]; (split; [done|]); [by left|].
    destruct (decide (x ≤ T + sh)); [by left|]. right. eexists. split; [done|]. cbn. split; [|done].
    rewrite Hb in Hb'. injection Hb' as <-. lia.
Qed.

(** The grantor changes its epoch when its bound is over. *)
Lemma pair_switch T F B V U e :
  pair_ok T F B V U → (∀ b, v_bound V = Some b → b ≤ T + sg) →
  pair_ok T F B (mkG (v_guard V) (v_sent V) 0 None (v_ackTime V) e) U.
Proof.
  intros [K1 K2 K3 K4 K5 K6 K7 K8 K9 K10 K11 K12 K13 K14 K15 K16] Hover. split; cbn; try done.
  - intros p d Hp Hk Hr Hd. left. destruct (K7 p d Hp Hk Hr Hd) as [?|(b & Hb & Hle & _)]; [done|].
    specialize (Hover b Hb). unfold lease, leaseDuration, Second, Millisecond in Hle. lia.
  - lia.
  - intros x Hx. destruct (K16 x Hx) as [? [?|(b & Hb & Hle & _)]]; (split; [done|]); left; [done|]. specialize (Hover b Hb). lia.
Qed.

(** The holder takes a guard that is new. *)
Lemma pair_take_guard T F B V U p r :
  pair_ok T F B V U → F p → Kind p = packetGuard → u_guard U < Timestamp p → Kind r = packetGuardAck → Timestamp r = Timestamp p →
  pair_ok T F (λ q, B q ∨ q = r) V
    (mkH (u_received U) (Timestamp p) (Some (T + sh + Duration p)) (u_promise U) (u_acks U) (u_epoch U)).
Proof.
  intros [K1 K2 K3 K4 K5 K6 K7 K8 K9 K10 K11 K12 K13 K14 K15 K16] Hp Hk Hlt Hkr Htr.
  destruct (K2 p Hp Hk) as [Hts Hd]. split; cbn; try done.
  - intros q [Hq| ->] Hkq; [|lia]. specialize (K3 q Hq Hkq). lia.
  - lia.
  - intros x [= <-]. rewrite Hd. lia.
  - intros q Hq Hkq. destruct (K6 q Hq Hkq) as (H1 & H2 & Hor). split; [done|]. split; [done|]. destruct Hor; [by left|right; lia].
  - intros q d Hq Hkq Hr Hdl. apply (K7 q d Hq Hkq Hr). destruct (K6 q Hq Hkq) as (_ & _ & Hor). unfold deadline in *. cbn in *.
    destruct (0 <? AckSequence q) eqn:E; [done|]. apply Z.ltb_ge in E. case_bool_decide as Hs; [|done]. destruct Hs. destruct Hor as [[]|[]]; lia.
  - intros q [Hq| ->] Hkq; [|by rewrite Hkr in Hkq]. by apply K10.
Qed.

(** The holder admits a promise; [acks'] adds its time to what it remembers, and
    may forget other times. *)
Lemma pair_take_promise T F B V U p r acks' d :
  pair_ok T F B V U → F p → Kind p = packetLeasePromise → u_received U < Timestamp p →
  deadline p U = Some d → T + sh < d →
  (∀ s b, acks' !! s = Some b → s = Timestamp p ∧ b = T + sh ∨ u_acks U !! s = Some b ∧ s ≠ Timestamp p) →
  Kind r = packetLeaseReply → Timestamp r = Timestamp p →
  pair_ok T F (λ q, B q ∨ q = r) V
    (mkH (Timestamp p) (u_guard U) (u_guardExpires U) (Some (T + sh + Duration p)) acks' (LeaseEpoch p)).
Proof.
  intros [K1 K2 K3 K4 K5 K6 K7 K8 K9 K10 K11 K12 K13 K14 K15 K16] Hp Hk Hlt Hd Hin Hacks Hkr Htr.
  destruct (K6 p Hp Hk) as (Hts & Hdur & _).
  assert (∀ q d', F q → Kind q = packetLeasePromise →
    deadline q (mkH (Timestamp p) (u_guard U) (u_guardExpires U) (Some (T + sh + Duration p)) acks' (LeaseEpoch p)) = Some d' →
    deadline q U = Some d') as Hdeadline.
  { intros q d' Hq Hkq. destruct (K6 q Hq Hkq) as (_ & _ & Hor). unfold deadline. cbn. destruct (0 <? AckSequence q) eqn:E; [|done].
    intros (b & Hb & Heq)%fmap_Some. destruct (Hacks _ _ Hb) as [[? ->]|[Hold _]]; [lia|]. apply fmap_Some. eauto. }
  split; cbn; try done.
  - intros q [Hq| ->] Hkq; [by apply K3|by rewrite Hkr in Hkq].
  - intros q Hq Hkq. destruct (K6 q Hq Hkq) as (H1 & H2 & Hor). split; [done|]. split; [done|]. destruct Hor; [left; lia|by right].
  - intros q d' Hq Hkq Hr Hdl. destruct (K7 q d' Hq Hkq) as [?|?]; [lia|by eapply Hdeadline|by left|by right].
  - intros q [Hq| ->] Hkq; [|split; [lia|left; lia]]. destruct (K10 q Hq Hkq) as [? [?|?]]; (split; [done|]); [left; lia|by right].
  - lia.
  - lia.
  - intros Ha. destruct (K13 Ha) as (a & Ha' & Hr & Hb). exists a. split; [done|]. split; [done|]. intros b Hb'.
    destruct (Hacks _ _ Hb') as [[? ->]|[? _]]; [lia|auto].
  - intros s b Hb. destruct (Hacks _ _ Hb) as [[_ ->]|[? _]]; [lia|by eapply K14].
  - intros x [= <-]. rewrite Hdur. split; [lia|]. right. destruct (K7 p d Hp Hk Hlt Hd) as [?|(b & Hb & Hle & He)]; [lia|].
    exists b. split_and!; [done|lia|done].
Qed.

(** The holder refuses a promise of an old epoch. *)
Lemma pair_refuse_promise T F B V U p r :
  pair_ok T F B V U → F p → Kind p = packetLeasePromise → LeaseEpoch p < LeaseEpoch r → Kind r = packetLeaseReply →
  Timestamp r = Timestamp p → pair_ok T F (λ q, B q ∨ q = r) V U.
Proof.
  intros [K1 K2 K3 K4 K5 K6 K7 K8 K9 K10 K11 K12 K13 K14 K15 K16] Hp Hk Hlt Hkr Htr. destruct (K6 p Hp Hk) as (Hts & _ & _).
  split; cbn; try done.
  - intros q [Hq| ->] Hkq; [by apply K3|by rewrite Hkr in Hkq].
  - intros q [Hq| ->] Hkq; [by apply K10|]. split; [lia|]. right. by exists p.
Qed.

(** The holder enters an epoch by another grantor's promise. *)
Lemma pair_enter_epoch T F B V U e :
  pair_ok T F B V U → pair_ok T F B V (mkH (u_received U) (u_guard U) (u_guardExpires U) None (u_acks U) e).
Proof. intros [K1 K2 K3 K4 K5 K6 K7 K8 K9 K10 K11 K12 K13 K14 K15 K16]. by split; cbn. Qed.
End Pair.
End PqlLeasePair.
