(* ===== verification/PqlLeaseSafety.v ===== *)
(** * PqlLeaseSafety: the leases of PQL exclude writes

    A system of lease states in real time.  Every replica reads a clock of its
    own, which runs at the rate of real time with an arbitrary skew; packets
    are delayed, repeated, reordered and lost.  A run is a list of steps: time
    passes, a replica's timer fires, a packet that has been sent is received,
    or a replica whose promises are over changes its epoch.

    [lease_exclusion]: while a replica may read under its leases, half of the
    other replicas are bound to it in its epoch, none of which may accept a
    write of another epoch. *)
From stdpp Require Import gmap strings list fin_maps functions sorting.
From Stdlib Require Import Lia.
From S2P Require Import Prelude State Defs Pql PqlLease PqlLeasePair.

Module PqlLeaseSafety.
Import Pql PqlLease PqlLeasePair.

(** ** The system *)
Record world := mkWorld { nodes : Z → leaseState; net : list (Z * Packet); clock : Z }.

Inductive step :=
  | Advance (d : N)
  | Timer (i : Z) (alive : list bool) (frontier : Z)
  | Deliver (k : nat) (frontier : Z)              (* the [k]th packet sent *)
  | Switch (i epoch : Z).

(** One entry per replica. *)
Abbreviation lengths_ok n l := (Forall (λ m, m = Z.to_nat n)
  [length (latestPromises l); length (latestReplies l); length (guardExpires l); length (lastAckTime l);
   length (guardSequence l); length (sentSequence l); length (receivedSequence l); length (ackSequence l);
   length (receivedGuardSequence l); length (ackTimes l); length (lastGuard l)]).

Section System.
Context (n : Z) (skew : Z → Z).

Definition start : world := mkWorld (newLeaseState n) [] 0.
Definition now (w : world) (i : Z) : Z := clock w + skew i.
Definition update (w : world) (i : Z) (r : leaseState * list (Z * Packet)) : world :=
  mkWorld (<[i := r.1]> (nodes w)) (net w ++ r.2) (clock w).
Definition is_replica (i : Z) : bool := (0 <=? i) && (i <? n).

Definition exec (s : step) (w : world) : world :=
  match s with
  | Advance d => mkWorld (nodes w) (net w) (clock w + Z.of_N d)
  | Timer i alive frontier => if is_replica i then update w i (tick (now w i) alive frontier (nodes w i)) else w
  | Deliver k frontier =>
      match net w !! k with
      | Some (i, p) => let '(_, l, out) := receive p (now w i) frontier (nodes w i) in update w i (l, out)
      | None => w
      end
  | Switch i epoch =>
      if is_replica i && canWriteOutside (now w i) (nodes w i) then update w i (switchEpoch epoch (now w i) (nodes w i), []) else w
  end.

Definition run (ss : list step) (w : world) : world := foldl (λ w s, exec s w) w ss.

(** ** Views and the invariant *)
Definition gview_of (l : leaseState) (h : Z) : gview :=
  mkG (seq_at (guardSequence l) h) (seq_at (sentSequence l) h) (seq_at (ackSequence l) h)
    (time_at (latestReplies l) h) (time_at (lastAckTime l) h) (promisedBy l).
Definition hview_of (l : leaseState) (g : Z) : hview :=
  mkH (seq_at (receivedSequence l) g) (seq_at (receivedGuardSequence l) g) (time_at (guardExpires l) g)
    (time_at (latestPromises l) g) (default ∅ (index (ackTimes l) g)) (promisedTo l).

Definition chan (m : list (Z * Packet)) (from to : Z) (p : Packet) : Prop := (to, p) ∈ m ∧ From p = from.

(** [k] bounds the sequence numbers. *)
Record shape_ok (k i : Z) (l : leaseState) : Prop := mkShape {
  sk_n : ln l = n; sk_id : lid l = i;
  sk_lengths : lengths_ok n l;
  sk_counters : ∀ h, 0 ≤ seq_at (guardSequence l) h ≤ k ∧ 0 ≤ seq_at (sentSequence l) h ≤ k }.
(** The grantor's bound covers every grant. *)
Definition write_ok (i : Z) (l : leaseState) : Prop :=
  ∀ h b, 0 ≤ h < n → h ≠ i → time_at (latestReplies l) h = Some b → ∃ u, writeUntil l = Some u ∧ b ≤ u.
Definition node_ok (k i : Z) (l : leaseState) : Prop := shape_ok k i l ∧ write_ok i l.

Record world_ok (k : Z) (w : world) : Prop := mkWorldOk {
  wk_nodes : ∀ i, 0 ≤ i < n → node_ok k i (nodes w i);
  wk_net : ∀ to p, (to, p) ∈ net w → 0 ≤ to < n ∧ 0 ≤ From p < n ∧ From p ≠ to;
  wk_pairs : ∀ g h, 0 ≤ g < n → 0 ≤ h < n → g ≠ h →
    pair_ok (skew g) (skew h) (clock w) (chan (net w) g h) (chan (net w) h g)
      (gview_of (nodes w g) h) (hview_of (nodes w h) g) }.

(** *** Lists *)
Lemma index_put {A} (l : list A) i j (x : A) :
  0 ≤ i < Z.of_nat (length l) → index (put i x l) j = if decide (j = i) then Some x else index l j.
Proof.
  intros Hi. unfold index, put. destruct (j <? 0) eqn:E; [case_decide; [lia|done]|]. apply Z.ltb_ge in E.
  case_decide as Hj; [subst j; apply list_lookup_insert_eq; lia|]. apply list_lookup_insert_ne. lia.
Qed.

Lemma length_put {A} (l : list A) i (x : A) : length (put i x l) = length l.
Proof. apply length_insert. Qed.

Lemma seq_at_put l i j x : 0 ≤ i < Z.of_nat (length l) → seq_at (put i x l) j = if decide (j = i) then x else seq_at l j.
Proof. intros Hi. unfold seq_at. rewrite index_put by done. by case_decide. Qed.
Lemma time_at_put l i j x : 0 ≤ i < Z.of_nat (length l) → time_at (put i x l) j = if decide (j = i) then x else time_at l j.
Proof. intros Hi. unfold time_at. rewrite index_put by done. by case_decide. Qed.
Lemma acks_at_put (l : list (gmap Z Z)) i j x :
  0 ≤ i < Z.of_nat (length l) → default ∅ (index (put i x l) j) = if decide (j = i) then x else default ∅ (index l j).
Proof. intros Hi. rewrite index_put by done. by case_decide. Qed.
Lemma time_at_none (l : list Time) j : time_at ((λ _, None) <$> l) j = None.
Proof. unfold time_at, index. destruct (j <? 0); [done|]. rewrite list_lookup_fmap. by destruct (l !! _). Qed.
Lemma seq_at_zero (l : list Z) j : seq_at ((λ _, 0) <$> l) j = 0.
Proof. unfold seq_at, index. destruct (j <? 0); [done|]. rewrite list_lookup_fmap. by destruct (l !! _). Qed.

Lemma index_replicate {A} (x : A) m j : index (replicate m x) j = if bool_decide (0 ≤ j < Z.of_nat m) then Some x else None.
Proof.
  unfold index. destruct (j <? 0) eqn:E; case_bool_decide; try lia; try done.
  - apply lookup_replicate_2. lia.
  - apply lookup_replicate_None. lia.
Qed.

Lemma shape_mono k k' i l : k ≤ k' → shape_ok k i l → shape_ok k' i l.
Proof. intros Hk [? ? ? Hc]. split; try done. intros h. specialize (Hc h). lia. Qed.
Lemma node_mono k k' i l : k ≤ k' → node_ok k i l → node_ok k' i l.
Proof. intros Hk [? ?]. split; [by apply (shape_mono k)|done]. Qed.

(** *** A node's step, seen by the pairs it is in *)
Lemma world_update k k' w i l ps :
  world_ok k w → k ≤ k' → 0 ≤ i < n → node_ok k' i l →
  (∀ to p, (to, p) ∈ ps → 0 ≤ to < n ∧ to ≠ i ∧ From p = i) →
  (∀ j, 0 ≤ j < n → j ≠ i →
     let sent p := chan (net w) i j p ∨ (j, p) ∈ ps in
     pair_ok (skew i) (skew j) (clock w) sent (chan (net w) j i) (gview_of l j) (hview_of (nodes w j) i) ∧
     pair_ok (skew j) (skew i) (clock w) (chan (net w) j i) sent (gview_of (nodes w j) i) (hview_of l j)) →
  world_ok k' (update w i (l, ps)).
Proof.
  intros [K1 K2 K3] Hk Hi Hl Hps Hpair.
  assert (∀ from to p, from ≠ i → chan (net w ++ ps) from to p ↔ chan (net w) from to p) as Hother.
  { intros from to p Hne. unfold chan. rewrite elem_of_app. split; [|tauto]. intros [[?|Hin] Hf]; [done|].
    destruct (Hps _ _ Hin) as (_ & _ & ?). congruence. }
  assert (∀ to p, chan (net w ++ ps) i to p ↔ chan (net w) i to p ∨ (to, p) ∈ ps) as Hown.
  { intros to p. unfold chan. rewrite elem_of_app. split; [tauto|]. intros [[? ?]|Hin]; [tauto|].
    destruct (Hps _ _ Hin) as (_ & _ & ?). tauto. }
  split; cbn.
  - intros j Hj. destruct (decide (j = i)) as [->|Hne]; [by rewrite fn_lookup_insert|]. rewrite fn_lookup_insert_ne by done.
    apply (node_mono k); auto.
  - intros to p [Hin|Hin]%elem_of_app; [by apply K2|]. destruct (Hps _ _ Hin) as (? & ? & ->). auto.
  - intros g h Hg Hh Hgh. destruct (decide (g = i)) as [->|Hgi].
    { rewrite fn_lookup_insert, fn_lookup_insert_ne by done. destruct (Hpair h Hh (not_eq_sym Hgh)) as [Hp _].
      eapply pair_packets; [| |exact Hp]; intros p _; [symmetry; apply Hown|symmetry; by apply Hother]. }
    destruct (decide (h = i)) as [->|Hhi].
    { rewrite fn_lookup_insert, fn_lookup_insert_ne by done. destruct (Hpair g Hg Hgi) as [_ Hp].
      eapply pair_packets; [| |exact Hp]; intros p _; [symmetry; by apply Hother|symmetry; apply Hown]. }
    rewrite !fn_lookup_insert_ne by done.
    eapply pair_packets; [| |exact (K3 g h Hg Hh Hgh)]; intros p _; symmetry; by apply Hother.
Qed.

(** A pair a node's step does not concern: the views are the same and the
    packets to the other are not of the pair. *)
Lemma pair_same_grantor T F F' B sg sh V U (ps : list (Z * Packet)) (j : Z) :
  pair_ok sg sh T F B V U → (∀ p, F' p ↔ F p ∨ (j, p) ∈ ps) →
  (∀ p, (j, p) ∈ ps → Kind p ≠ packetGuard ∧ Kind p ≠ packetLeasePromise) → pair_ok sg sh T F' B V U.
Proof.
  intros H HF Hk. eapply pair_packets; [| |exact H]; intros p Hp; [|done]. rewrite HF. split; [by left|].
  intros [?|Hin]; [done|]. destruct (Hk p Hin). tauto.
Qed.
Lemma pair_same_holder T F B B' sg sh V U (ps : list (Z * Packet)) (j : Z) :
  pair_ok sg sh T F B V U → (∀ p, B' p ↔ B p ∨ (j, p) ∈ ps) →
  (∀ p, (j, p) ∈ ps → Kind p ≠ packetGuardAck ∧ Kind p ≠ packetLeaseReply) → pair_ok sg sh T F B' V U.
Proof.
  intros H HB Hk. eapply pair_packets; [| |exact H]; intros p Hp; [done|]. rewrite HB. split; [by left|].
  intros [?|Hin]; [done|]. destruct (Hk p Hin). tauto.
Qed.

Lemma world_ext k w w' :
  (∀ i, nodes w i = nodes w' i) → net w = net w' → clock w = clock w' → world_ok k w → world_ok k w'.
Proof.
  intros Hn Hm Hc [K1 K2 K3]. split.
  - intros i Hi. rewrite <- Hn. auto.
  - intros to p. rewrite <- Hm. auto.
  - intros g h Hg Hh Hgh. rewrite <- !Hn, <- Hm, <- Hc. auto.
Qed.

Lemma world_mono k k' w : k ≤ k' → world_ok k w → world_ok k' w.
Proof.
  intros Hk [K1 K2 K3]. split; try done. intros i Hi. apply (node_mono k); auto.
Qed.

Lemma i64_small z : 0 ≤ z < 2 ^ 63 → i64 z = z.
Proof. intros Hz. apply wrapS_id; [lia|]. cbn. lia. Qed.

(** *** The write bound *)
Lemma recompute_write_spec t l :
  ln l = n → ∃ u, writeUntil (recomputeWriteUntil t l) = Some u ∧ t ≤ u ∧
    ∀ h b, 0 ≤ h < n → h ≠ lid l → time_at (latestReplies l) h = Some b → b ≤ u.
Proof.
  intros Hn. eexists. split; [reflexivity|]. rewrite Hn.
  set (f := λ m peer, match time_at (latestReplies l) peer with
                      | Some expiry => if negb (peer =? lid l) && (m <? expiry) then expiry else m
                      | None => m end).
  assert (∀ m peer, m ≤ f m peer) as Hmono.
  { intros m peer. unfold f. destruct (time_at _ _) as [x|]; [|lia]. destruct (negb _); cbn; [|lia]. destruct (m <? x) eqn:E; lia. }
  assert (∀ ids m, m ≤ foldl f m ids) as Hge.
  { induction ids as [|a ids IH]; intros m; cbn; [lia|]. pose proof (Hmono m a). specialize (IH (f m a)). lia. }
  split; [apply Hge|]. intros h b Hh Hid Hb.
  assert (∀ ids m, h ∈ ids → b ≤ foldl f m ids) as Hin; [|by apply Hin, elem_of_rangeZ; lia].
  induction ids as [|a ids IH]; intros m Hin; [by apply not_elem_of_nil in Hin|]. cbn. apply elem_of_cons in Hin as [<-|Hin].
  - specialize (Hge ids (f m h)). assert (b ≤ f m h); [|lia]. unfold f. rewrite Hb, (proj2 (Z.eqb_neq _ _)) by done. cbn.
    destruct (m <? b) eqn:E; lia.
  - by apply IH.
Qed.

Lemma node_recompute k i l t : shape_ok k i l → node_ok k i (recomputeWriteUntil t l).
Proof.
  intros [H1 H2 H3 H4]. split; [by split|]. destruct (recompute_write_spec t l H1) as (u & Hu & _ & Hb).
  intros h b Hh Hne Hlr. exists u. split; [done|]. apply (Hb h b); [done|by rewrite H2|done].
Qed.

(** *** The grantor's packets *)
Section Grantor.
Context (k i h : Z) (w : world) (Hw : world_ok k w) (Hi : 0 ≤ i < n) (Hh : 0 ≤ h < n) (Hne : h ≠ i) (Hk : k + 1 < 2 ^ 63).

Lemma shape_at : shape_ok k i (nodes w i).
Proof. apply (wk_nodes _ _ Hw i Hi). Qed.

(** One packet to [h] that only the pair of [i] and [h] is about. *)
Lemma world_send l p :
  node_ok (k + 1) i l → From p = i → Kind p = packetGuard ∨ Kind p = packetLeasePromise →
  (∀ j, j ≠ h → gview_of l j = gview_of (nodes w i) j) → (∀ j, hview_of l j = hview_of (nodes w i) j) →
  (pair_ok (skew i) (skew h) (clock w) (chan (net w) i h) (chan (net w) h i) (gview_of (nodes w i) h) (hview_of (nodes w h) i) →
   pair_ok (skew i) (skew h) (clock w) (λ q, chan (net w) i h q ∨ q = p) (chan (net w) h i) (gview_of l h) (hview_of (nodes w h) i)) →
  world_ok (k + 1) (update w i (l, [(h, p)])).
Proof.
  intros Hl Hp Hkind Hg Hhv Hpair. apply (world_update k); [done|lia|done|done| |].
  { intros to q Hq. apply list_elem_of_singleton in Hq as [= -> ->]. auto. }
  intros j Hj Hji sent. assert (∀ q, (j, q) ∈ [(h, p)] ↔ j = h ∧ q = p) as Hin.
  { intros q. rewrite list_elem_of_singleton. naive_solver. }
  split.
  - pose proof (wk_pairs _ _ Hw i j Hi Hj (not_eq_sym Hji)) as H. destruct (decide (j = h)) as [->|Hjh].
    + eapply pair_packets; [| |exact (Hpair H)]; intros q _; [|done]. unfold sent. rewrite Hin. tauto.
    + rewrite Hg by done. eapply (pair_same_grantor _ _ _ _ _ _ _ _ [(h, p)] j); [exact H|by intros q|]. intros q Hq%Hin. tauto.
  - rewrite Hhv. eapply (pair_same_holder _ _ _ _ _ _ _ _ [(h, p)] j); [exact (wk_pairs _ _ Hw j i Hj Hi Hji)|by intros q|].
    intros q [_ ->]%Hin. destruct Hkind as [->| ->]; done.
Qed.

Lemma put_length {A} (l : list A) (x : A) : length l = Z.to_nat n → 0 ≤ h < Z.of_nat (length l).
Proof. lia. Qed.

Lemma world_sendGuard t : world_ok (k + 1) (update w i (sendGuard t h (nodes w i))).
Proof.
  destruct shape_at as [S1 S2 S3 S4]. set (l := nodes w i) in *. rewrite Forall_forall in S3.
  assert (0 ≤ h < Z.of_nat (length (guardSequence l))) as Hlen by (rewrite (S3 _); [lia|set_solver]).
  pose proof (S4 h) as [Hg Hs]. assert (i64 (seq_at (guardSequence l) h + 1) = seq_at (guardSequence l) h + 1) as Hinc.
  { apply i64_small. lia. }
  apply world_send.
  - split.
    + split; cbn; [done|done| |].
      * rewrite Forall_forall. intros m Hm. apply S3. by rewrite !length_put in Hm.
      * intros j. rewrite seq_at_put by done. specialize (S4 j). case_decide; lia.
    + intros j b Hj Hji Hb. exact (proj2 (wk_nodes _ _ Hw i Hi) j b Hj Hji Hb).
  - done.
  - by left.
  - intros j Hj. unfold gview_of. cbn. rewrite seq_at_put by done. by case_decide.
  - done.
  - intros H. replace (gview_of _ h) with (guard_sent (gview_of l h)).
    2: { unfold gview_of, guard_sent. cbn. rewrite Hinc, seq_at_put by done. by rewrite decide_True. }
    eapply pair_send_guard; [exact H|done| |done]. cbn. rewrite seq_at_put by done. by rewrite decide_True.
Qed.

Lemma world_sendPromise frontier guarded l0 :
  (* [l0] differs from the node in [lastGuard] and [lastResponse] only *)
  (∃ a b, l0 = nodes w i <| lastGuard := a |> <| lastResponse := b |> ∧ length a = Z.to_nat n) →
  (if guarded : bool then 1 ≤ seq_at (guardSequence (nodes w i)) h ≤ seq_at (receivedGuardSequence (nodes w h)) i
   else 0 < seq_at (ackSequence (nodes w i)) h) →
  world_ok (k + 1) (update w i (sendPromise (now w i) h frontier guarded l0)).
Proof.
  intros (a & b & -> & Ha) Hcond.
  destruct shape_at as [S1 S2 S3 S4]. set (l := nodes w i) in *. rewrite Forall_forall in S3.
  assert (0 ≤ h < Z.of_nat (length (sentSequence l))) as Hlen by (rewrite (S3 _); [lia|set_solver]).
  assert (0 ≤ h < Z.of_nat (length (latestReplies l))) as Hlen2 by (rewrite (S3 _); [lia|set_solver]).
  pose proof (S4 h) as [Hg Hs]. assert (i64 (seq_at (sentSequence l) h + 1) = seq_at (sentSequence l) h + 1) as Hinc.
  { apply i64_small. lia. }
  apply world_send.
  - apply node_recompute. split; cbn; [done|done| |].
    + rewrite Forall_forall. intros m Hm. rewrite !length_put, Ha in Hm. set_solver.
    + intros j. rewrite seq_at_put by done. specialize (S4 j). case_decide; lia.
  - by destruct guarded.
  - right. by destruct guarded.
  - intros j Hj. unfold gview_of. cbn. rewrite seq_at_put, time_at_put by done. by case_decide.
  - done.
  - intros H. replace (gview_of _ h) with (promise_sent (clock w + skew i) (gview_of l h)).
    2: { unfold gview_of, promise_sent. cbn. rewrite Hinc, seq_at_put, time_at_put by done. by rewrite !decide_True. }
    destruct guarded.
    + eapply pair_guarded; [exact H|exact Hcond|done| |done|done|]; cbn.
      * rewrite seq_at_put by done. by rewrite decide_True.
      * rewrite wrapS_id; [done|lia|]. cbn. lia.
    + assert (∃ t, time_at (lastAckTime l) h = Some t) as [t Ht].
      { destruct (pk_ackTime _ _ _ _ _ _ _ H Hcond) as (t & Ht & _). by exists t. }
      eapply pair_renew; [exact H|exact Hcond|exact Ht|done| |done|done|done|]; cbn.
      * rewrite seq_at_put by done. by rewrite decide_True.
      * rewrite Ht. done.
Qed.
End Grantor.

(** A change that no pair sees. *)
Lemma world_touch k w i l :
  world_ok k w → 0 ≤ i < n → node_ok k i l → (∀ j, gview_of l j = gview_of (nodes w i) j) →
  (∀ j, hview_of l j = hview_of (nodes w i) j) → world_ok k (update w i (l, [])).
Proof.
  intros Hw Hi Hl Hg Hh. apply (world_update k); [done|lia|done|done| |].
  { intros to p Hp. by apply not_elem_of_nil in Hp. }
  intros j Hj Hji sent. rewrite Hg, Hh. split.
  - eapply (pair_same_grantor _ _ _ _ _ _ _ _ [] j); [by apply (wk_pairs _ _ Hw)|by intros q|]. intros q Hq. by apply not_elem_of_nil in Hq.
  - eapply (pair_same_holder _ _ _ _ _ _ _ _ [] j); [by apply (wk_pairs _ _ Hw)|by intros q|]. intros q Hq. by apply not_elem_of_nil in Hq.
Qed.

(** Two updates of a node are one. *)
Lemma world_update_twice k w i l out l' o :
  world_ok k (update (update w i (l, out)) i (l', o)) → world_ok k (update w i (l', out ++ o)).
Proof.
  apply world_ext; cbn; [|by rewrite app_assoc|done].
  intros j. destruct (decide (j = i)) as [->|Hj]; [by rewrite !fn_lookup_insert|by rewrite !fn_lookup_insert_ne].
Qed.

Lemma world_then k w i l out l' :
  world_ok k (update w i (l, out)) → 0 ≤ i < n → node_ok k i l' → (∀ j, gview_of l' j = gview_of l j) →
  (∀ j, hview_of l' j = hview_of l j) → world_ok k (update w i (l', out)).
Proof.
  intros Hw Hi Hl Hg Hh. rewrite <- (app_nil_r out). apply (world_update_twice k w i l). apply world_touch; try done; cbn;
  intros j; rewrite fn_lookup_insert; auto.
Qed.

Lemma node_of k w i r : world_ok k (update w i r) → 0 ≤ i < n → node_ok k i r.1.
Proof. intros Hw Hi. pose proof (wk_nodes _ _ Hw i Hi) as H. cbn in H. by rewrite fn_lookup_insert in H. Qed.

(** *** The timer *)
Lemma tick_peer_ok k w i alive frontier l out peer :
  world_ok k (update w i (l, out)) → 0 ≤ i < n → 0 ≤ peer < n → k + 1 < 2 ^ 63 →
  world_ok (k + 1) (update w i (tick_peer (now w i) alive frontier (l, out) peer)).
Proof.
  intros Hw Hi Hp Hk. pose proof (node_of _ _ _ _ Hw Hi) as [Hs _]. cbn in Hs. unfold tick_peer. rewrite (sk_id _ _ _ Hs).
  destruct (peer =? i) eqn:Ei; cbn [orb]; [apply (world_mono k); [lia|done]|]. apply Z.eqb_neq in Ei.
  destruct (negb _); [apply (world_mono k); [lia|done]|].
  destruct ((0 <? seq_at (ackSequence l) peer) && _) eqn:Er.
  - apply andb_prop in Er as [Ea%Z.ltb_lt _].
    assert (world_ok (k + 1) (update (update w i (l, out)) i (sendPromise (now w i) peer frontier false l))) as H.
    { apply (world_sendPromise k i peer (update w i (l, out))); try done; cbn; rewrite fn_lookup_insert; [|done].
      exists (lastGuard l), (lastResponse l). split; [by destruct l|]. pose proof (sk_lengths _ _ _ Hs) as Hl.
      rewrite Forall_forall in Hl. apply Hl. set_solver. }
    destruct (sendPromise (now w i) peer frontier false l) as [l' o] eqn:E. apply world_update_twice in H.
    apply (world_then _ _ _ l'); [done|done| |done|done]. pose proof (node_of _ _ _ _ H Hi) as [Hs' Hwr]. split; [|exact Hwr].
    destruct Hs'. by split.
  - assert (world_ok (k + 1) (update (update w i (l, out)) i (sendGuard (now w i) peer l))) as H.
    { pose proof (world_sendGuard k i peer (update w i (l, out)) Hw Hi Hp Ei Hk (now w i)) as H. cbn in H.
      by rewrite fn_lookup_insert in H. }
    destruct (sendGuard (now w i) peer l) as [l' o]. by apply world_update_twice in H.
Qed.

Lemma lease_tick_ok k w i alive frontier :
  world_ok k w → 0 ≤ i < n → k + n < 2 ^ 63 → world_ok (k + n) (update w i (tick (now w i) alive frontier (nodes w i))).
Proof.
  intros Hw Hi Hk. pose proof (wk_nodes _ _ Hw i Hi) as [Hs Hwr]. unfold tick.
  destruct (started _ && _); [apply world_touch; [apply (world_mono k); [lia|done]|done| |done|done]; by apply (node_mono k); [lia|]|].
  rewrite (sk_n _ _ _ Hs).
  assert (∀ ids k' l out, (∀ j, j ∈ ids → 0 ≤ j < n) → world_ok k' (update w i (l, out)) → k' + Z.of_nat (length ids) < 2 ^ 63 →
    world_ok (k' + Z.of_nat (length ids)) (update w i (foldl (tick_peer (now w i) alive frontier) (l, out) ids))) as Hloop.
  { induction ids as [|a ids IH]; intros k' l out Hids Hok Hb; cbn [foldl length]; [by rewrite Z.add_0_r|].
    cbn [length] in Hb. pose proof (tick_peer_ok k' w i alive frontier l out a Hok Hi (Hids a ltac:(left))) as Ha.
    destruct (tick_peer (now w i) alive frontier (l, out) a) as [l' o]. 
    replace (k' + Z.of_nat (S (length ids))) with (k' + 1 + Z.of_nat (length ids)) by lia. apply IH; [|apply Ha; lia|lia].
    intros j Hj. apply Hids. by right. }
  specialize (Hloop (rangeZ 0 (n - 1)) k (nodes w i) []). assert (Z.of_nat (length (rangeZ 0 (n - 1))) = n) as Hlen.
  { unfold rangeZ. rewrite length_seqZ. lia. }
  rewrite Hlen in Hloop. destruct (foldl _ _ _) as [l out].
  assert (world_ok (k + n) (update w i (l, out))) as H.
  { apply Hloop; [intros j; rewrite elem_of_rangeZ; lia| |lia]. by apply world_touch. }
  apply (world_then _ _ _ l); [done|done| |done|done]. apply node_recompute. pose proof (node_of _ _ _ _ H Hi) as [Hs' _].
  destruct Hs'. by split.
Qed.

(** *** Receiving as a holder *)
Section Holder.
Context (k i g : Z) (w : world) (Hw : world_ok k w) (Hi : 0 ≤ i < n) (Hg : 0 ≤ g < n) (Hne : g ≠ i).

Lemma world_nop : world_ok k (update w i (nodes w i, [])).
Proof. apply world_touch; try done. by apply (wk_nodes _ _ Hw). Qed.

(** One packet back to [g]. *)
Lemma world_answer l r :
  node_ok k i l → From r = i → Kind r = packetGuardAck ∨ Kind r = packetLeaseReply →
  (∀ j, gview_of l j = gview_of (nodes w i) j) →
  (∀ j T F B V, j ≠ g → pair_ok (skew j) (skew i) T F B V (hview_of (nodes w i) j) → pair_ok (skew j) (skew i) T F B V (hview_of l j)) →
  (pair_ok (skew g) (skew i) (clock w) (chan (net w) g i) (chan (net w) i g) (gview_of (nodes w g) i) (hview_of (nodes w i) g) →
   pair_ok (skew g) (skew i) (clock w) (chan (net w) g i) (λ q, chan (net w) i g q ∨ q = r) (gview_of (nodes w g) i) (hview_of l g)) →
  world_ok k (update w i (l, [(g, r)])).
Proof.
  intros Hl Hr Hkind Hgv Hhv Hpair. apply (world_update k); [done|lia|done|done| |].
  { intros to q Hq. apply list_elem_of_singleton in Hq as [= -> ->]. auto. }
  intros j Hj Hji sent. assert (∀ q, (j, q) ∈ [(g, r)] ↔ j = g ∧ q = r) as Hin.
  { intros q. rewrite list_elem_of_singleton. naive_solver. }
  split.
  - rewrite Hgv. eapply (pair_same_grantor _ _ _ _ _ _ _ _ [(g, r)] j); [by apply (wk_pairs _ _ Hw)|by intros q|].
    intros q [_ ->]%Hin. destruct Hkind as [->| ->]; done.
  - pose proof (wk_pairs _ _ Hw j i Hj Hi Hji) as H. destruct (decide (j = g)) as [->|Hjg].
    + eapply pair_packets; [| |exact (Hpair H)]; intros q _; [done|]. unfold sent. rewrite Hin. tauto.
    + apply Hhv; [done|]. eapply (pair_same_holder _ _ _ _ _ _ _ _ [(g, r)] j); [exact H|by intros q|]. intros q Hq%Hin. tauto.
Qed.

Lemma receive_guard_ok p :
  (i, p) ∈ net w → From p = g → Kind p = packetGuard → world_ok k (update w i (receive_guard p (now w i) (nodes w i))).
Proof.
  intros Hp Hf Hk. pose proof world_nop as Hnop. destruct (wk_nodes _ _ Hw i Hi) as [[S1 S2 S3 S4] Hwr]. unfold receive_guard. rewrite Hf.
  set (l := nodes w i) in *. rewrite Forall_forall in S3.
  destruct (_ || _); [done|]. destruct (Timestamp p <=? _) eqn:Et; [done|]. apply Z.leb_gt in Et.
  assert (0 ≤ g < Z.of_nat (length (receivedGuardSequence l))) as Hl1 by (rewrite (S3 _); [lia|set_solver]).
  assert (0 ≤ g < Z.of_nat (length (guardExpires l))) as Hl2 by (rewrite (S3 _); [lia|set_solver]).
  apply world_answer.
  - split; [split; cbn; [done|done| |exact S4]|exact Hwr]. rewrite Forall_forall. intros m Hm. rewrite !length_put in Hm. by apply S3.
  - done.
  - by left.
  - done.
  - intros j T F B V Hj. unfold hview_of. cbn. rewrite seq_at_put, time_at_put by done. by case_decide.
  - intros H. replace (hview_of _ g) with (mkH (u_received (hview_of l g)) (Timestamp p) (Some (clock w + skew i + Duration p))
      (u_promise (hview_of l g)) (u_acks (hview_of l g)) (u_epoch (hview_of l g))).
    2: { unfold hview_of. cbn. rewrite seq_at_put, time_at_put by done. by rewrite !decide_True. }
    apply (pair_take_guard _ _ _ _ _ _ _ p); [exact H|by split|done|exact Et|done|done].
Qed.

(** Pruning what is remembered of acknowledgements. *)
Lemma remember_ack_spec ts t (acks : list (gmap Z Z)) j :
  0 ≤ g < Z.of_nat (length acks) →
  default ∅ (index (remember_ack g ts t acks) j) =
    if decide (j = g) then filter (λ kv : Z * Z, ¬ failureGrace + guardDuration + leaseDuration < t - kv.2)
                             (<[ts := t]> (default ∅ (index acks g)))
    else default ∅ (index acks j).
Proof. intros Hg'. unfold remember_ack. by apply acks_at_put. Qed.

Lemma length_remember_ack ts t acks : length (remember_ack g ts t acks) = length acks.
Proof. apply length_put. Qed.

Lemma recompute_read_fields t l :
  ∃ a b c, recomputeReadUntil t l = l <| readUntil := a |> <| catchup := b |> <| activationComplete := c |>.
Proof.
  unfold recomputeReadUntil. destruct (_ <? _); [exists None, (catchup l), (activationComplete l); by destruct l|].
  cbn. destruct (activationComplete l) eqn:E; cbn; repeat eexists; destruct l; cbn in *; subst; reflexivity.
Qed.

Lemma admissible_deadline p :
  (i, p) ∈ net w → From p = g → Kind p = packetLeasePromise → clock w < 2 ^ 62 → k < 2 ^ 63 →
  admissible p (now w i) (nodes w i) = true → ∃ d, deadline p (hview_of (nodes w i) g) = Some d ∧ clock w + skew i < d.
Proof.
  intros Hp Hf Hk Hc Hk63. pose proof (wk_pairs _ _ Hw g i Hg Hi Hne) as H.
  destruct (pk_promise _ _ _ _ _ _ _ H p (conj Hp Hf) Hk) as (_ & _ & Hor). unfold admissible, deadline. rewrite Hf. cbn.
  destruct (0 <? AckSequence p) eqn:E.
  - apply Z.ltb_lt in E. destruct (default ∅ _ !! AckSequence p) as [ack|]; [|done]. intros [He Hlt%Z.ltb_lt]%andb_prop.
    eexists. split; [reflexivity|]. rewrite i64_small in Hlt; [unfold now in Hlt; lia|].
    unfold guardDuration, Second, Millisecond in *. lia.
  - apply Z.ltb_ge in E. intros [[Hneg%Z.ltb_lt Heq%Z.eqb_eq]%andb_prop Hb]%andb_prop.
    pose proof (pk_guards _ _ _ _ _ _ _ H) as Hgs. cbn in Hgs. destruct (wk_nodes _ _ Hw g Hg) as [[_ _ _ Hcount] _]. specialize (Hcount i).
    rewrite wrapS_id in Heq; [|lia|cbn; lia]. rewrite bool_decide_true by lia.
    destruct (time_at (guardExpires (nodes w i)) g) as [x|]; [|done]. exists x. split; [done|]. cbn in Hb. unfold now in Hb. lia.
Qed.

Lemma lease_promise_ok p :
  (i, p) ∈ net w → From p = g → Kind p = packetLeasePromise → clock w < 2 ^ 62 → k < 2 ^ 63 →
  world_ok k (update w i (receive_promise p (now w i) (nodes w i))).
Proof.
  intros Hp Hf Hk Hc Hk63. pose proof (admissible_deadline p Hp Hf Hk Hc Hk63) as Hadm.
  pose proof (wk_nodes _ _ Hw i Hi) as [[S1 S2 S3 S4] Hwr]. unfold receive_promise. rewrite Hf.
  set (l := nodes w i) in *. pose proof S3 as S3'. rewrite Forall_forall in S3.
  destruct (Timestamp p <=? _) eqn:Et; [apply world_nop|]. apply Z.leb_gt in Et.
  destruct (admissible p (now w i) l); cbn [negb orb]; [|by apply world_touch; [done..|split; [by split|done]|done|done]].
  destruct (_ || _); [by apply world_touch; [done..|split; [by split|done]|done|done]|].
  destruct (LeaseEpoch p <? promisedTo l) eqn:Eold.
  { apply Z.ltb_lt in Eold. apply world_answer; [split; [by split|done]|done|by right|done|done|].
    intros H. eapply (pair_refuse_promise _ _ _ _ _ _ _ p); [exact H|by split|done|cbn; exact Eold|done|done]. }
  apply Z.ltb_ge in Eold. destruct (Hadm eq_refl) as (d & Hd & Hlt).
  set (l1 := if promisedTo l <? LeaseEpoch p then enter_epoch (LeaseEpoch p) l else l).
  assert (promisedTo l1 = LeaseEpoch p) as Hto.
  { unfold l1. destruct (promisedTo l <? LeaseEpoch p) eqn:E; [done|]. apply Z.ltb_ge in E. lia. }
  assert (∀ j T F B V, pair_ok (skew j) (skew i) T F B V (hview_of l j) → pair_ok (skew j) (skew i) T F B V (hview_of l1 j)) as Henter.
  { intros j T F B V H. unfold l1. destruct (_ <? _); [|done]. apply (pair_enter_epoch _ _ _ _ _ _ _ (LeaseEpoch p)) in H.
    unfold hview_of in *. cbn in *. by rewrite time_at_none. }
  assert (shape_ok k i l1 ∧ write_ok i l1 ∧ (∀ j, gview_of l1 j = gview_of l j) ∧ receivedSequence l1 = receivedSequence l ∧
    ackTimes l1 = ackTimes l ∧ receivedGuardSequence l1 = receivedGuardSequence l ∧ guardExpires l1 = guardExpires l)
    as (Hs1 & Hw1 & Hg1 & Hr1 & Ha1 & Hrg1 & Hge1).
  { unfold l1. destruct (_ <? _); [|split_and!; try done]. split_and!; try done. split; try done. cbn. by rewrite !length_fmap. }
  clearbody l1. pose proof (sk_lengths _ _ _ Hs1) as Hlen. rewrite Forall_forall in Hlen.
  assert (0 ≤ g < Z.of_nat (length (receivedSequence l1))) as Hl1 by (rewrite (Hlen _); [lia|set_solver]).
  assert (0 ≤ g < Z.of_nat (length (latestPromises l1))) as Hl2 by (rewrite (Hlen _); [lia|set_solver]).
  assert (0 ≤ g < Z.of_nat (length (ackTimes l1))) as Hl3 by (rewrite (Hlen _); [lia|set_solver]).
  set (l2 := l1 <| receivedSequence ::= _ |> <| latestPromises ::= _ |> <| frontiers ::= _ |> <| ackTimes ::= _ |>).
  destruct (recompute_read_fields (now w i) l2) as (a & b & c & ->). apply world_answer.
  - split; [split; cbn; [apply Hs1|apply Hs1| |apply Hs1]|exact Hw1]. rewrite Forall_forall. intros m Hm. 
    rewrite length_remember_ack, !length_put in Hm. by apply Hlen.
  - cbn. apply Hs1.
  - by right.
  - exact Hg1.
  - intros j T F B V Hj H. apply Henter in H. unfold hview_of in *. cbn. rewrite seq_at_put, time_at_put, remember_ack_spec by done.
    by rewrite !decide_False by done.
  - intros H. replace (hview_of _ g) with (mkH (Timestamp p) (u_guard (hview_of l g)) (u_guardExpires (hview_of l g))
      (Some (clock w + skew i + Duration p))
      (filter (λ kv : Z * Z, ¬ failureGrace + guardDuration + leaseDuration < now w i - kv.2)
         (<[Timestamp p := now w i]> (default ∅ (index (ackTimes l) g)))) (LeaseEpoch p)).
    2: { unfold hview_of. cbn. rewrite seq_at_put, time_at_put, remember_ack_spec by done. rewrite !decide_True by done.
         by rewrite Hto, Hrg1, Hge1, Ha1. }
    apply (pair_take_promise _ _ _ _ _ _ _ p _ _ d); [exact H|by split|done|exact Et|exact Hd|exact Hlt| |done|done].
    intros s x [Hx _]%map_lookup_filter_Some. apply lookup_insert_Some in Hx as [[<- <-]|[? ?]]; [by left|by right].
Qed.
End Holder.

(** *** Receiving as a grantor *)
Lemma world_nop_at k w i : world_ok k w → 0 ≤ i < n → world_ok k (update w i (nodes w i, [])).
Proof. intros Hw Hi. apply world_touch; try done. by apply (wk_nodes _ _ Hw). Qed.

Lemma receive_guardAck_ok k i h w p frontier :
  world_ok k w → 0 ≤ i < n → 0 ≤ h < n → h ≠ i → k + 1 < 2 ^ 63 → (i, p) ∈ net w → From p = h → Kind p = packetGuardAck →
  world_ok (k + 1) (update w i (receive_guardAck p (now w i) frontier (nodes w i))).
Proof.
  intros Hw Hi Hh Hne Hk Hp Hf Hkind. unfold receive_guardAck. rewrite Hf.
  destruct (_ || _) eqn:E; [apply (world_mono k); [lia|by apply world_nop_at]|].
  apply orb_false_iff in E as [[_ Hts%negb_false_iff%Z.eqb_eq]%orb_false_iff _].
  apply world_sendPromise; try done.
  - eexists _, _. split; [reflexivity|]. rewrite length_put. destruct (wk_nodes _ _ Hw i Hi) as [[_ _ Hl _] _].
    rewrite Forall_forall in Hl. apply Hl. set_solver.
  - cbn. pose proof (wk_pairs _ _ Hw i h Hi Hh (not_eq_sym Hne)) as H.
    pose proof (pk_guardAck _ _ _ _ _ _ _ H p (conj Hp Hf) Hkind) as Hack. cbn in Hack. lia.
Qed.

Lemma receive_reply_ok k i h w p :
  world_ok k w → 0 ≤ i < n → 0 ≤ h < n → h ≠ i → (i, p) ∈ net w → From p = h → Kind p = packetLeaseReply →
  world_ok k (update w i (receive_reply p (now w i) (nodes w i))).
Proof.
  intros Hw Hi Hh Hne Hp Hf Hk. pose proof (world_nop_at k w i Hw Hi) as Hnop.
  destruct (wk_nodes _ _ Hw i Hi) as [[S1 S2 S3 S4] Hwr]. unfold receive_reply. rewrite Hf. set (l := nodes w i) in *.
  destruct (_ || _) eqn:E; [done|].
  apply orb_false_iff in E as [[He%negb_false_iff%Z.eqb_eq Hts%negb_false_iff%Z.eqb_eq]%orb_false_iff Hb%negb_false_iff].
  destruct (time_at (latestReplies l) h) as [b|] eqn:Elr; [|done]. pose proof S3 as S3'. rewrite Forall_forall in S3.
  assert (0 ≤ h < Z.of_nat (length (ackSequence l))) as Hl1 by (rewrite (S3 _); [lia|set_solver]).
  assert (0 ≤ h < Z.of_nat (length (lastAckTime l))) as Hl2 by (rewrite (S3 _); [lia|set_solver]).
  assert (0 ≤ h < Z.of_nat (length (latestReplies l))) as Hl3 by (rewrite (S3 _); [lia|set_solver]).
  cbn -[recomputeWriteUntil]. rewrite Elr. cbn -[recomputeWriteUntil].
  set (l1 := if _ <? b then _ else _).
  assert (shape_ok k i l1 ∧ (∀ j, hview_of l1 j = hview_of l j) ∧ (∀ j, j ≠ h → gview_of l1 j = gview_of l j) ∧
    gview_of l1 h = mkG (seq_at (guardSequence l) h) (seq_at (sentSequence l) h) (Timestamp p) (Some (Z.min b (now w i + lease)))
      (Some (now w i)) (promisedBy l)) as (Hs1 & Hh1 & Hg1 & Hgh).
  { unfold l1. assert (∀ j, j ≠ h → seq_at (put h (Timestamp p) (ackSequence l)) j = seq_at (ackSequence l) j ∧
      time_at (put h (Some (now w i)) (lastAckTime l)) j = time_at (lastAckTime l) j ∧
      time_at (put h (Some (now w i + leaseDuration)) (latestReplies l)) j = time_at (latestReplies l) j) as Hj.
    { intros j Hj. rewrite seq_at_put, !time_at_put by done. by rewrite !decide_False. }
    destruct (now w i + leaseDuration <? b) eqn:El; [apply Z.ltb_lt in El|apply Z.ltb_ge in El]; split_and!; try done.
    - split; try done. cbn. by rewrite !length_put.
    - intros j Hne'. unfold gview_of. cbn. destruct (Hj j Hne') as (-> & -> & ->). done.
    - unfold gview_of. cbn. rewrite seq_at_put, !time_at_put by done. rewrite !decide_True by done. f_equal. f_equal. lia.
    - split; try done. cbn. by rewrite !length_put.
    - intros j Hne'. unfold gview_of. cbn. destruct (Hj j Hne') as (-> & -> & _). done.
    - unfold gview_of. cbn. rewrite seq_at_put, !time_at_put by done. rewrite !decide_True by done. rewrite Elr. f_equal. f_equal. lia. }
  clearbody l1. apply (world_update k); [done|lia|done|by apply node_recompute| |].
  { intros to q Hq. by apply not_elem_of_nil in Hq. }
  intros j Hj Hji sent. split.
  - eapply (pair_same_grantor _ _ _ _ _ _ _ _ [] j); [|by intros q|]; [|intros q Hq; by apply not_elem_of_nil in Hq].
    pose proof (wk_pairs _ _ Hw i j Hi Hj (not_eq_sym Hji)) as H. change (gview_of (recomputeWriteUntil (now w i) l1) j) with (gview_of l1 j).
    destruct (decide (j = h)) as [->|Hjh]; [|by rewrite Hg1].
    rewrite Hgh. apply (pair_acknowledged _ _ _ _ _ (gview_of l h) _ p b); [exact H|by split|done|done|done|done].
  - eapply (pair_same_holder _ _ _ _ _ _ _ _ [] j); [|by intros q|]; [|intros q Hq; by apply not_elem_of_nil in Hq].
    change (hview_of (recomputeWriteUntil (now w i) l1) j) with (hview_of l1 j). rewrite Hh1. by apply (wk_pairs _ _ Hw).
Qed.

Lemma receive_lease_ok k i w p frontier :
  world_ok k w → (i, p) ∈ net w → k + 1 < 2 ^ 63 → clock w < 2 ^ 62 →
  world_ok (k + 1) (let '(_, l, out) := receive p (now w i) frontier (nodes w i) in update w i (l, out)).
Proof.
  intros Hw Hp Hk Hc. destruct (wk_net _ _ Hw i p Hp) as (Hi & Hf & Hne).
  pose proof (world_mono k (k + 1) _ ltac:(lia) (world_nop_at k w i Hw Hi)) as Hnop.
  unfold receive. destruct (_ || _); [exact Hnop|].
  assert (∀ r, world_ok k (update w i r) → world_ok (k + 1) (update w i (r.1, r.2))) as Hmono.
  { intros [l o] H. by apply (world_mono k); [lia|]. }
  destruct (Kind p =? packetGuard) eqn:E1; [apply Z.eqb_eq in E1; apply Hmono; by apply (receive_guard_ok k i (From p) w)|].
  destruct (Kind p =? packetGuardAck) eqn:E2.
  { apply Z.eqb_eq in E2. cbn. pose proof (receive_guardAck_ok k i (From p) w p frontier) as H.
    destruct (receive_guardAck p (now w i) frontier (nodes w i)). by apply H. }
  destruct (Kind p =? packetLeasePromise) eqn:E3; [apply Z.eqb_eq in E3; apply Hmono; apply (lease_promise_ok k i (From p) w); try done; lia|].
  destruct (Kind p =? packetLeaseReply) eqn:E4; [apply Z.eqb_eq in E4; apply Hmono; by apply (receive_reply_ok k i (From p) w)|].
  exact Hnop.
Qed.

(** *** Changing the epoch, and time *)
Lemma switch_ok k w i epoch :
  world_ok k w → 0 ≤ i < n → canWriteOutside (now w i) (nodes w i) = true →
  world_ok k (update w i (switchEpoch epoch (now w i) (nodes w i), [])).
Proof.
  intros Hw Hi Hcan. destruct (wk_nodes _ _ Hw i Hi) as [[S1 S2 S3 S4] Hwr]. apply (world_update k); [done|lia|done| | |].
  - split; [split; cbn; [done|done|by rewrite !length_fmap|exact S4]|]. intros h b Hh Hhi. cbn. by rewrite time_at_none.
  - intros to q Hq. by apply not_elem_of_nil in Hq.
  - intros j Hj Hji sent. split.
    + eapply (pair_same_grantor _ _ _ _ _ _ _ _ [] j); [|by intros q|intros q Hq; by apply not_elem_of_nil in Hq].
      pose proof (wk_pairs _ _ Hw i j Hi Hj (not_eq_sym Hji)) as H. apply (pair_switch _ _ _ _ _ _ _ epoch) in H.
      * unfold gview_of in *. cbn in *. by rewrite seq_at_zero, time_at_none.
      * intros b Hb. destruct (Hwr j b Hj Hji Hb) as (u & Hu & Hle). unfold canWriteOutside in Hcan. rewrite Hu in Hcan. cbn in Hcan.
        apply negb_true_iff, Z.ltb_ge in Hcan. unfold now in Hcan. lia.
    + eapply (pair_same_holder _ _ _ _ _ _ _ _ [] j); [|by intros q|intros q Hq; by apply not_elem_of_nil in Hq].
      by apply (wk_pairs _ _ Hw).
Qed.

Definition duration (s : step) : Z := match s with Advance d => Z.of_N d | _ => 0 end.
Definition total (ss : list step) : Z := foldr (λ s t, duration s + t) 0 ss.

Lemma lease_exec_ok k w s :
  world_ok k w → 1 ≤ n → k + n < 2 ^ 63 → clock w < 2 ^ 62 → world_ok (k + n) (exec s w) ∧ clock (exec s w) = clock w + duration s.
Proof.
  intros Hw Hn Hk Hc. assert (world_ok (k + n) w) as Hw' by (apply (world_mono k); [lia|done]). destruct s as [d|i alive f|m f|i epoch]; cbn.
  - split; [|done]. destruct Hw' as [K1 K2 K3]. split; try done. cbn. intros g h Hg Hh Hgh. apply (pair_advance _ _ (clock w)); [lia|auto].
  - unfold is_replica. destruct ((0 <=? i) && (i <? n)) eqn:E; [|split; [done|lia]]. split; [apply lease_tick_ok; [done|lia|done]|cbn; lia].
  - destruct (net w !! m) as [[i p]|] eqn:E; [|split; [done|lia]]. apply list_elem_of_lookup_2 in E.
    pose proof (receive_lease_ok k i w p f Hw E ltac:(lia) Hc) as H. destruct (receive p (now w i) f (nodes w i)) as [[? l] out].
    split; [by apply (world_mono (k + 1)); [lia|]|cbn; lia].
  - destruct (is_replica i && _) eqn:E; [|split; [done|lia]]. apply andb_prop in E as [Hi Hcan]. unfold is_replica in Hi.
    split; [|cbn; lia]. apply (world_mono k); [lia|]. apply switch_ok; [done|lia|done].
Qed.

Lemma lease_start_ok : 1 ≤ n → world_ok 0 start.
Proof.
  intros Hn. assert (∀ (x : Z) j, x = 0 → seq_at (replicate (Z.to_nat n) x) j = 0) as Hz.
  { intros x j ->. unfold seq_at. rewrite index_replicate. by case_bool_decide. }
  assert (∀ j, time_at (replicate (Z.to_nat n) None) j = None) as Ht.
  { intros j. unfold time_at. rewrite index_replicate. by case_bool_decide. }
  split; cbn.
  - intros i Hi. split; [split; cbn; [done|done|rewrite !length_replicate; by repeat constructor|]|].
    + intros h. rewrite !Hz by done. lia.
    + intros h b _ _. cbn. by rewrite Ht.
  - intros to p Hp. by apply not_elem_of_nil in Hp.
  - intros g h Hg Hh Hgh. assert (∀ a b p, ¬ chan [] a b p) as Hnone by (intros a b p [Hp _]; by apply not_elem_of_nil in Hp).
    assert (∀ g j, u_acks (hview_of (newLeaseState n g) j) = ∅) as Ha.
    { intros a j. cbn. rewrite index_replicate. by case_bool_decide. }
    split; try (intros; exfalso; match goal with H : chan [] _ _ _ |- _ => by apply (Hnone _ _ _ H) end); try (cbn; rewrite ?Hz, ?Ht by done; lia || done).
    intros s b. rewrite Ha. done.
Qed.

Lemma lease_run_ok ss : ∀ k w,
  world_ok k w → 1 ≤ n → 0 ≤ k → k + n * Z.of_nat (length ss) < 2 ^ 63 → 0 ≤ clock w → clock w + total ss < 2 ^ 62 →
  world_ok (k + n * Z.of_nat (length ss)) (run ss w).
Proof.
  induction ss as [|s ss IH]; intros k w Hw Hn Hk Hb Hc Ht; cbn [run foldl length]; [by rewrite Z.mul_0_r, Z.add_0_r|].
  cbn [length total foldr] in *. fold (total ss) in Ht.
  assert (0 ≤ duration s) by (destruct s; cbn; lia).
  assert (0 ≤ total ss). { clear. induction ss as [|s ss IH]; cbn; [lia|]. fold (total ss). destruct s; cbn; lia. }
  destruct (lease_exec_ok k w s Hw Hn) as [Hok Hclock]; [nia|lia|].
  replace (k + n * Z.of_nat (S (length ss))) with (k + n + n * Z.of_nat (length ss)) by lia.
  apply IH; [done|done|lia|lia|lia|lia].
Qed.

(** ** Reading under the leases *)
#[local] Instance later_le_trans l : Transitive (later_le l).
Proof.
  intros a b c. unfold later_le, later.
  destruct (time_at _ a) as [x|], (time_at _ b) as [y|], (time_at _ c) as [z|]; try done; try lia;
  repeat match goal with |- context [?p =? ?q] => destruct (Z.eqb_spec p q) end; lia.
Qed.
#[local] Instance later_le_total l : Total (later_le l).
Proof.
  intros a b. unfold later_le, later.
  destruct (time_at _ a) as [x|], (time_at _ b) as [y|]; try (by left); try (by right); try lia;
  repeat match goal with |- context [?p =? ?q] => destruct (Z.eqb_spec p q) end; lia.
Qed.

(** Half of the others have promised until at least [readUntil]. *)
Definition read_ok (i : Z) (l : leaseState) : Prop :=
  ∀ r, readUntil l = Some r → ∃ Q, NoDup Q ∧ Z.of_nat (length Q) = Z.quot n 2 ∧
    ∀ g, g ∈ Q → 0 ≤ g < n ∧ g ≠ i ∧ ∃ x, time_at (latestPromises l) g = Some x ∧ r ≤ x.

Lemma recompute_read_ok t i l : 2 ≤ n → ln l = n → lid l = i → read_ok i (recomputeReadUntil t l).
Proof.
  intros Hn Hln Hid r. assert (latestPromises (recomputeReadUntil t l) = latestPromises l) as ->.
  { by destruct (recompute_read_fields t l) as (a & b & c & ->). }
  unfold recomputeReadUntil. rewrite Hln. destruct (_ <? Z.quot n 2) eqn:Eh; [done|]. apply Z.ltb_ge in Eh.
  set (ids := live_promises t l) in *. set (sorted := merge_sort (later_le l) ids).
  assert (sorted ≡ₚ ids) as Hperm by apply merge_sort_Permutation.
  assert (1 ≤ Z.quot n 2) as Hhalf by (apply (Z.quot_le_lower_bound n 2 1); lia).
  assert (StronglySorted (later_le l) sorted) as Hsorted by (apply StronglySorted_merge_sort; apply _).
  assert (Z.quot n 2 ≤ Z.of_nat (length sorted)) as Hlen by (by rewrite Hperm).
  set (m := Z.to_nat (Z.quot n 2 - 1)).
  destruct (lookup_lt_is_Some_2 sorted m) as [last Hlast]; [lia|].
  assert (index sorted (Z.quot n 2 - 1) = Some last) as Hix by (rewrite index_nonneg by lia; exact Hlast).
  intros Hr. assert (time_at (latestPromises l) last = Some r) as Hlastr.
  { cbn in Hr. destruct (activationComplete l); cbn in Hr; by rewrite Hix in Hr. }
  exists (take (S m) sorted). split_and!.
  - assert (NoDup sorted) as Hnd by (rewrite Hperm; apply NoDup_filter, NoDup_rangeZ).
    rewrite <- (take_drop (S m) sorted) in Hnd. by apply NoDup_app in Hnd as [? _].
  - rewrite length_take. lia.
  - intros g Hg. assert (g ∈ ids) as Hgi.
    { rewrite <- Hperm. apply (subseteq_take (S m)). exact Hg. }
    unfold ids, live_promises in Hgi. apply list_elem_of_filter in Hgi as [[Hgid Hb] Hr2]. apply elem_of_rangeZ in Hr2.
    split; [lia|]. split; [congruence|].
    destruct (time_at (latestPromises l) g) as [x|] eqn:Ex; [|done]. exists x. split; [done|].
    rewrite (take_S_r _ _ last) in Hg by exact Hlast. apply elem_of_app in Hg as [Hg|Hg].
    + rewrite <- (take_drop m sorted) in Hsorted. rewrite (drop_S _ _ _ Hlast) in Hsorted.
      pose proof (StronglySorted_app_1_elem_of (later_le l) _ _ g last Hsorted Hg ltac:(left)) as Hle.
      unfold later_le, later in Hle. rewrite Hlastr, Ex in Hle. destruct (Z.eqb_spec r x); lia.
    + apply list_elem_of_singleton in Hg as ->. rewrite Hlastr in Ex. injection Ex as ->. lia.
Qed.

(** The steps keep [read_ok]: only an accepted promise changes what it is about. *)
Lemma read_ok_same i l l' : latestPromises l' = latestPromises l → readUntil l' = readUntil l → read_ok i l → read_ok i l'.
Proof. intros E1 E2 H r. rewrite E1, E2. apply H. Qed.

Lemma tick_peer_read t alive f st peer :
  latestPromises (tick_peer t alive f st peer).1 = latestPromises st.1 ∧ readUntil (tick_peer t alive f st peer).1 = readUntil st.1.
Proof. destruct st as [l out]. unfold tick_peer. destruct (_ || _); [done|]. by destruct (_ && _). Qed.

Lemma tick_read i t alive f l : read_ok i l → read_ok i (tick t alive f l).1.
Proof.
  unfold tick. destruct (_ && _); [done|]. intros H.
  assert (∀ ids st, latestPromises (foldl (tick_peer t alive f) st ids).1 = latestPromises st.1 ∧
    readUntil (foldl (tick_peer t alive f) st ids).1 = readUntil st.1) as Hloop.
  { induction ids as [|a ids IH]; intros st; [done|]. cbn [foldl]. destruct (IH (tick_peer t alive f st a)) as [-> ->]. apply tick_peer_read. }
  specialize (Hloop (rangeZ 0 (ln l - 1)) (l, [])). destruct (foldl _ _ _) as [l' out]. destruct Hloop as [E1 E2].
  by apply (read_ok_same i l).
Qed.

Lemma receive_read i p t f l : 2 ≤ n → ln l = n → lid l = i → read_ok i l → read_ok i (receive p t f l).1.2.
Proof.
  intros Hn Hln Hid H. unfold receive. destruct (_ || _); [done|].
  repeat case_match; cbn; try done.
  - unfold receive_guard. by repeat case_match.
  - unfold receive_guardAck. by repeat case_match.
  - unfold receive_promise. destruct (_ <=? _); [done|]. destruct (_ || _ || _); [done|]. destruct (_ <? _); [done|].
    set (l1 := if promisedTo l <? LeaseEpoch p then _ else _).
    assert (ln l1 = n ∧ lid l1 = i) as [El1 El2] by (unfold l1; by destruct (_ <? _)). clearbody l1.
    set (l2 := l1 <| receivedSequence ::= _ |> <| latestPromises ::= _ |> <| frontiers ::= _ |> <| ackTimes ::= _ |>).
    apply (read_ok_same i (recomputeReadUntil t l2)); [reflexivity|reflexivity|]. by apply recompute_read_ok.
  - unfold receive_reply. destruct (_ || _); [done|]. by destruct (before _ _).
Qed.

Lemma exec_read k w s :
  world_ok k w → 2 ≤ n → (∀ i, 0 ≤ i < n → read_ok i (nodes w i)) → ∀ i, 0 ≤ i < n → read_ok i (nodes (exec s w) i).
Proof.
  intros Hw Hn H i Hi. assert (∀ j r, (j = i → read_ok i r.1) → read_ok i (nodes (update w j r) i)) as Hup.
  { intros j r Hr. cbn. destruct (decide (j = i)) as [->|Hj]; [rewrite fn_lookup_insert; by apply Hr|rewrite fn_lookup_insert_ne by done; auto]. }
  destruct s as [d|j alive f|m f|j epoch]; cbn [exec].
  - by apply H.
  - destruct (is_replica j); [|auto]. apply Hup. intros ->. by apply tick_read, H.
  - destruct (net w !! m) as [[j p]|] eqn:E; [|auto]. destruct (receive p (now w j) f (nodes w j)) as [[b l] out] eqn:Er. apply Hup.
    intros ->. destruct (wk_nodes _ _ Hw i Hi) as [[Hl Hid _ _] _].
    pose proof (receive_read i p (now w i) f (nodes w i) Hn Hl Hid (H i Hi)) as Hr. by rewrite Er in Hr.
  - destruct (_ && _); [|auto]. apply Hup. intros ->. by apply (read_ok_same i (nodes w i)), H.
Qed.

Lemma run_reads ss : ∀ k w,
  world_ok k w → 2 ≤ n → 0 ≤ k → k + n * Z.of_nat (length ss) < 2 ^ 63 → 0 ≤ clock w → clock w + total ss < 2 ^ 62 →
  (∀ i, 0 ≤ i < n → read_ok i (nodes w i)) → ∀ i, 0 ≤ i < n → read_ok i (nodes (run ss w) i).
Proof.
  induction ss as [|s ss IH]; intros k w Hw Hn Hk Hb Hc Ht H; cbn [run foldl length]; [done|].
  cbn [length total foldr] in *. fold (total ss) in Ht.
  assert (0 ≤ duration s) by (destruct s; cbn; lia).
  assert (0 ≤ total ss). { clear. induction ss as [|s ss IH]; cbn; [lia|]. fold (total ss). destruct s; cbn; lia. }
  destruct (lease_exec_ok k w s Hw) as [Hok Hclock]; [lia|nia|lia|].
  apply (IH (k + n)); [done|done|lia|lia|lia|lia|]. by eapply exec_read.
Qed.

(** C14.  The leases exclude writes.  Take any run of [n] replicas whose clocks
    have arbitrary skews but run at one rate, over a network that delays,
    repeats, reorders and loses packets.  Whenever a replica may read under its
    leases, half of the others hold promises to it that have not run out on
    their clocks either: they are in the replica's epoch, and none of them
    accepts a write of another epoch. *)
Theorem lease_exclusion ss h executed :
  2 ≤ n → n * Z.of_nat (length ss) < 2 ^ 63 → total ss < 2 ^ 62 → 0 ≤ h < n →
  canRead (now (run ss start) h) executed (nodes (run ss start) h) = true →
  ∃ Q, NoDup Q ∧ Z.of_nat (length Q) = Z.quot n 2 ∧
    ∀ g, g ∈ Q → 0 ≤ g < n ∧ g ≠ h ∧
      promisedBy (nodes (run ss start) g) = promisedTo (nodes (run ss start) h) ∧
      canWriteOutside (now (run ss start) g) (nodes (run ss start) g) = false.
Proof.
  intros Hn Hl Ht Hh Hread. assert (world_ok (n * Z.of_nat (length ss)) (run ss start)) as Hw.
  { apply (lease_run_ok ss 0 start); [apply lease_start_ok; lia|lia|lia|lia|done|done]. }
  assert (read_ok h (nodes (run ss start) h)) as Hr.
  { apply (run_reads ss 0 start); [apply lease_start_ok; lia|lia|lia|lia|done|done| |done]. by intros i Hi r. }
  set (w := run ss start) in *. unfold canRead in Hread. apply andb_prop in Hread as [[_ Hb]%andb_prop _].
  destruct (readUntil (nodes w h)) as [r|] eqn:Er; [|done]. cbn in Hb. destruct (Hr r Er) as (Q & Hnd & Hlen & HQ).
  exists Q. split; [done|]. split; [done|]. intros g Hg. destruct (HQ g Hg) as (Hgn & Hgh & x & Hx & Hle).
  split; [done|]. split; [done|].
  destruct (pair_held _ _ _ _ _ _ _ x (wk_pairs _ _ Hw g h Hgn Hh Hgh)) as (b & Hbound & Hlt & He); [done|unfold now in Hb; lia|].
  split; [done|]. destruct (wk_nodes _ _ Hw g Hgn) as [_ Hwr]. destruct (Hwr h b Hh (not_eq_sym Hgh) Hbound) as (u & Hu & Hbu).
  unfold canWriteOutside, before. rewrite Hu. unfold now. apply negb_false_iff, Z.ltb_lt. lia.
Qed.
End System.

(** A grant and a read: the guard, its acknowledgement and the promise take 1.5
    seconds; the holder's clock is an hour ahead. *)
Definition demo_skew (i : Z) : Z := if i =? 1 then 3600 * Second else 0.
Definition demo_steps : list step := [
  Timer 0 [true; true; true] 5; Advance 500000000; Deliver 0 0; Advance 500000000; Deliver 2 5; Advance 500000000; Deliver 3 0].

Lemma lease_exclusion_witness :
  canRead (now demo_skew (run 3 demo_skew demo_steps (start 3)) 1) 5 (nodes (run 3 demo_skew demo_steps (start 3)) 1) = true ∧
  ∃ Q, NoDup Q ∧ Z.of_nat (length Q) = Z.quot 3 2 ∧
    ∀ g, g ∈ Q → 0 ≤ g < 3 ∧ g ≠ 1 ∧
      promisedBy (nodes (run 3 demo_skew demo_steps (start 3)) g) = promisedTo (nodes (run 3 demo_skew demo_steps (start 3)) 1) ∧
      canWriteOutside (now demo_skew (run 3 demo_skew demo_steps (start 3)) g) (nodes (run 3 demo_skew demo_steps (start 3)) g) = false.
Proof.
  assert (canRead (now demo_skew (run 3 demo_skew demo_steps (start 3)) 1) 5 (nodes (run 3 demo_skew demo_steps (start 3)) 1) = true) as H.
  { vm_compute. reflexivity. }
  split; [exact H|]. apply (lease_exclusion 3 demo_skew demo_steps 1 5); [lia|vm_compute; reflexivity|vm_compute; reflexivity|lia|exact H].
Defined.
End PqlLeaseSafety.
