(* ===== verification/PqlLeaseLive.v ===== *)
(** * PqlLeaseLive: the leases of PQL are established

    In every reachable system of lease states, a grantor whose timer is due and
    that owes a holder nothing grants it a lease in one exchange of guard,
    acknowledgement and promise, if the last two together take less than the
    guard's duration ([lease_established]). *)
From stdpp Require Import gmap strings list fin_maps functions sorting.
From Stdlib Require Import Lia.
From S2P Require Import Prelude State Defs Pql PqlLease PqlLeasePair PqlLeaseSafety.

Module PqlLeaseLive.
Import Pql PqlLease PqlLeasePair PqlLeaseSafety.
Section Live.
Context (n : Z) (skew : Z → Z).

(** What [tick] does to one peer is what [tick_peer] does to it. *)
Definition about (h : Z) (l : leaseState) : gview * Time := (gview_of l h, time_at (lastGuard l) h).

Lemma tick_peer_other t alive f l out h peer :
  lengths_ok n l → 0 ≤ peer < n → peer ≠ h →
  about h (tick_peer t alive f (l, out) peer).1 = about h l ∧ (∃ o, (tick_peer t alive f (l, out) peer).2 = out ++ o).
Proof.
  intros Hl Hp Hne. rewrite Forall_forall in Hl.
  assert (∀ m, m ∈ [length (guardSequence l); length (sentSequence l); length (latestReplies l); length (lastGuard l)] →
    0 ≤ peer < Z.of_nat m) as Hlen.
  { intros m Hm. rewrite (Hl m); [lia|]. set_solver. }
  unfold tick_peer. destruct (_ || _); [split; [done|exists []; by rewrite app_nil_r]|].
  destruct (_ && _); (split; [|by eexists]).
  - unfold about, gview_of. cbn. rewrite seq_at_put, time_at_put by (apply Hlen; set_solver). by rewrite !decide_False.
  - unfold about, gview_of. cbn. rewrite seq_at_put, time_at_put by (apply Hlen; set_solver). by rewrite !decide_False.
Qed.

Lemma tick_peer_keeps t alive f l out peer :
  let l' := (tick_peer t alive f (l, out) peer).1 in
  (lengths_ok n l → lengths_ok n l') ∧ lid l' = lid l ∧ ln l' = ln l ∧ ∀ g, hview_of l' g = hview_of l g.
Proof.
  unfold tick_peer. destruct (_ || _); [done|]. destruct (_ && _); split_and!; try done; cbn; by rewrite !length_put.
Qed.

(** The guard of a peer that is owed nothing. *)
Definition guard_for (l : leaseState) (h : Z) : Packet :=
  packet packetGuard (lid l) 0 <| LeaseEpoch := promisedBy l |> <| Timestamp := seq_at (guardSequence l) h + 1 |>
    <| Duration := guardDuration |>.

Definition owes_nothing (t : Z) (l : leaseState) (h : Z) : Prop :=
  seq_at (ackSequence l) h = 0 ∨ before t (time_at (latestReplies l) h) = false.

Lemma tick_peer_guard t alive f l out h :
  lengths_ok n l → 0 ≤ h < n → h ≠ lid l → index alive h = Some true → owes_nothing t l h →
  0 ≤ seq_at (guardSequence l) h < 2 ^ 62 →
  (tick_peer t alive f (l, out) h).2 = out ++ [(h, guard_for l h)] ∧
  about h (tick_peer t alive f (l, out) h).1 = (guard_sent (gview_of l h), Some t).
Proof.
  intros Hl Hh Hne Ha Ho Hb. rewrite Forall_forall in Hl.
  assert (∀ m, m ∈ [length (guardSequence l); length (lastGuard l)] → 0 ≤ h < Z.of_nat m) as Hlen.
  { intros m Hm. rewrite (Hl m); [lia|]. set_solver. }
  unfold tick_peer. rewrite (proj2 (Z.eqb_neq _ _) Hne), Ha. cbn [orb negb default from_option].
  replace ((0 <? seq_at (ackSequence l) h) && before t (time_at (latestReplies l) h)) with false.
  2: { symmetry. apply andb_false_iff. destruct Ho as [->|?]; [by left|by right]. }
  assert (i64 (seq_at (guardSequence l) h + 1) = seq_at (guardSequence l) h + 1) as Hi by (apply i64_small; lia).
  cbn. rewrite Hi, seq_at_put by (apply Hlen; set_solver). rewrite decide_True by done. split; [done|].
  unfold about, gview_of, guard_sent. cbn. rewrite seq_at_put, time_at_put by (apply Hlen; set_solver).
  rewrite !decide_True by done. by rewrite ?Hi.
Qed.

Lemma tick_guards t alive f l h :
  lengths_ok n l → ln l = n → 0 ≤ h < n → h ≠ lid l → index alive h = Some true → owes_nothing t l h →
  0 ≤ seq_at (guardSequence l) h < 2 ^ 62 → started l && before t (renewAt l) = false →
  (h, guard_for l h) ∈ (tick t alive f l).2 ∧ about h (tick t alive f l).1 = (guard_sent (gview_of l h), Some t).
Proof.
  intros Hl Hn Hh Hne Ha Ho Hb Hdue. unfold tick. rewrite Hdue, Hn.
  assert (∀ ids l0 out, lengths_ok n l0 → h ∉ ids → (∀ j, j ∈ ids → 0 ≤ j < n) →
    let r := foldl (tick_peer t alive f) (l0, out) ids in
    about h r.1 = about h l0 ∧ lengths_ok n r.1 ∧ lid r.1 = lid l0 ∧ ∃ o, r.2 = out ++ o) as Hothers.
  { induction ids as [|a ids IH]; intros l0 out Hl0 Hin Hids; cbn [foldl]; [split_and!; try done; exists []; by rewrite app_nil_r|].
    apply not_elem_of_cons in Hin as [Hah Hin].
    destruct (tick_peer_other t alive f l0 out h a Hl0 (Hids a ltac:(left)) (not_eq_sym Hah)) as [E1 [o Eo]].
    destruct (tick_peer_keeps t alive f l0 out a) as (E2 & E3 & _).
    destruct (tick_peer t alive f (l0, out) a) as [l1 out1]. cbn in *. subst out1.
    destruct (IH l1 (out ++ o) (E2 Hl0) Hin) as (F1 & F2 & F3 & [o' Fo]); [intros j Hj; apply Hids; by right|].
    cbn in *. split_and!; [congruence|done|congruence|]. exists (o ++ o'). by rewrite Fo, app_assoc. }
  assert (rangeZ 0 (n - 1) = rangeZ 0 (h - 1) ++ h :: rangeZ (h + 1) (n - 1)) as ->.
  { rewrite <- rangeZ_cons by lia. unfold rangeZ. replace (h - 1 - 0 + 1) with h by lia. replace (n - 1 - h + 1) with (n - h) by lia.
    replace (n - 1 - 0 + 1) with (h + (n - h)) by lia. by rewrite seqZ_app by lia. }
  rewrite foldl_app. cbn [foldl].
  destruct (Hothers (rangeZ 0 (h - 1)) l [] Hl) as (E1 & E2 & E3 & _); [rewrite elem_of_rangeZ; lia|intros j; rewrite elem_of_rangeZ; lia|].
  destruct (foldl _ (l, []) _) as [l1 out1]. cbn in E1, E2, E3. unfold about in E1. injection E1 as Eg1 Eg2 Eg3 Eg4 Eg5 Eg6 Eg7.
  destruct (tick_peer_guard t alive f l1 out1 h) as [F1 F2]; [done|done|congruence|done| |congruence|].
  { unfold owes_nothing. by rewrite Eg3, Eg4. }
  destruct (tick_peer_keeps t alive f l1 out1 h) as (F3 & _).
  destruct (tick_peer t alive f (l1, out1) h) as [l2 out2]. cbn in F1, F2, F3. subst out2.
  destruct (Hothers (rangeZ (h + 1) (n - 1)) l2 (out1 ++ [(h, guard_for l1 h)]) (F3 E2)) as (G1 & _ & _ & [o Go]);
    [rewrite elem_of_rangeZ; lia|intros j; rewrite elem_of_rangeZ; lia|].
  destruct (foldl _ (l2, _) _) as [l3 out3]. cbn in G1, Go |- *. split.
  - rewrite Go. apply elem_of_app. left. apply elem_of_app. right. apply list_elem_of_singleton. unfold guard_for. by rewrite E3, Eg1, Eg6.
  - change (about h l3 = (guard_sent (gview_of l h), Some t)). rewrite G1, F2. unfold gview_of. by rewrite Eg1, Eg2, Eg3, Eg4, Eg5, Eg6.
Qed.
(** *** The deliveries *)
Definition taken_guard (t g : Z) (p : Packet) (l : leaseState) : leaseState :=
  l <| receivedGuardSequence ::= put g (Timestamp p) |> <| guardExpires ::= put g (Some (t + Duration p)) |>.
Definition ack_of (p : Packet) (h : Z) : Packet :=
  packet packetGuardAck h 0 <| LeaseEpoch := LeaseEpoch p |> <| Timestamp := Timestamp p |>.

Lemma exec_deliver w k i p f :
  net w !! k = Some (i, p) → exec n skew (Deliver k f) w = update w i ((receive p (now skew w i) f (nodes w i)).1.2, (receive p (now skew w i) f (nodes w i)).2).
Proof. intros H. cbn. rewrite H. by destruct (receive p _ f _) as [[? ?] ?]. Qed.

Lemma peer_known l p g : ln l = n → 0 ≤ g < n → From p = g → lid l ≠ g → (From p <? 0) || (ln l <=? From p) || (From p =? lid l) = false.
Proof. intros -> Hg -> Hne. lia. Qed.

Lemma receive_new_guard p t f l g :
  ln l = n → 0 ≤ g < n → From p = g → lid l ≠ g → Kind p = packetGuard → Duration p = guardDuration →
  seq_at (receivedGuardSequence l) g < Timestamp p →
  receive p t f l = (true, taken_guard t g p l, [(g, ack_of p (lid l))]).
Proof.
  intros Hn Hg Hf Hne Hk Hd Ht. unfold receive. rewrite (peer_known l p g) by done. rewrite Hk. cbn [Z.eqb packetGuard].
  change (9 =? 9) with true. cbn. unfold receive_guard. rewrite Hd, Hf. cbn [orb]. destruct (guardDuration <=? 0) eqn:E1; [done|].
  destruct (30 * Second <? guardDuration) eqn:E2; [done|]. cbn [orb]. rewrite (proj2 (Z.leb_gt _ _) Ht). unfold taken_guard, ack_of. by rewrite Hd.
Qed.

Lemma receive_new_ack p t f l h :
  ln l = n → 0 ≤ h < n → From p = h → lid l ≠ h → Kind p = packetGuardAck → LeaseEpoch p = promisedBy l →
  Timestamp p = seq_at (guardSequence l) h → time_at (lastGuard l) h ≠ None →
  receive p t f l = (true, (sendPromise t h f true (l <| lastGuard ::= put h None |> <| lastResponse ::= put h (Some t) |>)).1,
    (sendPromise t h f true (l <| lastGuard ::= put h None |> <| lastResponse ::= put h (Some t) |>)).2).
Proof.
  intros Hn Hg Hf Hne Hk He Ht Hl. unfold receive. rewrite (peer_known l p h) by done. rewrite Hk.
  change (packetGuardAck =? packetGuard) with false. change (packetGuardAck =? packetGuardAck) with true. cbv iota beta.
  unfold receive_guardAck. rewrite Hf, He, Ht, !Z.eqb_refl. by rewrite bool_decide_eq_false_2.
Qed.

Lemma receive_new_promise p t f l g :
  lengths_ok n l → ln l = n → 0 ≤ g < n → From p = g → lid l ≠ g → Kind p = packetLeasePromise → Duration p = leaseDuration →
  seq_at (receivedSequence l) g < Timestamp p → admissible p t l = true → promisedTo l ≤ LeaseEpoch p →
  let r := receive p t f l in
  time_at (latestPromises r.1.2) g = Some (t + leaseDuration) ∧ promisedTo r.1.2 = LeaseEpoch p.
Proof.
  intros Hl Hn Hg Hf Hne Hk Hd Ht Ha He. unfold receive. rewrite (peer_known l p g) by done. rewrite Hk.
  change (packetLeasePromise =? packetGuard) with false. change (packetLeasePromise =? packetGuardAck) with false.
  change (packetLeasePromise =? packetLeasePromise) with true. cbv iota beta. cbn [fst snd].
  unfold receive_promise. rewrite Hf, (proj2 (Z.leb_gt _ _) Ht), Ha, Hd.
  change (negb true || (leaseDuration <=? 0) || (30 * Second <? leaseDuration)) with false. cbv iota.
  rewrite (proj2 (Z.ltb_ge _ _) He). cbn [fst snd].
  set (l1 := if promisedTo l <? LeaseEpoch p then enter_epoch (LeaseEpoch p) l else l).
  assert (length (latestPromises l1) = Z.to_nat n ∧ promisedTo l1 = LeaseEpoch p) as [Hlen Hto].
  { rewrite Forall_forall in Hl. unfold l1. destruct (_ <? _) eqn:E; cbn; [rewrite length_fmap|]; (split; [apply Hl; set_solver|]); [done|lia]. }
  match goal with |- context [recomputeReadUntil t ?x] => destruct (recompute_read_fields t x) as (u & v & c & ->) end.
  cbn. split; [|done]. rewrite time_at_put by (rewrite Hlen; lia). by rewrite decide_True.
Qed.

(** The promise that answers an acknowledgement. *)
Lemma guarded_promise t h f l :
  lengths_ok n l → 0 ≤ h < n → 0 ≤ seq_at (sentSequence l) h < 2 ^ 62 → 0 ≤ seq_at (guardSequence l) h < 2 ^ 62 →
  ∃ l' p, sendPromise t h f true (l <| lastGuard ::= put h None |> <| lastResponse ::= put h (Some t) |>) = (l', [(h, p)]) ∧
    promisedBy l' = promisedBy l ∧ Kind p = packetLeasePromise ∧ From p = lid l ∧ LeaseEpoch p = promisedBy l ∧
    Timestamp p = seq_at (sentSequence l) h + 1 ∧ Duration p = leaseDuration ∧ AckSequence p = - seq_at (guardSequence l) h.
Proof.
  intros Hl Hh Hs Hg. rewrite Forall_forall in Hl. assert (0 ≤ h < Z.of_nat (length (sentSequence l))) as Hlen.
  { rewrite (Hl (length (sentSequence l))); [lia|set_solver]. }
  unfold sendPromise. do 2 eexists. split; [reflexivity|]. cbn. rewrite seq_at_put, decide_True by done.
  rewrite i64_small by lia. split_and!; try done. apply wrapS_id; lia.
Qed.

Lemma taken_lengths t g p l : lengths_ok n l → lengths_ok n (taken_guard t g p l).
Proof. intros Hl. cbn. by rewrite !length_put. Qed.

(** The holder admits it while the guard runs. *)
Lemma guarded_admissible t t' g p q l :
  lengths_ok n l → 0 ≤ g < n → From q = g → 0 < Timestamp p < 2 ^ 62 → AckSequence q = - Timestamp p →
  t' < t + Duration p → admissible q t' (taken_guard t g p l) = true.
Proof.
  intros Hl Hg Hf Hp Hq Ht. rewrite Forall_forall in Hl.
  assert (∀ m, m ∈ [length (receivedGuardSequence l); length (guardExpires l)] → 0 ≤ g < Z.of_nat m) as Hlen.
  { intros m Hm. rewrite (Hl m); [lia|set_solver]. }
  unfold admissible. rewrite Hf, Hq. destruct (0 <? - Timestamp p) eqn:E; [lia|]. cbn.
  rewrite seq_at_put, time_at_put by (apply Hlen; set_solver). rewrite !decide_True by done. rewrite wrapS_id by lia.
  cbn. lia.
Qed.

Lemma clock_run ss : ∀ w, clock (run n skew ss w) = clock w + total ss.
Proof.
  induction ss as [|s ss IH]; intros w; cbn [run foldl total foldr]; [lia|]. fold (total ss). fold (run n skew ss (exec n skew s w)).
  rewrite IH. assert (clock (exec n skew s w) = clock w + duration s) as ->; [|lia].
  destruct s as [d|i ? ?|m f|i e]; cbn; [done|..].
  - destruct (is_replica n i); cbn; lia.
  - destruct (net w !! m) as [[i p]|]; [|lia]. destruct (receive p _ f _) as [[? ?] ?]. cbn. lia.
  - destruct (_ && _); cbn; lia.
Qed.

(** *** The exchange *)
(** C15. A grantor whose lease timer is due, that owes a live holder nothing and
    whose epoch is not behind the holder's, grants it a lease in one exchange:
    in any state that the system of leases reaches, the grantor's timer, the
    delivery of the guard, of its acknowledgement and of the promise leave the
    holder with a promise that runs for the whole lease in the grantor's epoch,
    however long the guard took, if the acknowledgement and the promise
    together took less than the guard's duration. *)
Theorem lease_established ss g h alive frontier d1 d2 d3 f1 f2 f3 :
  let w := run n skew ss (start n) in
  1 ≤ n → n * (Z.of_nat (length ss) + 1) < 2 ^ 62 → total ss < 2 ^ 62 → 0 ≤ g < n → 0 ≤ h < n → g ≠ h →
  index alive h = Some true → started (nodes w g) && before (now skew w g) (renewAt (nodes w g)) = false →
  owes_nothing (now skew w g) (nodes w g) h → promisedTo (nodes w h) ≤ promisedBy (nodes w g) →
  Z.of_N d2 + Z.of_N d3 < guardDuration →
  ∃ k1 k2 k3, let w' := run n skew [Timer g alive frontier; Advance d1; Deliver k1 f1; Advance d2; Deliver k2 f2; Advance d3; Deliver k3 f3] w in
    time_at (latestPromises (nodes w' h)) g = Some (now skew w' h + leaseDuration) ∧
    promisedTo (nodes w' h) = promisedBy (nodes w' g).
Proof.
  intros w Hn Hss Htot Hg Hh Hgh Ha Hdue Ho He Hd.
  assert (world_ok n skew (n * Z.of_nat (length ss)) w) as Hw.
  { apply (lease_run_ok n skew ss 0 (start n)); [apply lease_start_ok; lia|lia|lia|lia|done|done]. }
  destruct (wk_nodes _ _ _ _ Hw g Hg) as [[Gn Gid Gl Gc] _]. destruct (wk_nodes _ _ _ _ Hw h Hh) as [[Hhn Hid Hl Hc] _].
  pose proof (wk_pairs _ _ _ _ Hw g h Hg Hh Hgh) as Hp. pose proof (pk_guards _ _ _ _ _ _ _ Hp) as Kg. pose proof (pk_received _ _ _ _ _ _ _ Hp) as Kr.
  cbn in Kg, Kr. clear Hp. set (t := now skew w g) in *.
  destruct (tick_guards t alive frontier (nodes w g) h) as [Hin Hab]; [done|done|done|lia|done|done|specialize (Gc h); lia|done|].
  assert (∃ k1, (net w ++ (tick t alive frontier (nodes w g)).2) !! k1 = Some (h, guard_for (nodes w g) h)) as [k1 Hk1].
  { apply list_elem_of_lookup. apply elem_of_app. by right. }
  exists k1. cbn [run foldl].
  assert (exec n skew (Timer g alive frontier) w = update w g (tick t alive frontier (nodes w g))) as ->.
  { cbn. unfold is_replica. destruct ((0 <=? g) && (g <? n)) eqn:E; [done|lia]. }
  destruct (tick t alive frontier (nodes w g)) as [l1 o1] eqn:Et. cbn [fst snd] in Hin, Hab, Hk1.
  assert (shape_ok n (n * Z.of_nat (length ss) + n) g l1) as [Ln Lid Ll _].
  { destruct (lease_exec_ok n skew (n * Z.of_nat (length ss)) w (Timer g alive frontier) Hw) as [Hw1 _]; [lia|lia|unfold w; rewrite clock_run; cbn; lia|].
    destruct (wk_nodes _ _ _ _ Hw1 g Hg) as [Hs _]. revert Hs. cbn. unfold is_replica. destruct ((0 <=? g) && (g <? n)) eqn:E; [|lia].
    fold t. rewrite Et. unfold update. cbn. by rewrite fn_lookup_insert. }
  unfold about in Hab. injection Hab as A1 A2 A3 A4 A5 A6 A7.
  set (w2 := exec n skew (Advance d1) (update w g (l1, o1))).
  assert (nodes w2 g = l1) as N2 by (cbn; by rewrite fn_lookup_insert).
  assert (nodes w2 h = nodes w h) as M2 by (cbn; by rewrite fn_lookup_insert_ne).
  assert (net w2 !! k1 = Some (h, guard_for (nodes w g) h)) as Hk1' by done.
  rewrite (exec_deliver w2 k1 h _ f1 Hk1'), M2.
  rewrite (receive_new_guard _ _ _ _ g) by (cbn; done || lia). cbn [fst snd].
  set (p1 := guard_for (nodes w g) h). set (h1 := taken_guard _ g p1 (nodes w h)).
  set (w4 := exec n skew (Advance d2) (update w2 h (h1, [(g, ack_of p1 (lid (nodes w h)))]))).
  exists (length (net w2)).
  assert (net w4 !! length (net w2) = Some (g, ack_of p1 (lid (nodes w h)))) as Hk2 by (cbn; rewrite lookup_app_r, Nat.sub_diag; done).
  rewrite (exec_deliver w4 _ g _ f2 Hk2).
  assert (nodes w4 g = l1) as N4 by (cbn [nodes w4 exec update]; rewrite fn_lookup_insert_ne; done).
  assert (nodes w4 h = h1) as M4 by (cbn [nodes w4 exec update]; by rewrite fn_lookup_insert).
  rewrite N4, (receive_new_ack _ _ _ _ h); [|done|done|done|lia|done|cbn; congruence|cbn; congruence|congruence]. cbn [fst snd].
  destruct (guarded_promise (now skew w4 g) h f2 l1) as (l2 & p2 & Esend & Q1 & Q2 & Q3 & Q4 & Q5 & Q6 & Q7);
    [done|done|rewrite A2; specialize (Gc h); lia|rewrite A1; cbn; specialize (Gc h); lia|]. rewrite Esend. cbn [fst snd].
  set (w6 := exec n skew (Advance d3) (update w4 g (l2, [(h, p2)]))).
  exists (length (net w4)).
  assert (net w6 !! length (net w4) = Some (h, p2)) as Hk3 by (cbn [net w6 exec update snd]; rewrite lookup_app_r, Nat.sub_diag; done).
  rewrite (exec_deliver w6 _ h _ f3 Hk3).
  assert (nodes w6 g = l2) as N6 by (cbn [nodes w6 exec update fst]; by rewrite fn_lookup_insert).
  assert (nodes w6 h = h1) as M6 by (cbn [nodes w6 exec update fst]; rewrite fn_lookup_insert_ne; done).
  assert (now skew w6 h = now skew w2 h + Z.of_N d2 + Z.of_N d3) as Hnow by (unfold now, w6, w4; cbn; lia).
  rewrite M6.
  destruct (receive_new_promise p2 (now skew w6 h) f3 h1 g) as [R1 R2];
    [by apply taken_lengths|done|done|congruence|cbn; lia|done|done|cbn in *; lia| |cbn; lia|].
  { unfold h1. apply guarded_admissible; [done|done|congruence|cbn; specialize (Gc h); lia|rewrite Q7, A1; cbn; lia|].
    replace (Duration p1) with guardDuration by done. lia. }
  cbn [nodes update fst]. rewrite fn_lookup_insert, fn_lookup_insert_ne by done. rewrite N6, Q1. rewrite R2, Q4. by rewrite R1.
Qed.
End Live.

(** The first exchange of three replicas; the holder's clock is an hour ahead. *)
Lemma lease_established_witness :
  let w := run 3 demo_skew [] (start 3) in
  ∃ k1 k2 k3, let w' := run 3 demo_skew [Timer 0 [true; true; true] 5; Advance 9000000000; Deliver k1 0; Advance 500000000; Deliver k2 5;
      Advance 500000000; Deliver k3 0] w in
    time_at (latestPromises (nodes w' 1)) 0 = Some (now demo_skew w' 1 + leaseDuration) ∧
    promisedTo (nodes w' 1) = promisedBy (nodes w' 0).
Proof.
  intros w. apply (lease_established 3 demo_skew [] 0 1 [true; true; true] 5 9000000000 500000000 500000000 0 5 0);
    try reflexivity; try done; try (left; reflexivity).
Defined.
End PqlLeaseLive.
