(* ===== verification/PqlCore.v ===== *)
(** * PqlCore: the replica of PQL ([pql/core.go], [recovery.go], [execute.go])

    A replica keeps two logs of the same kind: the command log and, with
    [control] set, the log of lease configurations.  [node] has the fields of
    [type core] that both use, [core] the two logs and what only the command
    log has; [log_of ctl] is one of them, and the methods take [ctl].

    - [send] and [broadcast] of the configuration log mark the packet; a packet
      to the replica itself is received at once ([rcv], with fuel in [receive]).
    - [observeTime] reads the clock through [c.now], which the adapter sets on
      both logs, so the times passed along are not looked at: the [k]th reading
      of the replica's life is [reading e k].
    - [served] is not in the code: the local reads the replica has answered, each
      with the state at the time of the answer ([local_read]); nothing reads it.
    - [apply] of the configuration log installs lease policies
      ([commitConfiguration], [pql/configuration.go]). *)
From stdpp Require Import gmap strings list fin_maps sorting.
From Stdlib Require Import Lia.
From S2P Require Import Prelude State ReplicaSet Defs Pql PqlLease.

Module PqlCore.
Import Pql PqlLease.

(** ** State *)

(** The calls of the output callbacks, in order. *)
Inductive event :=
  | Sent (to : Z) (p : Packet)
  | Broadcast (p : Packet)
  | Replied (r : Request) (v : Value).

#[export] Instance event_eq_dec : EqDecision event.
Proof. solve_decision. Defined.

(** Clock readings and the orders of [range] over maps, for each log. *)
Record env := mkEnv {
  reading : nat → Z;
  ord_pending : bool → list RequestID;
  ord_peers : bool → list Z;
  ord_pages : bool → Z → list Z;
  ord_log : bool → list Z }.

(** A read answered from the leases, with what it was decided on: the time, the
    log and the lease of that moment, the configuration the replica had promised
    to and the newest one, and the answers of the state machine. *)
Record local_read := mkRead {
  rd_request : Request; rd_value : Value; rd_time : Z; rd_log : gmap Z Record_; rd_executed : Z; rd_lease : leaseState;
  rd_policy : leasePolicy; rd_newest : option leasePolicy; rd_answer : Command → option Value }.

(** One log; [served] is a history variable, which the code does not have and no
    operation looks at. *)
Record node := mkNode {
  cn : Z; cid : Z; leader : Z; policy : leasePolicy; lease : leaseState; clock : Time; leaderHeard : Time;
  localPending : list RequestID; localQueued : gset RequestID; frozen : list Packet; frozenBallot : Z; frozenFloor : Z;
  ballot : Z; active : bool; preparing : bool; high : Z; executed : Z; log : gmap Z Record_;
  values : gmap RequestID Value; forwardResults : gmap RequestID Value; assigned : gmap RequestID Z; pending : gmap RequestID Request;
  votes : gmap Z Z; pages : gmap Z (gmap Z Packet); promises : gset Z; queue : list RequestID; queued : gset RequestID;
  recoveryEnd : Z; catchupTarget : Z; lastSend : Time; lastFetch : Time; updating : gmap Z Z;
  recoveries : Z; replayReplies : Z; gapAccepts : Z; fetchRequests : Z; fetchSuppressed : Z; localReads : Z; forwardedReads : Z; loggedReads : Z;
  leaseRejects : Z; quorumSends : Z; resume : list Request; served : list local_read }.

#[export] Instance eta_node : Eta node := λ d,
  mkNode (cn d) (cid d) (leader d) (policy d) (lease d) (clock d) (leaderHeard d) (localPending d)
    (localQueued d) (frozen d) (frozenBallot d) (frozenFloor d) (ballot d) (active d) (preparing d) (high d)
    (executed d) (log d) (values d) (forwardResults d) (assigned d) (pending d) (votes d) (pages d)
    (promises d) (queue d) (queued d) (recoveryEnd d) (catchupTarget d) (lastSend d) (lastFetch d) (updating d)
    (recoveries d) (replayReplies d) (gapAccepts d) (fetchRequests d) (fetchSuppressed d) (localReads d)
    (forwardedReads d) (loggedReads d) (leaseRejects d) (quorumSends d) (resume d) (served d).
#[export] Instance set_leader : Setter leader := ltac:(mk_setter).
#[export] Instance set_policy : Setter policy := ltac:(mk_setter).
#[export] Instance set_lease : Setter lease := ltac:(mk_setter).
#[export] Instance set_clock : Setter clock := ltac:(mk_setter).
#[export] Instance set_leaderHeard : Setter leaderHeard := ltac:(mk_setter).
#[export] Instance set_localPending : Setter localPending := ltac:(mk_setter).
#[export] Instance set_localQueued : Setter localQueued := ltac:(mk_setter).
#[export] Instance set_frozen : Setter frozen := ltac:(mk_setter).
#[export] Instance set_frozenBallot : Setter frozenBallot := ltac:(mk_setter).
#[export] Instance set_frozenFloor : Setter frozenFloor := ltac:(mk_setter).
#[export] Instance set_ballot : Setter ballot := ltac:(mk_setter).
#[export] Instance set_active : Setter active := ltac:(mk_setter).
#[export] Instance set_preparing : Setter preparing := ltac:(mk_setter).
#[export] Instance set_high : Setter high := ltac:(mk_setter).
#[export] Instance set_executed : Setter executed := ltac:(mk_setter).
#[export] Instance set_log : Setter log := ltac:(mk_setter).
#[export] Instance set_values : Setter values := ltac:(mk_setter).
#[export] Instance set_forwardResults : Setter forwardResults := ltac:(mk_setter).
#[export] Instance set_assigned : Setter assigned := ltac:(mk_setter).
#[export] Instance set_pending : Setter pending := ltac:(mk_setter).
#[export] Instance set_votes : Setter votes := ltac:(mk_setter).
#[export] Instance set_pages : Setter pages := ltac:(mk_setter).
#[export] Instance set_promises : Setter promises := ltac:(mk_setter).
#[export] Instance set_queue : Setter queue := ltac:(mk_setter).
#[export] Instance set_queued : Setter queued := ltac:(mk_setter).
#[export] Instance set_recoveryEnd : Setter recoveryEnd := ltac:(mk_setter).
#[export] Instance set_catchupTarget : Setter catchupTarget := ltac:(mk_setter).
#[export] Instance set_lastSend : Setter lastSend := ltac:(mk_setter).
#[export] Instance set_lastFetch : Setter lastFetch := ltac:(mk_setter).
#[export] Instance set_updating : Setter updating := ltac:(mk_setter).
#[export] Instance set_recoveries : Setter recoveries := ltac:(mk_setter).
#[export] Instance set_replayReplies : Setter replayReplies := ltac:(mk_setter).
#[export] Instance set_gapAccepts : Setter gapAccepts := ltac:(mk_setter).
#[export] Instance set_fetchRequests : Setter fetchRequests := ltac:(mk_setter).
#[export] Instance set_fetchSuppressed : Setter fetchSuppressed := ltac:(mk_setter).
#[export] Instance set_localReads : Setter localReads := ltac:(mk_setter).
#[export] Instance set_forwardedReads : Setter forwardedReads := ltac:(mk_setter).
#[export] Instance set_loggedReads : Setter loggedReads := ltac:(mk_setter).
#[export] Instance set_leaseRejects : Setter leaseRejects := ltac:(mk_setter).
#[export] Instance set_quorumSends : Setter quorumSends := ltac:(mk_setter).
#[export] Instance set_resume : Setter resume := ltac:(mk_setter).
#[export] Instance set_served : Setter served := ltac:(mk_setter).

(** [newLogCore] *)
Definition newLogCore (n id leader : Z) (p : leasePolicy) : outcome node :=
  if (n <? 3) || (63 <? n) || (Z.rem n 2 =? 0) then Panicked "PQL requires odd membership of 3..63 replicas"
  else if negb (pn p =? n) then Panicked "PQL requires a lease policy for the full membership"
  else Done (mkNode n id leader p (newLeaseState n id) None None [] ∅ [] 0 0 leader true false (-1) (-1)
               ∅ ∅ ∅ ∅ ∅ ∅ ∅ ∅ [] ∅ (-1) (-1) None None ∅ 0 0 0 0 0 0 0 0 0 0 [] []).

(** [c.n/2+1] *)
Definition quorum (d : node) : Z := Z.quot (cn d) 2 + 1.
Definition boolInt (v : bool) : Z := if v then 1 else 0.
Definition tally (x : Z) : Z := u64 (x + 1).                  (* a [uint64] counter *)

(** *** Operations on one log *)
Definition enqueue (r : Request) (d : node) : node :=
  if decide (is_Some (values d !! ID r)) then d
  else if decide (is_Some (assigned d !! ID r)) then d
  else if decide (ID r ∈ queued d) then d
  else d <| queue ::= (λ q, q ++ [ID r]) |> <| queued ::= union {[ID r]} |>.

Definition updates_of (d : node) (key : Z) : Z := default 0 (updating d !! key).
Definition addUpdating (key : Z) (d : node) : node := d <| updating ::= <[key := updates_of d key + 1]> |>.
Definition removeUpdating (key : Z) (d : node) : node :=
  if updates_of d key <=? 1 then d <| updating ::= delete key |> else d <| updating ::= <[key := updates_of d key - 1]> |>.

Definition is_put (r : Record_) : bool := Op (Cmd (Req r)) =? PUT.
Definition same_request (a b : Record_) : bool :=
  bool_decide (ID (Req a) = ID (Req b)) && Bool.eqb (recoveryNoop (Req a)) (recoveryNoop (Req b)).

(** [install]: the record takes a slot that is free or was another's. *)
Definition put_record (r : Record_) (d : node) : node :=
  let d := d <| log ::= <[Slot r := r]> |> in
  let d := if recoveryNoop (Req r) then d else d <| assigned ::= <[ID (Req r) := Slot r]> |> in
  let d := if (executed d <? Slot r) && is_put r then addUpdating (K (Cmd (Req r))) d else d in
  if high d <? Slot r then d <| high := Slot r |> else d.

Definition release (old : Record_) (d : node) : node :=
  let d := if is_put old then removeUpdating (K (Cmd (Req old))) d else d in
  if recoveryNoop (Req old) then d else d <| assigned ::= delete (ID (Req old)) |>.

Definition install (r : Record_) (d : node) : outcome node :=
  match log d !! Slot r with
  | Some old =>
      if Committed old then
        if same_request old r then Done d else Panicked "conflicting decision"
      else if same_request old r then Done (d <| log ::= <[Slot r := r]> |>)
      else Done (put_record r (release old d))
  | None => Done (put_record r d)
  end.

(** [c.log[slot].field = ...] *)
Definition edit_record (slot : Z) (f : Record_ → Record_) (d : node) : outcome node :=
  match log d !! slot with
  | Some r => Done (d <| log ::= <[slot := f r]> |>)
  | None => Panicked "nil pointer dereference"
  end.

(** [fillCatchup]: at most a page of no-ops above [high]. *)
Definition noop_record (slot : Z) (d : node) : Record_ :=
  mkRecord slot (ballot d) (noop_request slot) false 0 (promisedBy (lease d)).
Fixpoint fill_loop (count : nat) (d : node) : outcome node :=
  match count with
  | O => Done d
  | S count =>
      if (high d <? catchupTarget d) && (high d - executed d <? AdmissionWindow)
      then d ← install (noop_record (high d + 1) d) d; fill_loop count d
      else Done d
  end.
Definition fillCatchup (d : node) : outcome node :=
  if negb (cid d =? leader d) || preparing d then Done d else fill_loop (Z.to_nat PageSize) d.

(** Records by their destination set, in the order of the first of each. *)
Fixpoint group_add (mask : Z) (r : Record_) (groups : list (Z * list Record_)) : list (Z * list Record_) :=
  match groups with
  | [] => [(mask, [r])]
  | (m, rs) :: groups => if m =? mask then (m, rs ++ [r]) :: groups else (m, rs) :: group_add mask r groups
  end.

(** ** The replica *)
Section Core.
Context `{SM : StateMachine}.

Record core := mkCore {
  data : node; config : node;
  policies : gmap Z leasePolicy; latestEpoch : Z;
  configSequence : Z;
  readStats : gmap Z (list Z);
  nextConfiguration : Time; unresponsive : list Time; suspected : Z; lastConfigProposal : Time;
  sm : sm_state;
  reads : nat;                      (* clock readings so far *)
  out : list event }.

#[export] Instance eta_core : Eta core := λ c,
  mkCore (data c) (config c) (policies c) (latestEpoch c) (configSequence c) (readStats c) (nextConfiguration c)
    (unresponsive c) (suspected c) (lastConfigProposal c) (sm c) (reads c) (out c).
#[export] Instance set_data : Setter data := ltac:(mk_setter).
#[export] Instance set_config : Setter config := ltac:(mk_setter).
#[export] Instance set_policies : Setter policies := ltac:(mk_setter).
#[export] Instance set_latestEpoch : Setter latestEpoch := ltac:(mk_setter).
#[export] Instance set_configSequence : Setter configSequence := ltac:(mk_setter).
#[export] Instance set_readStats : Setter readStats := ltac:(mk_setter).
#[export] Instance set_nextConfiguration : Setter nextConfiguration := ltac:(mk_setter).
#[export] Instance set_unresponsive : Setter unresponsive := ltac:(mk_setter).
#[export] Instance set_suspected : Setter suspected := ltac:(mk_setter).
#[export] Instance set_lastConfigProposal : Setter lastConfigProposal := ltac:(mk_setter).
#[export] Instance set_sm : Setter sm := ltac:(mk_setter).
#[export] Instance set_reads : Setter reads := ltac:(mk_setter).
#[export] Instance set_out : Setter out := ltac:(mk_setter).

Definition newCore (n id leader : Z) (p : leasePolicy) : outcome core :=
  d ← newLogCore n id leader p;
  g ← newLogCore n id leader p;
  Done (mkCore d g {[genesisLeaseEpoch := p]} genesisLeaseEpoch 0 ∅ None (replicate (Z.to_nat n) None) 0 None sm_init 0 []).

Definition emit (ev : event) (c : core) : core := c <| out ::= (λ o, o ++ [ev]) |>.

(** A lookup of the current configuration, a pointer that is never nil. *)
Definition latest (c : core) : outcome leasePolicy :=
  match policies c !! latestEpoch c with Some p => Done p | None => Panicked "nil pointer dereference" end.

Definition hasUnexcludedSuspect (c : core) : outcome bool :=
  p ← latest c; Done (negb (Z.ldiff (suspected c) (excluded p) =? 0)).

(** [commitConfiguration]: a change overlays the configuration before it. *)
Definition overlay (n : Z) (change : LeaseChange) (previous : leasePolicy) : leasePolicy :=
  mkPolicy n (Leader change) (foldl (λ m u, <[Key u := Holders u]> m) ∅ (Updates change))
    (defaultMask previous) (Z.lor (excluded previous) (CExcluded change)) (Some previous).

Definition commitConfiguration (slot : Z) (change : option LeaseChange) (c : core) : outcome core :=
  let epoch := i64 (genesisLeaseEpoch + slot + 1) in
  previous ← latest c;
  let p := match change with None => previous | Some ch => overlay (cn (data c)) ch previous end in
  Done (c <| policies ::= <[epoch := p]> |> <| latestEpoch := epoch |>).

Section Log.
Variable ctl : bool.               (* which log: [c.control] *)

Definition log_of (c : core) : node := if ctl then config c else data c.
Definition upd (f : node → node) (c : core) : core := if ctl then c <| config ::= f |> else c <| data ::= f |>.

(** The callbacks: those of the configuration log mark their packets and make
    no reply. *)
Definition mark (p : Packet) : Packet := if ctl then p <| Control := true |> else p.
Definition broadcast (p : Packet) (c : core) : core := emit (Broadcast (mark p)) c.
Definition reply (r : Request) (v : Value) (c : core) : core := if ctl then c else emit (Replied r v) c.

(** [apply], one round *)
Definition run_command (r : Record_) (c : core) : outcome core :=
  if bool_decide (is_Some (values (log_of c) !! ID (Req r))) || recoveryNoop (Req r) then Done c else
  '(v, s) ← (if Op (Cmd (Req r)) =? NONE then Done ([], sm c)
             else if ctl then Panicked "nil function" else sm_execute (Cmd (Req r)) (sm c));
  let c := upd (λ d, d <| values ::= <[ID (Req r) := v]> |>) (c <| sm := s |>) in
  Done (if Origin (Req r) =? cid (log_of c) then reply (Req r) v c else c).

Definition apply_one (r : Record_) (c : core) : outcome core :=
  c ← (if ctl then
         c ← commitConfiguration (Slot r) (Change (Req r)) c;
         Done (if recoveryNoop (Req r) then c else upd (λ d, d <| values ::= <[ID (Req r) := []]> |>) c)
       else Done c);
  c ← run_command r c;
  let c := if is_put r then upd (removeUpdating (K (Cmd (Req r)))) c else c in
  let c := if recoveryNoop (Req r) then c else upd (λ d, d <| pending ::= delete (ID (Req r)) |>) c in
  Done (upd (λ d, d <| votes ::= delete (Slot r) |> <| executed ::= (λ x, x + 1) |>) c).

Fixpoint apply_loop (fuel : nat) (c : core) : outcome core :=
  match fuel with
  | O => OutOfFuel
  | S fuel =>
      match log (log_of c) !! (executed (log_of c) + 1) with
      | Some r => if Committed r then c ← apply_one r c; apply_loop fuel c else Done c
      | None => Done c
      end
  end.

(** Each round executes one more slot of the log, so its size bounds them. *)
Definition apply (c : core) : outcome core := apply_loop (S (size (log (log_of c)))) c.

(** [ack]: one slot acknowledged, under an epoch. *)
Definition ack_one (from epoch : Z) (a : Record_) (st : list Record_ * node) : outcome (list Record_ * node) :=
  let '(committed, d) := st in
  if Slot a <=? executed d then Done st else
  match log d !! Slot a with
  | None => Done st
  | Some r =>
      if negb ctl && negb (RLeaseEpoch r =? epoch) then Done st else
      let voters := ReplicaSet.With (default 0 (votes d !! Slot a)) from in
      let d := d <| votes ::= <[Slot a := voters]> |> in
      if negb (RBallot r =? ballot d) || Committed r || (ReplicaSet.Size voters <? quorum d) then Done (committed, d) else
      if negb (Z.land voters (NotifyMask r) =? NotifyMask r) then Done (committed, d) else
      let r := r <| Committed := true |> in
      Done (committed ++ [r], d <| log ::= <[Slot a := r]> |>)
  end.

Definition ack (p : Packet) (c : core) : outcome core :=
  if preparing (log_of c) || negb (cid (log_of c) =? leader (log_of c)) then Done c else
  '(committed, d) ← forEach (ack_one (From p) (LeaseEpoch p)) (Records p) ([], log_of c);
  let c := upd (λ _, d) c in
  let c := if Nat.eqb (length committed) 0 then c
           else broadcast (packet packetCommit (cid d) (ballot d) <| Records := committed |>) c in
  apply c.

(** ** The methods that may reenter the dispatcher *)
Section Handlers.
Variable e : env.
Variable rcv : Packet → core → outcome core.

Definition send (to : Z) (p : Packet) (c : core) : outcome core :=
  let c := emit (Sent to (mark p)) c in
  if to =? cid (log_of c) then rcv (mark p) c else Done c.

(** [sendMask], which the adapter defines *)
Definition sendMask (mask : Z) (p : Packet) (c : core) : outcome core :=
  forEach (λ id, send id p) (filter (λ id, has mask id = true) (rangeZ 0 (cn (log_of c) - 1))) c.

Definition observeTime (c : core) : Z * core :=
  let t := reading e (reads c) in
  let c := c <| reads ::= S |> in
  if before t (clock (log_of c)) then (default t (clock (log_of c)), c)
  else (t, upd (λ d, d <| clock := Some t |>) c).

Definition finish (r : Request) (v : Value) (c : core) : outcome core :=
  let d := log_of c in
  if Origin r =? cid d then Done (reply r v c)
  else if negb (cid d =? leader d) then Done c
  else send (Origin r) (packet packetForwardReply (cid d) (ballot d) <| Requests := [r] |> <| Result := v |>) c.

(** [submit]: the last part, for a request that goes through the log. *)
Definition submit_ordered (r : Request) (c : core) : outcome core :=
  let c := upd (λ d, d <| pending ::= <[ID r := r]> |>) c in
  let d := log_of c in
  let get := Op (Cmd r) =? GET in
  if negb (active d) then Done c
  else if leader d =? cid d then Done (upd (λ d, enqueue r (if get then d <| loggedReads ::= tally |> else d)) c)
  else
    let c := if get then upd (λ d, d <| forwardedReads ::= tally |>) c else c in
    send (leader d) (packet packetForward (cid d) (ballot d) <| Requests := [r] |>) c.

(** The configuration that decides whether a read is local. *)
Definition readPolicy (c : core) : leasePolicy :=
  let d := log_of c in default (policy d) (policies c !! promisedTo (lease d)).
Definition read_record (r : Request) (v : Value) (now : Z) (c : core) : local_read :=
  let d := log_of c in
  mkRead r v now (log d) (executed d) (lease d) (readPolicy c) (policies c !! latestEpoch c)
    (λ cmd, match sm_execute cmd (sm c) with Done (v, _) => Some v | _ => None end).

(** A read at a configured holder, or at the leader. *)
Definition submit_local (r : Request) (isHolder : bool) (now : Z) (c : core) : outcome core :=
  let d := log_of c in
  if isHolder && (updates_of d (K (Cmd r)) =? 0) && canRead now (executed d) (lease d) then
    '(v, s) ← sm_execute (Cmd r) (sm c);
    finish r v (upd (λ d, d <| values ::= <[ID r := v]> |> <| pending ::= delete (ID r) |> <| localReads ::= tally |>
                            <| served ::= (λ l, l ++ [read_record r v now c]) |>)
                  (c <| sm := s |>))
  else
    let c := upd (λ d, d <| pending ::= <[ID r := r]> |>) c in
    Done (if decide (ID r ∈ localQueued d) then c
          else upd (λ d, d <| localQueued ::= union {[ID r]} |> <| localPending ::= (λ l, l ++ [ID r]) |>) c).

(** [c.readStats[key][origin]++] *)
Definition count_read (r : Request) (c : core) : core :=
  let d := log_of c in
  if negb ctl && (cid d =? leader d) && (Op (Cmd r) =? GET) && (0 <=? Origin r) && (Origin r <? cn d)
     && bool_decide (pending d !! ID r = None)
  then
    let row := default (replicate (Z.to_nat (cn d)) 0) (readStats c !! K (Cmd r)) in
    c <| readStats ::= <[K (Cmd r) := put (Origin r) (tally (seq_at row (Origin r))) row]> |>
  else c.

Definition submit (r : Request) (c : core) : outcome core :=
  let '(now, c) := observeTime c in
  match values (log_of c) !! ID r with
  | Some v => finish r v (upd (λ d, d <| replayReplies ::= tally |>) c)
  | None =>
  match forwardResults (log_of c) !! ID r with
  | Some v => Done (reply r v c)
  | None =>
      let c := count_read r c in
      let d := log_of c in
      if negb ctl && bool_decide (assigned d !! ID r = None) && (Op (Cmd r) =? GET) then
        newest ← latest c;
        let isHolder := negb (has (excluded newest) (cid d)) && holds (readPolicy c) (cid d) (K (Cmd r)) in
        if isHolder || (cid d =? leader d) then submit_local r isHolder now c else submit_ordered r c
      else submit_ordered r c
  end end.

Definition requestFetch (now : Z) (c : core) : outcome core :=
  let d := log_of c in
  if cid d =? leader d then Done c
  else if Sub now (lastFetch d) <? 100 * Millisecond then Done (upd (λ d, d <| fetchSuppressed ::= tally |>) c)
  else
    let c := upd (λ d, d <| lastFetch := Some now |> <| fetchRequests ::= tally |>) c in
    let frontier := if high d <? catchup (lease d) then catchup (lease d) else high d in
    send (leader d) (packet packetFetch (cid d) (ballot d) <| Floor := executed d + 1 |> <| High := frontier |>) c.
End Handlers.
End Log.

(** ** Accepting and recovery *)
Section Handlers.
Variable e : env.
Variable rcv : Packet → core → outcome core.
Variable ctl : bool.

Local Abbreviation node_of := (log_of ctl).
Local Abbreviation upd := (upd ctl).
Local Abbreviation send := (send ctl rcv).

(** [accept]: the body of the loop. *)
Definition accept_one (p : Packet) (r : Record_) (st : list Record_ * bool * node) : outcome (list Record_ * bool * node) :=
  let '(accepted, gap, d) := st in
  let '(gap, d) :=
    if (0 <? Slot r) && bool_decide (log d !! (Slot r - 1) = None) then (true, d <| gapAccepts ::= tally |>) else (gap, d) in
  d ← install (r <| RBallot := Ballot p |> <| RLeaseEpoch := LeaseEpoch p |>) d;
  Done (accepted ++ [mkRecord (Slot r) 0 zeroRequest false 0 0], gap, d).

Definition accept (p : Packet) (now : Z) (c : core) : outcome core :=
  let unknown := bool_decide (policies c !! LeaseEpoch p = None) in
  if negb ctl && (unknown || (negb (LeaseEpoch p =? promisedBy (lease (data c))) && negb (canWriteOutside now (lease (data c))))) then
    let c := upd (λ d, d <| leaseRejects ::= tally |>) c in
    if unknown then requestFetch true rcv now c else Done c
  else
  '(accepted, gap, d) ← forEach (accept_one p) (Records p) ([], false, node_of c);
  let c := upd (λ _, d) c in
  c ← (if gap : bool then requestFetch ctl rcv now c else Done c);
  if Nat.eqb (length accepted) 0 then Done c else
  let d := node_of c in
  send (leader d) (packet packetAck (cid d) (ballot d) <| LeaseEpoch := LeaseEpoch p |> <| Records := accepted |>) c.

(** [sendSuffix], a page of at most [PageSize] slots. *)
Definition suffix_records (lo hi : Z) (d : node) : list Record_ :=
  omap (λ s, (λ r, r <| RBallot := ballot d |>) <$> log d !! s) (rangeZ lo (Z.min (lo + PageSize - 1) hi)).

(** A record sent again: its holders and epoch are those of now, and votes
    for others are void. *)
Definition prepare_record (r : Record_) (st : list (Z * list Record_) * node) : outcome (list (Z * list Record_) * node) :=
  let '(groups, d) := st in
  let notify := if is_put r then holderMask (policy d) (K (Cmd (Req r))) else 0 in
  let epoch := promisedBy (lease d) in
  let r := r <| Committed := false |> <| NotifyMask := notify |> <| RLeaseEpoch := epoch |> in
  match log d !! Slot r with
  | None => Panicked "nil pointer dereference"
  | Some local =>
      let d := if negb (RLeaseEpoch local =? epoch) || negb (NotifyMask local =? notify)
               then d <| votes ::= delete (Slot r) |> else d in
      let d := d <| log ::= <[Slot r := local <| RLeaseEpoch := epoch |> <| NotifyMask := notify |>]> |> in
      Done (group_add (writeMask (policy d) (Cmd (Req r))) r groups, d)
  end.

Definition send_group (g : Z * list Record_) (c : core) : outcome core :=
  let d := node_of c in
  let p := packet packetAccept (cid d) (ballot d) <| LeaseEpoch := promisedBy (lease d) |> <| Records := g.2 |> in
  sendMask ctl rcv g.1 p (upd (λ d, d <| quorumSends ::= tally |>) c).

Definition suffix_page (now to hi : Z) (fetch : bool) (lo : Z) (c : core) : outcome core :=
  let d := node_of c in
  let recs := suffix_records lo hi d in
  if Nat.eqb (length recs) 0 then Done c else
  if fetch && negb (to =? cid d) then
    c ← send to (packet packetAccept (cid d) (ballot d) <| LeaseEpoch := promisedBy (lease d) |> <| Records := recs |>) c;
    let decided := filter (λ r, Committed r = true) recs in
    if Nat.eqb (length decided) 0 then Done c
    else send to (packet packetCommit (cid (node_of c)) (ballot (node_of c)) <| Records := decided |>) c
  else if ctl then
    let p := packet packetAccept (cid d) (ballot d) <| Records := (λ r, r <| Committed := false |>) <$> recs |> in
    accept p now (broadcast ctl p (upd (λ d, d <| quorumSends ::= tally |>) c))
  else
    '(groups, d) ← forEach prepare_record recs ([], d);
    forEach send_group groups (upd (λ _, d) c).

(** [for lo := start; lo <= end; lo += PageSize] *)
Definition page_starts (start hi : Z) : list Z := (λ i, start + i * PageSize) <$> rangeZ 0 ((hi - start) / PageSize).

Definition sendSuffix (to start : Z) (fetch : bool) (now : Z) (c : core) : outcome core :=
  let limit := start + 2048 - 1 in
  let hi := if limit <? high (node_of c) then limit else high (node_of c) in
  forEach (suffix_page now to hi fetch) (page_starts start hi) c.

Definition schedulePending (d : node) : node := d <| resume := (range_order (ord_pending e ctl) (pending d)).*2 |>.

Definition activate (c : core) : core :=
  let c := upd (λ d, d <| active := true |>) c in
  let d := node_of c in
  upd schedulePending (broadcast ctl (packet packetReady (cid d) (ballot d) <| High := executed d |> <| Floor := 1 |>) c).

(** [promise] *)
Definition page_count (n : nat) : Z :=
  let count := (Z.of_nat n + PageSize - 1) / PageSize in
  if count =? 0 then 1 else count.
Definition promise_values (floor : Z) (d : node) : list Record_ := omap (λ s, log d !! s) (rangeZ floor (high d)).
Definition promise_page (floor : Z) (vals : list Record_) (d : node) (page : Z) : Packet :=
  packet packetPromise (cid d) (ballot d) <| Floor := floor |> <| High := high d |> <| Page := page |>
    <| Pages := page_count (length vals) |>
    <| Records := take (Z.to_nat PageSize) (drop (Z.to_nat (page * PageSize)) vals) |>.

Definition promise (p : Packet) (c : core) : outcome core :=
  let d := node_of c in
  if negb (Nat.eqb (length (frozen d)) 0) && (frozenBallot d =? Ballot p) && (frozenFloor d =? Floor p)
  then forEach (send (From p)) (frozen d) c
  else
    let vals := promise_values (Floor p) d in
    let snapshot := promise_page (Floor p) vals d <$> seqZ 0 (page_count (length vals)) in
    forEach (send (From p)) snapshot
      (upd (λ d, d <| frozen := snapshot |> <| frozenBallot := Ballot p |> <| frozenFloor := Floor p |>) c).

(** [promiseReply]: the promised records, highest ballot first. *)
Definition select_record (selected : gmap Z Record_) (r : Record_) : gmap Z Record_ :=
  match selected !! Slot r with
  | Some old => if RBallot old <? RBallot r then <[Slot r := r]> selected else selected
  | None => <[Slot r := r]> selected
  end.
Definition select_page (acc : gmap Z Record_ * Z) (page : Packet) : gmap Z Record_ * Z :=
  let '(selected, high) := acc in
  (foldl select_record selected (Records page), if high <? High page then High page else high).
Definition promised_pages (d : node) : list Packet :=
  p ← range_set (ord_peers e ctl) (promises d);
  (range_order (ord_pages e ctl p) (default ∅ (pages d !! p))).*2.

(** The log keeps its executed part and takes the rest from [selected]. *)
Definition executed_assigned (d : node) : gmap RequestID Z :=
  foldl (λ m '(slot, r), if (slot <=? executed d) && negb (recoveryNoop (Req r)) then <[ID (Req r) := slot]> m else m) ∅
    (range_order (ord_log e ctl) (log d)).
Definition executed_log (d : node) : gmap Z Record_ := filter (λ kv : Z * Record_, kv.1 ≤ executed d) (log d).
Definition adopt_slot (selected : gmap Z Record_) (d : node) (slot : Z) : node :=
  let r := default (mkRecord slot 0 (noop_request slot) false 0 0) (selected !! slot) in
  let r := r <| RBallot := ballot d |> <| Committed := false |> in
  let d := d <| log ::= <[slot := r]> |> in
  let d := if recoveryNoop (Req r) then d else d <| assigned ::= <[ID (Req r) := slot]> |> in
  if is_put r then addUpdating (K (Cmd (Req r))) d else d.
Definition adopt (d : node) : node :=
  let '(selected, hi) := foldl select_page (∅, executed d) (promised_pages d) in
  let d := d <| preparing := false |> <| high := hi |> <| assigned := executed_assigned d |> <| updating := ∅ |>
             <| log := executed_log d |> in
  foldl (adopt_slot selected) d (rangeZ (executed d + 1) hi).

Definition elect (now : Z) (c : core) : outcome core :=
  d ← fillCatchup (adopt (node_of c));
  let c := upd (λ _, d <| recoveryEnd := high d |> <| votes := ∅ |>) c in
  c ← sendSuffix (cid (node_of c)) (executed (node_of c) + 1) false now c;
  Done (if recoveryEnd (node_of c) <=? executed (node_of c) then activate c else c).

Definition complete_pages (p : Packet) (d : node) (ps : gmap Z Packet) : bool :=
  (Z.of_nat (size ps) =? Pages p) &&
  forallb (λ i, match ps !! i with
                | Some v => (Pages v =? Pages p) && (Floor v =? executed d + 1) && (High v =? High p)
                | None => false
                end) (seqZ 0 (Pages p)).

Definition promiseReply (p : Packet) (now : Z) (c : core) : outcome core :=
  let d := node_of c in
  if negb (preparing d) || negb (leader d =? cid d) || (Pages p <=? 0) || (Page p <? 0) || (Pages p <=? Page p) then Done c else
  let ps := <[Page p := p]> (default ∅ (pages d !! From p)) in
  let c := upd (λ d, d <| pages ::= <[From p := ps]> |>) c in
  if negb (complete_pages p d ps) then Done c else
  let c := upd (λ d, d <| promises ::= union {[From p]} |>) c in
  if Z.of_nat (size (promises (node_of c))) <? quorum d then Done c else elect now c.

(** ** [receive] *)
Definition follow (p : Packet) (d : node) : node :=
  d <| ballot := Ballot p |> <| leader := From p |> <| preparing := false |> <| votes := ∅ |>.

Definition commit_one (r : Record_) (d : node) : outcome node :=
  d ← install r d; edit_record (Slot r) (λ l, l <| Committed := true |>) d.

(** A packet of the log's own ballot. *)
Definition receive_current (p : Packet) (now : Z) (c : core) : outcome core :=
  let d := node_of c in
  let fromLeader := From p =? leader d in
  if Kind p =? packetPromise then promiseReply p now c
  else if Kind p =? packetAccept then if fromLeader then accept p now c else Done c
  else if Kind p =? packetAck then ack ctl p c
  else if Kind p =? packetCommit then
    if negb fromLeader then Done c else
    d ← forEach commit_one (Records p) d; apply ctl (upd (λ _, d) c)
  else if Kind p =? packetReady then
    if negb fromLeader then Done c else
    let c := if (Floor p =? 1) && negb (active d) then upd (λ d, schedulePending (d <| active := true |>)) c else c in
    if executed (node_of c) <? High p then requestFetch ctl rcv now c else Done c
  else if Kind p =? packetFetch then
    if negb (leader d =? cid d) then Done c else
    let c := if catchupTarget d <? High p then upd (λ d, d <| catchupTarget := High p |>) c else c in
    if preparing d then Done c else
    d ← fillCatchup (node_of c);
    sendSuffix (From p) (Floor p) true now (upd (λ _, d) c)
  else if Kind p =? packetForward then
    if (cid d =? leader d) && active d then forEach (submit ctl e rcv) (Requests p) c else Done c
  else if Kind p =? packetForwardReply then
    match Requests p with
    | [r] =>
        if negb fromLeader || negb (Origin r =? cid d) then Done c else
        Done (reply ctl r (Result p)
                (upd (λ d, d <| forwardResults ::= <[ID r := Result p]> |> <| pending ::= delete (ID r) |>) c))
    | _ => Done c
    end
  else Done c.

Definition receive_log (p : Packet) (now : Z) (c : core) : outcome core :=
  let d := node_of c in
  if Kind p =? packetPrepare then
    if Ballot p <? ballot d then Done c else
    let c := if ballot d <? Ballot p then upd (follow p) c else c in
    promise p (upd (λ d, d <| active := false |> <| leaderHeard := Some now |>) c)
  else
  let c := if (Kind p =? packetReady) && (ballot d <? Ballot p)
           then upd (λ d, follow p d <| active := false |>) c else c in
  if negb (Ballot p =? ballot (node_of c)) then Done c else
  let c := if (From p =? leader (node_of c)) && ((Kind p =? packetReady) || (Kind p =? packetAccept) || (Kind p =? packetCommit))
           then upd (λ d, d <| leaderHeard := Some now |>) c else c in
  receive_current p now c.
End Handlers.

Section Dispatch.
Variable e : env.
Variable rcv : Packet → core → outcome core.

(** The packets of the lease protocol, on the command log. *)
Definition receive_lease (p : Packet) (now : Z) (c : core) : outcome core :=
  if (Kind p =? packetLeasePromise) && bool_decide (policies c !! LeaseEpoch p = None)
  then requestFetch true rcv now c
  else
  stop ← (if Kind p =? packetGuardAck then
            if promisedBy (lease (data c)) <? latestEpoch c then Done true else hasUnexcludedSuspect c
          else Done false);
  if stop : bool then Done c else
  let '(_, l, msgs) := PqlLease.receive p now (high (data c)) (lease (data c)) in
  forEach (λ m, send false rcv m.1 m.2) msgs (c <| data ::= (λ d, d <| lease := l |>) |>).

Definition receive_body (ctl : bool) (p : Packet) (c : core) : outcome core :=
  let '(now, c) := observeTime ctl e c in
  if (From p <? 0) || (cn (log_of ctl c) <=? From p) then Done c else
  if ctl then receive_log e rcv true p now c else
  if Control p then
    let '(now, c) := observeTime true e c in
    if (From p <? 0) || (cn (config c) <=? From p) then Done c else receive_log e rcv true p now c
  else if Kind p =? packetSuspect then Done c
  else if (packetGuard <=? Kind p) && (Kind p <=? packetLeaseReply) then receive_lease p now c
  else receive_log e rcv false p now c.
End Dispatch.

(** The dispatcher; each reentrant call uses one unit of fuel. *)
Fixpoint receive (fuel : nat) (e : env) (p : Packet) (c : core) : outcome core :=
  match fuel with
  | O => OutOfFuel
  | S fuel => receive_body e (receive fuel e) false p c
  end.

(** [c.receive] called by a method of one of the logs. *)
Definition receive_at (fuel : nat) (e : env) (ctl : bool) (p : Packet) (c : core) : outcome core :=
  receive_body e (receive fuel e) ctl p c.
End Core.
End PqlCore.
