(* ===== verification/PqlTick.v ===== *)
(** * PqlTick: timers and lease configurations of PQL ([pql/core.go], [recovery.go], [configuration.go])

    What the timer does: elections ([Begin]), admission ([flush]), retries, and
    on the command log the upkeep of suspicions, lease configurations and
    leases ([maintainConfigurations]).  [alive] has an entry per replica, which
    the adapter checks. *)
From stdpp Require Import gmap strings list fin_maps sorting.
From Stdlib Require Import Lia.
From S2P Require Import Prelude State ReplicaSet Defs Pql PqlLease PqlCore.

Module PqlTick.
Import Pql PqlLease PqlCore.

(** [(c.ballot/int64(c.n)+1)*int64(c.n) + int64(c.id)] *)
Definition next_ballot (n id b : Z) : Z := i64 (i64 (i64 (Z.quot b n + 1) * n) + id).

(** The first replica of [alive] that may lead: up, neither the leader nor
    excluded, and not suspected unless it is this one. *)
Fixpoint candidate (ok : Z → bool) (id : Z) (alive : list bool) : Z :=
  match alive with
  | [] => -1
  | up :: alive => if up && ok id then id else candidate ok (id + 1) alive
  end.

(** [flush]: the loop over the queue, records grouped by their destinations. *)
Fixpoint flush_loop (ctl : bool) (q : list RequestID) (count : Z) (groups : list (Z * list Record_)) (d : node)
    : outcome (list (Z * list Record_) * node) :=
  match q with
  | [] => Done (groups, d)
  | id :: q =>
      if (count <? PageSize) && (high d - executed d <? AdmissionWindow) then
        let d := d <| queue := q |> <| queued ::= (λ s, s ∖ {[id]}) |> in
        if decide (is_Some (assigned d !! id)) then flush_loop ctl q count groups d
        else if decide (is_Some (values d !! id)) then flush_loop ctl q count groups d
        else match pending d !! id with
             | None => flush_loop ctl q count groups d
             | Some r =>
                 let d := d <| high ::= (λ x, x + 1) |> in
                 let rec := mkRecord (high d) (ballot d) r false 0 0 in
                 d ← install rec d;
                 let mask := if ctl then 0 else writeMask (policy d) (Cmd r) in
                 flush_loop ctl q (count + 1) (group_add mask rec groups) d
             end
      else Done (groups, d)
  end.

(** [sort.Slice] of [proposeObservedHolders]: more reads first, then present
    holders, then the smaller identity. *)
Definition prefer (counts : list Z) (old a b : Z) : bool :=
  let ca := seq_at counts a in let cb := seq_at counts b in
  if negb (ca =? cb) then cb <? ca
  else if negb (Bool.eqb (has old a) (has old b)) then has old a
  else a <? b.
Definition prefer_le (counts : list Z) (old a b : Z) : Prop := prefer counts old b a = false.
#[export] Instance prefer_le_dec counts old : RelDecision (prefer_le counts old).
Proof. intros a b. unfold prefer_le. apply _. Defined.

(** The holders observed reads ask for, if they are not those of now. *)
Definition observed_update (n leader : Z) (p : leasePolicy) (counts : list Z) (key : Z) : option HolderUpdate :=
  let old := holderMask p key in
  let ids := filter (λ id, id ≠ leader ∧ has (excluded p) id = false) (rangeZ 0 (n - 1)) in
  let half := Z.quot n 2 in
  if Z.of_nat (length ids) <? half then None else
  let mask := foldl (λ m id, Z.lor m (bit id)) (bit leader) (take (Z.to_nat half) (merge_sort (prefer_le counts old) ids)) in
  if mask =? old then None else Some (mkHolderUpdate key mask).

(** [updates[start:end]], [configurationBatch] at a time. *)
Fixpoint batches {A} (fuel : nat) (l : list A) : list (list A) :=
  match fuel, l with
  | O, _ | _, [] => []
  | S fuel, l => take (Z.to_nat configurationBatch) l :: batches fuel (drop (Z.to_nat configurationBatch) l)
  end.

Section Core.
Context `{SM : StateMachine}.

Section Tick.
Variable e : env.
Variable fuel : nat.
Local Abbreviation rcv := (receive fuel e).

Definition prepare_packet (d : node) : Packet := packet packetPrepare (cid d) (ballot d) <| Floor := executed d + 1 |>.

(** [Begin]: on the command log, of the configuration log first. *)
Definition begin_log (ctl : bool) (inner : core → outcome core) (c : core) : outcome core :=
  let '(now, c) := observeTime ctl e c in
  let c := upd ctl (λ d, d <| leaderHeard := Some now |> <| ballot := next_ballot (cn d) (cid d) (ballot d) |>
             <| leader := cid d |> <| active := false |> <| preparing := true |> <| recoveries ::= tally |>
             <| pages := ∅ |> <| promises := ∅ |> <| votes := ∅ |> <| lastSend := Some now |>) c in
  c ← inner c;
  let p := prepare_packet (log_of ctl c) in
  receive_at fuel e ctl p (broadcast ctl p c).

Definition Begin (c : core) : outcome core := begin_log false (begin_log true Done) c.

(** The groups of [flush], sent. *)
Definition stamp_record (ctl : bool) (epoch : Z) (r : Record_) (st : list Record_ * node) : outcome (list Record_ * node) :=
  let '(rs, d) := st in
  let r := r <| RLeaseEpoch := epoch |> in
  let r := if negb ctl && is_put r then r <| NotifyMask := holderMask (policy d) (K (Cmd (Req r))) |> else r in
  d ← edit_record (Slot r) (λ l, l <| RLeaseEpoch := epoch |> <| NotifyMask := NotifyMask r |>) d;
  Done (rs ++ [r], d).

Definition flush_group (ctl : bool) (now : Z) (g : Z * list Record_) (c : core) : outcome core :=
  let epoch := promisedBy (lease (log_of ctl c)) in
  '(rs, d) ← forEach (stamp_record ctl epoch) g.2 ([], log_of ctl c);
  let c := upd ctl (λ _, d <| quorumSends ::= tally |>) c in
  let p := packet packetAccept (cid d) (ballot d) <| LeaseEpoch := epoch |> <| Records := rs |> in
  if ctl then accept rcv ctl p now (broadcast ctl p c) else sendMask ctl rcv g.1 p c.

Definition flush (ctl : bool) (now : Z) (c : core) : outcome core :=
  let d := log_of ctl c in
  if AdmissionWindow <=? high d - executed d then Done c else
  '(groups, d) ← flush_loop ctl (queue d) 0 [] d;
  forEach (flush_group ctl now) groups (upd ctl (λ _, d) c).

(** ** Lease configurations *)
Definition proposeConfiguration (change : LeaseChange) (now : Z) (c : core) : outcome core :=
  let c := c <| configSequence ::= (λ x, i32 (x + 1)) |> in
  let id := cid (data c) in
  c ← submit true e rcv (mkRequest (mkRequestID (i32 (-2 - id)) (configSequence c)) zeroCommand id 0 (Some change)) c;
  Done (c <| lastConfigProposal := Some now |>).

Definition proposeObservedHolders (now : Z) (c : core) : outcome core :=
  p ← latest c;
  let d := data c in
  let keys := merge_sort Z.le (elements (dom (readStats c))) in
  let updates := omap (λ key, observed_update (cn d) (leader d) p (default [] (readStats c !! key)) key) keys in
  forEach (λ us c, proposeConfiguration (mkLeaseChange (leader (data c)) (excluded p) us) now c)
    (batches (length updates) updates) (c <| readStats := ∅ |>).

(** One peer of the loop over [alive]. *)
Definition suspect_peer (now : Z) (pu : Z * bool) (c : core) : outcome core :=
  let '(peer, up) := pu in
  let d := data c in
  if peer =? cid d then Done c else
  let c := if up : bool then c <| unresponsive ::= put peer None |>
           else if bool_decide (time_at (unresponsive c) peer = None) then c <| unresponsive ::= put peer (Some now) |> else c in
  p ← latest c;
  if has (excluded p) peer then Done c else
  let lastReply := time_at (lastResponse (lease d)) peer in
  let gone := match time_at (unresponsive c) peer with Some t => failureGrace <=? now - t | None => false end in
  let silent := match lastReply with
                | Some _ => failureGrace <=? SubT (time_at (lastSent (lease d)) peer) lastReply
                | None => false end in
  Done (if gone || silent then c <| suspected ::= (λ m, Z.lor m (bit peer)) |> else c).

(** Proposals of a leader: exclusions, a change of leader, observed holders. *)
Definition configure_lead (now : Z) (c : core) : outcome core :=
  newest ← latest c;
  let d := data c in
  let ready (c : core) := (cid (data c) =? leader (data c)) && active (config c) && negb (preparing (config c)) in
  suspects ← hasUnexcludedSuspect c;
  c ← (if ready c && (suspects || negb (pleader newest =? leader d)) && negb (Sub now (lastConfigProposal c) <? Second)
       then proposeConfiguration (mkLeaseChange (leader d) (Z.ldiff (suspected c) (bit (cid d))) []) now c else Done c);
  if ready c && negb (before now (nextConfiguration c)) then
    c ← proposeObservedHolders now c;
    Done (c <| nextConfiguration := Some (now + configurationInterval) |>)
  else Done c.

(** The leases: change eras once every promise is over, then renew. *)
Definition renew_leases (now : Z) (alive : list bool) (c : core) : outcome core :=
  suspects ← hasUnexcludedSuspect c;
  let d := data c in
  if suspects || has (excluded (policy d)) (cid d) then Done c else
  if started (lease d) && before now (renewAt (lease d)) then Done c else
  let eligible := (λ pu : Z * bool, pu.2 && negb (has (excluded (policy d)) pu.1)) <$> zip (rangeZ 0 (Z.of_nat (length alive) - 1)) alive in
  let '(l, msgs) := PqlLease.tick now eligible (high d) (lease d) in
  forEach (λ m, send false rcv m.1 m.2) msgs (c <| data ::= (λ d, d <| lease := l |>) |>).

Definition change_epoch (now : Z) (alive : list bool) (c : core) : outcome core :=
  if promisedBy (lease (data c)) <? latestEpoch c then
    if negb (canWriteOutside now (lease (data c))) then Done c else
    p ← latest c;
    renew_leases now alive (c <| data ::= (λ d, d <| policy := p |> <| lease ::= switchEpoch (latestEpoch c) now |>) |>)
  else renew_leases now alive c.

Definition maintainConfigurations (now : Z) (alive : list bool) (c : core) : outcome core :=
  let c := c <| suspected ::= (λ m, Z.ldiff m (bit (cid (data c)))) |> in
  let c := if bool_decide (nextConfiguration c = None)
           then c <| nextConfiguration := Some (now + configurationInterval) |>
                  <| data ::= (λ d, d <| lease ::= (λ l, l <| lastResponse ::= fmap (λ _, Some now) |>) |>) |>
           else c in
  c ← forEach (suspect_peer now) (zip (rangeZ 0 (Z.of_nat (length alive) - 1)) alive) c;
  c ← configure_lead now c;
  change_epoch now alive c.

(** ** [tick] *)

(** Queued local reads, at most a page of those queued at the start. *)
Fixpoint local_loop (count : nat) (c : core) : outcome core :=
  match count with
  | O => Done c
  | S count =>
      match localPending (data c) with
      | [] => Panicked "index out of range"
      | id :: rest =>
          let c := upd false (λ d, d <| localPending := rest |> <| localQueued ::= (λ s, s ∖ {[id]}) |>) c in
          c ← (match pending (data c) !! id with Some r => submit false e rcv r c | None => Done c end);
          local_loop count c
      end
  end.

Definition tick_local (now : Z) (c : core) : outcome core :=
  let d := data c in
  c ← (if Nat.eqb (length (localPending d)) 0 then Done c
       else if cid d =? leader d
       then Done (if catchupTarget d <? catchup (lease d) then upd false (λ d, d <| catchupTarget := catchup (lease d) |>) c else c)
       else requestFetch false rcv now c);
  local_loop (Nat.min (length (localPending (data c))) (Z.to_nat PageSize)) c.

(** [for i := 0; i < PageSize && len(c.resume) > 0; i++] *)
Fixpoint resume_loop (ctl : bool) (i : nat) (c : core) : outcome core :=
  match i, resume (log_of ctl c) with
  | O, _ | _, [] => Done c
  | S i, r :: rest =>
      let c := upd ctl (λ d, d <| resume := rest |>) c in
      c ← (if decide (is_Some (pending (log_of ctl c) !! ID r)) then submit ctl e rcv r c else Done c);
      resume_loop ctl i c
  end.

Definition tick_prepare (ctl : bool) (now : Z) (c : core) : outcome core :=
  if Sub now (lastSend (log_of ctl c)) <? Second then Done c else
  let c := upd ctl (λ d, d <| lastSend := Some now |>) c in
  let p := prepare_packet (log_of ctl c) in
  receive_at fuel e ctl p (broadcast ctl p c).

Definition tick_lead (ctl : bool) (now : Z) (c : core) : outcome core :=
  d ← fillCatchup (log_of ctl c);
  let c := upd ctl (λ _, d) c in
  let c := if negb (active d) && (recoveryEnd d <=? executed d) then activate e ctl c else c in
  c ← (if active (log_of ctl c) then flush ctl now c else Done c);
  if Sub now (lastSend (log_of ctl c)) <? 200 * Millisecond then Done c else
  let c := upd ctl (λ d, d <| lastSend := Some now |>) c in
  let d := log_of ctl c in
  let c := broadcast ctl (packet packetReady (cid d) (ballot d) <| High := executed d |> <| Floor := boolInt (active d) |>) c in
  sendSuffix rcv ctl (cid d) (executed d + 1) false now c.

(** The part both logs have. *)
Definition tick_log (ctl : bool) (now : Z) (c : core) : outcome core :=
  c ← (if active (log_of ctl c) then resume_loop ctl (Z.to_nat PageSize) c else Done c);
  if preparing (log_of ctl c) then tick_prepare ctl now c
  else if leader (log_of ctl c) =? cid (log_of ctl c) then tick_lead ctl now c
  else Done c.

Definition heard (now : Z) (d : node) : node :=
  if bool_decide (leaderHeard d = None) then d <| leaderHeard := Some now |> else d.

Definition tick_config (c : core) : outcome core :=
  let '(now, c) := observeTime true e c in
  tick_log true now (upd true (heard now) c).

(** A leader that is down or silent is suspected, and the candidate stands. *)
Definition tick_leader (now : Z) (alive : list bool) (c : core) : outcome core :=
  let d := data c in
  if cid d =? leader d then Done c else
  match index alive (leader d) with
  | None => Panicked "index out of range"
  | Some up =>
      if negb (negb up || (failureGrace <=? Sub now (leaderHeard d))) then Done c else
      let c := c <| suspected ::= (λ m, Z.lor m (bit (leader d))) |> in
      let ok id := negb (id =? leader d) && negb (has (excluded (policy d)) id) && ((id =? cid d) || negb (has (suspected c) id)) in
      if (candidate ok 0 alive =? cid d) && negb (preparing d) then Begin c else Done c
  end.

Definition tick (alive : list bool) (c : core) : outcome core :=
  let '(now, c) := observeTime false e c in
  c ← maintainConfigurations now alive (upd false (heard now) c);
  c ← tick_leader now alive c;
  c ← tick_local now c;
  c ← tick_config c;
  tick_log false now c.
End Tick.
End Core.
End PqlTick.
