(* ===== verification/PqlScenarios.v ===== *)
(** * PqlScenarios: runs of a PQL cluster

    A cluster of the modelled replicas, stepped by a list of timed steps, and a
    run in which a lease holder serves a stale read ([stale_read]). *)
From stdpp Require Import gmap strings list fin_maps sorting.
From Stdlib Require Import Lia.
From S2P Require Import Prelude State Defs Pql PqlLease PqlCore PqlTick.

Module PqlScenarios.
Import Pql PqlLease PqlCore PqlTick.

Section Cluster.
Context `{SM : StateMachine}.

(** A packet is named by its link and its position on it: the network repeats,
    reorders and loses packets. *)
Inductive step :=
  | SPropose (i : Z) (r : Request)
  | SDeliver (from to : Z) (k : nat)
  | STick (i : Z) (alive : list bool).

Definition on_link (to : Z) (ev : event) : option Packet :=
  match ev with
  | Sent i p => if i =? to then Some p else None
  | Broadcast p => Some p
  | Replied _ _ => None
  end.

Definition dispatchFuel : nat := 6.

(** The handler at the replica; [t] is the time, in each reading of the event. *)
Definition env_at (t : Z) : env := mkEnv (λ _, t) (λ _, []) (λ _, []) (λ _ _, []) (λ _, []).
Definition handle (s : step) (t : Z) (cs : list core) : option (Z * (core → outcome core)) :=
  match s with
  | SPropose i r => Some (i, submit false (env_at t) (receive dispatchFuel (env_at t)) r)
  | SDeliver from to k =>
      c ← index cs from; p ← omap (on_link to) (out c) !! k;
      if (from =? to) || negb (validatePacket p) then None else Some (to, receive dispatchFuel (env_at t) p)
  | STick i alive => Some (i, tick (env_at t) dispatchFuel alive)
  end.

Definition exec (ts : Z * step) (cs : list core) : outcome (list core) :=
  match handle ts.2 ts.1 cs with
  | None => Panicked "no such packet"
  | Some (i, h) =>
      match index cs i with
      | None => Panicked "no such replica"
      | Some c => c' ← h c; Done (<[Z.to_nat i := c']> cs)
      end
  end.
Definition run (ss : list (Z * step)) (cs : list core) : outcome (list core) := forEach exec ss cs.
Definition start (n leader : Z) (p : leasePolicy) : outcome (list core) :=
  foldr (λ i acc, c ← newCore n i leader p; cs ← acc; Done (c :: cs)) (Done []) (rangeZ 0 (n - 1)).
End Cluster.

Section Runs.
#[local] Existing Instance demo_machine.
Definition ms (t : Z) : Z := t * Millisecond.

(** ** A stale read

    Five replicas with leader 0.  Replica 4 asks for a read of key 7, a client
    for a write of it; the leader's timer proposes a configuration with 4 as a
    holder of key 7, and sends the write in epoch 1 to 1 and 3.  Replica 3
    accepts the write, then 1, 2 and 3 change to epoch 2.  1 and 2 grant a lease
    to 4, which activates without the write; then 3 does, whose frontier is no
    longer looked at.  2 and 3 renew; the promises of 1 run out.  Then the write
    reaches 1, which accepts it because it is bound to nobody, and the leader,
    which had to stay in epoch 1, completes it with 1 and 3.  4 still reads. *)
Definition all5 : list bool := replicate 5 true.
Definition genesis : leasePolicy := mkPolicy 5 0 ∅ 11 0 None.
Definition write7 : Request := mkRequest (mkRequestID 1 0) (mkCommand PUT 7 [42]) 0 0 None.
Definition read7 (seq : Z) : Request := mkRequest (mkRequestID 2 seq) (mkCommand GET 7 []) 4 0 None.

Definition proposals : list (Z * step) := [
  (ms 0, STick 0 all5);
  (ms 9900, SPropose 4 (read7 0)); (ms 9950, SDeliver 4 0 0);
  (ms 9960, SPropose 0 write7);
  (ms 10000, STick 0 all5)].
Definition configuration_committed : list (Z * step) := [
  (ms 10050, SDeliver 0 3 7); (ms 10060, SDeliver 3 0 0);                              (* 3 accepts the write *)
  (ms 10060, SDeliver 0 2 3); (ms 10070, SDeliver 2 0 0);                              (* 0 is bound to 2 in epoch 1 *)
  (ms 10080, SDeliver 0 1 4); (ms 10080, SDeliver 0 2 4); (ms 10090, SDeliver 1 0 0); (ms 10090, SDeliver 2 0 1);
  (ms 10100, SDeliver 0 1 10); (ms 10100, SDeliver 0 2 9); (ms 10100, SDeliver 0 3 10); (ms 10100, SDeliver 0 4 8)].
Definition leases_granted : list (Z * step) := [
  (ms 10200, STick 1 all5); (ms 10200, STick 2 all5); (ms 10200, STick 3 all5);
  (ms 10300, SDeliver 1 4 0); (ms 10300, SDeliver 2 4 0); (ms 10350, SDeliver 4 1 0); (ms 10350, SDeliver 4 2 0);
  (ms 10400, SDeliver 1 4 1); (ms 10400, SDeliver 2 4 1); (ms 10450, SDeliver 4 1 1); (ms 10450, SDeliver 4 2 1);
  (ms 10500, SDeliver 3 4 0); (ms 10550, SDeliver 4 3 0); (ms 10600, SDeliver 3 4 1); (ms 10650, SDeliver 4 3 1)].
Definition write_completed : list (Z * step) := [
  (ms 11900, STick 2 all5); (ms 11900, STick 3 all5); (ms 11950, SDeliver 2 4 2); (ms 11950, SDeliver 3 4 2);
  (ms 12800, STick 0 all5);
  (ms 13000, SDeliver 0 1 7); (ms 13050, SDeliver 1 0 2)].
Definition writing : list (Z * step) := proposals ++ configuration_committed ++ leases_granted ++ write_completed.

Definition replies (i : Z) (cs : list core) : list (RequestID * Value) :=
  match index cs i with
  | Some c => omap (λ ev, match ev with Replied r v => Some (ID r, v) | _ => None end) (out c)
  | None => []
  end.

Definition written : list core := result_or [] (cs ← start 5 0 genesis; run writing cs).
Definition read_at (t : Z) : Z * step := (t, SPropose 4 (read7 1)).
Definition after_read : list core := result_or [] (exec (read_at (ms 13100)) written).

(** C11. Leases do not prevent a stale read.  There is a run of five replicas on
    one clock, without a crash, in which a write of key 7 is answered to its
    client, and a read of the key that its client sends afterwards to the holder
    4 is answered from its leases without the write.  A holder looks at the
    frontiers of its grantors only when it activates in an epoch; later it may
    hold the promises of others, who accepted a write of an older epoch that it
    was not notified of. *)
Theorem stale_read :
  Sorted Z.le (writing.*1 ++ [ms 13100]) ∧
  (cs ← start 5 0 genesis; run writing cs) = Done written ∧
  replies 0 written = [(ID write7, [])] ∧ replies 4 written = [] ∧
  exec (read_at (ms 13100)) written = Done after_read ∧
  replies 4 after_read = [(ID (read7 1), [])].
Proof.
  split_and!.
  - apply (bool_decide_unpack _). vm_compute. exact I.
  - apply result_or_done. vm_compute. reflexivity.
  - vm_compute. reflexivity.
  - vm_compute. reflexivity.
  - apply result_or_done. vm_compute. reflexivity.
  - vm_compute. reflexivity.
Qed.
End Runs.
End PqlScenarios.
