(* ===== verification/PqlInv.v ===== *)
(** * PqlInv: what every handler of a PQL replica keeps

    [node_ok]: the index of writes that are accepted and not executed counts
    exactly those of the log, the executed prefix is committed, and requests
    with one identity are one command.  [ends] computations do not run out of
    fuel and leave a state with the property.  Every handler [ends] from a
    state with the invariant on both logs ([core_ok]); a packet to oneself is
    handled with fuel above its [rank]. *)
From stdpp Require Import gmap strings list fin_maps sorting.
From Stdlib Require Import Lia.
From S2P Require Import Prelude State ReplicaSet Defs Pql PqlLease PqlCore PqlTick.

Module PqlInv.
Import Pql PqlLease PqlCore PqlTick.

Section Inv.
Context `{SM : StateMachine}.
Variable me : Z.
Variable cmd_of : RequestID → Command.
Hypothesis sm_terminates : ∀ cmd s, sm_execute cmd s ≠ OutOfFuel.

(** ** The invariant of a log *)

(** The requests of the configuration log carry no command; those of the
    command log are the commands of their identities. *)
Definition genuine (ctl : bool) (r : Request) : Prop :=
  if ctl then Cmd r = zeroCommand else recoveryNoop r = false → Cmd r = cmd_of (ID r).
Definition record_ok (ctl : bool) (r : Record_) : Prop := 0 ≤ Slot r ∧ genuine ctl (Req r).
Definition packet_ok (ctl : bool) (p : Packet) : Prop :=
  Kind p ≠ packetAck → (∀ r, r ∈ Records p → record_ok ctl r) ∧ (∀ r, r ∈ Requests p → genuine ctl r).

(** The writes of [key] above slot [x] in [m]. *)
Definition write_above (x key : Z) (kv : Z * Record_) : Prop :=
  x < kv.1 ∧ is_put kv.2 = true ∧ K (Cmd (Req kv.2)) = key.
#[local] Instance write_above_dec x key kv : Decision (write_above x key kv) := _.
Definition writes (x key : Z) (m : gmap Z Record_) : nat := size (filter (write_above x key) m).
Definition counts (x key s : Z) (r : Record_) : nat := if (x <? s) && is_put r && (K (Cmd (Req r)) =? key) then 1%nat else 0%nat.

(** A read that the leases allowed: of a key this replica held, with leases valid
    then, answered by the state machine of then, with no write of the key in the
    log that was still to be executed. *)
Record guarded (x : local_read) : Prop := mkGuarded {
  gd_get : Op (Cmd (rd_request x)) = GET;
  gd_holds : holds (rd_policy x) me (K (Cmd (rd_request x))) = true;
  gd_member : ∃ newest, rd_newest x = Some newest ∧ has (excluded newest) me = false;
  gd_lease : canRead (rd_time x) (rd_executed x) (rd_lease x) = true;
  gd_answer : rd_answer x (Cmd (rd_request x)) = Some (rd_value x);
  gd_writes : ∀ slot w, rd_log x !! slot = Some w → is_put w = true → K (Cmd (Req w)) = K (Cmd (rd_request x)) → slot ≤ rd_executed x }.
(** All reads served so far, which the code counts. *)
Definition reads_ok (n : Z) (l : list local_read) : Prop := n = u64 (Z.of_nat (length l)) ∧ Forall guarded l.

Record node_ok (ctl : bool) (d : node) : Prop := mkOk {
  no_id : cid d = me ∧ lid (lease d) = me;
  no_bounds : -1 ≤ executed d ∧ -1 ≤ high d;
  no_log : ∀ s r, log d !! s = Some r → Slot r = s ∧ record_ok ctl r;
  no_prefix : ∀ s, 0 ≤ s ≤ executed d → ∃ r, log d !! s = Some r ∧ Committed r = true;
  no_updating : ∀ key, updates_of d key = Z.of_nat (writes (executed d) key (log d));
  no_pending : ∀ i r, pending d !! i = Some r → genuine ctl r;
  no_frozen : ∀ p, p ∈ frozen d → packet_ok ctl p ∧ Kind p = packetPromise ∧ Control p = false;
  no_pages : ∀ i ps j p, pages d !! i = Some ps → ps !! j = Some p → packet_ok ctl p ∧ Kind p = packetPromise;
  no_resume : ∀ r, r ∈ resume d → genuine ctl r;
  no_served : reads_ok (localReads d) (served d) }.

Lemma pql_node_ok_same ctl d d' :
  node_ok ctl d → cid d' = cid d → lid (lease d') = lid (lease d) → executed d' = executed d → -1 ≤ high d' →
  log d' = log d → updating d' = updating d → pending d' = pending d → frozen d' = frozen d → pages d' = pages d →
  resume d' = resume d → localReads d' = localReads d → served d' = served d → node_ok ctl d'.
Proof.
  intros [H1 H2 H3 H4 H5 H6 H7 H8 H9 H10] E1 E2 E3 E4 E5 E6 E7 E8 E9 E10 E11 E12.
  split; rewrite ?E1, ?E2, ?E3, ?E5, ?E7, ?E8, ?E9, ?E10, ?E11, ?E12; try done; [split; [apply H2|done]|].
  intros key. unfold updates_of. rewrite E6. apply H5.
Qed.

(** *** Counting the writes *)
Lemma updates_add d k key : updates_of (addUpdating k d) key = updates_of d key + (if bool_decide (k = key) then 1 else 0).
Proof.
  unfold updates_of, addUpdating. cbn. case_bool_decide as Hk; [subst; rewrite lookup_insert_eq; cbn; unfold updates_of; lia|].
  rewrite lookup_insert_ne by done. lia.
Qed.
Lemma updates_remove d k key :
  0 < updates_of d k → updates_of (removeUpdating k d) key = updates_of d key - (if bool_decide (k = key) then 1 else 0).
Proof.
  unfold removeUpdating. intros Hpos. destruct (updates_of d k <=? 1) eqn:E; unfold updates_of in *; cbn.
  - case_bool_decide as Hk; [subst; rewrite lookup_delete_eq; cbn; lia|]. rewrite lookup_delete_ne by done. lia.
  - case_bool_decide as Hk; [subst; rewrite lookup_insert_eq; cbn; lia|]. rewrite lookup_insert_ne by done. lia.
Qed.

Lemma write_above_counts x key s r : write_above x key (s, r) ↔ counts x key s r = 1%nat.
Proof.
  unfold write_above, counts. cbn. destruct (Z.ltb_spec x s), (is_put r), (Z.eqb_spec (K (Cmd (Req r))) key); cbn; naive_solver lia.
Qed.
Lemma counts_cases x key s r : counts x key s r = 1%nat ∨ counts x key s r = 0%nat.
Proof. unfold counts. destruct (_ && _); auto. Qed.

Lemma writes_insert x key s r m :
  writes x key (<[s := r]> m) = (writes x key (delete s m) + counts x key s r)%nat.
Proof.
  unfold writes. rewrite <- insert_delete_eq, map_filter_insert.
  assert (filter (write_above x key) (delete s m) !! s = None) as Hn by (apply map_lookup_filter_None_2; left; apply lookup_delete_eq).
  case_decide as Hc; rewrite write_above_counts in Hc.
  - rewrite Hc, map_size_insert_None by done. lia.
  - rewrite delete_delete_eq. destruct (counts_cases x key s r); [done|lia].
Qed.
Lemma writes_lookup x key s r m : m !! s = Some r → writes x key m = (writes x key (delete s m) + counts x key s r)%nat.
Proof. intros Hs. by rewrite <- writes_insert, insert_id. Qed.
Lemma writes_none x key s m : m !! s = None → writes x key (delete s m) = writes x key m.
Proof. intros Hs. by rewrite delete_id. Qed.

(** The next slot is executed. *)
Lemma writes_next x key r m :
  m !! (x + 1) = Some r → writes x key m = (writes (x + 1) key m + counts x key (x + 1) r)%nat.
Proof.
  intros Hs. rewrite (writes_lookup x key _ _ _ Hs), (writes_lookup (x + 1) key _ _ _ Hs).
  assert (counts (x + 1) key (x + 1) r = 0%nat) as ->.
  { unfold counts. by rewrite Z.ltb_irrefl. }
  rewrite Nat.add_0_r. f_equal. unfold writes. f_equal. apply map_filter_ext. intros i y Hy. unfold write_above. cbn.
  assert (i ≠ x + 1) by (intros ->; by rewrite lookup_delete_eq in Hy). split; intros [? ?]; (split; [lia|done]).
Qed.

(** *** Operations on a log *)
Lemma executed_below ctl d s : node_ok ctl d → 0 ≤ s → (∀ r, log d !! s = Some r → Committed r = false) → executed d < s.
Proof.
  intros Hd Hs Hn. destruct (Z.le_gt_cases s (executed d)); [|lia].
  destruct (no_prefix _ _ Hd s) as (r & Hr & Hc); [lia|]. rewrite (Hn r Hr) in Hc. done.
Qed.

Lemma put_record_fields r d :
  let d' := put_record r d in
  cid d' = cid d ∧ lease d' = lease d ∧ executed d' = executed d ∧ (high d' = high d ∨ high d' = Slot r) ∧
  log d' = <[Slot r := r]> (log d) ∧ pending d' = pending d ∧ frozen d' = frozen d ∧ pages d' = pages d ∧ resume d' = resume d ∧
  (localReads d' = localReads d ∧ served d' = served d) ∧ ∀ key, updates_of d' key = updates_of d key + Z.of_nat (counts (executed d) key (Slot r) r).
Proof.
  unfold put_record, counts. cbn zeta.
  set (d1 := if recoveryNoop (Req r) then _ else _).
  assert (cid d1 = cid d ∧ lease d1 = lease d ∧ executed d1 = executed d ∧ high d1 = high d ∧ log d1 = <[Slot r := r]> (log d) ∧
    pending d1 = pending d ∧ frozen d1 = frozen d ∧ pages d1 = pages d ∧ resume d1 = resume d ∧ updating d1 = updating d ∧
    localReads d1 = localReads d ∧ served d1 = served d) as (E1 & E2 & E3 & E4 & E5 & E6 & E7 & E8 & E9 & E10 & E11 & E12) by (unfold d1; by destruct (recoveryNoop _)).
  clearbody d1. rewrite E3. set (d2 := if _ && _ then addUpdating _ d1 else d1).
  assert (cid d2 = cid d ∧ lease d2 = lease d ∧ executed d2 = executed d ∧ high d2 = high d ∧ log d2 = <[Slot r := r]> (log d) ∧
    pending d2 = pending d ∧ frozen d2 = frozen d ∧ pages d2 = pages d ∧ resume d2 = resume d ∧
    localReads d2 = localReads d ∧ served d2 = served d) as (F1 & F2 & F3 & F4 & F5 & F6 & F7 & F8 & F9 & F11 & F12) by (unfold d2; by destruct (_ && _)).
  assert (∀ key, updates_of d2 key = updates_of d key +
    Z.of_nat (if (executed d <? Slot r) && is_put r && (K (Cmd (Req r)) =? key) then 1%nat else 0%nat)) as F10.
  { intros key. unfold d2. destruct ((executed d <? Slot r) && is_put r); cbn [andb].
    - rewrite updates_add. unfold updates_of. rewrite E10. destruct (Z.eqb_spec (K (Cmd (Req r))) key); case_bool_decide; done.
    - unfold updates_of. rewrite E10. lia. }
  clearbody d2. rewrite F4. destruct (high d <? Slot r); cbn; split_and!; try done; auto.
Qed.

Lemma put_record_ok ctl d d1 r :
  node_ok ctl d → record_ok ctl r → executed d < Slot r →
  cid d1 = cid d → lease d1 = lease d → executed d1 = executed d → high d1 = high d → log d1 = log d →
  pending d1 = pending d → frozen d1 = frozen d → pages d1 = pages d → resume d1 = resume d → localReads d1 = localReads d → served d1 = served d →
  (∀ key, updates_of d1 key = Z.of_nat (writes (executed d) key (delete (Slot r) (log d)))) →
  node_ok ctl (put_record r d1).
Proof.
  intros [H1 H2 H3 H4 H5 H6 H7 H8 H9 H10] [Hr0 Hr] Hs E1 E2 E3 E4 E5 E6 E7 E8 E9 E10 E11 Hu.
  destruct (put_record_fields r d1) as (F1 & F2 & F3 & F4 & F5 & F6 & F7 & F8 & F9 & (F11 & F12) & F10).
  rewrite E1, E2, E3, E4, E5, E6, E7, E8, E9 in *.
  split; rewrite ?F1, ?F2, ?F3, ?F5, ?F6, ?F7, ?F8, ?F9, ?F11, ?F12, ?E10, ?E11; try done; [lia|..].
  - intros s r' [[<- <-]|[Hne Hl]]%lookup_insert_Some; [done|by apply H3].
  - intros s Hs'. rewrite lookup_insert_ne by lia. by apply H4.
  - intros key. rewrite F10, Hu, writes_insert. lia.
Qed.

(** A record replaced by one of the same request. *)
Lemma replace_ok ctl d d' s old r :
  node_ok ctl d → log d !! s = Some old → Slot r = s → genuine ctl (Req r) → (is_put old = is_put r ∧ (is_put r = true → K (Cmd (Req old)) = K (Cmd (Req r)))) →
  (Committed old = true → Committed r = true) →
  cid d' = cid d → lid (lease d') = lid (lease d) → executed d' = executed d → -1 ≤ high d' → log d' = <[s := r]> (log d) →
  updating d' = updating d → pending d' = pending d → frozen d' = frozen d → pages d' = pages d → resume d' = resume d →
  localReads d' = localReads d → served d' = served d → node_ok ctl d'.
Proof.
  intros [H1 H2 H3 H4 H5 H6 H7 H8 H9 H10] Hs Hr Hg [Hp Hk] Hc E1 E2 E3 E4 E5 E6 E7 E8 E9 E10 E11 E12.
  destruct (H3 s old Hs) as (_ & Hs0 & _).
  split; rewrite ?E1, ?E2, ?E3, ?E5, ?E7, ?E8, ?E9, ?E10, ?E11, ?E12; try done; [lia|..].
  - intros s' r' [[<- <-]|[Hne Hl]]%lookup_insert_Some; [|by apply H3]. split; [done|]. split; [|done].
    destruct (H3 s old Hs) as [<- [? _]]. lia.
  - intros s' Hs'. destruct (H4 s' Hs') as (r' & Hr' & Hcr). destruct (decide (s' = s)) as [->|].
    + rewrite lookup_insert_eq. rewrite Hs in Hr'. injection Hr' as <-. eauto.
    + rewrite lookup_insert_ne by done. eauto.
  - intros key. unfold updates_of. rewrite E6. fold (updates_of d key). rewrite H5, writes_insert, (writes_lookup _ _ _ _ _ Hs).
    do 2 f_equal. unfold counts. rewrite Hp. destruct (is_put r); [by rewrite Hk|]. by rewrite !andb_false_r.
Qed.

Lemma genuine_put ctl r : genuine ctl (Req r) → is_put r = true → ctl = false ∧ Cmd (Req r) = cmd_of (ID (Req r)) ∧ recoveryNoop (Req r) = false.
Proof.
  unfold genuine, is_put. destruct ctl; [intros ->; done|]. intros Hg Hp. split; [done|].
  assert (recoveryNoop (Req r) = false) as Hn; [|by split; [apply Hg|]].
  unfold recoveryNoop. apply Z.eqb_eq in Hp. rewrite Hp. cbn. by rewrite andb_false_r.
Qed.

Lemma same_request_write ctl a b :
  genuine ctl (Req a) → genuine ctl (Req b) → same_request a b = true →
  is_put a = is_put b ∧ (is_put b = true → K (Cmd (Req a)) = K (Cmd (Req b))).
Proof.
  intros Ha Hb [Hid%bool_decide_eq_true Hn%eqb_prop]%andb_prop.
  assert (∀ x y : Record_, genuine ctl (Req x) → genuine ctl (Req y) → ID (Req x) = ID (Req y) → recoveryNoop (Req x) = recoveryNoop (Req y) →
    is_put x = true → Cmd (Req x) = Cmd (Req y)) as Hgo.
  { intros x y Hx Hy Hxy Hnn Hp. destruct (genuine_put _ _ Hx Hp) as (-> & -> & Hf). rewrite Hxy. symmetry. apply Hy. congruence. }
  split.
  - apply eq_true_iff_eq. split; intros Hp.
    + unfold is_put. rewrite <- (Hgo a b); done.
    + unfold is_put. rewrite <- (Hgo b a); done.
  - intros Hp. by rewrite (Hgo b a).
Qed.

Lemma release_fields old d :
  let d' := release old d in
  cid d' = cid d ∧ lease d' = lease d ∧ executed d' = executed d ∧ high d' = high d ∧ log d' = log d ∧
  pending d' = pending d ∧ frozen d' = frozen d ∧ pages d' = pages d ∧ resume d' = resume d ∧
  (localReads d' = localReads d ∧ served d' = served d) ∧ updating d' = updating (if is_put old then removeUpdating (K (Cmd (Req old))) d else d).
Proof.
  unfold release, removeUpdating. destruct (is_put old); [destruct (_ <=? 1)|]; destruct (recoveryNoop _); cbn; done.
Qed.

Lemma pql_install_ok ctl r d : node_ok ctl d → record_ok ctl r → ends (install r d) (node_ok ctl).
Proof.
  intros Hd Hr. unfold install. destruct (log d !! Slot r) as [old|] eqn:Hl.
  - destruct (no_log _ _ Hd _ _ Hl) as [Hslot [Hs0 Hg]]. destruct (Committed old) eqn:Hc; [by destruct (same_request old r)|].
    destruct (same_request old r) eqn:Hsame; cbn.
    + destruct Hr as [? Hr]. apply (replace_ok ctl d _ (Slot r) old r); try done; [by apply (same_request_write ctl)|by rewrite Hc|apply (no_bounds _ _ Hd)].
    + assert (executed d < Slot r) as Hlt by (apply (executed_below ctl); [done|apply Hr|intros r' Hr'; congruence]).
      destruct (release_fields old d) as (E1 & E2 & E3 & E4 & E5 & E6 & E7 & E8 & E9 & (E11 & E12) & E10).
      apply (put_record_ok ctl d); try done. intros key. unfold updates_of. rewrite E10. fold (updates_of (if is_put old then removeUpdating (K (Cmd (Req old))) d else d) key).
      pose proof (no_updating _ _ Hd key) as Hu. rewrite (writes_lookup _ key _ _ _ Hl) in Hu. unfold counts in Hu.
      rewrite (proj2 (Z.ltb_lt _ _) Hlt) in Hu. cbn in Hu. destruct (is_put old) eqn:Hp; cbn in Hu; [|lia].
      rewrite updates_remove.
      * destruct (Z.eqb_spec (K (Cmd (Req old))) key); case_bool_decide; lia.
      * pose proof (no_updating _ _ Hd (K (Cmd (Req old)))) as Hu'. rewrite (writes_lookup _ _ _ _ _ Hl) in Hu'. unfold counts in Hu'.
        rewrite (proj2 (Z.ltb_lt _ _) Hlt), Hp, Z.eqb_refl in Hu'. cbn in Hu'. lia.
  - cbn. apply (put_record_ok ctl d); try done.
    + apply (executed_below ctl); [done|apply Hr|]. intros r'. by rewrite Hl.
    + intros key. rewrite delete_id by done. apply (no_updating _ _ Hd).
Qed.

Lemma edit_record_ok ctl s f d :
  (∀ r, Req (f r) = Req r ∧ Slot (f r) = Slot r ∧ (Committed r = true → Committed (f r) = true)) →
  node_ok ctl d → ends (edit_record s f d) (node_ok ctl).
Proof.
  intros Hf Hd. unfold edit_record. destruct (log d !! s) as [r|] eqn:Hl; [|done]. cbn.
  destruct (Hf r) as (F1 & F2 & F3). destruct (no_log _ _ Hd _ _ Hl) as [Hslot [Hs0 Hg]].
  apply (replace_ok ctl d _ s r (f r)); try done; [congruence|by rewrite F1|unfold is_put; by rewrite F1|apply (no_bounds _ _ Hd)].
Qed.

Lemma noop_genuine ctl s : genuine ctl (noop_request s).
Proof. by destruct ctl. Qed.

Lemma fill_loop_ok ctl count : ∀ d, node_ok ctl d → ends (fill_loop count d) (node_ok ctl).
Proof.
  induction count as [|count IH]; intros d Hd; cbn; [done|]. destruct (_ && _); [|done].
  eapply ends_bind; [apply (pql_install_ok ctl)|apply IH]; [done|]. split; [cbn; destruct (no_bounds _ _ Hd); lia|apply noop_genuine].
Qed.
Lemma fillCatchup_ok ctl d : node_ok ctl d → ends (fillCatchup d) (node_ok ctl).
Proof. intros Hd. unfold fillCatchup. destruct (_ || _); [done|]. by apply fill_loop_ok. Qed.

(** ** The invariant of a replica *)
Definition core_ok (c : core) : Prop := node_ok false (data c) ∧ node_ok true (config c).

Lemma core_ok_log ctl c : core_ok c → node_ok ctl (log_of ctl c).
Proof. intros [? ?]. by destruct ctl. Qed.
Lemma log_of_upd ctl f c : log_of ctl (upd ctl f c) = f (log_of ctl c).
Proof. by destruct ctl. Qed.
Lemma pql_upd_ok ctl f c : core_ok c → node_ok ctl (f (log_of ctl c)) → core_ok (upd ctl f c).
Proof. intros [? ?] Hf. by destruct ctl. Qed.

(** A change of fields the invariant does not look at. *)
Ltac keep H := apply (pql_node_ok_same _ _ _ H); try reflexivity; cbn;
  try exact (proj2 (no_bounds _ _ H)); try (destruct (no_bounds _ _ H); lia).

Lemma upd_keep ctl f c :
  core_ok c → (∀ d, node_ok ctl d → node_ok ctl (f d)) → core_ok (upd ctl f c).
Proof. intros Hc Hf. apply pql_upd_ok; [done|]. by apply Hf, core_ok_log. Qed.

Lemma reply_ok ctl r v c : core_ok c → core_ok (reply ctl r v c).
Proof. by destruct ctl. Qed.

(** *** [apply] *)
Lemma executed_next ctl r d :
  node_ok ctl d → log d !! (executed d + 1) = Some r → Committed r = true →
  ∀ d', cid d' = cid d → lease d' = lease d → high d' = high d → log d' = log d → pending d' ⊆ pending d → frozen d' = frozen d →
    pages d' = pages d → resume d' = resume d → localReads d' = localReads d → served d' = served d → executed d' = executed d + 1 →
    updating d' = updating (if is_put r then removeUpdating (K (Cmd (Req r))) d else d) → node_ok ctl d'.
Proof.
  intros [H1 H2 H3 H4 H5 H6 H7 H8 H9 H10] Hl Hc d' E1 E2 E3 E4 E5 E6 E7 E8 E11 E12 E9 E10.
  split; rewrite ?E1, ?E2, ?E3, ?E4, ?E6, ?E7, ?E8, ?E9, ?E11, ?E12; try done; [lia|..| |].
  - intros s Hs. destruct (decide (s = executed d + 1)) as [->|]; [by exists r|]. apply H4. lia.
  - intros key. unfold updates_of. rewrite E10. fold (updates_of (if is_put r then removeUpdating (K (Cmd (Req r))) d else d) key).
    assert (∀ key, writes (executed d) key (log d) = (writes (executed d + 1) key (log d) + counts (executed d) key (executed d + 1) r)%nat) as Hw
      by (intros k; by apply writes_next).
    assert (∀ key, counts (executed d) key (executed d + 1) r = if is_put r && (K (Cmd (Req r)) =? key) then 1%nat else 0%nat) as Hcnt.
    { intros k. unfold counts. rewrite (proj2 (Z.ltb_lt _ _)) by lia. done. }
    pose proof (H5 key) as Hu. rewrite Hw, Hcnt in Hu. destruct (is_put r); cbn [andb] in Hu; [|lia].
    rewrite updates_remove.
    + destruct (Z.eqb_spec (K (Cmd (Req r))) key); case_bool_decide; try done; lia.
    + pose proof (H5 (K (Cmd (Req r)))) as Hu'. rewrite Hw, Hcnt, Z.eqb_refl in Hu'. cbn in Hu'. lia.
  - intros i r' Hi. apply (H6 i). by apply (lookup_weaken _ _ _ _ Hi).
Qed.

(** What one round does to the log that executes. *)
Definition ran (ctl : bool) (r : Record_) (d d' : node) : Prop :=
  cid d' = cid d ∧ lease d' = lease d ∧ executed d' = executed d ∧ high d' = high d ∧ log d' = log d ∧ updating d' = updating d ∧
  pending d' = pending d ∧ frozen d' = frozen d ∧ pages d' = pages d ∧ resume d' = resume d ∧ localReads d' = localReads d ∧ served d' = served d.
Definition others (ctl : bool) (c c' : core) : Prop := if ctl then data c' = data c else config c' = config c.

Lemma run_command_frame ctl r c :
  ends (run_command ctl r c) (λ c', ran ctl r (log_of ctl c) (log_of ctl c') ∧ others ctl c c').
Proof.
  assert (∀ c, ran ctl r (log_of ctl c) (log_of ctl c) ∧ others ctl c c) as Hrefl by (intros c0; by destruct ctl).
  unfold run_command. destruct (_ || _); [apply Hrefl|]. destruct (Op _ =? NONE); cbn [mbind outcome_bind].
  - destruct (Origin _ =? _); destruct ctl; done.
  - destruct ctl; [done|]. destruct (sm_execute _ _) as [[v s]| |] eqn:Es; [|done|].
    + cbn. destruct (Origin _ =? _); done.
    + by destruct (sm_terminates _ _ Es).
Qed.

Lemma core_ok_intro ctl c c' : core_ok c → others ctl c c' → node_ok ctl (log_of ctl c') → core_ok c'.
Proof. intros [H1 H2] Ho Hn. destruct ctl; cbn in *; split; congruence. Qed.

(** Whatever else it changes, one round executes the next slot. *)
Lemma pql_apply_one_ok ctl r c :
  core_ok c → log (log_of ctl c) !! (executed (log_of ctl c) + 1) = Some r → Committed r = true →
  ends (apply_one ctl r c) (λ c', core_ok c' ∧ log (log_of ctl c') = log (log_of ctl c) ∧ executed (log_of ctl c') = executed (log_of ctl c) + 1).
Proof.
  intros Hc Hl Hcom. unfold apply_one.
  eapply (ends_bind _ _ (λ c', ran ctl r (log_of ctl c) (log_of ctl c') ∧ others ctl c c')).
  { destruct ctl; [|done]. cbn. unfold commitConfiguration, latest. destruct (policies c !! latestEpoch c); [|done].
    cbn. destruct (recoveryNoop (Req r)); done. }
  intros c1 [H1 O1]. eapply ends_bind; [apply run_command_frame|]. intros c2 [H2 O2]. cbn.
  assert (ran ctl r (log_of ctl c) (log_of ctl c2) ∧ others ctl c c2) as [Hran Ho].
  { unfold ran, others in *. destruct ctl; naive_solver congruence. }
  clear c1 H1 O1 H2 O2. destruct Hran as (E1 & E2 & E3 & E4 & E5 & E6 & E7 & E8 & E9 & E10 & E11 & E12).
  set (c3 := if is_put r then upd ctl _ c2 else c2). set (c4 := if recoveryNoop (Req r) then c3 else _).
  assert (others ctl c c4) as Ho4.
  { unfold c4, c3. unfold others in *. destruct ctl; destruct (recoveryNoop _), (is_put r); cbn in *; done. }
  assert (log_of ctl c4 = (λ d, if recoveryNoop (Req r) then d else d <| pending ::= delete (ID (Req r)) |>)
    (if is_put r then removeUpdating (K (Cmd (Req r))) (log_of ctl c2) else log_of ctl c2)) as Hd4.
  { unfold c4, c3. destruct (recoveryNoop _), (is_put r); rewrite ?log_of_upd; done. }
  clearbody c3 c4. rewrite log_of_upd, Hd4. set (d5 := if is_put r then _ else _) in *.
  assert (log d5 = log (log_of ctl c) ∧ executed d5 = executed (log_of ctl c) ∧ pending d5 = pending (log_of ctl c) ∧
    cid d5 = cid (log_of ctl c) ∧ lease d5 = lease (log_of ctl c) ∧ high d5 = high (log_of ctl c) ∧ frozen d5 = frozen (log_of ctl c) ∧
    pages d5 = pages (log_of ctl c) ∧ resume d5 = resume (log_of ctl c) ∧
    localReads d5 = localReads (log_of ctl c) ∧ served d5 = served (log_of ctl c) ∧
    updating d5 = updating (if is_put r then removeUpdating (K (Cmd (Req r))) (log_of ctl c) else log_of ctl c))
    as (F1 & F2 & F3 & F4 & F5 & F6 & F7 & F8 & F9 & F11 & F12 & F10).
  { unfold d5, removeUpdating, updates_of. destruct (is_put r); [rewrite E6; destruct (_ <=? 1)|]; cbn; rewrite ?E6; split_and!; done. }
  clearbody d5. split_and!.
  - apply (core_ok_intro ctl c); [done|unfold others in *; by destruct ctl|]. rewrite log_of_upd, Hd4.
    apply (executed_next ctl r (log_of ctl c)); try done; [by apply core_ok_log|..]; destruct (recoveryNoop (Req r)); cbn; try congruence.
    + by rewrite F3.
    + rewrite F3. apply delete_subseteq.
  - destruct (recoveryNoop (Req r)); cbn; done.
  - destruct (recoveryNoop (Req r)); cbn; by rewrite F2.
Qed.

Lemma pql_apply_ok ctl c : core_ok c → ends (apply ctl c) core_ok.
Proof.
  intros Hc. unfold apply.
  set (left := λ c, size (filter (λ kv : Z * Record_, executed (log_of ctl c) < kv.1) (log (log_of ctl c)))).
  assert (∀ fuel c, core_ok c → (left c < fuel)%nat → ends (apply_loop ctl fuel c) core_ok) as Hgo.
  { induction fuel as [|fuel IH]; intros c0 H0 Hf; [lia|]. cbn.
    destruct (log (log_of ctl c0) !! (executed (log_of ctl c0) + 1)) as [r|] eqn:Hl; [|done].
    destruct (Committed r) eqn:Hcom; [|done]. eapply ends_bind; [by apply pql_apply_one_ok|]. intros c1 (H1 & Hlog & Hex).
    apply IH; [done|]. enough (left c1 < left c0)%nat by lia. unfold left. rewrite Hlog, Hex.
    apply map_subset_size. apply map_subset_alt. split.
    - apply map_filter_strong_subseteq_ext. intros s r' [Hs' Hr']. cbn in *. split; [lia|done].
    - exists (executed (log_of ctl c0) + 1). split; [apply map_lookup_filter_None_2; right; intros r' _; cbn; lia|].
      exists r. apply map_lookup_filter_Some_2; [done|cbn; lia]. }
  apply Hgo; [done|]. pose proof (map_size_filter (λ kv : Z * Record_, executed (log_of ctl c) < kv.1) (log (log_of ctl c))). unfold left. lia.
Qed.

(** *** Changes of the request tables *)
Lemma pending_insert_ok ctl d i r : genuine ctl r → node_ok ctl d → node_ok ctl (d <| pending ::= <[i := r]> |>).
Proof. intros Hr [P1 P2 P3 P4 P5 P6 P7 P8 P9 P10]. split; try done. cbn. intros j r' [[_ <-]|[_ Hj]]%lookup_insert_Some; [done|by apply (P6 j)]. Qed.
Lemma pending_delete_ok ctl d i : node_ok ctl d → node_ok ctl (d <| pending ::= delete i |>).
Proof. intros [P1 P2 P3 P4 P5 P6 P7 P8 P9 P10]. split; try done. cbn. intros j r' [_ Hj]%lookup_delete_Some. by apply (P6 j). Qed.
Lemma enqueue_ok ctl r d : node_ok ctl d → node_ok ctl (enqueue r d).
Proof. intros Hd. unfold enqueue. repeat case_decide; try done. keep Hd. Qed.

Lemma pql_ack_ok ctl p c : core_ok c → ends (ack ctl p c) core_ok.
Proof.
  intros Hc. unfold ack. destruct (_ || _); [done|].
  eapply (ends_bind _ _ (λ st, node_ok ctl st.2)).
  { apply (ends_forEach _ (λ _, True)); [by apply core_ok_log|done|]. intros a [committed d] _ Hd. unfold ack_one.
    destruct (Slot a <=? executed d); [done|]. destruct (log d !! Slot a) as [r|] eqn:Hl; [|done]. destruct (_ && _); [done|].
    set (voters := ReplicaSet.With _ _).
    assert (node_ok ctl (d <| votes ::= <[Slot a := voters]> |>)) as Hd' by keep Hd.
    destruct (_ || _); [done|]. destruct (negb _); [done|]. cbn.
    destruct (no_log _ _ Hd _ _ Hl) as [? [? ?]].
    apply (replace_ok ctl _ _ (Slot a) r (r <| Committed := true |>) Hd'); try done. apply (no_bounds _ _ Hd). }
  intros [committed d] Hd. cbn in Hd |- *. apply pql_apply_ok.
  assert (core_ok (upd ctl (λ _, d) c)) by (by apply pql_upd_ok). by destruct (Nat.eqb _ 0).
Qed.

(** ** Handlers that send *)

(** How much fuel a packet to oneself takes. *)
Definition rank (p : Packet) : nat :=
  if Kind p =? packetPrepare then 4 else if Kind p =? packetPromise then 3 else if Kind p =? packetFetch then 3
  else if Kind p =? packetAccept then 2 else if Kind p =? packetAck then 1 else 0.

Lemma empty_packet_ok ctl p : Records p = [] → Requests p = [] → packet_ok ctl p.
Proof. intros H1 H2 _. rewrite H1, H2. split; intros ? []%elem_of_nil. Qed.

Lemma log_packet_ok ctl p rs : Records p = rs → Requests p = [] → (∀ r, r ∈ rs → record_ok ctl r) → packet_ok ctl p.
Proof. intros <- H2 H _. rewrite H2. split; [done|intros ? []%elem_of_nil]. Qed.

Lemma request_packet_ok ctl p r : Records p = [] → Requests p = [r] → genuine ctl r → packet_ok ctl p.
Proof. intros H1 H2 H _. rewrite H1, H2. split; [intros ? []%elem_of_nil|by intros ? ->%list_elem_of_singleton]. Qed.

Lemma mark_ok ctl p : packet_ok ctl p → Control p = false → packet_ok (Control (mark ctl p)) (mark ctl p).
Proof. intros Hp Hc. destruct ctl; [done|]. cbn. by rewrite Hc. Qed.

Section Send.
Variable e : env.
Variable rcv : Packet → core → outcome core.
Variable k : nat.
Hypothesis rcv_ok : ∀ p c, (rank p < k)%nat → packet_ok (Control p) p → core_ok c → ends (rcv p c) core_ok.

Lemma send_ok ctl to p c :
  packet_ok ctl p → Control p = false → (to = me → (rank p < k)%nat) → core_ok c → ends (send ctl rcv to p c) core_ok.
Proof.
  intros Hp Hctl Hr Hc. unfold send. assert (core_ok (emit (Sent to (mark ctl p)) c)) as Hc' by done.
  destruct (Z.eqb_spec to (cid (log_of ctl (emit (Sent to (mark ctl p)) c)))) as [Hto|]; [|done].
  rewrite (proj1 (no_id _ _ (core_ok_log ctl _ Hc'))) in Hto. apply rcv_ok; [|by apply mark_ok|done].
  replace (rank (mark ctl p)) with (rank p) by (by destruct ctl). auto.
Qed.

Lemma sendMask_ok ctl mask p c :
  packet_ok ctl p → Control p = false → (rank p < k)%nat → core_ok c → ends (sendMask ctl rcv mask p c) core_ok.
Proof. intros Hp Hctl Hr Hc. apply (ends_forEach _ (λ _, True)); [done..|]. intros to c' _ Hc'. by apply send_ok. Qed.

Lemma observeTime_ok ctl c t c' : core_ok c → observeTime ctl e c = (t, c') → core_ok c'.
Proof.
  intros Hc. unfold observeTime. destruct (before _ _); intros [= <- <-]; [done|]. apply upd_keep; [done|]. intros d Hd. keep Hd.
Qed.

Lemma me_log ctl c : core_ok c → cid (log_of ctl c) = me.
Proof. intros Hc. apply (no_id _ _ (core_ok_log ctl _ Hc)). Qed.

Lemma pql_finish_ok ctl r v c : genuine ctl r → core_ok c → ends (finish ctl rcv r v c) core_ok.
Proof.
  intros Hr Hc. unfold finish. rewrite (me_log _ _ Hc). destruct (Z.eqb_spec (Origin r) me); [by apply reply_ok|].
  destruct (negb _); [done|]. apply send_ok; try done. by apply (request_packet_ok _ _ r).
Qed.

Lemma pql_requestFetch_ok ctl now c : core_ok c → ends (requestFetch ctl rcv now c) core_ok.
Proof.
  intros Hc. unfold requestFetch. rewrite (me_log _ _ Hc). destruct (Z.eqb_spec me (leader (log_of ctl c))) as [|Hne]; [done|].
  destruct (_ <? _).
  - apply upd_keep; [done|]. intros d Hd. keep Hd.
  - apply send_ok; [by apply empty_packet_ok|done| |apply upd_keep; [done|]; intros d Hd; keep Hd].
    intros Hl. by destruct Hne.
Qed.

Lemma submit_ordered_ok ctl r c : genuine ctl r → core_ok c → ends (submit_ordered ctl rcv r c) core_ok.
Proof.
  intros Hr Hc. unfold submit_ordered. set (c1 := upd ctl _ c).
  assert (core_ok c1) as H1 by (apply upd_keep; [done|intros d Hd; by apply pending_insert_ok]). clearbody c1.
  destruct (negb _); [done|]. rewrite (me_log _ _ H1). destruct (Z.eqb_spec (leader (log_of ctl c1)) me) as [|Hne].
  - cbn. apply upd_keep; [done|]. intros d Hd. apply enqueue_ok. destruct (_ =? GET); [|done]. keep Hd.
  - apply send_ok; [by apply (request_packet_ok _ _ r)|done|done|]. destruct (_ =? GET); [|done].
    apply upd_keep; [done|]. intros d Hd. keep Hd.
Qed.

(** A read by a holder of its key that is not excluded. *)
Definition allowed (ctl : bool) (r : Request) (c : core) : Prop :=
  Op (Cmd r) = GET ∧ holds (readPolicy ctl c) me (K (Cmd r)) = true ∧
  ∃ newest, policies c !! latestEpoch c = Some newest ∧ has (excluded newest) me = false.

Lemma read_guarded ctl r v s now c :
  core_ok c → allowed ctl r c → updates_of (log_of ctl c) (K (Cmd r)) = 0 →
  canRead now (executed (log_of ctl c)) (lease (log_of ctl c)) = true → sm_execute (Cmd r) (sm c) = Done (v, s) →
  guarded (read_record ctl r v now c).
Proof.
  intros Hc (Hget & Hholds & Hmember) Hu Hcan Hexec. split; cbn; try done; [by rewrite Hexec|].
  intros slot w Hw Hput Hkey. destruct (Z.le_gt_cases slot (executed (log_of ctl c))) as [|Hlt]; [done|exfalso].
  pose proof (no_updating _ _ (core_ok_log ctl c Hc) (K (Cmd r))) as Hn. rewrite Hu, (writes_lookup _ _ _ _ _ Hw) in Hn.
  assert (counts (executed (log_of ctl c)) (K (Cmd r)) slot w = 1%nat) as Hcnt; [|lia].
  unfold counts. by rewrite (proj2 (Z.ltb_lt _ _)), Hput, Hkey, Z.eqb_refl by lia.
Qed.
Lemma reads_ok_app n l x : reads_ok n l → guarded x → reads_ok (tally n) (l ++ [x]).
Proof.
  intros [-> Hl] Hx. split; [|by apply Forall_app; split; [|apply Forall_singleton]].
  unfold tally, wrapU. rewrite length_app, Nat2Z.inj_add, Zplus_mod_idemp_l. done.
Qed.

Lemma submit_local_ok ctl r h now c :
  genuine ctl r → core_ok c → (h = true → allowed ctl r c) → ends (submit_local ctl rcv r h now c) core_ok.
Proof.
  intros Hr Hc Hh. unfold submit_local. destruct (_ && _ && _) eqn:E.
  - destruct (sm_execute _ _) as [[v s]| |] eqn:Es; [|done|by destruct (sm_terminates _ _ Es)]. cbn.
    apply andb_prop in E as [[-> Hu]%andb_prop Hcan]. apply Z.eqb_eq in Hu.
    pose proof (read_guarded ctl r v s now c Hc (Hh eq_refl) Hu Hcan Es) as Hg. set (x := read_record ctl r v now c) in *. clearbody x.
    apply pql_finish_ok; [done|]. apply pql_upd_ok; [done|]. change (log_of ctl (c <| sm := s |>)) with (log_of ctl c). pose proof (core_ok_log ctl c Hc) as Hd.
    destruct (pending_delete_ok ctl _ (ID r) Hd) as [P1 P2 P3 P4 P5 P6 P7 P8 P9 P10]. split; try done. cbn. by apply reads_ok_app.
  - assert (core_ok (upd ctl (λ d, d <| pending ::= <[ID r := r]> |>) c)) as H1.
    { apply upd_keep; [done|]. intros d Hd. by apply pending_insert_ok. }
    cbn. case_decide; [done|]. apply upd_keep; [done|]. intros d Hd. keep Hd.
Qed.

Lemma count_read_ok ctl r c : core_ok c → core_ok (count_read ctl r c).
Proof. intros Hc. unfold count_read. by destruct (_ && _). Qed.

Lemma pql_submit_ok ctl r c : genuine ctl r → core_ok c → ends (submit ctl e rcv r c) core_ok.
Proof.
  intros Hr Hc. unfold submit. destruct (observeTime ctl e c) as [now c1] eqn:Et. apply observeTime_ok in Et; [|done].
  destruct (values _ !! _).
  { apply pql_finish_ok; [done|]. apply upd_keep; [done|]. intros d Hd. keep Hd. }
  destruct (forwardResults _ !! _); [by apply reply_ok|]. pose proof (count_read_ok ctl r _ Et) as H2.
  cbn zeta. set (c2 := count_read ctl r c1) in *. clearbody c2. destruct (negb ctl && _ && _) eqn:Eget; [|by apply submit_ordered_ok].
  apply andb_prop in Eget as [_ Hget]. apply Z.eqb_eq in Hget.
  unfold latest. destruct (policies c2 !! latestEpoch c2) as [newest|] eqn:En; [|done]. cbn. rewrite (me_log _ _ H2).
  destruct (_ || _); [|by apply submit_ordered_ok]. apply submit_local_ok; [done|done|]. intros [Hm Hh]%andb_prop.
  split_and!; [done|done|]. exists newest. split; [done|by apply negb_true_iff].
Qed.

(** *** Accepting *)
Lemma pql_accept_one_ok ctl p r st :
  record_ok ctl r → node_ok ctl st.2 → ends (accept_one p r st) (λ st, node_ok ctl st.2).
Proof.
  destruct st as [[accepted gap] d]. intros Hr Hd. cbn in Hd. unfold accept_one.
  assert (node_ok ctl (d <| gapAccepts ::= tally |>)) as Hd' by keep Hd.
  destruct (_ && _); (eapply ends_bind; [apply (pql_install_ok ctl)|]); try done; intros; done.
Qed.

Lemma pql_accept_ok ctl p now c :
  (2 ≤ k)%nat → (∀ r, r ∈ Records p → record_ok ctl r) → core_ok c → ends (accept rcv ctl p now c) core_ok.
Proof.
  intros Hk Hp Hc. unfold accept. destruct (_ && _).
  { assert (core_ok (upd ctl (λ d, d <| leaseRejects ::= tally |>) c)) by (apply upd_keep; [done|]; intros d Hd; keep Hd).
    destruct (bool_decide _); [by apply pql_requestFetch_ok|done]. }
  eapply (ends_bind _ _ (λ st, node_ok ctl st.2)).
  { apply (ends_forEach _ (record_ok ctl)); [by apply core_ok_log|done|]. intros; by apply pql_accept_one_ok. }
  intros [[accepted gap] d] Hd. cbn in Hd. assert (core_ok (upd ctl (λ _, d) c)) as H1 by (by apply pql_upd_ok).
  eapply (ends_bind _ _ core_ok); [destruct gap; [by apply pql_requestFetch_ok|done]|]. intros c2 H2.
  destruct (Nat.eqb _ 0); [done|]. by apply send_ok.
Qed.

(** *** Sending again *)
Lemma suffix_records_ok ctl lo hi d r : node_ok ctl d → r ∈ suffix_records lo hi d → record_ok ctl r.
Proof.
  intros Hd Hr. unfold suffix_records in Hr. apply list_elem_of_omap in Hr as (s & _ & Hs).
  destruct (log d !! s) as [r'|] eqn:Hl; [|done]. injection Hs as <-. destruct (no_log _ _ Hd _ _ Hl) as [_ [? ?]]. done.
Qed.

Definition groups_ok (ctl : bool) (gs : list (Z * list Record_)) : Prop := ∀ g r, g ∈ gs → r ∈ g.2 → record_ok ctl r.
Lemma group_add_ok ctl mask r gs : groups_ok ctl gs → record_ok ctl r → groups_ok ctl (group_add mask r gs).
Proof.
  intros Hgs Hr. induction gs as [|[m rs] gs IH]; cbn.
  - intros g x ->%list_elem_of_singleton ->%list_elem_of_singleton. done.
  - destruct (m =? mask).
    + intros g x [->|Hg]%elem_of_cons Hx; [|apply (Hgs g); [by right|done]]. cbn in Hx.
      apply elem_of_app in Hx as [Hx| ->%list_elem_of_singleton]; [|done]. apply (Hgs (m, rs)); [left|done].
    + intros g x [->|Hg]%elem_of_cons Hx; [apply (Hgs (m, rs)); [left|done]|]. apply (IH ltac:(intros g' x' Hg' Hx'; apply (Hgs g'); [by right|done]) g x Hg Hx).
Qed.

Definition grouped_ok (ctl : bool) (st : list (Z * list Record_) * node) : Prop := groups_ok ctl st.1 ∧ node_ok ctl st.2.

Lemma prepare_record_ok ctl r st : record_ok ctl r → grouped_ok ctl st → ends (prepare_record r st) (grouped_ok ctl).
Proof.
  destruct st as [gs d]. intros Hr [Hgs Hd]. cbn in Hgs, Hd. unfold prepare_record.
  set (notify := if is_put r then _ else 0). set (epoch := promisedBy (lease d)).
  change (Slot (r <| Committed := false |> <| NotifyMask := notify |> <| RLeaseEpoch := epoch |>)) with (Slot r).
  destruct (log d !! Slot r) as [local|] eqn:Hl; [|done]. destruct (no_log _ _ Hd _ _ Hl) as [Hslot [Hs0 Hgen]].
  set (d1 := if _ || _ then d <| votes ::= delete (Slot r) |> else d).
  assert (node_ok ctl d1) as H1 by (unfold d1; destruct (_ || _); [keep Hd|done]).
  assert (log d1 = log d) as E1 by (unfold d1; by destruct (_ || _)). clearbody d1. cbn.
  split; [by apply group_add_ok|]. cbn.
  apply (replace_ok ctl d1 _ (Slot r) local (local <| RLeaseEpoch := epoch |> <| NotifyMask := notify |>)); try done; [by rewrite E1|apply (no_bounds _ _ H1)].
Qed.

Lemma send_group_ok ctl g c :
  (3 ≤ k)%nat → (∀ r, r ∈ g.2 → record_ok ctl r) → core_ok c → ends (send_group rcv ctl g c) core_ok.
Proof.
  intros Hk Hg Hc. apply sendMask_ok; [by apply (log_packet_ok _ _ g.2)|done|done|]. apply upd_keep; [done|]. intros d Hd. keep Hd.
Qed.

Lemma pql_suffix_page_ok ctl now to hi fetch lo c :
  (3 ≤ k)%nat → core_ok c → ends (suffix_page rcv ctl now to hi fetch lo c) core_ok.
Proof.
  intros Hk Hc. unfold suffix_page. pose proof (core_ok_log ctl c Hc) as Hd.
  assert (∀ r, r ∈ suffix_records lo hi (log_of ctl c) → record_ok ctl r) as Hrs by (intros r; by apply suffix_records_ok).
  set (recs := suffix_records _ _ _) in *. destruct (Nat.eqb _ 0); [done|]. rewrite (me_log _ _ Hc).
  destruct (fetch && negb (to =? me)) eqn:Ef; [apply andb_prop in Ef as [_ Hto]|].
  - eapply (ends_bind _ _ core_ok); [by apply send_ok; [apply (log_packet_ok _ _ recs)|..]|]. intros c2 H2.
    destruct (Nat.eqb _ 0); [done|]. apply send_ok; try done; [|lia].
    eapply log_packet_ok; [reflexivity..|]. intros r [_ Hr]%list_elem_of_filter. by apply Hrs.
  - destruct ctl.
    + apply pql_accept_ok; [lia|cbn; intros r (r' & -> & Hr')%list_elem_of_fmap; by apply (Hrs r')|].
      apply (upd_keep true) with (f := λ d, d <| quorumSends ::= tally |>) in Hc; [done|]. intros d Hd'. keep Hd'.
    + eapply (ends_bind _ _ (grouped_ok false)).
      { apply (ends_forEach _ (record_ok false)); [split; [by intros g r ?%elem_of_nil|done]|done|]. intros r st. by apply prepare_record_ok. }
      intros [gs d] [Hgs Hd']. cbn in Hgs, Hd'. apply (ends_forEach _ (λ g : Z * list Record_, ∀ r, r ∈ g.2 → record_ok false r)).
      * by apply pql_upd_ok.
      * intros g Hg r Hr. by apply (Hgs g).
      * intros g c' Hg Hc'. by apply send_group_ok.
Qed.

Lemma pql_sendSuffix_ok ctl to start fetch now c :
  (3 ≤ k)%nat → core_ok c → ends (sendSuffix rcv ctl to start fetch now c) core_ok.
Proof. intros Hk Hc. apply (ends_forEach _ (λ _, True)); [done..|]. intros lo c' _ Hc'. by apply pql_suffix_page_ok. Qed.

Lemma pql_schedulePending_ok ctl d : node_ok ctl d → node_ok ctl (schedulePending e ctl d).
Proof.
  intros [P1 P2 P3 P4 P5 P6 P7 P8 P9 P10]. split; try done. cbn. intros r ([i r'] & -> & Hr)%list_elem_of_fmap.
  apply elem_of_range_order in Hr. by apply (P6 i).
Qed.

Lemma pql_activate_ok ctl c : core_ok c → core_ok (activate e ctl c).
Proof.
  intros Hc. unfold activate. set (c1 := upd ctl _ c). assert (core_ok c1) as H1 by (apply upd_keep; [done|]; intros d Hd; keep Hd).
  apply upd_keep; [|intros d Hd; by apply pql_schedulePending_ok]. done.
Qed.

(** *** Promises *)
Lemma pql_promise_ok ctl p c : (4 ≤ k)%nat → core_ok c → ends (promise rcv ctl p c) core_ok.
Proof.
  intros Hk Hc. unfold promise. pose proof (core_ok_log ctl c Hc) as Hd.
  assert (∀ q c, packet_ok ctl q ∧ Kind q = packetPromise ∧ Control q = false → core_ok c → ends (send ctl rcv (From p) q c) core_ok) as Hsend.
  { intros q c' (H1 & H2 & H3) Hc'. apply send_ok; try done. intros _. unfold rank. rewrite H2. cbn. lia. }
  destruct (_ && _ && _).
  - apply (ends_forEach _ (λ q, packet_ok ctl q ∧ Kind q = packetPromise ∧ Control q = false)); [done|apply (no_frozen _ _ Hd)|done].
  - set (vals := promise_values _ _).
    assert (∀ r, r ∈ vals → record_ok ctl r) as Hvals.
    { intros r (s & _ & Hs)%list_elem_of_omap. by apply (no_log _ _ Hd s). }
    assert (∀ q, q ∈ promise_page (Floor p) vals (log_of ctl c) <$> seqZ 0 (page_count (length vals)) →
      packet_ok ctl q ∧ Kind q = packetPromise ∧ Control q = false) as Hpages.
    { intros q (page & -> & _)%list_elem_of_fmap. split; [|done]. eapply log_packet_ok; [reflexivity..|].
      intros r Hr. apply Hvals. apply elem_of_take in Hr as (i & Hr & _). rewrite lookup_drop in Hr. by apply list_elem_of_lookup_2 in Hr. }
    apply (ends_forEach _ (λ q, packet_ok ctl q ∧ Kind q = packetPromise ∧ Control q = false)); [|done|done].
    apply upd_keep; [done|]. intros d [P1 P2 P3 P4 P5 P6 P7 P8 P9 P10]. by split.
Qed.

(** *** The election *)
Definition selected_ok (ctl : bool) (m : gmap Z Record_) : Prop := ∀ s r, m !! s = Some r → Slot r = s ∧ record_ok ctl r.

Lemma select_record_ok ctl m r : selected_ok ctl m → record_ok ctl r → selected_ok ctl (select_record m r).
Proof.
  intros Hm Hr. unfold select_record. assert (selected_ok ctl (<[Slot r := r]> m)) as Hi.
  { intros s r' [[<- <-]|[_ Hs]]%lookup_insert_Some; [done|by apply Hm]. }
  destruct (m !! Slot r); [|done]. by destruct (_ <? _).
Qed.

Lemma select_pages_ok ctl ps : ∀ acc,
  (∀ p, p ∈ ps → packet_ok ctl p ∧ Kind p = packetPromise) → selected_ok ctl acc.1 → selected_ok ctl (foldl select_page acc ps).1 ∧ acc.2 ≤ (foldl select_page acc ps).2.
Proof.
  induction ps as [|p ps IH]; intros [m hi] Hps Hm; cbn in *; [split; [done|lia]|].
  destruct (IH (select_page (m, hi) p)) as [H1 H2]; [intros q Hq; apply Hps; by right| |split; [done|]].
  - cbn. destruct (Hps p ltac:(left)) as [Hp Hk]. destruct (Hp ltac:(by rewrite Hk)) as [Hrs _]. clear -Hrs Hm.
    revert m Hm Hrs. induction (Records p) as [|r rs IHr]; intros m Hm Hrs; cbn; [done|].
    apply IHr; [apply select_record_ok; [done|apply Hrs; left]|]. intros r' Hr'. apply Hrs. by right.
  - etransitivity; [|exact H2]. cbn. destruct (_ <? _) eqn:E; lia.
Qed.

Lemma promised_pages_ok ctl d p : node_ok ctl d → p ∈ promised_pages e ctl d → packet_ok ctl p ∧ Kind p = packetPromise.
Proof.
  intros Hd Hp. unfold promised_pages in Hp. apply list_elem_of_bind in Hp as (peer & Hp & _).
  apply list_elem_of_fmap in Hp as ([i q] & -> & Hq). apply elem_of_range_order in Hq.
  destruct (pages d !! peer) as [ps|] eqn:Hps; [|by (change (default ∅ None) with (∅ : gmap Z Packet) in Hq; rewrite lookup_empty in Hq)]. by apply (no_pages _ _ Hd peer ps i).
Qed.

Lemma adopt_slot_ok ctl m d s :
  selected_ok ctl m → node_ok ctl d → executed d < s → log d !! s = None →
  let d' := adopt_slot m d s in node_ok ctl d' ∧ executed d' = executed d ∧ ∃ r, log d' = <[s := r]> (log d).
Proof.
  intros Hm Hd Hs Hl. unfold adopt_slot. set (r0 := default _ (m !! s)).
  assert (Slot r0 = s ∧ record_ok ctl r0) as [Hslot Hr].
  { unfold r0. destruct (m !! s) as [r|] eqn:E; [by apply Hm|]. split; [done|]. split; [cbn; destruct (no_bounds _ _ Hd); lia|apply noop_genuine]. }
  clearbody r0. set (r := r0 <| RBallot := ballot d |> <| Committed := false |>).
  assert (Slot r = s ∧ genuine ctl (Req r) ∧ 0 ≤ s) as (Hrs & Hrg & Hs0) by (destruct Hr; cbn; split_and!; [done|done|lia]).
  clearbody r. clear r0 Hslot Hr. set (d1 := if recoveryNoop _ then _ else _).
  assert (node_ok ctl d → cid d1 = cid d ∧ lease d1 = lease d ∧ executed d1 = executed d ∧ high d1 = high d ∧ log d1 = <[s := r]> (log d) ∧
    pending d1 = pending d ∧ frozen d1 = frozen d ∧ pages d1 = pages d ∧ resume d1 = resume d ∧ updating d1 = updating d ∧
    localReads d1 = localReads d ∧ served d1 = served d) as (E1 & E2 & E3 & E4 & E5 & E6 & E7 & E8 & E9 & E10 & E11 & E12); [unfold d1; by destruct (recoveryNoop _)|done|]. clearbody d1.
  set (d2 := if is_put r then addUpdating _ d1 else d1).
  assert (cid d2 = cid d ∧ lease d2 = lease d ∧ executed d2 = executed d ∧ high d2 = high d ∧ log d2 = <[s := r]> (log d) ∧
    pending d2 = pending d ∧ frozen d2 = frozen d ∧ pages d2 = pages d ∧ resume d2 = resume d ∧
    localReads d2 = localReads d ∧ served d2 = served d) as (F1 & F2 & F3 & F4 & F5 & F6 & F7 & F8 & F9 & F11 & F12) by (unfold d2; by destruct (is_put r)).
  assert (∀ key, updates_of d2 key = updates_of d key + Z.of_nat (counts (executed d) key s r)) as F10.
  { intros key. unfold d2, counts. rewrite (proj2 (Z.ltb_lt _ _) Hs). destruct (is_put r); cbn [andb].
    - rewrite updates_add. unfold updates_of. rewrite E10. destruct (Z.eqb_spec (K (Cmd (Req r))) key); case_bool_decide; done.
    - unfold updates_of. rewrite E10. cbn. lia. }
  clearbody d2. split; [|by split; [|exists r]].
  destruct Hd as [P1 P2 P3 P4 P5 P6 P7 P8 P9 P10]. split; rewrite ?F1, ?F2, ?F3, ?F4, ?F5, ?F6, ?F7, ?F8, ?F9, ?F11, ?F12; try done.
  - intros s' r' [[<- <-]|[Hne Hl']]%lookup_insert_Some; [split; [done|split; [lia|done]]|by apply P3].
  - intros s' Hs'. rewrite lookup_insert_ne by lia. by apply P4.
  - intros key. rewrite F10, P5, writes_insert, writes_none by done. lia.
Qed.

Lemma adopt_ok ctl d : node_ok ctl d → node_ok ctl (adopt e ctl d).
Proof.
  intros Hd. unfold adopt.
  destruct (select_pages_ok ctl (promised_pages e ctl d) (∅, executed d)) as [Hsel Hhi]; [intros p; by apply promised_pages_ok|done|].
  destruct (foldl select_page _ _) as [m hi]. cbn [fst snd] in Hsel, Hhi.
  set (d1 := d <| preparing := false |> <| high := hi |> <| assigned := executed_assigned e ctl d |> <| updating := ∅ |> <| log := executed_log d |>).
  assert (executed d1 = executed d) as Hex by done.
  assert (node_ok ctl d1) as H1.
  { destruct Hd as [P1 P2 P3 P4 P5 P6 P7 P8 P9 P10]. split; try done; cbn.
    - lia.
    - unfold executed_log. intros s r [Hs _]%map_lookup_filter_Some. by apply P3.
    - intros s Hs. destruct (P4 s Hs) as (r & Hr & Hc). exists r. split; [|done]. apply map_lookup_filter_Some_2; [done|cbn; lia].
    - intros key. unfold updates_of, writes. cbn. rewrite lookup_empty. cbn.
      assert (filter (write_above (executed d) key) (executed_log d) = ∅) as ->; [|by rewrite map_size_empty].
      apply map_eq. intros s. rewrite lookup_empty. apply map_lookup_filter_None_2. right. unfold executed_log.
      intros r [_ Hle]%map_lookup_filter_Some [Hlt _]. cbn in *. lia. }
  assert (∀ l d2, NoDup l → node_ok ctl d2 → executed d2 = executed d → (∀ s, s ∈ l → executed d < s ∧ log d2 !! s = None) →
    node_ok ctl (foldl (adopt_slot m) d2 l)) as Hgo.
  { induction l as [|s l IH]; intros d2 Hnd H2 He Hl; cbn; [done|]. apply NoDup_cons in Hnd as [Hs Hnd].
    destruct (Hl s ltac:(left)) as [Hlt Hnone]. destruct (adopt_slot_ok ctl m d2 s) as (H3 & He3 & r & Hlog); [done|done|by rewrite He|done|].
    apply IH; [done|done|congruence|]. intros s' Hs'. destruct (Hl s' ltac:(by right)). split; [done|].
    rewrite Hlog, lookup_insert_ne by (intros <-; by apply Hs). done. }
  apply Hgo; [apply NoDup_rangeZ|done|done|]. intros s Hs. apply elem_of_rangeZ in Hs. cbn in Hs. split; [lia|].
  cbn. apply map_lookup_filter_None_2. right. intros r _. cbn. lia.
Qed.

Lemma pql_elect_ok ctl now c : (3 ≤ k)%nat → core_ok c → ends (elect e rcv ctl now c) core_ok.
Proof.
  intros Hk Hc. unfold elect. eapply ends_bind; [apply (fillCatchup_ok ctl); apply adopt_ok; by apply core_ok_log|].
  intros d Hd. cbn zeta. eapply ends_bind; [apply pql_sendSuffix_ok; [done|]; apply pql_upd_ok; [done|keep Hd]|].
  intros c2 H2. cbn. destruct (_ <=? _); [by apply pql_activate_ok|done].
Qed.

Lemma pql_promiseReply_ok ctl p now c :
  (3 ≤ k)%nat → packet_ok ctl p → Kind p = packetPromise → core_ok c → ends (promiseReply e rcv ctl p now c) core_ok.
Proof.
  intros Hk Hp Hkind Hc. unfold promiseReply. destruct (_ || _); [done|].
  set (ps := <[Page p := p]> _). set (c1 := upd ctl _ c).
  assert (core_ok c1) as H1.
  { apply upd_keep; [done|]. intros d [P1 P2 P3 P4 P5 P6 P7 P8 P9 P10]. split; try done. cbn.
    pose proof (no_pages _ _ (core_ok_log ctl _ Hc)) as P8'. intros i ps' j q [[<- <-]|[_ Hi]]%lookup_insert_Some Hq; [|by apply (P8 i ps' j)].
    apply lookup_insert_Some in Hq as [[_ <-]|[_ Hq]]; [done|]. destruct (pages (log_of ctl c) !! From p) as [ps0|] eqn:E; [by apply (P8' _ _ j q E)|].
    cbn in Hq. by rewrite lookup_empty in Hq. }
  clearbody c1. destruct (negb _); [done|]. set (c2 := upd ctl _ c1).
  assert (core_ok c2) as H2 by (apply upd_keep; [done|]; intros d Hd; keep Hd). clearbody c2.
  destruct (_ <? _); [done|]. by apply pql_elect_ok.
Qed.

(** *** The dispatcher *)
Lemma pql_commit_one_ok ctl r d : record_ok ctl r → node_ok ctl d → ends (commit_one r d) (node_ok ctl).
Proof.
  intros Hr Hd. unfold commit_one. eapply ends_bind; [by apply (pql_install_ok ctl)|]. intros d1 H1. by apply edit_record_ok.
Qed.

Lemma pql_receive_current_ok ctl p now c :
  (rank p ≤ k)%nat → packet_ok ctl p → core_ok c → ends (receive_current e rcv ctl p now c) core_ok.
Proof.
  intros Hk Hp Hc. unfold receive_current, rank, packet_ok in *.
  destruct (Z.eqb_spec (Kind p) packetPromise) as [E|_]; [rewrite E in Hk; apply pql_promiseReply_ok; try done; by intros ?|].
  destruct (Z.eqb_spec (Kind p) packetAccept) as [E|_].
  { rewrite E in Hk, Hp. destruct (From p =? _); [|done]. apply pql_accept_ok; [done|by apply Hp|done]. }
  destruct (Z.eqb_spec (Kind p) packetAck) as [E|Hack]; [by apply pql_ack_ok|]. destruct (Hp Hack) as [Hrs Hqs].
  destruct (Z.eqb_spec (Kind p) packetCommit) as [E|_].
  { destruct (negb _); [done|]. eapply ends_bind.
    - apply (ends_forEach _ (record_ok ctl) (node_ok ctl)); [by apply core_ok_log|done|]. intros; by apply pql_commit_one_ok.
    - intros d Hd. apply pql_apply_ok. by apply pql_upd_ok. }
  destruct (Z.eqb_spec (Kind p) packetReady) as [E|_].
  { destruct (negb _); [done|]. set (c1 := if _ && _ then _ else c).
    assert (core_ok c1) as H1.
    { unfold c1. destruct (_ && _); [|done]. apply upd_keep; [done|]. intros d Hd. apply pql_schedulePending_ok. keep Hd. }
    clearbody c1. destruct (_ <? _); [by apply pql_requestFetch_ok|done]. }
  destruct (Z.eqb_spec (Kind p) packetFetch) as [E|_].
  { rewrite E in Hk. destruct (negb _); [done|]. set (c1 := if _ <? _ then _ else c).
    assert (core_ok c1) as H1 by (unfold c1; destruct (_ <? _); [|done]; apply upd_keep; [done|]; intros d Hd; keep Hd).
    clearbody c1. destruct (preparing _); [done|]. eapply ends_bind; [by apply fillCatchup_ok, core_ok_log|].
    intros d Hd. apply pql_sendSuffix_ok; [done|]. by apply pql_upd_ok. }
  destruct (Z.eqb_spec (Kind p) packetForward) as [E|_].
  { destruct (_ && _); [|done]. apply (ends_forEach _ (genuine ctl)); [done|done|]. intros; by apply pql_submit_ok. }
  destruct (_ =? packetForwardReply); [|done]. destruct (Requests p) as [|r [|]]; try done.
  destruct (_ || _); [done|]. apply reply_ok. apply upd_keep; [done|]. intros d Hd.
  apply (pql_node_ok_same _ (d <| pending ::= delete (ID r) |>)); try done; [by apply pending_delete_ok|apply (no_bounds _ _ Hd)].
Qed.

Lemma receive_log_ok ctl p now c :
  (rank p ≤ k)%nat → packet_ok ctl p → core_ok c → ends (receive_log e rcv ctl p now c) core_ok.
Proof.
  intros Hk Hp Hc. unfold receive_log. destruct (Z.eqb_spec (Kind p) packetPrepare) as [E|Hne].
  - destruct (_ <? _); [done|]. unfold rank in Hk. rewrite E in Hk. apply pql_promise_ok; [done|].
    apply upd_keep; [|intros d Hd; keep Hd]. destruct (_ <? _); [|done]. apply upd_keep; [done|]. intros d Hd. keep Hd.
  - set (c1 := if _ && _ then _ else c).
    assert (core_ok c1) as H1 by (unfold c1; destruct (_ && _); [|done]; apply upd_keep; [done|]; intros d Hd; keep Hd).
    clearbody c1. destruct (negb _); [done|]. apply pql_receive_current_ok; [done|done|].
    destruct (_ && _); [|done]. apply upd_keep; [done|]. intros d Hd. keep Hd.
Qed.

(** The lease protocol sends to others only. *)
Lemma lease_answers p now f l : ∀ m, m ∈ (PqlLease.receive p now f l).2 → m.1 ≠ lid l ∧ Records m.2 = [] ∧ Requests m.2 = [] ∧ Control m.2 = false.
Proof.
  unfold PqlLease.receive, receive_guard, receive_guardAck, receive_promise, receive_reply, sendPromise.
  destruct (Z.ltb_spec (From p) 0); [cbn; set_solver|]. destruct (_ <=? From p); [cbn; set_solver|].
  destruct (Z.eqb_spec (From p) (lid l)) as [|Hne]; [cbn; set_solver|]. cbn [orb].
  intros m. repeat (case_match; cbn; try (intros []%elem_of_nil; fail)); intros ->%list_elem_of_singleton; done.
Qed.
Lemma lease_receive_id p now f l : lid (PqlLease.receive p now f l).1.2 = lid l.
Proof.
  unfold PqlLease.receive, receive_guard, receive_guardAck, receive_promise, receive_reply, sendPromise, recomputeReadUntil, recomputeWriteUntil, enter_epoch.
  repeat (case_match; cbn; try done).
Qed.

Lemma send_others_ok msgs c :
  (∀ m : Z * Packet, m ∈ msgs → m.1 ≠ me ∧ Records m.2 = [] ∧ Requests m.2 = [] ∧ Control m.2 = false) → core_ok c →
  ends (forEach (λ m, send false rcv m.1 m.2) msgs c) core_ok.
Proof.
  intros Hm Hc. apply (ends_forEach _ (λ m : Z * Packet, m.1 ≠ me ∧ Records m.2 = [] ∧ Requests m.2 = [] ∧ Control m.2 = false)); [done|done|].
  intros m c' (H1 & H2 & H3 & H4) Hc'. apply send_ok; try done. by apply empty_packet_ok.
Qed.

Lemma lease_update_ok l c : lid l = me → core_ok c → core_ok (c <| data ::= (λ d, d <| lease := l |>) |>).
Proof.
  intros Hl [Hd Hg]. split; [|done]. cbn. destruct (no_id _ _ Hd) as [_ Hid]. apply (pql_node_ok_same _ _ _ Hd); try done; [cbn; congruence|apply (no_bounds _ _ Hd)].
Qed.

Lemma receive_lease_core_ok p now c : core_ok c → ends (receive_lease rcv p now c) core_ok.
Proof.
  intros Hc. unfold receive_lease. destruct (_ && _); [by apply pql_requestFetch_ok|].
  eapply (ends_bind _ _ (λ _, True)).
  { destruct (_ =? _); [|done]. destruct (_ <? _); [done|]. unfold hasUnexcludedSuspect, latest. by destruct (policies _ !! _). }
  intros [] _; [done|]. destruct (no_id _ _ (proj1 Hc)) as [_ Hid].
  pose proof (lease_answers p now (high (data c)) (lease (data c))) as Hm. pose proof (lease_receive_id p now (high (data c)) (lease (data c))) as Hl.
  destruct (PqlLease.receive _ _ _ _) as [[b l] msgs]. cbn in Hm, Hl. rewrite Hid in *.
  apply send_others_ok; [done|]. by apply lease_update_ok.
Qed.

Lemma pql_receive_body_ok ctl p c :
  (rank p ≤ k)%nat → (ctl = true → packet_ok true p) → (ctl = false → packet_ok (Control p) p) → core_ok c → ends (receive_body e rcv ctl p c) core_ok.
Proof.
  intros Hk Ht Hf Hc. unfold receive_body. destruct (observeTime ctl e c) as [now c1] eqn:Et. apply observeTime_ok in Et; [|done].
  destruct (_ || _); [done|]. destruct ctl; [apply receive_log_ok; auto|].
  destruct (Control p) eqn:Ectl.
  - destruct (observeTime true e c1) as [now' c2] eqn:Et'. apply observeTime_ok in Et'; [|done]. destruct (_ || _); [done|].
    apply receive_log_ok; auto.
  - destruct (_ =? packetSuspect); [done|]. destruct (_ && _); [by apply receive_lease_core_ok|]. apply receive_log_ok; auto.
Qed.
End Send.

Lemma pql_receive_ok e fuel : ∀ p c, (rank p < fuel)%nat → packet_ok (Control p) p → core_ok c → ends (receive fuel e p c) core_ok.
Proof.
  induction fuel as [|fuel IH]; intros p c Hr Hp Hc; [lia|]. cbn. apply (pql_receive_body_ok e (receive fuel e) fuel); [done|lia|done|done|done].
Qed.

Lemma receive_at_ok e fuel ctl p c :
  (rank p ≤ fuel)%nat → packet_ok ctl p → Control p = false → core_ok c → ends (receive_at fuel e ctl p c) core_ok.
Proof.
  intros Hr Hp Hctl Hc. apply (pql_receive_body_ok e (receive fuel e) fuel); [apply pql_receive_ok|done|by intros ->|intros ->; by rewrite Hctl|done].
Qed.
End Inv.
End PqlInv.
