(* ===== verification/PqlReach.v ===== *)
(** * PqlReach: the states a PQL replica reaches

    Timers keep the invariant of [PqlInv], so every state a replica reaches has
    it.  [events_end]: no event runs out of the fuel for packets to oneself.
    [updating_exact]: the index of unexecuted writes is exact.
    [local_read_guard]: a read served from the leases, on whatever event, sees
    every write of its key that this replica has accepted. *)
From stdpp Require Import gmap strings list fin_maps sorting.
From Stdlib Require Import Lia.
From S2P Require Import Prelude State ReplicaSet Defs Pql PqlLease PqlCore PqlTick PqlInv.

Module PqlReach.
Import Pql PqlLease PqlCore PqlTick PqlInv.

Section Reach.
Context `{SM : StateMachine}.
Variable me : Z.
Variable cmd_of : RequestID → Command.
Hypothesis sm_terminates : ∀ cmd s, sm_execute cmd s ≠ OutOfFuel.

Local Abbreviation core_ok := (core_ok me cmd_of).
Local Abbreviation node_ok := (node_ok me cmd_of).
Local Abbreviation genuine := (genuine cmd_of).
Local Abbreviation record_ok := (record_ok cmd_of).

Ltac keep H := apply (pql_node_ok_same me cmd_of _ _ _ H); try reflexivity; cbn;
  try exact (proj2 (no_bounds _ _ _ _ H)); try (destruct (no_bounds _ _ _ _ H); lia).
(** An update of fields the invariant does not look at. *)
Ltac keep_upd := apply (upd_keep me cmd_of); [|let d := fresh in let H := fresh in intros d H; keep H].

(** ** Timers *)
Section Timers.
Variable e : env.
Variable fuel : nat.
Hypothesis fuel_enough : (4 ≤ fuel)%nat.
Local Abbreviation rcv := (receive fuel e).

Lemma rcv_ok p c : (rank p < fuel)%nat → packet_ok cmd_of (Control p) p → core_ok c → ends (rcv p c) core_ok.
Proof. by apply (pql_receive_ok me cmd_of sm_terminates). Qed.

Lemma submit_reach ctl r c : genuine ctl r → core_ok c → ends (submit ctl e rcv r c) core_ok.
Proof. intros Hr Hc. by apply (pql_submit_ok me cmd_of sm_terminates e rcv fuel rcv_ok). Qed.

Lemma prepare_reach ctl c : core_ok c → ends (receive_at fuel e ctl (prepare_packet (log_of ctl c)) (broadcast ctl (prepare_packet (log_of ctl c)) c)) core_ok.
Proof.
  intros Hc. apply (receive_at_ok me cmd_of sm_terminates); [cbn; lia|by apply empty_packet_ok|done|done].
Qed.

Lemma begin_log_ok ctl inner c :
  (∀ c, core_ok c → ends (inner c) core_ok) → core_ok c → ends (begin_log e fuel ctl inner c) core_ok.
Proof.
  intros Hi Hc. unfold begin_log. destruct (observeTime ctl e c) as [now c1] eqn:Et.
  apply (observeTime_ok me cmd_of e) in Et; [|done]. eapply ends_bind; [apply Hi|intros c2 H2; by apply prepare_reach].
  apply (upd_keep me cmd_of); [done|]. intros d [P1 P2 P3 P4 P5 P6 P7 P8 P9 P10]. split; try done.
Qed.

Lemma pql_Begin_ok c : core_ok c → ends (Begin e fuel c) core_ok.
Proof. intros Hc. apply begin_log_ok; [|done]. intros c' Hc'. by apply begin_log_ok. Qed.

(** *** Admission *)
Definition grouped (ctl : bool) (st : list (Z * list Record_) * node) : Prop := grouped_ok me cmd_of ctl st.

Lemma pql_flush_loop_ok ctl q : ∀ count gs d,
  grouped ctl (gs, d) → ends (flush_loop ctl q count gs d) (grouped ctl).
Proof.
  induction q as [|i q IH]; intros count gs d [Hgs Hd]; [done|]. cbn [flush_loop fst snd] in *.
  destruct (_ && _); [|done]. set (d1 := d <| queue := q |> <| queued ::= (λ s, s ∖ {[i]}) |>).
  assert (node_ok ctl d1) as H1 by keep Hd. clearbody d1.
  do 2 (case_decide; [by apply IH|]). destruct (pending d1 !! i) as [r|] eqn:Hp; [|by apply IH].
  pose proof (no_pending _ _ _ _ H1 _ _ Hp) as Hr.
  eapply ends_bind; [apply (pql_install_ok me cmd_of ctl); [keep H1|]|].
  - split; [cbn; destruct (no_bounds _ _ _ _ H1); lia|done].
  - intros d2 H2. apply IH. split; [|done]. apply group_add_ok; [done|]. split; [cbn; destruct (no_bounds _ _ _ _ H1); lia|done].
Qed.

Lemma stamp_record_ok ctl epoch r st :
  record_ok ctl r → (∀ x, x ∈ st.1 → record_ok ctl x) ∧ node_ok ctl st.2 →
  ends (stamp_record ctl epoch r st) (λ st, (∀ x, x ∈ st.1 → record_ok ctl x) ∧ node_ok ctl st.2).
Proof.
  destruct st as [rs d]. intros Hr [Hrs Hd]. cbn in Hrs, Hd. unfold stamp_record. set (r1 := if _ && _ then _ else _).
  assert (record_ok ctl r1) as H1 by (unfold r1; by destruct (_ && _)). clearbody r1.
  eapply ends_bind; [by apply (edit_record_ok me cmd_of ctl)|]. intros d2 H2. cbn. split; [|done].
  intros x [Hx| ->%list_elem_of_singleton]%elem_of_app; [by apply Hrs|done].
Qed.

Lemma flush_group_ok ctl now g c :
  (∀ r, r ∈ g.2 → record_ok ctl r) → core_ok c → ends (flush_group e fuel ctl now g c) core_ok.
Proof.
  intros Hg Hc. unfold flush_group.
  eapply (ends_bind _ _ (λ st, (∀ x, x ∈ st.1 → record_ok ctl x) ∧ node_ok ctl st.2)).
  { apply (ends_forEach _ (record_ok ctl)); [split; [by intros x ?%elem_of_nil|by apply (core_ok_log me cmd_of)]|done|].
    intros r st. apply stamp_record_ok. }
  intros [rs d] [Hrs Hd]. cbn in Hrs, Hd. set (c1 := upd ctl _ c).
  assert (core_ok c1) as H1 by (apply (pql_upd_ok me cmd_of); [done|keep Hd]). clearbody c1.
  destruct ctl.
  - apply (pql_accept_ok me cmd_of rcv fuel rcv_ok); [lia|done|done].
  - apply (sendMask_ok me cmd_of rcv fuel rcv_ok); [by apply (log_packet_ok _ _ _ rs)|done|cbn; lia|done].
Qed.

Lemma pql_flush_ok ctl now c : core_ok c → ends (flush e fuel ctl now c) core_ok.
Proof.
  intros Hc. unfold flush. destruct (_ <=? _); [done|].
  eapply ends_bind; [apply pql_flush_loop_ok; split; [by intros g r ?%elem_of_nil|by apply (core_ok_log me cmd_of)]|].
  intros [gs d] [Hgs Hd]. cbn in Hgs, Hd.
  apply (ends_forEach _ (λ g : Z * list Record_, ∀ r, r ∈ g.2 → record_ok ctl r)).
  - by apply (pql_upd_ok me cmd_of).
  - intros g Hg r Hr. by apply (Hgs g).
  - intros g c' Hg Hc'. by apply flush_group_ok.
Qed.

(** *** Configurations *)
Lemma propose_ok change now c : core_ok c → ends (proposeConfiguration e fuel change now c) core_ok.
Proof. intros Hc. unfold proposeConfiguration. eapply ends_bind; [by apply submit_reach|]. by intros c1 H1. Qed.

Lemma latest_bind {A} (c : core) (f : leasePolicy → outcome A) Q : (∀ p, ends (f p) Q) → ends (p ← latest c; f p) Q.
Proof. intros Hf. unfold latest. by destruct (policies c !! _); [apply Hf|]. Qed.
Lemma suspect_bind {A} (c : core) (f : bool → outcome A) Q : (∀ b, ends (f b) Q) → ends (b ← hasUnexcludedSuspect c; f b) Q.
Proof. intros Hf. unfold hasUnexcludedSuspect, latest. destruct (policies c !! _); [apply Hf|done]. Qed.

Lemma proposeObserved_ok now c : core_ok c → ends (proposeObservedHolders e fuel now c) core_ok.
Proof.
  intros Hc. unfold proposeObservedHolders. apply latest_bind. intros p.
  apply (ends_forEach _ (λ _, True)); [done|done|]. intros us c' _ Hc'. by apply propose_ok.
Qed.

Lemma suspect_peer_ok now pu c : core_ok c → ends (suspect_peer now pu c) core_ok.
Proof.
  intros Hc. unfold suspect_peer. destruct pu as [peer up]. destruct (_ =? _); [done|].
  set (c1 := if up then _ else _). assert (core_ok c1) by (unfold c1; destruct up; [done|]; by destruct (bool_decide _)). clearbody c1.
  apply latest_bind. intros p. destruct (has _ _); [done|]. cbn. by destruct (_ || _).
Qed.

Lemma configure_ok now c : core_ok c → ends (configure_lead e fuel now c) core_ok.
Proof.
  intros Hc. unfold configure_lead. apply latest_bind. intros p. apply suspect_bind. intros b.
  eapply (ends_bind _ _ core_ok).
  - destruct (_ && _ && _); [by apply propose_ok|done].
  - intros c1 H1. destruct (_ && _); [|done]. eapply ends_bind; [by apply proposeObserved_ok|done].
Qed.

Lemma tick_sends t alive f l : ∀ m, m ∈ (PqlLease.tick t alive f l).2 → m.1 ≠ lid l ∧ Records m.2 = [] ∧ Requests m.2 = [] ∧ Control m.2 = false.
Proof.
  unfold PqlLease.tick. destruct (_ && _); [by intros ? ?%elem_of_nil|].
  assert (∀ ids st, (∀ m, m ∈ st.2 → m.1 ≠ lid l ∧ Records m.2 = [] ∧ Requests m.2 = [] ∧ Control m.2 = false) → lid st.1 = lid l →
    let st' := foldl (tick_peer t alive f) st ids in
    (∀ m, m ∈ st'.2 → m.1 ≠ lid l ∧ Records m.2 = [] ∧ Requests m.2 = [] ∧ Control m.2 = false)) as Hgo.
  { induction ids as [|i ids IH]; intros [l0 out] Hst Hid; cbn [foldl]; [done|].
    apply IH; cbn in *; unfold sendPromise, recomputeWriteUntil; rewrite ?Hid.
    - destruct (Z.eqb_spec i (lid l)) as [|Hne]; [done|]. cbn [orb]. destruct (negb _); [done|].
      destruct (_ && _); cbn; intros m [Hm| ->%list_elem_of_singleton]%elem_of_app; try (by apply Hst); done.
    - destruct (_ || _); [done|]. by destruct (_ && _). }
  specialize (Hgo (rangeZ 0 (ln l - 1)) (l, [])). destruct (foldl _ _ _) as [l1 out]. cbn in *. apply Hgo; [by intros ? ?%elem_of_nil|done].
Qed.
Lemma tick_id t alive f l : lid (PqlLease.tick t alive f l).1 = lid l.
Proof.
  unfold PqlLease.tick. destruct (_ && _); [done|].
  assert (∀ ids st, lid (foldl (tick_peer t alive f) st ids).1 = lid st.1) as Hgo.
  { induction ids as [|i ids IH]; intros [l0 out]; cbn [foldl]; [done|]. rewrite IH. cbn. unfold sendPromise, recomputeWriteUntil.
    destruct (_ || _); [done|]. by destruct (_ && _). }
  specialize (Hgo (rangeZ 0 (ln l - 1)) (l, [])). by destruct (foldl _ _ _) as [l1 out].
Qed.

Lemma renew_ok now alive c : core_ok c → ends (renew_leases e fuel now alive c) core_ok.
Proof.
  intros Hc. unfold renew_leases. apply suspect_bind. intros b. destruct (_ || _); [done|]. destruct (_ && _); [done|].
  destruct (no_id _ _ _ _ (proj1 Hc)) as [_ Hid].
  match goal with |- context [PqlLease.tick ?t ?al ?f ?l] => pose proof (tick_sends t al f l) as Hm; pose proof (tick_id t al f l) as Hl;
    destruct (PqlLease.tick t al f l) as [l1 msgs] end.
  cbn in Hm, Hl. rewrite Hid in *. apply (send_others_ok me cmd_of rcv fuel rcv_ok); [done|]. by apply lease_update_ok.
Qed.

Lemma change_epoch_ok now alive c : core_ok c → ends (change_epoch e fuel now alive c) core_ok.
Proof.
  intros Hc. unfold change_epoch. destruct (_ <? _); [|by apply renew_ok]. destruct (negb _); [done|].
  apply latest_bind. intros p. apply renew_ok. destruct Hc as [Hd Hg]. split; [|done]. cbn. keep Hd.
Qed.

Lemma maintain_ok now alive c : core_ok c → ends (maintainConfigurations e fuel now alive c) core_ok.
Proof.
  intros Hc. unfold maintainConfigurations.
  eapply ends_bind; [|intros c1 H1; eapply ends_bind; [by apply configure_ok|intros c2 H2; by apply change_epoch_ok]].
  apply (ends_forEach _ (λ _, True)); [|done|intros pu c' _ Hc'; by apply suspect_peer_ok].
  destruct (bool_decide _); [|done]. destruct Hc as [Hd Hg]. split; [|done]. cbn. keep Hd.
Qed.

Lemma local_loop_ok count : ∀ c, core_ok c → ends (local_loop e fuel count c) core_ok.
Proof.
  induction count as [|count IH]; intros c Hc; cbn [local_loop]; [done|]. destruct (localPending (data c)) as [|i rest]; [done|].
  set (c1 := upd false _ c). assert (core_ok c1) as H1 by (by keep_upd). clearbody c1.
  eapply (ends_bind _ _ core_ok); [|done]. destruct (pending (data c1) !! i) as [r|] eqn:Hp; [|done].
  apply submit_reach; [|done]. by apply (no_pending _ _ _ _ (proj1 H1) i).
Qed.

Lemma tick_local_ok now c : core_ok c → ends (tick_local e fuel now c) core_ok.
Proof.
  intros Hc. unfold tick_local. eapply (ends_bind _ _ core_ok); [|intros; by apply local_loop_ok].
  destruct (Nat.eqb _ 0); [done|]. destruct (_ =? _).
  - cbn. destruct (_ <? _); [|done]. apply (upd_keep me cmd_of false (λ d, d <| catchupTarget := catchup (lease (data c)) |>)); [done|].
    intros d Hd. keep Hd.
  - by apply (pql_requestFetch_ok me cmd_of rcv fuel rcv_ok).
Qed.

Lemma pql_resume_loop_ok ctl i : ∀ c, core_ok c → ends (resume_loop e fuel ctl i c) core_ok.
Proof.
  induction i as [|i IH]; intros c Hc; cbn [resume_loop]; [by destruct (resume (log_of ctl c))|].
  pose proof (core_ok_log me cmd_of ctl c Hc) as Hd. destruct (resume (log_of ctl c)) as [|r rest] eqn:Hr; [done|].
  pose proof (no_resume _ _ _ _ Hd) as Hres. rewrite Hr in Hres.
  set (c1 := upd ctl _ c). assert (core_ok c1) as H1.
  { apply (pql_upd_ok me cmd_of); [done|]. destruct Hd as [P1 P2 P3 P4 P5 P6 P7 P8 P9 P10]. split; try done. intros x Hx. apply Hres. by right. }
  clearbody c1. eapply (ends_bind _ _ core_ok); [|done]. case_decide; [|done]. apply submit_reach; [apply Hres; left|done].
Qed.

Lemma tick_log_ok ctl now c : core_ok c → ends (tick_log e fuel ctl now c) core_ok.
Proof.
  intros Hc. unfold tick_log. eapply (ends_bind _ _ core_ok); [destruct (active _); [by apply pql_resume_loop_ok|done]|].
  intros c1 H1. destruct (preparing _).
  - unfold tick_prepare. destruct (_ <? _); [done|]. apply prepare_reach. by keep_upd.
  - destruct (_ =? _); [|done]. unfold tick_lead.
    eapply ends_bind; [apply (fillCatchup_ok me cmd_of ctl (log_of ctl c1)); by apply (core_ok_log me cmd_of)|]. intros d Hd. cbn zeta.
    assert (core_ok (upd ctl (λ _, d) c1)) as H2 by (by apply (pql_upd_ok me cmd_of)).
    eapply (ends_bind _ _ core_ok).
    { set (c3 := if _ && _ then _ else _). assert (core_ok c3) as H3 by (unfold c3; destruct (_ && _); [by apply pql_activate_ok|done]).
      clearbody c3. destruct (active _); [by apply pql_flush_ok|done]. }
    intros c3 H3. destruct (_ <? _); [done|]. apply (pql_sendSuffix_ok me cmd_of rcv fuel rcv_ok); [lia|]. 
    apply (upd_keep me cmd_of ctl (λ d, d <| lastSend := Some now |>)) in H3; [done|]. intros d' Hd'. keep Hd'.
Qed.

Lemma pql_tick_ok alive c : core_ok c → ends (tick e fuel alive c) core_ok.
Proof.
  intros Hc. unfold tick. destruct (observeTime false e c) as [now c1] eqn:Et. apply (observeTime_ok me cmd_of e) in Et; [|done].
  assert (∀ ctl t c, core_ok c → core_ok (upd ctl (heard t) c)) as Hheard.
  { intros ctl t c' Hc'. apply (upd_keep me cmd_of); [done|]. intros d Hd. unfold heard. destruct (bool_decide _); [keep Hd|done]. }
  eapply ends_bind; [by apply maintain_ok, Hheard|]. intros c2 H2. eapply (ends_bind _ _ core_ok).
  { unfold tick_leader. destruct (_ =? _); [done|]. destruct (index _ _); [|done]. destruct (negb _); [done|].
    destruct (_ && _); [by apply pql_Begin_ok|done]. }
  intros c3 H3. eapply ends_bind; [by apply tick_local_ok|]. intros c4 H4. eapply (ends_bind _ _ core_ok).
  { unfold tick_config. destruct (observeTime true e c4) as [now' c5] eqn:Et'. apply (observeTime_ok me cmd_of e) in Et'; [|done].
    by apply tick_log_ok, Hheard. }
  intros c5 H5. by apply tick_log_ok.
Qed.
End Timers.

(** ** Events *)

(** What can happen at a replica: a proposal, a packet, the timer; each with
    its clock and map orders. *)
Inductive step :=
  | Proposed (e : env) (r : Request)
  | Received (e : env) (p : Packet)
  | Ticked (e : env) (alive : list bool).

Definition dispatchFuel : nat := 5.
Definition exec (s : step) (c : core) : outcome core :=
  match s with
  | Proposed e r => submit false e (receive dispatchFuel e) r c
  | Received e p => receive dispatchFuel e p c
  | Ticked e alive => tick e dispatchFuel alive c
  end.

(** One identity is one command, and the records of packets have slots. *)
Definition step_ok (s : step) : Prop :=
  match s with
  | Proposed _ r => genuine false r
  | Received _ p => packet_ok cmd_of (Control p) p
  | Ticked _ _ => True
  end.

Lemma pql_exec_ok s c : step_ok s → core_ok c → ends (exec s c) core_ok.
Proof.
  destruct s as [e r|e p|e alive]; cbn [exec step_ok]; intros Hs Hc.
  - apply submit_reach; done.
  - apply (pql_receive_ok me cmd_of sm_terminates); [|done|done]. unfold rank, dispatchFuel. repeat case_match; lia.
  - apply pql_tick_ok; [unfold dispatchFuel; lia|done].
Qed.

Lemma pql_newCore_ok n leader p : ends (newCore n me leader p) core_ok.
Proof.
  unfold newCore, newLogCore. destruct (_ || _); [done|]. destruct (negb _); [done|]. cbn.
  assert (∀ ctl, node_ok ctl (mkNode n me leader p (newLeaseState n me) None None [] ∅ [] 0 0 leader true false (-1) (-1)
    ∅ ∅ ∅ ∅ ∅ ∅ ∅ ∅ [] ∅ (-1) (-1) None None ∅ 0 0 0 0 0 0 0 0 0 0 [] [])) as H; [|by split].
  intros ctl. split; cbn; try done; intros; try (by apply elem_of_nil in H); try lia.
Qed.

Lemma run_ends ss : ∀ c, Forall step_ok ss → core_ok c → ends (forEach exec ss c) core_ok.
Proof.
  intros c Hss Hc. apply (ends_forEach _ step_ok); [done| |intros; by apply pql_exec_ok]. by apply Forall_forall.
Qed.

End Reach.

(** ** Theorems *)
Section Theorems.
Context `{SM : StateMachine}.

(** C16. A replica that receives packets, proposals and timer events in any order
    finishes every one of them: the packets it sends to itself, which are
    received at once, lead to at most four further levels of packets to itself,
    and no loop runs out. *)
Theorem events_end (me n leader : Z) (cmd_of : RequestID → Command) (p : leasePolicy) (ss : list step) :
  (∀ cmd s, sm_execute cmd s ≠ OutOfFuel) → Forall (step_ok cmd_of) ss →
  (c ← newCore n me leader p; forEach exec ss c) ≠ OutOfFuel.
Proof.
  intros Hsm Hss. assert (ends (c ← newCore n me leader p; forEach exec ss c) (core_ok me cmd_of)) as H.
  { eapply ends_bind; [apply (pql_newCore_ok me cmd_of)|]. intros c Hc. by apply (run_ends me cmd_of Hsm). }
  intros E. by rewrite E in H.
Qed.

(** C13. The index of writes in flight is exact: in every state a replica reaches,
    the count it keeps for a key is the number of writes of that key that its
    log holds above the executed prefix, whatever was accepted, overwritten by
    another ballot, recovered, discarded or executed before. *)
Theorem updating_exact (me n leader : Z) (cmd_of : RequestID → Command) (p : leasePolicy) (ss : list step) (c : core) (key : Z) :
  (∀ cmd s, sm_execute cmd s ≠ OutOfFuel) → Forall (step_ok cmd_of) ss →
  (c ← newCore n me leader p; forEach exec ss c) = Done c →
  updates_of (data c) key = Z.of_nat (writes (executed (data c)) key (log (data c))).
Proof.
  intros Hsm Hss E. assert (ends (c ← newCore n me leader p; forEach exec ss c) (core_ok me cmd_of)) as H.
  { eapply ends_bind; [apply (pql_newCore_ok me cmd_of)|]. intros c' Hc. by apply (run_ends me cmd_of Hsm). }
  rewrite E in H. apply (no_updating _ _ _ _ (proj1 H)).
Qed.

(** C12. Every read that a replica serves from its leases is guarded, whether a
    client proposed it here, another replica forwarded it, or a timer took it from
    those that wait: it is a read of a key the replica is configured to hold and
    the newest configuration does not exclude the replica; at the time of the
    answer its leases are valid and it has executed what they ask for; the answer
    is what the state machine answers then; and no write of the key that its log
    holds then is still to be executed.  [served] has one entry for each read that
    the code counts ([localReads], a 64-bit counter). *)
Theorem local_read_guard (me n leader : Z) (cmd_of : RequestID → Command) (p : leasePolicy) (ss : list step) (c : core) :
  (∀ cmd s, sm_execute cmd s ≠ OutOfFuel) → Forall (step_ok cmd_of) ss →
  (c ← newCore n me leader p; forEach exec ss c) = Done c →
  localReads (data c) = u64 (Z.of_nat (length (served (data c)))) ∧ ∀ x, x ∈ served (data c) → guarded me x.
Proof.
  intros Hsm Hss E. assert (ends (c ← newCore n me leader p; forEach exec ss c) (core_ok me cmd_of)) as H.
  { eapply ends_bind; [apply (pql_newCore_ok me cmd_of)|]. intros c0 Hc. by apply (run_ends me cmd_of Hsm). }
  rewrite E in H. destruct (no_served _ _ _ _ (proj1 H)) as [Hn Hall]. split; [exact Hn|]. by apply Forall_forall.
Qed.
End Theorems.

(** ** A run *)
Section Demo.
#[local] Existing Instance demo_machine.

(** Replica 1 of three holds key 7.  Replica 0 grants it a lease, then leads a
    write of the key, which is accepted and committed; then 1 reads the key. *)
Definition demo_policy : leasePolicy := mkPolicy 3 0 {[7 := 3]} 3 0 None.
Definition demo_env (t : Z) : env := mkEnv (λ _, t) (λ _, []) (λ _, []) (λ _ _, []) (λ _, []).
Definition demo_write : Request := mkRequest (mkRequestID 1 0) (mkCommand PUT 7 [42]) 0 0 None.
Definition demo_read : Request := mkRequest (mkRequestID 2 0) (mkCommand GET 7 []) 1 0 None.
Definition demo_cmd (i : RequestID) : Command := if Client i =? 1 then Cmd demo_write else Cmd demo_read.
Definition demo_record (committed : bool) : Record_ := mkRecord 0 0 demo_write committed 3 1.
Definition granted : list step := [
  Received (demo_env 1) (packet packetGuard 0 0 <| LeaseEpoch := 1 |> <| Timestamp := 1 |> <| Duration := guardDuration |>);
  Received (demo_env 2) (packet packetLeasePromise 0 0 <| LeaseEpoch := 1 |> <| Timestamp := 1 |> <| Duration := leaseDuration |>
                           <| Frontier := -1 |> <| AckSequence := -1 |>)].
Definition accepted : list step := [
  Received (demo_env 3) (packet packetAccept 0 0 <| LeaseEpoch := 1 |> <| Records := [demo_record false] |>)].
Definition committed : list step := [
  Received (demo_env 4) (packet packetCommit 0 0 <| Records := [demo_record true] |>)].

Local Abbreviation reached ss := (c ← newCore 3 1 0 demo_policy; forEach exec ss c).
Definition demo_steps : list step := granted ++ accepted ++ committed.

Lemma demo_steps_ok : Forall (step_ok demo_cmd) (demo_steps ++ [Proposed (demo_env 5) demo_read]).
Proof.
  assert (∀ p r, Control p = false → Requests p = [] → Records p = [r] → 0 ≤ Slot r → genuine demo_cmd false (Req r) → packet_ok demo_cmd (Control p) p) as Hone.
  { intros p r Hc Hq Hr Hs Hg _. rewrite Hc, Hq, Hr. split; [by intros x ->%list_elem_of_singleton|by intros x ?%elem_of_nil]. }
  repeat apply Forall_cons_2; try done; cbn [step_ok].
  - by apply empty_packet_ok.
  - by apply empty_packet_ok.
  - by apply (Hone _ (demo_record false)).
  - by apply (Hone _ (demo_record true)).
Qed.

Lemma events_end_witness : reached (demo_steps ++ [Proposed (demo_env 5) demo_read]) ≠ OutOfFuel.
Proof. apply (events_end 1 3 0 demo_cmd demo_policy); [exact demo_terminates|exact demo_steps_ok]. Defined.

(** After the accept, the write is in flight. *)
Lemma updating_exact_witness :
  ∃ c, reached (granted ++ accepted) = Done c ∧ updates_of (data c) 7 = Z.of_nat (writes (executed (data c)) 7 (log (data c))) ∧
    updates_of (data c) 7 = 1.
Proof.
  assert ((match reached (granted ++ accepted) with Done c => updates_of (data c) 7 =? 1 | _ => false end) = true) as H
    by (vm_compute; reflexivity).
  destruct (reached (granted ++ accepted)) as [c| |] eqn:E; [|discriminate..]. exists c. split; [reflexivity|].
  split; [|apply Z.eqb_eq; exact H].
  refine (updating_exact 1 3 0 demo_cmd demo_policy (granted ++ accepted) c 7 demo_terminates _ E).
  pose proof demo_steps_ok as Hss. unfold demo_steps in Hss. rewrite !Forall_app in Hss. rewrite Forall_app. tauto.
Defined.

(** The read comes while the write is in flight; it waits, and the timer serves
    it when the write is executed. *)
Definition waited : list step :=
  granted ++ accepted ++ [Proposed (demo_env 4) demo_read] ++ committed ++ [Ticked (demo_env 5) [true; true; true]].
Lemma waited_ok : Forall (step_ok demo_cmd) waited.
Proof.
  pose proof demo_steps_ok as H. unfold demo_steps in H. rewrite !Forall_app in H. destruct H as ((H1 & H2 & H3) & H4).
  unfold waited. rewrite !Forall_app. split_and!; try assumption; by repeat constructor.
Qed.
Lemma local_read_guard_witness :
  ∃ c x, reached waited = Done c ∧ served (data c) = [x] ∧ rd_request x = demo_read ∧ rd_value x = [42] ∧
    localReads (data c) = 1 ∧ guarded 1 x.
Proof.
  assert ((match reached waited with
           | Done c => match served (data c) with
                       | [x] => bool_decide (rd_request x = demo_read) && bool_decide (rd_value x = [42]) && (localReads (data c) =? 1)
                       | _ => false end
           | _ => false end) = true) as H by (vm_compute; reflexivity).
  destruct (reached waited) as [c| |] eqn:E; [|discriminate..]. destruct (served (data c)) as [|x [|]] eqn:Es; [discriminate| |discriminate].
  apply andb_prop in H as [[Hr Hv]%andb_prop Hn]. exists c, x. split; [reflexivity|]. split; [exact Es|].
  split; [exact (bool_decide_eq_true_1 _ Hr)|]. split; [exact (bool_decide_eq_true_1 _ Hv)|]. split; [by apply Z.eqb_eq|].
  apply (proj2 (local_read_guard 1 3 0 demo_cmd demo_policy waited c demo_terminates waited_ok E)). rewrite Es. left.
Defined.
End Demo.
End PqlReach.
