(* ===== verification/Bodega.v ===== *)
(** * Bodega: messages, rosters and read queues of Bodega ([bodega/defs.go], [wire.go], [batch.go], [local_read.go])

    Bodega is Paxos with roster leases: a roster names the leader and, for every
    key, the responders that may serve its reads.  This file has the messages
    with their validation, the lookup of a key's responders, batches, and the
    ordered queue of slots that reads wait for. *)
From stdpp Require Import gmap strings list fin_maps sorting.
From Stdlib Require Import Lia.
From S2P Require Import Prelude State Defs.

Module Bodega.

(** ** Data ([messages.pb.go]) *)
Record Range := mkRange { Start : Z; End_ : Z; RangeResponders : Z }.
Record Roster := mkRoster { RBallot : Z; Leader : Z; Responders : Z; Ranges : list Range }.
Record Request := mkRequest { Proposal : Propose; Origin : Z }.
Record Entry := mkEntry { Slot : Z; EBallot : Z; ERequest : Request; Batch : list Request; ReadFresh : bool }.
Record Message := mkMessage {
  Kind : Z; From : Z; MRoster : Roster; Seq : Z; Threshold : Z; Prefix : Z; ReadPrefix : Z;
  CommitPrefix : Z; CommitSlot : Z; RepairStart : Z; PrepareStart : Z; Part : Z; Parts : Z;
  MEntry : Entry; Entries : list Entry; MRequest : Request; MValue : Value }.

#[export] Instance Range_eq_dec : EqDecision Range.
Proof. solve_decision. Defined.
#[export] Instance Roster_eq_dec : EqDecision Roster.
Proof. solve_decision. Defined.
#[export] Instance Propose_eq_dec : EqDecision Propose.
Proof. solve_decision. Defined.
#[export] Instance Request_eq_dec : EqDecision Request.
Proof. solve_decision. Defined.
#[export] Instance Entry_eq_dec : EqDecision Entry.
Proof. solve_decision. Defined.
#[export] Instance Message_eq_dec : EqDecision Message.
Proof. solve_decision. Defined.

Definition zeroRoster : Roster := mkRoster 0 0 0 [].
Definition zeroRequest : Request := mkRequest (mkPropose 0 0 (mkCommand 0 0 []) 0) 0.
Definition zeroEntry : Entry := mkEntry 0 0 zeroRequest [] false.
(** A message literal: the fields not given are zero. *)
Definition message (kind : Z) : Message :=
  mkMessage kind 0 zeroRoster 0 0 0 0 0 0 0 0 0 0 zeroEntry [] zeroRequest [].

#[export] Instance eta_Entry : Eta Entry := λ v, mkEntry (Slot v) (EBallot v) (ERequest v) (Batch v) (ReadFresh v).
#[export] Instance set_EBallot : Setter EBallot := ltac:(mk_setter).
#[export] Instance set_ERequest : Setter ERequest := ltac:(mk_setter).
#[export] Instance set_Batch : Setter Batch := ltac:(mk_setter).
#[export] Instance set_ReadFresh : Setter ReadFresh := ltac:(mk_setter).
#[export] Instance eta_Message : Eta Message := λ m,
  mkMessage (Kind m) (From m) (MRoster m) (Seq m) (Threshold m) (Prefix m) (ReadPrefix m) (CommitPrefix m) (CommitSlot m)
    (RepairStart m) (PrepareStart m) (Part m) (Parts m) (MEntry m) (Entries m) (MRequest m) (MValue m).
#[export] Instance set_Kind : Setter Kind := ltac:(mk_setter).
#[export] Instance set_From : Setter From := ltac:(mk_setter).
#[export] Instance set_MRoster : Setter MRoster := ltac:(mk_setter).
#[export] Instance set_Seq : Setter Seq := ltac:(mk_setter).
#[export] Instance set_Threshold : Setter Threshold := ltac:(mk_setter).
#[export] Instance set_Prefix : Setter Prefix := ltac:(mk_setter).
#[export] Instance set_ReadPrefix : Setter ReadPrefix := ltac:(mk_setter).
#[export] Instance set_CommitPrefix : Setter CommitPrefix := ltac:(mk_setter).
#[export] Instance set_CommitSlot : Setter CommitSlot := ltac:(mk_setter).
#[export] Instance set_RepairStart : Setter RepairStart := ltac:(mk_setter).
#[export] Instance set_PrepareStart : Setter PrepareStart := ltac:(mk_setter).
#[export] Instance set_Part : Setter Part := ltac:(mk_setter).
#[export] Instance set_Parts : Setter Parts := ltac:(mk_setter).
#[export] Instance set_MEntry : Setter MEntry := ltac:(mk_setter).
#[export] Instance set_Entries : Setter Entries := ltac:(mk_setter).
#[export] Instance set_MRequest : Setter MRequest := ltac:(mk_setter).
#[export] Instance set_MValue : Setter MValue := ltac:(mk_setter).

(** ** Constants ([defs.go], [batch.go], [recovery.go]) *)
Definition heartbeat : Z := 0.
Definition leaseRequest : Z := 1.
Definition leaseReply : Z := 2.
Definition prepare : Z := 3.
Definition promise : Z := 4.
Definition accept : Z := 5.
Definition accepted : Z := 6.
Definition commit : Z := 7.
Definition forward : Z := 8.
Definition result : Z := 9.
Definition repairRequest : Z := 10.
Definition leaseRevoke : Z := 11.
Definition leaseRevoked : Z := 12.
Definition acceptNote : Z := 13.
Definition committedEntry : Z := 14.
Definition lightHeartbeat : Z := 15.
Definition rosterRequest : Z := 16.
Definition kindCount : Z := 17.

Definition BodegaCancelRead : Z := 254.
Definition maxBatchCommands : Z := 5000.
Definition maxBatchBytes : Z := Z.shiftl 8 20.
Definition repairWindow : Z := 512.

(** ** Rosters *)

(** [uint64(1) << uint(id)] and the shifts of masks *)
Definition bit (id : Z) : Z := u64 (Z.shiftl 1 id).
Definition has (mask id : Z) : bool := negb (Z.land mask (bit id) =? 0).

Definition BodegaRespondersFor (defaultMask : Z) (ranges : list Range) (leader key : Z) : Z :=
  let at_ i := default (mkRange 0 0 0) (index ranges i) in
  let i := Search (length ranges) (λ i, key <=? End_ (at_ i)) in
  let mask := if (i <? Z.of_nat (length ranges)) && (Start (at_ i) <=? key) then RangeResponders (at_ i) else defaultMask in
  Z.lor mask (bit leader).

(** [prev] is the range before. *)
Fixpoint valid_ranges (n : Z) (prev : option Range) (ranges : list Range) : bool :=
  match ranges with
  | [] => true
  | r :: ranges =>
      (Start r <=? End_ r) && (Z.shiftr (RangeResponders r) n =? 0) &&
      match prev with Some p => End_ p <? Start r | None => true end && valid_ranges n (Some r) ranges
  end.
Definition ValidBodegaRanges (ranges : list Range) (n : Z) : bool := valid_ranges n None ranges.

Definition sameRoster (a b : Roster) : bool :=
  (RBallot a =? RBallot b) && (Leader a =? Leader b) && (Responders a =? Responders b) && bool_decide (Ranges a = Ranges b).
Definition respondersFor (r : Roster) (key : Z) : Z := BodegaRespondersFor (Responders r) (Ranges r) (Leader r) key.
Definition allResponders (r : Roster) : Z :=
  foldl (λ mask span, Z.lor mask (RangeResponders span)) (Z.lor (Responders r) (bit (Leader r))) (Ranges r).

Definition id (r : Request) : RequestID := ProposeRequestID (Proposal r).
Definition cmd (r : Request) : Command := PCommand (Proposal r).

(** ** Batches ([batch.go]) *)
Definition requests (v : Entry) : list Request := match Batch v with [] => [ERequest v] | rs => rs end.

(** The last write of [key] in the batch, searched from its end. *)
Fixpoint last_write (rs : list Request) (key : Z) : option Value :=
  match rs with
  | [] => None
  | r :: rs => if (Op (cmd r) =? PUT) && (K (cmd r) =? key) then Some (V (cmd r)) else last_write rs key
  end.
Definition lastWrite (v : Entry) (key : Z) : option Value := last_write (rev (requests v)) key.

Definition requestBytes (r : Request) : Z := 30 + Z.of_nat (length (V (cmd r))).
Definition entryBytes (v : Entry) : Z := foldl (λ n r, n + requestBytes r) 21 (requests v).

(** [sameEntry]: the same commands under the same identities. *)
Definition same_command (x y : Request) : bool :=
  bool_decide (id x = id y) && (Op (cmd x) =? Op (cmd y)) && (K (cmd x) =? K (cmd y)) && bool_decide (V (cmd x) = V (cmd y)).
Fixpoint same_commands (xs ys : list Request) : bool :=
  match xs, ys with
  | [], [] => true
  | x :: xs, y :: ys => same_command x y && same_commands xs ys
  | _, _ => false
  end.
Definition sameEntry (a b : Entry) : bool := same_commands (requests a) (requests b).

(** ** The wire ([wire.go]) *)
Definition check_request (r : Request) : bool := (-1 <=? Origin r) && (Origin r <? 63) && (Op (cmd r) <=? SCAN).
Definition check_entry (v : Entry) : bool :=
  let rs := requests v in
  (Z.of_nat (length rs) <=? maxBatchCommands) && forallb check_request rs.
(** A batch of one is its request. *)
Definition normal_entry (v : Entry) : Entry := match Batch v with [r] => v <| ERequest := r |> <| Batch := [] |> | _ => v end.

(** [validateProtoMessage]: the message as it is taken, or nothing. *)
Definition validateProtoMessage (m : Message) : option Message :=
  if (From m <? 0) || (63 <=? From m) || (kindCount <=? Kind m) then None else
  if Kind m =? promise then
    if (Parts m <? 1) || (Part m <? 0) || (Parts m <=? Part m) || negb (forallb check_entry (Entries m)) then None
    else Some (m <| Entries ::= fmap normal_entry |>)
  else if (Kind m =? accept) || (Kind m =? committedEntry) then
    if check_entry (MEntry m) then Some (m <| MEntry ::= normal_entry |>) else None
  else if (Kind m =? accepted) || (Kind m =? acceptNote) then Some (m <| MEntry ::= (λ v, v <| EBallot := RBallot (MRoster m) |>) |>)
  else if Kind m =? forward then if check_request (MRequest m) then Some m else None
  else Some m.

(** [Entry.wireFields] *)
Definition entry_wireFields (v : Entry) : Entry :=
  match Batch v with
  | [] => v
  | [r] => v <| ERequest := r |> <| Batch := [] |>
  | _ => v <| ERequest := zeroRequest |>
  end.

(** [Message.wireFields]: what of a message its kind sends. *)
Definition wireFields (m : Message) : outcome Message :=
  let p := message (Kind m) <| From := From m |> <| MRoster := mkRoster (RBallot (MRoster m)) 0 0 [] |> <| ReadPrefix := ReadPrefix m |> in
  let k := Kind m in
  if k =? commit then Done (p <| CommitPrefix := CommitPrefix m |> <| CommitSlot := CommitSlot m |>)
  else if k =? heartbeat then Done (p <| MRoster := MRoster m |> <| Prefix := Prefix m |> <| CommitPrefix := CommitPrefix m |>)
  else if k =? lightHeartbeat then Done (p <| Prefix := Prefix m |> <| CommitPrefix := CommitPrefix m |>)
  else if k =? rosterRequest then Done p
  else if (k =? leaseRequest) || (k =? leaseRevoke) || (k =? leaseRevoked) then Done (p <| Seq := Seq m |>)
  else if k =? leaseReply then Done (p <| Seq := Seq m |> <| Threshold := Threshold m |>)
  else if k =? prepare then Done (p <| PrepareStart := PrepareStart m |>)
  else if k =? promise then Done (p <| PrepareStart := PrepareStart m |> <| Part := Part m |> <| Parts := Parts m |> <| Entries := Entries m |>)
  else if (k =? accept) || (k =? committedEntry) then Done (p <| MEntry := MEntry m |>)
  else if (k =? accepted) || (k =? acceptNote) then Done (p <| MEntry := mkEntry (Slot (MEntry m)) 0 zeroRequest [] false |> <| Prefix := Prefix m |>)
  else if k =? forward then Done (p <| MRequest := MRequest m |>)
  else if k =? result then
    Done (p <| MRequest := mkRequest (mkPropose (CommandId (Proposal (MRequest m))) (ClientId (Proposal (MRequest m))) (mkCommand 0 0 []) 0) (Origin (MRequest m)) |>
            <| MValue := MValue m |>)
  else if k =? repairRequest then Done (p <| RepairStart := RepairStart m |>)
  else Panicked "bodega: invalid outgoing message kind".

(** What a peer takes of a message sent: its fields, and those of its entries, are
    projected before they are encoded ([messages.pb.go]). *)
Definition on_wire (m : Message) : option Message :=
  match wireFields m with
  | Done p => validateProtoMessage (p <| MEntry ::= entry_wireFields |> <| Entries ::= fmap entry_wireFields |>)
  | _ => None
  end.

(** ** [readSlots]: [container/heap] over slots, of which the code uses the
    smallest, [Push] and [Pop]; kept sorted here. *)
Fixpoint heap_push (s : Z) (q : list Z) : list Z :=
  match q with
  | [] => [s]
  | x :: rest => if s <=? x then s :: q else x :: heap_push s rest
  end.
Definition heap_pop (q : list Z) : list Z := tail q.
End Bodega.
