(* ===== verification/BodegaCore.v ===== *)
(** * BodegaCore: the replica of Bodega ([bodega/core.go], [recovery.go], [lease.go], [local_read.go], [batch.go], [execute.go])

    [core] has the fields of [type core]; the methods are functions of it.  No
    callback reenters the core.

    - [trySend], [tryBroadcast] and [reply] append to the trace [out] and answer
      as the environment says; the position in the trace counts the calls.
    - [clock] is set by the adapter; its [k]th reading is [reading e k], the [k]th
      random number [draw e k].
    - The maps of the source that the code ranges over with an effect take the
      order from the environment.
    - [trace] writes a log file and is left out. *)
From stdpp Require Import gmap strings list fin_maps functions sorting.
From Stdlib Require Import Lia.
From S2P Require Import Prelude State ReplicaSet Defs Bodega.

Module BodegaCore.
Import Bodega.

(** ** State *)
Record options := mkOptions {
  oLease : Z; oMargin : Z; oHeartbeat : Z; oFailure : Z; oFailureMax : Z; oResponders : Z; oRanges : list Range }.
Record grant := mkGrant { until : Z; gThreshold : Z }.
Record pendingRead := mkRead { rRequest : Request; rSlot : Z; rSince : Z }.
Record snapshot := mkSnapshot { sParts : Z; sChunks : gmap Z (list Entry) }.

(** The counters of [statistics]. *)
Inductive stat :=
  | LocalReads | HeldReads | FallbackReads | Forwarded | Writes | Commits | RosterChanges
  | LeaseMisses | CoverageWaits | RecoveredSlots | Messages
  | RetriedRequests | DroppedMessages | OutOfOrderReads | StableLeaderReads | UncommittedReadHolds
  | CommitNotices | CommitRepairRequests | CommitRepairEntries
  | Batches | BatchCommands | MaxBatchCommands
  | PrepareEntries | PrepareCompleted | PrepareNanos | Revokes | RevokeAcks
  | CompactedSlots | RosterValidations | RosterReuses.
#[export] Instance stat_eq_dec : EqDecision stat.
Proof. solve_decision. Defined.

(** The calls of the output callbacks, with their answers. *)
Inductive event :=
  | Sent (to : Z) (m : Message) (ok : bool)
  | Broadcast (m : Message) (drops : Z)
  | Replied (r : Request) (v : Value) (ok : bool).

Record env := mkEnv {
  reading : nat → Z;                   (* c.clock() *)
  draw : nat → Z;                      (* rand.Int63n, before its bound *)
  sends : nat → bool;                  (* c.trySend *)
  dropped : nat → Z;                   (* c.tryBroadcast *)
  replies : nat → bool;                (* c.reply *)
  ord_outgoing : list Z;               (* range c.outgoing *)
  ord_held : list RequestID;           (* range c.held *)
  ord_snapshots : list Z;              (* range c.snapshots *)
  ord_chunks : Z → list Z }.           (* range s.chunks *)

Section Core.
Context `{SM : StateMachine}.

Record core := mkCore {
  cid : Z; cn : Z; majority : Z; opt : options; current : Roster; pending : Roster; heartbeatBallot : Z;
  log : gmap Z Entry; committed : gset Z; votes : gmap Z Z; latest : gmap Z Z; latestCommitted : gmap Z Z;
  prefix : Z; high : Z; threshold : Z; next : Z; acceptedPrefix : Z; readPrefix : Z; acceptedProgress : list Z;
  prepared : bool; prepareStart : Z; snapshotStart : Z; prepareSince : Time; compacted : Z; revoked : list Z;
  noticePrefix : Z; noticeHigh : Z; noticeSlots : gset Z; lastRepair : Time;
  snapshots : gmap Z snapshot; ownSnapshot : list Entry; snapshotChunks : list (list Entry);
  batching : bool; batch : list Request; batchIDs : gset RequestID; batchBytes : Z;
  snapshotCursor : gmap Z Z; snapshotTaken : bool; incoming : gmap Z grant; outgoing : gmap Z Z; leaseRequests : gmap Z Z; sequence : Z;
  seen : list Time; failureAt : list Time; progress : list Z; held : gmap RequestID pendingRead; holdSlots : list Z; fastSlots : list Z; fastQueued : gset Z;
  holdWaiters : gmap Z (list RequestID); holdCounts : gmap Z Z; queued : gmap RequestID Request; retryQueue : list RequestID; retryHead : Z;
  inflight : gmap RequestID Z; completed : gmap RequestID Value; stats : stat → Z;
  sm : sm_state; reads : nat; draws : nat; out : list event }.

#[export] Instance eta_core : Eta core := λ c,
  mkCore (cid c) (cn c) (majority c) (opt c) (current c) (pending c) (heartbeatBallot c) (log c) (committed c)
    (votes c) (latest c) (latestCommitted c) (prefix c) (high c) (threshold c) (next c) (acceptedPrefix c)
    (readPrefix c) (acceptedProgress c) (prepared c) (prepareStart c) (snapshotStart c) (prepareSince c)
    (compacted c) (revoked c) (noticePrefix c) (noticeHigh c) (noticeSlots c) (lastRepair c) (snapshots c)
    (ownSnapshot c) (snapshotChunks c) (batching c) (batch c) (batchIDs c) (batchBytes c) (snapshotCursor c)
    (snapshotTaken c) (incoming c) (outgoing c) (leaseRequests c) (sequence c) (seen c) (failureAt c)
    (progress c) (held c) (holdSlots c) (fastSlots c) (fastQueued c) (holdWaiters c) (holdCounts c) (queued c)
    (retryQueue c) (retryHead c) (inflight c) (completed c) (stats c) (sm c) (reads c) (draws c) (out c).
#[export] Instance set_current : Setter current := ltac:(mk_setter).
#[export] Instance set_pending : Setter pending := ltac:(mk_setter).
#[export] Instance set_heartbeatBallot : Setter heartbeatBallot := ltac:(mk_setter).
#[export] Instance set_log : Setter log := ltac:(mk_setter).
#[export] Instance set_committed : Setter committed := ltac:(mk_setter).
#[export] Instance set_votes : Setter votes := ltac:(mk_setter).
#[export] Instance set_latest : Setter latest := ltac:(mk_setter).
#[export] Instance set_latestCommitted : Setter latestCommitted := ltac:(mk_setter).
#[export] Instance set_prefix : Setter prefix := ltac:(mk_setter).
#[export] Instance set_high : Setter high := ltac:(mk_setter).
#[export] Instance set_threshold : Setter threshold := ltac:(mk_setter).
#[export] Instance set_next : Setter next := ltac:(mk_setter).
#[export] Instance set_acceptedPrefix : Setter acceptedPrefix := ltac:(mk_setter).
#[export] Instance set_readPrefix : Setter readPrefix := ltac:(mk_setter).
#[export] Instance set_acceptedProgress : Setter acceptedProgress := ltac:(mk_setter).
#[export] Instance set_prepared : Setter prepared := ltac:(mk_setter).
#[export] Instance set_prepareStart : Setter prepareStart := ltac:(mk_setter).
#[export] Instance set_snapshotStart : Setter snapshotStart := ltac:(mk_setter).
#[export] Instance set_prepareSince : Setter prepareSince := ltac:(mk_setter).
#[export] Instance set_compacted : Setter compacted := ltac:(mk_setter).
#[export] Instance set_revoked : Setter revoked := ltac:(mk_setter).
#[export] Instance set_noticePrefix : Setter noticePrefix := ltac:(mk_setter).
#[export] Instance set_noticeHigh : Setter noticeHigh := ltac:(mk_setter).
#[export] Instance set_noticeSlots : Setter noticeSlots := ltac:(mk_setter).
#[export] Instance set_lastRepair : Setter lastRepair := ltac:(mk_setter).
#[export] Instance set_snapshots : Setter snapshots := ltac:(mk_setter).
#[export] Instance set_ownSnapshot : Setter ownSnapshot := ltac:(mk_setter).
#[export] Instance set_snapshotChunks : Setter snapshotChunks := ltac:(mk_setter).
#[export] Instance set_batching : Setter batching := ltac:(mk_setter).
#[export] Instance set_batch : Setter batch := ltac:(mk_setter).
#[export] Instance set_batchIDs : Setter batchIDs := ltac:(mk_setter).
#[export] Instance set_batchBytes : Setter batchBytes := ltac:(mk_setter).
#[export] Instance set_snapshotCursor : Setter snapshotCursor := ltac:(mk_setter).
#[export] Instance set_snapshotTaken : Setter snapshotTaken := ltac:(mk_setter).
#[export] Instance set_incoming : Setter incoming := ltac:(mk_setter).
#[export] Instance set_outgoing : Setter outgoing := ltac:(mk_setter).
#[export] Instance set_leaseRequests : Setter leaseRequests := ltac:(mk_setter).
#[export] Instance set_sequence : Setter sequence := ltac:(mk_setter).
#[export] Instance set_seen : Setter seen := ltac:(mk_setter).
#[export] Instance set_failureAt : Setter failureAt := ltac:(mk_setter).
#[export] Instance set_progress : Setter progress := ltac:(mk_setter).
#[export] Instance set_held : Setter held := ltac:(mk_setter).
#[export] Instance set_holdSlots : Setter holdSlots := ltac:(mk_setter).
#[export] Instance set_fastSlots : Setter fastSlots := ltac:(mk_setter).
#[export] Instance set_fastQueued : Setter fastQueued := ltac:(mk_setter).
#[export] Instance set_holdWaiters : Setter holdWaiters := ltac:(mk_setter).
#[export] Instance set_holdCounts : Setter holdCounts := ltac:(mk_setter).
#[export] Instance set_queued : Setter queued := ltac:(mk_setter).
#[export] Instance set_retryQueue : Setter retryQueue := ltac:(mk_setter).
#[export] Instance set_retryHead : Setter retryHead := ltac:(mk_setter).
#[export] Instance set_inflight : Setter inflight := ltac:(mk_setter).
#[export] Instance set_completed : Setter completed := ltac:(mk_setter).
#[export] Instance set_stats : Setter stats := ltac:(mk_setter).
#[export] Instance set_sm : Setter sm := ltac:(mk_setter).
#[export] Instance set_reads : Setter reads := ltac:(mk_setter).
#[export] Instance set_draws : Setter draws := ltac:(mk_setter).
#[export] Instance set_out : Setter out := ltac:(mk_setter).

Definition newCore (id n : Z) (o : options) : core :=
  let row {A} (a : A) := replicate (Z.to_nat n) a in
  mkCore id n (Z.quot n 2 + 1) o zeroRoster zeroRoster 0 ∅ ∅ ∅ ∅ ∅ 0 0 0 0 0 0 (row 0)
    false 0 0 None 0 (row 0) 0 0 ∅ None ∅ [] [] false [] ∅ 0 ∅ false ∅ ∅ ∅ 0
    (row None) (row None) (row 0) ∅ [] [] ∅ ∅ ∅ ∅ [] 0 ∅ ∅ (λ _, 0) sm_init 0 0 [].

Definition bump (s : stat) (k : Z) (c : core) : core := c <| stats ::= (λ f, <[s := u64 (f s + k)]> f) |>.
Definition count (s : stat) : core → core := bump s 1.

(** The lists have an entry per replica, and are read and written at one. *)
Definition time_at (l : list Time) (peer : Z) : Time := default None (index l peer).
Definition num_at (l : list Z) (peer : Z) : Z := default 0 (index l peer).
Definition put {A} (peer : Z) (x : A) : list A → list A := <[Z.to_nat peer := x]>.
Definition before (now : Z) (t : Time) : bool := match t with Some t => now <? t | None => false end.
Definition peers (c : core) : list Z := rangeZ 0 (cn c - 1).
Definition entry_at (s : Z) (c : core) : Entry := default zeroEntry (log c !! s).

Definition active (c : core) : bool := negb (RBallot (current c) =? 0) && (RBallot (pending c) =? 0).
Definition leading (c : core) : bool := Leader (current c) =? cid c.

Section Methods.
Variable e : env.

(** [refreshPeer]: [rand.Int63n(k + 1)] when the failure timeout is a range. *)
Definition refreshPeer (peer now : Z) (c : core) : core :=
  let o := opt c in
  let '(timeout, c) :=
    if oFailure o <? oFailureMax o
    then (oFailure o + draw e (draws c) `mod` (oFailureMax o - oFailure o + 1), c <| draws ::= S |>)
    else (oFailure o, c) in
  c <| seen ::= put peer (Some now) |> <| failureAt ::= put peer (Some (now + timeout)) |>.
Definition refreshAll (now : Z) (c : core) : core := foldl (λ c p, refreshPeer p now c) c (peers c).
Definition peerHealthy (peer now : Z) (c : core) : bool := before now (time_at (failureAt c) peer).

(** ** Sending *)
Definition prepareMessage (m : Message) (c : core) : Message :=
  let m := m <| From := cid c |> <| MRoster := current c |> in
  let m := if RBallot (current c) <? RBallot (pending c) then m <| MRoster := pending c |> else m in
  if active c && (cid c =? Leader (current c)) then m <| ReadPrefix := readPrefix c |> else m.

Definition emit (to : Z) (m : Message) (c : core) : bool * core :=
  let m := prepareMessage m c in
  let c := count Messages c in
  let sent := sends e (length (out c)) in
  let c := c <| out ::= (λ o, o ++ [Sent to m sent]) |> in
  (sent, if negb sent && negb (Kind m =? promise) then count DroppedMessages c else c).
Definition post (to : Z) (m : Message) (c : core) : core := (emit to m c).2.

Definition broadcast (m : Message) (c : core) : core :=
  let c := bump Messages (cn c - 1) c in
  let m := prepareMessage m c in
  let drops := dropped e (length (out c)) in
  let c := c <| out ::= (λ o, o ++ [Broadcast m drops]) |> in
  let c := if Kind m =? promise then c else bump DroppedMessages drops c in
  if Kind m =? heartbeat then c <| heartbeatBallot := RBallot (MRoster m) |> else c.

Definition heartbeatMessage (c : core) : Message :=
  let m := message heartbeat <| Prefix := prefix c |> in
  if active c && leading c && prepared c then m <| CommitPrefix := prefix c |> else m.

(** [stable] reads the clock. *)
Definition granted (now : Z) (c : core) : list Z :=
  filter (λ p, p ≠ cid c) ((map_to_list (filter (λ pg : Z * grant, now < until pg.2 ∧ gThreshold pg.2 ≤ prefix c) (incoming c))).*1).
Definition stable (c : core) : bool * core :=
  let now := reading e (reads c) in
  let c := c <| reads ::= S |> in
  if negb (active c) then (false, c) else
  let own := if threshold c <=? prefix c then 1 else 0 in
  (majority c <=? own + Z.of_nat (length (granted now c)), c).

(** ** Requests and held reads *)
Definition enqueue (r : Request) (c : core) : core :=
  let c := if decide (queued c !! id r = None) then c <| retryQueue ::= (λ q, q ++ [id r]) |> else c in
  c <| queued ::= <[id r := r]> |>.

Definition dropHeld (i : RequestID) (c : core) : core :=
  match held c !! i with
  | None => c
  | Some h =>
      let k := default 0 (holdCounts c !! rSlot h) - 1 in
      let c := c <| held ::= delete i |> <| holdCounts ::= <[rSlot h := k]> |> in
      if k =? 0 then c <| holdCounts ::= delete (rSlot h) |> <| holdWaiters ::= delete (rSlot h) |> else c
  end.

Definition finish (r : Request) (v : Value) (c : core) : core :=
  let c := dropHeld (id r) (c <| queued ::= delete (id r) |>) in
  if Origin r =? cid c then
    let ok := replies e (length (out c)) in
    let c := c <| out ::= (λ o, o ++ [Replied r v ok]) |> in
    if ok then c else enqueue r c
  else if (0 <=? Origin r) && (Origin r <? cn c) then post (Origin r) (message result <| MRequest := r |> <| MValue := v |>) c
  else c.

Definition queueFastSlot (s : Z) (c : core) : core :=
  if (0 <? Z.of_nat (length (default [] (holdWaiters c !! s)))) && negb (bool_decide (s ∈ fastQueued c))
  then c <| fastQueued ::= union {[s]} |> <| fastSlots ::= heap_push s |> else c.

Definition localReadAuthority (c : core) : bool * core :=
  if negb (leading c) || prepared c then stable c else (false, c).

Definition finishLocalRead (r : Request) (v : Value) (c : core) : core :=
  let c := count LocalReads c in
  finish r v (if leading c then count StableLeaderReads c else c).

(** [readValue]: a value and the state after, if the slot can be read. *)
Definition readValue (s : Z) (r : Request) (c : core) : outcome (option Value * core) :=
  if s <=? prefix c then
    '(v, st) ← sm_execute (cmd r) (sm c); Done (Some v, c <| sm := st |>)
  else
  match log c !! s with
  | Some v =>
      if bool_decide (s ∉ committed c) || negb (ReadFresh v) || negb (EBallot v =? RBallot (current c)) || (readPrefix c <? s)
      then Done (None, c)
      else Done (lastWrite v (K (cmd r)), count OutOfOrderReads c)
  | None => Done (None, c)
  end.

(** ** Execution ([execute.go]) *)
Definition apply_request (r : Request) (c : core) : outcome core :=
  if Op (cmd r) =? NONE then Done c else
  '(value, c) ← (match completed c !! id r with
                 | Some v => Done (v, c)
                 | None => '(v, st) ← sm_execute (cmd r) (sm c);
                           Done (v, c <| sm := st |> <| completed ::= <[id r := v]> |>)
                 end);
  Done (if cid c =? Leader (current c) then finish r value c else c).

Fixpoint apply_loop (fuel : nat) (c : core) : outcome core :=
  match fuel with
  | O => OutOfFuel
  | S fuel =>
      if decide (prefix c + 1 ∈ committed c) then
        let c := c <| prefix ::= (λ x, x + 1) |> in
        c ← forEach apply_request (requests (entry_at (prefix c) c)) c;
        apply_loop fuel c
      else Done c
  end.
(** Each round executes one more committed slot, so their number bounds them. *)
Definition apply (c : core) : outcome core := apply_loop (S (size (committed c))) c.

(** [compactLog] *)
Definition forget_slot (c : core) (slot : Z) : core :=
  let c := match log c !! slot with
           | Some v => foldl (λ c r, if bool_decide (inflight c !! id r = Some slot) then c <| inflight ::= delete (id r) |> else c) c (requests v)
           | None => c
           end in
  c <| log ::= delete slot |> <| committed ::= (λ s, s ∖ {[slot]}) |> <| votes ::= delete slot |> <| noticeSlots ::= (λ s, s ∖ {[slot]}) |>.
Definition compactLog (c : core) : core :=
  if negb (active c) then c else
  let through := foldl (λ t p, if p =? cid c then t else Z.min t (num_at (progress c) p)) (prefix c) (peers c) in
  if (through <=? compacted c) || (through - compacted c <? 1024) then c else
  let c' := foldl forget_slot c (rangeZ (compacted c + 1) through) in
  bump CompactedSlots (through - compacted c) c' <| compacted := through |>.

(** ** Accepting *)
Definition latest_of (m : gmap Z Z) (k : Z) : Z := default 0 (m !! k).
Definition raise (s : Z) (m : gmap Z Z) (r : Request) : gmap Z Z :=
  if (Op (cmd r) =? PUT) && (latest_of m (K (cmd r)) <? s) then <[K (cmd r) := s]> m else m.

(** [reindex]: the largest slots, whatever the order of the log. *)
Definition reindex (c : core) : core :=
  let slots (keep : Z → bool) := foldl (λ m sv, if keep sv.1 then foldl (raise sv.1) m (requests sv.2) else m) ∅ (map_to_list (log c)) in
  c <| latest := slots (λ _, true) |> <| latestCommitted := slots (λ s, bool_decide (s ∈ committed c)) |>.

(** [for { next, ok := c.log[c.acceptedPrefix+1]; ... }] *)
Fixpoint extend (fuel : nat) (c : core) : outcome core :=
  match fuel with
  | O => OutOfFuel
  | S fuel =>
      match log c !! (acceptedPrefix c + 1) with
      | Some v => if EBallot v =? RBallot (current c) then extend fuel (c <| acceptedPrefix ::= (λ x, x + 1) |>) else Done c
      | None => Done c
      end
  end.

Definition acceptEntry (v : Entry) (c : core) : outcome core :=
  if (Slot v =? 0) || (Slot v <=? compacted c) then Done c else
  let old := log c !! Slot v in
  let conflict := match old with
                  | Some o => (EBallot v <? EBallot o) || ((EBallot o =? EBallot v) && negb (sameEntry o v))
                  | None => false end in
  let changed := match old with Some o => negb (sameEntry o v) | None => false end in
  if conflict then Panicked "bodega: conflicting accepted value" else
  if changed && bool_decide (Slot v ∈ committed c) then Panicked "bodega: recovery changed a committed value" else
  let c := c <| log ::= <[Slot v := v]> |> in
  c ← extend (S (size (log c))) c;
  let c := c <| acceptedProgress ::= put (cid c) (acceptedPrefix c) |> in
  let c := if high c <? Slot v then c <| high := Slot v |> else c in
  let c := if next c <? Slot v then c <| next := Slot v |> else c in
  Done (if changed then reindex (c <| committed ::= (λ s, s ∖ {[Slot v]}) |>)
        else c <| latest ::= (λ m, foldl (raise (Slot v)) m (requests v)) |>).

(** ** Committing *)
Definition markCommitted (s : Z) (c : core) : core :=
  let c := c <| committed ::= union {[s]} |> <| latestCommitted ::= (λ m, foldl (raise s) m (requests (entry_at s c))) |> in
  queueFastSlot s c.

Definition applyNoticedSlot (slot : Z) (c : core) : core :=
  if (slot =? 0) || ((noticePrefix c <? slot) && bool_decide (slot ∉ noticeSlots c)) then c else
  match log c !! slot with
  | Some v =>
      if negb (EBallot v =? RBallot (current c)) then c else
      let c := if bool_decide (slot ∈ committed c) then c else markCommitted slot c in
      c <| noticeSlots ::= (λ s, s ∖ {[slot]}) |>
  | None => c
  end.

(** [requestCommitRepair] *)
Definition requestCommitRepair (now : Z) (c : core) : core :=
  let start := u64 (Z.max (prefix c) (acceptedPrefix c) + 1) in
  if negb (active c) || leading c || (noticeHigh c <? start) then c else
  if negb (bool_decide (lastRepair c = None)) && (Sub now (lastRepair c) <? oHeartbeat (opt c)) then c else
  post (Leader (current c)) (message repairRequest <| RepairStart := start |>)
    (count CommitRepairRequests (c <| lastRepair := Some now |>)).

(** [for s := c.prefix + 1; s <= c.noticePrefix; s++]: each round needs a record
    in the log. *)
Fixpoint notice_loop (fuel : nat) (s : Z) (c : core) : outcome core :=
  match fuel with
  | O => OutOfFuel
  | S fuel =>
      if noticePrefix c <? s then Done c else
      match log c !! s with
      | Some v => if EBallot v =? RBallot (current c) then notice_loop fuel (s + 1) (applyNoticedSlot s c) else Done c
      | None => Done c
      end
  end.

Definition learnCommitNotice (pfx slot now : Z) (c : core) : outcome core :=
  let c := c <| noticePrefix ::= Z.max pfx |> <| noticeHigh ::= Z.max (Z.max pfx slot) |> in
  let c := if prefix c <? slot then applyNoticedSlot slot (c <| noticeSlots ::= union {[slot]} |>) else c in
  c ← notice_loop (S (size (log c))) (prefix c + 1) c;
  c ← apply c;
  Done (requestCommitRepair now c).

Definition learnCommittedEntry (v : Entry) (c : core) : outcome core :=
  if Slot v <=? prefix c then Done c else
  let v := v <| EBallot := RBallot (current c) |> <| ReadFresh := false |> in
  c ← acceptEntry v c;
  apply (markCommitted (Slot v) c).

(** ** Releasing held reads ([local_read.go]) *)

(** The waiters of one slot: [Done (false, _)] if the authority is gone, [true]
    if they are served or the slot is not ready. *)
Fixpoint release_waiters (s : Z) (ids : list RequestID) (c : core) : outcome (bool * core) :=
  match ids with
  | [] => Done (true, c <| holdWaiters ::= delete s |>)
  | i :: ids =>
      match held c !! i with
      | Some h =>
          if negb (rSlot h =? s) then release_waiters s ids c else
          let '(ok, c) := localReadAuthority c in
          if negb ok || negb (has (respondersFor (current c) (K (cmd (rRequest h)))) (cid c)) then Done (false, c) else
          '(value, c) ← readValue s (rRequest h) c;
          match value with
          | None => Done (true, c)
          | Some v => release_waiters s ids (finishLocalRead (rRequest h) v c)
          end
      | None => release_waiters s ids c
      end
  end.
Definition releaseSlot (s : Z) (c : core) : outcome (bool * core) := release_waiters s (default [] (holdWaiters c !! s)) c.

(** [for len(c.holdSlots) > 0 && c.holdSlots[0] <= c.prefix]: one slot a round. *)
Fixpoint release_held (fuel : nat) (c : core) : outcome (bool * core) :=
  match fuel, holdSlots c with
  | O, _ => OutOfFuel
  | _, [] => Done (true, c)
  | S fuel, s :: _ =>
      if prefix c <? s then Done (true, c) else
      '(ok, c) ← releaseSlot s c;
      if negb ok then Done (false, c) else release_held fuel (c <| holdSlots ::= heap_pop |>)
  end.
Fixpoint release_fast (fuel : nat) (c : core) : outcome core :=
  match fuel, fastSlots c with
  | O, _ => OutOfFuel
  | _, [] => Done c
  | S fuel, s :: _ =>
      if readPrefix c <? s then Done c else
      '(ok, c) ← releaseSlot s c;
      if negb ok then Done c
      else release_fast fuel (c <| fastSlots ::= heap_pop |> <| fastQueued ::= (λ q, q ∖ {[s]}) |>)
  end.
Definition release (c : core) : outcome core :=
  let '(ok, c) := stable c in
  if negb ok then Done c else
  '(go_on, c) ← release_held (S (length (holdSlots c))) c;
  if negb go_on then Done c else release_fast (S (length (fastSlots c))) c.

(** ** Proposing ([batch.go], [core.go]) *)
Definition write_responders (v : Entry) (c : core) : Z :=
  foldl (λ mask r, if Op (cmd r) =? PUT then Z.lor mask (respondersFor (current c) (K (cmd r))) else mask) 0 (requests v).

Definition tryCommit (s : Z) (c : core) : outcome core :=
  if negb (active c) || negb (prepared c) || negb (leading c) || bool_decide (s ∈ committed c) then Done c else
  let mask := default 0 (votes c !! s) in
  if ReplicaSet.Size mask <? majority c then Done c else
  if negb (ReplicaSet.Covers mask (write_responders (entry_at s c) c)) then Done (count CoverageWaits c) else
  c ← apply (count Commits (markCommitted s c));
  release (broadcast (message commit <| CommitPrefix := prefix c |> <| CommitSlot := s |>) c).

Definition propose_count (v : Entry) (c : core) (r : Request) : core :=
  count (if Op (cmd r) =? PUT then Writes else FallbackReads) (c <| inflight ::= <[id r := Slot v]> |>).

Definition proposeBatch (rs : list Request) (c : core) : outcome core :=
  let c := c <| next ::= (λ x, u64 (x + 1)) |> in
  let v := mkEntry (next c) (RBallot (current c)) zeroRequest [] true in
  let v := match rs with [r] => v <| ERequest := r |> | _ => v <| Batch := rs |> end in
  let c := foldl (propose_count v) c rs in
  let n := Z.of_nat (length rs) in
  let c := bump BatchCommands n (count Batches c) in
  let c := if stats c MaxBatchCommands <? n then c <| stats ::= (λ f, <[MaxBatchCommands := n]> f) |> else c in
  c ← acceptEntry v c;
  let c := c <| votes ::= <[Slot v := ReplicaSet.With 0 (cid c)]> |> in
  tryCommit (Slot v) (broadcast (message accept <| MEntry := v |>) c).

Definition flushBatch (c : core) : outcome core :=
  match batch c with
  | [] => Done c
  | rs =>
      let c := c <| batch := [] |> <| batchBytes := 0 |> <| batchIDs := ∅ |> in
      if negb (active c) || negb (leading c) || negb (prepared c) then Done (foldl (λ c r, enqueue r c) c rs)
      else proposeBatch rs c
  end.

Definition admit_request (r : Request) (c : core) : outcome core :=
  if negb (batching c) then proposeBatch [r] c else
  if decide (id r ∈ batchIDs c) then Done c else
  c ← (if negb (Nat.eqb (length (batch c)) 0) && (maxBatchBytes <? batchBytes c + requestBytes r) then flushBatch c else Done c);
  let c := c <| batch ::= (λ b, b ++ [r]) |> <| batchIDs ::= union {[id r]} |> <| batchBytes ::= (λ b, b + requestBytes r) |> in
  if (maxBatchCommands <=? Z.of_nat (length (batch c))) || (maxBatchBytes <=? batchBytes c) then flushBatch c else Done c.

(** The first read of [i] in the batch is taken out. *)
Fixpoint remove_read (i : RequestID) (b : list Request) : option (Request * list Request) :=
  match b with
  | [] => None
  | r :: b =>
      if bool_decide (id r = i) && (Op (cmd r) =? GET) then Some (r, b)
      else match remove_read i b with Some (x, b) => Some (x, r :: b) | None => None end
  end.
Definition cancelRead (i : RequestID) (c : core) : core :=
  let c := dropHeld i c in
  let c := match queued c !! i with
           | Some r => if Op (cmd r) =? GET then c <| queued ::= delete i |> else c
           | None => c end in
  if decide (i ∈ batchIDs c) then
    match remove_read i (batch c) with
    | Some (r, b) => c <| batch := b |> <| batchBytes ::= (λ x, x - requestBytes r) |> <| batchIDs ::= (λ s, s ∖ {[i]}) |>
    | None => c
    end
  else c.

(** A read held until slot [s] can be read. *)
Definition hold_read (r : Request) (s now : Z) (c : core) : core :=
  let c := if (prefix c <? s) && bool_decide (s ∉ committed c) then count UncommittedReadHolds c else c in
  let c := c <| held ::= <[id r := mkRead r s now]> |> in
  let c := if bool_decide (holdWaiters c !! s = None) then c <| holdSlots ::= heap_push s |> else c in
  let c := c <| holdWaiters ::= (λ m, <[s := default [] (m !! s) ++ [id r]]> m) |>
             <| holdCounts ::= (λ m, <[s := default 0 (m !! s) + 1]> m) |> in
  count HeldReads (queueFastSlot s c).

Definition submit_ordered (r : Request) (c : core) : outcome core :=
  if negb (leading c) then
    Done (post (Leader (current c)) (message forward <| MRequest := r |>) (count Forwarded (enqueue r c)))
  else if decide (is_Some (inflight c !! id r)) then Done c
  else admit_request r (c <| queued ::= delete (id r) |>).

Definition submit (r : Request) (now : Z) (c : core) : outcome core :=
  match completed c !! id r with
  | Some value => Done (finish r value c)
  | None =>
      if negb (active c) then Done (enqueue r c)
      else if leading c && negb (prepared c) then Done (enqueue r c)
      else if (Op (cmd r) =? GET) && has (respondersFor (current c) (K (cmd r))) (cid c) then
        let '(ok, c) := localReadAuthority c in
        if ok then
          let s := latest_of (if leading c then latestCommitted c else latest c) (K (cmd r)) in
          '(value, c) ← readValue s r c;
          match value with
          | Some v => Done (finishLocalRead r v c)
          | None =>
              let c := if decide (held c !! id r = None) then hold_read r s now c else c in
              Done (c <| queued ::= delete (id r) |>)
          end
        else submit_ordered r (count LeaseMisses c)
      else submit_ordered r c
  end.

(** ** Leases ([lease.go]) *)
Definition revokeLeases (now : Z) (c : core) : core :=
  if RBallot (pending c) =? 0 then c else
  foldl (λ c pu, if now <? pu.2 then post pu.1 (message leaseRevoke <| Seq := RBallot (current c) |>) (count Revokes c) else c) c
    (range_order (ord_outgoing e) (outgoing c)).

(** ** Repair ([recovery.go]) *)

(** The loop of [sendRepairWindow]: the slot it stopped at. *)
Fixpoint repair_loop (peer : Z) (slots : list Z) (stop size : Z) (c : core) : Z * core :=
  match slots with
  | [] => (stop, c)
  | slot :: slots =>
      match log c !! slot with
      | None => repair_loop peer slots stop size c
      | Some v =>
          if (slot <=? prefix c) && negb (EBallot v =? RBallot (current c)) then
            if (0 <? size) && (maxBatchBytes <? size + entryBytes v) then (slot, c) else
            repair_loop peer slots stop (size + entryBytes v)
              (post peer (message committedEntry <| MEntry := v |>) (count CommitRepairEntries c))
          else if negb (EBallot v =? RBallot (current c)) then repair_loop peer slots stop size c
          else
            let notice (c : core) :=
              if bool_decide (slot ∈ committed c) && (prefix c <? slot)
              then post peer (message commit <| CommitSlot := slot |> <| CommitPrefix := prefix c |>) c else c in
            if ReplicaSet.Contains (default 0 (votes c !! slot)) peer then repair_loop peer slots stop size (notice c) else
            if (0 <? size) && (maxBatchBytes <? size + entryBytes v) then (slot, c) else
            repair_loop peer slots stop (size + entryBytes v)
              (notice (post peer (message accept <| MEntry := v |>) (count CommitRepairEntries c)))
      end
  end.

Definition sendRepairWindow (peer start window : Z) (c : core) : Z * core :=
  if (start =? 0) || (next c <? start) then (start, c) else
  let stop := if window <=? next c - start then start + window - 1 else next c in
  let '(slot, c) := repair_loop peer (rangeZ start stop) (stop + 1) 0 c in
  (slot, post peer (message commit <| CommitPrefix := prefix c |>) c).
Definition sendCommitRepair (peer start : Z) (c : core) : Z * core := sendRepairWindow peer start repairWindow c.

Definition repairPeer (peer : Z) (c : core) : core :=
  let start := Z.min (num_at (progress c) peer) (prefix c) + 1 in
  let '(stop, c) := sendCommitRepair peer start c in
  let c := if stop <=? prefix c then (sendCommitRepair peer (prefix c + 1) c).2 else c in
  let seen_to := u64 (num_at (acceptedProgress c) peer + 1) in
  if seen_to <? start then (sendRepairWindow peer seen_to 64 c).2 else c.

(** ** Recovery ([recovery.go]) *)

(** Evidence in chunks of at most 64 entries and [maxBatchBytes]. *)
Fixpoint chunk (cur : list Entry) (size : Z) (vs : list Entry) : list (list Entry) :=
  match vs with
  | [] => [cur]
  | v :: vs =>
      if negb (Nat.eqb (length cur) 0) && ((64 <=? Z.of_nat (length cur)) || (maxBatchBytes <? size + entryBytes v))
      then cur :: chunk [v] (entryBytes v) vs
      else chunk (cur ++ [v]) (size + entryBytes v) vs
  end.

Definition takeSnapshot (start : Z) (c : core) : bool * core :=
  if (start =? 0) || (start <=? compacted c) then (false, c) else
  if snapshotTaken c then (start =? snapshotStart c, c) else
  let own := omap (λ s, log c !! s) (rangeZ start (high c)) in
  (true, c <| snapshotTaken := true |> <| snapshotStart := start |> <| ownSnapshot := own |>
           <| snapshotChunks ::= (λ l, l ++ chunk [] 0 own) |>).

Fixpoint flush_loop (to : Z) (p : nat) (chunks : list (list Entry)) (c : core) : core :=
  match chunks with
  | [] => c
  | es :: chunks =>
      let m := message promise <| PrepareStart := snapshotStart c |> <| Part := Z.of_nat p |>
                 <| Parts := Z.of_nat (length (snapshotChunks c)) |> <| Entries := es |> in
      let '(sent, c) := emit to m c in
      if negb sent then c else flush_loop to (S p) chunks (c <| snapshotCursor ::= <[to := Z.of_nat (S p)]> |>)
  end.
Definition flushPromises (to : Z) (c : core) : core :=
  if negb (active c) || negb (to =? Leader (current c)) || negb (snapshotTaken c) then c else
  let p := Z.to_nat (default 0 (snapshotCursor c !! to)) in
  flush_loop to p (drop p (snapshotChunks c)) c.

Definition sendSnapshot (to start : Z) (c : core) : core :=
  let '(ok, c) := takeSnapshot start c in
  if negb ok then c else
  let c := if default 0 (snapshotCursor c !! to) =? Z.of_nat (length (snapshotChunks c))
           then c <| snapshotCursor ::= <[to := 0]> |> else c in
  flushPromises to c.

(** [addSnapshot] *)
Definition complete (s : snapshot) : bool := Z.of_nat (size (sChunks s)) =? sParts s.
Definition select_entry (acc : gmap Z Entry * Z) (v : Entry) : gmap Z Entry * Z :=
  let '(selected, high) := acc in
  (match selected !! Slot v with
   | Some old => if EBallot old <? EBallot v then <[Slot v := v]> selected else selected
   | None => <[Slot v := v]> selected
   end, Z.max high (Slot v)).
Definition evidence (c : core) : list Entry :=
  ps ← range_order (ord_snapshots e) (snapshots c);
  if complete ps.2 then pe ← range_order (ord_chunks e ps.1) (sChunks ps.2); pe.2 else [].

Definition recover_slot (selected : gmap Z Entry) (slot : Z) (c : core) : outcome core :=
  let v := default (mkEntry slot 0 (mkRequest (Proposal zeroRequest) (-1)) [] false) (selected !! slot) in
  let v := v <| EBallot := RBallot (current c) |> <| ReadFresh := false |> in
  c ← acceptEntry v c;
  Done (count RecoveredSlots
    (foldl (λ c r, c <| inflight ::= <[id r := slot]> |>) c (requests v) <| votes ::= <[slot := ReplicaSet.With 0 (cid c)]> |>)).

Definition announce_slot (slot : Z) (c : core) : core :=
  let c := broadcast (message accept <| MEntry := entry_at slot c |>) c in
  if bool_decide (slot ∈ committed c)
  then broadcast (message commit <| CommitSlot := slot |> <| CommitPrefix := prefix c |>) c else c.

Definition finish_prepare (start now : Z) (c : core) : outcome core :=
  let '(selected, hi) := foldl select_entry (∅, start - 1) (evidence c) in
  let c := c <| next := hi |> <| inflight := ∅ |> <| prepared := true |> in
  c ← forEach (recover_slot selected) (rangeZ start hi) c;
  let c := bump PrepareEntries (hi - start + 1) c in
  let c := bump PrepareNanos (Sub now (prepareSince c)) (count PrepareCompleted c) in
  let c := foldl (λ c slot, announce_slot slot c) (reindex c) (rangeZ start hi) in
  let c := foldl (λ c p, if p =? cid c then c else repairPeer p c) c (peers c) in
  Done (c <| snapshots := ∅ |>).

Definition addSnapshot (from start part parts : Z) (entries : list Entry) (now : Z) (c : core) : outcome core :=
  if prepared c || negb (start =? prepareStart c) || (parts <=? 0) || (part <? 0) || (parts <=? part) then Done c else
  if existsb (λ v, (Slot v <? start) || (RBallot (current c) <? EBallot v)) entries then Done c else
  let s := default (mkSnapshot parts ∅) (snapshots c !! from) in
  let c := c <| snapshots ::= <[from := s]> |> in
  if negb (sParts s =? parts) then Done c else
  let c := c <| snapshots ::= <[from := mkSnapshot parts (<[part := entries]> (sChunks s))]> |> in
  let n := length (filter (λ ps : Z * snapshot, complete ps.2 = true) (map_to_list (snapshots c))) in
  if Z.of_nat n <? majority c then Done c else finish_prepare start now c.

Definition startPrepare (now : Z) (c : core) : outcome core :=
  let c := (takeSnapshot (prepareStart c) c).2 in
  c ← addSnapshot (cid c) (prepareStart c) 0 1 (ownSnapshot c) now c;
  Done (broadcast (message prepare <| PrepareStart := prepareStart c |>) c).

(** [install]: once every grant to others is over. *)
Definition install_roster (now : Z) (c : core) : core :=
  let c := refreshAll now (c <| current := pending c |> <| pending := zeroRoster |>) in
  let c := c <| threshold := high c |> <| outgoing := ∅ |> <| incoming := ∅ |> <| snapshots := ∅ |>
             <| ownSnapshot := [] |> <| snapshotChunks := [] |> <| snapshotCursor := ∅ |> <| snapshotTaken := false |>
             <| snapshotStart := 0 |> <| prepareStart := prefix c + 1 |> <| prepareSince := Some now |> <| votes := ∅ |>
             <| acceptedPrefix := prefix c |> <| readPrefix := prefix c |>
             <| acceptedProgress := put (cid c) (prefix c) (replicate (Z.to_nat (cn c)) 0) |>
             <| noticePrefix := 0 |> <| noticeHigh := 0 |> <| noticeSlots := ∅ |> <| lastRepair := None |> in
  let c := count RosterChanges c in
  let c := foldl (λ c ih, enqueue (rRequest ih.2) c <| held ::= delete ih.1 |>) c (range_order (ord_held e) (held c)) in
  let c := c <| holdSlots := [] |> <| fastSlots := [] |> <| fastQueued := ∅ |> <| holdWaiters := ∅ |> <| holdCounts := ∅ |> in
  foldl (λ c r, enqueue r c) c (batch c) <| batch := [] |> <| batchBytes := 0 |> <| batchIDs := ∅ |>.

Definition install (now : Z) (c : core) : outcome core :=
  if RBallot (pending c) =? 0 then Done c else
  if existsb (λ pu : Z * Z, now <? pu.2) (map_to_list (outgoing c)) then Done c else
  let c := install_roster now c in
  if leading c then startPrepare now c else Done c.

Definition validRoster (r : Roster) (c : core) : bool * core :=
  ((0 <? RBallot r) && (0 <=? Leader r) && (Leader r <? cn c) && has (Responders r) (Leader r) &&
     (Z.shiftr (Responders r) (cn c) =? 0) && ValidBodegaRanges (Ranges r) (cn c), count RosterValidations c).

Definition observeValidatedRoster (r : Roster) (now : Z) (c : core) : outcome core :=
  if (RBallot r <=? RBallot (current c)) || (RBallot r <=? RBallot (pending c)) then Done c else
  let c := c <| pending := r |> <| incoming := ∅ |> <| leaseRequests := ∅ |> <| prepared := false |> in
  install now (revokeLeases now c).
Definition observe (r : Roster) (now : Z) (c : core) : outcome core :=
  let '(ok, c) := validRoster r c in
  if ok then observeValidatedRoster r now c else Done c.

Definition next_ballot (n id b : Z) : Z := u64 (u64 (u64 (b / n + 1) * n) + id + 1).
Definition proposeRosterRanges (leader responders : Z) (ranges : list Range) (now : Z) (c : core) : outcome core :=
  let b := Z.max (RBallot (current c)) (RBallot (pending c)) in
  c ← observe (mkRoster (next_ballot (cn c) (cid c) b) leader (Z.lor responders (bit leader)) ranges) now c;
  Done (broadcast (message heartbeat) c).
Definition proposeRoster (leader responders now : Z) (c : core) : outcome core :=
  proposeRosterRanges leader responders (if RBallot (current c) =? 0 then oRanges (opt c) else Ranges (current c)) now c.
Definition proposeFilteredRoster (leader healthy now : Z) (c : core) : outcome core :=
  let '(mask, ranges) := if RBallot (current c) =? 0 then (oResponders (opt c), oRanges (opt c))
                         else (Responders (current c), Ranges (current c)) in
  let ranges := (λ r, mkRange (Start r) (End_ r) (Z.land (RangeResponders r) healthy)) <$> ranges in
  proposeRosterRanges leader (Z.land mask healthy) ranges now c.

Definition handleLeaderCall (now : Z) (c : core) : outcome (Z * core) :=
  let leader := Leader (current c) in
  if (RBallot (current c) =? 0) || negb (peerHealthy leader now c) then
    let mask := foldl (λ m p, if peerHealthy p now c then m else Z.ldiff m (bit p)) (u64 (bit (cn c) - 1)) (peers c) in
    c ← proposeFilteredRoster (cid c) mask now c;
    Done (cid c, c)
  else Done (leader, c).

(** ** [receive] *)
Definition receiveRevocation (m : Message) (now : Z) (c : core) : outcome (bool * core) :=
  if Kind m =? leaseRevoke then
    let c := if num_at (revoked c) (From m) <? Seq m then c <| revoked ::= put (From m) (Seq m) |> else c in
    let c := if RBallot (current c) <=? Seq m then c <| incoming ::= delete (From m) |> else c in
    Done (true, post (From m) (message leaseRevoked <| Seq := Seq m |>) c)
  else if Kind m =? leaseRevoked then
    if (RBallot (current c) <? RBallot (pending c)) && (Seq m =? RBallot (current c)) then
      let c := if decide (is_Some (outgoing c !! From m)) then count RevokeAcks (c <| outgoing ::= delete (From m) |>) else c in
      c ← install now c; Done (true, c)
    else Done (true, c)
  else Done (false, c).

(** The roster a light heartbeat stands for. *)
Definition known_roster (b : Z) (c : core) : option Roster :=
  if negb (b =? 0) && (b =? RBallot (current c)) then Some (current c)
  else if negb (b =? 0) && (b =? RBallot (pending c)) then Some (pending c)
  else None.

(** [updateReadPrefix]: the largest prefix a majority has accepted. *)
Definition updateReadPrefix (c : core) : core :=
  let p := num_at (merge_sort Z.le (acceptedProgress c)) (cn c - majority c) in
  if readPrefix c <? p then c <| readPrefix := p |> else c.

Definition receive_accepted (m : Message) (c : core) : outcome core :=
  if negb (leading c && prepared c && (EBallot (MEntry m) =? RBallot (current c))) then Done c else
  match log c !! Slot (MEntry m) with
  | Some v =>
      if negb (EBallot v =? EBallot (MEntry m)) then Done c else
      let c := if num_at (acceptedProgress c) (From m) <? Prefix m
               then updateReadPrefix (c <| acceptedProgress ::= put (From m) (Prefix m) |>) else c in
      tryCommit (Slot v) (c <| votes ::= (λ vs, <[Slot v := ReplicaSet.With (default 0 (vs !! Slot v)) (From m)]> vs) |>)
  | None => Done c
  end.

(** A message of the current roster. *)
Definition receive_current (m : Message) (now : Z) (c : core) : outcome core :=
  let peer := From m in
  let fromLeader := peer =? Leader (current c) in
  if Kind m =? heartbeat then
    let c := c <| progress ::= (λ l, put peer (Z.max (num_at l peer) (Prefix m)) l) |> in
    if fromLeader then learnCommitNotice (CommitPrefix m) 0 now c else Done c
  else if Kind m =? leaseRequest then
    let c := c <| outgoing ::= <[peer := now + oLease (opt c) + oMargin (opt c)]> |> in
    Done (post peer (message leaseReply <| Seq := Seq m |> <| Threshold := threshold c |>) c)
  else if Kind m =? leaseReply then
    match leaseRequests c !! Seq m with
    | Some u =>
        let held_until := until <$> incoming c !! peer in
        if (num_at (revoked c) peer <? RBallot (MRoster m)) && (now <? u) && match held_until with Some h => h <? u | None => true end
        then Done (c <| incoming ::= <[peer := mkGrant u (Threshold m)]> |>) else Done c
    | None => Done c
    end
  else if Kind m =? prepare then if fromLeader then Done (sendSnapshot peer (PrepareStart m) c) else Done c
  else if Kind m =? promise then
    if leading c && negb (prepared c) then addSnapshot peer (PrepareStart m) (Part m) (Parts m) (Entries m) now c else Done c
  else if Kind m =? accept then
    if fromLeader && (EBallot (MEntry m) =? RBallot (current c)) then
      c ← acceptEntry (MEntry m) c;
      let c := post peer (message accepted <| Prefix := acceptedPrefix c |>
                            <| MEntry := mkEntry (Slot (MEntry m)) (EBallot (MEntry m)) zeroRequest [] false |>) c in
      learnCommitNotice 0 0 now (applyNoticedSlot (Slot (MEntry m)) c)
    else Done c
  else if Kind m =? accepted then receive_accepted m c
  else if Kind m =? commit then learnCommitNotice (CommitPrefix m) (CommitSlot m) now (count CommitNotices c)
  else if Kind m =? committedEntry then if fromLeader then learnCommittedEntry (MEntry m) c else Done c
  else if Kind m =? repairRequest then
    if leading c && prepared c then Done (sendCommitRepair peer (RepairStart m) c).2 else Done c
  else if Kind m =? forward then if leading c then submit (MRequest m) now c else Done c
  else Done c.

(** From the point where the roster of the message is in hand. *)
Definition receive_rostered (m : Message) (known : bool) (now : Z) (c : core) : outcome core :=
  '(ok, c) ← (if known then Done (true, count RosterReuses c) else
              let '(ok, c) := validRoster (MRoster m) c in
              if ok then c ← observeValidatedRoster (MRoster m) now c; Done (true, c) else Done (false, c));
  if negb ok then Done c else
  if negb (active c) || (negb known && negb (sameRoster (MRoster m) (current c))) then Done c else
  let c := if (From m =? Leader (current c)) && (readPrefix c <? ReadPrefix m) then c <| readPrefix := ReadPrefix m |> else c in
  c ← receive_current m now c;
  release c.

Definition receive_known (m : Message) (known : bool) (now : Z) (c : core) : outcome core :=
  '(taken, c) ← receiveRevocation m now c;
  if taken : bool then Done c else
  if (Kind m =? commit) && negb (From m =? Leader (current c)) then Done c else
  if Kind m =? result then Done (if Origin (MRequest m) =? cid c then finish (MRequest m) (MValue m) c else c) else
  if negb (Kind m =? heartbeat) && (Responders (MRoster m) =? 0) then
    if negb (active c) || negb (RBallot (MRoster m) =? RBallot (current c)) then Done c
    else receive_rostered (m <| MRoster := current c |>) true now c
  else receive_rostered m known now c.

Definition receive (m : Message) (now : Z) (c : core) : outcome core :=
  if (From m <? 0) || (cn c <=? From m) || (From m =? cid c) then Done c else
  let c := refreshPeer (From m) now c in
  if Kind m =? rosterRequest then
    Done (if negb (RBallot (current c) =? 0) || negb (RBallot (pending c) =? 0) then post (From m) (heartbeatMessage c) c else c)
  else if Kind m =? lightHeartbeat then
    match known_roster (RBallot (MRoster m)) c with
    | Some r => receive_known (m <| MRoster := r |> <| Kind := heartbeat |>) true now c
    | None =>
        Done (if (RBallot (current c) <? RBallot (MRoster m)) && (RBallot (pending c) <? RBallot (MRoster m))
              then post (From m) (message rosterRequest) c else c)
    end
  else receive_known m false now c.

(** ** [tick] *)
Definition tick_repair (now : Z) (c : core) : outcome core :=
  c ← (if leading c then
         if negb (prepared c) then startPrepare now c
         else Done (foldl (λ c p, if (p =? cid c) || negb (peerHealthy p now c) then c else repairPeer p c) c (peers c))
       else Done c);
  Done (if leading c then c else requestCommitRepair now c).

(** The retries: [budget] from the head of the queue. *)
Fixpoint retry_loop (budget : nat) (now : Z) (c : core) : outcome core :=
  match budget with
  | O => Done c
  | S budget =>
      match index (retryQueue c) (retryHead c) with
      | None => Panicked "index out of range"
      | Some i =>
          let c := c <| retryHead ::= (λ x, x + 1) |> in
          c ← (match queued c !! i with
               | Some r => submit r now (count RetriedRequests (c <| queued ::= delete i |>))
               | None => Done c end);
          retry_loop budget now c
      end
  end.
Definition tick_retry (now : Z) (c : core) : outcome core :=
  let budget := Z.min (Z.of_nat (length (retryQueue c)) - retryHead c) 256 in
  c ← retry_loop (Z.to_nat budget) now c;
  Done (if (0 <? retryHead c) && (Z.quot (Z.of_nat (length (retryQueue c))) 2 <=? retryHead c)
        then c <| retryQueue := drop (Z.to_nat (retryHead c)) (retryQueue c) |> <| retryHead := 0 |> else c).

Definition tick_work (now : Z) (c : core) : outcome core :=
  c ← tick_repair now c;
  c ← tick_retry now c;
  c ← release c;
  Done (compactLog c).

Definition request_leases (now : Z) (c : core) : core :=
  let c := c <| sequence ::= (λ x, u64 (x + 1)) |> in
  let c := c <| leaseRequests ::= (λ m, filter (λ su : Z * Z, now < su.2) (<[sequence c := now + oLease (opt c)]> m)) |> in
  broadcast (message leaseRequest <| Seq := sequence c |>) c.

Definition tick (now : Z) (c : core) : outcome core :=
  let c := refreshPeer (cid c) now c in
  c ← install now c;
  let hb := prepareMessage (heartbeatMessage c) c in
  let hb := if negb (RBallot (MRoster hb) =? 0) && (RBallot (MRoster hb) =? heartbeatBallot c) then hb <| Kind := lightHeartbeat |> else hb in
  let c := broadcast hb c in
  if negb (active c) then Done (revokeLeases now c) else
  let c := request_leases now c in
  let up := filter (λ p, peerHealthy p now c = true) (peers c) in
  let healthy := foldl (λ m p, Z.lor m (bit p)) 0 up in
  let first := default (-1) (head up) in
  if (majority c <=? Z.of_nat (length up)) &&
     ((negb (has healthy (Leader (current c))) && (first =? cid c)) ||
      (leading c && negb (Z.ldiff (allResponders (current c)) healthy =? 0)))
  then proposeFilteredRoster (cid c) healthy now c
  else tick_work now c.

Definition activate (now : Z) (c : core) : core := refreshAll now c.
End Methods.
End Core.
End BodegaCore.
