(* ===== verification/BodegaMoves.v ===== *)
(** * BodegaMoves: the lease protocol inside a Bodega replica

    Of a replica, the roster leases depend on few fields ([lview]) and four
    kinds of messages.  [move] has the steps a replica may take on them, and
    [moves] runs of steps with the messages they send.  Every event of the core
    ends, and is a run of moves ([receive_moves], [tick_moves],
    [submit_moves], ...): the rest of the protocol leaves the leases alone. *)
From stdpp Require Import gmap strings list fin_maps functions sorting.
From Stdlib Require Import Lia.
From S2P Require Import Prelude State ReplicaSet Defs Bodega BodegaCore.

Module BodegaMoves.
Import Bodega BodegaCore.

(** ** The view *)
Record lview := mkView {
  vid : Z; vn : Z; vmajority : Z; vopt : options; vcurrent : Roster; vpending : Roster; vthreshold : Z;
  vincoming : gmap Z grant; voutgoing : gmap Z Z; vrequests : gmap Z Z; vsequence : Z; vrevoked : list Z;
  vprefix : Z; vprogress : list Z; vcompacted : Z; vlog : gset Z }.
#[export] Instance eta_lview : Eta lview := λ v,
  mkView (vid v) (vn v) (vmajority v) (vopt v) (vcurrent v) (vpending v) (vthreshold v) (vincoming v) (voutgoing v)
    (vrequests v) (vsequence v) (vrevoked v) (vprefix v) (vprogress v) (vcompacted v) (vlog v).
#[export] Instance set_vcurrent : Setter vcurrent := ltac:(mk_setter).
#[export] Instance set_vpending : Setter vpending := ltac:(mk_setter).
#[export] Instance set_vthreshold : Setter vthreshold := ltac:(mk_setter).
#[export] Instance set_vincoming : Setter vincoming := ltac:(mk_setter).
#[export] Instance set_voutgoing : Setter voutgoing := ltac:(mk_setter).
#[export] Instance set_vrequests : Setter vrequests := ltac:(mk_setter).
#[export] Instance set_vsequence : Setter vsequence := ltac:(mk_setter).
#[export] Instance set_vrevoked : Setter vrevoked := ltac:(mk_setter).
#[export] Instance set_vprefix : Setter vprefix := ltac:(mk_setter).
#[export] Instance set_vprogress : Setter vprogress := ltac:(mk_setter).
#[export] Instance set_vcompacted : Setter vcompacted := ltac:(mk_setter).
#[export] Instance set_vlog : Setter vlog := ltac:(mk_setter).

Definition lview_of `{SM : StateMachine} (c : core) : lview :=
  mkView (cid c) (cn c) (majority c) (opt c) (current c) (pending c) (threshold c) (incoming c) (outgoing c)
    (leaseRequests c) (sequence c) (revoked c) (prefix c) (progress c) (compacted c) (dom (log c)).

Definition vactive (v : lview) : bool := negb (RBallot (vcurrent v) =? 0) && (RBallot (vpending v) =? 0).

(** The messages of the leases, and heartbeats. *)
Definition lease_kind (k : Z) : bool := (k =? leaseRequest) || (k =? leaseReply) || (k =? leaseRevoke) || (k =? leaseRevoked).
Definition heartbeat_kind (k : Z) : bool := (k =? heartbeat) || (k =? lightHeartbeat).
Definition watched (k : Z) : bool := lease_kind k || heartbeat_kind k.
Definition quiet (ev : event) : Prop :=
  match ev with
  | Sent _ m _ | Broadcast m _ => watched (Kind m) = false
  | Replied _ _ _ => True
  end.

(** [msg] is a message of [kind] from the replica of [v] in its roster. *)
Definition stamped (v : lview) (kind : Z) (msg : Message) : Prop :=
  Kind msg = kind ∧ From msg = vid v ∧ (RBallot (vpending v) = 0 → 0 ≤ RBallot (vcurrent v) → RBallot (MRoster msg) = RBallot (vcurrent v)).

(** A step: [input] is the message received, if any. *)
Inductive move (input : option Message) (now : Z) : lview → list event → lview → Prop :=
  | move_other v l k X : Forall quiet l → vprefix v ≤ k → vlog v ⊆ X → move input now v l (v <| vprefix := k |> <| vlog := X |>)
  | move_heartbeat v ev msg :
      (∃ to ok, ev = Sent to msg ok) ∨ (∃ drops, ev = Broadcast msg drops) →
      heartbeat_kind (Kind msg) = true → From msg = vid v → Prefix msg = vprefix v ∨ Prefix msg = 0 → move input now v [ev] v
  | move_progress v hb :
      input = Some hb → heartbeat_kind (Kind hb) = true → 0 ≤ From hb < vn v →
      move input now v [] (v <| vprogress ::= (λ l, put (From hb) (Z.max (num_at l (From hb)) (Prefix hb)) l) |>)
  | move_compact v k X :
      k ≤ vprefix v → (∀ p, 0 ≤ p < vn v → p ≠ vid v → k ≤ num_at (vprogress v) p) → (∀ s, s ∈ vlog v → s ∉ X → s ≤ k) →
      move input now v [] (v <| vcompacted := k |> <| vlog := X |>)
  | move_observe v r :
      RBallot (vcurrent v) < RBallot r →
      move input now v [] (v <| vpending := r |> <| vincoming := ∅ |> <| vrequests := ∅ |>)
  | move_install v t :
      RBallot (vpending v) ≠ 0 → (∀ p u, voutgoing v !! p = Some u → u ≤ now) →
      move input now v [] (v <| vcurrent := vpending v |> <| vpending := zeroRoster |> <| vthreshold := t |>
                            <| voutgoing := ∅ |> <| vincoming := ∅ |>)
  | move_revoke v to msg ok :
      stamped v leaseRevoke msg → RBallot (vpending v) ≠ 0 → Seq msg = RBallot (vcurrent v) →
      move input now v [Sent to msg ok] v
  | move_request v msg drops :
      let s := u64 (vsequence v + 1) in
      vactive v = true → stamped v leaseRequest msg → Seq msg = s →
      move input now v [Broadcast msg drops]
        (v <| vsequence := s |> <| vrequests := filter (λ su : Z * Z, now < su.2) (<[s := now + oLease (vopt v)]> (vrequests v)) |>)
  | move_grant v req msg ok :
      input = Some req → Kind req = leaseRequest → vactive v = true →
      stamped v leaseReply msg → Seq msg = Seq req → Threshold msg = vthreshold v →
      move input now v [Sent (From req) msg ok]
        (v <| voutgoing ::= <[From req := now + oLease (vopt v) + oMargin (vopt v)]> |>)
  | move_take v rep u :
      input = Some rep → Kind rep = leaseReply → vactive v = true → RBallot (MRoster rep) = RBallot (vcurrent v) →
      vrequests v !! Seq rep = Some u → num_at (vrevoked v) (From rep) < RBallot (vcurrent v) →
      0 ≤ From rep < vn v → From rep ≠ vid v →
      move input now v [] (v <| vincoming ::= <[From rep := mkGrant u (Threshold rep)]> |>)
  | move_revoked v req msg ok b :
      input = Some req → Kind req = leaseRevoke → stamped v leaseRevoked msg → Seq msg = Seq req →
      0 ≤ From req < vn v → b = (num_at (vrevoked v) (From req) <? Seq req) →
      move input now v [Sent (From req) msg ok]
        (v <| vrevoked ::= (λ l, if b : bool then put (From req) (Seq req) l else l) |>
           <| vincoming ::= (λ m, if RBallot (vcurrent v) <=? Seq req then delete (From req) m else m) |>)
  | move_ack v ack :
      input = Some ack → Kind ack = leaseRevoked → RBallot (vcurrent v) < RBallot (vpending v) → Seq ack = RBallot (vcurrent v) →
      move input now v [] (v <| voutgoing ::= delete (From ack) |>).

Inductive moves (input : option Message) (now : Z) : lview → list event → lview → Prop :=
  | moves_nil v : moves input now v [] v
  | moves_cons v l v' l' v'' : move input now v l v' → moves input now v' l' v'' → moves input now v (l ++ l') v''.

Lemma moves_one input now v l v' : move input now v l v' → moves input now v l v'.
Proof. intros H. rewrite <- (app_nil_r l). eapply moves_cons; [done|constructor]. Qed.
Lemma moves_app input now v l v' l' v'' : moves input now v l v' → moves input now v' l' v'' → moves input now v (l ++ l') v''.
Proof. induction 1 as [|? ? ? ? ? Hm ? IH]; intros Hr; [done|]. rewrite <- app_assoc. eapply moves_cons; eauto. Qed.

Section Moves.
Context `{SM : StateMachine}.

(** The bound of [compactLog] is below every prefix heard of. *)
Lemma compact_through_le (c : core) :
  let through := foldl (λ t p, if p =? cid c then t else Z.min t (num_at (progress c) p)) (prefix c) (peers c) in
  through ≤ prefix c ∧ ∀ p, p ∈ peers c → p ≠ cid c → through ≤ num_at (progress c) p.
Proof.
  cbv zeta. set (f := λ t p, if p =? cid c then t else Z.min t (num_at (progress c) p)).
  generalize (peers c) (prefix c). induction l as [|q ps IH]; intros t; cbn; [split; [lia|set_solver]|]. destruct (IH (f t q)) as [I1 I2].
  assert (f t q ≤ t) by (unfold f; destruct (_ =? _); lia). split; [lia|]. intros p [->|Hp]%elem_of_cons Hne; [|by apply I2].
  assert (f t q ≤ num_at (progress c) q); [|lia]. unfold f. rewrite (proj2 (Z.eqb_neq _ _)) by done. lia.
Qed.

Lemma lookup_foldr_delete (m : gmap Z Entry) slots s : foldr delete m slots !! s = if decide (s ∈ slots) then None else m !! s.
Proof.
  induction slots as [|x slots IH]; [done|]. cbn. destruct (decide (s = x)) as [->|Hne].
  - rewrite lookup_delete_eq, decide_True; [done|left].
  - rewrite lookup_delete_ne, IH by done. repeat case_decide; set_solver.
Qed.

Hypothesis sm_terminates : ∀ cmd s, sm_execute cmd s ≠ OutOfFuel.

(** [c'] is [c] after moves; the trace has what they sent. *)
Definition by_moves (input : option Message) (now : Z) (c c' : core) : Prop :=
  ∃ l, out c' = out c ++ l ∧ moves input now (lview_of c) l (lview_of c').
(** [c'] is [c] but for what the leases do not depend on. *)
Definition same (c c' : core) : Prop :=
  (prefix c ≤ prefix c' ∧ dom (log c) ⊆ dom (log c') ∧ lview_of c' = lview_of c <| vprefix := prefix c' |> <| vlog := dom (log c') |>) ∧ ∃ l, out c' = out c ++ l ∧ Forall quiet l.

Lemma same_refl c : same c c.
Proof. split; [split_and!; done|]. exists []. by rewrite app_nil_r. Qed.
Lemma same_trans c c' c'' : same c c' → same c' c'' → same c c''.
Proof.
  intros [(P1 & D1 & H1) (l & E & Hl)] [(P2 & D2 & H2) (l' & E' & Hl')].
  split; [split_and!; [lia|by etrans|by rewrite H2, H1]|]. exists (l ++ l'). split; [by rewrite E', E, app_assoc|].
  by apply Forall_app.
Qed.
#[local] Instance same_preorder : PreOrder same.
Proof. split; [exact same_refl|exact same_trans]. Qed.

Lemma by_refl input now c : by_moves input now c c.
Proof. exists []. split; [by rewrite app_nil_r|constructor]. Qed.
Lemma by_trans input now c c' c'' : by_moves input now c c' → by_moves input now c' c'' → by_moves input now c c''.
Proof.
  intros (l & E & Hl) (l' & E' & Hl'). exists (l ++ l'). split; [by rewrite E', E, app_assoc|]. by eapply moves_app.
Qed.
Lemma by_same input now c c' : same c c' → by_moves input now c c'.
Proof. intros [(Hp & Hd & Hv) (l & E & Hl)]. exists l. split; [done|]. rewrite Hv. by apply moves_one, move_other. Qed.
#[local] Instance by_preorder input now : PreOrder (by_moves input now).
Proof. split; [exact (by_refl input now)|exact (by_trans input now)]. Qed.

(** A change of fields outside the view and the trace. *)
Lemma same_fields c c' : lview_of c' = lview_of c → out c' = out c → same c c'.
Proof.
  intros H E. pose proof (f_equal vprefix H) as Hp. pose proof (f_equal vlog H) as Hd. cbn in Hp, Hd.
  split; [split_and!; [lia|by rewrite Hd|by rewrite H, Hp, Hd]|]. exists []. by rewrite app_nil_r.
Qed.
(** One event of the trace. *)
Lemma same_event c c' ev : lview_of c' = lview_of c → out c' = out c ++ [ev] → quiet ev → same c c'.
Proof.
  intros H E Hq. pose proof (f_equal vprefix H) as Hp. pose proof (f_equal vlog H) as Hd. cbn in Hp, Hd.
  split; [split_and!; [lia|by rewrite Hd|by rewrite H, Hp, Hd]|]. exists [ev].
  split; [done|by constructor].
Qed.

Lemma Kind_prepare m (c : core) : Kind (prepareMessage m c) = Kind m.
Proof. unfold prepareMessage. by destruct (_ <? _), (_ && _). Qed.

(** ** Operations that touch neither the leases nor the log *)

(** [light]: [same], and the loops of the core see no change. *)
Definition light (c c' : core) : Prop :=
  same c c' ∧ log c' = log c ∧ committed c' = committed c ∧ prefix c' = prefix c ∧ noticePrefix c' = noticePrefix c ∧
  holdSlots c' = holdSlots c ∧ fastSlots c' = fastSlots c ∧ batch c' = batch c ∧ retryHead c' = retryHead c.
Lemma light_refl c : light c c.
Proof. by split; [reflexivity|]. Qed.
Lemma light_trans c c' c'' : light c c' → light c' c'' → light c c''.
Proof.
  intros (H1 & E1 & E2 & E3 & E4 & E5 & E6 & E7 & E8) (H2 & F1 & F2 & F3 & F4 & F5 & F6 & F7 & F8).
  split; [by transitivity c'|]. by rewrite F1, F2, F3, F4, F5, F6, F7, F8.
Qed.
#[local] Instance light_preorder : PreOrder light.
Proof. split; [exact light_refl|exact light_trans]. Qed.
Lemma light_same c c' : light c c' → same c c'.
Proof. by intros [? _]. Qed.
#[local] Hint Resolve light_same : core.

Ltac on_if := match goal with |- context [if ?b then _ else _] => destruct b end.
Ltac plain := first [ split; [apply same_fields; reflexivity|by split_and!] | apply same_fields; reflexivity ].

Section Env.
Variable e : env.

Lemma count_light s k (c : core) : light c (bump s k c).
Proof. plain. Qed.
Lemma emit_light to m (c : core) : watched (Kind m) = false → light c (emit e to m c).2.
Proof.
  intros Hk. unfold emit. cbn. split; [|by destruct (_ && _)].
  eapply same_event; [by destruct (_ && _)|by destruct (_ && _)|]. cbn. by rewrite Kind_prepare.
Qed.
Lemma post_light to m (c : core) : watched (Kind m) = false → light c (post e to m c).
Proof. apply emit_light. Qed.
Lemma broadcast_light m (c : core) : watched (Kind m) = false → light c (broadcast e m c).
Proof.
  intros Hk. unfold broadcast. cbn. split; [|by destruct (_ =? _), (_ =? _)].
  eapply same_event; [by destruct (_ =? _), (_ =? _)|by destruct (_ =? _), (_ =? _)|]. cbn. by rewrite Kind_prepare.
Qed.
Lemma bodega_enqueue_same r (c : core) : same c (enqueue r c).
Proof. unfold enqueue. destruct (decide _); plain. Qed.
Lemma enqueue_light r (c : core) : light c (enqueue r c).
Proof. unfold enqueue. destruct (decide _); plain. Qed.
Lemma dropHeld_light i (c : core) : light c (dropHeld i c).
Proof. unfold dropHeld. destruct (held c !! i); [|reflexivity]. cbn. destruct (_ =? 0); plain. Qed.
Lemma finish_light r v (c : core) : light c (finish e r v c).
Proof.
  unfold finish. set (c1 := dropHeld _ _).
  assert (light c c1) as H1 by (unfold c1; etransitivity; [|apply dropHeld_light]; plain).
  transitivity c1; [done|]. clearbody c1. destruct (_ =? _).
  - set (c2 := c1 <| out ::= _ |>). assert (light c1 c2) by (split; [by eapply same_event|done]).
    destruct (replies _ _); [done|]. transitivity c2; [done|apply enqueue_light].
  - destruct (_ && _); [by apply post_light|reflexivity].
Qed.
Lemma stable_light (c : core) : light c (stable e c).2.
Proof. unfold stable. destruct (negb _); plain. Qed.
Lemma authority_light (c : core) : light c (localReadAuthority e c).2.
Proof. unfold localReadAuthority. destruct (_ || _); [apply stable_light|reflexivity]. Qed.
Lemma finishLocalRead_light r v (c : core) : light c (finishLocalRead e r v c).
Proof. unfold finishLocalRead. etransitivity; [|apply finish_light]. cbn. destruct (leading _); plain. Qed.
Lemma readValue_light s r (c : core) : ends (readValue s r c) (λ vc, light c vc.2).
Proof.
  unfold readValue. destruct (_ <=? _).
  - destruct (sm_execute _ _) as [[v st]| |] eqn:Es; [plain|done|by destruct (sm_terminates _ _ Es)].
  - destruct (log c !! s); [|by apply light_refl]. destruct (_ || _); cbn; [reflexivity|plain].
Qed.
Lemma apply_request_light r (c : core) : ends (apply_request e r c) (light c).
Proof.
  unfold apply_request. destruct (_ =? _); [by apply light_refl|]. eapply (ends_bind _ _ (λ vc, light c vc.2)).
  - destruct (completed c !! id r); [by apply light_refl|].
    destruct (sm_execute _ _) as [[v st]| |] eqn:Es; [plain|done|by destruct (sm_terminates _ _ Es)].
  - intros [v c'] Hc. cbn in *. destruct (_ =? _); [|done]. etransitivity; [exact Hc|apply finish_light].
Qed.
Lemma forEach_light {A} (f : A → core → outcome core) l (c : core) :
  (∀ x c, ends (f x c) (light c)) → ends (forEach f l c) (light c).
Proof.
  intros Hf. apply (ends_forEach f (λ _, True)); [reflexivity|done|]. intros x c' _ Hc.
  eapply ends_mono; [apply Hf|]. intros c'' Hc'. by transitivity c'.
Qed.

(** ** Execution and the log *)
Definition ahead (lo : Z) (X : gset Z) : gset Z := filter (λ s, lo < s) X.
Lemma ahead_le lo X : (size (ahead lo X) ≤ size X)%nat.
Proof. apply subseteq_size. unfold ahead. set_solver. Qed.
Lemma ahead_step lo X : lo + 1 ∈ X → (size (ahead (lo + 1) X) < size (ahead lo X))%nat.
Proof.
  intros Hin. apply subset_size. unfold ahead. split.
  - intros s. rewrite !elem_of_filter. intros [? ?]. split; [lia|done].
  - intros Hsub. assert (lo + 1 ∈ filter (λ s, lo < s) X) as Hn by (apply elem_of_filter; split; [lia|done]).
    apply Hsub, elem_of_filter in Hn. lia.
Qed.

Lemma apply_loop_same fuel : ∀ c : core,
  (size (ahead (prefix c) (committed c)) < fuel)%nat → ends (apply_loop e fuel c) (same c).
Proof.
  induction fuel as [|fuel IH]; intros c Hf; [lia|]. cbn [apply_loop]. case_decide as Hin; [|apply same_refl].
  set (c1 := c <| prefix ::= _ |>).
  assert (same c c1) as H1 by (split; [split_and!; [cbn; lia|reflexivity..]|exists []; by rewrite app_nil_r]).
  eapply (ends_bind _ _ (light c1)); [apply forEach_light; intros; apply apply_request_light|].
  intros c2 Hc2. pose proof (light_same _ _ Hc2) as H2. destruct Hc2 as (_ & _ & Ec & Ep & _).
  eapply ends_mono; [apply IH|intros c3 H3; cbn; by rewrite H1, H2].
  rewrite Ec, Ep. subst c1. cbn. pose proof (ahead_step (prefix c) (committed c) Hin). lia.
Qed.
Lemma apply_same (c : core) : ends (apply e c) (same c).
Proof. apply apply_loop_same. pose proof (ahead_le (prefix c) (committed c)). lia. Qed.

Lemma same_foldl {A} (f : core → A → core) l (c : core) : (∀ c x, same c (f c x)) → same c (foldl f c l).
Proof. intros Hf. apply foldl_ind; [reflexivity|]. intros c' x Hc. by transitivity c'. Qed.
Lemma same_forEach {A} (f : A → core → outcome core) l (c : core) :
  (∀ x c, ends (f x c) (same c)) → ends (forEach f l c) (same c).
Proof.
  intros Hf. apply (ends_forEach f (λ _, True)); [reflexivity|done|]. intros x c' _ Hc.
  eapply ends_mono; [apply Hf|]. intros c'' Hc'. by transitivity c'.
Qed.
Lemma same_bind (o : outcome core) (k : core → outcome core) (c : core) :
  ends o (same c) → (∀ c', ends (k c') (same c')) → ends (o ≫= k) (same c).
Proof. intros Ho Hk. eapply ends_bind; [exact Ho|]. intros c' Hc. eapply ends_mono; [apply Hk|]. intros c'' ?. by transitivity c'. Qed.
(** A step before the rest. *)
Lemma same_then (c c' : core) (o : outcome core) : same c c' → ends o (same c') → ends o (same c).
Proof. intros Hc Ho. eapply ends_mono; [exact Ho|]. intros c'' ?. by transitivity c'. Qed.

(** Deleting a slot is a change of the log. *)
Lemma forget_slot_view (c : core) slot :
  lview_of (forget_slot c slot) = lview_of c <| vlog := dom (log (forget_slot c slot)) |> ∧ out (forget_slot c slot) = out c ∧
  log (forget_slot c slot) = delete slot (log c).
Proof.
  unfold forget_slot. set (c1 := match log c !! slot with Some _ => _ | None => c end).
  assert (lview_of c1 = lview_of c ∧ out c1 = out c ∧ log c1 = log c) as (E1 & E2 & E3).
  { unfold c1. destruct (log c !! slot); [|done]. apply foldl_ind; [done|]. intros c' r Hc. by case_bool_decide. }
  clearbody c1. cbn. rewrite E2, E3. split; [|done]. unfold lview_of in *. cbn. injection E1 as -> -> -> -> -> -> -> -> -> -> -> -> -> -> -> _. by rewrite E3.
Qed.
Lemma forget_slots_view slots : ∀ c : core, let c' := foldl forget_slot c slots in
  lview_of c' = lview_of c <| vlog := dom (log c') |> ∧ out c' = out c ∧ log c' = foldr delete (log c) slots.
Proof.
  induction slots as [|s slots IH]; intros c; cbn [foldl foldr]; [done|]. destruct (forget_slot_view c s) as (V & O & L).
  destruct (IH (forget_slot c s)) as (V' & O' & L'). cbv zeta. rewrite V', V, O', L', L. split; [done|]. split; [done|].
  clear. induction slots as [|s' slots IH]; [done|]. cbn. by rewrite IH, delete_delete.
Qed.
Lemma reindex_same (c : core) : same c (reindex c).
Proof. plain. Qed.

Lemma extend_same fuel : ∀ c : core, (size (beyond (acceptedPrefix c) (log c)) < fuel)%nat → ends (extend fuel c) (same c).
Proof.
  induction fuel as [|fuel IH]; intros c Hf; [lia|]. cbn [extend].
  destruct (log c !! (acceptedPrefix c + 1)) as [v|] eqn:E; [|apply same_refl]. destruct (_ =? _); [|apply same_refl].
  eapply same_then; [|apply IH]; [plain|]. cbn. pose proof (beyond_step _ _ _ E). lia.
Qed.
Lemma acceptEntry_same v (c : core) : ends (acceptEntry v c) (same c).
Proof.
  unfold acceptEntry. destruct (_ || _); [apply same_refl|]. cbv zeta. set (changed := match log c !! Slot v with Some o => negb (sameEntry o v) | None => false end).
  match goal with |- ends (if ?b then _ else _) _ => destruct b; [done|] end. destruct (changed && _); [done|].
  set (c1 := c <| log ::= _ |>). apply (same_then c c1).
  { split; [split_and!; [cbn; lia|cbn; rewrite dom_insert; set_solver|reflexivity]|exists []; by rewrite app_nil_r]. }
  apply same_bind.
  - apply extend_same. pose proof (beyond_le (acceptedPrefix c1) (log c1)). lia.
  - intros c'. cbn. destruct (high _ <? _), (next _ <? _), changed; plain.
Qed.

Lemma queueFastSlot_same s (c : core) : same c (queueFastSlot s c).
Proof. unfold queueFastSlot. destruct (_ && _); [plain|reflexivity]. Qed.
Lemma markCommitted_same s (c : core) : same c (markCommitted s c) ∧ log (markCommitted s c) = log c ∧ noticePrefix (markCommitted s c) = noticePrefix c.
Proof. unfold markCommitted. split; [etransitivity; [|apply queueFastSlot_same]; plain|]. unfold queueFastSlot. by destruct (_ && _). Qed.
Lemma applyNoticedSlot_same s (c : core) :
  same c (applyNoticedSlot s c) ∧ log (applyNoticedSlot s c) = log c ∧ noticePrefix (applyNoticedSlot s c) = noticePrefix c.
Proof.
  unfold applyNoticedSlot. destruct (_ || _); [by split; [reflexivity|]|]. destruct (log c !! s); [|by split; [reflexivity|]].
  destruct (negb _); [by split; [reflexivity|]|]. case_bool_decide; [split; [plain|done]|].
  destruct (markCommitted_same s c) as (H1 & H2 & H3). split; [|done]. etransitivity; [exact H1|plain].
Qed.
Lemma requestCommitRepair_same now (c : core) : same c (requestCommitRepair e now c).
Proof.
  unfold requestCommitRepair. destruct (_ || _); [reflexivity|]. destruct (_ && _); [reflexivity|].
  etransitivity; [|by apply light_same, post_light]. plain.
Qed.
Lemma notice_loop_same fuel : ∀ s (c : core),
  (size (beyond (s - 1) (log c)) < fuel)%nat → ends (notice_loop fuel s c) (same c).
Proof.
  induction fuel as [|fuel IH]; intros s c Hf; [lia|]. cbn [notice_loop]. destruct (_ <? _); [apply same_refl|].
  destruct (log c !! s) as [v|] eqn:E; [|apply same_refl]. destruct (_ =? _); [|apply same_refl].
  destruct (applyNoticedSlot_same s c) as (H1 & H2 & _). eapply same_then; [exact H1|]. apply IH. rewrite H2.
  replace s with (s - 1 + 1) in E by lia. pose proof (beyond_step _ _ _ E) as Hs.
  replace (s - 1 + 1) with (s + 1 - 1) in Hs by lia. lia.
Qed.
Lemma learnCommitNotice_same pfx slot now (c : core) : ends (learnCommitNotice e pfx slot now c) (same c).
Proof.
  unfold learnCommitNotice. set (c1 := c <| noticePrefix ::= _ |> <| noticeHigh ::= _ |>).
  set (c2 := if _ <? _ then _ else _).
  assert (same c c2) as H2.
  { transitivity c1; [plain|]. unfold c2. destruct (_ <? _); [|reflexivity]. etransitivity; [|apply applyNoticedSlot_same]. plain. }
  eapply same_then; [exact H2|]. clearbody c2. apply same_bind.
  { apply notice_loop_same. pose proof (beyond_le (prefix c2 + 1 - 1) (log c2)). lia. }
  intros c3. apply same_bind; [apply apply_same|]. intros c4. apply requestCommitRepair_same.
Qed.
Lemma learnCommittedEntry_same v (c : core) : ends (learnCommittedEntry e v c) (same c).
Proof.
  unfold learnCommittedEntry. destruct (_ <=? _); [apply same_refl|]. apply same_bind; [apply acceptEntry_same|].
  intros c'. eapply same_then; [apply markCommitted_same|apply apply_same].
Qed.

(** ** Held reads *)
Lemma release_waiters_light s ids : ∀ c : core, ends (release_waiters e s ids c) (λ oc, light c oc.2).
Proof.
  induction ids as [|i ids IH]; intros c; cbn [release_waiters]; [plain|].
  destruct (held c !! i) as [h|]; [|apply IH]. destruct (negb _); [apply IH|].
  pose proof (authority_light c) as H1. destruct (localReadAuthority e c) as [ok c1]. cbn in H1.
  destruct (_ || _); [done|]. eapply ends_bind; [apply readValue_light|]. intros [[v|] c2] H2; cbn in *.
  - eapply ends_mono; [apply IH|]. intros [b c3] H3. cbn in *.
    transitivity c1; [done|]. transitivity c2; [done|]. etransitivity; [apply finishLocalRead_light|exact H3].
  - by transitivity c1.
Qed.
Lemma release_held_same fuel : ∀ c : core, (length (holdSlots c) < fuel)%nat → ends (release_held e fuel c) (λ oc, same c oc.2).
Proof.
  induction fuel as [|fuel IH]; intros c Hf; [lia|]. cbn [release_held]. destruct (holdSlots c) as [|s q] eqn:E; [apply same_refl|].
  destruct (_ <? _); [apply same_refl|]. eapply ends_bind; [apply release_waiters_light|]. intros [ok c1] H1. cbn in H1.
  pose proof (light_same _ _ H1) as Hs. destruct H1 as (_ & _ & _ & _ & _ & Eh & _). destruct ok; cbn; [|done].
  eapply ends_mono; [apply IH|].
  - cbn. rewrite Eh, E. cbn in *. lia.
  - intros [b c2] H2. cbn in *. rewrite Hs. etransitivity; [|exact H2]. plain.
Qed.
Lemma release_fast_same fuel : ∀ c : core, (length (fastSlots c) < fuel)%nat → ends (release_fast e fuel c) (same c).
Proof.
  induction fuel as [|fuel IH]; intros c Hf; [lia|]. cbn [release_fast]. destruct (fastSlots c) as [|s q] eqn:E; [apply same_refl|].
  destruct (_ <? _); [apply same_refl|]. eapply ends_bind; [apply release_waiters_light|]. intros [ok c1] H1. cbn in H1.
  pose proof (light_same _ _ H1) as Hs. destruct H1 as (_ & _ & _ & _ & _ & _ & Ef & _). destruct ok; cbn; [|done].
  eapply same_then; [|apply IH].
  - rewrite Hs. plain.
  - cbn. rewrite Ef, E. cbn in *. lia.
Qed.
Lemma release_same (c : core) : ends (release e c) (same c).
Proof.
  unfold release. pose proof (stable_light c) as H1. destruct (stable e c) as [ok c1]. cbn in H1.
  destruct ok; cbn [negb]; [|by apply light_same]. eapply same_then; [by apply light_same|].
  eapply ends_bind; [apply release_held_same; lia|]. intros [b c2] H2. cbn in H2. destruct b; cbn [negb]; [|done].
  eapply same_then; [exact H2|]. apply release_fast_same. lia.
Qed.

(** ** Proposals *)
Lemma tryCommit_same s (c : core) : ends (tryCommit e s c) (same c).
Proof.
  unfold tryCommit. destruct (_ || _); [apply same_refl|]. destruct (_ <? _); [apply same_refl|].
  destruct (negb _); [cbn; plain|]. set (c1 := count Commits _).
  assert (same c c1) as H1 by (transitivity (markCommitted s c); [apply markCommitted_same|plain]).
  eapply same_then; [exact H1|]. apply same_bind; [apply apply_same|]. intros c2.
  eapply same_then; [|apply release_same]. by apply light_same, broadcast_light.
Qed.
Lemma proposeBatch_same rs (c : core) : ends (proposeBatch e rs c) (same c).
Proof.
  unfold proposeBatch. cbv zeta. set (c1 := c <| next ::= _ |>). set (v := match rs with [r] => _ | _ => _ end). clearbody v.
  set (c2 := foldl (propose_count v) c1 rs).
  assert (same c c2) as H2 by (transitivity c1; [plain|]; apply same_foldl; intros; plain). clearbody c2.
  set (c3 := if _ <? _ then _ else _).
  assert (same c2 c3) as H3 by (unfold c3; destruct (_ <? _); plain). clearbody c3. clear c1.
  eapply same_then; [by transitivity c2|]. apply same_bind; [apply acceptEntry_same|]. intros c4.
  set (c5 := c4 <| votes ::= _ |>). apply (same_then c4 c5); [plain|].
  eapply same_then; [|apply tryCommit_same]. by apply light_same, broadcast_light.
Qed.
Lemma flushBatch_same (c : core) : ends (flushBatch e c) (same c).
Proof.
  unfold flushBatch. destruct (batch c) as [|r rs]; [apply same_refl|]. set (c1 := c <| batch := _ |> <| batchBytes := _ |> <| batchIDs := _ |>).
  cbv zeta. apply (same_then c c1); [plain|]. destruct (_ || _); [|apply proposeBatch_same].
  apply same_foldl. intros; apply bodega_enqueue_same.
Qed.
Lemma admit_same r (c : core) : ends (admit_request e r c) (same c).
Proof.
  unfold admit_request. destruct (negb _); [apply proposeBatch_same|]. destruct (decide _); [apply same_refl|]. apply same_bind.
  - destruct (_ && _); [apply flushBatch_same|apply same_refl].
  - intros c1. set (c2 := c1 <| batch ::= _ |> <| batchIDs ::= _ |> <| batchBytes ::= _ |>). cbv zeta.
    apply (same_then c1 c2); [plain|]. destruct (_ || _); [apply flushBatch_same|apply same_refl].
Qed.
Lemma cancelRead_same i (c : core) : same c (cancelRead i c).
Proof.
  unfold cancelRead. cbv zeta. set (c1 := match queued _ !! i with Some _ => _ | None => _ end).
  assert (same c c1) as H1.
  { transitivity (dropHeld i c); [by apply light_same, dropHeld_light|]. unfold c1. destruct (queued _ !! i); [|reflexivity].
    destruct (_ =? _); plain. }
  clearbody c1. destruct (decide _); [|done]. destruct (remove_read i (batch c1)) as [[r b]|]; [|done].
  transitivity c1; [done|plain].
Qed.
Lemma hold_read_same r s now (c : core) : same c (hold_read r s now c).
Proof.
  unfold hold_read. cbv zeta. set (c1 := if _ && _ then _ else c). assert (same c c1) as H1 by (unfold c1; destruct (_ && _); plain).
  clearbody c1. set (c2 := c1 <| held ::= _ |>). assert (same c1 c2) as H2 by plain. clearbody c2.
  set (c3 := if bool_decide _ then _ else c2). assert (same c2 c3) as H3 by (unfold c3; case_bool_decide; plain). clearbody c3.
  set (c4 := c3 <| holdWaiters ::= _ |> <| holdCounts ::= _ |>). assert (same c3 c4) as H4 by plain. clearbody c4.
  transitivity c1; [done|]. transitivity c2; [done|]. transitivity c3; [done|]. transitivity c4; [done|].
  transitivity (queueFastSlot s c4); [apply queueFastSlot_same|plain].
Qed.
Lemma submit_ordered_same r (c : core) : ends (submit_ordered e r c) (same c).
Proof.
  unfold submit_ordered. destruct (negb _); cbn [ends].
  { transitivity (count Forwarded (enqueue r c)); [|by apply light_same, post_light].
    transitivity (enqueue r c); [apply bodega_enqueue_same|plain]. }
  destruct (decide _); [apply same_refl|]. eapply same_then; [|apply admit_same]. plain.
Qed.
Lemma submit_same r now (c : core) : ends (submit e r now c) (same c).
Proof.
  unfold submit. destruct (completed c !! id r); [by apply light_same, finish_light|].
  destruct (negb _); [apply bodega_enqueue_same|]. destruct (_ && _); [apply bodega_enqueue_same|].
  destruct (_ && _); [|apply submit_ordered_same].
  pose proof (authority_light c) as H1. destruct (localReadAuthority e c) as [ok c1]. cbn in H1.
  eapply same_then; [by apply light_same|]. destruct ok.
  - eapply ends_bind; [apply readValue_light|]. intros [[v|] c2] H2; cbn in *.
    + transitivity c2; [by apply light_same|by apply light_same, finishLocalRead_light].
    + transitivity c2; [by apply light_same|]. set (c3 := if decide _ then _ else c2).
      transitivity c3; [|plain]. unfold c3. destruct (decide _); [apply hold_read_same|reflexivity].
  - eapply same_then; [|apply submit_ordered_same]. plain.
Qed.

(** ** Repair and recovery *)
Lemma post_same to m (c : core) : watched (Kind m) = false → same c (post e to m c).
Proof. intros. by apply light_same, post_light. Qed.
Lemma broadcast_same m (c : core) : watched (Kind m) = false → same c (broadcast e m c).
Proof. intros. by apply light_same, broadcast_light. Qed.

Lemma repair_loop_same peer slots stop : ∀ size (c : core), same c (repair_loop e peer slots stop size c).2.
Proof.
  induction slots as [|slot slots IH]; intros size c; cbn [repair_loop]; [reflexivity|].
  assert (∀ m c, watched (Kind m) = false → same c (post e peer m (count CommitRepairEntries c))) as Hp.
  { intros m c' Hm. transitivity (count CommitRepairEntries c'); [plain|by apply post_same]. }
  assert (∀ c, same c (if bool_decide (slot ∈ committed c) && (prefix c <? slot)
               then post e peer (message commit <| CommitSlot := slot |> <| CommitPrefix := prefix c |>) c else c)) as Hn.
  { intros c'. destruct (_ && _); [by apply post_same|reflexivity]. }
  destruct (log c !! slot) as [v|]; [|apply IH]. destruct (_ && _).
  { destruct (_ && _); [reflexivity|]. etransitivity; [|apply IH]. by apply Hp. }
  destruct (negb _); [apply IH|]. cbv zeta. destruct (ReplicaSet.Contains _ _); [etransitivity; [|apply IH]; apply Hn|].
  destruct (_ && _); [reflexivity|]. etransitivity; [|apply IH]. etransitivity; [|apply Hn]. by apply Hp.
Qed.
Lemma sendRepairWindow_same peer start window (c : core) : same c (sendRepairWindow e peer start window c).2.
Proof.
  unfold sendRepairWindow. destruct (_ || _); [reflexivity|]. cbv zeta.
  match goal with |- context [repair_loop e peer ?l ?x 0 c] => pose proof (repair_loop_same peer l x 0 c) as H1; destruct (repair_loop e peer l x 0 c) as [slot c1] end.
  cbn in *. etransitivity; [exact H1|]. by apply post_same.
Qed.
Lemma repairPeer_same peer (c : core) : same c (repairPeer e peer c).
Proof.
  unfold repairPeer. cbv zeta. match goal with |- context [sendCommitRepair e peer ?l c] => pose proof (sendRepairWindow_same peer l repairWindow c) as H1;
    change (sendRepairWindow e peer l repairWindow c) with (sendCommitRepair e peer l c) in H1; destruct (sendCommitRepair e peer l c) as [stop c1] end.
  cbn in H1. set (c2 := if stop <=? prefix c1 then _ else c1).
  assert (same c1 c2) as H2 by (unfold c2; destruct (_ <=? _); [apply sendRepairWindow_same|reflexivity]). clearbody c2.
  transitivity c1; [done|]. transitivity c2; [done|]. destruct (_ <? _); [apply sendRepairWindow_same|reflexivity].
Qed.

Lemma takeSnapshot_same start (c : core) : same c (takeSnapshot start c).2.
Proof. unfold takeSnapshot. destruct (_ || _); [reflexivity|]. destruct (snapshotTaken c); plain. Qed.
Lemma flush_loop_same to chunks : ∀ p (c : core), same c (flush_loop e to p chunks c).
Proof.
  induction chunks as [|es chunks IH]; intros p c; cbn [flush_loop]; [reflexivity|]. cbv zeta.
  match goal with |- context [emit e to ?m c] => pose proof (emit_light to m c eq_refl) as H1%light_same; destruct (emit e to m c) as [sent c1] end.
  cbn in H1. destruct (negb _); [done|]. etransitivity; [exact H1|]. etransitivity; [|apply IH]. plain.
Qed.
Lemma flushPromises_same to (c : core) : same c (flushPromises e to c).
Proof. unfold flushPromises. destruct (_ || _); [reflexivity|]. apply flush_loop_same. Qed.
Lemma sendSnapshot_same to start (c : core) : same c (sendSnapshot e to start c).
Proof.
  unfold sendSnapshot. pose proof (takeSnapshot_same start c) as H1. destruct (takeSnapshot start c) as [ok c1]. cbn in H1.
  destruct (negb _); [done|]. cbv zeta. etransitivity; [exact H1|]. etransitivity; [|apply flushPromises_same]. destruct (_ =? _); plain.
Qed.

Lemma recover_slot_same selected slot (c : core) : ends (recover_slot selected slot c) (same c).
Proof.
  unfold recover_slot. cbv zeta. set (v := _ <| EBallot := _ |> <| ReadFresh := _ |>). clearbody v. apply same_bind; [apply acceptEntry_same|].
  intros c1. cbn [ends]. set (c2 := foldl _ c1 _). assert (same c1 c2) as H2 by (apply same_foldl; intros; plain). clearbody c2.
  transitivity c2; [done|plain].
Qed.
Lemma announce_slot_same slot (c : core) : same c (announce_slot e slot c).
Proof.
  unfold announce_slot. cbv zeta. set (c1 := broadcast e _ c). assert (same c c1) as H1 by (by apply broadcast_same). clearbody c1.
  transitivity c1; [done|]. case_bool_decide; [by apply broadcast_same|reflexivity].
Qed.
Lemma finish_prepare_same start now (c : core) : ends (finish_prepare e start now c) (same c).
Proof.
  unfold finish_prepare. destruct (foldl select_entry _ _) as [selected hi].
  set (c1 := c <| next := _ |> <| inflight := _ |> <| prepared := _ |>). cbv zeta. apply (same_then c c1); [plain|].
  apply same_bind; [apply same_forEach; intros; apply recover_slot_same|]. intros c2. cbn [ends].
  set (c3 := bump PrepareNanos _ _). assert (same c2 (reindex c3)) as H3 by plain. clearbody c3.
  set (c4 := foldl _ (reindex c3) _). assert (same (reindex c3) c4) as H4 by (apply same_foldl; intros; apply announce_slot_same). clearbody c4.
  set (c5 := foldl _ c4 _).
  assert (same c4 c5) as H5 by (apply same_foldl; intros c' x; destruct (_ =? _); [reflexivity|apply repairPeer_same]). clearbody c5.
  transitivity (reindex c3); [done|]. transitivity c4; [done|]. transitivity c5; [done|plain].
Qed.
Lemma addSnapshot_same from start part parts entries now (c : core) : ends (addSnapshot e from start part parts entries now c) (same c).
Proof.
  unfold addSnapshot. destruct (_ || _ || _); [apply same_refl|]. destruct (existsb _ _); [apply same_refl|]. cbv zeta.
  destruct (negb _); [plain|]. match goal with |- ends (if ?b then Done ?c1 else _) _ => apply (same_then c c1); [plain|]; destruct b end;
    [apply same_refl|apply finish_prepare_same].
Qed.
Lemma startPrepare_same now (c : core) : ends (startPrepare e now c) (same c).
Proof.
  unfold startPrepare. cbv zeta. eapply same_then; [apply takeSnapshot_same|]. apply same_bind; [apply addSnapshot_same|].
  intros c1. by apply broadcast_same.
Qed.

(** ** The lease operations *)
Lemma refreshPeer_same peer now (c : core) : same c (refreshPeer e peer now c).
Proof. unfold refreshPeer. destruct (_ <? _); plain. Qed.
Lemma refreshAll_same now (c : core) : same c (refreshAll e now c).
Proof. apply same_foldl. intros; apply refreshPeer_same. Qed.

Section Input.
Context (input : option Message) (now : Z).
Abbreviation becomes := (by_moves input now).

Lemma becomes_bind (o : outcome core) (k : core → outcome core) (c : core) :
  ends o (becomes c) → (∀ c', becomes c c' → ends (k c') (becomes c')) → ends (o ≫= k) (becomes c).
Proof. intros Ho Hk. eapply ends_bind; [exact Ho|]. intros c' Hc. eapply ends_mono; [by apply Hk|]. intros c'' ?. by transitivity c'. Qed.
Lemma becomes_then (c c' : core) (o : outcome core) : becomes c c' → ends o (becomes c') → ends o (becomes c).
Proof. intros Hc Ho. eapply ends_mono; [exact Ho|]. intros c'' ?. by transitivity c'. Qed.
Lemma ends_same (o : outcome core) (c : core) : ends o (same c) → ends o (becomes c).
Proof. intros Ho. eapply ends_mono; [exact Ho|]. intros c'. apply by_same. Qed.
(** One move, that sends [l]. *)
Lemma becomes_move (c c' : core) l : out c' = out c ++ l → move input now (lview_of c) l (lview_of c') → becomes c c'.
Proof. intros E H. exists l. split; [done|by apply moves_one]. Qed.

Lemma stamped_prepare (c : core) m : stamped (lview_of c) (Kind m) (prepareMessage m c).
Proof.
  split; [apply Kind_prepare|]. unfold prepareMessage.
  destruct (_ <? _) eqn:E; destruct (_ && _); cbn; (split; [done|]); intros Hp H0; cbn in *; lia.
Qed.
(** What [prepareMessage] leaves alone. *)
Lemma prepare_fields m (c : core) :
  Seq (prepareMessage m c) = Seq m ∧ Threshold (prepareMessage m c) = Threshold m ∧ Prefix (prepareMessage m c) = Prefix m.
Proof. unfold prepareMessage. by destruct (_ <? _), (_ && _). Qed.
Lemma post_trace to m (c : core) : lview_of (post e to m c) = lview_of c ∧ ∃ ok, out (post e to m c) = out c ++ [Sent to (prepareMessage m c) ok].
Proof. unfold post, emit. cbn. split; [by destruct (_ && _)|]. exists (sends e (length (out c))). by destruct (_ && _). Qed.
Lemma broadcast_trace m (c : core) :
  lview_of (broadcast e m c) = lview_of c ∧ ∃ drops, out (broadcast e m c) = out c ++ [Broadcast (prepareMessage m c) drops].
Proof.
  unfold broadcast. cbn. split; [by destruct (_ =? _), (_ =? _)|]. exists (dropped e (length (out c))). by destruct (_ =? _), (_ =? _).
Qed.

Lemma post_heartbeat to m (c : core) :
  heartbeat_kind (Kind m) = true → Prefix m = prefix c ∨ Prefix m = 0 → becomes c (post e to m c).
Proof.
  intros Hk Hp. destruct (post_trace to m c) as [Hv [ok Ho]]. eapply becomes_move; [exact Ho|]. rewrite Hv.
  destruct (prepare_fields m c) as (_ & _ & Ep). apply (move_heartbeat _ _ _ _ (prepareMessage m c)); [left; eauto|by rewrite Kind_prepare|apply (stamped_prepare c m)|by rewrite Ep].
Qed.
Lemma broadcast_heartbeat m (c : core) :
  heartbeat_kind (Kind m) = true → Prefix m = prefix c ∨ Prefix m = 0 → becomes c (broadcast e m c).
Proof.
  intros Hk Hp. destruct (broadcast_trace m c) as [Hv [drops Ho]]. eapply becomes_move; [exact Ho|]. rewrite Hv.
  destruct (prepare_fields m c) as (_ & _ & Ep). apply (move_heartbeat _ _ _ _ (prepareMessage m c)); [right; eauto|by rewrite Kind_prepare|apply (stamped_prepare c m)|by rewrite Ep].
Qed.

Lemma revoke_one to (c : core) :
  RBallot (pending c) ≠ 0 → becomes c (post e to (message leaseRevoke <| Seq := RBallot (current c) |>) (count Revokes c)).
Proof.
  intros Hp. set (m := message leaseRevoke <| Seq := _ |>). destruct (post_trace to m (count Revokes c)) as [Hv [ok Ho]].
  eapply becomes_move; [exact Ho|]. rewrite Hv. apply move_revoke; [apply stamped_prepare|done|apply prepare_fields].
Qed.
Lemma revokeLeases_moves (c : core) : becomes c (revokeLeases e now c).
Proof.
  unfold revokeLeases. destruct (Z.eqb_spec (RBallot (pending c)) 0) as [|Hp]; [reflexivity|].
  apply (foldl_ind _ (λ c', becomes c c' ∧ pending c' = pending c)); [by split; [reflexivity|]|].
  intros c1 [p u] [H1 E1]. cbn. destruct (now <? u); [|done]. split.
  - transitivity c1; [done|]. apply revoke_one. by rewrite E1.
  - unfold post, emit. cbn. by destruct (_ && _).
Qed.

Lemma install_roster_moves (c : core) :
  RBallot (pending c) ≠ 0 → (∀ p u, outgoing c !! p = Some u → u ≤ now) → becomes c (install_roster e now c).
Proof.
  intros Hp Hu. unfold install_roster. cbv zeta.
  set (c0 := c <| current := _ |> <| pending := _ |>). destruct (refreshAll_same now c0) as [(P1 & D1 & V1) (l1 & E1 & Q1)].
  set (c1 := refreshAll e now c0) in *. clearbody c1.
  set (c2 := count RosterChanges _).
  assert (lview_of c2 = lview_of c <| vcurrent := pending c |> <| vpending := zeroRoster |> <| vthreshold := high c1 |>
                          <| voutgoing := ∅ |> <| vincoming := ∅ |> <| vprefix := prefix c1 |> <| vlog := dom (log c1) |>) as V2.
  { unfold c2, lview_of in *. cbn in *. injection V1 as -> -> -> -> -> -> _ _ _ -> -> -> -> ->. done. }
  assert (out c2 = out c ++ l1) as E2 by exact E1. clearbody c2.
  transitivity c2.
  { exists l1. split; [done|]. change l1 with ([] ++ l1). eapply moves_cons; [by apply move_install|].
    rewrite V2. apply moves_one. by apply (move_other _ _ (lview_of c <| vcurrent := pending c |> <| vpending := zeroRoster |>
      <| vthreshold := high c1 |> <| voutgoing := ∅ |> <| vincoming := ∅ |>)). }
  apply by_same. set (c3 := foldl _ c2 _).
  assert (same c2 c3) as H3.
  { apply same_foldl. intros c' [i h]. cbn. transitivity (enqueue (rRequest h) c'); [apply bodega_enqueue_same|plain]. }
  clearbody c3. transitivity c3; [done|]. set (c4 := c3 <| holdSlots := _ |> <| fastSlots := _ |> <| fastQueued := _ |> <| holdWaiters := _ |> <| holdCounts := _ |>).
  assert (same c3 c4) as H4 by plain. clearbody c4. transitivity c4; [done|]. set (c5 := foldl _ c4 _).
  assert (same c4 c5) as H5 by (apply same_foldl; intros; apply bodega_enqueue_same). clearbody c5. transitivity c5; [done|plain].
Qed.

Lemma install_moves (c : core) : ends (install e now c) (becomes c).
Proof.
  unfold install. destruct (Z.eqb_spec (RBallot (pending c)) 0) as [|Hp]; [by apply by_refl|].
  destruct (existsb _ _) eqn:E; [by apply by_refl|]. eapply becomes_then; [apply install_roster_moves; [done|]|].
  - intros p u Hpu. destruct (Z.le_gt_cases u now); [done|]. rewrite <- not_true_iff_false in E. destruct E.
    apply existsb_exists. exists (p, u). split; [by apply list_elem_of_In, elem_of_map_to_list|cbn; lia].
  - destruct (leading _); [apply ends_same, startPrepare_same|apply by_refl].
Qed.

Lemma observe_moves r (c : core) : ends (observeValidatedRoster e r now c) (becomes c).
Proof.
  unfold observeValidatedRoster. destruct (_ || _) eqn:E; [by apply by_refl|]. apply orb_false_iff in E as [E _].
  set (c1 := c <| pending := _ |> <| incoming := _ |> <| leaseRequests := _ |> <| prepared := _ |>). cbv zeta.
  apply (becomes_then c c1).
  { eapply (becomes_move _ _ []); [by rewrite app_nil_r|]. apply (move_observe _ _ (lview_of c) r). cbn. lia. }
  eapply becomes_then; [apply revokeLeases_moves|apply install_moves].
Qed.
Lemma propose_moves leader responders ranges (c : core) : ends (proposeRosterRanges e leader responders ranges now c) (becomes c).
Proof.
  unfold proposeRosterRanges. cbv zeta. apply becomes_bind.
  - unfold observe, validRoster. destruct (_ && _); [eapply becomes_then; [|apply observe_moves]|]; apply by_same; plain.
  - intros c' _. apply broadcast_heartbeat; [done|by right].
Qed.
Lemma proposeFiltered_moves leader healthy (c : core) : ends (proposeFilteredRoster e leader healthy now c) (becomes c).
Proof. unfold proposeFilteredRoster. destruct (_ =? _); apply propose_moves. Qed.

(** ** Receiving *)
(** [m] is what is left of the message received when its roster is known. *)
Definition stands_for (m0 m : Message) (b : Z) : Prop :=
  From m = From m0 ∧ (lease_kind (Kind m) = true →
    Kind m0 = Kind m ∧ Seq m0 = Seq m ∧ Threshold m0 = Threshold m ∧ RBallot (MRoster m0) = b) ∧
  (Kind m = heartbeat → heartbeat_kind (Kind m0) = true ∧ Prefix m0 = Prefix m).

Lemma grant_moves m0 m (c : core) :
  input = Some m0 → Kind m = leaseRequest → stands_for m0 m (RBallot (current c)) → active c = true →
  let c1 := c <| outgoing ::= <[From m := now + oLease (opt c) + oMargin (opt c)]> |> in
  becomes c (post e (From m) (message leaseReply <| Seq := Seq m |> <| Threshold := threshold c1 |>) c1).
Proof.
  intros Hin Hk (Hf & Hs & _) Ha. rewrite Hf. intros c1. destruct Hs as (K1 & K2 & K3 & K4); [by rewrite Hk|].
  set (r := message leaseReply <| Seq := _ |> <| Threshold := _ |>). destruct (post_trace (From m0) r c1) as [Hv [ok Ho]].
  eapply becomes_move; [exact Ho|]. rewrite Hv. destruct (prepare_fields r c1) as (R1 & R2 & _).
  apply (move_grant _ _ (lview_of c)); [done|congruence|exact Ha| |by rewrite R1, K2|by rewrite R2].
  exact (stamped_prepare c1 r).
Qed.

Lemma take_moves m0 m (c : core) u :
  input = Some m0 → Kind m = leaseReply → stands_for m0 m (RBallot (current c)) → active c = true →
  RBallot (MRoster m) = RBallot (current c) → leaseRequests c !! Seq m = Some u → num_at (revoked c) (From m) < RBallot (current c) →
  0 ≤ From m < cn c → From m ≠ cid c → becomes c (c <| incoming ::= <[From m := mkGrant u (Threshold m)]> |>).
Proof.
  intros Hin Hk (Hf & Hs & _) Ha Hb Hu Hr H0 H1. destruct Hs as (K1 & K2 & K3 & K4); [by rewrite Hk|].
  eapply (becomes_move _ _ []); [by rewrite app_nil_r|]. rewrite <- K3, Hf.
  apply (move_take _ _ (lview_of c) m0 u); cbn; try done; try congruence; by rewrite <- Hf.
Qed.

Lemma receive_current_moves m0 m (c : core) :
  input = Some m0 → active c = true → stands_for m0 m (RBallot (current c)) → (Kind m = leaseReply → RBallot (MRoster m) = RBallot (current c)) →
  0 ≤ From m < cn c → From m ≠ cid c → ends (receive_current e m now c) (becomes c).
Proof.
  intros Hin Ha Hs Hb H0 H1. unfold receive_current. cbv zeta.
  destruct (Z.eqb_spec (Kind m) heartbeat) as [Hk|].
  { set (c1 := c <| progress ::= _ |>). destruct Hs as (Hf & _ & Hh). destruct (Hh Hk) as [Hk0 Hp].
    apply (becomes_then c c1); [|apply ends_same; destruct (_ =? _); [apply learnCommitNotice_same|apply same_refl]].
    eapply (becomes_move _ _ []); [by rewrite app_nil_r|]. subst c1. rewrite Hf, <- Hp in *. by apply (move_progress _ _ (lview_of c) m0). }
  destruct (Z.eqb_spec (Kind m) leaseRequest) as [Hk|]; [by eapply grant_moves|].
  destruct (Z.eqb_spec (Kind m) leaseReply) as [Hk|].
  { destruct (leaseRequests c !! Seq m) as [u|] eqn:Eu; [|by apply by_refl]. destruct (_ && _ && _) eqn:E; [|by apply by_refl].
    apply andb_prop in E as [[E _]%andb_prop _]. apply Z.ltb_lt in E. rewrite Hb in E by done. apply (take_moves m0); [done|done|done|done|by apply Hb|done|exact E|done|done]. }
  destruct (_ =? prepare); [destruct (_ =? Leader _); [by apply by_same, sendSnapshot_same|by apply by_refl]|].
  destruct (_ =? promise); [destruct (_ && _); [by apply ends_same, addSnapshot_same|by apply by_refl]|].
  apply ends_same. destruct (_ =? accept).
  { destruct (_ && _); [|apply same_refl]. apply same_bind; [apply acceptEntry_same|]. intros c1.
    eapply same_then; [|apply learnCommitNotice_same]. etransitivity; [|apply applyNoticedSlot_same]. by apply post_same. }
  destruct (_ =? accepted).
  { unfold receive_accepted. destruct (negb _); [apply same_refl|]. destruct (log c !! _) as [v|]; [|apply same_refl].
    destruct (negb _); [apply same_refl|]. set (c1 := if _ <? _ then _ else c).
    assert (same c c1) as Hc1.
    { unfold c1. destruct (_ <? _); [|reflexivity]. unfold updateReadPrefix. cbv zeta. destruct (_ <? _); plain. }
    cbv zeta. eapply same_then; [exact Hc1|]. eapply same_then; [|apply tryCommit_same]. plain. }
  destruct (_ =? commit); [eapply same_then; [|apply learnCommitNotice_same]; plain|].
  destruct (_ =? committedEntry); [destruct (_ =? Leader _); [apply learnCommittedEntry_same|apply same_refl]|].
  destruct (_ =? repairRequest); [destruct (_ && _); [apply sendRepairWindow_same|apply same_refl]|].
  destruct (_ =? forward); [destruct (leading c); [apply submit_same|apply same_refl]|apply same_refl].
Qed.

Lemma move_fixed v l v' : move input now v l v' → vid v' = vid v ∧ vn v' = vn v ∧ vmajority v' = vmajority v ∧ vopt v' = vopt v.
Proof. by destruct 1. Qed.
Lemma moves_fixed v l v' : moves input now v l v' → vid v' = vid v ∧ vn v' = vn v ∧ vmajority v' = vmajority v ∧ vopt v' = vopt v.
Proof. induction 1 as [|? ? ? ? ? (? & ? & ? & ?)%move_fixed _ (? & ? & ? & ?)]; [done|]. split_and!; congruence. Qed.
Lemma becomes_fixed (c c' : core) : becomes c c' → cid c' = cid c ∧ cn c' = cn c.
Proof. intros (l & _ & (H1 & H2 & _)%moves_fixed). done. Qed.

Lemma receive_rostered_moves m0 m known (c : core) :
  input = Some m0 → (∀ b, (known = true → b = RBallot (current c)) → (known = false → b = RBallot (MRoster m)) → stands_for m0 m b) →
  (known = true → Kind m = leaseReply → RBallot (MRoster m) = RBallot (current c)) →
  0 ≤ From m < cn c → From m ≠ cid c → ends (receive_rostered e m known now c) (becomes c).
Proof.
  intros Hin Hs Hb H0 H1. unfold receive_rostered.
  eapply (ends_bind _ _ (λ oc, becomes c oc.2 ∧ (known = true → current oc.2 = current c))).
  { destruct known; [cbn; split; [apply by_same; plain|done]|]. unfold validRoster. cbv zeta. destruct (_ && _); cbn.
    - eapply (ends_bind _ _ (becomes c)); [|intros; by split].
      eapply becomes_then; [|apply observe_moves]. apply by_same. plain.
    - split; [apply by_same; plain|done]. }
  intros [ok c1] [Hc1 Hcur]. cbn in Hc1, Hcur. destruct ok; cbn [negb]; [|done].
  destruct (active c1) eqn:Ha; cbn [negb orb]; [|done]. destruct (negb known && _) eqn:E; [done|].
  assert (RBallot (MRoster m) = RBallot (current c1) ∨ known = true) as Hr.
  { destruct known; [by right|left]. cbn in E. apply negb_false_iff in E. unfold sameRoster in E.
    apply andb_prop in E as [[[E _]%andb_prop _]%andb_prop _]. lia. }
  destruct (becomes_fixed _ _ Hc1) as [F1 F2]. set (c2 := if _ && _ then _ else c1).
  assert (same c1 c2 ∧ current c2 = current c1 ∧ active c2 = true) as (Hc2 & Ec & Ea) by (unfold c2; on_if; (split_and!; [plain|reflexivity|exact Ha])).
  assert (cid c2 = cid c ∧ cn c2 = cn c) as [F3 F4] by (unfold c2; on_if; done). clearbody c2.
  eapply becomes_then; [transitivity c1; [exact Hc1|by apply by_same]|].
  eapply (becomes_bind (receive_current e m now c2)); [|intros c3 _; apply ends_same, release_same].
  apply (receive_current_moves m0); rewrite ?F3, ?F4; try done.
  - apply Hs; intros ->; rewrite Ec; [by rewrite Hcur|]. by destruct Hr.
  - intros Hk. rewrite Ec. destruct Hr as [->| ->]; [done|]. rewrite Hcur by done. auto.
Qed.

Lemma revoke_moves m (c : core) :
  input = Some m → Kind m = leaseRevoke → 0 ≤ From m < cn c →
  let c1 := if num_at (revoked c) (From m) <? Seq m then c <| revoked ::= put (From m) (Seq m) |> else c in
  let c2 := if RBallot (current c1) <=? Seq m then c1 <| incoming ::= delete (From m) |> else c1 in
  becomes c (post e (From m) (message leaseRevoked <| Seq := Seq m |>) c2).
Proof.
  intros Hin Hk H0 c1 c2. set (r := message leaseRevoked <| Seq := _ |>). destruct (post_trace (From m) r c2) as [Hv [ok Ho]].
  set (b := num_at (revoked c) (From m) <? Seq m) in *.
  assert (lview_of c2 = lview_of c <| vrevoked ::= (λ l, if b then put (From m) (Seq m) l else l) |>
    <| vincoming ::= (λ i, if RBallot (vcurrent (lview_of c)) <=? Seq m then delete (From m) i else i) |>) as Hv2.
  { assert (current c1 = current c) as Ec by (unfold c1; by destruct b). unfold c2. rewrite Ec. unfold lview_of. cbn.
    unfold c1. destruct b; by destruct (RBallot (current c) <=? Seq m). }
  assert (out c2 = out c) as Eo by (unfold c2, c1; destruct b; by destruct (_ <=? _)).
  assert (stamped (lview_of c) leaseRevoked (prepareMessage r c2)) as Hst.
  { pose proof (stamped_prepare c2 r) as Hs. rewrite Hv2 in Hs. exact Hs. }
  eapply becomes_move; [by rewrite Ho, Eo|]. rewrite Hv, Hv2. by apply move_revoked; [| |exact Hst|rewrite (proj1 (prepare_fields r c2))| |].
Qed.

Lemma receiveRevocation_moves m0 m (c : core) :
  input = Some m0 → m = m0 ∨ Kind m = heartbeat → 0 ≤ From m < cn c →
  ends (receiveRevocation e m now c) (λ oc, becomes c oc.2 ∧ (oc.1 = false → oc.2 = c)).
Proof.
  intros Hin Hm H0. unfold receiveRevocation. cbv zeta.
  destruct (Z.eqb_spec (Kind m) leaseRevoke) as [Hk|].
  { destruct Hm as [->|Hm]; [|by rewrite Hm in Hk]. cbn. split; [by apply revoke_moves|done]. }
  destruct (Z.eqb_spec (Kind m) leaseRevoked) as [Hk|]; [|by split; [reflexivity|]].
  destruct Hm as [->|Hm]; [|by rewrite Hm in Hk]. destruct (_ && _) eqn:E; [|by split; [reflexivity|]].
  apply andb_prop in E as [E1 E2]. apply Z.ltb_lt in E1. apply Z.eqb_eq in E2.
  set (c1 := if decide _ then _ else c).
  assert (becomes c c1) as H1.
  { unfold c1. destruct (decide _) as [|Hn]; [|reflexivity]. eapply (becomes_move _ _ []); [by rewrite app_nil_r|].
    by apply (move_ack _ _ (lview_of c) m0). }
  clearbody c1. eapply (ends_bind _ _ (becomes c)); [eapply becomes_then; [exact H1|apply install_moves]|]. by intros.
Qed.

Lemma receive_known_moves m0 m known (c : core) :
  input = Some m0 → (m = m0 ∧ known = false) ∨ (Kind m = heartbeat ∧ known = true ∧ From m = From m0 ∧ heartbeat_kind (Kind m0) = true ∧ Prefix m0 = Prefix m) → 0 ≤ From m < cn c → From m ≠ cid c →
  ends (receive_known e m known now c) (becomes c).
Proof.
  intros Hin Hm H0 H1. unfold receive_known. eapply ends_bind; [apply (receiveRevocation_moves m0); [done| |done]; tauto|].
  intros [ok c1] [Hc1 Heq]. cbn in Hc1, Heq. destruct ok; [done|]. rewrite Heq by done. clear c1 Hc1 Heq.
  destruct (_ && _); [by apply by_refl|]. destruct (_ =? result).
  { destruct (_ =? cid c); [by apply by_same, light_same, finish_light|by apply by_refl]. }
  destruct (negb _ && _) eqn:E.
  - destruct Hm as [[-> ->]|(Hk & _)]; [|by rewrite Hk in E].
    destruct (negb (active c) || _) eqn:Ea; [by apply by_refl|]. apply orb_false_iff in Ea as [_ Ea]. apply negb_false_iff, Z.eqb_eq in Ea.
    apply (receive_rostered_moves m0 (m0 <| MRoster := current c |>) true c); try done. intros b Hb _. rewrite Hb by done.
    split_and!; [done|done|]. cbn. intros ->. done.
  - destruct Hm as [[-> ->]|(Hk & -> & Hf)]; [apply (receive_rostered_moves m0 m0 false c)|apply (receive_rostered_moves m0 m true c)]; try done.
    + intros b _ Hb. rewrite Hb by done. split_and!; [done|done|]. intros ->. done.
    + intros b _ _. destruct Hf as (Hf & Hk0 & Hp). split_and!; [done| |done]. by rewrite Hk.
    + intros _ Hk'. by rewrite Hk in Hk'.
Qed.

Lemma heartbeatMessage_fields (c : core) : Kind (heartbeatMessage c) = heartbeat ∧ Prefix (heartbeatMessage c) = prefix c.
Proof. unfold heartbeatMessage. by on_if. Qed.

Theorem receive_moves m (c : core) : input = Some m → ends (receive e m now c) (becomes c).
Proof.
  intros Hin. unfold receive. destruct (_ || _) eqn:E; [by apply by_refl|]. cbv zeta.
  assert (0 ≤ From m < cn c ∧ From m ≠ cid c) as [H0 H1] by lia.
  pose proof (refreshPeer_same (From m) now c) as Hs. set (c1 := refreshPeer e (From m) now c) in *.
  assert (cid c1 = cid c ∧ cn c1 = cn c) as [F1 F2] by (destruct Hs as [(_ & _ & Hv) _]; unfold lview_of in Hv; cbn in Hv; by injection Hv). clearbody c1.
  rewrite <- F2, <- F1 in *. eapply becomes_then; [by apply by_same|].
  destruct (_ =? rosterRequest).
  { cbn [ends]. on_if; [|reflexivity]. destruct (heartbeatMessage_fields c1) as [Hk Hp]. apply post_heartbeat; [by rewrite Hk|by left]. }
  destruct (Z.eqb_spec (Kind m) lightHeartbeat) as [Hk|].
  - destruct (known_roster _ c1) as [r|]; [|apply by_same; on_if; [by apply post_same|reflexivity]].
    apply (receive_known_moves m); try done. right. by rewrite Hk.
  - apply (receive_known_moves m); try done. by left.
Qed.

(** ** Timers and calls *)
Lemma tick_repair_same (c : core) : ends (tick_repair e now c) (same c).
Proof.
  unfold tick_repair. apply same_bind; [|intros c1; on_if; [apply same_refl|apply requestCommitRepair_same]].
  destruct (leading c); [|apply same_refl]. destruct (negb _); [apply startPrepare_same|].
  apply same_foldl. intros c' p. on_if; [reflexivity|apply repairPeer_same].
Qed.
Lemma retry_loop_same budget : ∀ c : core, ends (retry_loop e budget now c) (same c).
Proof.
  induction budget as [|budget IH]; intros c; cbn [retry_loop]; [apply same_refl|].
  destruct (index _ _) as [i|]; [|done]. set (c1 := c <| retryHead ::= _ |>). cbv zeta. apply (same_then c c1); [plain|].
  apply same_bind; [|exact IH]. destruct (queued c1 !! i); [|apply same_refl]. eapply same_then; [|apply submit_same]. plain.
Qed.
Lemma compactLog_moves (c : core) : becomes c (compactLog c).
Proof.
  unfold compactLog. destruct (negb _); [reflexivity|]. cbv zeta. destruct (compact_through_le c) as [H1 H2].
  set (through := foldl _ (prefix c) (peers c)) in *. on_if; [reflexivity|].
  destruct (forget_slots_view (rangeZ (compacted c + 1) through) c) as (V & O & L). set (c1 := foldl forget_slot c _) in *. clearbody c1.
  eapply (becomes_move _ _ []); [by rewrite app_nil_r|].
  assert (lview_of (bump CompactedSlots (through - compacted c) c1 <| compacted := through |>) = lview_of c <| vcompacted := through |> <| vlog := dom (log c1) |>) as ->.
  { unfold lview_of in *. cbn in *. injection V as -> -> -> -> -> -> -> -> -> -> -> -> -> -> _. done. }
  apply move_compact; [done| |].
  - intros p Hp Hne. apply H2; [|done]. apply elem_of_rangeZ. cbn in Hp. lia.
  - intros s Hs Hn. cbn in Hs. rewrite L in Hn. apply elem_of_dom in Hs as [v Hv]. apply not_elem_of_dom in Hn. rewrite lookup_foldr_delete in Hn.
    case_decide as Hin; [apply elem_of_rangeZ in Hin; lia|congruence].
Qed.
Lemma tick_work_moves (c : core) : ends (tick_work e now c) (becomes c).
Proof.
  unfold tick_work. apply becomes_bind; [apply ends_same, tick_repair_same|]. intros c1 _.
  apply becomes_bind; [|intros c2 _; apply becomes_bind; [apply ends_same, release_same|intros c3 _; apply compactLog_moves]].
  apply ends_same. unfold tick_retry. cbv zeta. apply same_bind; [apply retry_loop_same|].
  intros c2. on_if; [plain|apply same_refl].
Qed.
Lemma request_moves (c : core) : active c = true → becomes c (request_leases e now c).
Proof.
  intros Ha. unfold request_leases. cbv zeta. set (c1 := c <| sequence ::= _ |> <| leaseRequests ::= _ |>).
  set (m := message leaseRequest <| Seq := _ |>). destruct (broadcast_trace m c1) as [Hv [drops Ho]].
  eapply becomes_move; [exact Ho|]. rewrite Hv. apply (move_request _ _ (lview_of c)); [exact Ha|exact (stamped_prepare c1 m)|].
  apply prepare_fields.
Qed.
Theorem tick_moves (c : core) : ends (tick e now c) (becomes c).
Proof.
  unfold tick. eapply becomes_then; [apply by_same, refreshPeer_same|]. apply becomes_bind; [apply install_moves|].
  intros c1 _. set (hb := prepareMessage _ c1). set (hb' := if negb _ && _ then _ else hb).
  destruct (heartbeatMessage_fields c1) as [Hk Hp].
  assert (heartbeat_kind (Kind hb') = true ∧ Prefix hb' = prefix c1) as [Hk' Hp'].
  { unfold hb', hb. destruct (prepare_fields (heartbeatMessage c1) c1) as (_ & _ & Ep).
    on_if; cbn; rewrite ?Kind_prepare, ?Hk, Ep, Hp; done. }
  clearbody hb'. cbv zeta. eapply becomes_then; [apply broadcast_heartbeat; [done|by left]|]. set (c2 := broadcast e hb' c1). clearbody c2.
  destruct (active c2) eqn:Ha; cbn [negb]; [|by apply revokeLeases_moves].
  eapply becomes_then; [by apply request_moves|]. on_if; [apply proposeFiltered_moves|]. apply tick_work_moves.
Qed.
Theorem handleLeaderCall_moves (c : core) : ends (handleLeaderCall e now c) (λ lc, becomes c lc.2).
Proof.
  unfold handleLeaderCall. cbv zeta. on_if; [|by apply by_refl]. eapply ends_bind; [apply proposeFiltered_moves|]. done.
Qed.
Theorem proposeRoster_moves leader responders (c : core) : ends (proposeRoster e leader responders now c) (becomes c).
Proof. apply propose_moves. Qed.
End Input.
End Env.
End Moves.
End BodegaMoves.
