(* ===== verification/BodegaLocal.v ===== *)
(** * BodegaLocal: responders of a key and the majority-accepted prefix

    [responders_of_key]: under [ValidBodegaRanges], the binary search of
    [BodegaRespondersFor] finds the responders of the only range that has the
    key, or the default ones; the leader is always one of them.
    [read_prefix_majority]: what [updateReadPrefix] computes from the sorted
    progress of the replicas is the largest prefix that a majority has accepted. *)
From stdpp Require Import gmap strings list fin_maps functions sorting.
From Stdlib Require Import Lia.
From S2P Require Import Prelude State ReplicaSet Defs Bodega BodegaCore.

Module BodegaLocal.
Import Bodega BodegaCore.

(** ** Ranges *)
Definition covers (r : Range) (key : Z) : bool := (Start r <=? key) && (key <=? End_ r).

Lemma valid_ranges_tail n p r rs : valid_ranges n p (r :: rs) = true →
  Start r ≤ End_ r ∧ valid_ranges n (Some r) rs = true ∧ match p with Some q => End_ q < Start r | None => True end.
Proof. cbn. destruct p; intros [[[? ?]%andb_prop ?]%andb_prop ?]%andb_prop; split_and!; try done; lia. Qed.

(** Ranges are ordered: one begins after those before it end. *)
Lemma valid_ranges_order n rs : ∀ p i j ri rj, valid_ranges n p rs = true →
  rs !! i = Some ri → rs !! j = Some rj →
  Start ri ≤ End_ ri ∧ ((i < j)%nat → End_ ri < Start rj) ∧ match p with Some q => End_ q < Start ri | None => True end.
Proof.
  induction rs as [|r rs IH]; intros p i j ri rj Hv Hi Hj; [done|]. apply valid_ranges_tail in Hv as (H1 & H2 & H3).
  destruct i as [|i]; cbn in Hi.
  - injection Hi as ->. split_and!; [done| |done]. intros Hlt. destruct j as [|j]; [lia|]. cbn in Hj.
    destruct (IH (Some ri) j j rj rj H2 Hj Hj) as (_ & _ & ?). done.
  - destruct (IH (Some r) i i ri ri H2 Hi Hi) as (J1 & _ & J3). split_and!; [done| |destruct p; [lia|done]]. intros Hlt.
    destruct j as [|j]; [lia|]. cbn in Hj. destruct (IH (Some r) i j ri rj H2 Hi Hj) as (_ & J2 & _). apply J2. lia.
Qed.

(** Whether a range covers the key, or none does. *)
Definition responders_spec (defaultMask : Z) (ranges : list Range) (key : Z) : Z :=
  match list_find (λ r, covers r key = true) ranges with
  | Some (_, r) => RangeResponders r
  | None => defaultMask
  end.

(** C20.  The responders of a key: on valid ranges the binary search is the search
    of the list from its head, for the range that covers the key; at most one
    does.  The leader is one of the responders. *)
Theorem responders_of_key n defaultMask ranges leader key :
  ValidBodegaRanges ranges n = true → 0 ≤ leader < 64 →
  BodegaRespondersFor defaultMask ranges leader key = Z.lor (responders_spec defaultMask ranges key) (bit leader) ∧
  has (BodegaRespondersFor defaultMask ranges leader key) leader = true ∧
  ∀ i j ri rj, ranges !! i = Some ri → ranges !! j = Some rj → covers ri key = true → covers rj key = true → i = j.
Proof.
  intros Hv Hl. unfold ValidBodegaRanges in Hv. set (f := λ i, key <=? End_ (default (mkRange 0 0 0) (index ranges i))).
  assert (∀ i, 0 ≤ i < Z.of_nat (length ranges) → ∃ r, ranges !! Z.to_nat i = Some r ∧ default (mkRange 0 0 0) (index ranges i) = r) as Hat.
  { intros i Hi. destruct (lookup_lt_is_Some_2 ranges (Z.to_nat i)) as [r Hr]; [lia|]. exists r. by rewrite index_nonneg, Hr by lia. }
  assert (∀ i j ri rj, ranges !! i = Some ri → ranges !! j = Some rj → covers ri key = true → covers rj key = true → i = j) as Huniq.
  { unfold covers. intros i j ri rj Hi Hj [? ?]%andb_prop [? ?]%andb_prop.
    destruct (valid_ranges_order n ranges None i j ri rj Hv Hi Hj) as (_ & O1 & _), (valid_ranges_order n ranges None j i rj ri Hv Hj Hi) as (_ & O2 & _). lia. }
  destruct (search_spec f (length ranges) 0 (Z.of_nat (length ranges))) as (S1 & S2 & S3); [lia|lia| |].
  { intros i j Hij Hj. destruct (decide (i = j)) as [->|]; [done|]. unfold f. destruct (Hat i) as (ri & Hri & ->); [lia|].
    destruct (Hat j) as (rj & Hrj & ->); [lia|].
    destruct (valid_ranges_order n ranges None _ _ _ _ Hv Hri Hrj) as (_ & O1 & _), (valid_ranges_order n ranges None _ _ _ _ Hv Hrj Hrj) as (O2 & _). lia. }
  assert (BodegaRespondersFor defaultMask ranges leader key = Z.lor (responders_spec defaultMask ranges key) (bit leader)) as E.
  { unfold BodegaRespondersFor. cbv zeta. fold f. unfold Search. set (s := search _ f 0 _) in *. f_equal. unfold responders_spec.
    destruct (list_find _ ranges) as [[i r]|] eqn:El.
    - apply list_find_Some in El as (Hi & Hc & _). pose proof (lookup_lt_Some _ _ _ Hi) as Hlt. unfold covers in Hc.
      destruct (Z.lt_trichotomy s (Z.of_nat i)) as [Hs|[Hs|Hs]].
      + exfalso. destruct (Hat s) as (x & Hx & Ex); [lia|]. specialize (S3 ltac:(lia)). unfold f in S3. rewrite Ex in S3.
        destruct (valid_ranges_order n ranges None _ _ _ _ Hv Hx Hi) as (_ & H1 & _). lia.
      + rewrite Hs. destruct (Hat (Z.of_nat i)) as (x & Hx & ->); [lia|]. rewrite Nat2Z.id in Hx. rewrite Hi in Hx. injection Hx as <-.
        rewrite (proj2 (Z.ltb_lt _ _)) by lia. by destruct (Start r <=? key).
      + exfalso. specialize (S2 (Z.of_nat i) ltac:(lia)). unfold f in S2. destruct (Hat (Z.of_nat i)) as (x & Hx & Ex); [lia|].
        rewrite Nat2Z.id, Hi in Hx. injection Hx as <-. rewrite Ex in S2. lia.
    - destruct (_ && _) eqn:Eb; [|done]. exfalso. apply andb_prop in Eb as [Hs Hst]. apply Z.ltb_lt in Hs.
      destruct (Hat s) as (x & Hx & Ex); [lia|]. apply list_find_None in El. rewrite Forall_lookup in El. apply (El _ _ Hx).
      specialize (S3 Hs). unfold f in S3. rewrite Ex in S3, Hst. unfold covers. by rewrite Hst, S3. }
  split; [exact E|]. split; [|exact Huniq]. rewrite E. unfold has, bit. apply negb_true_iff, Z.eqb_neq. intros H0.
  apply (f_equal (λ z, Z.testbit z leader)) in H0. rewrite Z.bits_0, Z.land_spec, Z.lor_spec in H0.
  assert (Z.testbit (u64 (Z.shiftl 1 leader)) leader = true) as Hb.
  { rewrite Z.shiftl_1_l, wrapU_id by (split; [lia|]; apply Z.pow_lt_mono_r; lia). apply Z.pow2_bits_true. lia. }
  by rewrite Hb, orb_true_r in H0.
Qed.

Definition demo_ranges : list Range := [mkRange 0 9 1; mkRange 20 29 4].
Lemma responders_of_key_witness :
  ValidBodegaRanges demo_ranges 3 = true ∧
  BodegaRespondersFor 7 demo_ranges 1 29 = Z.lor (responders_spec 7 demo_ranges 29) (bit 1) ∧
  has (BodegaRespondersFor 7 demo_ranges 1 29) 1 = true ∧
  ∀ i j ri rj, demo_ranges !! i = Some ri → demo_ranges !! j = Some rj → covers ri 29 = true → covers rj 29 = true → i = j.
Proof. split; [reflexivity|]. apply (responders_of_key 3); [reflexivity|lia]. Defined.

(** ** The prefix a majority has accepted *)
Definition reached (l : list Z) (p : Z) : nat := length (filter (λ x, p ≤ x) l).

Lemma reached_sorted l k p : StronglySorted Z.le l → l !! k = Some p →
  (length l - k ≤ reached l p)%nat ∧ ∀ q, p < q → (reached l q < length l - k)%nat.
Proof.
  intros Hs Hk. rewrite <- (take_drop_middle l k p Hk) in Hs |- *. pose proof (lookup_lt_Some _ _ _ Hk) as Hlt.
  set (a := take k l) in *. set (b := drop (S k) l) in *.
  assert (length a = k) as Ha by (unfold a; rewrite length_take; lia). clearbody a b. clear Hk Hlt l.
  rewrite length_app. cbn [length].
  apply StronglySorted_app in Hs as (H1 & Ha' & Hb). inversion Hb as [|? ? _ Hb']; subst. rewrite Forall_forall in Hb'.
  assert (∀ q, reached (a ++ p :: b) q = (reached a q + reached (p :: b) q)%nat) as Hr.
  { intros q. unfold reached. by rewrite filter_app, length_app. }
  split; [|intros q Hq]; rewrite Hr; unfold reached.
  - rewrite filter_cons_True, (filter_all _ b) by (lia || done). cbn. lia.
  - rewrite filter_cons_False by lia. pose proof (length_filter (λ x, q ≤ x) b).
    rewrite (filter_none _ a); [cbn; lia|]. intros x Hx. assert (x ≤ p); [|lia]. apply H1; [done|left].
Qed.
Lemma reached_perm l l' p : l ≡ₚ l' → reached l p = reached l' p.
Proof. intros Hl. unfold reached. by rewrite Hl. Qed.

Section Local.
Context `{SM : StateMachine}.

(** The prefix that [updateReadPrefix] computes is accepted by a majority, and is
    the largest such; the read prefix never falls. *)
Theorem read_prefix_majority (c : core) :
  Z.of_nat (length (acceptedProgress c)) = cn c → 0 < majority c ≤ cn c →
  ∃ p, readPrefix (updateReadPrefix c) = Z.max (readPrefix c) p ∧ majority c ≤ Z.of_nat (reached (acceptedProgress c) p) ∧
    ∀ q, p < q → Z.of_nat (reached (acceptedProgress c) q) < majority c.
Proof.
  intros Hn Hm. set (l := acceptedProgress c) in *.
  assert (merge_sort Z.le l ≡ₚ l) as Hp by apply merge_sort_Permutation.
  assert (StronglySorted Z.le (merge_sort Z.le l)) as Hs by apply (StronglySorted_merge_sort _).
  pose proof (Permutation_length Hp) as Hlen.
  destruct (lookup_lt_is_Some_2 (merge_sort Z.le l) (Z.to_nat (cn c - majority c))) as [p Hk]; [lia|].
  destruct (reached_sorted _ _ _ Hs Hk) as [R1 R2]. rewrite (reached_perm _ l _ Hp) in R1. exists p. split_and!.
  - unfold updateReadPrefix. fold l. cbv zeta. unfold num_at. rewrite index_nonneg, Hk by lia. cbn. destruct (_ <? _) eqn:E; cbn; lia.
  - lia.
  - intros q Hq. specialize (R2 q Hq). rewrite (reached_perm _ l _ Hp) in R2. lia.
Qed.
End Local.
End BodegaLocal.
