(* ===== verification/BodegaLease.v ===== *)
(** * BodegaLease: at most one roster is stable

    A cluster of Bodega replicas in real time.  Every replica runs the whole
    core ([BodegaCore]) and reads a clock of its own, which runs at the rate of
    real time with an arbitrary skew.  A run is a list of steps: time passes, or
    a replica takes an event (a timer, a request, a packet another replica has
    sent, ...); packets are delayed, repeated, reordered and lost, and go through
    the projection and the validation of the wire.

    [stable_quorum]: while a replica is stable, a majority of the replicas, the
    granting ones, are in its roster, and it has executed all they had accepted
    when they installed it.  [stable_rosters_agree]: two replicas are not stable
    in rosters of different ballots at once.  [bodega_events_end]: no event runs
    out of fuel. *)
From stdpp Require Import gmap strings list fin_maps functions sorting.
From Stdlib Require Import Lia.
From S2P Require Import Prelude State ReplicaSet Defs Bodega BodegaCore BodegaMoves.

Module BodegaLease.
Import Bodega BodegaCore BodegaMoves.

(** ** Packets *)
Definition event_to (ev : event) (to : Z) : option Message :=
  match ev with
  | Sent to' m _ => if to' =? to then Some m else None
  | Broadcast m _ => Some m
  | Replied _ _ _ => None
  end.
(** [tr] has a message for [to]. *)
Definition sends (tr : list event) (to : Z) (m : Message) : Prop := ∃ ev, ev ∈ tr ∧ event_to ev to = Some m.

Lemma sends_app tr l to m : sends (tr ++ l) to m ↔ sends tr to m ∨ sends l to m.
Proof. unfold sends. set_solver. Qed.
Lemma sends_nil to m : ¬ sends [] to m.
Proof. intros (ev & Hev & _). by apply elem_of_nil in Hev. Qed.
Lemma sends_quiet l to m : Forall quiet l → sends l to m → lease_kind (Kind m) = false ∧ heartbeat_kind (Kind m) = false.
Proof.
  rewrite Forall_forall. intros Hq (ev & Hev & E). specialize (Hq ev Hev). apply orb_false_iff.
  destruct ev; cbn in *; [|by injection E as <-|done]. destruct (_ =? _); [by injection E as <-|done].
Qed.
(** A heartbeat is no message of the leases. *)
Lemma heartbeat_not_lease k : heartbeat_kind k = true → lease_kind k = false.
Proof. unfold heartbeat_kind. by intros [->%Z.eqb_eq| ->%Z.eqb_eq]%orb_prop. Qed.
Lemma sent_heartbeat ev msg to m :
  (∃ to ok, ev = Sent to msg ok) ∨ (∃ drops, ev = Broadcast msg drops) → sends [ev] to m → m = msg.
Proof.
  unfold sends. intros Hev (ev' & ->%list_elem_of_singleton & E). destruct Hev as [(to' & ok & ->)|[drops ->]]; cbn in E; [|congruence].
  destruct (_ =? _); congruence.
Qed.

(** What the wire keeps of the messages of the leases. *)
Lemma on_wire_lease raw m : on_wire raw = Some m → lease_kind (Kind m) = true →
  Kind raw = Kind m ∧ From raw = From m ∧ Seq raw = Seq m ∧ RBallot (MRoster raw) = RBallot (MRoster m) ∧
  (Kind m = leaseReply → Threshold raw = Threshold m).
Proof.
  unfold on_wire. destruct (wireFields raw) as [p| |] eqn:Ew; [|done|done]. set (p' := p <| MEntry ::= _ |> <| Entries ::= _ |>).
  assert (Kind p' = Kind p ∧ From p' = From p ∧ Seq p' = Seq p ∧ MRoster p' = MRoster p ∧ Threshold p' = Threshold p) as (P1 & P2 & P3 & P4 & P5) by done.
  clearbody p'. intros Hv Hk.
  assert (Kind m = Kind p' ∧ From m = From p' ∧ Seq m = Seq p' ∧ MRoster m = MRoster p' ∧ Threshold m = Threshold p') as (Q1 & Q2 & Q3 & Q4 & Q5).
  { clear -Hv. unfold validateProtoMessage in Hv. repeat case_match; try done; injection Hv as <-; done. }
  assert (Kind p = Kind raw) as Hpk.
  { clear -Ew. unfold wireFields in Ew. cbv zeta in Ew. repeat (case_match; [injection Ew as <-; done|]). done. }
  rewrite Q1, P1, Hpk in Hk. rewrite Q1, Q2, Q3, Q4, Q5, P1, P2, P3, P4, P5, Hpk.
  assert (Kind raw = leaseRequest ∨ Kind raw = leaseReply ∨ Kind raw = leaseRevoke ∨ Kind raw = leaseRevoked) as Hcases.
  { unfold lease_kind in Hk. repeat apply orb_prop in Hk as [Hk|Hk]; apply Z.eqb_eq in Hk; tauto. }
  unfold wireFields in Ew. destruct Hcases as [E|[E|[E|E]]]; rewrite E in *; cbn in Ew; injection Ew as <-; done.
Qed.

Lemma one_event ev to m : sends [ev] to m ↔ event_to ev to = Some m.
Proof. unfold sends. set_solver. Qed.
Lemma sent_one to' msg ok to m : sends [Sent to' msg ok] to m → to' = to ∧ m = msg.
Proof. rewrite one_event. cbn. destruct (Z.eqb_spec to' to); [|done]. by intros [= ->]. Qed.
Lemma num_at_put (l : list Z) (i j x : Z) :
  0 ≤ i < Z.of_nat (length l) → 0 ≤ j → num_at (put i x l) j = if decide (j = i) then x else num_at l j.
Proof.
  intros Hi Hj. unfold num_at, put. rewrite !index_nonneg by lia. case_decide as E.
  - subst. rewrite list_lookup_insert_eq by lia. done.
  - rewrite list_lookup_insert_ne by lia. done.
Qed.

(** ** One replica *)
Section View.
Context (n : Z) (o : options).

(** What holds of a replica alone; [tr] is its trace. *)
Record view_ok (i : Z) (tr : list event) (v : lview) : Prop := mkViewOk {
  vk_fixed : vid v = i ∧ vn v = n ∧ vmajority v = Z.quot n 2 + 1 ∧ vopt v = o;
  vk_revoked : length (vrevoked v) = Z.to_nat n;
  vk_sequence : 0 ≤ vsequence v ≤ Z.of_nat (length tr);
  vk_ballots : 0 ≤ RBallot (vcurrent v) ∧ (RBallot (vpending v) = 0 ∨ RBallot (vcurrent v) < RBallot (vpending v));
  vk_incoming : ∀ p x, vincoming v !! p = Some x → 0 ≤ p < n;
  vk_stamp : ∀ to m, sends tr to m → lease_kind (Kind m) = true → From m = i }.

(** *** What a move keeps of a replica *)
Lemma stamps_nil i tr v : (∀ to m, sends tr to m → lease_kind (Kind m) = true → From m = i) →
  ∀ l, (∀ to m, sends l to m → lease_kind (Kind m) = true → From m = vid v) → vid v = i →
  ∀ to m, sends (tr ++ l) to m → lease_kind (Kind m) = true → From m = i.
Proof. intros H l Hl Hi to m [Hm|Hm]%sends_app Hk; [by eapply H|]. rewrite <- Hi. by eapply Hl. Qed.

Lemma view_move i tr v input now l v' :
  view_ok i tr v → Z.of_nat (length (tr ++ l)) < 2 ^ 64 → move input now v l v' → view_ok i (tr ++ l) v'.
Proof.
  intros [(V1 & V2 & V3 & V4) V5 V6 [V7 V8] V9 V10] Hlen Hmove.
  assert (∀ l', (∀ to m, sends l' to m → lease_kind (Kind m) = true → From m = vid v) →
    ∀ to m, sends (tr ++ l') to m → lease_kind (Kind m) = true → From m = i) as Hst by (intros l' Hl'; by apply (stamps_nil i tr v)).
  assert (0 ≤ vsequence v ≤ Z.of_nat (length (tr ++ l))) as V6' by (rewrite length_app; lia).
  assert (∀ to' msg ok k, stamped v k msg → ∀ to m, sends [Sent to' msg ok] to m → lease_kind (Kind m) = true → From m = vid v) as Hone.
  { intros to' msg ok k (_ & Hf & _) to m [_ ->]%sent_one _. done. }
  destruct Hmove as [v l k X Hq Hk HX|v ev msg Hev Hk Hf Hp|v hb E Hk H0|v k X Hk Hp HX|v r Hr|v t Hp Hu|v to msg ok Hs Hp Hsq|v msg drops s Ha Hs Hsq|v req msg ok E Hk Ha Hs Hsq Ht
    |v rep u E Hk Ha Hb Hu Hr H0 H1|v req msg ok b E Hk Hs Hsq H0 Hb|v ack E Hk Hp Hsq]; split; cbn; try done.
  - apply Hst. intros to m Hm Hkm. apply (sends_quiet _ _ _ Hq) in Hm as [Hm _]. congruence.
  - apply Hst. intros to m Hm Hkm. by apply (sent_heartbeat _ _ _ _ Hev) in Hm as ->.
  - apply Hst. by intros to m []%sends_nil.
  - apply Hst. by intros to m []%sends_nil.
  - split; [done|by right].
  - apply Hst. by intros to m []%sends_nil.
  - split; [lia|by left].
  - apply Hst. by intros to m []%sends_nil.
  - apply Hst. by eapply Hone.
  - assert (s = vsequence v + 1) as ->; [|rewrite length_app; cbn; lia].
    apply wrapU_id. rewrite length_app in Hlen. cbn in Hlen. lia.
  - apply Hst. intros to m Hm _. rewrite one_event in Hm. injection Hm as <-. by destruct Hs as (_ & ? & _).
  - apply Hst. by eapply Hone.
  - intros p x. rewrite lookup_insert_Some. intros [[<- _]|[_ Hx]]; [lia|by eapply V9].
  - apply Hst. by intros to m []%sends_nil.
  - destruct b; [unfold put; by rewrite length_insert|done].
  - intros p x Hx. apply (V9 p x). destruct (_ <=? _); [|done]. by apply lookup_delete_Some in Hx as [_ ?].
  - apply Hst. by eapply Hone.
  - apply Hst. by intros to m []%sends_nil.
Qed.

Lemma view_moves i input now v l v' : moves input now v l v' → ∀ tr,
  view_ok i tr v → Z.of_nat (length (tr ++ l)) < 2 ^ 64 → view_ok i (tr ++ l) v'.
Proof.
  induction 1 as [|v l v1 l' v' Hm _ IH]; intros tr Hv Hlen; [by rewrite app_nil_r|]. rewrite app_assoc in Hlen |- *.
  apply IH; [|done]. eapply view_move; [done| |done]. rewrite length_app in Hlen. lia.
Qed.
End View.

(** ** A grantor and a holder *)
Section Pair.
Context (n : Z) (o : options) (g h sg sh : Z).
Hypothesis margin_nonneg : 0 ≤ oMargin o.
Hypothesis distinct : g ≠ h.
Hypothesis g_range : 0 ≤ g < n.
Hypothesis h_range : 0 ≤ h < n.

(** The grantor [V] is bound in its roster [b] until [u] on the holder's clock. *)
Definition bound (V : lview) (b t u : Z) : Prop :=
  RBallot (vcurrent V) = b ∧ vthreshold V = t ∧ ∃ x, voutgoing V !! h = Some x ∧ u - sh ≤ x - sg.

(** [F] and [B]: the messages sent to the holder and back; [T]: real time. *)
Record pair_ok (T : Z) (F B : Message → Prop) (V U : lview) : Prop := mkPair {
  po_request : ∀ q u, vrequests U !! q = Some u → q ≤ vsequence U ∧ u ≤ T + sh + oLease o;
  po_ask : ∀ m, B m → Kind m = leaseRequest → Seq m ≤ vsequence U;
  po_reply : ∀ m, F m → Kind m = leaseReply → Seq m ≤ vsequence U ∧
    ∀ u, vrequests U !! Seq m = Some u →
      bound V (RBallot (MRoster m)) (Threshold m) u ∨ u - sh ≤ T ∨ RBallot (MRoster m) ≤ num_at (vrevoked U) g;
  po_acked : ∀ m, B m → Kind m = leaseRevoked → Seq m ≤ num_at (vrevoked U) g;
  po_grant : ∀ x, vincoming U !! g = Some x →
    until x ≤ T + sh + oLease o ∧ num_at (vrevoked U) g < RBallot (vcurrent U) ∧
    (bound V (RBallot (vcurrent U)) (gThreshold x) (until x) ∨ until x - sh ≤ T) }.

(** *** Time, and the messages *)
Lemma pair_later T T' F B V U : T ≤ T' → pair_ok T F B V U → pair_ok T' F B V U.
Proof.
  intros HT [K1 K2 K3 K4 K5]. split; try done.
  - intros q u Hu. destruct (K1 q u Hu). lia.
  - intros m Hm Hk. destruct (K3 m Hm Hk) as [? K]. split; [done|]. intros u Hu. destruct (K u Hu) as [?|[?|?]]; [tauto|right; left; lia|tauto].
  - intros x Hx. destruct (K5 x Hx) as (H1 & H2 & H3). split; [lia|]. split; [done|]. destruct H3; [by left|right; lia].
Qed.
Lemma pair_messages T F F' B B' V U :
  (∀ m, Kind m = leaseReply → F' m → F m) → (∀ m, Kind m = leaseRequest ∨ Kind m = leaseRevoked → B' m → B m) →
  pair_ok T F B V U → pair_ok T F' B' V U.
Proof. intros HF HB [K1 K2 K3 K4 K5]. split; eauto. Qed.

(** *** A move of the grantor *)
(** Less of a hold on the holder is no harm. *)
Lemma pair_unbound T F B V U V' :
  pair_ok T F B V U → (∀ b t u, bound V b t u → u ≤ T + sh + oLease o → bound V' b t u ∨ u - sh ≤ T ∨ b ≤ num_at (vrevoked U) g) → pair_ok T F B V' U.
Proof.
  intros [K1 K2 K3 K4 K5] Hb. split; try done.
  - intros m Hm Hk. destruct (K3 m Hm Hk) as [? K]. split; [done|]. intros u Hu. destruct (K1 _ _ Hu) as [_ Hle].
    destruct (K u Hu) as [HV|?]; [|tauto]. by apply Hb.
  - intros x Hx. destruct (K5 x Hx) as (H1 & H2 & [HV|?]); split_and!; try done; [|tauto].
    destruct (Hb _ _ _ HV H1) as [?|[?|?]]; [tauto|tauto|lia].
Qed.

Lemma pair_grant T F B V U req msg F' :
  pair_ok T F B V U →
  (∃ raw, B raw ∧ Kind raw = leaseRequest ∧ Seq raw = Seq req) →
  vactive V = true → 0 ≤ RBallot (vcurrent V) → vopt V = o → stamped V leaseReply msg → Seq msg = Seq req → Threshold msg = vthreshold V →
  (∀ m, F' m → F m ∨ m = msg) →
  pair_ok T F' B (V <| voutgoing ::= <[h := T + sg + oLease (vopt V) + oMargin (vopt V)]> |>) U.
Proof.
  intros HP (raw & Hraw & Hk & Hs) Ha H0 Ho (S1 & S2 & S3) Hq Ht HF. rewrite Ho. set (V' := V <| voutgoing ::= _ |>).
  assert (∀ b t u, bound V b t u → u ≤ T + sh + oLease o → bound V' b t u) as Hb.
  { intros b t u (B1 & B2 & _) Hu. split_and!; [done|done|]. exists (T + sg + oLease o + oMargin o). cbn. rewrite lookup_insert_eq. split; [done|lia]. }
  assert (pair_ok T F B V' U) as [K1 K2 K3 K4 K5] by (apply (pair_unbound _ _ _ _ _ _ HP); intros; left; by apply Hb). split; try done.
  intros m [Hm| ->]%HF Hkm; [by apply K3|]. rewrite Hq, <- Hs. split; [by apply K2|]. intros u Hu. left.
  split_and!; cbn; [|done|].
  - symmetry. apply S3; [|done]. apply andb_prop in Ha as [_ Ha]. by apply Z.eqb_eq.
  - exists (T + sg + oLease o + oMargin o). rewrite lookup_insert_eq. destruct (K1 _ _ Hu). split; [done|lia].
Qed.

Lemma grantor_move T F B V U input l V' tr F' :
  pair_ok T F B V U →
  (∀ m, input = Some m → lease_kind (Kind m) = true → From m = h → ∃ raw, B raw ∧ on_wire raw = Some m) →
  view_ok n o g tr V → move input (T + sg) V l V' → (∀ m, F' m ↔ F m ∨ sends l h m) → pair_ok T F' B V' U.
Proof.
  intros HP Hin HV Hmove HF.
  assert (∀ m, Kind m = leaseReply → F' m → F m ∨ sends l h m) as HF1 by (intros m _; apply HF).
  destruct Hmove as [v l k X Hq Hk HX|v ev msg Hev Hk Hf Hp|v hb E Hk H0|v k X Hk Hp HX|v r Hr|v t Hp Hu|v to msg ok Hst Hp Hs|v msg drops s Ha Hst Hs|v req msg ok E Hk Ha Hst Hs Ht
    |v rep u E Hk Ha Hb Hu Hr H0 H1|v req msg ok b E Hk Hst Hs H0 Hb|v ack E Hk Hp Hs].
  - eapply pair_messages; [| |apply (pair_unbound _ _ _ _ _ (v <| vprefix := k |> <| vlog := X |>) HP)]; [|done|by left].
    intros m Hkm [?|Hm]%HF; [done|]. apply (sends_quiet _ _ _ Hq) in Hm as [Hm _]. by rewrite Hkm in Hm.
  - eapply pair_messages; [| |exact HP]; [|done]. intros m Hkm [?|Hm]%HF; [done|]. apply (sent_heartbeat _ _ _ _ Hev) in Hm as ->.
    apply heartbeat_not_lease in Hk. by rewrite Hkm in Hk.
  - eapply pair_messages; [| |apply (pair_unbound _ _ _ _ _ _ HP)]; [|done|by left]. intros m _ [?|[]%sends_nil]%HF. done.
  - eapply pair_messages; [| |apply (pair_unbound _ _ _ _ _ _ HP)]; [|done|by left]. intros m _ [?|[]%sends_nil]%HF. done.
  - eapply pair_messages; [| |apply (pair_unbound _ _ _ _ _ (v <| vpending := r |> <| vincoming := ∅ |> <| vrequests := ∅ |>) HP)]; [|done|by left].
    intros m _ [?|[]%sends_nil]%HF. done.
  - eapply pair_messages; [| |apply (pair_unbound _ _ _ _ _ _ HP)]; [|done|].
    + intros m _ [?|[]%sends_nil]%HF. done.
    + intros b t' u (_ & _ & x & Hx & Hle) _. right. left. apply Hu in Hx. lia.
  - eapply pair_messages; [| |exact HP]; [|done]. intros m Hk [?|(ev & ->%list_elem_of_singleton & Hm)]%HF; [done|]. cbn in Hm.
    destruct (_ =? _); [|done]. injection Hm as <-. destruct Hst as [Hst _]. by rewrite Hk in Hst.
  - eapply pair_messages; [| |apply (pair_unbound _ _ _ _ _ _ HP)]; [|done|by left].
    intros m Hk [?|(ev & ->%list_elem_of_singleton & Hm)]%HF; [done|]. injection Hm as <-. destruct Hst as [Hst _]. by rewrite Hk in Hst.
  - destruct (decide (From req = h)) as [Hf|Hf].
    + rewrite Hf. destruct (Hin req E) as (raw & Hraw & Hw); [by rewrite Hk|done|].
      destruct (on_wire_lease _ _ Hw) as (W1 & _ & W3 & _); [by rewrite Hk|].
      apply (pair_grant _ F _ _ _ req msg); try done; [by exists raw; split_and!; [|congruence|]|apply (vk_ballots _ _ _ _ _ HV)|apply (vk_fixed _ _ _ _ _ HV)|].
      intros m [?|(ev & ->%list_elem_of_singleton & Hm)]%HF; [by left|right]. cbn in Hm. rewrite Hf, Z.eqb_refl in Hm. congruence.
    + eapply pair_messages; [| |apply (pair_unbound _ _ _ _ _ _ HP)]; [|done|].
      * intros m _ [?|(ev & ->%list_elem_of_singleton & Hm)]%HF; [done|]. cbn in Hm. destruct (Z.eqb_spec (From req) h); done.
      * intros b t u (B1 & B2 & x & Hx & Hle) _. left. split_and!; [done|done|]. exists x. cbn. rewrite lookup_insert_ne by done. done.
  - eapply pair_messages; [| |apply (pair_unbound _ _ _ _ _ _ HP)]; [|done|by left]. intros m _ [?|[]%sends_nil]%HF. done.
  - eapply pair_messages; [| |apply (pair_unbound _ _ _ _ _ _ HP)]; [|done|by left].
    intros m Hkm [?|(ev & ->%list_elem_of_singleton & Hm)]%HF; [done|]. cbn in Hm.
    destruct (_ =? _); [|done]. injection Hm as <-. destruct Hst as [Hst _]. by rewrite Hkm in Hst.
  - eapply pair_messages; [| |apply (pair_unbound _ _ _ _ _ _ HP)]; [|done|].
    + intros m _ [?|[]%sends_nil]%HF. done.
    + intros b t u (B1 & B2 & x & Hx & Hle) _. destruct (decide (From ack = h)) as [Hf|Hf].
      * right. right. destruct (Hin ack E) as (raw & Hraw & Hw); [by rewrite Hk|done|].
        destruct (on_wire_lease _ _ Hw) as (W1 & _ & W3 & _); [by rewrite Hk|]. rewrite <- B1, <- Hs, <- W3.
        apply (po_acked _ _ _ _ _ HP); [done|congruence].
      * left. split_and!; [done|done|]. exists x. cbn. rewrite lookup_delete_ne by done. done.
Qed.

(** *** A move of the holder *)
Lemma take_pair T F B V U raw rep u :
  pair_ok T F B V U → F raw → Kind raw = leaseReply → Seq raw = Seq rep → RBallot (MRoster raw) = RBallot (vcurrent U) →
  Threshold raw = Threshold rep → vrequests U !! Seq rep = Some u → num_at (vrevoked U) g < RBallot (vcurrent U) →
  pair_ok T F B V (U <| vincoming ::= <[g := mkGrant u (Threshold rep)]> |>).
Proof.
  intros [K1 K2 K3 K4 K5] Hraw Hk Hs Hb Ht Hu Hr. split; try done. cbn. intros x. rewrite lookup_insert_eq. intros [= <-]. cbn.
  destruct (K1 _ _ Hu) as [_ Hle]. split; [done|]. split; [done|]. destruct (K3 raw Hraw Hk) as [_ K]. rewrite Hs in K.
  destruct (K u Hu) as [HV|[?|?]]; [left|by right|lia]. by rewrite <- Hb, <- Ht.
Qed.

Lemma revoked_pair T F B B' V U req msg (b : bool) tr :
  pair_ok T F B V U → view_ok n o h tr U → From req = g → b = (num_at (vrevoked U) g <? Seq req) → Seq msg = Seq req →
  (∀ m, B' m → B m ∨ m = msg) → Kind msg = leaseRevoked →
  pair_ok T F B' V (U <| vrevoked ::= (λ l, if b then put (From req) (Seq req) l else l) |>
                      <| vincoming ::= (λ m, if RBallot (vcurrent U) <=? Seq req then delete (From req) m else m) |>).
Proof.
  intros [K1 K2 K3 K4 K5] HU Hf Hb Hm HB Hk. set (U' := U <| vrevoked ::= _ |> <| vincoming ::= _ |>).
  assert (num_at (vrevoked U') g = Z.max (num_at (vrevoked U) g) (Seq req)) as Hr.
  { subst U' b. cbn. rewrite Hf. destruct (_ <? _) eqn:E.
    - rewrite num_at_put, decide_True; [lia|done| |lia]. rewrite (vk_revoked _ _ _ _ _ HU). lia.
    - lia. }
  split; rewrite ?Hr; try done.
  - intros m [?| ->]%HB Hkm; [by apply K2|]. by rewrite Hk in Hkm.
  - intros m Hm' Hkm. destruct (K3 m Hm' Hkm) as [? K]. split; [done|]. intros u Hu. destruct (K u Hu) as [?|[?|?]]; [tauto|tauto|right; right; lia].
  - intros m [?| ->]%HB Hkm; [|lia]. specialize (K4 m ltac:(done) Hkm). lia.
  - intros x. cbn. rewrite Hf. destruct (_ <=? _) eqn:E; [by rewrite lookup_delete_eq|]. intros Hx. destruct (K5 x Hx) as (? & ? & ?). split_and!; [done|lia|done].
Qed.

Lemma holder_move T F B V U input l U' tr B' :
  pair_ok T F B V U →
  (∀ m, input = Some m → lease_kind (Kind m) = true → From m = g → ∃ raw, F raw ∧ on_wire raw = Some m) →
  view_ok n o h tr U → Z.of_nat (length (tr ++ l)) < 2 ^ 64 → move input (T + sh) U l U' → (∀ m, B' m ↔ B m ∨ sends l g m) →
  pair_ok T F B' V U'.
Proof.
  intros HP Hin HU Hlen Hmove HB. pose proof HP as [K1 K2 K3 K4 K5].
  destruct Hmove as [v l k X Hq Hk HX|v ev msg Hev Hk Hf Hp|v hb E Hk H0|v k X Hk Hp HX|v r Hr|v t Hp Hu|v to msg ok Hst Hp Hs|v msg drops s Ha Hst Hs|v req msg ok E Hk Ha Hst Hs Ht
    |v rep u E Hk Ha Hb Hu Hr H0 H1|v req msg ok b E Hk Hst Hs H0 Hb|v ack E Hk Hp Hs].
  - apply (pair_messages _ F _ B); [done| |by split]. intros m Hkm [?|Hm]%HB; [done|]. apply (sends_quiet _ _ _ Hq) in Hm as [Hm _].
    destruct Hkm as [Hkm|Hkm]; by rewrite Hkm in Hm.
  - eapply pair_messages; [| |exact HP]; [done|]. intros m Hkm [?|Hm]%HB; [done|]. apply (sent_heartbeat _ _ _ _ Hev) in Hm as ->.
    apply heartbeat_not_lease in Hk. destruct Hkm as [Hkm|Hkm]; by rewrite Hkm in Hk.
  - apply (pair_messages _ F _ B); [done|intros m _ [?|[]%sends_nil]%HB; done|]. by split.
  - apply (pair_messages _ F _ B); [done|intros m _ [?|[]%sends_nil]%HB; done|]. by split.
  - apply (pair_messages _ F _ B); [done|intros m _ [?|[]%sends_nil]%HB; done|]. split; cbn; try done.
    intros m Hm Hk. split; [by apply K3|]. intros u. by rewrite lookup_empty.
  - apply (pair_messages _ F _ B); [done|intros m _ [?|[]%sends_nil]%HB; done|]. split; cbn; done.
  - eapply pair_messages; [| |exact HP]; [done|]. intros m Hk [?|[_ ->]%sent_one]%HB; [done|]. destruct Hst as [Hst _].
    rewrite Hst in Hk. by destruct Hk.
  - assert (s = vsequence v + 1) as Es.
    { apply wrapU_id. destruct (vk_sequence _ _ _ _ _ HU). rewrite length_app in Hlen. cbn in Hlen. lia. }
    destruct (vk_fixed _ _ _ _ _ HU) as (_ & _ & _ & Ho).
    split; cbn.
    + intros q u [Hq _]%map_lookup_filter_Some. rewrite Ho in Hq.
      apply lookup_insert_Some in Hq as [[<- <-]|[_ Hq]]; [lia|]. destruct (K1 _ _ Hq). lia.
    + intros m [Hm|Hm]%HB Hk; [specialize (K2 m Hm Hk); lia|]. rewrite one_event in Hm. injection Hm as <-. lia.
    + intros m Hm Hk. destruct (K3 m Hm Hk) as [Hle K]. split; [lia|]. intros u [Hu _]%map_lookup_filter_Some.
      rewrite lookup_insert_ne in Hu by lia. by apply K.
    + intros m [Hm|Hm]%HB Hk; [by apply K4|]. rewrite one_event in Hm. injection Hm as <-. destruct Hst as [Hst _]. by rewrite Hst in Hk.
    + done.
  - apply (pair_messages _ F _ B); [done| |by split]. intros m Hkm [?|[_ ->]%sent_one]%HB; [done|]. destruct Hst as [Hst _].
    rewrite Hst in Hkm. by destruct Hkm.
  - apply (pair_messages _ F _ B); [done|intros m _ [?|[]%sends_nil]%HB; done|].
    destruct (decide (From rep = g)) as [Hf|Hf].
    + destruct (Hin rep E) as (raw & Hraw & Hw); [by rewrite Hk|done|].
      destruct (on_wire_lease _ _ Hw) as (W1 & _ & W3 & W4 & W5); [by rewrite Hk|]. rewrite Hf in *.
      apply (take_pair _ _ _ _ _ raw); try done; [congruence|congruence|by apply W5].
    + split; try done. cbn. intros x. rewrite lookup_insert_ne by done. apply K5.
  - destruct (decide (From req = g)) as [Hf|Hf].
    + eapply (revoked_pair _ _ B _ _ _ req msg); try done; [by rewrite <- Hf| |by destruct Hst].
      intros m [?|[_ ->]%sent_one]%HB; tauto.
    + apply (pair_messages _ F _ B); [done|intros m _ [?|[? _]%sent_one]%HB; done|].
      assert (num_at (if b then put (From req) (Seq req) (vrevoked v) else vrevoked v) g = num_at (vrevoked v) g) as Hn.
      { destruct b; [|done]. rewrite num_at_put, decide_False; [done|done| |lia]. rewrite (vk_revoked _ _ _ _ _ HU).
        destruct (vk_fixed _ _ _ _ _ HU) as (_ & Hn & _). lia. }
      split; cbn; rewrite ?Hn; try done. intros x. destruct (_ <=? _); [rewrite lookup_delete_ne by done|]; apply K5.
  - apply (pair_messages _ F _ B); [done|intros m _ [?|[]%sends_nil]%HB; done|]. by split.
Qed.

(** *** Runs of moves *)
Lemma grantor_moves T B U input V l V' : moves input (T + sg) V l V' → ∀ tr F F',
  view_ok n o g tr V → Z.of_nat (length (tr ++ l)) < 2 ^ 64 → pair_ok T F B V U →
  (∀ m, input = Some m → lease_kind (Kind m) = true → From m = h → ∃ raw, B raw ∧ on_wire raw = Some m) →
  (∀ m, F' m ↔ F m ∨ sends l h m) → pair_ok T F' B V' U.
Proof.
  induction 1 as [v|v l v1 l' v' Hm _ IH]; intros tr F F' Hv Hlen HP Hin HF.
  - eapply pair_messages; [| |exact HP]; [|done]. by intros m _ [?|[]%sends_nil]%HF.
  - rewrite app_assoc in Hlen. pose proof (length_app (tr ++ l) l') as E.
    apply (IH (tr ++ l) (λ m, F m ∨ sends l h m)); [eapply view_move; [done|lia|done]|done| |done|].
    + eapply grantor_move; [exact HP|exact Hin|exact Hv|exact Hm|done].
    + intros m. rewrite HF, sends_app. tauto.
Qed.
Lemma holder_moves T F V input U l U' : moves input (T + sh) U l U' → ∀ tr B B',
  view_ok n o h tr U → Z.of_nat (length (tr ++ l)) < 2 ^ 64 → pair_ok T F B V U →
  (∀ m, input = Some m → lease_kind (Kind m) = true → From m = g → ∃ raw, F raw ∧ on_wire raw = Some m) →
  (∀ m, B' m ↔ B m ∨ sends l g m) → pair_ok T F B' V U'.
Proof.
  induction 1 as [v|v l v1 l' v' Hm _ IH]; intros tr B B' Hv Hlen HP Hin HB.
  - eapply pair_messages; [| |exact HP]; [done|]. by intros m _ [?|[]%sends_nil]%HB.
  - rewrite app_assoc in Hlen. pose proof (length_app (tr ++ l) l') as E.
    apply (IH (tr ++ l) (λ m, B m ∨ sends l g m)); [eapply view_move; [done|lia|done]|done| |done|].
    + eapply holder_move; [exact HP|exact Hin|exact Hv| |exact Hm|done]; lia.
    + intros m. rewrite HB, sends_app. tauto.
Qed.
End Pair.

(** ** The cluster *)
Section Cluster.
Context `{SM : StateMachine} (n : Z) (o : options) (skew : Z → Z).
Hypothesis sm_terminates : ∀ cmd s, sm_execute cmd s ≠ OutOfFuel.

(** The events of a replica that are not messages ([replica.go]). *)
Inductive action :=
  | Activate | Timer | BatchTimer | Submit (r : Request) | Cancel (i : RequestID) | LeaderCall | Drained (peer : Z)
  | ProposeRoster (leader responders : Z).
Definition act (e : env) (a : action) (now : Z) (c : core) : outcome core :=
  match a with
  | Activate => Done (activate e now c)
  | Timer => tick e now c
  | BatchTimer => flushBatch e c
  | Submit r => submit e r now c
  | Cancel i => Done (cancelRead i c)
  | LeaderCall => '(_, c) ← handleLeaderCall e now c; Done c
  | Drained peer => Done (flushPromises e peer c)
  | ProposeRoster leader responders => proposeRoster e leader responders now c
  end.

Record world := mkWorld { nodes : Z → core; clock : Z }.
Inductive step :=
  | Advance (d : N)
  | Event (i : Z) (e : env) (a : action)
  | Deliver (i : Z) (e : env) (from : Z) (k : nat).     (* the [k]th event of the trace of [from] *)

Definition now (w : world) (i : Z) : Z := clock w + skew i.
Definition is_replica (i : Z) : bool := (0 <=? i) && (i <? n).
Definition put_node (w : world) (i : Z) (c : core) : world := mkWorld (<[i := c]> (nodes w)) (clock w).
Definition packet (w : world) (from : Z) (k : nat) (to : Z) : option Message :=
  ev ← out (nodes w from) !! k; raw ← event_to ev to; on_wire raw.

(** An event that panics ends the process; nothing of it is kept. *)
Definition after (w : world) (i : Z) (r : outcome core) : world := match r with Done c => put_node w i c | _ => w end.
Definition exec (s : step) (w : world) : world :=
  match s with
  | Advance d => mkWorld (nodes w) (clock w + Z.of_N d)
  | Event i e a => if is_replica i then after w i (act e a (now w i) (nodes w i)) else w
  | Deliver i e from k =>
      if is_replica i && is_replica from then
        match packet w from k i with
        | Some m => after w i (receive e m (now w i) (nodes w i))
        | None => w
        end
      else w
  end.
Definition run (ss : list step) (w : world) : world := foldl (λ w s, exec s w) w ss.
Definition start : world := mkWorld (λ i, newCore i n o <| batching := true |>) 0.

Lemma act_moves e a t c : ends (act e a t c) (by_moves None t c).
Proof.
  destruct a; cbn [act].
  - by apply by_same, refreshAll_same.
  - by apply tick_moves.
  - by apply ends_same, flushBatch_same.
  - by apply ends_same, submit_same.
  - by apply by_same, cancelRead_same.
  - eapply ends_bind; [by apply (handleLeaderCall_moves)|]. by intros [l c'].
  - by apply by_same, flushPromises_same.
  - by apply proposeRoster_moves.
Qed.

(** Every event ends, in any state. *)
Theorem bodega_events_end e t c :
  (∀ a, act e a t c ≠ OutOfFuel) ∧ (∀ m, receive e m t c ≠ OutOfFuel).
Proof.
  split.
  - intros a E. pose proof (act_moves e a t c) as H. by rewrite E in H.
  - intros m E. pose proof (receive_moves sm_terminates e (Some m) t m c eq_refl) as H. by rewrite E in H.
Qed.

(** *** The invariant *)
Record world_ok (w : world) : Prop := mkWorldOk {
  wk_nodes : ∀ i, 0 ≤ i < n → view_ok n o i (out (nodes w i)) (lview_of (nodes w i));
  wk_pairs : ∀ g h, 0 ≤ g < n → 0 ≤ h < n → g ≠ h →
    pair_ok o g h (skew g) (skew h) (clock w) (sends (out (nodes w g)) h) (sends (out (nodes w h)) g)
      (lview_of (nodes w g)) (lview_of (nodes w h)) }.
Hypothesis margin_nonneg : 0 ≤ oMargin o.

Lemma world_event w i input c :
  world_ok w → 0 ≤ i < n → by_moves input (now w i) (nodes w i) c → Z.of_nat (length (out c)) < 2 ^ 64 →
  (∀ m, input = Some m → ∃ from raw, 0 ≤ from < n ∧ sends (out (nodes w from)) i raw ∧ on_wire raw = Some m) →
  world_ok (put_node w i c).
Proof.
  intros [K1 K2] Hi (l & El & Hm) Hlen Hin. rewrite El in Hlen. unfold put_node.
  assert (∀ j m, input = Some m → lease_kind (Kind m) = true → From m = j → ∃ raw, sends (out (nodes w j)) i raw ∧ on_wire raw = Some m) as Hfrom.
  { intros j m Hm' Hk <-. destruct (Hin m Hm') as (from & raw & Hr & Hs & Hw). exists raw. split; [|done].
    destruct (on_wire_lease _ _ Hw Hk) as (W1 & W2 & _). rewrite <- W2, (vk_stamp _ _ _ _ _ (K1 from Hr) i raw Hs); [done|congruence]. }
  split; cbn.
  - intros j Hj. destruct (decide (j = i)) as [->|Hne]; [|rewrite fn_lookup_insert_ne by done; by apply K1].
    rewrite fn_lookup_insert, El. eapply view_moves; [exact Hm|by apply K1|done].
  - intros g h Hg Hh Hne. destruct (decide (g = i)) as [->|Hgi].
    + rewrite fn_lookup_insert, fn_lookup_insert_ne by done. eapply (grantor_moves n); try done; [by apply K1|by apply K2|by apply Hfrom|].
      intros m. by rewrite El, sends_app.
    + rewrite fn_lookup_insert_ne by done. destruct (decide (h = i)) as [->|Hhi]; [|rewrite fn_lookup_insert_ne by done; by apply K2].
      rewrite fn_lookup_insert. eapply (holder_moves n); try done; [by apply K1|by apply K2|by apply Hfrom|].
      intros m. by rewrite El, sends_app.
Qed.

(** Traces only grow, and stay short if they end short. *)
Definition short (w : world) : Prop := ∀ i, 0 ≤ i < n → Z.of_nat (length (out (nodes w i))) < 2 ^ 64.

Lemma exec_event s w :
  (∃ t, clock w ≤ t ∧ exec s w = mkWorld (nodes w) t) ∨
  ∃ i input c, 0 ≤ i < n ∧ by_moves input (now w i) (nodes w i) c ∧ exec s w = put_node w i c ∧
    (∀ m, input = Some m → ∃ from raw, 0 ≤ from < n ∧ sends (out (nodes w from)) i raw ∧ on_wire raw = Some m).
Proof.
  assert (∃ t, clock w ≤ t ∧ w = mkWorld (nodes w) t) as Hw by (exists (clock w); split; [lia|by destruct w]).
  destruct s as [d|i e a|i e from k]; cbn; unfold is_replica.
  - left. exists (clock w + Z.of_N d). split; [lia|done].
  - destruct (_ && _) eqn:Ei; [|by left].
    pose proof (act_moves e a (now w i) (nodes w i)) as Hm. destruct (act _ _ _ _) as [c| |]; cbn; [|by left|done]. right.
    exists i, None, c. split_and!; [lia|lia|done|done|done].
  - destruct (_ && _) eqn:Ei; [|by left]. destruct (packet w from k i) as [m|] eqn:Ep; [|by left].
    pose proof (receive_moves sm_terminates e (Some m) (now w i) m (nodes w i) eq_refl) as Hm.
    destruct (receive _ _ _ _) as [c| |]; cbn; [|by left|done]. right.
    exists i, (Some m), c. split_and!; [lia|lia|done|done|]. intros m' [= <-].
    unfold packet in Ep. apply bind_Some in Ep as (ev & Hev & (raw & Hraw & Hon)%bind_Some).
    exists from, raw. split; [lia|]. split; [|done]. exists ev. split; [by eapply list_elem_of_lookup_2|done].
Qed.

Lemma exec_short s w : short (exec s w) → short w.
Proof.
  destruct (exec_event s w) as [(t & _ & ->)|(i & input & c & Hi & (l & El & _) & -> & _)]; intros Hs j Hj; [by apply Hs|].
  specialize (Hs j Hj). cbn in Hs. destruct (decide (j = i)) as [->|Hne]; [|by rewrite fn_lookup_insert_ne in Hs].
  rewrite fn_lookup_insert, El, length_app in Hs. lia.
Qed.
Lemma run_short ss : ∀ w, short (run ss w) → short w.
Proof. induction ss as [|s ss IH]; intros w Hs; [done|]. eapply exec_short, IH, Hs. Qed.

Lemma bodega_exec_ok s w : world_ok w → short (exec s w) → world_ok (exec s w).
Proof.
  destruct (exec_event s w) as [(t & Ht & ->)|(i & input & c & Hi & Hm & -> & Hin)]; intros Hw Hs.
  - destruct Hw as [K1 K2]. split; [exact K1|]. intros g h Hg Hh Hne. by eapply (pair_later n), K2.
  - eapply world_event; try done. specialize (Hs i Hi). cbn in Hs. by rewrite fn_lookup_insert in Hs.
Qed.
Lemma bodega_run_ok ss : ∀ w, world_ok w → short (run ss w) → world_ok (run ss w).
Proof.
  induction ss as [|s ss IH]; intros w Hw Hs; [done|]. apply IH; [|exact Hs]. apply bodega_exec_ok; [done|]. eapply run_short, Hs.
Qed.
Lemma bodega_start_ok : 0 ≤ n → world_ok start.
Proof.
  intros Hn. split; cbn.
  - intros i Hi. split; cbn; try done; [by rewrite length_replicate|lia|by intros to m []%sends_nil].
  - intros g h Hg Hh Hne. split; cbn; try done; by intros m []%sends_nil.
Qed.

(** *** The quorum behind a stable replica *)
Definition in_roster_of (w : world) (h p : Z) : Prop :=
  0 ≤ p < n ∧ RBallot (current (nodes w p)) = RBallot (current (nodes w h)) ∧ threshold (nodes w p) ≤ prefix (nodes w h).

Lemma granted_in_roster w h t p :
  world_ok w → 0 ≤ h < n → now w h ≤ t → p ∈ granted t (nodes w h) → p ≠ h ∧ in_roster_of w h p.
Proof.
  intros [K1 K2] Hh Ht Hp. destruct (K1 h Hh) as [(V1 & _) _ _ _ V5 _]. cbn in V1, V5.
  unfold granted in Hp. apply list_elem_of_filter in Hp as [Hne Hp]. rewrite V1 in Hne.
  apply list_elem_of_fmap in Hp as ([p' x] & -> & [Hx [Hu Hth]]%elem_of_map_to_list%map_lookup_filter_Some). cbn in *.
  pose proof (V5 _ _ Hx) as Hpn. split; [done|]. split; [done|].
  destruct (po_grant _ _ _ _ _ _ _ _ _ _ (K2 p' h Hpn Hh Hne) x Hx) as (_ & _ & [(B1 & B2 & _)|?]); [|unfold now in Ht; lia].
  cbn in B1, B2. split; [done|lia].
Qed.

Lemma stable_in_roster w h e :
  world_ok w → 0 ≤ h < n → now w h ≤ reading e (reads (nodes w h)) → (stable e (nodes w h)).1 = true →
  ∃ Q, NoDup Q ∧ Z.quot n 2 + 1 ≤ Z.of_nat (length Q) ∧ ∀ p, p ∈ Q → in_roster_of w h p.
Proof.
  intros Hw Hh Ht Hs. set (t := reading e (reads (nodes w h))) in *.
  destruct (wk_nodes _ Hw h Hh) as [(_ & _ & V3 & _) _ _ _ _ _]. cbn in V3.
  set (own := if threshold (nodes w h) <=? prefix (nodes w h) then [h] else []).
  exists (own ++ granted t (nodes w h)). split_and!.
  - apply NoDup_app. split_and!.
    + unfold own. destruct (_ <=? _); [apply NoDup_singleton|apply NoDup_nil_2].
    + intros p Hp Hg. destruct (granted_in_roster w h t p Hw Hh Ht Hg) as [Hne _]. unfold own in Hp. destruct (_ <=? _); set_solver.
    + apply NoDup_filter, NoDup_fst_map_to_list.
  - unfold stable in Hs. cbv zeta in Hs. destruct (negb _); [done|]. cbn in Hs. apply Z.leb_le in Hs.
    rewrite length_app, <- V3. unfold own. change (granted _ _) with (granted t (nodes w h)) in Hs.
    destruct (_ <=? _); cbn [length]; lia.
  - intros p [Hp|Hp]%elem_of_app; [|by eapply granted_in_roster]. unfold own in Hp. destruct (_ <=? _) eqn:E; [|set_solver].
    apply list_elem_of_singleton in Hp as ->. split_and!; [lia|lia|done|lia].
Qed.

(** Two majorities meet. *)
Lemma majorities_meet (Q1 Q2 : list Z) :
  0 ≤ n → NoDup Q1 → NoDup Q2 → (∀ p, p ∈ Q1 ++ Q2 → 0 ≤ p < n) → n < Z.of_nat (length Q1 + length Q2) → ∃ p, p ∈ Q1 ∧ p ∈ Q2.
Proof.
  intros Hn H1 H2 Hr Hlen. destruct (decide (Exists (λ p, p ∈ Q2) Q1)) as [Hex|Hno]; [by apply Exists_exists in Hex|].
  exfalso. assert (NoDup (Q1 ++ Q2)) as Hnd.
  { apply NoDup_app. split_and!; [done| |done]. intros p Hp Hp'. apply Hno, Exists_exists. eauto. }
  assert (Q1 ++ Q2 ⊆ rangeZ 0 (n - 1)) as Hsub by (intros p Hp; apply elem_of_rangeZ; specialize (Hr p Hp); lia).
  apply (NoDup_submseteq _ _ Hnd), submseteq_length in Hsub. unfold rangeZ in Hsub. rewrite length_app, length_seqZ in Hsub. lia.
Qed.

(** C18.  While a replica is stable, a majority of the replicas are in its roster:
    their current roster has its ballot, and it has executed every slot that they
    had accepted when they installed it.  In any run of any length, whatever the
    clock skews, the network and the rest of the protocol do; a replica that has
    crashed takes no more events. *)
Theorem stable_quorum ss h e :
  let w := run ss start in
  short w → is_replica h = true → now w h ≤ reading e (reads (nodes w h)) → (stable e (nodes w h)).1 = true →
  ∃ Q, NoDup Q ∧ Z.quot n 2 + 1 ≤ Z.of_nat (length Q) ∧ ∀ p, p ∈ Q → in_roster_of w h p.
Proof.
  intros w Hw Hh. unfold is_replica in Hh. apply stable_in_roster; [|lia]. apply bodega_run_ok; [apply bodega_start_ok; lia|done].
Qed.

(** C17.  Two replicas are not stable in rosters of different ballots at one time:
    when both may read locally, they are in the same roster. *)
Theorem stable_rosters_agree ss g h e e' :
  let w := run ss start in
  short w → is_replica g = true → is_replica h = true →
  now w g ≤ reading e (reads (nodes w g)) → now w h ≤ reading e' (reads (nodes w h)) →
  (stable e (nodes w g)).1 = true → (stable e' (nodes w h)).1 = true →
  RBallot (current (nodes w g)) = RBallot (current (nodes w h)).
Proof.
  intros w Hw Hg Hh Tg Th Sg Sh. unfold is_replica in *.
  assert (world_ok w) as Hok by (apply bodega_run_ok; [apply bodega_start_ok; lia|done]). clearbody w.
  destruct (stable_in_roster w g e Hok) as (Q1 & N1 & L1 & R1); [lia|done|done|].
  destruct (stable_in_roster w h e' Hok) as (Q2 & N2 & L2 & R2); [lia|done|done|].
  destruct (majorities_meet Q1 Q2) as (p & H1 & H2); try done; [lia| | |].
  - intros p [Hp|Hp]%elem_of_app; [by apply R1|by apply R2].
  - pose proof (Z.quot_rem n 2 ltac:(done)). pose proof (Z.rem_bound_pos n 2). lia.
  - destruct (R1 p H1) as (_ & <- & _). by destruct (R2 p H2) as (_ & -> & _).
Qed.
End Cluster.

(** ** A run in which two replicas are stable: the roster is proposed, installed
    and prepared, and replica 2 grants leases to 0 and 1, whose clock is ahead. *)
Section Demo.
#[local] Existing Instance demo_machine.
Definition demo_options : options := mkOptions 2500 100 120 1200 1200 7 [].
Definition demo_skew (i : Z) : Z := if i =? 1 then 3600000 else 0.
Definition env_at (t : Z) : env := mkEnv (λ _, t) (λ _, 0) (λ _, true) (λ _, 0) (λ _, true) [] [] [] (λ _, []).
Definition demo_steps : list step :=
  let e := env_at 0 in [
  Event 0 e Activate; Event 1 e Activate; Event 2 e Activate; Event 0 e (ProposeRoster 0 7);
  Advance 10; Deliver 1 e 0 1; Deliver 2 e 0 1; Deliver 1 e 0 0; Deliver 0 e 1 0;
  Advance 110; Event 0 e Timer; Event 1 e Timer;
  Advance 10; Deliver 2 e 0 3; Deliver 2 e 1 2; Advance 10; Deliver 0 e 2 0; Deliver 1 e 2 1].
Local Abbreviation demo_world := (run 3 demo_skew demo_steps (start 3 demo_options)).

Lemma demo_short : short 3 demo_world.
Proof.
  intros i Hi. assert (∀ j, j ∈ [0; 1; 2] → (length (out (nodes demo_world j)) <=? 10)%nat = true) as H.
  { intros j Hj. repeat (apply elem_of_cons in Hj as [->|Hj]; [vm_compute; reflexivity|]). by apply elem_of_nil in Hj. }
  assert (i ∈ [0; 1; 2]) as Hin by (rewrite !elem_of_cons; lia). specialize (H i Hin). apply Nat.leb_le in H. lia.
Qed.
Lemma reading_at t k : reading (env_at t) k = t.
Proof. reflexivity. Qed.
Lemma demo_stable i : i = 0 ∨ i = 1 →
  let e := env_at (now demo_skew demo_world i) in
  now demo_skew demo_world i ≤ reading e (reads (nodes demo_world i)) ∧ (stable e (nodes demo_world i)).1 = true.
Proof. intros [-> | ->] e; (split; [unfold e; rewrite reading_at; apply Z.le_refl|vm_compute; reflexivity]). Qed.

Lemma stable_quorum_witness :
  (stable (env_at (now demo_skew demo_world 1)) (nodes demo_world 1)).1 = true ∧
  ∃ Q, NoDup Q ∧ Z.quot 3 2 + 1 ≤ Z.of_nat (length Q) ∧ ∀ p, p ∈ Q → in_roster_of 3 demo_world 1 p.
Proof.
  destruct (demo_stable 1 (or_intror eq_refl)) as [Ht Hs]. split; [exact Hs|].
  refine (stable_quorum 3 demo_options demo_skew demo_terminates _ demo_steps 1 _ demo_short _ Ht Hs); [discriminate|reflexivity].
Defined.

Lemma stable_rosters_agree_witness :
  (stable (env_at (now demo_skew demo_world 0)) (nodes demo_world 0)).1 = true ∧
  (stable (env_at (now demo_skew demo_world 1)) (nodes demo_world 1)).1 = true ∧
  RBallot (current (nodes demo_world 0)) = RBallot (current (nodes demo_world 1)).
Proof.
  destruct (demo_stable 0 (or_introl eq_refl)) as [Ht Hs], (demo_stable 1 (or_intror eq_refl)) as [Ht' Hs'].
  split; [exact Hs|]. split; [exact Hs'|].
  refine (stable_rosters_agree 3 demo_options demo_skew demo_terminates _ demo_steps 0 1 _ _ demo_short _ _ Ht Ht' Hs Hs'); [discriminate|reflexivity|reflexivity].
Defined.
End Demo.
End BodegaLease.
