(* ===== verification/BodegaCompact.v ===== *)
(** * BodegaCompact: log entries are deleted when every replica has executed them

    A replica forgets the slots up to the least prefix it has heard of
    ([compactLog]).  [compaction_safe]: in any run of the cluster of
    [BodegaLease], a slot in a replica's log stays there as long as some replica
    has not executed it, so a new leader's recovery, which starts above its own
    prefix, misses nothing.  [compactLog_exact]: the slots it forgets are exactly
    those up to the new mark, and the rest of the log is left as it is. *)
From stdpp Require Import gmap strings list fin_maps functions sorting.
From Stdlib Require Import Lia.
From S2P Require Import Prelude State ReplicaSet Defs Bodega BodegaCore BodegaMoves BodegaLease.

Module BodegaCompact.
Import Bodega BodegaCore BodegaMoves BodegaLease.

Lemma on_wire_heartbeat raw m : on_wire raw = Some m → heartbeat_kind (Kind m) = true →
  heartbeat_kind (Kind raw) = true ∧ From raw = From m ∧ Prefix raw = Prefix m.
Proof.
  unfold on_wire. destruct (wireFields raw) as [p| |] eqn:Ew; [|done|done]. set (p' := p <| MEntry ::= _ |> <| Entries ::= _ |>).
  assert (Kind p' = Kind p ∧ From p' = From p ∧ Prefix p' = Prefix p) as (P1 & P2 & P3) by done.
  clearbody p'. intros Hv Hk.
  assert (Kind m = Kind p' ∧ From m = From p' ∧ Prefix m = Prefix p') as (Q1 & Q2 & Q3).
  { clear -Hv. unfold validateProtoMessage in Hv. repeat case_match; try done; injection Hv as <-; done. }
  assert (Kind p = Kind raw) as Hpk.
  { clear -Ew. unfold wireFields in Ew. cbv zeta in Ew. repeat (case_match; [injection Ew as <-; done|]). done. }
  rewrite Q1, P1, Hpk in Hk. rewrite Q2, Q3, P2, P3. split; [done|].
  unfold heartbeat_kind in Hk. apply orb_prop in Hk as [Hk|Hk]; apply Z.eqb_eq in Hk; unfold wireFields in Ew; rewrite Hk in Ew;
    cbn in Ew; injection Ew as <-; done.
Qed.

Section Compact.
Context `{SM : StateMachine} (n : Z) (o : options) (skew : Z → Z).
Hypothesis sm_terminates : ∀ cmd s, sm_execute cmd s ≠ OutOfFuel.

(** ** The slots one call deletes *)
Definition forgotten (lo hi s : Z) : bool := (lo <? s) && (s <=? hi).

(** [compactLog] deletes the slots above the old mark up to the new one and no
    other; the new mark is at most what the replica has executed and what it has
    heard that the others have executed. *)
Theorem compactLog_exact (c : core) s :
  log (compactLog c) !! s = (if forgotten (compacted c) (compacted (compactLog c)) s then None else log c !! s) ∧
  (compacted (compactLog c) ≠ compacted c →
     compacted (compactLog c) ≤ prefix c ∧ ∀ p, 0 ≤ p < cn c → p ≠ cid c → compacted (compactLog c) ≤ num_at (progress c) p).
Proof.
  assert (∀ x, forgotten x x s = false) as Hsame by (intros x; unfold forgotten; destruct (x <? s) eqn:E; cbn; lia).
  unfold compactLog. destruct (negb _); [by rewrite Hsame|]. cbv zeta.
  destruct (compact_through_le c) as [H1 H2]. set (through := foldl _ (prefix c) (peers c)) in *.
  destruct (_ || _); [by rewrite Hsame|]. cbn. split; [|by intros _; split; [|intros; apply H2; [apply elem_of_rangeZ; lia|]]].
  destruct (forget_slots_view (rangeZ (compacted c + 1) through) c) as (_ & _ & ->). rewrite lookup_foldr_delete. unfold forgotten. case_decide as Hin; rewrite elem_of_rangeZ in Hin.
  - rewrite (proj2 (Z.ltb_lt _ _)), (proj2 (Z.leb_le _ _)) by lia. done.
  - destruct (Z.ltb_spec (compacted c) s), (Z.leb_spec s through); cbn; try done. lia.
Qed.

(** ** The cluster *)

(** Replica [i], when the others have executed the prefixes [P] and it once had
    the slots [L] in its log. *)
Record good (i : Z) (P : Z → Z) (L : gset Z) (tr : list event) (v : lview) : Prop := mkGood {
  gd_fixed : vid v = i ∧ vn v = n;
  gd_prefix : 0 ≤ vprefix v ∧ vcompacted v ≤ vprefix v;
  gd_length : length (vprogress v) = Z.to_nat n;
  gd_heard : ∀ j, 0 ≤ j < n → j ≠ i → num_at (vprogress v) j ≤ P j ∧ vcompacted v ≤ P j;
  gd_kept : ∀ s, s ∈ L → s ∈ vlog v ∨ s ≤ vprefix v ∧ ∀ j, 0 ≤ j < n → j ≠ i → s ≤ P j;
  gd_sent : ∀ to m, sends tr to m → heartbeat_kind (Kind m) = true → From m = i ∧ Prefix m ≤ vprefix v }.

Lemma good_more i P P' L tr v : (∀ j, P j ≤ P' j) → good i P L tr v → good i P' L tr v.
Proof.
  intros HP [G1 G2 G3 G4 G5 G6]. split; try done.
  - intros j Hj Hne. destruct (G4 j Hj Hne). specialize (HP j). lia.
  - intros s Hs. destruct (G5 s Hs) as [?|[? Hall]]; [by left|right]. split; [done|]. intros j Hj Hne. specialize (Hall j Hj Hne). specialize (HP j). lia.
Qed.

(** A move that neither heartbeats nor hears one. *)
Lemma good_quiet i P L tr l v v' :
  good i P L tr v → vid v' = vid v → vn v' = vn v → vprefix v ≤ vprefix v' → vprogress v' = vprogress v → vcompacted v' = vcompacted v →
  vlog v ⊆ vlog v' → (∀ to m, sends l to m → heartbeat_kind (Kind m) = false) → good i P L (tr ++ l) v'.
Proof.
  intros [[G0 G1] G2 G3 G4 G5 G6] E1 E2 E3 E4 E5 E6 Hl. split; rewrite ?E1, ?E2, ?E4, ?E5; try done; [lia| |].
  - intros s Hs. destruct (G5 s Hs) as [?|[? ?]]; [left; set_solver|right; split; [lia|done]].
  - intros to m [Hm|Hm]%sends_app Hk; [destruct (G6 to m Hm Hk); split; [done|lia]|]. apply Hl in Hm. congruence.
Qed.

Lemma stamped_quiet v k msg to ok : heartbeat_kind k = false → stamped v k msg →
  ∀ to' m, sends [Sent to msg ok] to' m → heartbeat_kind (Kind m) = false.
Proof. intros Hk (E & _) to' m [_ ->]%sent_one. by rewrite E. Qed.

Lemma good_move i P L tr input now v l v' :
  good i P L tr v → (∀ m, input = Some m → heartbeat_kind (Kind m) = true → From m ≠ i → Prefix m ≤ P (From m)) →
  move input now v l v' → good i P L (tr ++ l) v' ∧ vprefix v ≤ vprefix v'.
Proof.
  intros HG Hin Hmove. assert (∀ to m, sends [] to m → heartbeat_kind (Kind m) = false) as Hnil by by intros to m []%sends_nil.
  destruct Hmove as [v l k X Hq Hk HX|v ev msg Hev Hk Hf Hp|v hb E Hk H0|v k X Hk Hp HX|v r Hr|v t Hp Hu|v to msg ok Hs Hp Hsq
    |v msg drops s Ha Hs Hsq|v req msg ok E Hk Ha Hs Hsq Ht|v rep u E Hk Ha Hb Hu Hr H0 H1|v req msg ok b E Hk Hs Hsq H0 Hb|v ack E Hk Hp Hsq].
  - split; [|done]. apply (good_quiet _ _ _ _ _ v); try done. intros to m Hm. by apply (sends_quiet _ _ _ Hq) in Hm as [_ ?].
  - split; [|lia]. destruct HG as [[G0 G1] G2 G3 G4 G5 G6]. split; try done. intros to m [Hm|Hm]%sends_app Hkm; [by eapply G6|].
    apply (sent_heartbeat _ _ _ _ Hev) in Hm as ->. split; [congruence|]. destruct Hp; lia.
  - split; [|done]. rewrite app_nil_r. destruct HG as [[G0 G1] G2 G3 G4 G5 G6]. rewrite G1 in H0. split; try done; cbn.
    + unfold put. by rewrite length_insert.
    + intros j Hj Hne. destruct (G4 j Hj Hne) as [Ha Hb]. split; [|done]. rewrite num_at_put by lia. case_decide as Ej; [|done].
      subst j. specialize (Hin hb E Hk Hne). lia.
  - split; [|done]. rewrite app_nil_r. destruct HG as [[G0 G1] G2 G3 G4 G5 G6]. rewrite G0, G1 in Hp.
    assert (∀ j, 0 ≤ j < n → j ≠ i → k ≤ P j) as Hpast by (intros j Hj Hne; destruct (G4 j Hj Hne); specialize (Hp j Hj Hne); lia).
    split; try done; cbn; [lia|intros j Hj Hne; destruct (G4 j Hj Hne); split; [done|by apply Hpast]|].
    intros s Hs. destruct (G5 s Hs) as [Hv|?]; [|by right]. destruct (decide (s ∈ X)) as [|Hn]; [by left|right]. specialize (HX s Hv Hn).
    split; [lia|]. intros j Hj Hne. specialize (Hpast j Hj Hne). lia.
  - split; [|done]. by apply (good_quiet _ _ _ _ _ v).
  - split; [|done]. by apply (good_quiet _ _ _ _ _ v).
  - split; [|done]. apply (good_quiet _ _ _ _ _ v); try done. by eapply stamped_quiet; [|exact Hs].
  - split; [|done]. apply (good_quiet _ _ _ _ _ v); try done. intros to m Hm%one_event. injection Hm as <-. by destruct Hs as [-> _].
  - split; [|done]. apply (good_quiet _ _ _ _ _ v); try done. by eapply stamped_quiet; [|exact Hs].
  - split; [|done]. by apply (good_quiet _ _ _ _ _ v).
  - split; [|done]. apply (good_quiet _ _ _ _ _ v); try done. by eapply stamped_quiet; [|exact Hs].
  - split; [|done]. by apply (good_quiet _ _ _ _ _ v).
Qed.
Lemma good_moves i P L input now v l v' : moves input now v l v' → ∀ tr,
  good i P L tr v → (∀ m, input = Some m → heartbeat_kind (Kind m) = true → From m ≠ i → Prefix m ≤ P (From m)) →
  good i P L (tr ++ l) v' ∧ vprefix v ≤ vprefix v'.
Proof.
  induction 1 as [v|v l v1 l' v' Hm _ IH]; intros tr HG Hin; [by rewrite app_nil_r|].
  destruct (good_move _ _ _ _ _ _ _ _ _ HG Hin Hm) as [HG1 Hle]. rewrite app_assoc. destruct (IH _ HG1 Hin). split; [done|lia].
Qed.

Definition all_good (L : Z → gset Z) (w : world) : Prop :=
  ∀ i, 0 ≤ i < n → good i (λ j, prefix (nodes w j)) (L i) (out (nodes w i)) (lview_of (nodes w i)).

Lemma exec_good L s w : all_good L w → all_good L (exec n skew s w).
Proof.
  intros Hw. destruct (exec_event n skew sm_terminates s w) as [(t & _ & ->)|(i & input & c & Hi & (l & El & Hm) & -> & Hin)]; [exact Hw|].
  destruct (good_moves i (λ j, prefix (nodes w j)) (L i) _ _ _ _ _ Hm _ (Hw i Hi)) as [HG Hle].
  { intros m Em Hk Hne. destruct (Hin m Em) as (from & raw & Hr & Hs & Hwire). destruct (on_wire_heartbeat _ _ Hwire Hk) as (Hk' & Hf & Hp).
    destruct (gd_sent _ _ _ _ _ (Hw from Hr) i raw Hs Hk') as [Hfrom Hpre]. cbn in Hpre. by rewrite <- Hp, <- Hf, Hfrom. }
  cbn in Hle. intros j Hj. cbn. apply (good_more _ (λ j, prefix (nodes w j))).
  - intros k. destruct (decide (k = i)) as [->|]; [by rewrite fn_lookup_insert|by rewrite fn_lookup_insert_ne].
  - destruct (decide (j = i)) as [->|]; [by rewrite fn_lookup_insert, El|rewrite fn_lookup_insert_ne by done; by apply Hw].
Qed.
Lemma run_good L ss : ∀ w, all_good L w → all_good L (run n skew ss w).
Proof. induction ss as [|s ss IH]; intros w Hw; [done|]. apply IH. by apply exec_good. Qed.
Lemma start_good : all_good (λ _, ∅) (start n o).
Proof.
  intros i Hi. split; cbn; try done; [by rewrite length_replicate| |by intros to m []%sends_nil].
  intros j Hj _. split; [|lia]. unfold num_at, index. destruct (_ <? _); [done|]. destruct (replicate _ 0 !! _) eqn:E; [|done].
  by apply lookup_replicate in E as [-> _].
Qed.
(** What is in the logs now is to be kept. *)
Lemma good_now L w : all_good L w → all_good (λ i, dom (log (nodes w i))) w.
Proof. intros Hw i Hi. destruct (Hw i Hi) as [G1 G2 G3 G4 _ G6]. split; try done. intros s Hs. by left. Qed.

(** C19.  Garbage collection is safe: in any run, with messages delayed, repeated,
    reordered and lost, and whatever rosters are installed, a slot that a replica
    has in its log it still has at any later time at which some replica has not
    executed the slot; and the mark up to which it has compacted its log is at
    most what every replica has executed. *)
Theorem compaction_safe ss ss' i j :
  let w := run n skew ss (start n o) in
  let w' := run n skew ss' w in
  is_replica n i = true → is_replica n j = true →
  compacted (nodes w' i) ≤ prefix (nodes w' j) ∧
  ∀ s, is_Some (log (nodes w i) !! s) → prefix (nodes w' j) < s → is_Some (log (nodes w' i) !! s).
Proof.
  intros w w'. unfold is_replica. intros Hi Hj. assert (0 ≤ i < n ∧ 0 ≤ j < n) as [Hi' Hj'] by lia.
  pose proof (run_good _ ss' w (good_now _ _ (run_good _ ss _ start_good)) i Hi') as [_ [_ G2] _ G4 G5 _]. fold w' in G2, G4, G5. cbn in G2, G4, G5.
  split.
  - destruct (decide (j = i)) as [->|Hne]; [done|]. by apply (G4 j).
  - intros s Hs Hlt. apply elem_of_dom. apply elem_of_dom in Hs. destruct (G5 s Hs) as [?|[Hp Hall]]; [done|].
    destruct (decide (j = i)) as [->|Hne]; [lia|]. specialize (Hall j Hj' Hne). lia.
Qed.
End Compact.

(** After the run of [BodegaLease] in which the leases are granted, replica 0
    leads a write; then 0 and 1 execute it, and their timers compact their logs,
    while replica 2 has accepted but not executed it. *)
Section Demo.
#[local] Existing Instance demo_machine.
Definition demo_write : Request := mkRequest (mkPropose 1 1 (mkCommand PUT 7 [42]) 0) 0.
Definition demo_first : list step := demo_steps ++ [Event 0 (env_at 0) (Submit demo_write); Event 0 (env_at 0) BatchTimer].
Definition demo_then : list step := let e := env_at 0 in [
  Deliver 1 e 0 4; Deliver 2 e 0 4; Deliver 0 e 1 3; Deliver 0 e 2 2; Advance 120; Event 0 e Timer; Event 1 e Timer;
  Deliver 1 e 0 6; Advance 120; Event 0 e Timer; Event 1 e Timer].
Local Abbreviation first_world := (run 3 demo_skew demo_first (start 3 demo_options)).
Local Abbreviation then_world := (run 3 demo_skew demo_then first_world).

Lemma compaction_safe_witness :
  (prefix (nodes then_world 0) = 1 ∧ prefix (nodes then_world 1) = 1 ∧ prefix (nodes then_world 2) < 1) ∧
  is_Some (log (nodes first_world 0) !! 1) ∧ is_Some (log (nodes then_world 0) !! 1).
Proof.
  assert (bool_decide (is_Some (log (nodes first_world 0) !! 1)) = true) as Hs by (vm_compute; reflexivity).
  apply bool_decide_eq_true in Hs.
  assert (prefix (nodes then_world 0) = 1 ∧ prefix (nodes then_world 1) = 1 ∧ prefix (nodes then_world 2) = 0) as (H0 & H1 & H2)
    by (vm_compute; repeat split).
  split; [split; [exact H0|split; [exact H1|rewrite H2; reflexivity]]|]. split; [exact Hs|].
  refine (proj2 (compaction_safe 3 demo_options demo_skew demo_terminates demo_first demo_then 0 2 _ _) 1 Hs _); [reflexivity..|].
  rewrite H2. reflexivity.
Defined.
End Demo.
End BodegaCompact.
