(* ===== verification/KcensusSeq.v ===== *)
(** * KcensusSeq: sets of completed requests ([kcensus/lifecycle.go])

    KCensus remembers the completed requests of a client as a floor, below which
    every sequence number is complete, and a list of ranges above it.

    [sequences_exact]: after any additions, in any order, [contains] answers
    membership in their union and [countThrough] its size up to a number.
    [sequences_canonical]: the representation depends on the set only, not on
    the order or the shape of the additions, so replicas and checkpoints that
    merge the same completions hold equal structures. *)
From stdpp Require Import gmap list sorting.
From Stdlib Require Import Lia.
From S2P Require Import Prelude.

Module KcensusSeq.

(** ** Definitions *)
Record sequenceRange := mkRange { first : Z; last : Z }.
Record completedSequences := mkSeqs { floor : Z; prefixCount : Z; ranges : list sequenceRange }.

(** [&completedSequences{floor: -1}] *)
Definition newSequences : completedSequences := mkSeqs (-1) 0 [].

Definition at_ (rs : list sequenceRange) (i : Z) : sequenceRange := default (mkRange 0 0) (index rs i).
Definition len (rs : list sequenceRange) : Z := Z.of_nat (length rs).

Definition contains (s : completedSequences) (seq : Z) : bool :=
  if seq <=? floor s then true else
  let i := Search (length (ranges s)) (λ i, seq <=? last (at_ (ranges s) i)) in
  (i <? len (ranges s)) && (first (at_ (ranges s) i) <=? seq).

Fixpoint count_loop (count seq : Z) (rs : list sequenceRange) : Z :=
  match rs with
  | [] => count
  | r :: rs =>
      if seq <? first r then count else
      let last_ := if seq <? last r then seq else last r in
      count_loop (u64 (count + u64 (last_ - first r + 1))) seq rs
  end.
Definition countThrough (s : completedSequences) (seq : Z) : Z := count_loop (prefixCount s) seq (ranges s).

Fixpoint advance_loop (floor count : Z) (rs : list sequenceRange) : completedSequences :=
  match rs with
  | r :: rest =>
      if first r <=? floor + 1 then
        if floor <? last r then
          let start := if first r <=? floor then floor + 1 else first r in
          advance_loop (last r) (u64 (count + u64 (last r - start + 1))) rest
        else advance_loop floor count rest
      else mkSeqs floor count rs
  | [] => mkSeqs floor count []
  end.
Definition advance (f : Z) (s : completedSequences) : completedSequences :=
  let f := if f <? floor s then floor s else f in
  advance_loop f (countThrough s f) (ranges s).

(** The second loop of [addRange]: [r] is the range at [i], [rest] those after. *)
Fixpoint absorb (r : sequenceRange) (rest : list sequenceRange) : list sequenceRange :=
  match rest with
  | r' :: rest' =>
      if first r' <=? last r + 1
      then absorb (mkRange (first r) (if last r <? last r' then last r' else last r)) rest'
      else r :: rest
  | [] => [r]
  end.

Definition addRange (first_ last_ : Z) (s : completedSequences) : completedSequences :=
  if last_ <=? floor s then s else
  let first_ := if first_ <=? floor s then i32 (floor s + 1) else first_ in
  let rs := ranges s in
  let i := Search (length rs) (λ i, first_ <=? last (at_ rs i) + 1) in
  let k := Z.to_nat i in
  let rs := if (i =? len rs) || (last_ + 1 <? first (at_ rs i))
            then take k rs ++ absorb (mkRange first_ last_) (drop k rs)
            else let r := at_ rs i in
                 take k rs ++ absorb (mkRange (if first_ <? first r then first_ else first r)
                                              (if last r <? last_ then last_ else last r)) (drop (S k) rs) in
  advance (floor s) (mkSeqs (floor s) (prefixCount s) rs).
Definition add (seq : Z) : completedSequences → completedSequences := addRange seq seq.

(** ** The representation *)

(** Ranges above [f], in order and not adjacent. *)
Fixpoint apart (f : Z) (rs : list sequenceRange) : Prop :=
  match rs with
  | [] => True
  | r :: rs => f + 1 < first r ∧ first r ≤ last r < 2 ^ 31 ∧ apart (last r) rs
  end.
Record wf (s : completedSequences) : Prop := mkWf {
  wf_floor : -1 ≤ floor s < 2 ^ 31; wf_count : prefixCount s = floor s + 1; wf_ranges : apart (floor s) (ranges s) }.

Definition inside (q : Z) (r : sequenceRange) : Prop := first r ≤ q ≤ last r.
Definition covered (rs : list sequenceRange) (q : Z) : Prop := Exists (inside q) rs.
Definition member (s : completedSequences) (q : Z) : Prop := q ≤ floor s ∨ covered (ranges s) q.

(** The end of the last range. *)
Definition end_of (f : Z) (rs : list sequenceRange) : Z := foldl (λ _ r, last r) f rs.

Lemma apart_app f l1 l2 : apart f (l1 ++ l2) ↔ apart f l1 ∧ apart (end_of f l1) l2.
Proof. revert f. induction l1 as [|r l1 IH]; intros f; [cbn; tauto|]. cbn. rewrite IH. unfold end_of. cbn. tauto. Qed.

Lemma apart_weaken f g rs : g ≤ f → apart f rs → apart g rs.
Proof. destruct rs as [|r rs]; [done|]. cbn. intros ? (? & ? & ?). split_and!; [lia|lia|lia|done]. Qed.

Lemma apart_elem f rs r : apart f rs → r ∈ rs → f + 1 < first r ∧ first r ≤ last r < 2 ^ 31.
Proof.
  revert f. induction rs as [|r' rs IH]; intros f; [by intros _ ?%elem_of_nil|]. cbn. intros (? & ? & Ha) [->|Hr]%elem_of_cons; [lia|].
  specialize (IH _ Ha Hr). lia.
Qed.

Lemma apart_lookup f rs i j ri rj : apart f rs → rs !! i = Some ri → rs !! j = Some rj → (i < j)%nat → last ri + 1 < first rj.
Proof.
  revert f i j. induction rs as [|r rs IH]; intros f i j Ha Hi Hj Hlt; [done|]. destruct Ha as (? & ? & Ha).
  destruct j as [|j]; [lia|]. cbn in Hj. destruct i as [|i]; cbn in Hi.
  - injection Hi as <-. apply list_elem_of_lookup_2 in Hj. by apply (apart_elem _ _ _ Ha).
  - apply (IH (last r) i j); [done..|lia].
Qed.

Lemma covered_app l1 l2 q : covered (l1 ++ l2) q ↔ covered l1 q ∨ covered l2 q.
Proof. apply Exists_app. Qed.
Lemma covered_cons r l q : covered (r :: l) q ↔ inside q r ∨ covered l q.
Proof. apply Exists_cons. Qed.
Lemma covered_above f rs q : apart f rs → covered rs q → f + 1 < q.
Proof. intros Ha (r & Hr & Hin)%Exists_exists. destruct (apart_elem _ _ _ Ha Hr). unfold inside in Hin. lia. Qed.

(** ** Searching *)

(** [sort.Search] with a condition on the end of a range splits the list. *)
Lemma search_ranges f rs (p : Z → bool) :
  apart f rs → (∀ x y, x ≤ y → p x = true → p y = true) →
  ∃ l1 l2, rs = l1 ++ l2 ∧ Search (length rs) (λ i, p (last (at_ rs i))) = Z.of_nat (length l1) ∧
    (∀ r, r ∈ l1 → p (last r) = false) ∧ (∀ r, head l2 = Some r → p (last r) = true).
Proof.
  intros Ha Hp. set (g := λ i, p (last (at_ rs i))).
  assert (∀ (k : nat) r, rs !! k = Some r → g (Z.of_nat k) = p (last r)) as Hg.
  { intros k r Hk. unfold g, at_. by rewrite index_nat, Hk. }
  destruct (search_spec g (length rs) 0 (Z.of_nat (length rs))) as (S1 & S2 & S3); [lia|lia| |].
  { intros i j Hij Hj Hi. destruct (decide (i = j)) as [->|Hne]; [done|].
    destruct (lookup_lt_is_Some_2 rs (Z.to_nat i)) as [ri Hri]; [lia|]. destruct (lookup_lt_is_Some_2 rs (Z.to_nat j)) as [rj Hrj]; [lia|].
    pose proof (Hg _ _ Hri) as Ei. pose proof (Hg _ _ Hrj) as Ej. rewrite Z2Nat.id in Ei, Ej by lia. rewrite Ei in Hi. rewrite Ej.
    eapply Hp; [|exact Hi]. pose proof (apart_lookup _ _ _ _ _ _ Ha Hri Hrj ltac:(lia)).
    apply list_elem_of_lookup_2 in Hrj. destruct (apart_elem _ _ _ Ha Hrj). lia. }
  unfold Search. set (i := search _ g 0 _) in *. exists (take (Z.to_nat i) rs), (drop (Z.to_nat i) rs).
  split; [by rewrite take_drop|]. split; [rewrite length_take; lia|]. split.
  - intros r (k & Hk)%list_elem_of_lookup. apply lookup_take_Some in Hk as [Hk Hlt]. rewrite <- (Hg _ _ Hk). apply S2. lia.
  - intros r Hr. rewrite head_lookup, lookup_drop, Nat.add_0_r in Hr. rewrite <- (Hg _ _ Hr), Z2Nat.id by lia.
    apply S3. apply lookup_lt_Some in Hr. lia.
Qed.

Lemma at_split l1 l2 : at_ (l1 ++ l2) (Z.of_nat (length l1)) = default (mkRange 0 0) (head l2).
Proof. unfold at_. rewrite index_nat, lookup_app_r, Nat.sub_diag by lia. by destruct l2. Qed.

Lemma contains_spec s q : wf s → contains s q = true ↔ member s q.
Proof.
  intros Hwf. unfold contains, member. destruct (Z.leb_spec q (floor s)); [tauto|].
  destruct (search_ranges (floor s) (ranges s) (λ e, q <=? e)) as (l1 & l2 & E & -> & H1 & H2); [apply Hwf|lia|].
  pose proof (wf_ranges s Hwf) as Ha. rewrite E in *. rewrite at_split. unfold len. rewrite length_app.
  apply apart_app in Ha as [Ha1 Ha2]. rewrite covered_app.
  assert (¬ covered l1 q) as Hn1. { intros (r & Hr & Hin)%Exists_exists. specialize (H1 r Hr). unfold inside in Hin. lia. }
  destruct l2 as [|r l2]; cbn.
  - rewrite (proj2 (Z.ltb_ge _ _)) by lia. cbn. unfold covered at 2. rewrite Exists_nil. split; [done|]. intros [?|[?|[]]]; [lia|done].
  - rewrite (proj2 (Z.ltb_lt _ _)) by lia. cbn. rewrite covered_cons. specialize (H2 r eq_refl). destruct Ha2 as (? & ? & Ha2).
    unfold inside. split; [intros ?; right; right; left; lia|].
    intros [?|[?|[?|Hc%(covered_above _ _ _ Ha2)]]]; [lia|done|lia|lia].
Qed.

(** ** Additions *)
Lemma absorb_spec f g r rest :
  f + 1 < first r → first r ≤ last r < 2 ^ 31 → first r ≤ g + 2 → apart g rest →
  apart f (absorb r rest) ∧ ∀ q, covered (absorb r rest) q ↔ inside q r ∨ covered rest q.
Proof.
  revert g r. induction rest as [|r' rest IH]; intros g r Hf Hr Hg Ha; cbn [absorb].
  - split; [by cbn|]. intros q. by rewrite covered_cons.
  - destruct Ha as (? & ? & Ha). destruct (Z.leb_spec (first r') (last r + 1)).
    + set (e := if last r <? last r' then last r' else last r). assert (e = Z.max (last r) (last r')) as He by (unfold e; destruct (Z.ltb_spec (last r) (last r')); lia).
      destruct (IH (last r') (mkRange (first r) e)) as [I1 I2]; cbn; [lia|lia|lia|done|]. split; [done|]. intros q. rewrite I2, covered_cons.
      unfold inside. cbn. split; [intros [?|?]; [|tauto]; lia|]. intros [?|[?|?]]; [left; lia|left; lia|tauto].
    + split; [cbn; split_and!; [lia..|done]|]. intros q. by rewrite (covered_cons r).
Qed.

Lemma count_below count q rs f : apart f rs → q ≤ f + 1 → count_loop count q rs = count.
Proof. destruct rs as [|r rs]; [done|]. cbn. intros (? & _) ?. by rewrite (proj2 (Z.ltb_lt _ _)) by lia. Qed.

Lemma advance_spec f rs :
  -1 ≤ f < 2 ^ 31 → apart (f - 1) rs →
  let s := advance f (mkSeqs f (f + 1) rs) in wf s ∧ ∀ q, member s q ↔ q ≤ f ∨ covered rs q.
Proof.
  intros Hf Ha. unfold advance, countThrough. cbn [floor prefixCount ranges]. rewrite Z.ltb_irrefl.
  rewrite (count_below _ _ _ (f - 1)) by (done || lia). destruct rs as [|r rs]; cbn [advance_loop].
  - split; [by constructor|]. intros q. unfold member. by cbn.
  - destruct Ha as (? & ? & Ha). destruct (Z.leb_spec (first r) (f + 1)).
    + rewrite (proj2 (Z.ltb_lt f (last r))) by lia. rewrite (proj2 (Z.leb_gt (first r) f)) by lia.
      rewrite !(wrapU_id 64) by (rewrite ?(wrapU_id 64); lia).
      assert (advance_loop (last r) (f + 1 + (last r - first r + 1)) rs = mkSeqs (last r) (last r + 1) rs) as ->.
      { replace (f + 1 + (last r - first r + 1)) with (last r + 1) by lia. destruct rs as [|r' rs]; [done|]. cbn. destruct Ha as (? & _).
        by rewrite (proj2 (Z.leb_gt (first r') _)) by lia. }
      split; [constructor; cbn; [lia|done|done]|]. intros q. unfold member. cbn. rewrite covered_cons. unfold inside. split; [|intros [?|[?|?]]; [left; lia|left; lia|tauto]].
      intros [?|?]; [|tauto]. destruct (Z.le_gt_cases q f); [tauto|]. right. left. lia.
    + split; [|by intros q]. constructor; cbn; [lia|done|]. split_and!; [lia..|done].
Qed.

Lemma addRange_spec a b s :
  wf s → a ≤ b < 2 ^ 31 → wf (addRange a b s) ∧ ∀ q, member (addRange a b s) q ↔ member s q ∨ a ≤ q ≤ b.
Proof.
  intros [Hf Hc Ha] Hb. unfold addRange. destruct (Z.leb_spec b (floor s)) as [Hle|Hgt].
  { split; [by constructor|]. unfold member. intros q. split; [tauto|]. intros [?|?]; [tauto|left; lia]. }
  set (a' := if a <=? floor s then i32 (floor s + 1) else a).
  assert (a' = Z.max a (floor s + 1)) as Ea. { unfold a'. destruct (Z.leb_spec a (floor s)); [rewrite (wrapS_id 32) by lia|]; lia. }
  clearbody a'. cbv zeta. destruct (search_ranges (floor s) (ranges s) (λ e, a' <=? e + 1)) as (l1 & l2 & E & Hs & H1 & H2); [done|lia|].
  rewrite Hs, E, at_split, Nat2Z.id, Hc. unfold len. rewrite length_app. rewrite E in Ha. apply apart_app in Ha as [Ha1 Ha2].
  assert (end_of (floor s) l1 + 1 < a' ∨ l1 = [] ) as Hend.
  { destruct l1 as [|r l1 _] using rev_ind; [by right|left]. unfold end_of. rewrite foldl_snoc. specialize (H1 r ltac:(apply elem_of_app; right; by left)). lia. }
  assert (end_of (floor s - 1) l1 + 1 < a') as Hend' by (destruct Hend as [?| ->]; [destruct l1; cbn in *; lia|cbn; lia]).
  assert (apart (floor s - 1) l1) as Ha1' by (apply (apart_weaken (floor s)); [lia|done]).
  assert (∀ q, member s q ↔ q ≤ floor s ∨ covered l1 q ∨ covered l2 q) as Hm by (intros q; unfold member; by rewrite E, covered_app).
  rewrite take_app_length.
  match goal with |- context [mkSeqs (floor s) (floor s + 1) ?rs] => set (rs' := rs) end.
  assert (apart (floor s - 1) rs' ∧ ∀ q, covered rs' q ↔ covered l1 q ∨ covered l2 q ∨ a' ≤ q ≤ b) as [Hrs Hcov].
  { unfold rs'. destruct l2 as [|r l2].
    - cbn [length]. rewrite Nat.add_0_r, Z.eqb_refl. cbn [orb]. rewrite drop_app_length. cbn [absorb]. rewrite apart_app. split; [split; [done|]; cbn; split_and!; [lia..|done]|].
      intros q. rewrite covered_app, covered_cons. unfold inside. cbn. tauto.
    - change (default (mkRange 0 0) (head (r :: l2))) with r. rewrite (proj2 (Z.eqb_neq _ _)) by (cbn; lia). cbn [orb]. specialize (H2 r eq_refl). destruct Ha2 as (? & ? & Ha2).
      destruct (Z.ltb_spec (b + 1) (first r)).
      + rewrite drop_app_length. destruct (absorb_spec (end_of (floor s - 1) l1) b (mkRange a' b) (r :: l2)) as [I1 I2]; [cbn; lia|cbn; lia|cbn; lia|done|].
        split; [by rewrite apart_app|]. intros q. rewrite covered_app, I2. unfold inside. cbn. tauto.
      + rewrite drop_app_ge by lia. replace (S (length l1) - length l1)%nat with 1%nat by lia. cbn [drop].
        set (x := if a' <? first r then a' else first r). set (y := if last r <? b then b else last r).
        assert (x = Z.min a' (first r) ∧ y = Z.max b (last r)) as [Ex Ey].
        { unfold x, y. destruct (Z.ltb_spec a' (first r)), (Z.ltb_spec (last r) b); lia. }
        assert (end_of (floor s - 1) l1 + 1 < first r). { destruct l1; cbn in *; lia. }
        destruct (absorb_spec (end_of (floor s - 1) l1) (last r) (mkRange x y) l2) as [I1 I2]; [cbn; lia|cbn; lia|cbn; lia|done|].
        split; [by rewrite apart_app|]. intros q. rewrite covered_app, I2, covered_cons. unfold inside. cbn. split.
        * intros [?|[?|?]]; [tauto| |tauto]. right. destruct (Z.le_gt_cases (first r) q); [|right; lia]. destruct (Z.le_gt_cases q (last r)); [left; left; lia|right; lia].
        * intros [?|[[?|?]|?]]; [tauto|right; left; lia|tauto|right; left; lia]. }
  destruct (advance_spec (floor s) rs' Hf Hrs) as [Hw Hmem]. split; [done|]. intros q. rewrite Hmem, Hcov, Hm. split.
  - intros [?|[?|[?|?]]]; [tauto..|]. right. lia.
  - intros [[?|?]|?]; [tauto..|]. destruct (Z.le_gt_cases q (floor s)); [tauto|]. right. right. right. lia.
Qed.

(** ** Counting *)
#[export] Instance inside_dec q r : Decision (inside q r).
Proof. unfold inside. apply _. Defined.
#[export] Instance covered_dec rs q : Decision (covered rs q).
Proof. unfold covered. apply _. Defined.
#[export] Instance member_dec s q : Decision (member s q).
Proof. unfold member. apply _. Defined.

(** How many of the numbers [lo], ..., [hi] satisfy [P]. *)
Definition count_of (P : Z → Prop) `{∀ x, Decision (P x)} (lo hi : Z) : Z := Z.of_nat (length (filter P (rangeZ lo hi))).

Lemma filter_same (P Q : Z → Prop) `{∀ x, Decision (P x)} `{∀ x, Decision (Q x)} (l : list Z) :
  (∀ x, x ∈ l → P x ↔ Q x) → filter P l = filter Q l.
Proof.
  induction l as [|x l IH]; intros HPQ; [done|]. assert (P x ↔ Q x) as Hx by (apply HPQ; by left).
  rewrite !filter_cons, IH by (intros y Hy; apply HPQ; by right). destruct (decide (P x)), (decide (Q x)); tauto.
Qed.

Lemma count_split (P : Z → Prop) `{∀ x, Decision (P x)} lo mid hi :
  lo ≤ mid + 1 → mid ≤ hi → count_of P lo hi = count_of P lo mid + count_of P (mid + 1) hi.
Proof.
  intros. unfold count_of, rangeZ. replace (hi - lo + 1) with ((mid - lo + 1) + (hi - mid)) by lia.
  rewrite seqZ_app by lia. rewrite filter_app, length_app. replace (hi - (mid + 1) + 1) with (hi - mid) by lia.
  replace (lo + (mid - lo + 1)) with (mid + 1) by lia. lia.
Qed.
Lemma count_all (P : Z → Prop) `{∀ x, Decision (P x)} lo hi :
  lo ≤ hi + 1 → (∀ x, lo ≤ x ≤ hi → P x) → count_of P lo hi = hi - lo + 1.
Proof.
  intros ? HP. unfold count_of. rewrite (filter_same P (λ _, True)) by (intros x Hx%elem_of_rangeZ; split; [done|intros _; exact (HP x Hx)]).
  assert (∀ l : list Z, filter (λ _, True) l = l) as -> by (intros l; induction l as [|x l IH]; [done|rewrite filter_cons_True by done; by rewrite IH]).
  unfold rangeZ. rewrite length_seqZ. lia.
Qed.
Lemma count_none (P : Z → Prop) `{∀ x, Decision (P x)} lo hi : (∀ x, lo ≤ x ≤ hi → ¬ P x) → count_of P lo hi = 0.
Proof.
  intros HP. unfold count_of. rewrite (filter_same P (λ _, False)) by (intros x Hx%elem_of_rangeZ; split; [exact (HP x Hx)|done]).
  assert (∀ l : list Z, filter (λ _, False) l = []) as -> by (intros l; induction l as [|x l IH]; [done|rewrite filter_cons_False by tauto; done]). done.
Qed.
Lemma count_iff (P Q : Z → Prop) `{∀ x, Decision (P x)} `{∀ x, Decision (Q x)} lo hi :
  (∀ x, lo ≤ x ≤ hi → P x ↔ Q x) → count_of P lo hi = count_of Q lo hi.
Proof.
  intros HPQ. unfold count_of. rewrite (filter_same P Q); [done|]. intros x Hx%elem_of_rangeZ. by apply HPQ.
Qed.

Lemma count_loop_spec rs : ∀ f count q,
  apart f rs → -1 ≤ f ≤ q → q < 2 ^ 31 → 0 ≤ count ≤ f + 1 → count_loop count q rs = count + count_of (covered rs) (f + 1) q.
Proof.
  induction rs as [|r rs IH]; intros f count q Ha Hf Hq Hc; cbn [count_loop].
  { rewrite count_none; [lia|]. intros x _ []%Exists_nil. }
  destruct Ha as (H1 & H2 & Ha). destruct (Z.ltb_spec q (first r)).
  { rewrite count_none; [lia|]. intros x Hx [Hi|Hi%(covered_above _ _ _ Ha)]%covered_cons; [unfold inside in Hi|]; lia. }
  set (e := if q <? last r then q else last r). assert (e = Z.min q (last r)) as He by (unfold e; destruct (Z.ltb_spec q (last r)); lia).
  clearbody e. rewrite (wrapU_id 64 (e - first r + 1)) by lia. rewrite (wrapU_id 64) by lia.
  rewrite (count_split (covered (r :: rs)) (f + 1) (first r - 1) q) by lia.
  rewrite (count_none (covered (r :: rs)) (f + 1)).
  2: { intros x Hx [Hi|Hi%(covered_above _ _ _ Ha)]%covered_cons; [unfold inside in Hi|]; lia. }
  replace (first r - 1 + 1) with (first r) by lia.
  destruct (Z.le_gt_cases q (last r)).
  - rewrite (count_all (covered (r :: rs))) by (first [lia|intros x Hx; apply covered_cons; left; unfold inside; lia]).
    rewrite (count_below _ _ _ (last r)) by (done || lia). lia.
  - rewrite (count_split (covered (r :: rs)) (first r) (last r) q) by lia.
    rewrite (count_all (covered (r :: rs)) (first r)) by (first [lia|intros x Hx; apply covered_cons; left; unfold inside; lia]).
    rewrite (IH (last r)) by (done || lia). rewrite (count_iff (covered (r :: rs)) (covered rs)); [lia|].
    intros x Hx. rewrite covered_cons. unfold inside. split; [intros [?|?]; [lia|done]|tauto].
Qed.

Lemma countThrough_spec s q : wf s → floor s ≤ q < 2 ^ 31 → countThrough s q = count_of (member s) 0 q.
Proof.
  intros [Hf Hc Ha] Hq. unfold countThrough. rewrite Hc, (count_loop_spec _ (floor s)) by (done || lia).
  rewrite (count_split (member s) 0 (floor s) q) by lia. rewrite (count_all (member s)) by (first [lia|intros x Hx; left; lia]).
  rewrite (count_iff (member s) (covered (ranges s))); [lia|]. intros x Hx. unfold member. split; [intros [?|?]; [lia|done]|tauto].
Qed.

(** ** Canonicity *)
Lemma ranges_canonical f rs1 rs2 :
  apart f rs1 → apart f rs2 → (∀ q, covered rs1 q ↔ covered rs2 q) → rs1 = rs2.
Proof.
  revert f rs2. induction rs1 as [|r1 rs1 IH]; intros f [|r2 rs2] H1 H2 Heq.
  - done.
  - exfalso. assert (covered [] (first r2)) as []%Exists_nil. apply Heq, covered_cons. left. destruct H2. unfold inside. lia.
  - exfalso. assert (covered [] (first r1)) as []%Exists_nil. apply Heq, covered_cons. left. destruct H1. unfold inside. lia.
  - destruct H1 as (A1 & A2 & A3), H2 as (B1 & B2 & B3).
    assert (∀ q, covered rs1 q → last r1 + 1 < q) as C1 by (intros q; apply covered_above, A3).
    assert (∀ q, covered rs2 q → last r2 + 1 < q) as C2 by (intros q; apply covered_above, B3).
    assert (∀ q, inside q r1 ∨ covered rs1 q ↔ inside q r2 ∨ covered rs2 q) as Heq' by (intros q; by rewrite <- !covered_cons).
    clear Heq. unfold inside in Heq'.
    assert (first r1 = first r2) as Ef.
    { destruct (proj1 (Heq' (first r1)) ltac:(left; lia)) as [?|?%C2]; destruct (proj2 (Heq' (first r2)) ltac:(left; lia)) as [?|?%C1]; lia. }
    assert (last r1 = last r2) as El.
    { destruct (Z.lt_trichotomy (last r1) (last r2)) as [Hlt|[?|Hlt]]; [|done|].
      - destruct (proj2 (Heq' (last r1 + 1)) ltac:(left; lia)) as [?|?%C1]; lia.
      - destruct (proj1 (Heq' (last r2 + 1)) ltac:(left; lia)) as [?|?%C2]; lia. }
    f_equal; [destruct r1, r2; cbn in *; congruence|]. apply (IH (last r1)); [done|by rewrite El|]. intros q. specialize (Heq' q).
    split; intros Hq; [pose proof (C1 q Hq)|pose proof (C2 q Hq)]; tauto || (destruct Heq' as [F G]).
    + destruct (F (or_intror Hq)); [lia|done].
    + destruct (G (or_intror Hq)); [lia|done].
Qed.

Lemma sequences_equal s1 s2 : wf s1 → wf s2 → (∀ q, member s1 q ↔ member s2 q) → s1 = s2.
Proof.
  intros [F1 C1 A1] [F2 C2 A2] Heq. unfold member in Heq.
  assert (floor s1 = floor s2) as Ef.
  { destruct (Z.lt_trichotomy (floor s1) (floor s2)) as [Hlt|[?|Hlt]]; [|done|].
    - destruct (proj2 (Heq (floor s1 + 1)) ltac:(left; lia)) as [?|?%(covered_above _ _ _ A1)]; lia.
    - destruct (proj1 (Heq (floor s2 + 1)) ltac:(left; lia)) as [?|?%(covered_above _ _ _ A2)]; lia. }
  assert (ranges s1 = ranges s2) as Er.
  { apply (ranges_canonical (floor s1)); [done|by rewrite Ef|]. intros q. specialize (Heq q). split; intros Hq.
    - pose proof (covered_above _ _ _ A1 Hq). destruct (proj1 Heq (or_intror Hq)); [lia|done].
    - pose proof (covered_above _ _ _ A2 Hq). destruct (proj2 Heq (or_intror Hq)); [lia|done]. }
  destruct s1, s2. cbn in *. congruence.
Qed.

(** ** What has been added *)
Definition addition : Type := Z * Z.
Definition addition_ok (a : addition) : Prop := a.1 ≤ a.2 < 2 ^ 31.
Definition added (l : list addition) (q : Z) : Prop := Exists (λ a : addition, a.1 ≤ q ≤ a.2) l.
Definition additions (l : list addition) : completedSequences := foldl (λ s a, addRange a.1 a.2 s) newSequences l.

Lemma additions_spec l : Forall addition_ok l → wf (additions l) ∧ ∀ q, member (additions l) q ↔ q ≤ -1 ∨ added l q.
Proof.
  unfold additions. induction l as [|a l IH] using rev_ind; intros Hl.
  - split; [constructor; cbn; (lia || done)|]. intros q. unfold member, added, covered. cbn. by rewrite !Exists_nil.
  - apply Forall_app in Hl as [Hl Ha]. apply Forall_cons in Ha as [Ha _]. destruct (IH Hl) as [Hw Hm]. rewrite foldl_snoc.
    destruct (addRange_spec a.1 a.2 _ Hw Ha) as [Hw' Hm']. split; [done|]. intros q. rewrite Hm', Hm. unfold added.
    rewrite Exists_app, Exists_cons, Exists_nil. tauto.
Qed.

(** C39.  After any additions of sequence numbers and ranges, [contains] answers
    whether a number has been added (negative ones are taken as complete), and
    [countThrough] how many have been added up to a number that is not below the
    floor. *)
Theorem sequences_exact l q :
  Forall addition_ok l →
  let s := additions l in
  (contains s q = true ↔ q ≤ -1 ∨ added l q) ∧
  (floor s ≤ q < 2 ^ 31 → countThrough s q = count_of (member s) 0 q) ∧ ∀ x, member s x ↔ x ≤ -1 ∨ added l x.
Proof.
  intros Hl s. destruct (additions_spec l Hl) as [Hw Hm]. split_and!; [|by apply countThrough_spec|done].
  rewrite contains_spec by done. apply Hm.
Qed.

(** Two lists of additions of the same numbers leave equal structures,
    whatever their order and however the numbers are split into ranges. *)
Theorem sequences_canonical l1 l2 :
  Forall addition_ok l1 → Forall addition_ok l2 → (∀ q, 0 ≤ q → added l1 q ↔ added l2 q) → additions l1 = additions l2.
Proof.
  intros H1 H2 Heq. destruct (additions_spec l1 H1) as [W1 M1], (additions_spec l2 H2) as [W2 M2].
  apply sequences_equal; [done..|]. intros q. rewrite M1, M2. destruct (Z.le_gt_cases 0 q); [by rewrite Heq|].
  split; intros _; left; lia.
Qed.

(** The numbers 0 to 9 in two ways. *)
Definition in_order : list addition := [(0, 3); (4, 9)].
Definition out_of_order : list addition := [(8, 9); (2, 2); (4, 6); (0, 0); (7, 7); (1, 5)].

Lemma sequences_exact_witness :
  (contains (additions out_of_order) 5 = true ↔ 5 ≤ -1 ∨ added out_of_order 5) ∧
  (floor (additions out_of_order) ≤ 9 < 2 ^ 31 → countThrough (additions out_of_order) 9 = 10).
Proof.
  assert (Forall addition_ok out_of_order) as Hok by (repeat constructor; vm_compute; congruence).
  split; [apply (sequences_exact out_of_order 5 Hok)|]. intros H. by rewrite (proj1 (proj2 (sequences_exact out_of_order 9 Hok)) H).
Defined.
Lemma sequences_canonical_witness : additions in_order = additions out_of_order.
Proof.
  apply sequences_canonical; [repeat constructor; vm_compute; congruence..|]. intros q Hq. unfold added, in_order, out_of_order.
  rewrite !Exists_cons, !Exists_nil. cbn. lia.
Defined.
End KcensusSeq.
