(* ===== verification/KcensusReq.v ===== *)
(** * KcensusReq: requirements of KCensus ([kcensus/requirements.go])

    A requirement says, for every voter of a proposer's fast quorum, which members
    of the quorum the voter has to know as takers of the value before the
    proposer's leader may commit it fast.

    [requirements_compatible]: when a set of requirements passes validation, any
    majority of the voters has a member that, for two proposers, has to know a
    common member of their quorums; so a majority that reports its knowledge
    shows that at most one of the two values can have been committed. *)
From stdpp Require Import gmap strings list.
From Stdlib Require Import Lia.
From S2P Require Import Prelude ReplicaSet.

Module KcensusReq.

(** ** The code *)

(** A requirement lists, for every process, the set it has to know. *)
Abbreviation Requirement := (list Z).

(** [for w, a := range r]: indices and elements. *)
Definition ranged {A} (l : list A) : list (Z * A) := zip (seqZ 0 (Z.of_nat (length l))) l.

(** [1 << w] of a set: no bit when [w] is 64 or more. *)
Definition bit (w : Z) : Z := wrapU 64 (Z.shiftl 1 w).

Definition Quorum (r : Requirement) : Z :=
  foldl (λ q wa, if wa.2 =? 0 then q else Z.lor q (bit wa.1)) 0 (ranged r).

Definition valid (r : Requirement) (n f : Z) : bool :=
  if negb (Z.of_nat (length r) =? n) then false else
  let q := Quorum r in
  if (ReplicaSet.Size q <=? f) || negb (Z.shiftr q (2 * f + 1) =? 0) then false else
  forallb (λ wa, (wa.2 =? 0) || (ReplicaSet.Contains wa.2 wa.1 && ReplicaSet.Covers q wa.2)) (ranged r).

Definition Compatible (a b : Requirement) (f : Z) : outcome bool :=
  let i := Z.land (Quorum a) (Quorum b) in
  witnesses ← forEach (λ wa witnesses,
    match index b wa.1 with
    | Some bw => Done (if negb (Z.land wa.2 i =? 0) || negb (Z.land bw i =? 0) then Z.lor witnesses (bit wa.1) else witnesses)
    | None => if negb (Z.land wa.2 i =? 0) then Done (Z.lor witnesses (bit wa.1)) else Panicked "index out of range"
    end) (ranged a) 0;
  Done (f <? ReplicaSet.Size witnesses).

Definition MembershipError : string := "KCensus requires odd 3..63 voters and at most 63 processes".
Definition InvalidRequirement : string := "invalid requirement for proposer".
Definition IncompatibleRequirements : string := "incompatible requirements".

(** The loops over [q < p] and over [p]; [None] is a nil error. *)
Fixpoint check_pairs (r : Requirement) (earlier : list Requirement) (f : Z) : outcome (option string) :=
  match earlier with
  | [] => Done None
  | r' :: earlier =>
      ok ← Compatible r r' f;
      if negb ok then Done (Some IncompatibleRequirements) else check_pairs r earlier f
  end.
Fixpoint check_all (earlier rest : list Requirement) (m f : Z) : outcome (option string) :=
  match rest with
  | [] => Done None
  | r :: rest =>
      if negb (valid r m f) then Done (Some InvalidRequirement) else
      e ← check_pairs r earlier f;
      match e with Some _ => Done e | None => check_all (earlier ++ [r]) rest m f end
  end.
Definition validateRequirements (rs : list Requirement) (voters : Z) : outcome (option string) :=
  let m := Z.of_nat (length rs) in
  if (voters <? 3) || (m <? voters) || (63 <? m) || negb (Z.rem voters 2 =? 1) then Done (Some MembershipError)
  else check_all [] rs m (Z.quot voters 2).

(** ** Sets *)
Lemma testbit_bit_self v : 0 ≤ v < 64 → Z.testbit (bit v) v = true.
Proof.
  intros Hv. unfold bit. rewrite wrapU_id by (rewrite Z.shiftl_1_l; split; [apply Z.pow_nonneg; lia|apply Z.pow_lt_mono_r; lia]).
  rewrite ReplicaSet.testbit_bit by lia. by apply bool_decide_eq_true.
Qed.
Lemma testbit_bit_inv v a : 0 ≤ v < 64 → Z.testbit (bit v) a = true → a = v.
Proof.
  intros Hv. unfold bit. rewrite wrapU_id by (rewrite Z.shiftl_1_l; split; [apply Z.pow_nonneg; lia|apply Z.pow_lt_mono_r; lia]).
  rewrite ReplicaSet.testbit_bit by lia. by intros ?%bool_decide_eq_true.
Qed.

Lemma testbit_member w a : 0 ≤ w < 64 → Z.testbit (bit w) a = bool_decide (a = w).
Proof.
  intros Hw. apply Bool.eq_iff_eq_true. rewrite bool_decide_eq_true. split; [by apply testbit_bit_inv|].
  intros ->. by apply testbit_bit_self.
Qed.

Lemma elem_of_ranged {A} (l : list A) i x : (i, x) ∈ ranged l ↔ index l i = Some x.
Proof.
  unfold ranged, index. rewrite list_elem_of_lookup. setoid_rewrite lookup_zip_Some. split.
  - intros (k & [Hk _]%lookup_seqZ & Hx). cbn in *. subst i. rewrite Z.add_0_l. destruct (Z.ltb_spec (Z.of_nat k) 0); [lia|]. by rewrite Nat2Z.id.
  - destruct (Z.ltb_spec i 0); [done|]. intros Hx. exists (Z.to_nat i). split; [|done]. apply lookup_seqZ. cbn.
    apply lookup_lt_Some in Hx. lia.
Qed.
Lemma index_bounds {A} (l : list A) i x : index l i = Some x → 0 ≤ i < Z.of_nat (length l).
Proof. unfold index. destruct (Z.ltb_spec i 0); [done|]. intros Hx%lookup_lt_Some. lia. Qed.

(** Loops that collect indices in a set. *)
Lemma collect_testbit {A} (P : Z * A → bool) (l : list (Z * A)) s a :
  (∀ wx, wx ∈ l → 0 ≤ wx.1 < 64) →
  Z.testbit (foldl (λ s wx, if P wx then Z.lor s (bit wx.1) else s) s l) a = true ↔
  Z.testbit s a = true ∨ ∃ x, (a, x) ∈ l ∧ P (a, x) = true.
Proof.
  revert s. induction l as [|[w x] l IH]; intros s Hl; cbn [foldl].
  { split; [auto|]. by intros [|(x & ?%elem_of_nil & _)]. }
  assert (0 ≤ w < 64) as Hw by (apply (Hl (w, x)); by left).
  rewrite IH by (intros wx ?; apply Hl; by right). destruct (P (w, x)) eqn:HP; cbn [fst].
  - rewrite Z.lor_spec, orb_true_iff, testbit_member, bool_decide_eq_true by done. split.
    + intros [[?| ->]|(y & Hy & ?)]; [by left|right; exists x; split; [by left|done]|right; exists y; split; [by right|done]].
    + intros [?|(y & [[= -> ->]|Hy]%elem_of_cons & ?)]; [by left; left|by left; right|right; by exists y].
  - split.
    + intros [?|(y & Hy & ?)]; [by left|right; exists y; split; [by right|done]].
    + intros [?|(y & [[= -> ->]|Hy]%elem_of_cons & Hy')]; [by left|by rewrite HP in Hy'|right; by exists y].
Qed.

Lemma collect_valid {A} (P : Z * A → bool) (l : list (Z * A)) s :
  ReplicaSet.valid s → ReplicaSet.valid (foldl (λ s wx, if P wx then Z.lor s (bit wx.1) else s) s l).
Proof.
  intros Hs. apply foldl_ind; [done|]. intros s' wx Hs'. destruct (P wx); [|done].
  apply ReplicaSet.testbit_valid; [apply Z.lor_nonneg; split; [apply Hs'|apply wrapU_bound; lia]|].
  intros i Hi. rewrite Z.lor_spec, (ReplicaSet.valid_testbit s') by done. cbn. apply ReplicaSet.valid_testbit; [|done].
  apply wrapU_bound. lia.
Qed.

(** ** Validated requirements *)
Definition in_quorum (r : Requirement) (a : Z) : Prop := ∃ x, index r a = Some x ∧ x ≠ 0.
Definition must_know (r : Requirement) (w a : Z) : Prop := ∃ x, index r w = Some x ∧ Z.testbit x a = true.

(** A quorum of voters, more than [f]; each of its members has to know itself,
    and members only. *)
Record requirement_ok (voters : Z) (r : Requirement) : Prop := mkRequirementOk {
  ro_majority : ReplicaSet.majority voters (ReplicaSet.to_gset (Quorum r));
  ro_self : ∀ w, in_quorum r w → must_know r w w;
  ro_members : ∀ w a, must_know r w a → in_quorum r a }.

(** A witness of two requirements has to know, for one of them, a member of both quorums. *)
Definition witness_of (r r' : Requirement) (w : Z) : Prop :=
  ∃ a, in_quorum r a ∧ in_quorum r' a ∧ (must_know r w a ∨ must_know r' w a).

Lemma Quorum_testbit r a : Z.of_nat (length r) ≤ 64 → Z.testbit (Quorum r) a = true ↔ in_quorum r a.
Proof.
  intros Hr. unfold Quorum, in_quorum.
  assert (∀ l s, foldl (λ (q : Z) (wa : Z * Z), if wa.2 =? 0 then q else Z.lor q (bit wa.1)) s l =
    foldl (λ (q : Z) (wa : Z * Z), if negb (wa.2 =? 0) then Z.lor q (bit wa.1) else q) s l) as ->.
  { intros l. induction l as [|wa l IH]; intros s; [done|]. cbn [foldl]. rewrite IH. by destruct (wa.2 =? 0). }
  rewrite (collect_testbit (λ wa : Z * Z, negb (wa.2 =? 0))).
  - rewrite Z.bits_0. split.
    + intros [|(x & Hx%elem_of_ranged & Hx0%negb_true_iff%Z.eqb_neq)]; [done|by exists x].
    + intros (x & Hx%elem_of_ranged & Hx0%Z.eqb_neq%negb_true_iff). right. by exists x.
  - intros [w x] Hx%elem_of_ranged%index_bounds. cbn. lia.
Qed.

Lemma Quorum_valid r : ReplicaSet.valid (Quorum r).
Proof.
  unfold Quorum. apply foldl_ind; [split; [done|by apply Z.pow_pos_nonneg]|]. intros s [w x] Hs. cbn. destruct (x =? 0); [done|].
  by apply (collect_valid (λ _ : Z * Z, true) [(w, x)]).
Qed.

Definition sets_ok (r : Requirement) : Prop := ∀ x, x ∈ r → ReplicaSet.valid x.
Lemma sets_index r i x : sets_ok r → index r i = Some x → ReplicaSet.valid x.
Proof. unfold index. intros Hr. destruct (i <? 0); [done|]. intros ?%list_elem_of_lookup_2. by apply Hr. Qed.

Lemma testbit_nonzero x a : Z.testbit x a = true → x ≠ 0.
Proof. intros H ->. by rewrite Z.bits_0 in H. Qed.
Lemma nonzero_testbit x : 0 ≤ x → x ≠ 0 → ∃ a, 0 ≤ a ∧ Z.testbit x a = true.
Proof. intros H0 Hx. exists (Z.log2 x). split; [apply Z.log2_nonneg|]. apply Z.bit_log2. lia. Qed.

Lemma valid_ok r m voters :
  m ≤ 63 → Z.rem voters 2 = 1 → 3 ≤ voters → sets_ok r →
  valid r m (Z.quot voters 2) = true → Z.of_nat (length r) = m ∧ requirement_ok voters r.
Proof.
  intros Hm Hodd Hv Hsets. unfold valid. destruct (Z.eqb_spec (Z.of_nat (length r)) m) as [Hl|]; [|done]. cbn [negb].
  destruct (_ || _) eqn:E; [done|]. apply orb_false_iff in E as [Hsize Hhigh]. intros Hall.
  rewrite forallb_forall in Hall. split; [done|].
  assert (voters = 2 * Z.quot voters 2 + 1) as Hf by (pose proof (Z.quot_rem' voters 2); lia).
  assert (∀ a, in_quorum r a → 0 ≤ a < m) as Hin by (intros a (x & Hx%index_bounds & _); lia).
  constructor.
  - split; [|rewrite <-ReplicaSet.Size_size, <-Z.quot_div_nonneg by lia; lia].
    intros a [Ha Hb]%ReplicaSet.elem_of_to_gset. apply ReplicaSet.elem_of_ids. split; [lia|].
    apply negb_false_iff, Z.eqb_eq in Hhigh. destruct (Z.lt_ge_cases a voters) as [|Hge]; [done|].
    pose proof (Z.shiftr_spec (Quorum r) (2 * Z.quot voters 2 + 1) (a - (2 * Z.quot voters 2 + 1)) ltac:(lia)) as Hs.
    rewrite Hhigh, Z.bits_0 in Hs. replace (a - _ + _) with a in Hs by lia. by rewrite Hb in Hs.
  - intros w (x & Hx & Hx0). exists x. split; [done|]. specialize (Hall (w, x) ltac:(by apply list_elem_of_In, elem_of_ranged)). cbn in Hall.
    rewrite (proj2 (Z.eqb_neq _ _) Hx0) in Hall. cbn in Hall. apply andb_prop in Hall as [Hc _].
    apply ReplicaSet.Contains_spec, ReplicaSet.elem_of_to_gset in Hc as [_ Hc]. done.
  - intros w a (x & Hx & Ha). specialize (Hall (w, x) ltac:(by apply list_elem_of_In, elem_of_ranged)). cbn in Hall.
    rewrite (proj2 (Z.eqb_neq _ _) (testbit_nonzero _ _ Ha)) in Hall. cbn in Hall. apply andb_prop in Hall as [_ Hc].
    apply Quorum_testbit; [lia|]. unfold ReplicaSet.Covers in Hc. apply Z.eqb_eq in Hc. rewrite <-Hc, Z.land_spec in Ha.
    by apply andb_prop in Ha as [Ha _].
Qed.

(** [Compatible] of two requirements of the same size finds the witnesses. *)
Lemma Compatible_spec r r' f :
  length r = length r' → Z.of_nat (length r) ≤ 63 → sets_ok r → sets_ok r' →
  ∃ ws, ReplicaSet.valid ws ∧ (∀ w, Z.testbit ws w = true ↔ witness_of r r' w) ∧ Compatible r r' f = Done (f <? ReplicaSet.Size ws).
Proof.
  intros Hl Hm Hr Hr'. set (i := Z.land (Quorum r) (Quorum r')).
  set (P := λ wx : Z * Z, negb (Z.land wx.2 i =? 0) || negb (Z.land (default 0 (index r' wx.1)) i =? 0)).
  exists (foldl (λ s wx, if P wx then Z.lor s (bit wx.1) else s) 0 (ranged r)). split_and!.
  - apply collect_valid. split; [done|by apply Z.pow_pos_nonneg].
  - assert (∀ x a, Z.testbit (Z.land x i) a = true ↔ Z.testbit x a = true ∧ in_quorum r a ∧ in_quorum r' a) as Hland.
    { intros x a. unfold i. rewrite !Z.land_spec, !andb_true_iff, !Quorum_testbit by lia. tauto. }
    assert (0 ≤ i) as Hi by (apply Z.land_nonneg; left; apply Quorum_valid).
    assert (∀ x, negb (Z.land x i =? 0) = true ↔ ∃ a, Z.testbit x a = true ∧ in_quorum r a ∧ in_quorum r' a) as Hmeet.
    { intros x. rewrite negb_true_iff, Z.eqb_neq. split.
      - intros Hne. apply nonzero_testbit in Hne as (a & _ & Ha); [|apply Z.land_nonneg; by right]. exists a. by apply Hland.
      - intros (a & Ha). apply (testbit_nonzero _ a). by apply Hland. }
    intros w. rewrite collect_testbit by (intros [v x] Hx%elem_of_ranged%index_bounds; cbn; lia). rewrite Z.bits_0. unfold P, witness_of. cbn [fst snd]. split.
    + intros [|(x & Hx%elem_of_ranged & [(a & Ha & ? & ?)%Hmeet|(a & Ha & ? & ?)%Hmeet]%orb_prop)]; [done|exists a; split_and!; [done..|left; by exists x]|].
      exists a. split_and!; [done..|]. right. destruct (index r' w) as [y|] eqn:E; [by exists y|by cbn in Ha; rewrite Z.bits_0 in Ha].
    + intros (a & H1 & H2 & Hk). right.
      assert (∃ x, index r w = Some x) as [x Hx].
      { destruct Hk as [(x & Hx & _)|(x & Hx%index_bounds & _)]; [by exists x|]. rewrite index_nonneg by lia. apply lookup_lt_is_Some_2. lia. }
      exists x. split; [by apply elem_of_ranged|]. apply orb_true_iff. destruct Hk as [(y & Hy & Ha)|(y & Hy & Ha)].
      * left. apply Hmeet. exists a. split; [|done]. rewrite Hx in Hy. by injection Hy as ->.
      * right. apply Hmeet. exists a. by rewrite Hy.
  - unfold Compatible. fold i. assert (∀ l s, (∀ wx, wx ∈ l → ∃ y, index r' wx.1 = Some y) → forEach (λ wa witnesses,
      match index r' wa.1 with
      | Some bw => Done (if negb (Z.land wa.2 i =? 0) || negb (Z.land bw i =? 0) then Z.lor witnesses (bit wa.1) else witnesses)
      | None => if negb (Z.land wa.2 i =? 0) then Done (Z.lor witnesses (bit wa.1)) else Panicked "index out of range"
      end) l s = Done (foldl (λ s wx, if P wx then Z.lor s (bit wx.1) else s) s l)) as Hloop.
    { intros l. induction l as [|[w x] l IH]; intros s Hin; [done|]. cbn [forEach foldl]. unfold P. cbn [fst snd].
      destruct (Hin (w, x)) as [y Hy]; [by left|]. cbn in Hy. rewrite Hy. cbn [mbind]. apply IH. intros wx ?. apply Hin. by right. }
    rewrite Hloop; [done|]. intros [w x] Hx%elem_of_ranged%index_bounds. cbn. rewrite index_nonneg by lia. apply lookup_lt_is_Some_2. lia.
Qed.

(** Any majority of the voters has a witness. *)
Definition compatible (voters : Z) (r r' : Requirement) : Prop :=
  ∀ M, ReplicaSet.majority voters M → ∃ w, w ∈ M ∧ witness_of r r' w.
Lemma compatible_sym voters r r' : compatible voters r r' → compatible voters r' r.
Proof. intros H M HM. destruct (H M HM) as (w & Hw & a & ? & ? & Hk). exists w. split; [done|]. exists a. tauto. Qed.

Lemma witness_voter voters r r' w : requirement_ok voters r → requirement_ok voters r' → Z.of_nat (length r) ≤ 63 → Z.of_nat (length r') ≤ 63 →
  witness_of r r' w → 0 ≤ w < voters.
Proof.
  intros Hr Hr' Hl Hl'. assert (∀ q, requirement_ok voters q → Z.of_nat (length q) ≤ 63 → ∀ a, must_know q w a → 0 ≤ w < voters) as H.
  { intros q Hq Hlq a (x & Hx & Ha). apply ReplicaSet.elem_of_ids. apply (ro_majority _ _ Hq). apply ReplicaSet.elem_of_to_gset.
    pose proof (index_bounds _ _ _ Hx). split; [lia|]. apply Quorum_testbit; [lia|]. exists x. split; [done|]. by eapply testbit_nonzero. }
  intros (a & _ & _ & [Hk|Hk]); [by apply (H r Hr Hl a)|by apply (H r' Hr' Hl' a)].
Qed.

Lemma Compatible_ok r r' voters :
  length r = length r' → Z.of_nat (length r) ≤ 63 → sets_ok r → sets_ok r' → Z.rem voters 2 = 1 → 3 ≤ voters →
  requirement_ok voters r → requirement_ok voters r' →
  ∃ b, Compatible r r' (Z.quot voters 2) = Done b ∧ (b = true → compatible voters r r').
Proof.
  intros Hl Hm Hs Hs' Hodd Hv Hr Hr'. destruct (Compatible_spec r r' (Z.quot voters 2) Hl Hm Hs Hs') as (ws & Hws & Hin & ->).
  eexists. split; [done|]. intros Hsize%Z.ltb_lt M [HM1 HM2]. rewrite ReplicaSet.Size_size in Hsize.
  rewrite Z.quot_div_nonneg in Hsize by lia. rewrite Z.rem_mod_nonneg in Hodd by lia.
  destruct (ReplicaSet.quorum_intersect voters M (ReplicaSet.to_gset ws)) as (w & Hw & Hw'); [lia|done| | |].
  - intros w [_ Hw%Hin]%ReplicaSet.elem_of_to_gset. apply ReplicaSet.elem_of_ids. eapply witness_voter; [exact Hr|exact Hr'|lia|lia|done].
  - pose proof (Z.div_mod voters 2). lia.
  - exists w. split; [done|]. apply Hin. by apply ReplicaSet.elem_of_to_gset in Hw' as [_ ?].
Qed.

Section Validate.
Variables (m voters : Z).
Hypothesis Hm : m ≤ 63.
Hypothesis Hodd : Z.rem voters 2 = 1.
Hypothesis Hvoters : 3 ≤ voters.
Definition validated (r : Requirement) : Prop := sets_ok r ∧ Z.of_nat (length r) = m ∧ requirement_ok voters r.

(** Nil, with [P], or an error: no panic. *)
Definition nil_or_error (e : outcome (option string)) (P : Prop) : Prop :=
  match e with Done None => P | Done (Some _) => True | Panicked _ | OutOfFuel => False end.

Lemma check_pairs_ok r earlier : validated r → Forall validated earlier →
  nil_or_error (check_pairs r earlier (Z.quot voters 2)) (Forall (compatible voters r) earlier).
Proof.
  intros (Hs & Hl & Hr). induction 1 as [|r' earlier (Hs' & Hl' & Hr') Hall IH]; [by constructor|]. cbn [check_pairs].
  destruct (Compatible_ok r r' voters) as (b & -> & Hb); [lia|lia|done..|]. cbn. destruct b; [|done]. cbn.
  destruct (check_pairs r earlier _) as [[?|]| |]; cbn in *; [done|constructor; auto|done..].
Qed.

Lemma check_all_ok rest earlier : (∀ r, r ∈ rest → sets_ok r) → Forall validated earlier →
  (∀ i j r r', (i < j)%nat → earlier !! i = Some r → earlier !! j = Some r' → compatible voters r' r) →
  nil_or_error (check_all earlier rest m (Z.quot voters 2)) (Forall validated (earlier ++ rest) ∧
    ∀ i j r r', (i < j)%nat → (earlier ++ rest) !! i = Some r → (earlier ++ rest) !! j = Some r' → compatible voters r' r).
Proof.
  revert earlier. induction rest as [|r rest IH]; intros earlier Hsets Hall Hpairs; cbn [check_all]; [by rewrite app_nil_r|].
  destruct (valid r m _) eqn:Hv; cbn [negb]; [|done].
  assert (validated r) as Hr by (split; [apply Hsets; by left|]; apply valid_ok; (done || apply Hsets; by left)).
  pose proof (check_pairs_ok r earlier Hr Hall) as Hc. destruct (check_pairs r earlier _) as [[?|]| |]; cbn in *; [done| |done..].
  rewrite (cons_middle r earlier rest), (assoc_L (++)). apply IH; [intros; apply Hsets; by right|apply Forall_app; auto|].
  intros i j r1 r2 Hij H1 H2. apply lookup_app_Some in H2 as [H2|[Hj H2]].
  - apply lookup_lt_Some in H2 as Hj. rewrite lookup_app_l in H1 by lia. by apply (Hpairs i j).
  - apply list_lookup_singleton_Some in H2 as [Hj' <-]. rewrite lookup_app_l in H1 by lia.
    rewrite Forall_lookup in Hc. by eapply Hc.
Qed.
End Validate.

(** C37. Validation of requirements ([validateRequirements], [Requirement.valid],
    [Compatible]) never panics, and when it gives no error the membership is sound
    (an odd number of at least three voters, at most 63 processes), every
    requirement is for a majority of the voters whose members have to know
    themselves and members only, and the requirements of two proposers are
    compatible: any majority of the voters has a witness that for one of them has
    to know a common member of both quorums. *)
Theorem requirements_compatible rs voters :
  (∀ r x, r ∈ rs → x ∈ r → ReplicaSet.valid x) →
  nil_or_error (validateRequirements rs voters)
    (3 ≤ voters ≤ Z.of_nat (length rs) ∧ Z.of_nat (length rs) ≤ 63 ∧
     (∀ r, r ∈ rs → Z.of_nat (length r) = Z.of_nat (length rs) ∧ requirement_ok voters r) ∧
     (∀ p q r r', p ≠ q → rs !! p = Some r → rs !! q = Some r' → compatible voters r r')).
Proof.
  intros Hsets. unfold validateRequirements. destruct (_ || _) eqn:E; [done|]. apply orb_false_iff in E as [E Hodd].
  apply orb_false_iff in E as [E Hm]. apply orb_false_iff in E as [Hv Hmv].
  assert (Z.rem voters 2 = 1) as Hodd' by (destruct (Z.eqb_spec (Z.rem voters 2) 1); done).
  pose proof (check_all_ok (Z.of_nat (length rs)) voters ltac:(lia) Hodd' ltac:(lia) rs [] ltac:(intros r Hr x; by apply Hsets)
    ltac:(by constructor) ltac:(intros; done)) as H.
  cbn [app] in H. destruct (check_all _ _ _ _) as [[?|]| |]; cbn in *; [done| |done..]. destruct H as [Hall Hpairs].
  rewrite Forall_forall in Hall. split_and!; [lia..| |].
  - intros r Hr. by destruct (Hall r Hr) as (_ & ? & ?).
  - intros p q r r' Hne Hp Hq. destruct (Nat.lt_total p q) as [Hlt|[|Hlt]]; [|done|by eapply Hpairs].
    apply compatible_sym. by eapply Hpairs.
Qed.

(** Three voters, of which each has to know the proposer and itself, and the
    proposer all. *)
Definition demo_requirement (p : Z) : Requirement := map (λ w, if w =? p then 7 else Z.lor (bit p) (bit w)) [0; 1; 2].
Lemma requirements_compatible_witness :
  validateRequirements [demo_requirement 0; demo_requirement 1; demo_requirement 2] 3 = Done None ∧
  compatible 3 (demo_requirement 0) (demo_requirement 2).
Proof.
  assert (validateRequirements [demo_requirement 0; demo_requirement 1; demo_requirement 2] 3 = Done None) as E by (vm_compute; reflexivity).
  split; [done|]. pose proof (requirements_compatible [demo_requirement 0; demo_requirement 1; demo_requirement 2] 3) as H.
  rewrite E in H. destruct H as (_ & _ & _ & H); [|by apply (H 0%nat 2%nat)].
  assert (Forall (Forall (λ x, 0 ≤ x < 2 ^ 64)) [demo_requirement 0; demo_requirement 1; demo_requirement 2]) as Hall
    by (apply (bool_decide_eq_true_1 _); vm_compute; reflexivity).
  rewrite Forall_forall in Hall. intros r x Hr Hx. specialize (Hall r Hr). rewrite Forall_forall in Hall. by apply Hall.
Defined.
End KcensusReq.
