(* ===== verification/KcensusPlan.v ===== *)
(** * KcensusPlan: propagation graphs of KCensus ([kcensus/graph_plan.go])

    A KCensus deployment plans, for every proposer, a schedule of messages: at
    which (planned) times every process is in which state, what it then knows
    about who has taken the proposer's value ([Knowledge]), on which messages a
    state depends and which it sends.  The time of a state is only its name: at
    run time a process advances when the messages it depends on have arrived.

    [propagation_sound]: in a schedule that [buildPropagation] returns, all
    knowledge is causal, that is, carried by planned messages along the states of
    the processes; what a process knows of another's knowledge the other has at
    the state that is named in [Remote]; and the checks at the end hold. *)
From stdpp Require Import gmap strings list sorting fin_maps fin_sets.
From Stdlib Require Import Lia.
From S2P Require Import Prelude ReplicaSet KcensusReq.
Import KcensusReq.

Module KcensusPlan.

(** ** Shortest paths ([planningPaths]) *)

(** A matrix of durations ([time.Duration], an [int64] of nanoseconds) or of nodes. *)
Abbreviation matrix := (gmap (Z * Z) Z).
Definition cell (m : matrix) (i j : Z) : Z := default 0 (m !! (i, j)).
Definition unreachable : Z := 2 ^ 62 - 1.

Definition init_paths (latency : matrix) (n voters : Z) : matrix * matrix :=
  foldl (λ dn i, foldl (λ dn j,
    let '(d, next) := dn in
    let next := <[(i, j) := j]> next in
    if negb (i =? j) && (voters <=? i) && (voters <=? j) then (<[(i, j) := unreachable]> d, next)
    else if negb (i =? j) && (cell latency i j =? 0) then (<[(i, j) := 1]> d, next)
    else (<[(i, j) := cell latency i j]> d, next)) dn (seqZ 0 n)) (∅, ∅) (seqZ 0 n).
Definition relax (k i j : Z) (dn : matrix * matrix) : matrix * matrix :=
  let '(d, next) := dn in
  let via := i64 (cell d i k + cell d k j) in
  if via <? cell d i j then (<[(i, j) := via]> d, <[(i, j) := cell next i k]> next) else dn.
Definition planningPaths (latency : matrix) (n voters : Z) : matrix * matrix :=
  foldl (λ dn k, foldl (λ dn i, foldl (λ dn j, relax k i j dn) dn (seqZ 0 n)) dn (seqZ 0 n))
    (init_paths latency n voters) (seqZ 0 voters).

(** ** Graphs *)

(** [graphEdge]: from, to, and the planned time of sending. *)
Abbreviation graphEdge := (Z * Z * Z)%type.
Definition From (e : graphEdge) : Z := e.1.1.
Definition To (e : graphEdge) : Z := e.1.2.
Definition ETime (e : graphEdge) : Z := e.2.

Record graphState := mkState {
  Time : Z; Knowledge : list Z; Remote : list Z; Dependencies : gset graphEdge; Outgoing : list graphEdge }.
#[export] Instance eta_graphState : Eta graphState := λ s, mkState (Time s) (Knowledge s) (Remote s) (Dependencies s) (Outgoing s).
#[export] Instance set_Knowledge : Setter Knowledge := ltac:(mk_setter).
#[export] Instance set_Remote : Setter Remote := ltac:(mk_setter).
#[export] Instance set_Dependencies : Setter Dependencies := ltac:(mk_setter).
#[export] Instance set_Outgoing : Setter Outgoing := ltac:(mk_setter).

Record propagationGraph := mkGraph { States : list (list graphState); Payload : gset graphEdge; Edges : gset graphEdge }.

(** [g.state]: the state of [node] at a time, by binary search. *)
Definition nth_state (ss : list graphState) (i : Z) : graphState := default (mkState 0 [] [] ∅ []) (index ss i).
Definition state (g : propagationGraph) (node at_ : Z) : outcome (option graphState) :=
  match index (States g) node with
  | None => Panicked "index out of range"
  | Some ss =>
      let i := Search (length ss) (λ i, at_ <=? Time (nth_state ss i)) in
      Done (if (i <? Z.of_nat (length ss)) && (Time (nth_state ss i) =? at_) then index ss i else None)
  end.

(** ** Construction *)
Abbreviation timeline := (gmap Z graphState).

(** The variables of [walk] and of the graph under construction. *)
Record walker := mkWalker {
  states : gmap Z timeline; payloads : gset graphEdge; edges : gset graphEdge;
  node : Z; now : Z; slack : Z }.
#[export] Instance eta_walker : Eta walker := λ w, mkWalker (states w) (payloads w) (edges w) (node w) (now w) (slack w).
#[export] Instance set_states : Setter states := ltac:(mk_setter).
#[export] Instance set_payloads : Setter payloads := ltac:(mk_setter).
#[export] Instance set_edges : Setter edges := ltac:(mk_setter).
#[export] Instance set_node : Setter node := ltac:(mk_setter).
#[export] Instance set_now : Setter now := ltac:(mk_setter).
#[export] Instance set_slack : Setter slack := ltac:(mk_setter).

(** Go errors: a result or the text of the error, inside [outcome]. *)
Abbreviation result A := (outcome (string + A)).
Definition err {A} (e : string) : result A := Done (inl e).
Definition ok {A} (a : A) : result A := Done (inr a).
Definition try_ {A B} (r : result A) (k : A → result B) : result B :=
  x ← r; match x with inl e => Done (inl e) | inr a => k a end.
Fixpoint try_each {A S} (f : A → S → result S) (l : list A) (s : S) : result S :=
  match l with [] => ok s | x :: l => try_ (f x s) (try_each f l) end.

Section Build.
(** [n] processes.  [SynthesizeProcesses] checks that [latency] is square of size
    [n], with entries of at most a day, and has [n] requirements, budgets and
    leaders; [propagation_sound] assumes it. *)
Variables (n voters : Z) (latency : matrix) (rs : list Requirement) (budgets leaders : list Z).
Definition dist : matrix := (planningPaths latency n voters).1.
Definition next : matrix := (planningPaths latency n voters).2.

(** [1 << p] at place [p] of the knowledge, for a voting proposer. *)
Definition first_state (p v : Z) : graphState :=
  let zeros := replicate (Z.to_nat n) 0 in
  mkState 0 (if (v =? p) && (p <? voters) then <[Z.to_nat p := bit p]> zeros else zeros) zeros ∅ [].
Definition first_states (p : Z) : gmap Z timeline :=
  foldl (λ m v, <[v := {[0 := first_state p v]}]> m) ∅ (seqZ 0 n).

(** The last state not after a time. *)
Definition later (best : option graphState) (t : Z) (s : graphState) (limit : Z) : option graphState :=
  if t <=? limit then
    match best with
    | None => Some s
    | Some b => if Time b <? t then Some s else best
    end
  else best.
Definition previous (line : timeline) (limit : Z) : option graphState :=
  foldl (λ best ts, later best ts.1 ts.2 limit) None (map_to_list line).

(** The earliest edge from [src] to [dst] within the deadline. *)
Definition earlier_edge (src dst at_ deadline : Z) (best : option Z) (e : graphEdge) : option Z :=
  if (From e =? src) && (To e =? dst) && (at_ <=? ETime e) && (ETime e <=? deadline) &&
     match best with None => true | Some t => ETime e <? t end
  then Some (ETime e) else best.
Definition reusable (es : gset graphEdge) (src dst at_ deadline : Z) : option Z :=
  foldl (earlier_edge src dst at_ deadline) None (elements es).

(** What a message of [source] adds to the knowledge of [dest] at [dst]. *)
Definition merge_remote (a b : list Z) : list Z := zip_with Z.max a b.
Definition learn_from (src dst : Z) (e : graphEdge) (source dest : graphState) : graphState :=
  let own := default 0 (Knowledge source !! Z.to_nat src) in
  dest <| Dependencies ::= union {[e]} |>
       <| Knowledge ::= alter (λ k, Z.lor k own) (Z.to_nat dst) |>
       <| Knowledge ::= (λ k, zip_with Z.lor k (Knowledge source)) |>
       <| Remote ::= (λ r, merge_remote r (Remote source)) |>.
Definition learn_earlier (dest future : graphState) : graphState :=
  future <| Knowledge ::= (λ k, zip_with Z.lor k (Knowledge dest)) |> <| Remote ::= (λ r, merge_remote r (Remote dest)) |>.

(** The state of [dst] at [at_], a new one as a copy of the one before. *)
Definition open_state (line : timeline) (dst at_ : Z) : option graphState :=
  match line !! at_ with
  | Some s => Some s
  | None =>
      match previous line at_ with
      | None => None
      | Some prev => Some (mkState at_
          (if dst <? voters then alter (λ k, Z.lor k (bit dst)) (Z.to_nat dst) (Knowledge prev) else Knowledge prev)
          (<[Z.to_nat dst := at_]> (Remote prev)) ∅ [])
      end
  end.

(** The body of the loop over hops. *)
Definition hop (payload : bool) (target : Z) (w : walker) : result walker :=
  let src := node w in
  let dst := cell next src target in
  let deadline := i64 (now w + slack w) in
  let found := reusable (edges w) src dst (now w) deadline in
  let sendAt := default (now w) found in
  let e := (src, dst, sendAt) in
  match (states w !! src) ≫= (λ line, line !! sendAt) with
  | None => err "missing graph source state"
  | Some source =>
      let w := match found with
               | Some _ => w
               | None => w <| edges ::= union {[e]} |>
                           <| states ::= alter (alter (λ s, s <| Outgoing ::= (λ l, l ++ [e]) |>) sendAt) src |>
                           <| payloads ::= (λ s, if payload then {[e]} ∪ s else s) |>
               end in
      let link := if cell latency src dst =? 0 then 1 else cell latency src dst in
      let at_ := i64 (sendAt + link) in
      let w := w <| now := at_ |> <| slack := i64 (deadline - sendAt) |> <| node := dst |> in
      match states w !! dst with
      | None => Panicked "index out of range"
      | Some line =>
          match open_state line dst at_ with
          | None => Panicked "nil pointer dereference"
          | Some dest =>
              let dest := learn_from src dst e source dest in
              let line := map_imap (λ t s, Some (if at_ <? t then learn_earlier dest s else s)) (<[at_ := dest]> line) in
              ok (w <| states ::= <[dst := line]> |>)
          end
      end
  end.

Fixpoint route (hops : nat) (payload : bool) (target : Z) (w : walker) : result walker :=
  if node w =? target then ok w else
  match hops with
  | O => err "cyclic shortest route"
  | S hops => try_ (hop payload target w) (route hops payload target)
  end.

(** [walk] *)
Definition walk (p budget : Z) (checkpoints : list Z) (cost : Z) (payload : bool) (w : walker) : result walker :=
  let w := w <| node := p |> <| now := 0 |> <| slack := if cost <=? budget then i64 (budget - cost) else 0 |> in
  try_each (route (Z.to_nat n) payload) checkpoints w.

(** [triangle]: [a], [w] and the cost; the order of [sort.Slice] is total on the
    entries of a list. *)
Record triangle := mkTriangle { ta : Z; tw : Z; cost : Z }.
Definition before (x y : triangle) : Prop :=
  if negb (cost x =? cost y) then cost y ≤ cost x
  else if negb (tw x =? tw y) then tw y ≤ tw x else ta y ≤ ta x.
#[export] Instance before_dec x y : Decision (before x y).
Proof. unfold before. destruct (negb (cost x =? cost y)); [|destruct (negb (tw x =? tw y))]; apply _. Defined.

Definition value_paths (p : Z) : list triangle :=
  merge_sort before (map (λ a, mkTriangle a 0 (cell dist p a)) (filter (λ a, a ≠ p) (seqZ 0 n))).
(** The body of the loop over [w]: [rs[p][w]] and [d[w][leader]] are indexed. *)
Definition add_entry (p leader : Z) (r : Requirement) (a w : Z) (ts : list triangle) : outcome (list triangle) :=
  match index r w with
  | None => Panicked "index out of range"
  | Some required =>
      if Z.land required (bit a) =? 0 then Done ts
      else if negb ((0 <=? leader) && (leader <? n)) then Panicked "index out of range"
      else Done (ts ++ [mkTriangle a w (i64 (i64 (cell dist p a + cell dist a w) + cell dist w leader))])
  end.
Definition triangles (p leader : Z) (r : Requirement) : outcome (list triangle) :=
  ts ← forEach (λ a, forEach (add_entry p leader r a) (seqZ 0 n)) (seqZ 0 n) [];
  Done (merge_sort before ts).

Definition knows_at (s : graphState) (w : Z) : Z := default 0 (index (Knowledge s) w).
Definition remote_at (s : graphState) (w : Z) : Z := default 0 (index (Remote s) w).

Definition add_triangle (p leader budget : Z) (t : triangle) (w : walker) : result walker :=
  match states w !! leader ≫= (λ line, previous line budget) with
  | None => Panicked "nil pointer dereference"
  | Some s =>
      if negb (Z.land (knows_at s (tw t)) (bit (ta t)) =? 0) then ok w
      else walk p budget [ta t; tw t; leader] (cost t) false w
  end.

(** The states of a node in the order of their times, their edges by target. *)
Definition earlier_state (x y : graphState) : Prop := Time x ≤ Time y.
Definition lower_target (x y : graphEdge) : Prop := To x ≤ To y.
#[export] Instance earlier_state_dec x y : Decision (earlier_state x y).
Proof. unfold earlier_state. apply _. Defined.
#[export] Instance lower_target_dec x y : Decision (lower_target x y).
Proof. unfold lower_target. apply _. Defined.
Definition sorted_states (line : timeline) : list graphState :=
  map (λ s, s <| Outgoing ::= merge_sort lower_target |>) (merge_sort earlier_state (map_to_list line).*2).

(** A state of a non-voter that sends: only the proposer's first one may. *)
Definition relays (p v : Z) (s : graphState) : bool :=
  (voters <=? v) && negb (bool_decide (Outgoing s = [])) && (negb (v =? p) || negb (bool_decide (Dependencies s = ∅))).

Definition check_witness (p leader : Z) (g : propagationGraph) (last : graphState) (wr : Z * Z) : result unit :=
  let '(w, required) := wr in
  match index (Knowledge last) w with
  | None => Panicked "index out of range"
  | Some known =>
  if negb (ReplicaSet.Covers known required) then err "graph misses witness" else
  match index (States g) w with
  | None => Panicked "index out of range"
  | Some ss =>
      match list.last ss with
      | None => Panicked "index out of range"
      | Some final =>
          if (w <? voters) && (negb (required =? 0) && negb (remote_at last w =? Time final)
                               || (required =? 0) && negb (length ss =? 2)%nat && negb (w =? p))
          then err "graph cannot use final-state adoption" else ok tt
      end
  end
  end.

Definition finish (p leader budget : Z) (r : Requirement) (w : walker) : result propagationGraph :=
  if existsb (λ e, (voters <=? From e) && (voters <=? To e)) (elements (edges w)) then err "client-to-client graph edge" else
  let lines := map (λ v, sorted_states (default ∅ (states w !! v))) (seqZ 0 n) in
  if existsb (λ vl : Z * list graphState, existsb (relays p vl.1) vl.2) (ranged lines) then err "non-voter relays proposer" else
  let g := mkGraph lines (payloads w) (edges w) in
  match index lines leader ≫= list.last with
  | None => Panicked "index out of range"
  | Some last_ =>
      if negb (Time last_ =? budget) then err "graph commit time differs from budget" else
      try_ (try_each (λ wr _, check_witness p leader g last_ wr) (ranged r) tt) (λ _, ok g)
  end.

Definition build_graph (p : Z) : result propagationGraph :=
  match index leaders p, index budgets p, index rs p with
  | Some leader, Some budget, Some r =>
      let w := mkWalker (first_states p) ∅ ∅ p 0 0 in
      ts ← triangles p leader r;
      try_ (try_each (λ t, walk p budget [ta t] (cost t) true) (value_paths p) w) (λ w,
      try_ (try_each (add_triangle p leader budget) ts w) (finish p leader budget r))
  | _, _, _ => Panicked "index out of range"
  end.

Definition buildPropagation : result (list propagationGraph) :=
  try_each (λ p gs, try_ (build_graph p) (λ g, ok (gs ++ [g]))) (seqZ 0 (Z.of_nat (length rs))) [].
End Build.

(** ** Knowledge *)
Definition kn (l : list Z) (w : Z) : Z := default 0 (l !! Z.to_nat w).
Definition within (x y : Z) : Prop := ∀ a, Z.testbit x a = true → Z.testbit y a = true.
#[export] Instance within_refl : Reflexive within.
Proof. by intros x a. Qed.
#[export] Instance within_trans : Transitive within.
Proof. intros x y z H1 H2 a H. auto. Qed.
Lemma within_lor x y z : within x z → within y z → within (Z.lor x y) z.
Proof. intros H1 H2 a. rewrite Z.lor_spec. intros [?|?]%orb_prop; auto. Qed.
Lemma within_l x y : within x (Z.lor x y).
Proof. intros a H. by rewrite Z.lor_spec, H. Qed.
Lemma within_r x y : within y (Z.lor x y).
Proof. intros a H. by rewrite Z.lor_spec, H, orb_true_r. Qed.
#[export] Hint Resolve within_l within_r within_lor : arena.

(** States by node and planned time, as they are built or in the graph. *)
Abbreviation lookup_state := (Z → Z → graphState → Prop).

(** What a process has been told by the messages its states depend on: a voter
    that has left the initial state has taken the value, and so has a voting
    proposer from the start. *)
Inductive knows (voters p : Z) (S : lookup_state) : Z → Z → Z → Prop :=
  | knows_self v t s : S v t s → v < voters → 0 < t ∨ v = p → knows voters p S v t v
  | knows_message src dst ts t s a : S dst t s → (src, dst, ts) ∈ Dependencies s → knows voters p S src ts a → knows voters p S dst t a
  | knows_later v t t' s a : knows voters p S v t a → t ≤ t' → S v t' s → knows voters p S v t' a.

Lemma knows_mono voters p (S S' : lookup_state) v t a :
  (∀ v t s, S v t s → ∃ s', S' v t s' ∧ Dependencies s ⊆ Dependencies s') → knows voters p S v t a → knows voters p S' v t a.
Proof.
  intros HS. induction 1 as [v t s Hs Hv Ht|src dst ts t s a Hs Hd Hk IH|v t t' s a Hk IH Ht Hs]; destruct (HS _ _ _ Hs) as (s' & Hs' & Hsub).
  - by eapply knows_self.
  - eapply knows_message; [done| |done]. set_solver.
  - by eapply knows_later.
Qed.

(** [w] was in state [r] when the messages that [v] depends on at [t] left it. *)
Inductive sees (S : lookup_state) : Z → Z → Z → Z → Prop :=
  | sees_self v t s : S v t s → sees S v t v t
  | sees_message src dst ts t s w r : S dst t s → (src, dst, ts) ∈ Dependencies s → sees S src ts w r → sees S dst t w r
  | sees_later v t t' s w r : sees S v t w r → t ≤ t' → S v t' s → sees S v t' w r.

Lemma sees_mono (S S' : lookup_state) v t w r :
  (∀ v t s, S v t s → ∃ s', S' v t s' ∧ Dependencies s ⊆ Dependencies s') → sees S v t w r → sees S' v t w r.
Proof.
  intros HS. induction 1 as [v t s Hs|src dst ts t s w r Hs Hd Hk IH|v t t' s w r Hk IH Ht Hs]; destruct (HS _ _ _ Hs) as (s' & Hs' & Hsub).
  - by eapply sees_self.
  - eapply sees_message; [done| |done]. set_solver.
  - by eapply sees_later.
Qed.

Section Sound.
Variables (n voters p : Z).

Definition at_state (st : gmap Z timeline) : lookup_state := λ v t s, ∃ line, st !! v = Some line ∧ line !! t = Some s.

(** The invariant of the construction. *)
Record schedule_ok (st : gmap Z timeline) : Prop := mkSchedule {
  so_node : ∀ v line, st !! v = Some line → 0 ≤ v < n ∧ is_Some (line !! 0);
  so_state : ∀ v t s, at_state st v t s → Time s = t ∧ 0 ≤ t ∧ Z.of_nat (length (Knowledge s)) = n ∧ Z.of_nat (length (Remote s)) = n;
  so_own : ∀ v t s, at_state st v t s → kn (Remote s) v = t;
  so_past : ∀ v t s w, at_state st v t s → 0 ≤ w < n → 0 ≤ kn (Remote s) w ≤ t;
  so_self : ∀ v t s, at_state st v t s → v < voters → 0 < t ∨ v = p → Z.testbit (kn (Knowledge s) v) v = true;
  so_mono : ∀ v t s t' s' w, at_state st v t s → at_state st v t' s' → t ≤ t' → 0 ≤ w < n →
    within (kn (Knowledge s) w) (kn (Knowledge s') w) ∧ kn (Remote s) w ≤ kn (Remote s') w;
  so_known : ∀ v t s w, at_state st v t s → 0 ≤ w < n →
    ∃ sw, at_state st w (kn (Remote s) w) sw ∧ within (kn (Knowledge s) w) (kn (Knowledge sw) w);
  so_causal : ∀ v t s a, at_state st v t s → Z.testbit (kn (Knowledge s) v) a = true → knows voters p (at_state st) v t a;
  so_deps : ∀ v t s e, at_state st v t s → e ∈ Dependencies s →
    To e = v ∧ ETime e < t ∧ ∃ s', at_state st (From e) (ETime e) s' ∧ e ∈ Outgoing s';
  so_out : ∀ v t s e, at_state st v t s → e ∈ Outgoing s → From e = v ∧ ETime e = t;
  so_seen : ∀ v t s w, at_state st v t s → 0 ≤ w < n → kn (Remote s) w ≠ 0 → sees (at_state st) v t w (kn (Remote s) w) }.

(** ** Lists of knowledge *)
Lemma kn_zip (f : Z → Z → Z) l1 l2 w :
  Z.of_nat (length l1) = n → Z.of_nat (length l2) = n → 0 ≤ w < n → kn (zip_with f l1 l2) w = f (kn l1 w) (kn l2 w).
Proof.
  intros H1 H2 Hw. unfold kn. rewrite lookup_zip_with.
  destruct (lookup_lt_is_Some_2 l1 (Z.to_nat w)) as [x ->]; [lia|]. by destruct (lookup_lt_is_Some_2 l2 (Z.to_nat w)) as [y ->]; [lia|].
Qed.
Lemma kn_alter f l v w :
  Z.of_nat (length l) = n → 0 ≤ v < n → 0 ≤ w < n → kn (alter f (Z.to_nat v) l) w = if decide (w = v) then f (kn l v) else kn l w.
Proof.
  intros Hl Hv Hw. unfold kn. destruct (decide (w = v)) as [->|Hne].
  - rewrite list_lookup_alter_eq. by destruct (lookup_lt_is_Some_2 l (Z.to_nat v)) as [x ->]; [lia|].
  - by rewrite list_lookup_alter_ne by lia.
Qed.
Lemma kn_insert x l v w :
  Z.of_nat (length l) = n → 0 ≤ v < n → 0 ≤ w < n → kn (<[Z.to_nat v := x]> l) w = if decide (w = v) then x else kn l w.
Proof.
  intros Hl Hv Hw. unfold kn. destruct (decide (w = v)) as [->|Hne]; [by rewrite list_lookup_insert_eq by lia|by rewrite list_lookup_insert_ne by lia].
Qed.
Lemma kn_replicate w : kn (replicate (Z.to_nat n) 0) w = 0.
Proof. unfold kn. destruct (replicate _ _ !! Z.to_nat w) eqn:E; [|done]. by apply lookup_replicate in E as [-> _]. Qed.

(** ** The start *)
Hypothesis Hn : 0 ≤ n ≤ 64.
Hypothesis Hvoters : voters ≤ n.

Lemma first_states_lookup v :
  first_states n voters p !! v = if decide (0 ≤ v < n) then Some {[0 := first_state n voters p v]} else None.
Proof.
  unfold first_states. assert (∀ l (m : gmap Z timeline), foldl (λ m v, <[v := {[0 := first_state n voters p v]}]> m) m l !! v =
    if decide (v ∈ l) then Some {[0 := first_state n voters p v]} else m !! v) as H.
  { intros l. induction l as [|x l IH]; intros m; cbn [foldl]; [done|]. rewrite IH.
    destruct (decide (v ∈ l)); [rewrite decide_True by (by right); done|]. destruct (decide (x = v)) as [->|Hne].
    - by rewrite decide_True, lookup_insert_eq by (by left).
    - rewrite lookup_insert_ne, decide_False by (done || by intros [-> |?]%elem_of_cons). done. }
  rewrite H. destruct (decide (v ∈ seqZ 0 n)) as [Hin|Hin]; rewrite elem_of_seqZ in Hin; [by rewrite decide_True by lia|].
  by rewrite decide_False by lia.
Qed.

Lemma first_at v t s : at_state (first_states n voters p) v t s → 0 ≤ v < n ∧ t = 0 ∧ s = first_state n voters p v.
Proof.
  intros (line & Hl & Hs). rewrite first_states_lookup in Hl. case_decide; [|done]. injection Hl as <-.
  apply lookup_singleton_Some in Hs as [<- <-]. done.
Qed.
Lemma first_lengths v : Z.of_nat (length (Knowledge (first_state n voters p v))) = n ∧ Z.of_nat (length (Remote (first_state n voters p v))) = n.
Proof. unfold first_state. cbn. destruct (_ && _); rewrite ?length_insert, !length_replicate; lia. Qed.
Lemma first_knowledge v w :
  0 ≤ v < n → 0 ≤ w < n → kn (Knowledge (first_state n voters p v)) w = if decide (v = p ∧ p < voters ∧ w = p) then bit p else 0.
Proof.
  intros Hv Hw. unfold first_state. cbn. destruct (Z.eqb_spec v p); cbn; [subst v|rewrite decide_False by tauto; apply kn_replicate].
  destruct (Z.ltb_spec p voters); cbn; [|rewrite decide_False by lia; apply kn_replicate].
  rewrite kn_insert by (rewrite ?length_replicate; lia). rewrite kn_replicate. destruct (decide (w = p)); [by rewrite decide_True|].
  by rewrite decide_False by tauto.
Qed.

Lemma first_states_ok : schedule_ok (first_states n voters p).
Proof.
  assert (∀ v w, kn (Remote (first_state n voters p v)) w = 0) as HR by (intros; apply kn_replicate).
  assert (∀ v, 0 ≤ v < n → at_state (first_states n voters p) v 0 (first_state n voters p v)) as Hat.
  { intros v Hv. exists {[0 := first_state n voters p v]}. split; [by rewrite first_states_lookup, decide_True|apply lookup_singleton_eq]. }
  constructor.
  - intros v line Hl. rewrite first_states_lookup in Hl. case_decide; [|done]. injection Hl as <-. split; [done|]. by rewrite lookup_singleton_eq.
  - intros v t s (Hv & -> & ->)%first_at. destruct (first_lengths v). split_and!; [done|lia|done|done].
  - intros v t s (Hv & -> & ->)%first_at. by rewrite HR.
  - intros v t s w (Hv & -> & ->)%first_at Hw. rewrite HR. lia.
  - intros v t s (Hv & -> & ->)%first_at Hlt [?| ->]; [lia|]. rewrite first_knowledge, decide_True by (done || lia). apply testbit_bit_self. lia.
  - intros v t s t' s' w (Hv & -> & ->)%first_at (_ & -> & ->)%first_at _ Hw. split; [done|lia].
  - intros v t s w (Hv & -> & ->)%first_at Hw. rewrite HR. exists (first_state n voters p w). split; [by apply Hat|].
    rewrite !first_knowledge by done. destruct (decide (v = p ∧ _)) as [(-> & ? & ->)|]; [by rewrite decide_True|].
    intros a. by rewrite Z.bits_0.
  - intros v t s a (Hv & -> & ->)%first_at. rewrite first_knowledge by done. case_decide as E; [|by rewrite Z.bits_0]. destruct E as (-> & ? & _).
    intros ->%testbit_bit_inv; [|lia]. eapply knows_self; [by apply Hat|done|by right].
  - intros v t s e (Hv & -> & ->)%first_at. unfold first_state. cbn. set_solver.
  - intros v t s e (Hv & -> & ->)%first_at. unfold first_state. cbn. intros ?%elem_of_nil. done.
  - intros v t s w (Hv & -> & ->)%first_at Hw. by rewrite HR.
Qed.

(** ** The last state before a time *)
Lemma previous_spec line limit :
  (∀ t s, line !! t = Some s → Time s = t) →
  match previous line limit with
  | Some b => ∃ t, line !! t = Some b ∧ t ≤ limit ∧ ∀ t' s', line !! t' = Some s' → t' ≤ limit → t' ≤ t
  | None => ∀ t s, line !! t = Some s → limit < t
  end.
Proof.
  intros HT. unfold previous.
  assert (∀ l, (∀ ts, ts ∈ l → line !! ts.1 = Some ts.2) →
    match foldl (λ best ts, later best ts.1 ts.2 limit) None l with
    | Some b => ∃ t, line !! t = Some b ∧ t ≤ limit ∧ ∀ ts, ts ∈ l → ts.1 ≤ limit → ts.1 ≤ t
    | None => ∀ ts, ts ∈ l → limit < ts.1
    end) as H.
  { intros l. induction l as [|x l IH] using rev_ind; intros Hl; [by intros ts ?%elem_of_nil|]. rewrite foldl_snoc.
    assert (∀ ts, ts ∈ l → line !! ts.1 = Some ts.2) as Hl' by (intros ts Hts; apply Hl; apply elem_of_app; by left).
    specialize (IH Hl'). assert (line !! x.1 = Some x.2) as Hx by (apply Hl, elem_of_app; right; by left).
    unfold later. destruct (Z.leb_spec x.1 limit).
    - destruct (foldl _ None l) as [b|].
      + destruct IH as (t & Hb & Hlt & Hmax). rewrite (HT _ _ Hb). destruct (Z.ltb_spec t x.1).
        * exists x.1. split_and!; [done|done|]. intros ts [Hts| ->%list_elem_of_singleton]%elem_of_app Hle; [specialize (Hmax ts Hts Hle)|]; lia.
        * exists t. split_and!; [done|done|]. intros ts [Hts| ->%list_elem_of_singleton]%elem_of_app Hle; [by apply Hmax|lia].
      + exists x.1. split_and!; [done|done|]. intros ts [Hts| ->%list_elem_of_singleton]%elem_of_app Hle; [specialize (IH ts Hts)|]; lia.
    - destruct (foldl _ None l) as [b|].
      + destruct IH as (t & Hb & Hlt & Hmax). exists t. split_and!; [done|done|].
        intros ts [Hts| ->%list_elem_of_singleton]%elem_of_app Hle; [by apply Hmax|lia].
      + intros ts [Hts| ->%list_elem_of_singleton]%elem_of_app; [by apply IH|done]. }
  specialize (H (map_to_list line)). assert (∀ ts, ts ∈ map_to_list line → line !! ts.1 = Some ts.2) as Hm by (by intros [t s] ?%elem_of_map_to_list).
  specialize (H Hm). destruct (foldl _ None (map_to_list line)) as [b|].
  - destruct H as (t & Hb & Hlt & Hmax). exists t. split_and!; [done|done|]. intros t' s' Ht'. apply (Hmax (t', s')). by apply elem_of_map_to_list.
  - intros t s Ht. apply (H (t, s)). by apply elem_of_map_to_list.
Qed.

(** ** Opening a state *)
Record base_ok (st : gmap Z timeline) (dst at_ : Z) (d : graphState) : Prop := mkBase {
  b_time : Time d = at_ ∧ Z.of_nat (length (Knowledge d)) = n ∧ Z.of_nat (length (Remote d)) = n;
  b_own : kn (Remote d) dst = at_;
  b_past : ∀ w, 0 ≤ w < n → 0 ≤ kn (Remote d) w ≤ at_;
  b_self : dst < voters → Z.testbit (kn (Knowledge d) dst) dst = true;
  b_low : ∀ t s w, at_state st dst t s → t ≤ at_ → 0 ≤ w < n →
    within (kn (Knowledge s) w) (kn (Knowledge d) w) ∧ kn (Remote s) w ≤ kn (Remote d) w;
  b_high : ∀ t s w, at_state st dst t s → at_ < t → 0 ≤ w < n →
    within (kn (Knowledge d) w) (kn (Knowledge s) w) ∧ kn (Remote d) w ≤ kn (Remote s) w;
  b_known : ∀ w, 0 ≤ w < n → w ≠ dst → ∃ sw, at_state st w (kn (Remote d) w) sw ∧ within (kn (Knowledge d) w) (kn (Knowledge sw) w);
  b_causal : ∀ a, Z.testbit (kn (Knowledge d) dst) a = true →
    a = dst ∧ dst < voters ∨ ∃ t, t ≤ at_ ∧ knows voters p (at_state st) dst t a;
  b_deps : ∀ e, e ∈ Dependencies d → To e = dst ∧ ETime e < at_ ∧ ∃ s', at_state st (From e) (ETime e) s' ∧ e ∈ Outgoing s';
  b_out : ∀ e, e ∈ Outgoing d → From e = dst ∧ ETime e = at_;
  b_seen : ∀ w, 0 ≤ w < n → w ≠ dst → kn (Remote d) w ≠ 0 → ∃ t, t ≤ at_ ∧ sees (at_state st) dst t w (kn (Remote d) w) }.

Lemma open_ok st line dst at_ d :
  schedule_ok st → st !! dst = Some line → 0 < at_ → open_state voters line dst at_ = Some d →
  base_ok st dst at_ d ∧ ∀ s, line !! at_ = Some s → s = d.
Proof.
  intros Hok Hl Hat Hd. destruct (so_node _ Hok dst line Hl) as [Hdst _].
  assert (∀ t s, line !! t = Some s → at_state st dst t s) as Hin by (intros t s Hs; by exists line).
  unfold open_state in Hd. destruct (line !! at_) as [s0|] eqn:E0.
  { injection Hd as <-. apply Hin in E0 as Hs0. split; [|by intros s [= <-]]. constructor.
    - destruct (so_state _ Hok _ _ _ Hs0) as (? & ? & ? & ?). done.
    - by apply (so_own _ Hok).
    - intros w Hw. by apply (so_past _ Hok dst at_).
    - intros Hv. apply (so_self _ Hok dst at_); auto.
    - intros t s w Hs Hle Hw. by apply (so_mono _ Hok dst t s at_).
    - intros t s w Hs Hlt Hw. apply (so_mono _ Hok dst at_ s0 t); [done|done|lia|done].
    - intros w Hw _. by apply (so_known _ Hok dst at_).
    - intros a Ha. right. exists at_. split; [lia|]. by apply (so_causal _ Hok dst at_ s0).
    - intros e He. by apply (so_deps _ Hok dst at_ s0).
    - intros e He. by apply (so_out _ Hok dst at_ s0).
    - intros w Hw _ Hr. exists at_. split; [lia|]. by apply (so_seen _ Hok dst at_ s0). }
  pose proof (previous_spec line at_ (λ t s Hs, proj1 (so_state _ Hok _ _ _ (Hin t s Hs)))) as Hp.
  destruct (previous line at_) as [b|]; [|done]. destruct Hp as (tb & Hb & Hle & Hmax).
  assert (tb < at_) as Hlt. { destruct (decide (tb = at_)) as [->|]; [by rewrite E0 in Hb|lia]. }
  apply Hin in Hb as Hsb. destruct (so_state _ Hok _ _ _ Hsb) as (HTb & Htb & HLk & HLr). split; [|by intros s].
  injection Hd as <-. cbn. set (K := if dst <? voters then _ else _).
  assert (Z.of_nat (length K) = n) as HLK by (unfold K; destruct (dst <? voters); rewrite ?length_alter; done).
  assert (∀ w, 0 ≤ w < n → kn K w = if decide (w = dst ∧ dst < voters) then Z.lor (kn (Knowledge b) dst) (bit dst) else kn (Knowledge b) w) as HK.
  { intros w Hw. unfold K. destruct (Z.ltb_spec dst voters); [|by rewrite decide_False by lia]. rewrite kn_alter by done.
    destruct (decide (w = dst)); [by rewrite decide_True|by rewrite decide_False by tauto]. }
  assert (∀ w, 0 ≤ w < n → kn (<[Z.to_nat dst := at_]> (Remote b)) w = if decide (w = dst) then at_ else kn (Remote b) w) as HR
    by (intros w Hw; by rewrite kn_insert).
  assert (∀ w, 0 ≤ w < n → within (kn (Knowledge b) w) (kn K w)) as Hup.
  { intros w Hw. rewrite HK by done. destruct (decide (w = dst ∧ _)) as [[-> _]|]; [apply within_l|reflexivity]. }
  constructor; cbn.
  - split_and!; [done|done|by rewrite length_insert].
  - by rewrite HR, decide_True.
  - intros w Hw. rewrite HR by done. destruct (decide (w = dst)); [lia|]. pose proof (so_past _ Hok dst tb b w Hsb Hw). lia.
  - intros Hv. rewrite HK, decide_True by done. apply within_r, testbit_bit_self. lia.
  - intros t s w Hs Hle' Hw. destruct Hs as (line0 & Hl0 & Hs). rewrite Hl in Hl0. injection Hl0 as <-. specialize (Hmax t s Hs Hle').
    destruct (so_mono _ Hok dst t s tb b w (Hin _ _ Hs) Hsb Hmax Hw) as [M1 M2]. split; [etrans; [exact M1|by apply Hup]|].
    rewrite HR by done. destruct (decide (w = dst)) as [->|]; [|done]. pose proof (so_past _ Hok dst tb b dst Hsb Hw). lia.
  - intros t s w Hs Hlt' Hw. destruct (so_mono _ Hok dst tb b t s w Hsb Hs ltac:(lia) Hw) as [M1 M2]. rewrite HK, HR by done. split.
    + destruct (decide (w = dst ∧ dst < voters)) as [[-> Hv]|]; [|done]. apply within_lor; [done|].
      intros a ->%testbit_bit_inv; [|lia]. apply (so_self _ Hok dst t); auto with lia.
    + destruct (decide (w = dst)) as [->|]; [|done]. rewrite (so_own _ Hok dst t s Hs). lia.
  - intros w Hw Hne. rewrite HK, HR by done. rewrite !decide_False by tauto. by apply (so_known _ Hok dst tb).
  - intros a. rewrite HK by done. destruct (decide (dst = dst ∧ dst < voters)) as [[_ Hv]|].
    + rewrite Z.lor_spec. intros [Ha| ->%testbit_bit_inv]%orb_prop; [right|by left|lia]. exists tb. split; [lia|]. by apply (so_causal _ Hok dst tb b).
    + intros Ha. right. exists tb. split; [lia|]. by apply (so_causal _ Hok dst tb b).
  - intros e He. set_solver.
  - intros e He. by apply elem_of_nil in He.
  - intros w Hw Hne. rewrite HR, decide_False by done. intros Hr. exists tb. split; [lia|]. by apply (so_seen _ Hok dst tb b).
Qed.

(** ** A message of a walk *)
Definition sized (s : graphState) : Prop := Z.of_nat (length (Knowledge s)) = n ∧ Z.of_nat (length (Remote s)) = n.
Lemma learn_earlier_sized d s : sized d → sized s → sized (learn_earlier d s).
Proof. intros [? ?] [? ?]. unfold sized, learn_earlier, merge_remote. cbn. rewrite !length_zip_with. lia. Qed.
Lemma learn_earlier_kn d s w : sized d → sized s → 0 ≤ w < n →
  kn (Knowledge (learn_earlier d s)) w = Z.lor (kn (Knowledge s) w) (kn (Knowledge d) w) ∧
  kn (Remote (learn_earlier d s)) w = Z.max (kn (Remote s) w) (kn (Remote d) w).
Proof. intros [? ?] [? ?] Hw. unfold learn_earlier, merge_remote. cbn. by rewrite !kn_zip. Qed.

Section Update.
Variables (st : gmap Z timeline) (line : timeline) (src dst sent at_ : Z) (source base : graphState).
Let e : graphEdge := (src, dst, sent).
Let dest : graphState := learn_from src dst e source base.
Let line' : timeline := map_imap (λ t s, Some (if at_ <? t then learn_earlier dest s else s)) (<[at_ := dest]> line).
Let st' : gmap Z timeline := <[dst := line']> st.
Hypothesis Hok : schedule_ok st.
Hypothesis Hline : st !! dst = Some line.
Hypothesis Hsource : at_state st src sent source.
Hypothesis Hsent : sent < at_.
Hypothesis Hedge : e ∈ Outgoing source.
Hypothesis Hbase : base_ok st dst at_ base.
Hypothesis Hold : ∀ s, line !! at_ = Some s → s = base.

Lemma update_at v t s : at_state st' v t s ↔
  v ≠ dst ∧ at_state st v t s ∨
  v = dst ∧ (t = at_ ∧ s = dest ∨ t < at_ ∧ at_state st dst t s ∨ at_ < t ∧ ∃ s0, at_state st dst t s0 ∧ s = learn_earlier dest s0).
Proof.
  unfold at_state, st'. split.
  - intros (l & Hl & Hs). apply lookup_insert_Some in Hl as [[<- <-]|[Hne Hl]]; [right|left; split; [done|by exists l]]. split; [done|].
    unfold line' in Hs. rewrite map_lookup_imap in Hs. apply bind_Some in Hs as (s0 & Hs0 & [= <-]).
    apply lookup_insert_Some in Hs0 as [[<- <-]|[Hne Hs0]]; [left; split; [done|by rewrite Z.ltb_irrefl]|right].
    destruct (Z.ltb_spec at_ t); [right; split; [done|]; exists s0; split; [by exists line|done]|left]. split; [lia|by exists line].
  - intros [[Hne (l & Hl & Hs)]|[-> H]]; [exists l; split; [by rewrite lookup_insert_ne|done]|]. exists line'. split; [by rewrite lookup_insert_eq|].
    unfold line'. rewrite map_lookup_imap. destruct H as [[-> ->]|[(Hlt & l & Hl & Hs)|(Hlt & s0 & (l & Hl & Hs) & ->)]].
    + rewrite lookup_insert_eq. cbn. by rewrite Z.ltb_irrefl.
    + rewrite Hline in Hl. injection Hl as <-. rewrite lookup_insert_ne, Hs by lia. cbn. by rewrite (proj2 (Z.ltb_ge at_ t)) by lia.
    + rewrite Hline in Hl. injection Hl as <-. rewrite lookup_insert_ne, Hs by lia. cbn. by rewrite (proj2 (Z.ltb_lt at_ t)) by lia.
Qed.

Lemma nodes_in_range : 0 ≤ src < n ∧ 0 ≤ dst < n ∧ 0 ≤ sent.
Proof.
  destruct Hsource as (l & Hl & _). split_and!.
  1-2: by apply (so_node _ Hok src l). 1-2: by apply (so_node _ Hok dst line). by apply (so_state _ Hok src sent source).
Qed.

Lemma dest_lengths : Time dest = at_ ∧ Z.of_nat (length (Knowledge dest)) = n ∧ Z.of_nat (length (Remote dest)) = n.
Proof.
  destruct (b_time _ _ _ _ Hbase) as (? & ? & ?), (so_state _ Hok _ _ _ Hsource) as (_ & _ & ? & ?).
  unfold dest, learn_from. cbn. unfold merge_remote. rewrite !length_zip_with, length_alter. split_and!; [done|lia|lia].
Qed.

Lemma dest_knowledge w : 0 ≤ w < n → kn (Knowledge dest) w =
  Z.lor (if decide (w = dst) then Z.lor (kn (Knowledge base) dst) (kn (Knowledge source) src) else kn (Knowledge base) w) (kn (Knowledge source) w).
Proof.
  intros Hw. destruct (b_time _ _ _ _ Hbase) as (? & ? & ?), (so_state _ Hok _ _ _ Hsource) as (_ & _ & ? & ?), nodes_in_range as (? & ? & ?).
  unfold dest, learn_from. cbn. rewrite kn_zip by (rewrite ?length_alter; done). by rewrite kn_alter.
Qed.
Lemma dest_remote w : 0 ≤ w < n → kn (Remote dest) w = Z.max (kn (Remote base) w) (kn (Remote source) w).
Proof.
  intros Hw. destruct (b_time _ _ _ _ Hbase) as (? & ? & ?), (so_state _ Hok _ _ _ Hsource) as (_ & _ & ? & ?).
  unfold dest, learn_from, merge_remote. cbn. by rewrite kn_zip.
Qed.
Lemma dest_own : kn (Remote dest) dst = at_.
Proof.
  destruct nodes_in_range as (? & ? & ?). rewrite dest_remote, (b_own _ _ _ _ Hbase) by done.
  pose proof (so_past _ Hok src sent source dst Hsource ltac:(done)). lia.
Qed.
Lemma dest_above w : 0 ≤ w < n → within (kn (Knowledge base) w) (kn (Knowledge dest) w) ∧ kn (Remote base) w ≤ kn (Remote dest) w.
Proof.
  intros Hw. rewrite dest_knowledge, dest_remote by done. split; [|lia]. etrans; [|apply within_l].
  destruct (decide (w = dst)) as [->|]; [apply within_l|reflexivity].
Qed.

Lemma dest_sized : sized dest.
Proof. apply dest_lengths. Qed.
Lemma state_sized v t s : at_state st v t s → sized s.
Proof. intros Hs. by destruct (so_state _ Hok _ _ _ Hs) as (_ & _ & ? & ?). Qed.
Lemma later_lengths s t : at_state st dst t s → sized (learn_earlier dest s).
Proof. intros Hs. apply learn_earlier_sized; [apply dest_sized|by eapply state_sized]. Qed.
Lemma later_knowledge s t w : at_state st dst t s → 0 ≤ w < n →
  kn (Knowledge (learn_earlier dest s)) w = Z.lor (kn (Knowledge s) w) (kn (Knowledge dest) w) ∧
  kn (Remote (learn_earlier dest s)) w = Z.max (kn (Remote s) w) (kn (Remote dest) w).
Proof. intros Hs Hw. apply learn_earlier_kn; [apply dest_sized|by eapply state_sized|done]. Qed.

(** Every state is kept, with more knowledge. *)
Lemma update_grows v t s : at_state st v t s → ∃ s', at_state st' v t s' ∧ Dependencies s ⊆ Dependencies s' ∧ Outgoing s' = Outgoing s ∧
  ∀ w, 0 ≤ w < n → within (kn (Knowledge s) w) (kn (Knowledge s') w) ∧ kn (Remote s) w ≤ kn (Remote s') w.
Proof.
  intros Hs. destruct (decide (v = dst)) as [->|Hne]; [|exists s; split; [apply update_at; by left|done]].
  destruct (Z.lt_trichotomy t at_) as [Hlt|[->|Hlt]].
  - exists s. split; [apply update_at; right; split; [done|]; right; by left|done].
  - destruct Hs as (l & Hl & Hs). rewrite Hline in Hl. injection Hl as <-. apply Hold in Hs as ->. exists dest.
    split; [apply update_at; right; split; [done|]; by left|]. split; [|split; [done|apply dest_above]]. unfold dest, learn_from. cbn. set_solver.
  - exists (learn_earlier dest s). split; [apply update_at; right; split; [done|]; right; right; split; [done|]; by exists s|].
    split; [done|]. split; [done|]. intros w Hw. destruct (later_knowledge s t w Hs Hw) as [-> ->]. split; [apply within_l|lia].
Qed.

Lemma update_knows v t a : knows voters p (at_state st) v t a → knows voters p (at_state st') v t a.
Proof. apply knows_mono. intros v' t' s Hs. destruct (update_grows v' t' s Hs) as (s' & ? & ? & _). by exists s'. Qed.

Lemma update_sees v t w r : sees (at_state st) v t w r → sees (at_state st') v t w r.
Proof. apply sees_mono. intros v' t' s Hs. destruct (update_grows v' t' s Hs) as (s' & ? & ? & _). by exists s'. Qed.

Lemma at_dest : at_state st' dst at_ dest.
Proof. apply update_at. right. split; [done|]. by left. Qed.
Lemma zero_lt_at : 0 < at_.
Proof. destruct nodes_in_range as (_ & _ & ?). lia. Qed.

Lemma update_mono v t s t' s' w : at_state st' v t s → at_state st' v t' s' → t ≤ t' → 0 ≤ w < n →
  within (kn (Knowledge s) w) (kn (Knowledge s') w) ∧ kn (Remote s) w ≤ kn (Remote s') w.
Proof.
  intros Hs Hs' Hle Hw. pose proof (dest_above w Hw) as [D1 D2].
  apply update_at in Hs as [[Hne Hs]|[-> Hs]], Hs' as [[Hne' Hs']|[Ev Hs']]; try done; [by apply (so_mono _ Hok v t s t' s')|]. clear Ev.
  destruct Hs as [[-> ->]|[[Hlt Hs]|(Hlt & s0 & Hs & ->)]], Hs' as [[-> ->]|[[Hlt' Hs']|(Hlt' & s0' & Hs' & ->)]]; try lia.
  - done.
  - destruct (later_knowledge s0' t' w Hs' Hw) as [-> ->]. split; [apply within_r|lia].
  - destruct (b_low _ _ _ _ Hbase t s w Hs ltac:(lia) Hw). split; [by etrans|lia].
  - by apply (so_mono _ Hok dst t s t' s').
  - destruct (so_mono _ Hok dst t s t' s0' w Hs Hs' Hle Hw), (later_knowledge s0' t' w Hs' Hw) as [-> ->].
    split; [etrans; [done|apply within_l]|lia].
  - destruct (so_mono _ Hok dst t s0 t' s0' w Hs Hs' Hle Hw), (later_knowledge s0 t w Hs Hw) as [-> ->], (later_knowledge s0' t' w Hs' Hw) as [-> ->].
    split; [apply within_lor; [etrans; [done|apply within_l]|apply within_r]|lia].
Qed.

(** What is known of [w] is in a state of [w]. *)
Definition backed (w k r : Z) : Prop := ∃ sw, at_state st' w r sw ∧ within k (kn (Knowledge sw) w).
Lemma backed_join w k1 r1 k2 r2 : 0 ≤ w < n → backed w k1 r1 → backed w k2 r2 → backed w (Z.lor k1 k2) (Z.max r1 r2).
Proof.
  intros Hw (s1 & H1 & W1) (s2 & H2 & W2). destruct (Z.le_gt_cases r1 r2).
  - rewrite Z.max_r by done. exists s2. split; [done|]. apply within_lor; [|done]. etrans; [exact W1|]. by apply (update_mono w r1 s1 r2).
  - rewrite Z.max_l by lia. exists s1. split; [done|]. apply within_lor; [done|]. etrans; [exact W2|]. apply (update_mono w r2 s2 r1); [done|done|lia|done].
Qed.
Lemma backed_old w v t s : at_state st v t s → 0 ≤ w < n → backed w (kn (Knowledge s) w) (kn (Remote s) w).
Proof.
  intros Hs Hw. destruct (so_known _ Hok v t s w Hs Hw) as (sw & Hsw & Hk). destruct (update_grows _ _ _ Hsw) as (sw' & Hsw' & _ & _ & Hg).
  exists sw'. split; [done|]. etrans; [exact Hk|]. by apply Hg.
Qed.
Lemma backed_dest w : 0 ≤ w < n → backed w (kn (Knowledge dest) w) (kn (Remote dest) w).
Proof.
  intros Hw. destruct (decide (w = dst)) as [->|Hne].
  - rewrite dest_own. exists dest. split; [apply at_dest|reflexivity].
  - rewrite dest_knowledge, dest_remote, decide_False by done. apply backed_join; [done| |by eapply backed_old].
    destruct (b_known _ _ _ _ Hbase w Hw Hne) as (sw & Hsw & Hk). destruct (update_grows _ _ _ Hsw) as (sw' & Hsw' & _ & _ & Hg).
    exists sw'. split; [done|]. etrans; [exact Hk|]. by apply Hg.
Qed.

Lemma dest_causal a : Z.testbit (kn (Knowledge dest) dst) a = true → knows voters p (at_state st') dst at_ a.
Proof.
  destruct nodes_in_range as (Hsrc & Hdst & Hs0). rewrite dest_knowledge, decide_True, !Z.lor_spec by done.
  intros [[Ha|Ha]%orb_prop|Ha]%orb_prop.
  - destruct (b_causal _ _ _ _ Hbase a Ha) as [[-> Hv]|(t & Ht & Hk)].
    + eapply knows_self; [apply at_dest|done|left; apply zero_lt_at].
    + eapply knows_later; [by apply update_knows|done|apply at_dest].
  - eapply knows_message; [apply at_dest| |apply update_knows, (so_causal _ Hok src sent source a Hsource Ha)].
    unfold dest, learn_from. cbn. set_solver.
  - destruct (so_known _ Hok src sent source dst Hsource Hdst) as (sw & Hsw & Hk). specialize (Hk a Ha).
    pose proof (so_past _ Hok src sent source dst Hsource Hdst).
    eapply knows_later; [apply update_knows, (so_causal _ Hok _ _ _ _ Hsw Hk)|lia|apply at_dest].
Qed.

Lemma dest_seen w : 0 ≤ w < n → kn (Remote dest) w ≠ 0 → sees (at_state st') dst at_ w (kn (Remote dest) w).
Proof.
  intros Hw. destruct (decide (w = dst)) as [->|Hne]; [rewrite dest_own; intros _; eapply sees_self; apply at_dest|].
  rewrite dest_remote by done. pose proof (b_past _ _ _ _ Hbase w Hw). pose proof (so_past _ Hok src sent source w Hsource Hw). intros Hr.
  destruct (Z.le_gt_cases (kn (Remote source) w) (kn (Remote base) w)).
  - rewrite Z.max_l in * by done. destruct (b_seen _ _ _ _ Hbase w Hw Hne Hr) as (t & Ht & Hk).
    eapply sees_later; [by apply update_sees|done|apply at_dest].
  - rewrite Z.max_r in * by lia. eapply sees_message; [apply at_dest| |apply update_sees, (so_seen _ Hok src sent source w Hsource Hw Hr)].
    unfold dest, learn_from. cbn. set_solver.
Qed.

Lemma update_ok : schedule_ok st'.
Proof.
  destruct nodes_in_range as (Hsrc & Hdst & Hs0). constructor.
  - intros v l Hl. unfold st' in Hl. apply lookup_insert_Some in Hl as [[<- <-]|[Hne Hl]]; [|by apply (so_node _ Hok)]. split; [done|].
    destruct (so_node _ Hok dst line Hline) as [_ [s0 Hz]]. unfold line'. rewrite map_lookup_imap, lookup_insert_ne, Hz by (pose proof zero_lt_at; lia).
    by eexists.
  - intros v t s [[Hne Hs]|[-> Hs]]%update_at; [by apply (so_state _ Hok v)|].
    destruct Hs as [[-> ->]|[[Hlt Hs]|(Hlt & s0 & Hs & ->)]].
    + destruct dest_lengths as (? & ? & ?). pose proof zero_lt_at. split_and!; [done|lia|done..].
    + by apply (so_state _ Hok dst).
    + destruct (later_lengths s0 t Hs). destruct (so_state _ Hok _ _ _ Hs) as (? & ? & _). done.
  - intros v t s [[Hne Hs]|[-> Hs]]%update_at; [by apply (so_own _ Hok)|].
    destruct Hs as [[-> ->]|[[Hlt Hs]|(Hlt & s0 & Hs & ->)]]; [apply dest_own|by apply (so_own _ Hok)|].
    destruct (later_knowledge s0 t dst Hs Hdst) as [_ ->]. rewrite dest_own, (so_own _ Hok dst t s0 Hs). lia.
  - intros v t s w [[Hne Hs]|[-> Hs]]%update_at Hw; [by apply (so_past _ Hok v)|].
    assert (0 ≤ kn (Remote dest) w ≤ at_) as Hd.
    { rewrite dest_remote by done. pose proof (b_past _ _ _ _ Hbase w Hw). pose proof (so_past _ Hok src sent source w Hsource Hw). lia. }
    destruct Hs as [[-> ->]|[[Hlt Hs]|(Hlt & s0 & Hs & ->)]]; [done|by apply (so_past _ Hok dst)|].
    destruct (later_knowledge s0 t w Hs Hw) as [_ ->]. pose proof (so_past _ Hok dst t s0 w Hs Hw). lia.
  - intros v t s Hs Hv Ht. apply update_at in Hs as [[Hne Hs]|[-> Hs]]; [by apply (so_self _ Hok v t)|].
    destruct Hs as [[-> ->]|[[Hlt Hs]|(Hlt & s0 & Hs & ->)]]; [|by apply (so_self _ Hok dst t)|].
    + apply (dest_above dst Hdst). by apply (b_self _ _ _ _ Hbase).
    + destruct (later_knowledge s0 t dst Hs Hdst) as [-> _]. apply within_l. apply (so_self _ Hok dst t); auto.
  - apply update_mono.
  - intros v t s w Hs Hw. change (backed w (kn (Knowledge s) w) (kn (Remote s) w)).
    apply update_at in Hs as [[Hne Hs]|[-> Hs]]; [by eapply backed_old|].
    destruct Hs as [[-> ->]|[[Hlt Hs]|(Hlt & s0 & Hs & ->)]]; [by apply backed_dest|by eapply backed_old|].
    destruct (later_knowledge s0 t w Hs Hw) as [-> ->]. apply backed_join; [done|by eapply backed_old|by apply backed_dest].
  - intros v t s a Hs Ha. pose proof Hs as Hs'. apply update_at in Hs as [[Hne Hs]|[-> Hs]]; [by apply update_knows, (so_causal _ Hok v t s)|].
    destruct Hs as [[-> ->]|[[Hlt Hs]|(Hlt & s0 & Hs & ->)]]; [by apply dest_causal|by apply update_knows, (so_causal _ Hok dst t s)|].
    destruct (later_knowledge s0 t dst Hs Hdst) as [E _]. rewrite E, Z.lor_spec in Ha. apply orb_prop in Ha as [Ha|Ha].
    + by apply update_knows, (so_causal _ Hok dst t s0).
    + eapply knows_later; [by apply dest_causal|lia|done].
  - intros v t s d Hs Hd.
    assert (∀ v t s, at_state st v t s → d ∈ Outgoing s → ∃ s', at_state st' v t s' ∧ d ∈ Outgoing s') as Hout.
    { intros v0 t0 s0 Hst0 Hin. destruct (update_grows _ _ _ Hst0) as (s' & ? & _ & E & _). exists s'. by rewrite E. }
    assert (∀ t s, at_state st v t s → d ∈ Dependencies s → To d = v ∧ ETime d < t ∧ ∃ s', at_state st' (From d) (ETime d) s' ∧ d ∈ Outgoing s') as Hdep.
    { intros t0 s0 Hst0 Hd0. destruct (so_deps _ Hok v t0 s0 d Hst0 Hd0) as (? & ? & s' & ? & ?). split_and!; [done|done|by eapply Hout]. }
    apply update_at in Hs as [[Hne Hs]|[-> Hs]]; [by apply (Hdep t s)|].
    destruct Hs as [[-> ->]|[[Hlt Hs]|(Hlt & s0 & Hs & ->)]]; [|by apply (Hdep t s)|by apply (Hdep t s0)].
    unfold dest, learn_from in Hd. cbn in Hd. apply elem_of_union in Hd as [->%elem_of_singleton|Hd].
    + split_and!; [done|done|by eapply Hout].
    + destruct (b_deps _ _ _ _ Hbase d Hd) as (? & ? & s' & ? & ?). split_and!; [done|done|by eapply Hout].
  - intros v t s d [[Hne Hs]|[-> Hs]]%update_at Hd; [by apply (so_out _ Hok v t s)|].
    destruct Hs as [[-> ->]|[[Hlt Hs]|(Hlt & s0 & Hs & ->)]]; [by apply (b_out _ _ _ _ Hbase)|by apply (so_out _ Hok dst t s)|].
    by apply (so_out _ Hok dst t s0).
  - intros v t s w Hs Hw Hr. pose proof Hs as Hs'. apply update_at in Hs as [[Hne Hs]|[-> Hs]]; [by apply update_sees, (so_seen _ Hok v t s)|].
    destruct Hs as [[-> ->]|[[Hlt Hs]|(Hlt & s0 & Hs & ->)]]; [by apply dest_seen|by apply update_sees, (so_seen _ Hok dst t s)|].
    destruct (later_knowledge s0 t w Hs Hw) as [_ E]. rewrite E in Hr |- *. destruct (Z.le_gt_cases (kn (Remote dest) w) (kn (Remote s0) w)).
    + rewrite Z.max_l in * by done. by apply update_sees, (so_seen _ Hok dst t s0).
    + rewrite Z.max_r in * by lia. eapply sees_later; [by apply dest_seen|lia|done].
Qed.
End Update.

(** A new message changes nothing but what its state sends. *)
Section Announce.
Variables (st : gmap Z timeline) (src sent : Z) (e : graphEdge).
Let announce (s : graphState) : graphState := s <| Outgoing ::= (λ l, l ++ [e]) |>.
Let st' : gmap Z timeline := alter (alter announce sent) src st.

Lemma announce_at v t s : at_state st' v t s ↔ ∃ s0, at_state st v t s0 ∧ s = if decide (v = src ∧ t = sent) then announce s0 else s0.
Proof.
  unfold at_state, st'. split.
  - intros (l & Hl & Hs). apply lookup_alter_Some in Hl as [(<- & l0 & Hl0 & ->)|[Hne Hl]].
    + apply lookup_alter_Some in Hs as [(<- & s0 & Hs0 & ->)|[Hne Hs]].
      * exists s0. split; [by exists l0|by rewrite decide_True].
      * exists s. split; [by exists l0|by rewrite decide_False by (intros [_ ?]; congruence)].
    + exists s. split; [by exists l|by rewrite decide_False by (intros [? _]; congruence)].
  - intros (s0 & (l & Hl & Hs) & ->). destruct (decide (v = src)) as [->|Hne].
    + exists (alter announce sent l). split; [by rewrite lookup_alter_eq, Hl|]. destruct (decide (t = sent)) as [->|Hne].
      * by rewrite lookup_alter_eq, Hs, decide_True.
      * by rewrite lookup_alter_ne, Hs, decide_False by (tauto || done).
    + exists l. split; [by rewrite lookup_alter_ne|]. by rewrite decide_False by tauto.
Qed.
Lemma announce_from v t s0 : at_state st v t s0 → ∃ s, at_state st' v t s ∧ Knowledge s = Knowledge s0 ∧ Remote s = Remote s0 ∧
  Time s = Time s0 ∧ Dependencies s = Dependencies s0 ∧ (∀ d, d ∈ Outgoing s0 → d ∈ Outgoing s).
Proof.
  intros Hs. exists (if decide (v = src ∧ t = sent) then announce s0 else s0). split; [apply announce_at; by exists s0|].
  case_decide; [|done]. split_and!; [done..|]. intros d Hd. unfold announce. cbn. apply elem_of_app. by left.
Qed.
Lemma announce_to v t s : at_state st' v t s → ∃ s0, at_state st v t s0 ∧ Knowledge s = Knowledge s0 ∧ Remote s = Remote s0 ∧
  Time s = Time s0 ∧ Dependencies s = Dependencies s0.
Proof. intros (s0 & Hs0 & ->)%announce_at. exists s0. by case_decide. Qed.

Lemma announce_ok : From e = src → ETime e = sent → schedule_ok st → schedule_ok st'.
Proof.
  intros Hfrom Htime Hok. constructor.
  - intros v l Hl. unfold st' in Hl. apply lookup_alter_Some in Hl as [(<- & l0 & Hl0 & ->)|[Hne Hl]]; [|by apply (so_node _ Hok)].
    destruct (so_node _ Hok src l0 Hl0) as [? Hz]. split; [done|]. by rewrite lookup_alter_is_Some.
  - intros v t s (s0 & Hs & Ek & Er & Et & Ed)%announce_to. rewrite Ek, Er, Et. by apply (so_state _ Hok v).
  - intros v t s (s0 & Hs & Ek & Er & Et & Ed)%announce_to. rewrite Er. by apply (so_own _ Hok).
  - intros v t s w (s0 & Hs & Ek & Er & Et & Ed)%announce_to Hw. rewrite Er. by apply (so_past _ Hok v).
  - intros v t s (s0 & Hs & Ek & Er & Et & Ed)%announce_to. rewrite Ek. by apply (so_self _ Hok v t).
  - intros v t s t' s' w (s0 & Hs & Ek & Er & Et & Ed)%announce_to (s0' & Hs' & Ek' & Er' & _)%announce_to. rewrite Ek, Er, Ek', Er'.
    by apply (so_mono _ Hok v).
  - intros v t s w (s0 & Hs & Ek & Er & Et & Ed)%announce_to Hw. rewrite Ek, Er. destruct (so_known _ Hok v t s0 w Hs Hw) as (sw & Hsw & Hk).
    destruct (announce_from _ _ _ Hsw) as (sw' & Hsw' & Ek' & _). exists sw'. by rewrite Ek'.
  - intros v t s a (s0 & Hs & Ek & Er & Et & Ed)%announce_to. rewrite Ek. intros Ha. apply (knows_mono _ _ (at_state st)); [|by apply (so_causal _ Hok v t s0)].
    intros v' t' x Hx. destruct (announce_from _ _ _ Hx) as (x' & Hx' & _ & _ & _ & E & _). exists x'. by rewrite E.
  - intros v t s d (s0 & Hs & Ek & Er & Et & Ed)%announce_to. rewrite Ed. intros Hd. destruct (so_deps _ Hok v t s0 d Hs Hd) as (? & ? & s' & Hs' & Ho).
    split_and!; [done|done|]. destruct (announce_from _ _ _ Hs') as (x & Hx & _ & _ & _ & _ & Hout). exists x. auto.
  - intros v t s d (s0 & Hs & ->)%announce_at Hd. case_decide as Hvt; [|by apply (so_out _ Hok v t s0)].
    unfold announce in Hd. cbn in Hd. apply elem_of_app in Hd as [Hd| ->%list_elem_of_singleton]; [by apply (so_out _ Hok v t s0)|].
    destruct Hvt as [-> ->]. done.
  - intros v t s w (s0 & Hs & Ek & Er & Et & Ed)%announce_to Hw. rewrite Er. intros Hr.
    apply (sees_mono (at_state st)); [|by apply (so_seen _ Hok v t s0)].
    intros v' t' x Hx. destruct (announce_from _ _ _ Hx) as (x' & Hx' & _ & _ & _ & E & _). exists x'. by rewrite E.
Qed.
End Announce.
End Sound.

(** ** The construction keeps it *)
(** No panic, and [Q] of the result unless it is an error. *)
Definition okay {A} (r : result A) (Q : A → Prop) : Prop :=
  match r with Done (inr a) => Q a | Done (inl _) => True | Panicked _ | OutOfFuel => False end.
Lemma okay_try {A B} (r : result A) (k : A → result B) (P : A → Prop) (Q : B → Prop) :
  okay r P → (∀ a, P a → okay (k a) Q) → okay (try_ r k) Q.
Proof. unfold try_. destruct r as [[?|a]| |]; cbn; auto. Qed.
Lemma okay_each {A S} (f : A → S → result S) (I : S → Prop) l s :
  I s → (∀ x s, x ∈ l → I s → okay (f x s) I) → okay (try_each f l s) I.
Proof.
  intros HI. revert s HI. induction l as [|x l IH]; intros s HI Hf; [done|]. cbn. eapply okay_try; [apply Hf; [left|done]|].
  intros s' Hs'. apply IH; [done|]. intros y s'' Hy. apply Hf. by right.
Qed.
Lemma okay_mono {A} (r : result A) (P Q : A → Prop) : okay r P → (∀ a, P a → Q a) → okay r Q.
Proof. destruct r as [[?|a]| |]; cbn; auto. Qed.

(** The bound of [SynthesizeProcesses] on a latency. *)
Definition day : Z := 24 * 3600 * 10 ^ 9.
Definition table_ok (n : Z) (latency : matrix) : Prop :=
  ∀ i j, 0 ≤ i < n → 0 ≤ j < n → ∃ x, latency !! (i, j) = Some x ∧ 0 ≤ x ≤ day.

Section Built.
Variables (n voters : Z) (latency : matrix) (rs : list Requirement) (budgets leaders : list Z).
Hypothesis Hpos : 0 < n ≤ 64.
Hypothesis Hsome : 0 < voters.
Hypothesis Hvoters : voters ≤ n.
Hypothesis Hlatency : table_ok n latency.

Lemma Hn : 0 ≤ n ≤ 64.
Proof. lia. Qed.

(** *** Durations stay small *)
Lemma latency_range i j : 0 ≤ i < n → 0 ≤ j < n → 0 ≤ cell latency i j ≤ day.
Proof. intros Hi Hj. destruct (Hlatency i j Hi Hj) as (x & Hx & ?). unfold cell. by rewrite Hx. Qed.

Lemma cell_insert m i j x i' j' : cell (<[(i, j) := x]> m) i' j' = if decide (i' = i ∧ j' = j) then x else cell m i' j'.
Proof.
  unfold cell. case_decide as E; [destruct E as [-> ->]; by rewrite lookup_insert_eq|]. rewrite lookup_insert_ne; [done|]. intros [= -> ->]. by apply E.
Qed.

(** Every path is at most [unreachable], and a path from or to a voter a day. *)
Definition paths_ok (d : matrix) : Prop := ∀ i j, 0 ≤ cell d i j ≤ unreachable ∧ (i < voters ∨ j < voters ∨ i = j → cell d i j ≤ day).
Lemma paths_insert d i j x : paths_ok d → 0 ≤ x ≤ unreachable → (i < voters ∨ j < voters ∨ i = j → x ≤ day) → paths_ok (<[(i, j) := x]> d).
Proof. intros Hd Hx Hn i' j'. rewrite cell_insert. case_decide as E; [destruct E as [-> ->]; done|apply Hd]. Qed.

Lemma init_ok : paths_ok (init_paths latency n voters).1.
Proof.
  unfold init_paths. apply (foldl_ind_in _ (λ dn : matrix * matrix, paths_ok dn.1)).
  { intros i j. unfold cell. cbn [fst]. rewrite lookup_empty. unfold unreachable, day. cbn. lia. }
  intros dn i Hi%elem_of_seqZ Hdn. apply (foldl_ind_in _ (λ dn : matrix * matrix, paths_ok dn.1)); [done|].
  intros [d m] j Hj%elem_of_seqZ Hd. cbn [fst] in Hd. pose proof (latency_range i j ltac:(lia) ltac:(lia)).
  cbv zeta. destruct (negb (i =? j) && (voters <=? i) && (voters <=? j)) eqn:E1.
  { cbn [fst]. apply paths_insert; [done|unfold unreachable; lia|lia]. }
  destruct (negb (i =? j) && (cell latency i j =? 0)); cbn [fst]; (apply paths_insert; [done|unfold unreachable, day in *; lia|unfold day in *; lia]).
Qed.

Lemma relax_ok k i j dn : k < voters → paths_ok dn.1 →
  paths_ok (relax k i j dn).1 ∧ (∀ i' j', cell (relax k i j dn).1 i' j' ≤ cell dn.1 i' j') ∧ cell (relax k i j dn).1 i j ≤ 2 * day.
Proof.
  destruct dn as [d m]. cbn [fst]. intros Hk Hd. unfold relax. pose proof (Hd i k) as [R1 N1]. pose proof (Hd k j) as [R2 N2]. pose proof (Hd i j) as [R3 N3].
  specialize (N1 ltac:(lia)). specialize (N2 ltac:(lia)).
  assert (i64 (cell d i k + cell d k j) = cell d i k + cell d k j) as -> by (apply wrapS_id; unfold day in *; lia).
  cbv zeta. destruct (Z.ltb_spec (cell d i k + cell d k j) (cell d i j)); cbn [fst]; [|split_and!; [done|done|lia]]. split_and!.
  - apply paths_insert; [done|lia|]. intros Hn. specialize (N3 Hn). lia.
  - intros i' j'. rewrite cell_insert. case_decide as E; [destruct E as [-> ->]|]; lia.
  - rewrite cell_insert, decide_True by done. lia.
Qed.

Lemma foldl_reaches {A S} (f : S → A → S) (I Q : S → Prop) l y s :
  y ∈ l → (∀ s x, x ∈ l → I s → I (f s x) ∧ (Q s → Q (f s x))) → (∀ s, I s → Q (f s y)) → I s → Q (foldl f s l).
Proof.
  intros Hy Hf HQ. assert (∀ l', (∀ x, x ∈ l' → x ∈ l) → ∀ s, I s → (Q s ∨ y ∈ l') → Q (foldl f s l')) as H.
  { induction l' as [|x l' IH]; intros Hin s' HI Hor; cbn; [by destruct Hor as [|?%elem_of_nil]|].
    destruct (Hf s' x (Hin x ltac:(left)) HI) as [HI' Hkeep]. apply IH; [intros z Hz; apply Hin; by right|done|].
    destruct Hor as [HQ'|[->|Hy']%elem_of_cons]; [left; auto|left; auto|by right]. }
  intros HI. apply H; auto.
Qed.

(** The three loops are one over the relaxations. *)
Lemma foldl_bind {A B S} (f : S → B → S) (h : A → list B) l : ∀ s, foldl f s (l ≫= h) = foldl (λ s x, foldl f s (h x)) s l.
Proof. induction l as [|x l IH]; intros s; [done|]. cbn. by rewrite foldl_app, IH. Qed.
Lemma foldl_same {A S} (f g : S → A → S) l : (∀ s x, f s x = g s x) → ∀ s, foldl f s l = foldl g s l.
Proof. intros H. induction l as [|x l IH]; intros s; [done|]. cbn. by rewrite H, IH. Qed.
Definition relaxations : list (Z * Z * Z) := seqZ 0 voters ≫= λ k, seqZ 0 n ≫= λ i, map (λ j, (k, i, j)) (seqZ 0 n).
Lemma planningPaths_relax : planningPaths latency n voters =
  foldl (λ dn x, relax x.1.1 x.1.2 x.2 dn) (init_paths latency n voters) relaxations.
Proof.
  unfold planningPaths, relaxations. rewrite foldl_bind. apply foldl_same. intros dn k. rewrite foldl_bind. apply foldl_same. intros dn' i.
  generalize dn'. induction (seqZ 0 n) as [|j l IH]; intros dn0; [done|]. cbn. apply IH.
Qed.
Lemma elem_of_relaxations k i j : (k, i, j) ∈ relaxations ↔ 0 ≤ k < voters ∧ 0 ≤ i < n ∧ 0 ≤ j < n.
Proof.
  unfold relaxations. rewrite list_elem_of_bind. split.
  - intros (k' & (i' & (j' & [= -> -> ->] & Hj%elem_of_seqZ)%list_elem_of_fmap & Hi%elem_of_seqZ)%list_elem_of_bind & Hk%elem_of_seqZ). lia.
  - intros (Hk & Hi & Hj). exists k. split; [|apply elem_of_seqZ; lia]. apply list_elem_of_bind. exists i. split; [|apply elem_of_seqZ; lia].
    apply list_elem_of_fmap. exists j. split; [done|apply elem_of_seqZ; lia].
Qed.

Lemma dist_range i j : 0 ≤ cell (dist n voters latency) i j ≤ unreachable.
Proof.
  unfold dist. rewrite planningPaths_relax. revert i j.
  assert (paths_ok (foldl (λ dn x, relax x.1.1 x.1.2 x.2 dn) (init_paths latency n voters) relaxations).1) as H; [|intros i j; apply H].
  apply (foldl_ind_in _ (λ dn : matrix * matrix, paths_ok dn.1)); [apply init_ok|]. intros dn [[k i] j] (Hk & _)%elem_of_relaxations Hdn.
  by destruct (relax_ok k i j dn) as (? & _ & _); [lia|done|].
Qed.
(** By way of the first voter, any two processes are two days apart at most. *)
Lemma dist_short i j : 0 ≤ i < n → 0 ≤ j < n → cell (dist n voters latency) i j ≤ 2 * day.
Proof.
  intros Hi Hj. unfold dist. rewrite planningPaths_relax.
  apply (foldl_reaches _ (λ dn : matrix * matrix, paths_ok dn.1) (λ dn : matrix * matrix, cell dn.1 i j ≤ 2 * day) _ (0, i, j)).
  - by apply elem_of_relaxations.
  - intros dn [[k i'] j'] (Hk & _)%elem_of_relaxations Hdn. destruct (relax_ok k i' j' dn) as (? & Hle & _); [lia|done|]. split; [done|].
    intros Hq. cbn. specialize (Hle i j). lia.
  - intros dn Hdn. by destruct (relax_ok 0 i j dn) as (_ & _ & ?).
  - apply init_ok.
Qed.

(** The next hop of a path is a process. *)
Definition hops_in_range (m : matrix) : Prop := ∀ i j, 0 ≤ cell m i j < n.
Lemma hops_insert m i j x : hops_in_range m → 0 ≤ x < n → hops_in_range (<[(i, j) := x]> m).
Proof. intros Hm Hx i' j'. unfold cell. destruct (decide ((i', j') = (i, j))) as [->|]; [by rewrite lookup_insert_eq|rewrite lookup_insert_ne by done; apply Hm]. Qed.
Lemma next_in_range : hops_in_range (next n voters latency).
Proof.
  unfold next, planningPaths. set (R := λ dn : matrix * matrix, hops_in_range dn.2).
  change (R (foldl (λ dn k, foldl (λ dn i, foldl (λ dn j, relax k i j dn) dn (seqZ 0 n)) dn (seqZ 0 n)) (init_paths latency n voters) (seqZ 0 voters))).
  apply foldl_ind.
  - unfold init_paths. apply foldl_ind; [intros i j; unfold cell; cbn [snd]; rewrite lookup_empty; cbn; lia|]. intros dn i Hdn.
    apply foldl_ind_in; [done|]. intros [d m] j Hj%elem_of_seqZ Hm. unfold R in *. cbn in *.
    destruct (_ && _ && _); [|destruct (_ && _)]; cbn; (apply hops_insert; [done|lia]).
  - intros dn k Hdn. apply foldl_ind; [done|]. intros dn' i Hdn'. apply foldl_ind; [done|]. intros [d m] j Hm.
    unfold R, relax in *. cbn in *. destruct (_ <? _); [cbn; by apply hops_insert|done].
Qed.

Lemma reusable_spec es src dst at_ deadline t : reusable es src dst at_ deadline = Some t → (src, dst, t) ∈ es ∧ at_ ≤ t ≤ deadline.
Proof.
  unfold reusable. assert (∀ l best, (∀ e, e ∈ l → e ∈ es) → (∀ t, best = Some t → (src, dst, t) ∈ es ∧ at_ ≤ t ≤ deadline) →
    ∀ t, foldl (earlier_edge src dst at_ deadline) best l = Some t → (src, dst, t) ∈ es ∧ at_ ≤ t ≤ deadline) as H.
  { intros l. induction l as [|x l IH]; intros best Hl Hb; [done|]. cbn [foldl]. apply IH; [intros e He; apply Hl; by right|].
    intros t'. unfold earlier_edge. destruct (_ && _) eqn:E; [|by apply Hb]. intros [= <-].
    apply andb_prop in E as [E _]. apply andb_prop in E as [E E4]. apply andb_prop in E as [E E3]. apply andb_prop in E as [E1 E2].
    assert (x ∈ es) as Hx by (apply Hl; by left). destruct x as [[a b] c]. unfold From, To, ETime in *. cbn in *.
    assert (a = src ∧ b = dst) as [-> ->] by lia. split; [done|lia]. }
  intros Ht. by eapply H; [| |exact Ht]; [intros e; apply elem_of_elements|].
Qed.

(** An edge of the graph is sent by its state. *)
Definition walker_ok (p : Z) (w : walker) : Prop :=
  schedule_ok n voters p (states w) ∧ (∀ v, 0 ≤ v < n → is_Some (states w !! v)) ∧ 0 ≤ node w < n ∧
  ∀ e, e ∈ edges w → ∃ s, at_state (states w) (From e) (ETime e) s ∧ e ∈ Outgoing s.

(** The walk is at a time in [0, K], and its slack does not take it beyond. *)
Definition walker_in (p K : Z) (w : walker) : Prop := walker_ok p w ∧ 0 ≤ now w ∧ 0 ≤ slack w ∧ now w + slack w ≤ K.
Lemma hop_times K now_ slack_ sent link : 0 ≤ now_ → 0 ≤ slack_ → now_ + slack_ ≤ K → K + day < 2 ^ 63 → now_ ≤ sent ≤ now_ + slack_ → 0 < link ≤ day →
  i64 (now_ + slack_) = now_ + slack_ ∧ i64 (sent + link) = sent + link ∧ i64 (now_ + slack_ - sent) = now_ + slack_ - sent.
Proof. intros. split_and!; apply wrapS_id; lia. Qed.

Lemma hop_ok p K payload target w : K + day < 2 ^ 63 → walker_in p K w → okay (hop n voters latency payload target w) (walker_in p (K + day)).
Proof.
  pose proof Hn as Hn64. intros HK ((Hok & Hall & Hnode & Hout) & Hnow & Hslack & HKw). unfold hop. set (src := node w). set (dst := cell _ src target). assert (0 ≤ dst < n) as Hdst by apply next_in_range. 
  set (link := if cell latency src dst =? 0 then 1 else cell latency src dst).
  assert (0 < link ≤ day) as Hlink. { unfold link. pose proof (latency_range src dst Hnode Hdst). unfold day in *. destruct (Z.eqb_spec (cell latency src dst) 0); lia. }
  assert (i64 (now w + slack w) = now w + slack w) as -> by (apply wrapS_id; unfold day in *; lia).
  set (deadline := now w + slack w).
  set (found := reusable (edges w) src dst (now w) deadline). set (sent := default (now w) found). cbv zeta.
  assert (now w ≤ sent ≤ deadline) as Hsd.
  { unfold sent. destruct found as [t|] eqn:Ef; cbn; [by apply reusable_spec in Ef as [_ ?]|unfold deadline; lia]. }
  destruct (hop_times K (now w) (slack w) sent link) as (_ & Eat & Eslack); [lia..|]. fold deadline in Eslack.
  set (e := (src, dst, sent)).
  destruct (states w !! src ≫= (λ line, line !! sent)) as [source|] eqn:Es; [|done].
  apply bind_Some in Es as (line0 & Hl0 & Hs0).
  assert (at_state (states w) src sent source) as Hsrc by (by exists line0).
  match goal with |- okay (match states (set node _ (set slack _ (set now _ ?x))) !! _ with _ => _ end) _ => set (w1 := x) end.
  assert (schedule_ok n voters p (states w1) ∧ (∀ v, 0 ≤ v < n → is_Some (states w1 !! v)) ∧
    (∀ e, e ∈ edges w1 → ∃ s, at_state (states w1) (From e) (ETime e) s ∧ e ∈ Outgoing s) ∧ e ∈ edges w1 ∧ ∃ s, at_state (states w1) src sent s ∧ Knowledge s = Knowledge source ∧ Remote s = Remote source) as (Hok1 & Hall1 & Hout1 & He & Hs1).
  { unfold w1. destruct found as [t|] eqn:Ef.
    - apply reusable_spec in Ef as [Hin _]. split_and!; [done..|by exists source].
    - destruct (announce_from n Hn (states w) src sent e src sent source Hsrc) as (s & Hs & ? & ? & _).
      assert (e ∈ Outgoing s) as Hes.
      { apply (announce_at n Hn) in Hs as (s0 & _ & ->). rewrite decide_True by done. cbn. apply elem_of_app. right. by left. }
      split_and!; cbn; [by apply announce_ok|intros v Hv; rewrite lookup_alter_is_Some; by apply Hall| |set_solver|by exists s].
      intros d [->%elem_of_singleton|Hd]%elem_of_union; [by exists s|]. destruct (Hout d Hd) as (s0 & Hs0' & Ho).
      destruct (announce_from n Hn (states w) src sent e _ _ s0 Hs0') as (s1 & ? & _ & _ & _ & _ & Ho'). exists s1. auto. }
  clearbody w1. destruct Hs1 as (source1 & Hsrc1 & Ek & Er).
  fold link. rewrite Eat, Eslack. set (at_ := sent + link). set (w2 := set node _ _).
  assert (states w2 = states w1 ∧ edges w2 = edges w1 ∧ node w2 = dst ∧ now w2 = at_ ∧ slack w2 = deadline - sent) as (E1 & E2 & E3 & E4 & E5) by done.
  clearbody w2. rewrite E1.
  destruct (Hall1 dst Hdst) as [line El]. rewrite El.
  assert (0 ≤ sent) as Hsent by (by apply (so_state _ _ _ _ Hok1 src sent source1)).
  destruct (open_state voters line dst at_) as [base|] eqn:Eb.
  2: { destruct (so_node _ _ _ _ Hok1 dst line El) as [_ [z Hz]]. unfold open_state in Eb. destruct (line !! at_); [done|].
    pose proof (previous_spec line at_ (λ t s Hs, proj1 (so_state _ _ _ _ Hok1 dst t s ltac:(by exists line)))) as Hp.
    destruct (previous line at_); [done|]. specialize (Hp 0 z Hz). lia. }
  assert (learn_from src dst e source base = learn_from src dst e source1 base) as Ed by (unfold learn_from; by rewrite Ek, Er).
  rewrite Ed. destruct (open_ok n voters p Hn Hvoters (states w1) line dst at_ base) as [Hbase Hold]; [done|done|lia|done|].
  assert (e ∈ Outgoing source1) as Heo.
  { destruct (Hout1 e He) as (s & (l & Hl & Hs) & Ho). destruct Hsrc1 as (l' & Hl' & Hs'). unfold From, ETime in *. cbn in *.
    rewrite Hl in Hl'. injection Hl' as <-. rewrite Hs in Hs'. by injection Hs' as <-. }
  cbn. split; [|cbn; rewrite E4, E5; unfold at_, deadline in *; lia]. split_and!; cbn; rewrite ?E1, ?E3;
    [|intros v Hv; apply lookup_insert_is_Some'; right; by apply Hall1|lia|lia|].
  - apply (update_ok n voters p Hn Hvoters (states w1) line src dst sent at_ source1 base); (done || lia).
  - rewrite E2. intros d Hd. destruct (Hout1 d Hd) as (s & Hs & Ho).
    edestruct (update_grows n voters p Hn Hvoters (states w1) line src dst sent at_ source1 base) as (s' & ? & _ & Eo & _); [..|exact Hs|exists s'; by rewrite Eo];
      (done || lia).
Qed.

Lemma walker_later p K K' w : K ≤ K' → walker_in p K w → walker_in p K' w.
Proof. intros HK (? & ? & ? & ?). unfold walker_in. split_and!; (done || lia). Qed.
Lemma route_ok p hops payload target K w : K + Z.of_nat hops * day < 2 ^ 63 → walker_in p K w →
  okay (route n voters latency hops payload target w) (walker_in p (K + Z.of_nat hops * day)).
Proof.
  revert K w. induction hops as [|hops IH]; intros K w HK Hw; cbn [route];
    (destruct (node w =? target); [cbn; eapply walker_later; [|exact Hw]; unfold day; lia|]); [done|].
  eapply okay_try; [apply (hop_ok p K); [unfold day in *; lia|exact Hw]|]. intros w' Hw'.
  replace (K + Z.of_nat (S hops) * day) with (K + day + Z.of_nat hops * day) by lia. apply IH; [lia|done].
Qed.
Lemma routes_ok p payload l K w : K + Z.of_nat (length l) * (n * day) < 2 ^ 63 → walker_in p K w →
  okay (try_each (route n voters latency (Z.to_nat n) payload) l w) (walker_ok p).
Proof.
  revert K w. induction l as [|x l IH]; intros K w HK Hw; cbn [try_each length] in *; [by destruct Hw|].
  eapply okay_try; [apply (route_ok p _ payload x K); [unfold day in *; lia|exact Hw]|]. intros w' Hw'. eapply IH; [|exact Hw']. unfold day in *. lia.
Qed.

(** A walk has at most three checkpoints. *)
Lemma walk_ok p budget l c payload w : 0 ≤ p < n → 0 ≤ budget ≤ 2 ^ 62 → 0 ≤ c → (length l ≤ 3)%nat →
  walker_ok p w → okay (walk n voters latency p budget l c payload w) (walker_ok p).
Proof.
  intros Hp Hb Hc Hl (? & ? & _ & ?). unfold walk.
  assert (Z.of_nat (length l) * (n * day) ≤ 3 * (64 * day)) by (apply Z.mul_le_mono_nonneg; unfold day; lia).
  apply (routes_ok p payload l (2 ^ 62)); [unfold day in *; lia|].
  assert (0 ≤ (if c <=? budget then i64 (budget - c) else 0) ≤ 2 ^ 62) as Hs.
  { destruct (Z.leb_spec c budget); [|lia]. rewrite wrapS_id by lia. lia. }
  unfold walker_in, walker_ok. cbn. split_and!; (done || lia).
Qed.

Lemma index_elem {A} (l : list A) i x : index l i = Some x → x ∈ l.
Proof. unfold index. destruct (i <? 0); [done|]. apply list_elem_of_lookup_2. Qed.
Lemma index_inside {A} (l : list A) i : 0 ≤ i < Z.of_nat (length l) → ∃ x, index l i = Some x.
Proof. intros Hi. rewrite index_nonneg by lia. apply lookup_lt_is_Some_2. lia. Qed.

Definition state_in (g : propagationGraph) : lookup_state := λ v t s, ∃ ss, index (States g) v = Some ss ∧ s ∈ ss ∧ Time s = t.

(** The final state of a node in the schedule. *)
Definition final_state (g : propagationGraph) (v : Z) (s : graphState) : Prop := ∃ ss, index (States g) v = Some ss ∧ list.last ss = Some s.

(** What a schedule promises to the replicas that follow it. *)
Record graph_sound (p : Z) (g : propagationGraph) : Prop := mkSound {
  gs_sorted : ∀ v ss, index (States g) v = Some ss → StronglySorted (λ s s', Time s < Time s') ss;
  gs_causal : ∀ v t s a, state_in g v t s → Z.testbit (knows_at s v) a = true → knows voters p (state_in g) v t a;
  gs_known : ∀ v t s w, state_in g v t s → 0 ≤ w < n →
    ∃ sw, state_in g w (remote_at s w) sw ∧ within (knows_at s w) (knows_at sw w);
  gs_self : ∀ v t s, state_in g v t s → v < voters → 0 < t ∨ v = p → Z.testbit (knows_at s v) v = true;
  gs_deps : ∀ v t s d, state_in g v t s → d ∈ Dependencies s →
    To d = v ∧ ETime d < t ∧ ∃ s', state_in g (From d) (ETime d) s' ∧ d ∈ Outgoing s';
  gs_edges : ∀ d, d ∈ Edges g → ∃ s, state_in g (From d) (ETime d) s ∧ d ∈ Outgoing s;
  gs_out : ∀ v t s d, state_in g v t s → d ∈ Outgoing s → From d = v ∧ ETime d = t;
  gs_seen : ∀ v t s w, state_in g v t s → 0 ≤ w < n → remote_at s w ≠ 0 → sees (state_in g) v t w (remote_at s w);
  gs_past : ∀ v t s w, state_in g v t s → 0 ≤ t ∧ (0 ≤ w < n → 0 ≤ remote_at s w ≤ t) ∧
    Z.of_nat (length (Knowledge s)) = n ∧ Z.of_nat (length (Remote s)) = n }.

(** What is checked at the end: the leader's last state. *)
Record graph_complete (leader budget : Z) (r : Requirement) (g : propagationGraph) : Prop := mkComplete {
  gc_leader : ∃ s, final_state g leader s ∧ Time s = budget ∧
    ∀ w required, index r w = Some required → ReplicaSet.Covers (knows_at s w) required = true ∧
      (w < voters → required ≠ 0 → ∃ f, final_state g w f ∧ remote_at s w = Time f) }.

(** ** The result *)
Definition tidy (s : graphState) : graphState := s <| Outgoing ::= merge_sort lower_target |>.
Lemma tidy_outgoing s d : d ∈ Outgoing (tidy s) ↔ d ∈ Outgoing s.
Proof. unfold tidy. cbn. by rewrite merge_sort_Permutation. Qed.

Lemma elem_of_sorted_states (line : timeline) s : s ∈ sorted_states line ↔ ∃ t s0, line !! t = Some s0 ∧ s = tidy s0.
Proof.
  unfold sorted_states. rewrite list_elem_of_fmap. setoid_rewrite (merge_sort_Permutation earlier_state). split.
  - intros (s0 & -> & ([t x] & -> & Hx%elem_of_map_to_list)%list_elem_of_fmap). by exists t, x.
  - intros (t & s0 & Hs & ->). exists s0. split; [done|]. apply list_elem_of_fmap. exists (t, s0). split; [done|]. by apply elem_of_map_to_list.
Qed.

Lemma strictly_sorted (l : list graphState) : StronglySorted earlier_state l → NoDup (Time <$> l) → StronglySorted (λ s s', Time s < Time s') l.
Proof.
  induction 1 as [|x l Hs IH Hall]; cbn; [by constructor|]. intros [Hx Hnd]%NoDup_cons. constructor; [by apply IH|].
  apply Forall_forall. intros y Hy. rewrite Forall_forall in Hall. specialize (Hall y Hy). unfold earlier_state in Hall.
  assert (Time x ≠ Time y); [|lia]. intros E. apply Hx. rewrite E. by apply list_elem_of_fmap_2.
Qed.

Lemma sorted_states_sorted line : (∀ t s, line !! t = Some s → Time s = t) → StronglySorted (λ s s', Time s < Time s') (sorted_states line).
Proof.
  intros HT. unfold sorted_states. set (l := merge_sort earlier_state _).
  assert (StronglySorted (λ s s', Time s < Time s') l) as Hs.
  { apply strictly_sorted.
    - apply StronglySorted_merge_sort; [intros x y z; unfold earlier_state; lia|intros x y; unfold earlier_state; lia].
    - unfold l. rewrite (merge_sort_Permutation earlier_state). rewrite <- list_fmap_compose.
      assert ((Time ∘ snd <$> map_to_list line) = (fst <$> map_to_list line)) as ->.
      { apply list_fmap_ext. intros i [t s] Hi. cbn. apply HT. apply elem_of_map_to_list. by eapply list_elem_of_lookup_2. }
      apply NoDup_fst_map_to_list. }
  clearbody l. induction Hs as [|x l Hs IH Hall]; cbn; [constructor|]. constructor; [done|]. apply Forall_fmap.
  eapply Forall_impl; [exact Hall|]. done.
Qed.

Lemma index_lines (w : walker) v ss :
  index (map (λ v, sorted_states (default ∅ (states w !! v))) (seqZ 0 n)) v = Some ss ↔ 0 ≤ v < n ∧ ss = sorted_states (default ∅ (states w !! v)).
Proof.
  unfold index. destruct (Z.ltb_spec v 0); [split; [done|lia]|]. rewrite list_lookup_fmap. split.
  - intros (x & Hx & ->)%fmap_Some. apply lookup_seqZ in Hx as [-> Hx]. rewrite Z.add_0_l, Z2Nat.id by lia. split; [lia|done].
  - intros [Hv ->]. apply fmap_Some. exists v. split; [|done]. apply lookup_seqZ. lia.
Qed.

Lemma first_walker_ok p q : 0 ≤ q < n → walker_ok p (mkWalker (first_states n voters p) ∅ ∅ q 0 0).
Proof.
  intros Hq. unfold walker_ok. cbn. split_and!; [by apply first_states_ok; [apply Hn|]| |lia|lia|intros e He; set_solver].
  intros v Hv. by rewrite first_states_lookup, decide_True.
Qed.

(** The graph that is made of a timeline per node. *)
Definition graph_of (w : walker) : propagationGraph :=
  mkGraph (map (λ v, sorted_states (default ∅ (states w !! v))) (seqZ 0 n)) (payloads w) (edges w).

Section Finish.
Variables (p : Z) (w : walker).
Hypothesis Hw : walker_ok p w.
Local Abbreviation g := (graph_of w).

Lemma in_graph v t s : state_in g v t s ↔ ∃ s0, at_state (states w) v t s0 ∧ s = tidy s0.
Proof.
  destruct Hw as (Hok & Hall & _). unfold state_in. split.
  - intros (ss & [Hv ->]%index_lines & Hs & <-). destruct (Hall v Hv) as [line Hl]. rewrite Hl in Hs. cbn in Hs.
    apply elem_of_sorted_states in Hs as (t & s0 & Hs0 & ->). assert (at_state (states w) v t s0) as Hat by (by exists line).
    exists s0. cbn. by rewrite (proj1 (so_state _ _ _ _ Hok v t s0 Hat)).
  - intros (s0 & (line & Hl & Hs0) & ->). destruct (so_node _ _ _ _ Hok v line Hl) as [Hv _].
    exists (sorted_states line). split_and!; [apply index_lines; by rewrite Hl|apply elem_of_sorted_states; by exists t, s0|].
    by apply (so_state _ _ _ _ Hok v t s0); exists line.
Qed.

Lemma knows_kn s w' : 0 ≤ w' → knows_at s w' = kn (Knowledge s) w'.
Proof. intros. unfold knows_at, kn. by rewrite index_nonneg. Qed.
Lemma remote_kn s w' : 0 ≤ w' → remote_at s w' = kn (Remote s) w'.
Proof. intros. unfold remote_at, kn. by rewrite index_nonneg. Qed.
Lemma graph_node v t s : state_in g v t s → 0 ≤ v < n.
Proof. intros (ss & [Hv _]%index_lines & _). done. Qed.

Lemma graph_of_sound : graph_sound p g.
Proof.
  destruct Hw as (Hok & Hall & _ & Hedge). constructor.
  - intros v ss [Hv ->]%index_lines. destruct (Hall v Hv) as [line Hl]. rewrite Hl. cbn. apply sorted_states_sorted.
    intros t s Hs. apply (so_state _ _ _ _ Hok v t s). by exists line.
  - intros v t s a Hs. pose proof (graph_node _ _ _ Hs). apply in_graph in Hs as (s0 & Hs & ->). rewrite knows_kn by lia. intros Ha.
    apply (knows_mono _ _ (at_state (states w))); [|by apply (so_causal _ _ _ _ Hok v t s0)].
    intros v' t' x Hx. exists (tidy x). split; [apply in_graph; by exists x|done].
  - intros v t s w' (s0 & Hs & ->)%in_graph Hw'. rewrite knows_kn, remote_kn by lia. cbn.
    destruct (so_known _ _ _ _ Hok v t s0 w' Hs Hw') as (sw & Hsw & Hk). exists (tidy sw). split; [apply in_graph; by exists sw|].
    rewrite knows_kn by lia. done.
  - intros v t s Hs Hv Ht. pose proof (graph_node _ _ _ Hs). apply in_graph in Hs as (s0 & Hs & ->). rewrite knows_kn by lia.
    by apply (so_self _ _ _ _ Hok v t s0).
  - intros v t s d (s0 & Hs & ->)%in_graph Hd. destruct (so_deps _ _ _ _ Hok v t s0 d Hs Hd) as (? & ? & s' & Hs' & Ho).
    split_and!; [done..|]. exists (tidy s'). split; [apply in_graph; by exists s'|by apply tidy_outgoing].
  - intros d Hd. destruct (Hedge d Hd) as (s & Hs & Ho). exists (tidy s). split; [apply in_graph; by exists s|by apply tidy_outgoing].
  - intros v t s d (s0 & Hs & ->)%in_graph Hd. apply (proj1 (tidy_outgoing s0 d)) in Hd. by apply (so_out _ _ _ _ Hok v t s0).
  - intros v t s w' (s0 & Hs & ->)%in_graph Hw'. rewrite remote_kn by lia. intros Hr.
    apply (sees_mono (at_state (states w))); [|by apply (so_seen _ _ _ _ Hok v t s0)].
    intros v' t' x Hx. exists (tidy x). split; [apply in_graph; by exists x|done].
  - intros v t s w' (s0 & Hs & ->)%in_graph. destruct (so_state _ _ _ _ Hok v t s0 Hs) as (? & ? & ? & ?). split_and!; [done| |done..].
    intros Hw'. rewrite remote_kn by lia. by apply (so_past _ _ _ _ Hok v t s0).
Qed.

Lemma lines_nonempty v : 0 ≤ v < n → ∃ ss s, index (States g) v = Some ss ∧ list.last ss = Some s.
Proof.
  intros Hv. destruct Hw as (Hok & Hall & _). destruct (Hall v Hv) as [line Hl]. exists (sorted_states line).
  destruct (so_node _ _ _ _ Hok v line Hl) as [_ [z Hz]].
  destruct (list.last (sorted_states line)) as [s|] eqn:E; [exists s; split; [apply index_lines; by rewrite Hl|done]|].
  apply last_None in E. assert (tidy z ∈ sorted_states line) as Hin by (apply elem_of_sorted_states; by exists 0, z). rewrite E in Hin.
  by apply elem_of_nil in Hin.
Qed.

Lemma check_witness_ok leader last_ x required : 0 ≤ x < n → Z.of_nat (length (Knowledge last_)) = n →
  okay (check_witness voters p leader g last_ (x, required)) (λ _, ReplicaSet.Covers (knows_at last_ x) required = true ∧
    (x < voters → required ≠ 0 → ∃ f, final_state g x f ∧ remote_at last_ x = Time f)).
Proof.
  intros Hx Hk. unfold check_witness, knows_at. destruct (index_inside (Knowledge last_) x) as [known ->]; [lia|].
  destruct (ReplicaSet.Covers _ _) eqn:Hc; [|done]. cbn [negb].
  destruct (lines_nonempty x Hx) as (ss & f & Hss & Hf). rewrite Hss, Hf. destruct (_ && _) eqn:Hb; [done|]. cbn. split; [done|].
  intros Hv Hr. exists f. split; [by exists ss|]. rewrite (proj2 (Z.ltb_lt _ _) Hv), (proj2 (Z.eqb_neq _ _) Hr) in Hb. cbn in Hb.
  rewrite orb_false_r in Hb. apply negb_false_iff in Hb. lia.
Qed.

Lemma finish_graph_ok leader budget r : 0 ≤ leader < n → Z.of_nat (length r) = n →
  okay (finish n voters p leader budget r w) (λ g, graph_sound p g ∧ graph_complete leader budget r g).
Proof.
  intros Hl Hr. unfold finish. destruct (existsb _ _); [done|]. destruct (existsb _ _); [done|].
  change (mkGraph _ (payloads w) (edges w)) with g. destruct (lines_nonempty leader Hl) as (ss & last_ & Hss & Hlast).
  change (map _ (seqZ 0 n)) with (States g). rewrite Hss. cbn [mbind option_bind]. rewrite Hlast.
  assert (Z.of_nat (length (Knowledge last_)) = n) as Hlk.
  { apply (gs_past _ _ graph_of_sound leader (Time last_) last_ 0). exists ss. split_and!; [done|by apply last_Some_elem_of|done]. }
  destruct (Z.eqb_spec (Time last_) budget) as [Hb|]; [|done]. cbn [negb].
  set (good := λ x required, ReplicaSet.Covers (knows_at last_ x) required = true ∧
    (x < voters → required ≠ 0 → ∃ f, final_state g x f ∧ remote_at last_ x = Time f)).
  assert (∀ l (u : unit), (∀ x, x ∈ l → 0 ≤ x.1 < n) → okay (try_each (λ wr _, check_witness voters p leader g last_ wr) l u)
    (λ _, ∀ x, x ∈ l → good x.1 x.2)) as Hchecks.
  { intros l. induction l as [|[x required] l IH]; intros u Hin; [by intros x ?%elem_of_nil|]. cbn.
    eapply okay_try; [apply (check_witness_ok leader last_ x required); [apply (Hin (x, required)); by left|done]|]. intros u' Hx.
    eapply okay_mono; [apply IH; intros y Hy; apply Hin; by right|]. intros u'' Hall y [E|Hy]%elem_of_cons; [rewrite E; exact Hx|by apply Hall]. }
  eapply okay_try; [apply (Hchecks (ranged r))|].
  - intros [x y] Hin%elem_of_zip_l%elem_of_seqZ. cbn. lia.
  - intros u Hall. cbn. split; [apply graph_of_sound|]. constructor. exists last_. split_and!; [by exists ss|done|].
    intros x required Hx. apply (Hall (x, required)). unfold ranged. apply list_elem_of_lookup. unfold index in Hx.
    destruct (Z.ltb_spec x 0); [done|]. exists (Z.to_nat x). apply lookup_zip_Some. split; [|done]. apply lookup_seqZ.
    apply lookup_lt_Some in Hx. lia.
Qed.
End Finish.

Lemma previous_some w leader budget p : walker_ok p w → 0 ≤ leader < n → 0 ≤ budget →
  ∃ s, states w !! leader ≫= (λ line, previous line budget) = Some s.
Proof.
  intros (Hok & Hall & _) Hl Hb. destruct (Hall leader Hl) as [line E]. rewrite E. cbn.
  destruct (so_node _ _ _ _ Hok leader line E) as [_ [z Hz]].
  pose proof (previous_spec line budget (λ t s Hs, proj1 (so_state _ _ _ _ Hok leader t s ltac:(by exists line)))) as Hp.
  destruct (previous line budget) as [s|]; [by exists s|]. specialize (Hp 0 z Hz). lia.
Qed.

(** What the caller establishes: as many requirements, budgets and leaders as
    processes, each requirement with a set per process, and budgets far below the
    range of [time.Duration]. *)
Record arguments_ok : Prop := mkArguments {
  ar_sizes : Z.of_nat (length rs) = n ∧ Z.of_nat (length budgets) = n ∧ Z.of_nat (length leaders) = n;
  ar_requirements : ∀ r, r ∈ rs → Z.of_nat (length r) = n;
  ar_budgets : ∀ b, b ∈ budgets → 0 ≤ b ≤ 2 ^ 62;
  ar_leaders : ∀ l, l ∈ leaders → 0 ≤ l < n }.

Definition triangle_ok (t : triangle) : Prop := 0 ≤ ta t < n ∧ 0 ≤ tw t < n ∧ 0 ≤ cost t.
Lemma triangles_ok p leader r : 0 ≤ p < n → 0 ≤ leader < n → Z.of_nat (length r) = n →
  returns (triangles n voters latency p leader r) (Forall triangle_ok).
Proof.
  intros Hp Hl Hr. unfold triangles. eapply (returns_bind _ _ (Forall triangle_ok)).
  - apply (returns_forEach_all _ (λ a, 0 ≤ a < n)); [done|apply Forall_forall; intros a ?%elem_of_seqZ; lia|]. intros a ts Ha Hts.
    apply (returns_forEach_all _ (λ a, 0 ≤ a < n)); [done|apply Forall_forall; intros x ?%elem_of_seqZ; lia|]. intros x ts' Hx Hts'.
    unfold add_entry. destruct (index_inside r x) as [required ->]; [lia|]. destruct (_ =? 0); [done|].
    destruct (Z.leb_spec 0 leader), (Z.ltb_spec leader n); try lia. cbn. apply Forall_app. split; [done|]. apply Forall_singleton.
    pose proof (dist_range p a). pose proof (dist_range a x). pose proof (dist_range x leader).
    pose proof (dist_short p a Hp Ha). pose proof (dist_short a x Ha Hx). pose proof (dist_short x leader Hx Hl).
    unfold triangle_ok. cbn. rewrite (wrapS_id 64 (_ + _)), (wrapS_id 64 (_ + _)) by (unfold day in *; rewrite ?wrapS_id; lia). lia.
  - intros ts Hts. cbn. by rewrite merge_sort_Permutation.
Qed.

Lemma build_graph_ok p leader budget r :
  0 ≤ p < n → index leaders p = Some leader → index budgets p = Some budget → index rs p = Some r →
  0 ≤ leader < n → 0 ≤ budget ≤ 2 ^ 62 → Z.of_nat (length r) = n →
  okay (build_graph n voters latency rs budgets leaders p) (λ g, graph_sound p g ∧ graph_complete leader budget r g).
Proof.
  intros Hp El Eb Er Hl Hb Hr. unfold build_graph. rewrite El, Eb, Er.
  pose proof (triangles_ok p leader r Hp Hl Hr) as Ht. destruct (triangles _ _ _ _ _ _) as [ts| |]; [|done..]. cbn in Ht. cbn [outcome_bind mbind].
  eapply okay_try; [apply (okay_each _ (walker_ok p)); [by apply first_walker_ok|]|].
  - intros t w Ht' Hw. apply walk_ok; try done; [|cbn; lia]. unfold value_paths in Ht'. rewrite merge_sort_Permutation in Ht'.
    apply list_elem_of_fmap in Ht' as (a & -> & _). apply dist_range.
  - intros w Hw. eapply okay_try; [apply (okay_each _ (walker_ok p)); [exact Hw|]|].
    + intros t w' Ht' Hw'. unfold add_triangle. destruct (previous_some w' leader budget p Hw' Hl ltac:(lia)) as [s ->].
      destruct (negb _); [done|]. rewrite Forall_forall in Ht. apply walk_ok; try done. by apply Ht.
    + intros w' Hw'. by apply finish_graph_ok.
Qed.

(** The result for each proposer. *)
Definition propagation_ok (gs : list propagationGraph) : Prop :=
  ∀ p leader budget r, 0 ≤ p < Z.of_nat (length gs) → index leaders p = Some leader → index budgets p = Some budget → index rs p = Some r →
    ∃ g, index gs p = Some g ∧ graph_sound p g ∧ graph_complete leader budget r g.

Lemma buildPropagation_ok : arguments_ok → okay (buildPropagation n voters latency rs budgets leaders)
  (λ gs, length gs = length rs ∧ propagation_ok gs).
Proof.
  intros [(L1 & L2 & L3) Hr Hb Hl]. unfold buildPropagation. rewrite L1.
  set (step := λ (p : Z) gs, try_ (build_graph n voters latency rs budgets leaders p) (λ g, ok (gs ++ [g]))).
  assert (∀ (k : nat) gs, Z.of_nat k = Z.of_nat (length gs) → propagation_ok gs → ∀ m, Z.of_nat k + Z.of_nat m = n →
    okay (try_each step (seqZ (Z.of_nat k) (Z.of_nat m)) gs) (λ gs, Z.of_nat (length gs) = n ∧ propagation_ok gs)) as H.
  { intros k gs Hk Hgs m. revert k gs Hk Hgs. induction m as [|m IH]; intros k gs Hk Hgs Hkm; [cbn; split; [lia|done]|].
    rewrite seqZ_cons by lia. cbn [try_each].
    destruct (index_inside leaders (Z.of_nat k)) as [leader El]; [lia|]. destruct (index_inside budgets (Z.of_nat k)) as [budget Eb]; [lia|].
    destruct (index_inside rs (Z.of_nat k)) as [r Er]; [lia|].
    eapply (okay_try _ _ (λ gs', Z.of_nat (S k) = Z.of_nat (length gs') ∧ propagation_ok gs')).
    - unfold step. eapply okay_try; [apply (build_graph_ok (Z.of_nat k) leader budget r); eauto using index_elem; lia|].
      intros g Hg. cbn. split; [rewrite length_app; cbn; lia|]. intros p leader' budget' r' Hp El' Eb' Er'. rewrite length_app in Hp. cbn in Hp.
      destruct (decide (p = Z.of_nat k)) as [->|Hne].
      + rewrite El in El'. rewrite Eb in Eb'. rewrite Er in Er'. injection El' as <-. injection Eb' as <-. injection Er' as <-.
        exists g. split; [|done]. rewrite index_nat. rewrite lookup_app_r by lia. by replace (k - length gs)%nat with 0%nat by lia.
      + destruct (Hgs p leader' budget' r') as (g' & Hg' & ?); [lia|done..|]. exists g'. split; [|done].
        unfold index in *. destruct (p <? 0); [done|]. by apply lookup_app_l_Some.
    - intros gs' [Hk' Hgs']. replace (Z.succ (Z.of_nat k)) with (Z.of_nat (S k)) by lia. replace (Z.pred (Z.of_nat (S m))) with (Z.of_nat m) by lia.
      apply IH; [done|done|lia]. }
  specialize (H 0%nat [] eq_refl). replace n with (Z.of_nat (Z.to_nat n)) at 1 by lia.
  eapply okay_mono; [apply H; [|lia]|].
  - intros p leader budget r Hp. cbn in Hp. lia.
  - intros gs [? ?]. split; [lia|done].
Qed.
End Built.

(** C38. On what its caller establishes (a square table of latencies of at most a
    day, a requirement with a set per process, a leader and a budget of at most
    [2 ^ 62] for each process) the construction of propagation graphs
    ([buildPropagation]), which computes times in 64 bits, never panics, and when
    it returns without an error it gives one graph per proposer in which: the
    states of a process are in the order of their planned times; what a state says
    its process knows (who has taken the value) has been carried to it by planned
    messages from processes that have taken it; what it says of the knowledge of
    another process, that process has in the state named by [Remote]; every
    message that a state depends on is sent, earlier, by the state it names; and
    in the last state of the leader, at the budgeted time, the requirement is
    covered, by states of the voters that are their last. *)
Theorem propagation_sound n voters latency rs budgets leaders :
  n ≤ 64 → 0 < voters ≤ n → table_ok n latency → arguments_ok n rs budgets leaders →
  okay (buildPropagation n voters latency rs budgets leaders)
    (λ gs, length gs = length rs ∧ propagation_ok n voters rs budgets leaders gs).
Proof. intros ? [? ?] ? ?. apply buildPropagation_ok; (done || lia). Qed.

(** Three voters at the same distance, each the leader of its values. *)
Definition demo_latency : matrix := list_to_map (i ← seqZ 0 3; j ← seqZ 0 3; [((i, j), if i =? j then 0 else 10)]).
Definition demo_graphs : result (list propagationGraph) :=
  buildPropagation 3 3 demo_latency (map demo_requirement [0; 1; 2]) [20; 20; 20] [0; 1; 2].
Lemma propagation_sound_witness : ∃ gs, demo_graphs = Done (inr gs) ∧ length gs = 3%nat ∧
  propagation_ok 3 3 (map demo_requirement [0; 1; 2]) [20; 20; 20] [0; 1; 2] gs.
Proof.
  assert (okay demo_graphs (λ gs, length gs = 3%nat ∧ propagation_ok 3 3 (map demo_requirement [0; 1; 2]) [20; 20; 20] [0; 1; 2] gs)) as H.
  { apply (propagation_sound 3 3 demo_latency); [lia|lia| |].
    - assert (Forall (λ c, demo_latency !! c = Some (if c.1 =? c.2 then 0 else 10)) (i ← seqZ 0 3; j ← seqZ 0 3; [(i, j)])) as Hall
        by (apply (bool_decide_eq_true_1 _); vm_compute; reflexivity).
      rewrite Forall_forall in Hall. intros i j Hi Hj. exists (if i =? j then 0 else 10). split; [|unfold day; case_match; lia].
      apply (Hall (i, j)). apply list_elem_of_bind. exists i. split; [|apply elem_of_seqZ; lia]. apply list_elem_of_bind. exists j.
      split; [by left|apply elem_of_seqZ; lia].
    - constructor; [done| | |].
      + intros r [p [-> _]]%list_elem_of_fmap. done.
      + intros b Hb. rewrite !elem_of_cons, elem_of_nil in Hb. lia.
      + intros l Hl. rewrite !elem_of_cons, elem_of_nil in Hl. lia. }
  assert (match demo_graphs with Done (inr _) => True | _ => False end) as Hd by (vm_compute; exact I).
  destruct demo_graphs as [[?|gs]| |]; [done| |done..]. by exists gs.
Defined.
End KcensusPlan.
